(* ===== verification/_CoqProject ===== *)
-Q . S2P
Prelude.v
SysUtils.v
Bitmap.v
Cbuf.v
ListSpec.v
XList.v
L4Types.v
AddressSpace.v
Kmem.v
CString.v
CStdlib.v
Stdio.v
Threads.v
Sched.v
Mmu.v
Ptable.v
PtableSpec.v
Aspace.v
Paging.v
Task.v
Kernel.v
Ipc.v
Syscalls.v
Entry.v
KernelInv.v
KernelSafe.v
System.v
IpcSpec.v
SyscallSpec.v
TaskSpec.v
CopySpec.v
Fair.v
Scenario.v
KernelRuns.v
Sem.v
SemSpec.v
MemPool.v
MemPoolSpec.v
MemPoolSafe.v
PagePool.v
Sigma0Srv.v
Packets.v
PacketSpec.v
Sockets.v
NetStack.v
NetClient.v
NetFrame.v
NetSpec.v
TcpSpec.v
NetTables.v
NetRuns.v
Psocket.v
PsocketSpec.v
AppMgr.v
Alpha.v
AlphaMem.v
AlphaSpec.v
AlphaAuth.v
AlphaRuns.v
