(* ===== verification/Prelude.v ===== *)
(** * WrmOS: a verified model of the kernel core and of its C libraries

    WrmOS is an L4 microkernel with a small user land.  This library models
    the parts of the repository that carry its own data structures and
    algorithms, and proves what makes them correct.  The modelled target is
    the SPARC LEON configuration: 32-bit words and pointers, big-endian
    bit-fields, no DEBUG checks.

    ** Parts of the program and files of the development

    - [Prelude]: machine integers (a w-bit value is a Z in [0, 2^w) with
      explicit reductions), the result type of code that may assert, panic or
      fault, bit-fields, the shared tactics.
    - [SysUtils]: lib/sys/sys_utils.h, rounding and logarithms of sizes.
    - [Bitmap]: lib/containers/bitmap.h and static_pool.h (Modules Bitmap and
      StaticPool): the bitmap words and the block pool on top of them.
    - [Cbuf]: lib/containers/cbuf.h, the circular byte buffer.
    - [ListSpec]: the contract of lib/containers/list.h as its users see it
      (a sequence of addressed items and a free list).
    - [XList]: list.h itself: items with next and previous pointers in an
      explicit heap, the busy and free lists, memory supply, iterators; the
      refinement of [ListSpec].
    - [L4Types]: lib/l4/inc/l4_types.h: thread ids, times, flex pages, typed
      items, message tags and IPC errors as bit-fields.
    - [AddressSpace]: the class template Address_space_t of krn/kmem.h, the
      ordered region map, on [ListSpec]; the class [RegionType] states what it
      needs of its region type.
    - [Kmem]: the kernel heap (Kmem) and the read-only queries of Aspace of
      krn/kmem.h, clients of [AddressSpace].
    - [CString], [CStdlib], [Stdio]: lib/wlibc/src/string.c, ctype.c, stdlib.c
      and stdio.c over a byte memory in which unmapped addresses fault.
    - [Threads]: krn/thread.h, threads.h, sched.h and kconfig.h: the thread
      state machine, priorities and their inheritance, the ready, send and
      timeout lists, the scheduler, timeouts, partner search, creation.
    - [Sched]: the invariant of [Threads] and its theorems.
    - [Mmu]: lib/mmu: the table records of the SPARC reference MMU, of ARM and
      of x86 in 32 and 64 bits; the class [Mmu] is the interface of these
      functions, the class [MmuSpec] what the page tables need of them.
    - [Ptable]: krn/ptable.h, multi-level page tables (Ptable), kernel tables
      and contexts (Pgtab), over any [Mmu] and any allocator [TableHeap].
    - [PtableSpec]: the translation a tree of tables denotes, its
      well-formedness, and the effect of map, unmap and walk on it.
    - [Aspace]: the class Aspace of krn/kmem.h with krn/access.h and the
      rights translation of each architecture: region lists, page tables and
      kernel heap together.
    - [Paging]: concrete kernel instances of the page table theorems.
    - [Task]: krn/task.h, tasks with their KIP and UTCB areas.
    - [Kernel]: the state of the running kernel, the type [K] of handlers that
      may switch to another thread in the middle, the UTCB and the SPARC entry
      frame, the remaining methods of Thread_t and Int_thread_t.
    - [Ipc], [Syscalls], [Entry]: krn/ipc.cpp, krn/syscalls.cpp,
      krn/kentry.cpp with krn/sparc/entry.cpp.
    - [KernelInv], [KernelSafe]: the operations of [Threads] and then every
      handler keep the invariant of the scheduler and the sizes of the
      kernel's arrays, also across the switches inside handlers.
    - [System]: the running system as a step relation: user code, kernel
      entries, handlers suspended on the stacks of their threads.
    - [IpcSpec], [SyscallSpec], [TaskSpec], [CopySpec], [Fair]: what messages,
      faults, system calls, UTCB pages, string copies and the rotation of time
      slices do.
    - [Scenario], [KernelRuns]: a sample system, runs of it, and the instances
      of the kernel theorems.
    - [Sem]: lib/wrmos: slock.cpp, sem.cpp, wrm_mtx.h: the spinlock, the
      critical sections of the semaphore, and the threads that share one, as
      atomic actions with the kernel's software signals between them.
    - [SemSpec]: what semaphores and mutexes guarantee in every interleaving.
    - [MemPool]: lib/containers/memory_pool.h, the allocator of the user heap:
      descriptors in memory, the region list, the free lists by size.
    - [MemPoolSpec], [MemPoolSafe]: the memory a pool denotes (a tiling of its
      area by aligned power-of-two blocks), the effect of splitting, combining,
      allocation and release on it; what clients of the heap may rely on.
    - [PagePool]: lib/containers/page_pool.h, the flex page allocator.
    - [Sigma0Srv]: app/sigma0/main.cpp, the root pager.
    - [Packets]: app/tcpip: helpers.h, mac.h, packets.h: the Internet checksum
      and the fields of packets in memory; [PacketSpec]: ranges of memory as
      lists of bytes, the checksum of RFC 1071.
    - [Sockets]: app/tcpip/socket.h: streams, sockets and their tables on
      [ListSpec].
    - [NetStack], [NetClient]: app/tcpip/main.cpp: the network stack (frames,
      ARP, TCP, UDP, ICMP, IP), the requests of clients, the rounds of the two
      threads and the start; the class [NetEnv] has the answers of the driver,
      the clients and the root task.
    - [NetFrame]: what handlers leave unchanged, by automation along the code.
    - [NetSpec], [TcpSpec], [NetTables], [NetRuns]: delivery of datagrams, the
      automaton of TCP streams, the ARP cache and the isolation of clients,
      runs of two stacks.
    - [Psocket]: lib/psocket/psocket.cpp, the client library of sockets: the
      messages it sends, the replies it reads, addresses as text;
      [PsocketSpec]: the library over the server of [NetClient].
    - [AppMgr]: lib/wrmos/src/app.cpp, the application manager: the threads of
      an application, its memory regions, their locations in pages of
      [PagePool], arguments and start; the class [RtEnv] has the results of
      kernel calls and the headers of ELF files.
    - [Alpha]: app/alpha/main.cpp, the root task: page faults, requests for
      devices, memory, threads and tasks, names, the message loop.
    - [AlphaMem], [AlphaSpec], [AlphaAuth]: who owns which page, and with
      which authority the root task acts, in every state that the start and any
      messages reach; [AlphaRuns]: runs with two applications.

    The kernel lists of threads and regions are list_t objects; a component
    that uses them is stated on [ListSpec], which [XList] implements.

    ** What the theorems show

    - Scheduler: every thread is in exactly the list its state prescribes, its
      iterator names its item, the ready bits mark the non-empty ready lists
      and the timeout lists are ordered.  Changing the priority of a thread
      always succeeds and keeps this, and so does changing its state, which
      also takes back a priority that the thread has lent; it stops on an
      assertion exactly if the priority was changed while it was lent.  The
      scheduler takes the head of the highest ready list with round robin; a
      timeout pass wakes exactly the expired threads (stated for threads that
      have not lent their priority).
    - list_t: each operation on the pointer structure returns what the
      sequence contract says and keeps the representation, the exhaustion of
      the free items (with and without an allocator) included.
    - Address spaces: a space denotes a partial map from addresses to rights.
      add, insert, remove and alloc change exactly their range of this map or
      refuse; alloc is first fit and complete unless a region straddles the
      start of the window.  The kernel heap keeps its
      counter of free bytes exact.
    - Page tables: a well-formed tree denotes a translation of addresses.
      map, unmap and walk terminate and change or read exactly their range of
      it, for every cell format that meets [MmuSpec]; map and unmap of an
      address space keep its region list and its page tables in agreement.
    - The whole kernel: the invariant of the scheduler and the sizes of all
      register files hold in every state that any sequence of entries,
      switches and user code reaches; a handler that stops (panic, assertion)
      ends the system.
    - IPC: the exact effect of a message of untyped words, of a failed send, of
      page fault and exception messages with the reply; the loop over typed
      items ends.  Sample runs show the defects of map and grant items,
      priority inheritance and interrupt tags.
    - System calls: the privilege checks, schedule, memory_control.
    - Copies between address spaces equal byte-wise copies; UTCB pages are
      handed out as a set; equal priorities share the processor.
    - Semaphores: the ring of waiting threads is a FIFO queue; in every
      interleaving units are conserved, a mutex has one holder, no assertion
      fails and no wake-up is lost; recursive mutexes are released by the
      first unlock.
    - User heap: buffers that clients hold never overlap each other nor a
      descriptor, requests are refused only for lack of a large enough block,
      and a heap whose buffers are all released is whole again.  This holds
      for one area; areas added later are merged over the gap.
    - Page pool and sigma0: pages leave the pool once, with the size, the
      alignment and the rights asked for; sigma0 never hands out a byte of
      conventional memory twice.
    - Network stack: the checksum is the ones-complement sum; a datagram that
      one stack sends is accepted by another and its bytes reach the client or
      the queue of the port; segments drive streams along the automaton of
      [TcpSpec]; no request changes a socket of another application; addresses
      are learned, found and expire; two stacks run a whole TCP session.
      Sample runs show the packets and requests that stop the server.
    - Socket library: the server reads in the message of a call the arguments
      of the call, and every reply it sends in any state is one the call
      understands.
    - Root task: writable memory of an application is its own, and its page
      faults are served from it; a request acts only on threads of the sender's
      application and on interrupts of its devices.  Sample runs show where
      the checks of the code fail.
    - Bitmaps, pools, circular buffer: lowest free bit, fresh blocks, FIFO
      order; the two defective cases of overwrite.
    - L4 types: fields read back what was written, predicates recognise what
      the constructors built, with the exact exceptions.
    - C library: copies, fills, comparisons and searches on every path of the
      optimised loops; strtoul in every base with exact overflow; integer conversion whose
      digits read back as the value; formatted output that, when it returns, has
      not written outside its buffer.
    Where the code deviates from its purpose the theorem states the deviation
    (memmove on overlapping ranges, memset of large bytes, memcmp on the word
    path, the output of more than 256 characters by vprintf, and others).

    ** Bounds and fuel

    Loops over lists recurse on the list.  Loops over memory that end at a
    terminator take fuel; the theorems require the fuel to exceed the length
    of the data, so they state termination with a result.  The loops over
    bits use the word width as fuel (the digit loop of the integer conversion
    its array of 22 characters), the timeout pass the length of its list; the
    theorems show that these bounds are never reached.  The loops of the page
    tables have the number of records of a table plus two as fuel.  The sum
    of the Internet checksum is folded at most three times; the loop over the
    words of a packet has one round for each mapped byte.  The loop
    over the typed items of a message has 64 rounds of fuel and needs at most
    32.  The loop of check_force_exception may be prolonged by other threads
    for ever, so its fuel is an argument of the entry points; the theorems of
    [System] hold for every value of it.

    ** What is not modelled

    Assembly and device drivers (registers), the boot sequence, the kernel
    debugger and its output, the loader and the other user servers; cache and TLB
    maintenance; the conversion of floating point numbers (a parameter of
    [Stdio] with the hypothesis that it writes inside its buffer), scanf; the
    DEBUG consistency checks and all logging.  Kernel stack allocation, FPU
    frames and time accounting are left out of the thread model.  In [System]
    the idle thread runs its own loop: no privileged thread creates threads in
    its task or sets its flags ([idle_ok]).  Of sigma0 the system calls
    that create the root task are left out; of the root task the parser of the
    configuration (its result is an argument), the requests to sigma0 at the
    start and the ELF loader; of the network stack the creation and
    registration of its threads.  Assertions of the network stack are
    modelled as checked. *)

From Stdlib Require Import ZArith Lia Bool.
From stdpp Require Import base list numbers.

#[global] Open Scope Z_scope.

(** * Machine integers

    The modelled target is the SPARC LEON configuration: [word_t], [size_t],
    [addr_t] and [unsigned] are 32 bits wide, [uint64_t] and [L4_clock_t] are
    64 bits wide, the byte order is big-endian.  A w-bit unsigned value is a
    [Z] in [0, 2^w); every operation that may leave the range is followed by
    an explicit reduction. *)

Definition wrap (w x : Z) : Z := x mod 2 ^ w.
Abbreviation u8 := (wrap 8).
Abbreviation u16 := (wrap 16).
Abbreviation u32 := (wrap 32).
Abbreviation u64 := (wrap 64).

(** Two's complement reading of a w-bit value. *)
Definition signed (w x : Z) : Z :=
  let y := wrap w x in if y <? 2 ^ (w - 1) then y else y - 2 ^ w.
Abbreviation s32 := (signed 32).

Definition in_range (w x : Z) : Prop := 0 <= x < 2 ^ w.

Lemma wrap_range w x : 0 <= w -> in_range w (wrap w x).
Proof. intros. unfold in_range, wrap. apply Z.mod_pos_bound. lia. Qed.

Lemma wrap_small w x : in_range w x -> wrap w x = x.
Proof. intros. unfold wrap. by apply Z.mod_small. Qed.

Lemma wrap_wrap w x : wrap w (wrap w x) = wrap w x.
Proof. unfold wrap. by rewrite Zmod_mod. Qed.

Lemma wrap_add_l w x y : wrap w (wrap w x + y) = wrap w (x + y).
Proof. unfold wrap. by rewrite Zplus_mod_idemp_l. Qed.

(** * Failing computations

    A failed [wassert]/[assert], a [panic] and a memory error of the C code
    stop the modelled computation; [Stop] records which of them happened. *)

Inductive fault :=
| FAssert   (* wassert / assert failed *)
| FPanic    (* panic(...) was called *)
| FMem      (* access through a null or dangling pointer, or out of bounds *)
| FFuel.    (* a loop of the model ran out of fuel *)

Inductive res (A : Type) :=
| Ok (a : A)
| Stop (f : fault).
Arguments Ok {A} _.
Arguments Stop {A} _.

#[global] Instance fault_eq_dec : EqDecision fault.
Proof. solve_decision. Defined.

#[global] Instance res_eq_dec `{EqDecision A} : EqDecision (res A).
Proof. solve_decision. Defined.

#[global] Instance res_ret : MRet res := fun A a => Ok a.
#[global] Instance res_bind : MBind res := fun A B f m =>
  match m with Ok a => f a | Stop e => Stop e end.

Definition wassert (b : bool) : res unit := if b then Ok tt else Stop FAssert.
Definition from_opt {A} (f : fault) (o : option A) : res A :=
  match o with Some a => Ok a | None => Stop f end.

Lemma bind_Ok {A B} (m : res A) (f : A -> res B) b :
  m ≫= f = Ok b -> exists a, m = Ok a /\ f a = Ok b.
Proof. destruct m; simpl; intros; [eauto | discriminate]. Qed.

Lemma wassert_Ok b u : wassert b = Ok u -> b = true.
Proof. destruct b; simpl; [done | discriminate]. Qed.

(** * Bit fields

    [bf_get lo w x] reads the w-bit field of [x] whose least significant bit
    is [lo]; [bf_set lo w v x] overwrites it.  The C bit-field structs of
    l4_types.h are accessed through these two functions, with the offsets of
    the big-endian layout (first declared field = most significant). *)

Definition bf_get (lo w x : Z) : Z := Z.land (Z.shiftr x lo) (Z.ones w).
Definition bf_set (lo w v x : Z) : Z :=
  Z.lor (Z.ldiff x (Z.shiftl (Z.ones w) lo)) (Z.shiftl (Z.land v (Z.ones w)) lo).

Create HintDb word.

(** Decide the integer comparisons of a bit-level goal. *)
Ltac bit_cases :=
  repeat match goal with
  | |- context [?a <=? ?b] => destruct (Z.leb_spec a b); simpl; try lia
  | |- context [?a <? ?b] => destruct (Z.ltb_spec a b); simpl; try lia
  | |- context [?a =? ?b] => destruct (Z.eqb_spec a b); simpl; try lia
  end.

Lemma testbit_ones w i : 0 <= w -> Z.testbit (Z.ones w) i = (0 <=? i) && (i <? w).
Proof. intros. rewrite Z.testbit_ones by lia. done. Qed.

Lemma bf_get_spec lo w x i : 0 <= lo -> 0 <= w ->
  Z.testbit (bf_get lo w x) i = (0 <=? i) && (i <? w) && Z.testbit x (i + lo).
Proof.
  intros. unfold bf_get. rewrite Z.land_spec, testbit_ones by lia.
  destruct (Z.leb_spec 0 i); [| by rewrite Z.testbit_neg_r, andb_false_l by lia].
  rewrite Z.shiftr_spec by lia. simpl. by rewrite andb_comm.
Qed.

Lemma bf_set_spec lo w v x i : 0 <= lo -> 0 <= w -> 0 <= i ->
  Z.testbit (bf_set lo w v x) i =
  if (lo <=? i) && (i <? lo + w) then Z.testbit v (i - lo) else Z.testbit x i.
Proof.
  intros. unfold bf_set. rewrite Z.lor_spec, Z.ldiff_spec, !Z.shiftl_spec by lia.
  rewrite Z.land_spec, !testbit_ones by lia.
  bit_cases; rewrite ?andb_true_r, ?andb_false_r, ?orb_false_r; done.
Qed.

Lemma in_range_bits w x : 0 <= w ->
  (forall i, w <= i -> Z.testbit x i = false) -> in_range w x.
Proof.
  intros Hw Hi. assert (Hx : wrap w x = x).
  { unfold wrap. apply Z.bits_inj'. intros i Hi0.
    destruct (Z.lt_ge_cases i w).
    - by rewrite Z.mod_pow2_bits_low.
    - by rewrite Z.mod_pow2_bits_high, Hi by lia. }
  rewrite <- Hx. by apply wrap_range.
Qed.

Lemma in_range_testbit w x i : 0 <= w -> in_range w x -> w <= i -> Z.testbit x i = false.
Proof.
  intros Hw Hr Hi. rewrite <- (wrap_small w x Hr). unfold wrap.
  by apply Z.mod_pow2_bits_high; lia.
Qed.

Lemma bf_get_range lo w x : 0 <= lo -> 0 <= w -> in_range w (bf_get lo w x).
Proof.
  intros. apply in_range_bits; [done |]. intros i Hi.
  rewrite bf_get_spec by lia. bit_cases; done.
Qed.

Lemma bf_set_range W lo w v x : 0 <= lo -> 0 <= w -> lo + w <= W ->
  in_range W x -> in_range W (bf_set lo w v x).
Proof.
  intros. apply in_range_bits; [lia |]. intros i Hi.
  rewrite bf_set_spec by lia. bit_cases; apply (in_range_testbit W); auto; lia.
Qed.

Lemma bf_get_set_same lo w v x : 0 <= lo -> 0 <= w ->
  bf_get lo w (bf_set lo w v x) = wrap w v.
Proof.
  intros. apply Z.bits_inj'. intros i Hi.
  rewrite bf_get_spec, bf_set_spec by lia. unfold wrap.
  destruct (Z.lt_ge_cases i w).
  - rewrite Z.mod_pow2_bits_low by lia. bit_cases. f_equal; lia.
  - rewrite Z.mod_pow2_bits_high by lia. bit_cases; done.
Qed.

Lemma bf_get_set_other lo w lo' w' v x : 0 <= lo -> 0 <= w -> 0 <= lo' -> 0 <= w' ->
  lo' + w' <= lo \/ lo + w <= lo' ->
  bf_get lo w (bf_set lo' w' v x) = bf_get lo w x.
Proof.
  intros. apply Z.bits_inj'. intros i Hi.
  rewrite !bf_get_spec by lia. bit_cases.
  rewrite bf_set_spec by lia. bit_cases; done.
Qed.

Lemma bf_get_div lo w x : 0 <= lo -> 0 <= w -> bf_get lo w x = (x / 2 ^ lo) mod 2 ^ w.
Proof.
  intros. unfold bf_get. by rewrite Z.land_ones, Z.shiftr_div_pow2 by lia.
Qed.

#[export] Hint Resolve wrap_range bf_get_range bf_set_range : word.
#[export] Hint Extern 1 (_ <= _) => lia : word.
#[export] Hint Extern 1 (_ < _) => lia : word.

(** Solve [bf_get] of a chain of [bf_set]s with literal offsets. *)
Ltac bf_simpl :=
  repeat first
    [ rewrite bf_get_set_same by lia
    | rewrite bf_get_set_other by lia ].

(** * Result-monad automation *)

(** Split a hypothesis [m ≫= f = Ok r] into its steps. *)
Ltac inv_bind :=
  repeat match goal with
  | H : (_ ≫= _) = Ok _ |- _ =>
      let a := fresh "x" in let E := fresh "E" in
      apply bind_Ok in H as (a & E & H)
  | H : wassert _ = Ok ?u |- _ => apply wassert_Ok in H; try clear u
  | H : Ok _ = Ok _ |- _ => injection H as H; try subst
  | H : Stop _ = Ok _ |- _ => discriminate H
  end.

(** * Pairwise relations on lists *)

Section Pairwise.
Context {A : Type} (R : A -> A -> Prop).

Fixpoint pairwise (l : list A) : Prop := match l with [] => True | x :: t => Forall (R x) t /\ pairwise t end.

Lemma pairwise_perm : (forall x y, R x y -> R y x) -> forall l l', l ≡ₚ l' -> pairwise l -> pairwise l'.
Proof.
  intros Hs l l' Hp. induction Hp as [|x l l' Hp IH|x y l|l l' l'' _ IH1 _ IH2]; simpl; try done.
  - intros [F D]. split; [by rewrite <- Hp | auto].
  - intros [F [G D]]. apply Forall_cons_iff in F as [Hxy F]. split_and!; [| done | done]. constructor; [by apply Hs | done].
  - auto.
Qed.

End Pairwise.
