(* ===== verification/SysUtils.v ===== *)
(** lib/sys/sys_utils.h: address rounding macros and log2 size helpers.

    All values are 32-bit ([size_t], [addr_t], [unsigned]). *)

From Stdlib Require Import ZArith Lia.
From stdpp Require Import base numbers.
From S2P Require Import Prelude.

(** ** Address and size macros *)

Definition cmin (a b : Z) : Z := if a <? b then a else b.
Definition cmax (a b : Z) : Z := if b <? a then a else b.

Definition mask_of (a : Z) : Z := u32 (a - 1).
Definition round_up (n a : Z) : Z := Z.land (u32 (n + mask_of a)) (u32 (Z.lnot (mask_of a))).
Definition round_down (n a : Z) : Z := Z.land n (u32 (Z.lnot (mask_of a))).
Definition get_offset (n a : Z) : Z := Z.land n (mask_of a).
Definition is_aligned (n a : Z) : bool := get_offset n a =? 0.

(** Cfg_page_sz of the modelled configuration. *)
Definition Cfg_page_sz : Z := 4096.
Definition round_pg_up (n : Z) : Z := round_up n Cfg_page_sz.
Definition round_pg_down (n : Z) : Z := round_down n Cfg_page_sz.
Definition get_pg_offset (n : Z) : Z := get_offset n Cfg_page_sz.
Definition is_pg_aligned (n : Z) : bool := is_aligned n Cfg_page_sz.

(** ** log2 helpers *)

Definition get_size (log2sz : Z) : Z := u32 (Z.shiftl 1 log2sz).

(** The loop [while (!(bytes & 1)) { bytes >>= 1; log2sz += 1; }]. *)
Fixpoint low_bit_loop (fuel : nat) (bytes log2sz : Z) : res Z :=
  match fuel with
  | O => Stop FFuel
  | S f => if Z.land bytes 1 =? 0 then low_bit_loop f (Z.shiftr bytes 1) (log2sz + 1)
           else Ok log2sz
  end.

Definition get_log2sz (sz_bytes : Z) : res Z :=
  if sz_bytes =? 0 then Ok 0
  else log2sz ← low_bit_loop 32 sz_bytes 0;
       if negb (get_size log2sz =? sz_bytes) then Ok 0 else Ok log2sz.

(** The loop [for (int i=31; i>=0; --i) if (sz >> i) { log2sz = i; break; }];
    [n] counts the remaining values of [i]. *)
Fixpoint top_bit_loop (n : nat) (sz_bytes : Z) : Z :=
  match n with
  | O => 0
  | S i => if negb (Z.shiftr sz_bytes (Z.of_nat i) =? 0) then Z.of_nat i
           else top_bit_loop i sz_bytes
  end.

Definition get_log2sz_low_range (sz_bytes : Z) : Z :=
  if sz_bytes =? 0 then 0 else top_bit_loop 32 sz_bytes.

Definition get_log2sz_top_range (sz_bytes : Z) : Z :=
  if sz_bytes =? 0 then 0
  else let log2sz := top_bit_loop 32 sz_bytes in
       if negb (get_size log2sz =? sz_bytes) then log2sz + 1 else log2sz.

(** ** Rounding: lemmas *)

Lemma mask_of_pow2 k : 0 <= k <= 32 -> mask_of (2 ^ k) = Z.ones k.
Proof.
  intros. unfold mask_of. rewrite wrap_small, Z.ones_equiv; [lia |].
  unfold in_range. pose proof (Z.pow_pos_nonneg 2 k).
  pose proof (Z.pow_le_mono_r 2 k 32). lia.
Qed.

Lemma land_lnot_ones k n : 0 <= k <= 32 -> in_range 32 n ->
  Z.land n (u32 (Z.lnot (Z.ones k))) = Z.shiftl (Z.shiftr n k) k.
Proof.
  intros Hk Hn. apply Z.bits_inj'. intros i Hi.
  rewrite Z.land_spec, Z.shiftl_spec by lia. unfold wrap.
  destruct (Z.lt_ge_cases i k).
  - rewrite (Z.testbit_neg_r _ (i - k)) by lia.
    rewrite Z.mod_pow2_bits_low, Z.lnot_spec, testbit_ones by lia.
    bit_cases; by rewrite andb_false_r.
  - rewrite Z.shiftr_spec, Z.sub_add by lia.
    destruct (Z.lt_ge_cases i 32).
    + rewrite Z.mod_pow2_bits_low, Z.lnot_spec, testbit_ones by lia.
      bit_cases; by rewrite andb_true_r.
    + by rewrite (in_range_testbit 32 n) by (auto; lia).
Qed.

Lemma round_down_spec n k : 0 <= k <= 32 -> in_range 32 n ->
  round_down n (2 ^ k) = n / 2 ^ k * 2 ^ k.
Proof.
  intros. unfold round_down. rewrite mask_of_pow2, land_lnot_ones by (auto; lia).
  by rewrite Z.shiftl_mul_pow2, Z.shiftr_div_pow2 by lia.
Qed.

Lemma round_up_spec n k : 0 <= k <= 32 ->
  round_up n (2 ^ k) = u32 (n + (2 ^ k - 1)) / 2 ^ k * 2 ^ k.
Proof.
  intros. unfold round_up. rewrite mask_of_pow2, land_lnot_ones by (auto with word; lia).
  rewrite Z.ones_equiv, Z.shiftl_mul_pow2, Z.shiftr_div_pow2 by lia.
  by rewrite Z.sub_1_r.
Qed.

Lemma get_offset_spec n k : 0 <= k <= 32 -> get_offset n (2 ^ k) = n mod 2 ^ k.
Proof. intros. unfold get_offset. by rewrite mask_of_pow2, Z.land_ones by lia. Qed.

Lemma is_aligned_spec n k : 0 <= k <= 32 ->
  is_aligned n (2 ^ k) = true <-> n mod 2 ^ k = 0.
Proof. intros. unfold is_aligned. rewrite get_offset_spec by lia. apply Z.eqb_eq. Qed.

Lemma round_down_offset n k : 0 <= k <= 32 -> in_range 32 n ->
  round_down n (2 ^ k) + get_offset n (2 ^ k) = n.
Proof.
  intros. rewrite round_down_spec, get_offset_spec by (auto; lia).
  pose proof (Z.div_mod n (2 ^ k)). lia.
Qed.

(** [r] is the least multiple of [a] that is not below [n]. *)
Definition least_multiple (a n r : Z) : Prop :=
  (a | r) /\ n <= r /\ forall m, (a | m) -> n <= m -> r <= m.

Lemma div_up_least a n : 0 < a -> least_multiple a n ((n + (a - 1)) / a * a).
Proof.
  intros Ha. pose proof (Z.div_mod (n + (a - 1)) a ltac:(lia)) as E.
  pose proof (Z.mod_pos_bound (n + (a - 1)) a Ha) as B.
  split; [apply Z.divide_factor_r | split; [lia |]].
  intros m [q ->] Hm. apply Z.mul_le_mono_nonneg_r; [lia |].
  apply Z.lt_pred_le, (Z.mul_lt_mono_pos_r a); lia.
Qed.

(** [round_up(n, a)] for a power of two [a] returns the least multiple of
    [a] not below [n] whenever that multiple fits in 32 bits, and otherwise
    wraps around to 0. *)
Theorem round_up_correct n k : 0 <= k < 32 -> in_range 32 n ->
  (n <= 2 ^ 32 - 2 ^ k -> least_multiple (2 ^ k) n (round_up n (2 ^ k))) /\
  (2 ^ 32 - 2 ^ k < n -> round_up n (2 ^ k) = 0).
Proof.
  intros Hk Hn. unfold in_range in Hn. rewrite round_up_spec by lia.
  pose proof (Z.pow_pos_nonneg 2 k ltac:(lia) ltac:(lia)) as Hp.
  pose proof (Z.pow_le_mono_r 2 k 32 ltac:(lia) ltac:(lia)).
  split; intros.
  - rewrite wrap_small by (unfold in_range; lia). by apply div_up_least.
  - replace (u32 (n + (2 ^ k - 1))) with (n + (2 ^ k - 1) - 2 ^ 32).
    + rewrite Z.div_small; lia.
    + unfold wrap. rewrite <- (Z.mod_add _ (-1)) by lia. rewrite Z.mod_small; lia.
Qed.

Lemma round_up_correct_witness :
  least_multiple (2 ^ 12) 4097 (round_up 4097 (2 ^ 12)) /\
  round_up 4294967295 (2 ^ 12) = 0.
Proof.
  split.
  - apply (proj1 (round_up_correct 4097 12 ltac:(lia) ltac:(unfold in_range; lia))). lia.
  - apply (proj2 (round_up_correct 4294967295 12 ltac:(lia) ltac:(unfold in_range; lia))). lia.
Defined.

(** ** log2: lemmas *)

Lemma land_1_odd b : Z.land b 1 = Z.b2z (Z.odd b).
Proof. change 1 with (Z.ones 1). rewrite Z.land_ones by lia. by rewrite Zmod_odd; destruct (Z.odd b). Qed.

Lemma low_bit_loop_spec fuel b k : 0 < b < 2 ^ Z.of_nat fuel ->
  exists t q, 0 <= t < Z.of_nat fuel /\ b = (2 * q + 1) * 2 ^ t /\
              low_bit_loop fuel b k = Ok (k + t).
Proof.
  revert b k. induction fuel as [|f IH]; intros b k Hb; [simpl in Hb; lia |].
  rewrite Nat2Z.inj_succ in *. rewrite Z.pow_succ_r in Hb by lia.
  cbn [low_bit_loop]. rewrite land_1_odd. destruct (Z.odd b) eqn:Eo; simpl.
  - exists 0, (b / 2). pose proof (Zdiv2_odd_eqn b) as E. rewrite Eo, Z.div2_div in E.
    repeat split; [lia | lia | rewrite Z.pow_0_r; lia | f_equal; lia].
  - pose proof (Zdiv2_odd_eqn b) as E. rewrite Eo, Z.div2_div in E.
    rewrite Z.shiftr_div_pow2 by lia. change (2 ^ 1) with 2.
    destruct (IH (b / 2) (k + 1)) as (t & q & Ht & Eb & ->); [lia |].
    exists (t + 1), q. repeat split; [lia | lia | | f_equal; lia].
    rewrite Z.pow_add_r by lia. change (2 ^ 1) with 2. lia.
Qed.

Lemma odd_pow2_unique q t k : 0 <= t -> 0 <= k -> (2 * q + 1) * 2 ^ t = 2 ^ k -> t = k.
Proof.
  intros Ht Hk E. destruct (Z.lt_trichotomy t k) as [L | [? | L]]; [exfalso | done | exfalso].
  - replace (2 ^ k) with (2 * 2 ^ (k - t - 1) * 2 ^ t) in E.
    + apply Z.mul_reg_r in E; [lia |]. pose proof (Z.pow_pos_nonneg 2 t). lia.
    + rewrite <- Z.pow_succ_r, <- Z.pow_add_r by lia. f_equal; lia.
  - replace (2 ^ t) with (2 ^ (t - k) * 2 ^ k) in E by (rewrite <- Z.pow_add_r by lia; f_equal; lia).
    assert (E' : (2 * q + 1) * 2 ^ (t - k) = 1).
    { pose proof (Z.pow_pos_nonneg 2 k ltac:(lia) ltac:(lia)).
      apply (Z.mul_reg_r _ _ (2 ^ k)); lia. }
    replace (t - k) with (Z.succ (t - k - 1)) in E' by lia.
    rewrite Z.pow_succ_r in E' by lia. lia.
Qed.

Lemma get_size_pow2 k : 0 <= k < 32 -> get_size k = 2 ^ k.
Proof.
  intros. unfold get_size. rewrite Z.shiftl_1_l. apply wrap_small. unfold in_range.
  pose proof (Z.pow_pos_nonneg 2 k). pose proof (Z.pow_lt_mono_r 2 k 32). lia.
Qed.

(** [get_log2sz] terminates on every 32-bit size and inverts [get_size]:
    it returns [k] exactly on the power of two [2^k], and the error value 0 on
    every size that is not a power of two. *)
Theorem get_log2sz_correct sz : in_range 32 sz ->
  exists r, get_log2sz sz = Ok r /\
    ((exists k, 0 <= k < 32 /\ sz = 2 ^ k /\ r = k) \/
     ((forall k, 0 <= k -> sz <> 2 ^ k) /\ r = 0)).
Proof.
  intros Hr. unfold in_range in Hr. unfold get_log2sz.
  destruct (Z.eqb_spec sz 0) as [-> | Hz].
  { exists 0. split; [done |]. right. split; [| done]. intros k Hk.
    pose proof (Z.pow_pos_nonneg 2 k). lia. }
  destruct (low_bit_loop_spec 32 sz 0) as (t & q & Ht & E & ->); [simpl; lia |].
  simpl in Ht. rewrite Z.add_0_l. simpl. rewrite get_size_pow2 by lia.
  destruct (Z.eqb_spec (2 ^ t) sz) as [Es | Es]; simpl; eexists; (split; [done |]).
  - left. exists t. split; [lia | auto].
  - right. split; [| done]. intros k Hk Ek. apply Es.
    rewrite Ek in E. symmetry in E. assert (t = k) as -> by (apply (odd_pow2_unique q); lia). done.
Qed.

Lemma get_log2sz_correct_witness :
  (exists r, get_log2sz 4096 = Ok r /\
    ((exists k, 0 <= k < 32 /\ 4096 = 2 ^ k /\ r = k) \/
     ((forall k, 0 <= k -> 4096 <> 2 ^ k) /\ r = 0))) /\
  get_log2sz 4096 = Ok 12 /\ get_log2sz 4098 = Ok 0.
Proof.
  split; [| split; reflexivity].
  apply get_log2sz_correct. unfold in_range. lia.
Defined.

Lemma top_bit_loop_log2 n sz : 0 < sz < 2 ^ Z.of_nat n -> top_bit_loop n sz = Z.log2 sz.
Proof.
  induction n as [|i IH]; intros Hs; [simpl in Hs; lia |].
  cbn [top_bit_loop]. rewrite Z.shiftr_div_pow2 by lia.
  rewrite Nat2Z.inj_succ, Z.pow_succ_r in Hs by lia.
  destruct (Z.lt_ge_cases sz (2 ^ Z.of_nat i)) as [L | L].
  - rewrite Z.div_small by lia. simpl. apply IH. lia.
  - pose proof (Z.pow_pos_nonneg 2 (Z.of_nat i) ltac:(lia) ltac:(lia)).
    replace (sz / 2 ^ Z.of_nat i) with 1 by (apply Z.div_unique with (sz - 2 ^ Z.of_nat i); lia).
    simpl. symmetry. apply Z.log2_unique; [lia |]. rewrite Z.pow_succ_r by lia. lia.
Qed.

(** the two range helpers compute the binary logarithm of a non-zero size
    rounded down ([get_log2sz_low_range]) and up ([get_log2sz_top_range]), so
    the block size chosen by the allocator is the least power of two that
    holds the request. *)
Theorem get_log2sz_ranges sz : 0 < sz < 2 ^ 32 ->
  get_log2sz_low_range sz = Z.log2 sz /\ get_log2sz_top_range sz = Z.log2_up sz.
Proof.
  intros Hs. unfold get_log2sz_low_range, get_log2sz_top_range.
  destruct (Z.eqb_spec sz 0) as [? | _]; [lia |].
  rewrite (top_bit_loop_log2 32) by (simpl; lia). split; [done |].
  pose proof (Z.log2_spec sz ltac:(lia)) as B. pose proof (Z.log2_nonneg sz).
  assert (Z.log2 sz < 32) by (apply Z.log2_lt_pow2; lia).
  rewrite get_size_pow2 by lia.
  destruct (Z.eqb_spec (2 ^ Z.log2 sz) sz) as [E | E]; simpl.
  - rewrite <- E at 2. by rewrite Z.log2_up_pow2.
  - symmetry. apply Z.log2_up_unique; [lia |]. replace (Z.pred (Z.log2 sz + 1)) with (Z.log2 sz) by lia.
    rewrite Z.add_1_r. lia.
Qed.

Lemma get_log2sz_ranges_witness :
  get_log2sz_low_range 100 = Z.log2 100 /\ get_log2sz_top_range 100 = Z.log2_up 100.
Proof. apply get_log2sz_ranges. lia. Defined.
