(* ===== verification/Bitmap.v ===== *)
(** lib/containers/bitmap.h ([bitmap_t<MAX_BITS>]) and static_pool.h
    ([Static_pool_t<S,N>]).

    A bitmap is modelled with its word array; the abstract view is the
    predicate [bit b] on positions.  [unsigned long] has 32 bits. *)

From Stdlib Require Import ZArith Lia Bool.
From stdpp Require Import base list numbers.
From S2P Require Import Prelude SysUtils.

(** ** Counting the positions below [n] that satisfy [f] *)

Fixpoint count_upto (f : Z -> bool) (n : nat) : Z :=
  match n with
  | O => 0
  | S m => count_upto f m + Z.b2z (f (Z.of_nat m))
  end.

Lemma count_upto_ext f g n :
  (forall q, 0 <= q < Z.of_nat n -> f q = g q) -> count_upto f n = count_upto g n.
Proof.
  induction n as [|n IH]; intros E; [done |]. cbn [count_upto].
  rewrite IH, E by (intros; apply E || lia; lia). done.
Qed.

Lemma count_upto_bounds f n : 0 <= count_upto f n <= Z.of_nat n.
Proof. induction n; cbn [count_upto]; [lia |]. destruct (f (Z.of_nat n)); simpl; lia. Qed.

Lemma count_upto_zero f n : count_upto f n = 0 -> forall q, 0 <= q < Z.of_nat n -> f q = false.
Proof.
  induction n as [|n IH]; cbn [count_upto]; intros E q Hq; [lia |].
  pose proof (count_upto_bounds f n). destruct (f (Z.of_nat n)) eqn:F; simpl in E; [lia |].
  destruct (decide (q = Z.of_nat n)) as [-> | ?]; [done | apply IH; lia].
Qed.

Lemma count_upto_full f n :
  (forall q, 0 <= q < Z.of_nat n -> f q = true) -> count_upto f n = Z.of_nat n.
Proof.
  induction n as [|n IH]; intros F; [done |]. cbn [count_upto].
  rewrite IH, F by (intros; apply F || lia; lia). simpl. lia.
Qed.

(** Changing the value at one position changes the count by one. *)
Lemma count_upto_update f g n p : 0 <= p < Z.of_nat n ->
  (forall q, 0 <= q < Z.of_nat n -> q <> p -> g q = f q) ->
  count_upto g n = count_upto f n - Z.b2z (f p) + Z.b2z (g p).
Proof.
  induction n as [|n IH]; intros Hp E; [lia |]. cbn [count_upto].
  destruct (decide (p = Z.of_nat n)) as [-> | ?].
  - rewrite (count_upto_ext g f) by (intros; apply E; lia). lia.
  - rewrite IH by (intros; apply E || lia; lia). rewrite (E (Z.of_nat n)) by lia. lia.
Qed.

Module Bitmap.

Definition Bits_per_word : Z := 32.

Record bitmap := Mk { words : list Z; capacity : Z; count : Z }.

Section WithMax.
Context (MAX_BITS : Z).

(** bitmap_t() *)
Definition ctor : bitmap :=
  Mk (replicate (Z.to_nat (MAX_BITS / Bits_per_word + 1)) 0) 0 0.

Definition init (b : bitmap) (cap : Z) : Z * bitmap :=
  if MAX_BITS <? cap then (-1, b) else (0, Mk (words b) cap 0).

End WithMax.

(** _words[i]: reading past the array is a memory error. *)
Definition word (b : bitmap) (i : Z) : res Z := from_opt FMem (words b !! Z.to_nat i).

(** The [int] expression [1 << j] converted to a word. *)
Definition mask (j : Z) : Z := u32 (Z.shiftl 1 j).

Definition get (b : bitmap) (pos : Z) : res Z :=
  if capacity b <=? pos then Ok (-1)
  else w ← word b (pos / Bits_per_word);
       Ok (Z.land (Z.shiftr w (pos mod Bits_per_word)) 1).

Definition store_word (b : bitmap) (i w cnt : Z) : bitmap :=
  Mk (<[Z.to_nat i := w]> (words b)) (capacity b) cnt.

Definition set (b : bitmap) (pos : Z) : res (Z * bitmap) :=
  if capacity b <=? pos then Ok (-1, b)
  else g ← get b pos;
       if g =? 1 then Ok (0, b)
       else w ← word b (pos / Bits_per_word);
            Ok (0, store_word b (pos / Bits_per_word)
                     (Z.lor w (mask (pos mod Bits_per_word))) (u32 (count b + 1))).

Definition clear (b : bitmap) (pos : Z) : res (Z * bitmap) :=
  if capacity b <=? pos then Ok (-1, b)
  else g ← get b pos;
       if g =? 0 then Ok (0, b)
       else w ← word b (pos / Bits_per_word);
            Ok (0, store_word b (pos / Bits_per_word)
                     (Z.land w (u32 (Z.lnot (mask (pos mod Bits_per_word)))))
                     (u32 (count b - 1))).

(** The search loops shared by getfree() and getbusy(): [hit w j] is the test
    on bit [j], [skip] the word value that cannot contain a hit. *)

Fixpoint find_bit (hit : Z -> bool) (j : Z) (n : nat) : option Z :=
  match n with
  | O => None
  | S m => if hit j then Some j else find_bit hit (j + 1) m
  end.

Fixpoint scan_words (skip : Z) (hit : Z -> Z -> bool) (b : bitmap) (i : Z) (n : nat)
  : res (option Z) :=
  match n with
  | O => Ok None
  | S m =>
      w ← word b i;
      if negb (w =? skip) then
        match find_bit (hit w) 0 (Z.to_nat Bits_per_word) with
        | Some j => Ok (Some (i * Bits_per_word + j))
        | None => scan_words skip hit b (i + 1) m
        end
      else scan_words skip hit b (i + 1) m
  end.

Definition scan (skip : Z) (hit : Z -> Z -> bool) (b : bitmap) : res (option Z) :=
  let words_count := capacity b / Bits_per_word in
  r ← scan_words skip hit b 0 (Z.to_nat words_count);
  match r with
  | Some pos => Ok (Some pos)
  | None =>
      let bits_count := capacity b mod Bits_per_word in
      last_word ← word b words_count;
      match find_bit (hit last_word) 0 (Z.to_nat bits_count) with
      | Some j => Ok (Some (words_count * Bits_per_word + j))
      | None => Ok None
      end
  end.

Definition hit_free (w j : Z) : bool := Z.land w (mask j) =? 0.
Definition hit_busy (w j : Z) : bool := negb (Z.land w (mask j) =? 0).

Definition getfree (b : bitmap) : res (Z * bitmap) :=
  r ← scan (2 ^ 32 - 1) hit_free b;
  match r with
  | Some pos => '(_, b') ← set b pos; Ok (pos, b')
  | None => Ok (-1, b)
  end.

Definition getbusy (b : bitmap) : res (Z * bitmap) :=
  r ← scan 0 hit_busy b;
  match r with
  | Some pos => '(_, b') ← clear b pos; Ok (pos, b')
  | None => Ok (-1, b)
  end.

Definition getany (b : bitmap) (val : Z) : res (Z * bitmap) :=
  if val =? 0 then getfree b else getbusy b.

(** ** Abstract view and invariant *)

Definition bit (b : bitmap) (p : Z) : bool :=
  Z.testbit (nth (Z.to_nat (p / Bits_per_word)) (words b) 0) (p mod Bits_per_word).

(** The representation invariant: the capacity fits the word array, words are
    32 bits wide, no bit is set at or past the capacity, and [_count] is the
    number of set bits. *)
Record wf (MAX_BITS : Z) (b : bitmap) : Prop := {
  wf_len : Z.of_nat (length (words b)) = MAX_BITS / Bits_per_word + 1;
  wf_max : 0 <= MAX_BITS < 2 ^ 31;
  wf_cap : 0 <= capacity b <= MAX_BITS;
  wf_words : Forall (in_range 32) (words b);
  wf_high : forall p, capacity b <= p -> bit b p = false;
  wf_count : count b = count_upto (bit b) (Z.to_nat (capacity b));
}.

Lemma mask_testbit j i : 0 <= j < 32 -> 0 <= i ->
  Z.testbit (mask j) i = (i =? j).
Proof.
  intros. unfold mask, wrap. rewrite Z.shiftl_1_l.
  destruct (Z.lt_ge_cases i 32).
  - rewrite Z.mod_pow2_bits_low, Z.pow2_bits_eqb by lia. apply Z.eqb_sym.
  - rewrite Z.mod_pow2_bits_high by lia. symmetry. apply Z.eqb_neq. lia.
Qed.

Lemma land_mask w j : 0 <= j < 32 -> (Z.land w (mask j) =? 0) = negb (Z.testbit w j).
Proof.
  intros Hj. destruct (Z.testbit w j) eqn:E; simpl.
  - apply Z.eqb_neq. intros H. apply (f_equal (fun z => Z.testbit z j)) in H.
    rewrite Z.land_spec, mask_testbit, E, Z.eqb_refl, Z.testbit_0_l in H by lia. done.
  - apply Z.eqb_eq. apply Z.bits_inj'. intros i Hi.
    rewrite Z.land_spec, mask_testbit, Z.testbit_0_l by lia.
    destruct (Z.eqb_spec i j) as [-> | ?]; [by rewrite E | by rewrite andb_false_r].
Qed.

Lemma word_Ok MAX b i : wf MAX b -> 0 <= i <= capacity b / Bits_per_word ->
  word b i = Ok (nth (Z.to_nat i) (words b) 0).
Proof.
  intros [Hl _ [Hc Hm] _ _ _] Hi. unfold word.
  assert (capacity b / Bits_per_word <= MAX / Bits_per_word)
    by (apply Z.div_le_mono; unfold Bits_per_word; lia).
  destruct (words b !! Z.to_nat i) as [w|] eqn:E.
  - simpl. f_equal. symmetry. by apply nth_lookup_Some.
  - apply lookup_ge_None in E. lia.
Qed.

Lemma div_pos_le b p : 0 <= p < capacity b -> 0 <= p / Bits_per_word <= capacity b / Bits_per_word.
Proof.
  unfold Bits_per_word. split; [apply Z.div_pos; lia | apply Z.div_le_mono; lia].
Qed.

Lemma get_bit MAX b p : wf MAX b -> 0 <= p < capacity b -> get b p = Ok (Z.b2z (bit b p)).
Proof.
  intros W Hp. unfold get. destruct (Z.leb_spec (capacity b) p); [lia |].
  rewrite (word_Ok MAX) by auto using div_pos_le. simpl. f_equal. rewrite land_1_odd.
  f_equal. unfold bit. rewrite <- Z.bit0_odd, Z.shiftr_spec by lia. by rewrite Z.add_0_l.
Qed.

Lemma bit_out b p : Z.of_nat (length (words b)) * Bits_per_word <= p -> bit b p = false.
Proof.
  intros H. unfold bit. rewrite nth_overflow; [apply Z.testbit_0_l |].
  assert (Z.of_nat (length (words b)) <= p / Bits_per_word)
    by (apply Z.div_le_lower_bound; unfold Bits_per_word in *; lia). lia.
Qed.

Lemma nth_insert (l : list Z) i j x : (i < length l)%nat ->
  nth j (<[i := x]> l) 0 = if decide (i = j) then x else nth j l 0.
Proof.
  intros Hi. rewrite !nth_lookup. case_decide as E.
  - subst. by rewrite list_lookup_insert_eq.
  - by rewrite list_lookup_insert_ne.
Qed.

(** Storing a word that differs from the old one only at bit [p mod 32] to [v]
    changes exactly position [p]; the invariant is kept when the count follows. *)
Lemma store_spec MAX b p w v c :
  wf MAX b -> 0 <= p < capacity b -> in_range 32 w ->
  (forall i, 0 <= i -> Z.testbit w i =
     if i =? p mod Bits_per_word then v
     else Z.testbit (nth (Z.to_nat (p / Bits_per_word)) (words b) 0) i) ->
  c = count b - Z.b2z (bit b p) + Z.b2z v ->
  let b' := store_word b (p / Bits_per_word) w c in
  (forall q, 0 <= q -> bit b' q = if q =? p then v else bit b q) /\ wf MAX b'.
Proof.
  intros W Hp Hw Hbits Hc b'. pose proof (div_pos_le b p Hp) as Hd.
  assert (Hlen : (Z.to_nat (p / Bits_per_word) < length (words b))%nat).
  { destruct W as [Hl _ [? Hm] _ _ _].
    assert (capacity b / Bits_per_word <= MAX / Bits_per_word)
      by (apply Z.div_le_mono; unfold Bits_per_word; lia). lia. }
  assert (Hb : forall q, 0 <= q -> bit b' q = if q =? p then v else bit b q).
  { intros q Hq. unfold b', bit, store_word. cbn [words].
    rewrite nth_insert by done. pose proof (Z.mod_pos_bound q Bits_per_word ltac:(done)).
    pose proof (Z.div_mod q Bits_per_word ltac:(done)) as Dq.
    pose proof (Z.div_mod p Bits_per_word ltac:(done)) as Dp.
    pose proof (Z.div_pos q Bits_per_word ltac:(lia) ltac:(done)).
    case_decide as E.
    - assert (Eq : p / Bits_per_word = q / Bits_per_word) by lia.
      rewrite Hbits by lia. rewrite Eq.
      destruct (Z.eqb_spec (q mod Bits_per_word) (p mod Bits_per_word)), (Z.eqb_spec q p); done || lia.
    - destruct (Z.eqb_spec q p); [congruence | done]. }
  split; [done |]. destruct W as [Hl Hmx Hcap Hws Hh Hcn]. split; simpl; auto.
  - by rewrite length_insert.
  - by apply Forall_insert.
  - intros q Hq. rewrite Hb by lia. destruct (Z.eqb_spec q p); [lia | auto].
  - rewrite (count_upto_update (bit b) (bit b') _ p).
    + rewrite (Hb p), Z.eqb_refl by lia. rewrite <- Hcn. done.
    + lia.
    + intros q Hq Hne. rewrite Hb by lia. destruct (Z.eqb_spec q p); [lia | done].
Qed.

Lemma nth_word_range MAX b i : wf MAX b -> in_range 32 (nth i (words b) 0).
Proof.
  intros W. rewrite nth_lookup. destruct (words b !! i) eqn:E; simpl.
  - exact (Forall_lookup_1 _ _ _ _ (wf_words _ _ W) E).
  - unfold in_range; lia.
Qed.

Lemma count_range MAX b : wf MAX b -> 0 <= count b <= MAX.
Proof.
  intros [_ Hm Hc _ _ ->].
  pose proof (count_upto_bounds (bit b) (Z.to_nat (capacity b))). lia.
Qed.

Lemma mod_bits_range p : 0 <= p mod Bits_per_word < 32.
Proof. apply Z.mod_pos_bound. done. Qed.

(** The effect of set() and clear() on a position below the capacity. *)
Lemma set_spec MAX b p : wf MAX b -> 0 <= p < capacity b ->
  exists b', set b p = Ok (0, b') /\ wf MAX b' /\ capacity b' = capacity b /\
    count b' = count b - Z.b2z (bit b p) + 1 /\
    forall q, 0 <= q -> bit b' q = (q =? p) || bit b q.
Proof.
  intros W Hp. unfold set. destruct (Z.leb_spec (capacity b) p); [lia |].
  rewrite (get_bit MAX) by done. cbn [mbind res_bind].
  pose proof (mod_bits_range p). destruct (bit b p) eqn:Eb; simpl.
  { exists b. split_and!; [done | done | done | simpl; lia |]. intros q Hq.
    destruct (Z.eqb_spec q p) as [-> | ?]; [by rewrite Eb | done]. }
  rewrite (word_Ok MAX) by auto using div_pos_le. simpl.
  pose proof (count_range MAX b W). pose proof (wf_max _ _ W).
  rewrite wrap_small by (unfold in_range; lia).
  destruct (store_spec MAX b p (Z.lor (nth (Z.to_nat (p / Bits_per_word)) (words b) 0)
              (mask (p mod Bits_per_word))) true (count b + 1)) as [Hb Hw]; auto.
  - apply in_range_bits; [lia |]. intros i Hi.
    rewrite Z.lor_spec, mask_testbit, (in_range_testbit 32) by (eauto using nth_word_range || lia).
    simpl. apply Z.eqb_neq. lia.
  - intros i Hi. rewrite Z.lor_spec, mask_testbit by lia.
    destruct (Z.eqb_spec i (p mod Bits_per_word)); by rewrite ?orb_true_r, ?orb_false_r.
  - rewrite Eb. simpl. lia.
  - eexists. split_and!; [done | done | done | simpl; lia |].
    intros q Hq. rewrite Hb by done. by destruct (q =? p).
Qed.

Lemma clear_spec MAX b p : wf MAX b -> 0 <= p < capacity b ->
  exists b', clear b p = Ok (0, b') /\ wf MAX b' /\ capacity b' = capacity b /\
    count b' = count b - Z.b2z (bit b p) /\
    forall q, 0 <= q -> bit b' q = negb (q =? p) && bit b q.
Proof.
  intros W Hp. unfold clear. destruct (Z.leb_spec (capacity b) p); [lia |].
  rewrite (get_bit MAX) by done. cbn [mbind res_bind].
  pose proof (mod_bits_range p). destruct (bit b p) eqn:Eb; simpl; last first.
  { exists b. split_and!; [done | done | done | simpl; lia |]. intros q Hq.
    destruct (Z.eqb_spec q p) as [-> | ?]; [by rewrite Eb | done]. }
  rewrite (word_Ok MAX) by auto using div_pos_le. simpl.
  assert (1 <= count b).
  { rewrite (wf_count _ _ W).
    rewrite (count_upto_update (fun q => negb (q =? p) && bit b q) (bit b) _ p).
    - pose proof (count_upto_bounds (fun q => negb (q =? p) && bit b q) (Z.to_nat (capacity b))).
      rewrite Z.eqb_refl, Eb. simpl. lia.
    - lia.
    - intros q _ Hq. destruct (Z.eqb_spec q p); done. }
  pose proof (count_range MAX b W). pose proof (wf_max _ _ W).
  rewrite (wrap_small 32 (count b - 1)) by (unfold in_range; lia).
  destruct (store_spec MAX b p (Z.land (nth (Z.to_nat (p / Bits_per_word)) (words b) 0)
              (u32 (Z.lnot (mask (p mod Bits_per_word))))) false (count b - 1)) as [Hb Hw]; auto.
  - apply in_range_bits; [lia |]. intros i Hi.
    by rewrite Z.land_spec, (in_range_testbit 32) by (eauto using nth_word_range || lia).
  - intros i Hi. rewrite Z.land_spec. unfold wrap.
    destruct (Z.lt_ge_cases i 32).
    + rewrite Z.mod_pow2_bits_low, Z.lnot_spec, mask_testbit by lia.
      destruct (Z.eqb_spec i (p mod Bits_per_word)); by rewrite ?andb_true_r, ?andb_false_r.
    + rewrite (in_range_testbit 32 (nth _ _ _)) by (eauto using nth_word_range || lia).
      destruct (Z.eqb_spec i (p mod Bits_per_word)); done.
  - rewrite Eb. simpl. lia.
  - eexists. split_and!; [done | done | done | simpl; lia |].
    intros q Hq. rewrite Hb by done. by destruct (q =? p).
Qed.

(** ** The search loops find the least hit *)

Lemma find_bit_spec hit j n :
  match find_bit hit j n with
  | Some k => j <= k < j + Z.of_nat n /\ hit k = true /\ forall i, j <= i < k -> hit i = false
  | None => forall i, j <= i < j + Z.of_nat n -> hit i = false
  end.
Proof.
  revert j. induction n as [|n IH]; intros j; cbn [find_bit]; [intros; lia |].
  destruct (hit j) eqn:E.
  - repeat split; try lia; done.
  - specialize (IH (j + 1)). destruct (find_bit hit (j + 1) n) as [k|].
    + destruct IH as (Hk & Hh & Hl). repeat split; try lia; [done |]. intros i Hi.
      destruct (decide (i = j)) as [-> | ?]; [done | apply Hl; lia].
    + intros i Hi. destruct (decide (i = j)) as [-> | ?]; [done | apply IH; lia].
Qed.

(** The test applied by the loops at position [p]. *)
Definition hit_at (hit : Z -> Z -> bool) (b : bitmap) (p : Z) : bool :=
  hit (nth (Z.to_nat (p / Bits_per_word)) (words b) 0) (p mod Bits_per_word).

Definition least_hit (P : Z -> bool) (lo hi : Z) (r : option Z) : Prop :=
  match r with
  | Some p => lo <= p < hi /\ P p = true /\ forall q, lo <= q < p -> P q = false
  | None => forall q, lo <= q < hi -> P q = false
  end.

(** A [find_bit] over the first [n <= 32] bits of word [i], as a search over positions. *)
Lemma find_bit_word hit b i n : 0 <= i -> (n <= 32)%nat ->
  least_hit (hit_at hit b) (i * Bits_per_word) (i * Bits_per_word + Z.of_nat n)
    (option_map (fun j => i * Bits_per_word + j)
       (find_bit (hit (nth (Z.to_nat i) (words b) 0)) 0 n)).
Proof.
  intros Hi Hn.
  assert (P : forall j, 0 <= j < Z.of_nat n ->
    hit_at hit b (i * Bits_per_word + j) = hit (nth (Z.to_nat i) (words b) 0) j).
  { intros j Hj. unfold hit_at, Bits_per_word.
    rewrite Z.add_comm, Z.div_add, Z.mod_add, Z.div_small, Z.mod_small by lia. done. }
  pose proof (find_bit_spec (hit (nth (Z.to_nat i) (words b) 0)) 0 n) as F.
  destruct (find_bit _ 0 n) as [k|]; simpl.
  - destruct F as (Hk & Hh & Hl). rewrite P by lia. repeat split; try lia; [done |].
    intros q Hq. replace q with (i * Bits_per_word + (q - i * Bits_per_word)) by lia.
    rewrite P by lia. apply Hl. lia.
  - intros q Hq. replace q with (i * Bits_per_word + (q - i * Bits_per_word)) by lia.
    rewrite P by lia. apply F. lia.
Qed.

Lemma least_hit_app P lo mid hi r : lo <= mid <= hi ->
  (forall q, lo <= q < mid -> P q = false) -> least_hit P mid hi r -> least_hit P lo hi r.
Proof.
  intros Hm Hf. destruct r as [p|]; simpl.
  - intros (Hp & Hh & Hl). repeat split; try lia; [done |]. intros q Hq.
    destruct (Z.lt_ge_cases q mid); [apply Hf | apply Hl]; lia.
  - intros Hl q Hq. destruct (Z.lt_ge_cases q mid); [apply Hf | apply Hl]; lia.
Qed.

Lemma least_hit_extend P lo mid hi p : mid <= hi ->
  least_hit P lo mid (Some p) -> least_hit P lo hi (Some p).
Proof. simpl. intros ? (? & ? & ?). repeat split; auto; lia. Qed.

Section Scan.
Context (MAX : Z) (skip : Z) (hit : Z -> Z -> bool).
Hypothesis skip_no_hit : forall j, 0 <= j < 32 -> hit skip j = false.

Lemma scan_words_spec b n i : wf MAX b -> 0 <= i -> i + Z.of_nat n <= capacity b / Bits_per_word ->
  exists r, scan_words skip hit b i n = Ok r /\
    least_hit (hit_at hit b) (i * Bits_per_word) ((i + Z.of_nat n) * Bits_per_word) r.
Proof.
  intros W. revert i. induction n as [|n IH]; intros i Hi Hn; cbn [scan_words].
  { exists None. split; [done |]. simpl. intros; lia. }
  rewrite (word_Ok MAX) by (auto; lia). cbn [mbind res_bind].
  set (w := nth (Z.to_nat i) (words b) 0).
  destruct (IH (i + 1)) as (r & -> & Hr); [lia | lia |].
  replace (i + 1 + Z.of_nat n) with (i + Z.of_nat (S n)) in Hr by lia.
  assert (Hnone : (forall q, i * Bits_per_word <= q < (i + 1) * Bits_per_word -> hit_at hit b q = false) ->
    least_hit (hit_at hit b) (i * Bits_per_word) ((i + Z.of_nat (S n)) * Bits_per_word) r).
  { intros Hf. eapply least_hit_app; [| exact Hf | exact Hr]. unfold Bits_per_word. lia. }
  pose proof (find_bit_word hit b i 32 Hi ltac:(lia)) as F. fold w in F.
  replace (i * Bits_per_word + Z.of_nat 32) with ((i + 1) * Bits_per_word) in F
    by (unfold Bits_per_word; lia).
  destruct (Z.eqb_spec w skip) as [Ew | Ew]; cbn [negb].
  - exists r. split; [done |]. apply Hnone. intros q Hq. unfold hit_at.
    assert (q / Bits_per_word = i) as ->.
    { symmetry. apply (Z.div_unique q Bits_per_word i (q - Bits_per_word * i));
        unfold Bits_per_word in *; lia. }
    fold w. rewrite Ew. apply skip_no_hit. apply mod_bits_range.
  - change (Z.to_nat Bits_per_word) with 32%nat.
    destruct (find_bit (hit w) 0 32) as [j|]; cbn [option_map] in F.
    + eexists. split; [done |]. eapply least_hit_extend; [| exact F]. unfold Bits_per_word. lia.
    + exists r. auto.
Qed.

Lemma scan_spec b : wf MAX b ->
  exists r, scan skip hit b = Ok r /\ least_hit (hit_at hit b) 0 (capacity b) r.
Proof.
  intros W. unfold scan. pose proof (wf_cap _ _ W).
  pose proof (Z.div_pos (capacity b) Bits_per_word ltac:(lia) ltac:(done)) as Hd.
  pose proof (Z.div_mod (capacity b) Bits_per_word ltac:(done)) as Dm.
  pose proof (Z.mod_pos_bound (capacity b) Bits_per_word ltac:(done)) as Hm.
  destruct (scan_words_spec b (Z.to_nat (capacity b / Bits_per_word)) 0) as (r & -> & Hr); [done | lia | lia |].
  rewrite Z.mul_0_l, Z.add_0_l, Z2Nat.id in Hr by lia. simpl. destruct r as [p|].
  - eexists. split; [done |]. eapply least_hit_extend; [| exact Hr]. lia.
  - rewrite (word_Ok MAX) by (auto; lia). simpl.
    pose proof (find_bit_word hit b (capacity b / Bits_per_word) (Z.to_nat (capacity b mod Bits_per_word)) Hd
                  ltac:(unfold Bits_per_word in *; lia)) as F.
    rewrite Z2Nat.id in F by lia.
    replace (capacity b / Bits_per_word * Bits_per_word + capacity b mod Bits_per_word)
      with (capacity b) in F by lia.
    destruct (find_bit _ _ _) as [j|]; simpl in F |- *; eexists; (split; [done |]).
    + eapply (least_hit_app _ _ (capacity b / Bits_per_word * Bits_per_word) _ (Some _));
        [| exact Hr | exact F]. unfold Bits_per_word in *; lia.
    + eapply (least_hit_app _ _ (capacity b / Bits_per_word * Bits_per_word) _ None);
        [| exact Hr | exact F]. unfold Bits_per_word in *; lia.
Qed.

End Scan.

Lemma all_ones_testbit j : 0 <= j < 32 -> Z.testbit (2 ^ 32 - 1) j = true.
Proof.
  intros. replace (2 ^ 32 - 1) with (Z.ones 32) by done. rewrite testbit_ones by lia.
  bit_cases.
Qed.

Lemma hit_free_bit b p : hit_at hit_free b p = negb (bit b p).
Proof. unfold hit_at, hit_free, bit. by rewrite land_mask by apply mod_bits_range. Qed.

Lemma hit_busy_bit b p : hit_at hit_busy b p = bit b p.
Proof. unfold hit_at, hit_busy, bit. rewrite land_mask by apply mod_bits_range. by rewrite negb_involutive. Qed.

(** ** Theorems *)

Lemma ctor_wf MAX : 0 <= MAX < 2 ^ 31 -> wf MAX (ctor MAX).
Proof.
  intros H. pose proof (Z.div_pos MAX Bits_per_word ltac:(lia) ltac:(done)).
  assert (Hb : forall p, bit (ctor MAX) p = false).
  { intros p. unfold bit, ctor; cbn [words]. rewrite nth_lookup.
    destruct (replicate _ 0 !! _) as [x|] eqn:E; [apply lookup_replicate in E as [-> _] |];
      apply Z.testbit_0_l. }
  split; simpl; auto; try lia.
  - rewrite length_replicate. lia.
  - apply Forall_replicate. unfold in_range. lia.
Qed.

(** The lowest clear bit is found and set, if there is one. *)
Lemma getfree_spec MAX b : wf MAX b ->
  (exists p b', getfree b = Ok (p, b') /\ 0 <= p < capacity b /\ bit b p = false /\
     (forall q, 0 <= q < p -> bit b q = true) /\ wf MAX b' /\
     capacity b' = capacity b /\ count b' = count b + 1 /\
     forall q, 0 <= q -> bit b' q = (q =? p) || bit b q) \/
  (getfree b = Ok (-1, b) /\ count b = capacity b /\
     forall q, 0 <= q < capacity b -> bit b q = true).
Proof.
  intros W. unfold getfree.
  assert (Hs : forall j, 0 <= j < 32 -> hit_free (2 ^ 32 - 1) j = false).
  { intros j Hj. unfold hit_free. by rewrite land_mask, all_ones_testbit by lia. }
  destruct (scan_spec MAX (2 ^ 32 - 1) hit_free Hs b W) as (r & -> & Hr).
  destruct r as [p|]; simpl in Hr |- *.
  - destruct Hr as (Hp & Hh & Hl). rewrite hit_free_bit, negb_true_iff in Hh.
    destruct (set_spec MAX b p W Hp) as (b' & -> & W' & Hc & Hn & Hb).
    left. exists p, b'. simpl. rewrite Hh in Hn. split_and!; auto; simpl in *; try lia.
    intros q Hq. specialize (Hl q Hq). rewrite hit_free_bit in Hl. by apply negb_false_iff in Hl.
  - right. assert (F : forall q, 0 <= q < capacity b -> bit b q = true).
    { intros q Hq. specialize (Hr q Hq). rewrite hit_free_bit in Hr. by apply negb_false_iff in Hr. }
    split_and!; auto. pose proof (wf_cap _ _ W).
    rewrite (wf_count _ _ W), count_upto_full by (intros; apply F; lia). lia.
Qed.

(** on a well-formed bitmap getfree() returns the least free position,
    marks exactly that position busy and counts it; it returns -1 and changes
    nothing exactly when every position below the capacity is busy. *)
Theorem getfree_correct MAX b : wf MAX b ->
  (exists p b', getfree b = Ok (p, b') /\ 0 <= p < capacity b /\ bit b p = false /\
     (forall q, 0 <= q < p -> bit b q = true) /\ wf MAX b' /\
     capacity b' = capacity b /\ count b' = count b + 1 /\
     forall q, 0 <= q -> bit b' q = (q =? p) || bit b q) \/
  (getfree b = Ok (-1, b) /\ count b = capacity b /\
     forall q, 0 <= q < capacity b -> bit b q = true).
Proof. apply getfree_spec. Qed.

Lemma getfree_correct_witness :
  let b := Mk [5; 0; 0] 40 2 in
  wf 64 b /\ getfree b = Ok (1, Mk [7; 0; 0] 40 3) /\
  ((exists p b', getfree b = Ok (p, b') /\ 0 <= p < capacity b /\ bit b p = false /\
     (forall q, 0 <= q < p -> bit b q = true) /\ wf 64 b' /\
     capacity b' = capacity b /\ count b' = count b + 1 /\
     forall q, 0 <= q -> bit b' q = (q =? p) || bit b q) \/
  (getfree b = Ok (-1, b) /\ count b = capacity b /\
     forall q, 0 <= q < capacity b -> bit b q = true)).
Proof.
  assert (W : wf 64 (Mk [5; 0; 0] 40 2)).
  { split; simpl; try lia; try done.
    - repeat constructor; unfold in_range; lia.
    - intros p Hp. unfold bit; cbn [words].
      assert (1 <= p / Bits_per_word) by (apply Z.div_le_lower_bound; unfold Bits_per_word; lia).
      destruct (Z.to_nat (p / Bits_per_word)) as [|[|[|[|n]]]] eqn:E; simpl; try apply Z.testbit_0_l; lia. }
  split; [exact W | split; [reflexivity |]]. exact (getfree_correct 64 _ W).
Defined.

(** getbusy() returns the least busy position and clears exactly it;
    it returns -1 and changes nothing exactly when the bitmap is empty. *)
Theorem getbusy_correct MAX b : wf MAX b ->
  (exists p b', getbusy b = Ok (p, b') /\ 0 <= p < capacity b /\ bit b p = true /\
     (forall q, 0 <= q < p -> bit b q = false) /\ wf MAX b' /\
     capacity b' = capacity b /\ count b' = count b - 1 /\
     forall q, 0 <= q -> bit b' q = negb (q =? p) && bit b q) \/
  (getbusy b = Ok (-1, b) /\ count b = 0 /\
     forall q, 0 <= q < capacity b -> bit b q = false).
Proof.
  intros W. unfold getbusy.
  assert (Hs : forall j, 0 <= j < 32 -> hit_busy 0 j = false).
  { intros j Hj. unfold hit_busy. by rewrite land_mask, Z.testbit_0_l by lia. }
  destruct (scan_spec MAX 0 hit_busy Hs b W) as (r & -> & Hr).
  destruct r as [p|]; simpl in Hr |- *.
  - destruct Hr as (Hp & Hh & Hl). rewrite hit_busy_bit in Hh.
    destruct (clear_spec MAX b p W Hp) as (b' & -> & W' & Hc & Hn & Hb).
    left. exists p, b'. simpl. rewrite Hh in Hn. split_and!; auto; simpl in *; try lia.
    intros q Hq. specialize (Hl q Hq). by rewrite hit_busy_bit in Hl.
  - right. assert (F : forall q, 0 <= q < capacity b -> bit b q = false).
    { intros q Hq. specialize (Hr q Hq). by rewrite hit_busy_bit in Hr. }
    split_and!; auto. pose proof (wf_cap _ _ W). rewrite (wf_count _ _ W).
    rewrite (count_upto_ext _ (fun _ => false)) by (intros; apply F; lia).
    clear. induction (Z.to_nat (capacity b)); cbn [count_upto]; simpl; lia.
Qed.

Lemma getbusy_correct_witness :
  let b := ctor 64 in
  (exists p b', getbusy b = Ok (p, b') /\ 0 <= p < capacity b /\ bit b p = true /\
     (forall q, 0 <= q < p -> bit b q = false) /\ wf 64 b' /\
     capacity b' = capacity b /\ count b' = count b - 1 /\
     forall q, 0 <= q -> bit b' q = negb (q =? p) && bit b q) \/
  (getbusy b = Ok (-1, b) /\ count b = 0 /\
     forall q, 0 <= q < capacity b -> bit b q = false).
Proof. apply (getbusy_correct 64 (ctor 64)). apply ctor_wf. lia. Defined.

(** Re-initialising keeps the invariant only for an empty bitmap: init() does
    not clear the words. *)
Lemma init_wf MAX b cap : wf MAX b -> count b = 0 -> 0 <= cap <= MAX ->
  exists b', init MAX b cap = (0, b') /\ wf MAX b' /\ capacity b' = cap.
Proof.
  intros W Hc Hcap. unfold init. destruct (Z.ltb_spec MAX cap); [lia |].
  eexists. split; [done |]. split; [| done].
  pose proof W as [Hl Hm Hcp Hw Hh Hcn].
  assert (Z0 : forall p, 0 <= p -> bit b p = false).
  { intros p Hp. destruct (Z.lt_ge_cases p (capacity b)); [| auto].
    rewrite Hc in Hcn. eapply count_upto_zero; [eauto | lia]. }
  split; simpl; auto.
  - intros p Hp. apply Z0. lia.
  - rewrite (count_upto_ext _ (fun _ => false)).
    + clear. induction (Z.to_nat cap); cbn [count_upto]; simpl; lia.
    + intros q Hq. apply Z0. lia.
Qed.

End Bitmap.

(** ** Static_pool_t<S, N> *)

Module StaticPool.
Import Bitmap.

Section WithParams.
Context (S N : Z).

Definition sizeof_Word : Z := 4.
Definition Item_bytes : Z := round_up S sizeof_Word.
Definition Item_words : Z := Item_bytes / sizeof_Word.

(** [pool] is the address of the static array. *)
Record spool := MkPool { pool : Z; bmap : bitmap }.

Definition pool_ctor (addr : Z) : spool := MkPool addr (snd (init N (ctor N) N)).

Definition alloc (p : spool) : res (Z * spool) :=
  '(pos, bm) ← getfree (bmap p);
  let p' := MkPool (pool p) bm in
  if pos <? 0 then Ok (0, p')
  else _ ← wassert (pos <? N);
       Ok (pool p + pos * Item_words * sizeof_Word, p').

Definition free (p : spool) (a : Z) : res (bool * spool) :=
  if (a <? pool p) || (pool p + Item_words * N * sizeof_Word <=? a) then Ok (false, p)
  else let pos := (a - pool p) / Item_bytes in
       g ← get (bmap p) pos;
       _ ← wassert (g =? 1);
       '(_, bm) ← clear (bmap p) pos;
       Ok (true, MkPool (pool p) bm).

(** Block [i] of the pool, and the set of blocks that are allocated. *)
Definition block (p : spool) (i : Z) : Z := pool p + i * Item_bytes.
Definition live (p : spool) (a : Z) : Prop :=
  exists i, 0 <= i < N /\ a = block p i /\ bit (bmap p) i = true.

Record pool_wf (p : spool) : Prop := {
  pw_bmap : wf N (bmap p);
  pw_cap : capacity (bmap p) = N;
  pw_addr : 0 < pool p;
  pw_item : 0 < S < 2 ^ 31;
}.

Lemma Item_bytes_pos : 0 < S < 2 ^ 31 -> 0 < Item_bytes /\ Item_words * sizeof_Word = Item_bytes.
Proof.
  intros Hs. pose proof (round_up_spec S 2 ltac:(lia)) as E. change (2 ^ 2) with 4 in E.
  unfold Item_words, Item_bytes, sizeof_Word. rewrite E.
  rewrite wrap_small by (unfold in_range; lia).
  assert (1 <= (S + (4 - 1)) / 4) by (apply Z.div_le_lower_bound; lia).
  rewrite Z.div_mul by lia. lia.
Qed.

Lemma block_inj p i j : 0 < S < 2 ^ 31 -> block p i = block p j -> i = j.
Proof. intros Hs. pose proof (Item_bytes_pos Hs). unfold block. nia. Qed.

Lemma pool_ctor_wf a : 0 <= N < 2 ^ 31 -> 0 < a -> 0 < S < 2 ^ 31 -> pool_wf (pool_ctor a).
Proof.
  intros Hn Ha Hs.
  destruct (init_wf N (ctor N) N (ctor_wf N Hn) eq_refl ltac:(lia)) as (b' & E & W & Hc).
  unfold pool_ctor. split; simpl; rewrite ?E; auto.
Qed.

(** alloc() of a well-formed pool returns a block that was not allocated,
    adds exactly it to the allocated blocks, and returns null (changing
    nothing) exactly when all N blocks are allocated. *)
Theorem pool_alloc_correct p : pool_wf p ->
  exists a p', alloc p = Ok (a, p') /\ pool_wf p' /\
    ((a = 0 /\ p' = p /\ (forall i, 0 <= i < N -> live p (block p i))) \/
     (a <> 0 /\ ~ live p a /\ forall x, live p' x <-> live p x \/ x = a)).
Proof.
  intros [W Hcap Ha Hs]. destruct (Item_bytes_pos Hs) as [Hip Hiw]. unfold alloc.
  destruct (getfree_spec N (bmap p) W)
    as [(i & b' & -> & Hi & Hf & _ & W' & Hc' & _ & Hb') | (-> & _ & Hfull)]; simpl.
  - destruct (Z.ltb_spec i 0); [lia |]. rewrite Hcap in Hi.
    destruct (Z.ltb_spec i N); [| lia]. simpl.
    rewrite <- Z.mul_assoc, Hiw. eexists _, _. split; [done |].
    split; [split; simpl; congruence || done |]. right. split; [nia |]. split.
    + intros (j & Hj & Ej & Bj). apply block_inj in Ej; [| done]. congruence.
    + intros x. unfold live; simpl. split.
      * intros (j & Hj & -> & Bj). rewrite Hb' in Bj by lia.
        destruct (Z.eqb_spec j i) as [-> | ?]; [by right | left; eauto].
      * intros [(j & Hj & -> & Bj) | ->].
        -- exists j. rewrite Hb' by lia. split_and!; auto; try lia. by rewrite Bj, orb_true_r.
        -- exists i. rewrite Hb' by lia. by rewrite Z.eqb_refl.
  - exists 0, p. destruct p as [a bm]. split; [done |]. split; [by split |]. left.
    split_and!; auto. intros i Hi. exists i. split_and!; auto; try lia. apply Hfull. simpl in *. lia.
Qed.

(** free() of an allocated block succeeds and removes exactly it from the
    allocated blocks; freeing a block that is not allocated fails the
    assertion, and an address outside the pool is refused with [false]. *)
Theorem pool_free_correct p : pool_wf p ->
  (forall a, live p a -> exists p', free p a = Ok (true, p') /\ pool_wf p' /\
     forall x, live p' x <-> live p x /\ x <> a) /\
  (forall i, 0 <= i < N -> ~ live p (block p i) -> free p (block p i) = Stop FAssert) /\
  (forall a, a < pool p \/ pool p + N * Item_bytes <= a -> free p a = Ok (false, p)).
Proof.
  intros [W Hcap Ha Hs]. destruct (Item_bytes_pos Hs) as [Hip Hiw].
  assert (R : forall i, 0 <= i < N ->
    (block p i <? pool p) || (pool p + Item_words * N * sizeof_Word <=? block p i) = false /\
    (block p i - pool p) / Item_bytes = i).
  { intros i Hi. unfold block. split.
    - apply orb_false_iff. split; [apply Z.ltb_ge | apply Z.leb_gt]; nia.
    - replace (pool p + i * Item_bytes - pool p) with (i * Item_bytes) by lia. by apply Z.div_mul; lia. }
  split_and!.
  - intros a (i & Hi & -> & Bi). destruct (R i Hi) as [R1 R2]. unfold free. rewrite R1, R2.
    rewrite (get_bit N) by (auto; lia). rewrite Bi. simpl.
    destruct (clear_spec N (bmap p) i W ltac:(lia)) as (b' & -> & W' & Hc' & _ & Hb'). simpl.
    eexists. split; [done |]. split; [split; simpl; congruence || done |].
    intros x. unfold live; simpl. split.
    + intros (j & Hj & -> & Bj). rewrite Hb' in Bj by lia.
      destruct (Z.eqb_spec j i) as [-> | ?]; [done |]. simpl in Bj. split; [eauto |].
      intros E. apply (block_inj p) in E; done.
    + intros [(j & Hj & -> & Bj) Hne]. exists j. rewrite Hb' by lia.
      destruct (Z.eqb_spec j i) as [-> | ?]; [done |]. by rewrite Bj.
  - intros i Hi Hl. destruct (R i Hi) as [R1 R2]. unfold free. rewrite R1, R2.
    rewrite (get_bit N) by (auto; lia). destruct (bit (bmap p) i) eqn:Bi; [| done].
    exfalso. apply Hl. exists i. auto.
  - intros a Hx. unfold free.
    replace ((a <? pool p) || (pool p + Item_words * N * sizeof_Word <=? a)) with true; [done |].
    symmetry. apply orb_true_iff. rewrite Z.ltb_lt, Z.leb_le. nia.
Qed.

End WithParams.

Lemma pool_alloc_correct_witness :
  let p := pool_ctor 3 4096 in
  exists a p', alloc 10 3 p = Ok (a, p') /\ pool_wf 10 3 p' /\
    ((a = 0 /\ p' = p /\ (forall i, 0 <= i < 3 -> live 10 3 p (block 10 p i))) \/
     (a <> 0 /\ ~ live 10 3 p a /\ forall x, live 10 3 p' x <-> live 10 3 p x \/ x = a)).
Proof. apply (pool_alloc_correct 10 3). apply pool_ctor_wf; lia. Defined.

Lemma pool_free_correct_witness :
  let p := MkPool 4096 (Mk [2] 3 1) in
  (exists p', free 10 3 p 4108 = Ok (true, p') /\ pool_wf 10 3 p' /\
     forall x, live 10 3 p' x <-> live 10 3 p x /\ x <> 4108) /\
  free 10 3 p 4096 = Stop FAssert /\ free 10 3 p 4132 = Ok (false, p).
Proof.
  set (p := MkPool 4096 (Mk [2] 3 1)).
  assert (W : pool_wf 10 3 p).
  { split; simpl; try lia; try done. split; simpl; try lia; try done.
    - repeat constructor; unfold in_range; lia.
    - intros q Hq. unfold bit; cbn [words].
      destruct (Z.to_nat (q / Bits_per_word)) as [|n] eqn:E; simpl;
        [| destruct n; apply Z.testbit_0_l].
      assert (q / Bits_per_word = 0) by (pose proof (Z.div_pos q Bits_per_word ltac:(lia) ltac:(done)); lia).
      pose proof (Z.div_mod q Bits_per_word ltac:(done)).
      change 2 with (2 ^ 1). rewrite Z.pow2_bits_eqb by lia. apply Z.eqb_neq. lia. }
  destruct (pool_free_correct 10 3 p W) as (F1 & F2 & F3). split_and!.
  - apply F1. exists 1. split; [lia |]. split; reflexivity.
  - apply (F2 0); [lia |]. intros (i & Hi & E & B). apply block_inj in E; [| lia].
    subst i. discriminate B.
  - apply F3. right. vm_compute. discriminate.
Defined.

End StaticPool.
