(* ===== verification/Cbuf.v ===== *)
(** lib/containers/cbuf.h: the circular character buffer [Cbuf_t].

    Sizes and positions are [nat]: every sum the code forms is at most twice
    the buffer size, so no [size_t] arithmetic of this class can overflow, and
    each subtraction is guarded by the branch it is in. *)

From Stdlib Require Import ZArith Lia Bool.
From stdpp Require Import base list numbers.
From S2P Require Import Prelude.

#[local] Open Scope nat_scope.

(** memcpy of [l] bytes from [src + soff] to [dst + doff]; leaving one of the
    two arrays is a memory error. *)
Definition blit {A} (dst : list A) (doff : nat) (src : list A) (soff l : nat) : res (list A) :=
  if (doff + l <=? length dst) && (soff + l <=? length src)
  then Ok (take doff dst ++ take l (drop soff src) ++ drop (doff + l) dst)
  else Stop FMem.

Lemma blit_Ok {A} (dst src : list A) doff soff l :
  doff + l <= length dst -> soff + l <= length src ->
  exists d, blit dst doff src soff l = Ok d /\ length d = length dst /\
    forall j, d !! j = if (doff <=? j) && (j <? doff + l) then src !! (soff + (j - doff)) else dst !! j.
Proof.
  intros H1 H2. unfold blit.
  rewrite (proj2 (Nat.leb_le _ _) H1), (proj2 (Nat.leb_le _ _) H2). simpl.
  eexists. split; [done |]. split.
  { rewrite !length_app, !length_take, !length_drop. lia. }
  intros j. destruct (Nat.leb_spec doff j); simpl.
  - rewrite lookup_app_r by (rewrite length_take; lia). rewrite length_take, Nat.min_l by lia.
    destruct (Nat.ltb_spec j (doff + l)).
    + rewrite lookup_app_l by (rewrite length_take, length_drop; lia).
      rewrite lookup_take_lt, lookup_drop by lia. done.
    + rewrite lookup_app_r by (rewrite length_take, length_drop; lia).
      rewrite length_take, length_drop, lookup_drop. f_equal. lia.
  - rewrite lookup_app_l by (rewrite length_take; lia). by rewrite lookup_take_lt by lia.
Qed.

Module Cbuf.

(** [_buf] is [None] before init(). *)
Record cbuf := Mk { buf : option (list Z); sz : nat; wp : nat; rp : nat }.

Definition ctor : cbuf := Mk None 0 0 0.

Definition init (c : cbuf) (b : list Z) (n : nat) : bool * cbuf :=
  match buf c with
  | Some _ => (false, c)
  | None => (true, Mk (Some b) n 0 0)
  end.

Definition clear (c : cbuf) : cbuf := Mk (buf c) (sz c) 0 0.

Definition empty (c : cbuf) : bool := wp c =? rp c.

(** [x == _sz ? 0 : x] *)
Definition wrap_pos (c : cbuf) (x : nat) : nat := if x =? sz c then 0 else x.

Definition overwrite (c : cbuf) (data : list Z) : res (nat * cbuf) :=
  let len := length data in
  match buf c with
  | None => Ok (0, c)
  | Some b =>
    if sz c =? 0 then Ok (0, c)
    else if sz c - 1 <=? len then
      let offset := len - (sz c - 1) in
      b' ← blit b 0 data offset (sz c - 1);
      Ok (len, Mk (Some b') (sz c) (wp c + (sz c - 1)) 0)
    else if rp c =? wp c then
      let l := Nat.min len (sz c - 1) in
      b' ← blit b 0 data 0 l;
      Ok (len, Mk (Some b') (sz c) l 0)
    else
      let l1 := Nat.min len (sz c - wp c) in
      b1 ← blit b (wp c) data 0 l1;
      let over := (wp c <? rp c) && (rp c <=? wp c + l1) in
      let wp1 := wrap_pos c (wp c + l1) in
      let rp1 := if over then wrap_pos c (wp1 + 1) else rp c in
      if negb (l1 =? len) then
        _ ← wassert (wp1 =? 0);
        let l2 := len - l1 in
        b2 ← blit b1 0 data l1 l2;
        let over2 := rp1 <=? wp1 + l2 in
        let wp2 := l2 in
        let rp2 := if over2 then wrap_pos c (wp2 + 1) else rp1 in
        Ok (len, Mk (Some b2) (sz c) wp2 rp2)
      else Ok (len, Mk (Some b1) (sz c) wp1 rp1)
  end.

Definition write (c : cbuf) (data : list Z) : res (nat * cbuf) :=
  let len := length data in
  match buf c with
  | None => Ok (0, c)
  | Some b =>
    if sz c =? 0 then Ok (0, c)
    else if rp c =? wp c then
      let bytes := Nat.min len (sz c - 1) in
      b' ← blit b 0 data 0 bytes;
      Ok (bytes, Mk (Some b') (sz c) bytes 0)
    else if (wp c + 1 =? rp c) || ((wp c + 1 =? sz c) && (rp c =? 0)) then
      Ok (0, c)
    else if wp c <? rp c then
      let bytes := Nat.min len (rp c - wp c - 1) in
      b' ← blit b (wp c) data 0 bytes;
      Ok (bytes, Mk (Some b') (sz c) (wp c + bytes) (rp c))
    else if negb (wp c =? 0) && (rp c =? 0) then
      let bytes := Nat.min len (sz c - wp c - 1) in
      b' ← blit b (wp c) data 0 bytes;
      Ok (bytes, Mk (Some b') (sz c) (wp c + bytes) (rp c))
    else
      let bytes := Nat.min len (sz c - wp c) in
      b1 ← blit b (wp c) data 0 bytes;
      let wp1 := wrap_pos c (wp c + bytes) in
      if negb (bytes =? len) then
        _ ← wassert (wp1 =? 0);
        let l := Nat.min (len - bytes) (rp c - 1) in
        b2 ← blit b1 0 data bytes l;
        Ok (bytes + l, Mk (Some b2) (sz c) l (rp c))
      else Ok (bytes, Mk (Some b1) (sz c) wp1 (rp c))
  end.

(** read(): the bytes stored into the caller's buffer are returned as a list. *)
Definition read (c : cbuf) (len : nat) : res (list Z * cbuf) :=
  let b := default [] (buf c) in
  if wp c =? rp c then Ok ([], c)
  else if rp c <? wp c then
    let bytes := Nat.min len (wp c - rp c) in
    out ← blit (replicate len 0%Z) 0 b (rp c) bytes;
    Ok (take bytes out, Mk (buf c) (sz c) (wp c) (rp c + bytes))
  else
    let bytes := Nat.min len (sz c - rp c) in
    out ← blit (replicate len 0%Z) 0 b (rp c) bytes;
    let rp1 := wrap_pos c (rp c + bytes) in
    if negb (bytes =? len) then
      _ ← wassert (rp1 =? 0);
      let l := Nat.min (len - bytes) (wp c) in
      out2 ← blit out bytes b 0 l;
      Ok (take (bytes + l) out2, Mk (buf c) (sz c) (wp c) l)
    else Ok (take bytes out, Mk (buf c) (sz c) (wp c) rp1).

(** ** The bounded-queue contract

    An initialised buffer of size [sz] is a FIFO queue of at most [sz - 1]
    bytes; [contents] is its abstract value. *)

Record wf (c : cbuf) (b : list Z) : Prop := {
  wf_buf : buf c = Some b;
  wf_len : length b = sz c;
  wf_wp : wp c < sz c;
  wf_rp : rp c < sz c;
}.

Definition size (c : cbuf) : nat := if rp c <=? wp c then wp c - rp c else sz c - rp c + wp c.

Definition contents (c : cbuf) : list Z :=
  let b := default [] (buf c) in
  if rp c <=? wp c then take (wp c - rp c) (drop (rp c) b) else drop (rp c) b ++ take (wp c) b.

Lemma size_lt c b : wf c b -> size c < sz c.
Proof. intros []. unfold size. destruct (Nat.leb_spec (rp c) (wp c)); lia. Qed.

Lemma contents_lookup c b i : wf c b ->
  contents c !! i =
  if i <? size c then b !! (if rp c + i <? sz c then rp c + i else rp c + i - sz c) else None.
Proof.
  intros [Hb Hl Hw Hr]. unfold contents, size. rewrite Hb. simpl.
  destruct (Nat.leb_spec (rp c) (wp c)).
  - destruct (Nat.ltb_spec i (wp c - rp c)).
    + rewrite lookup_take_lt, lookup_drop by lia. destruct (Nat.ltb_spec (rp c + i) (sz c)); [done | lia].
    + rewrite lookup_take_ge by lia. done.
  - destruct (Nat.ltb_spec (rp c + i) (sz c)).
    + rewrite lookup_app_l by (rewrite length_drop; lia). rewrite lookup_drop.
      destruct (Nat.ltb_spec i (sz c - rp c + wp c)); [done | lia].
    + rewrite lookup_app_r by (rewrite length_drop; lia). rewrite length_drop, Hl.
      destruct (Nat.ltb_spec i (sz c - rp c + wp c)).
      * rewrite lookup_take_lt by lia. f_equal. lia.
      * rewrite lookup_take_ge by lia. done.
Qed.

Lemma contents_length c b : wf c b -> length (contents c) = size c.
Proof.
  intros [Hb Hl Hw Hr]. unfold contents, size. rewrite Hb. simpl.
  destruct (Nat.leb_spec (rp c) (wp c));
    rewrite ?length_app, ?length_take, ?length_drop; lia.
Qed.

(** Case split on every comparison of the goal, closing impossible branches. *)
Ltac no_if t := lazymatch t with context [if _ then _ else _] => fail | _ => idtac end.
Ltac cb_cases :=
  repeat match goal with
  | |- context [?a <=? ?b] =>
      no_if a; no_if b; destruct (Nat.leb_spec a b); cbn [andb orb negb]; try lia
  | |- context [?a <? ?b] =>
      no_if a; no_if b; destruct (Nat.ltb_spec a b); cbn [andb orb negb]; try lia
  | |- context [?a =? ?b] =>
      no_if a; no_if b; destruct (Nat.eqb_spec a b); cbn [andb orb negb]; try lia
  end.
Ltac cb_close := first [done | exfalso; lia | f_equal; lia].

(** The two-segment description of a list equality [contents c' = l1 ++ l2]
    through its lookups. *)
Lemma contents_eq c b l : wf c b -> length l = size c ->
  (forall i, i < size c -> l !! i = b !! (if rp c + i <? sz c then rp c + i else rp c + i - sz c)) ->
  contents c = l.
Proof.
  intros W Hlen H. apply list_eq. intros i. rewrite (contents_lookup c b) by done.
  destruct (Nat.ltb_spec i (size c)) as [L | L].
  - symmetry. by apply H.
  - symmetry. apply lookup_ge_None. lia.
Qed.

Lemma app_contents_lookup c b data n i : wf c b ->
  (contents c ++ take n data) !! i =
  if i <? size c then b !! (if rp c + i <? sz c then rp c + i else rp c + i - sz c)
  else if i - size c <? n then data !! (i - size c) else None.
Proof.
  intros W. pose proof (contents_length c b W) as L.
  destruct (Nat.ltb_spec i (size c)).
  - rewrite lookup_app_l by lia. rewrite (contents_lookup c b) by done.
    destruct (Nat.ltb_spec i (size c)); [done | lia].
  - rewrite lookup_app_r, L by lia. destruct (Nat.ltb_spec (i - size c) n).
    + by rewrite lookup_take_lt by lia.
    + by rewrite lookup_take_ge by lia.
Qed.

(** Appending [n] bytes: the new array agrees with the old one on the old
    contents and holds [data] behind them. *)
Lemma append_contents c b c' b' data n :
  wf c b -> wf c' b' -> sz c' = sz c -> n <= length data ->
  size c' = size c + n ->
  (forall i, i < size c ->
     b' !! (if rp c' + i <? sz c then rp c' + i else rp c' + i - sz c) =
     b !! (if rp c + i <? sz c then rp c + i else rp c + i - sz c)) ->
  (forall i, i < n ->
     b' !! (if rp c' + (size c + i) <? sz c then rp c' + (size c + i) else rp c' + (size c + i) - sz c) =
     data !! i) ->
  contents c' = contents c ++ take n data.
Proof.
  intros W W' Hs Hn Hsz Hold Hnew. apply (contents_eq c' b'); [done | |].
  { rewrite length_app, (contents_length c b), length_take by done. lia. }
  intros i Hi. rewrite (app_contents_lookup c b) by done. rewrite Hs.
  destruct (Nat.ltb_spec i (size c)); [symmetry; by apply Hold |].
  destruct (Nat.ltb_spec (i - size c) n); [| lia].
  rewrite <- Hnew by lia. replace (size c + (i - size c)) with i by lia. done.
Qed.

(** [c'] is [c] with the bytes [l] appended. *)
Definition appended (c : cbuf) (l : list Z) (c' : cbuf) : Prop :=
  exists b', buf c' = Some b' /\ wf c' b' /\ sz c' = sz c /\ contents c' = contents c ++ l.

(** Run the next memcpy; its bounds are linear arithmetic. *)
Ltac blit_step b' L :=
  match goal with
  | |- context [blit ?d ?do ?s ?so ?l] =>
      let E := fresh "E" in let Hl := fresh "Hl" in
      destruct (blit_Ok d s do so l) as (b' & E & Hl & L);
        [try (rewrite ?length_replicate; lia) .. |];
      rewrite E; cbn [mbind res_bind]
  end.

(** One memcpy at [wp] that stays inside the free space appends its bytes; the
    write position wraps to 0 when it reaches the end of the array. *)
Lemma append_chunk c b data soff n :
  wf c b -> soff + n <= length data -> size c + n < sz c -> wp c + n <= sz c ->
  exists b', blit b (wp c) data soff n = Ok b' /\ length b' = length b /\
    appended c (take n (drop soff data)) (Mk (Some b') (sz c) (wrap_pos c (wp c + n)) (rp c)).
Proof.
  intros W Hn Hfit Hend. pose proof W as [Hb Hlen Hw Hr].
  destruct (blit_Ok b data (wp c) soff n) as (b' & E & Hl & L); [lia | lia |].
  exists b'. split; [done |]. split; [done |]. exists b'. split; [done |].
  assert (W' : wf (Mk (Some b') (sz c) (wrap_pos c (wp c + n)) (rp c)) b').
  { split; simpl; try done; try lia. unfold wrap_pos. cb_cases. }
  split_and!; [done | done |]. apply (append_contents c b _ b' _ n W W'); simpl.
  - done.
  - rewrite length_drop. lia.
  - revert Hfit. unfold size, wrap_pos. simpl. cb_cases.
  - intros i Hi. rewrite L. revert Hi Hfit. unfold size. cb_cases; intros; cb_close.
  - intros i Hi. rewrite L, lookup_drop. revert Hfit. unfold size. cb_cases; intros; cb_close.
Qed.

(** Writing into an empty buffer restarts at position 0. *)
Lemma append_reset c b data soff n :
  wf c b -> rp c = wp c -> soff + n <= length data -> n < sz c ->
  exists b', blit b 0 data soff n = Ok b' /\
    appended c (take n (drop soff data)) (Mk (Some b') (sz c) n 0).
Proof.
  intros W He Hn Hfit. pose proof W as [Hb Hlen Hw Hr].
  destruct (blit_Ok b data 0 soff n) as (b' & E & Hl & L); [lia | lia |].
  exists b'. split; [done |]. exists b'. split; [done |].
  assert (W' : wf (Mk (Some b') (sz c) n 0) b') by (split; simpl; lia || done).
  split_and!; [done | done |]. apply (append_contents c b _ b' _ n W W'); simpl.
  - done.
  - rewrite length_drop. lia.
  - unfold size. simpl. cb_cases.
  - intros i. unfold size. cb_cases.
  - intros i Hi. rewrite L, lookup_drop. unfold size. cb_cases; cb_close.
Qed.

Lemma appended_trans c c1 c2 data n m :
  appended c (take n data) c1 -> appended c1 (take m (drop n data)) c2 ->
  appended c (take (n + m) data) c2.
Proof.
  intros (b1 & E1 & W1 & S1 & C1) (b2 & E2 & W2 & S2 & C2).
  exists b2. split_and!; [done | done | congruence |].
  by rewrite C2, C1, <- app_assoc, take_take_drop.
Qed.

Lemma appended_nil c b : wf c b -> appended c [] c.
Proof. intros W. exists b. split_and!; [apply W | done | done | by rewrite app_nil_r]. Qed.

Lemma wrap_pos_lt c x : x < sz c -> wrap_pos c x = x.
Proof. intros. unfold wrap_pos. cb_cases; done. Qed.

Lemma wrap_pos_sz c : wrap_pos c (sz c) = 0.
Proof. unfold wrap_pos. by rewrite Nat.eqb_refl. Qed.

(** write() appends to the queue as many bytes as fit: exactly
    min(len, free) where free = capacity - size and the capacity is sz - 1;
    it returns that number, and the invariant holds afterwards. *)
Theorem write_correct c b data : wf c b ->
  let n := Nat.min (length data) (sz c - 1 - size c) in
  exists c', write c data = Ok (n, c') /\ appended c (take n data) c'.
Proof.
  intros W n. pose proof W as [Hb Hlen Hw Hr]. unfold write. rewrite Hb.
  destruct (Nat.eqb_spec (sz c) 0); [lia |].
  destruct (Nat.eqb_spec (rp c) (wp c)) as [Erw | Erw].
  { assert (Nat.min (length data) (sz c - 1) = n) as -> by (unfold n, size; cb_cases).
    destruct (append_reset c b data 0 n W Erw) as (b' & -> & A); [lia | lia |]. eauto. }
  assert (Lin : size c + n < sz c -> wp c + n < sz c ->
    exists c', (b' ← blit b (wp c) data 0 n; Ok (n, Mk (Some b') (sz c) (wp c + n) (rp c))) = Ok (n, c') /\
               appended c (take n data) c').
  { intros H1 H2. destruct (append_chunk c b data 0 n W) as (b' & -> & _ & A); [lia | lia | lia |].
    rewrite wrap_pos_lt in A by lia. eauto. }
  assert (Hfit : size c + n < sz c) by (pose proof (size_lt c b W); lia).
  destruct (_ || _) eqn:Efull.
  { assert (n = 0) as ->.
    { apply orb_true_iff in Efull. rewrite andb_true_iff, !Nat.eqb_eq in Efull. unfold n, size. cb_cases. }
    eexists. split; [done |]. rewrite take_0. eapply appended_nil; eauto. }
  apply orb_false_iff in Efull as [F1 F2]. apply Nat.eqb_neq in F1.
  rewrite andb_false_iff, !Nat.eqb_neq in F2.
  destruct (Nat.ltb_spec (wp c) (rp c)).
  { assert (Nat.min (length data) (rp c - wp c - 1) = n) as -> by (unfold n, size; cb_cases).
    apply Lin; unfold n, size; cb_cases. }
  destruct (negb _ && _) eqn:Ez.
  { apply andb_true_iff in Ez as [_ Ez]. apply Nat.eqb_eq in Ez.
    assert (Nat.min (length data) (sz c - wp c - 1) = n) as -> by (unfold n, size; cb_cases).
    apply Lin; unfold n, size; cb_cases. }
  assert (rp c <> 0).
  { intros E. rewrite E, andb_true_r in Ez. apply negb_false_iff, Nat.eqb_eq in Ez. lia. }
  assert (Sz : size c = wp c - rp c) by (unfold size; cb_cases; done).
  set (k := Nat.min (length data) (sz c - wp c)).
  destruct (append_chunk c b data 0 k W) as (b1 & -> & Hl1 & A1); [lia | lia | lia |].
  rewrite drop_0 in A1. cbn [mbind res_bind]. destruct (Nat.eqb_spec k (length data)); cbn [negb].
  { replace n with k by lia. eauto. }
  replace (wp c + k) with (sz c) in * by lia. rewrite wrap_pos_sz in *. cbn [Nat.eqb wassert mbind res_bind].
  destruct A1 as (b1' & E1 & W1 & S1 & C1). simpl in E1. simplify_eq.
  destruct (append_chunk _ b1' data k (Nat.min (length data - k) (rp c - 1)) W1)
    as (b2 & E2 & _ & A2); [lia | simpl; unfold size; simpl; cb_cases | simpl; lia |].
  simpl in E2. rewrite E2. cbn [mbind res_bind]. eexists. split; [f_equal; f_equal; lia |].
  replace n with (k + Nat.min (length data - k) (rp c - 1)) by lia.
  rewrite wrap_pos_lt in A2 by (simpl; lia). simpl in A2.
  eapply appended_trans; [| exact A2]. exists b1'. done.
Qed.

Lemma write_correct_witness :
  let c := Mk (Some [1; 2; 3; 4; 5; 6]%Z) 6 5 4 in
  wf c [1; 2; 3; 4; 5; 6]%Z /\
  write c [7; 8; 9; 10; 11; 12]%Z = Ok (4, Mk (Some [8; 9; 10; 4; 5; 7]%Z) 6 3 4) /\
  exists c', write c [7; 8; 9; 10; 11; 12]%Z = Ok (4, c') /\ appended c [7; 8; 9; 10]%Z c'.
Proof.
  assert (W : wf (Mk (Some [1; 2; 3; 4; 5; 6]%Z) 6 5 4) [1; 2; 3; 4; 5; 6]%Z)
    by (split; simpl; lia || done).
  split; [exact W | split; [reflexivity |]].
  exact (write_correct _ _ [7; 8; 9; 10; 11; 12]%Z W).
Defined.

(** ** read() *)

Lemma take_blit (d s : list Z) doff soff l d' :
  blit d doff s soff l = Ok d' -> take (doff + l) d' = take doff d ++ take l (drop soff s).
Proof.
  unfold blit. destruct (_ && _) eqn:E; [| done].
  apply andb_true_iff in E as [E1 E2]. apply Nat.leb_le in E1, E2. intros [= <-].
  rewrite app_assoc. apply take_app_length'.
  rewrite length_app, !length_take, length_drop. lia.
Qed.

(** Advancing the read position by [n] drops the first [n] bytes, which lie
    at [rp] in the array when they do not cross its end. *)
Lemma read_chunk c b n : wf c b -> n <= size c -> rp c + n <= sz c ->
  let c' := Mk (buf c) (sz c) (wp c) (wrap_pos c (rp c + n)) in
  wf c' b /\ contents c' = drop n (contents c) /\ take n (drop (rp c) b) = take n (contents c).
Proof.
  intros W Hn He c'. pose proof W as [Hb Hlen Hw Hr].
  assert (W' : wf c' b).
  { split; simpl; try done. unfold wrap_pos. cb_cases. }
  split_and!; [done | |].
  - apply (contents_eq c' b); [done | |].
    + rewrite length_drop, (contents_length c b) by done.
      revert Hn. unfold size, c', wrap_pos; simpl. cb_cases.
    + intros i. rewrite lookup_drop, (contents_lookup c b) by done.
      revert Hn. unfold size, c', wrap_pos; simpl. cb_cases; intros; cb_close.
  - apply list_eq. intros i. destruct (Nat.ltb_spec i n).
    + rewrite !lookup_take_lt, lookup_drop, (contents_lookup c b) by (done || lia).
      cb_cases; cb_close.
    + by rewrite !lookup_take_ge by lia.
Qed.

(** read() returns the oldest min(len, size) bytes of the queue in order
    and removes exactly them. *)
Theorem read_correct c b len : wf c b ->
  let n := Nat.min len (size c) in
  exists c', read c len = Ok (take n (contents c), c') /\
    wf c' b /\ sz c' = sz c /\ contents c' = drop n (contents c).
Proof.
  intros W n. pose proof W as [Hb Hlen Hw Hr]. unfold read. rewrite Hb.
  change (default [] (Some b)) with b. assert (n <= len) by (unfold n; lia).
  destruct (Nat.eqb_spec (wp c) (rp c)) as [E | E].
  { assert (n = 0) as -> by (unfold n, size; cb_cases). rewrite take_0, drop_0. eauto. }
  destruct (Nat.ltb_spec (rp c) (wp c)).
  - assert (Nat.min len (wp c - rp c) = n) as -> by (unfold n, size; cb_cases).
    assert (n <= wp c - rp c) by (unfold n, size; cb_cases).
    blit_step out L. apply take_blit in E0 as T. rewrite Nat.add_0_l, take_0, app_nil_l in T.
    destruct (read_chunk c b n W) as (W' & C' & T'); [lia | unfold n, size; cb_cases |].
    rewrite wrap_pos_lt in W', C' by (unfold n, size; cb_cases).
    rewrite Hb in W', C'. rewrite T, T'. eauto.
  - assert (Ss : size c = sz c - rp c + wp c) by (unfold size; cb_cases).
    set (k := Nat.min len (sz c - rp c)).
    blit_step out L. apply take_blit in E0 as T. rewrite Nat.add_0_l, take_0, app_nil_l in T.
    destruct (read_chunk c b k W) as (W1 & C1 & T1); [lia | lia |]. rewrite Hb in W1, C1.
    destruct (Nat.eqb_spec k len); cbn [negb].
    { replace n with k by lia. rewrite T, T1. eauto. }
    replace (rp c + k) with (sz c) in * by lia. rewrite wrap_pos_sz in *.
    cbn [Nat.eqb wassert mbind res_bind].
    set (c1 := Mk (Some b) (sz c) (wp c) 0) in *. set (l := Nat.min (len - k) (wp c)).
    destruct (read_chunk c1 b l W1) as (W2 & C2 & T2);
      [unfold size; simpl; lia | simpl; lia |]. simpl in W2, C2, T2.
    rewrite wrap_pos_lt in W2, C2 by (simpl; lia). rewrite drop_0 in T2.
    destruct (blit_Ok out b k 0 l) as (out2 & E2 & _ & _);
      [rewrite Hl, length_replicate; lia | lia |].
    rewrite E2. apply take_blit in E2. cbn [mbind res_bind]. rewrite E2, drop_0, T, T1, T2, C1.
    exists (Mk (Some b) (sz c) (wp c) l). replace n with (k + l) by lia.
    split_and!; [| done | done |].
    + f_equal. f_equal. by rewrite take_take_drop.
    + by rewrite C2, C1, drop_drop.
Qed.

Lemma read_correct_witness :
  let b := [8; 9; 10; 4; 5; 7]%Z in let c := Mk (Some b) 6 3 4 in
  read c 4 = Ok ([5; 7; 8; 9]%Z, Mk (Some b) 6 3 2) /\
  exists c', read c 4 = Ok (take 4 (contents c), c') /\
    wf c' b /\ sz c' = sz c /\ contents c' = drop 4 (contents c).
Proof.
  split; [reflexivity |].
  apply (read_correct (Mk (Some [8; 9; 10; 4; 5; 7]%Z) 6 3 4) [8; 9; 10; 4; 5; 7]%Z 4).
  split; simpl; lia || done.
Defined.

(** ** overwrite() *)

(** The queue after an overwriting append: the newest sz - 1 bytes. *)
Definition newest (c : cbuf) (data : list Z) : list Z :=
  drop (size c + length data - (sz c - 1)) (contents c ++ data).

Lemma newest_eq c b data c' b' :
  wf c b -> wf c' b' -> sz c' = sz c ->
  size c' = Nat.min (size c + length data) (sz c - 1) ->
  (let k := size c + length data - (sz c - 1) in
   forall i, i < size c' ->
     b' !! (if rp c' + i <? sz c then rp c' + i else rp c' + i - sz c) =
     if k + i <? size c
     then b !! (if rp c + (k + i) <? sz c then rp c + (k + i) else rp c + (k + i) - sz c)
     else data !! (k + i - size c)) ->
  contents c' = newest c data.
Proof.
  intros W W' Hs Hsz H. apply (contents_eq c' b'); [done | |].
  - unfold newest. rewrite length_drop, length_app, (contents_length c b) by done. lia.
  - intros i Hi. unfold newest. rewrite Hs. rewrite H by done.
    pose proof (app_contents_lookup c b data (length data)
                  (size c + length data - (sz c - 1) + i) W) as P.
    rewrite firstn_all in P. rewrite lookup_drop, P. cb_cases; done.
Qed.

(** overwrite() misplaces its positions in two cases: a write of at least
    sz - 1 bytes adds sz - 1 to [_wp] instead of assigning it, and a write that
    exactly reaches the end of the array while [_rp] is 0 leaves
    [_wp = _rp], the empty state. *)
Definition overwrite_defect (c : cbuf) (len : nat) : Prop :=
  (sz c - 1 <= len /\ wp c <> 0) \/
  (len < sz c - 1 /\ rp c = 0 /\ wp c <> 0 /\ len = sz c - wp c).

(** The outcome of a correct overwrite() with the final array [b']. *)
Definition kept (c : cbuf) (data : list Z) (c' : cbuf) : Prop :=
  exists b', wf c' b' /\ sz c' = sz c /\ contents c' = newest c data.

(** Close a [kept] goal for the array [b'] whose lookups are given by [L]. *)
Ltac kept_tac W b' L :=
  exists b';
  match goal with |- wf ?c' _ /\ _ =>
    let W' := fresh "W" in
    assert (W' : wf c' b') by (split; cbn [buf sz wp rp]; try done; try lia; unfold wrap_pos; cb_cases);
    split_and!; [exact W' | done |];
    eapply (newest_eq _ _ _ _ b' W W'); cbn [buf sz wp rp];
      [ done
      | unfold size, wrap_pos; cbn [buf sz wp rp]; cb_cases
      | let i := fresh "i" in intros i; rewrite L; unfold size, wrap_pos; cbn [buf sz wp rp];
        cb_cases; intros; cb_close ]
  end.

(** A single memcpy at [wp], up to the end of the array. *)
Lemma overwrite_one c b data b1 : wf c b -> 2 <= sz c -> rp c <> wp c ->
  length data < sz c - 1 -> length data <= sz c - wp c ->
  ~ (rp c = 0 /\ length data = sz c - wp c) ->
  length b1 = length b ->
  (forall j, b1 !! j = if (wp c <=? j) && (j <? wp c + length data) then data !! (0 + (j - wp c)) else b !! j) ->
  let wp1 := wrap_pos c (wp c + length data) in
  kept c data (Mk (Some b1) (sz c) wp1
    (if (wp c <? rp c) && (rp c <=? wp c + length data) then wrap_pos c (wp1 + 1) else rp c)).
Proof.
  intros W H2 Hne Hl Hl2 Hd Hb L. pose proof W as [_ Hlen Hw Hr]. unfold wrap_pos.
  destruct (Nat.ltb_spec (wp c) (rp c)); cbn [andb].
  - destruct (Nat.leb_spec (rp c) (wp c + length data)).
    + destruct (Nat.eqb_spec (wp c + length data) (sz c)); kept_tac W b1 L.
    + destruct (Nat.eqb_spec (wp c + length data) (sz c)); [lia |]. kept_tac W b1 L.
  - destruct (Nat.eqb_spec (wp c + length data) (sz c)); kept_tac W b1 L.
Qed.

(** Two memcpys: up to the end of the array, then from its beginning. *)
Lemma overwrite_two c b data b2 : wf c b -> 2 <= sz c -> rp c <> wp c ->
  length data < sz c - 1 -> sz c - wp c < length data ->
  length b2 = length b ->
  (forall j, b2 !! j =
     if j <? length data - (sz c - wp c) then data !! (sz c - wp c + j)
     else if wp c <=? j then (if j <? sz c then data !! (j - wp c) else b !! j) else b !! j) ->
  let l2 := length data - (sz c - wp c) in
  let rp1 := if wp c <? rp c then 1 else rp c in
  kept c data (Mk (Some b2) (sz c) l2 (if rp1 <=? l2 then wrap_pos c (l2 + 1) else rp1)).
Proof.
  intros W H2 Hne Hl Hl2 Hb L. pose proof W as [_ Hlen Hw Hr]. cbv zeta.
  destruct (Nat.ltb_spec (wp c) (rp c)).
  - destruct (Nat.leb_spec 1 (length data - (sz c - wp c))); [| lia].
    rewrite wrap_pos_lt by lia. kept_tac W b2 L.
  - destruct (Nat.leb_spec (rp c) (length data - (sz c - wp c))).
    + rewrite wrap_pos_lt by lia. kept_tac W b2 L.
    + kept_tac W b2 L.
Qed.

(** outside the two defective cases overwrite() accepts all bytes and
    leaves exactly the newest sz - 1 bytes of the queue followed by the new
    data. *)
Theorem overwrite_correct c b data :
  wf c b -> 2 <= sz c -> ~ overwrite_defect c (length data) ->
  exists c', overwrite c data = Ok (length data, c') /\ kept c data c'.
Proof.
  intros W H2 Hd. pose proof W as [Hb Hlen Hw Hr]. unfold overwrite. rewrite Hb.
  unfold overwrite_defect in Hd.
  destruct (Nat.eqb_spec (sz c) 0); [lia |].
  destruct (Nat.leb_spec (sz c - 1) (length data)).
  { blit_step b' L. eexists. split; [done |]. kept_tac W b' L. }
  destruct (Nat.eqb_spec (rp c) (wp c)).
  { rewrite Nat.min_l by lia. blit_step b' L. eexists. split; [done |]. kept_tac W b' L. }
  set (l1 := Nat.min (length data) (sz c - wp c)). blit_step b1 L1.
  destruct (Nat.eqb_spec l1 (length data)) as [El | El]; cbn [negb].
  { rewrite El in *. eexists. split; [done |]. apply (overwrite_one c b); auto; lia. }
  assert (sz c - wp c < length data) by lia.
  replace l1 with (sz c - wp c) in * by lia. replace (wp c + (sz c - wp c)) with (sz c) in * by lia.
  rewrite wrap_pos_sz, (wrap_pos_lt c (0 + 1)) by lia. cbn [Nat.eqb wassert mbind res_bind].
  rewrite (proj2 (Nat.leb_le (rp c) (sz c))), andb_true_r by lia.
  blit_step b2 L2. eexists. split; [done |].
  apply (overwrite_two c b); auto; try lia.
  intros j. rewrite L2, L1. cb_cases; cb_close.
Qed.

Lemma overwrite_correct_witness :
  let c := Mk (Some [1; 2; 3; 4; 5; 6]%Z) 6 2 4 in
  overwrite c [7; 8; 9]%Z = Ok (3, Mk (Some [1; 2; 7; 8; 9; 6]%Z) 6 5 0) /\
  exists c', overwrite c [7; 8; 9]%Z = Ok (3, c') /\ kept c [7; 8; 9]%Z c'.
Proof.
  split; [reflexivity |].
  apply (overwrite_correct (Mk (Some [1; 2; 3; 4; 5; 6]%Z) 6 2 4) [1; 2; 3; 4; 5; 6]%Z [7; 8; 9]%Z).
  - split; simpl; lia || done.
  - simpl. lia.
  - unfold overwrite_defect. simpl. lia.
Defined.

(** in the first defective case the write position leaves the array
    (the next access is out of bounds), in the second the queue that should be
    full reads as empty. *)
Theorem overwrite_defects c b data : wf c b -> 2 <= sz c ->
  (sz c - 1 <= length data -> wp c <> 0 ->
   exists c', overwrite c data = Ok (length data, c') /\ sz c <= wp c') /\
  (length data < sz c - 1 -> rp c = 0 -> wp c <> 0 -> length data = sz c - wp c ->
   exists c', overwrite c data = Ok (length data, c') /\ contents c' = [] /\
     length (newest c data) = sz c - 1).
Proof.
  intros W H2. pose proof W as [Hb Hlen Hw Hr]. unfold overwrite. rewrite Hb.
  destruct (Nat.eqb_spec (sz c) 0); [lia |]. split.
  - intros Hl Hwp. rewrite (proj2 (Nat.leb_le _ _) Hl). blit_step b' L.
    eexists. split; [done |]. simpl. lia.
  - intros Hl Hrp Hwp Heq. destruct (Nat.leb_spec (sz c - 1) (length data)); [lia |].
    destruct (Nat.eqb_spec (rp c) (wp c)); [lia |]. rewrite Nat.min_l by lia.
    blit_step b1 L1. rewrite Nat.eqb_refl. cbn [negb].
    replace (wp c + length data) with (sz c) by lia. rewrite wrap_pos_sz.
    destruct (Nat.ltb_spec (wp c) (rp c)); [lia |]. cbn [andb]. rewrite Hrp.
    eexists. split_and!; [done | by unfold contents; simpl; rewrite take_0 |].
    unfold newest. rewrite length_drop, length_app, (contents_length c b) by done.
    unfold size. cb_cases.
Qed.

Lemma overwrite_defects_witness :
  (exists c', overwrite (Mk (Some [1; 2; 3; 4]%Z) 4 2 1) [7; 8; 9]%Z = Ok (3, c') /\ 4 <= wp c') /\
  (exists c', overwrite (Mk (Some [1; 2; 3; 4]%Z) 4 2 0) [7; 8]%Z = Ok (2, c') /\ contents c' = [] /\
     length (newest (Mk (Some [1; 2; 3; 4]%Z) 4 2 0) [7; 8]%Z) = 3).
Proof.
  split.
  - apply (overwrite_defects (Mk (Some [1; 2; 3; 4]%Z) 4 2 1) [1; 2; 3; 4]%Z [7; 8; 9]%Z);
      simpl; try lia. split; simpl; lia || done.
  - apply (overwrite_defects (Mk (Some [1; 2; 3; 4]%Z) 4 2 0) [1; 2; 3; 4]%Z [7; 8]%Z);
      simpl; try lia. split; simpl; lia || done.
Defined.

End Cbuf.
