(* ===== verification/ListSpec.v ===== *)
(** The contract of lib/containers/list.h ([list_t<T,N>]) as seen by its users.

    A list is a sequence of items; an item is an address (the iterator value,
    0 is end()) with its data.  The items that are not in use form the free
    list, taken from its front and returned to its front.  [XList] shows that
    the pointer implementation refines this contract; the kernel components
    are built on it. *)

From Stdlib Require Import ZArith Lia Bool.
From stdpp Require Import base list numbers sets.
From S2P Require Import Prelude.

Record alist (T : Type) := MkA { busy : list (Z * T); free : list Z }.
Arguments MkA {T} _ _.
Arguments busy {T} _.
Arguments free {T} _.

Section Spec.
Context {T : Type}.
Implicit Types (l : list (Z * T)) (A : alist T).

(** ** Items of a sequence *)

Definition first_it l : Z := match l with [] => 0 | (a, _) :: _ => a end.
Fixpoint last_from (d : Z) l : Z := match l with [] => d | (a, _) :: t => last_from a t end.
Definition last_it l : Z := last_from 0 l.

Fixpoint find_it (it : Z) l : option T :=
  match l with
  | [] => None
  | (a, v) :: t => if a =? it then Some v else find_it it t
  end.

Fixpoint next_it (it : Z) l : option Z :=
  match l with
  | [] => None
  | (a, _) :: t => if a =? it then Some (first_it t) else next_it it t
  end.

Fixpoint prev_it (p it : Z) l : option Z :=
  match l with
  | [] => None
  | (a, _) :: t => if a =? it then Some p else prev_it a it t
  end.

Fixpoint remove_it (it : Z) l : list (Z * T) :=
  match l with
  | [] => []
  | (a, v) :: t => if a =? it then t else (a, v) :: remove_it it t
  end.

Fixpoint before_it (it : Z) (x : Z * T) l : list (Z * T) :=
  match l with
  | [] => []
  | (a, v) :: t => if a =? it then x :: (a, v) :: t else (a, v) :: before_it it x t
  end.

Fixpoint after_it (it : Z) (x : Z * T) l : list (Z * T) :=
  match l with
  | [] => []
  | (a, v) :: t => if a =? it then (a, v) :: x :: t else (a, v) :: after_it it x t
  end.

Fixpoint update_it (it : Z) (w : T) l : list (Z * T) :=
  match l with
  | [] => []
  | (a, v) :: t => if a =? it then (a, w) :: t else (a, v) :: update_it it w t
  end.

(** ** Operations *)

Definition begin A : Z := first_it (busy A).
Definition last A : Z := last_it (busy A).
Definition deref A (it : Z) : res T := from_opt FMem (find_it it (busy A)).
Definition next A (it : Z) : res Z := from_opt FMem (next_it it (busy A)).
Definition prev A (it : Z) : res Z := from_opt FMem (prev_it 0 it (busy A)).
Definition size A : nat := length (busy A).
Definition empty A : bool := Nat.eqb (size A) 0.
Definition store A (it : Z) (w : T) : alist T := MkA (update_it it w (busy A)) (free A).

(** An item of the free list; without one (and without an allocator) the code
    panics: list is full. *)
Definition take_free A : res (Z * list Z) :=
  match free A with [] => Stop FPanic | f :: fs => Ok (f, fs) end.

Definition push_back A (v : T) : res (alist T) :=
  '(f, fs) ← take_free A; Ok (MkA (busy A ++ [(f, v)]) fs).

(** insert next to [pos]: into an empty list the position is ignored. *)
Definition insert_at (ins : Z -> Z * T -> list (Z * T) -> list (Z * T)) A (pos : Z) (v : T)
  : res (Z * alist T) :=
  '(f, fs) ← take_free A;
  match busy A with
  | [] => Ok (f, MkA [(f, v)] fs)
  | _ => _ ← from_opt FMem (find_it pos (busy A)); Ok (f, MkA (ins pos (f, v) (busy A)) fs)
  end.

Definition insert_before A pos v := insert_at before_it A pos v.
Definition insert_after A pos v := insert_at after_it A pos v.

(** erase() returns the following item. *)
Definition erase A (pos : Z) : res (Z * alist T) :=
  _ ← wassert (negb (empty A));
  n ← next A pos;
  Ok (n, MkA (remove_it pos (busy A)) (pos :: free A)).

Section Sorted.
Context (ltb : T -> T -> bool).

Fixpoint find_pos l (v : T) : Z :=
  match l with
  | [] => 0
  | (a, w) :: t => if negb (ltb w v) then a else find_pos t v
  end.

Definition insert_sort A (v : T) : res (Z * alist T) :=
  '(f, fs) ← take_free A;
  let pos := find_pos (busy A) v in
  if negb (pos =? 0) then Ok (f, MkA (before_it pos (f, v) (busy A)) fs)
  else Ok (f, MkA (busy A ++ [(f, v)]) fs).

End Sorted.

(** ** Well-formed lists *)

Definition items l : list Z := fst <$> l.
Definition vals l : list T := snd <$> l.

(** Item addresses are non-null and pairwise distinct, free items included. *)
Definition wf A : Prop :=
  NoDup (items (busy A) ++ free A) /\ Forall (fun a => a <> 0) (items (busy A) ++ free A).

Lemma find_it_in it l : is_Some (find_it it l) <-> it ∈ items l.
Proof.
  induction l as [|[a v] t IH]; simpl; [split; [by intros [] | by intros ?%elem_of_nil] |].
  rewrite elem_of_cons. destruct (Z.eqb_spec a it) as [-> | ?]; [naive_solver |].
  rewrite IH. naive_solver.
Qed.

Lemma find_it_elem_of l i v : find_it i l = Some v -> (i, v) ∈ l.
Proof. induction l as [|[a w] t IH]; simpl; [done |]. destruct (Z.eqb_spec a i) as [->|]; [intros [= ->]; by left | right; by apply IH]. Qed.
Lemma last_from_in l d : l <> [] -> last_from d l ∈ items l.
Proof.
  revert d. induction l as [|[a v] l IH]; intros d H; [done |]. destruct l as [|x l]; [by left |]. right. by apply (IH a).
Qed.
Lemma next_it_some i l : is_Some (find_it i l) -> is_Some (next_it i l).
Proof. induction l as [|[a w] t IH]; simpl; [by intros [] |]. destruct (a =? i); [done | apply IH]. Qed.

Lemma find_it_split it l v : find_it it l = Some v ->
  exists l1 l2, l = l1 ++ (it, v) :: l2 /\ it ∉ items l1.
Proof.
  induction l as [|[a w] t IH]; simpl; [done |].
  destruct (Z.eqb_spec a it) as [-> | ?].
  - intros [= ->]. exists [], t. split; [done | apply not_elem_of_nil].
  - intros (l1 & l2 & -> & Hn)%IH. exists ((a, w) :: l1), l2. split; [done |]. simpl. set_solver.
Qed.

Section Split.
Context (it : Z) (l1 l2 : list (Z * T)) (v : T) (Hn : it ∉ items l1).

Local Ltac at_split :=
  induction l1 as [|[a v0] t IH]; simpl in *;
  [by rewrite Z.eqb_refl
  | destruct (Z.eqb_spec a it) as [-> |]; [set_solver | rewrite ?IH by set_solver; done]].

Lemma find_it_at : find_it it (l1 ++ (it, v) :: l2) = Some v.
Proof. at_split. Qed.
Lemma remove_it_at : remove_it it (l1 ++ (it, v) :: l2) = l1 ++ l2.
Proof. at_split. Qed.
Lemma before_it_at x : before_it it x (l1 ++ (it, v) :: l2) = l1 ++ x :: (it, v) :: l2.
Proof. at_split. Qed.
Lemma after_it_at x : after_it it x (l1 ++ (it, v) :: l2) = l1 ++ (it, v) :: x :: l2.
Proof. at_split. Qed.
Lemma update_it_at w : update_it it w (l1 ++ (it, v) :: l2) = l1 ++ (it, w) :: l2.
Proof. at_split. Qed.
Lemma next_it_at : next_it it (l1 ++ (it, v) :: l2) = Some (first_it l2).
Proof. at_split. Qed.
Lemma prev_it_at p : prev_it p it (l1 ++ (it, v) :: l2) = Some (last_from p l1).
Proof.
  revert p. induction l1 as [|[a w] t IH]; intros p; simpl in *; [by rewrite Z.eqb_refl |].
  destruct (Z.eqb_spec a it) as [-> |]; [set_solver | apply IH; set_solver].
Qed.

End Split.

(** ** Preservation of well-formedness *)

Lemma items_app l1 l2 : items (l1 ++ l2) = items l1 ++ items l2.
Proof. unfold items. by rewrite fmap_app. Qed.

Lemma vals_app l1 l2 : vals (l1 ++ l2) = vals l1 ++ vals l2.
Proof. unfold vals. by rewrite fmap_app. Qed.

Lemma wf_perm A B : items (busy A) ++ free A ≡ₚ items (busy B) ++ free B -> wf A -> wf B.
Proof. unfold wf. intros P [H1 H2]. by rewrite <- P. Qed.

Lemma push_back_wf A v A' : wf A -> push_back A v = Ok A' ->
  wf A' /\ vals (busy A') = vals (busy A) ++ [v].
Proof.
  unfold push_back, take_free. destruct (free A) as [|f fs] eqn:E; simpl; [done |].
  intros W [= <-]. split; simpl.
  - apply (wf_perm A); [| done]. rewrite E. simpl. rewrite items_app. simpl. solve_Permutation.
  - unfold vals. by rewrite fmap_app.
Qed.

Lemma erase_wf A pos n A' : wf A -> erase A pos = Ok (n, A') ->
  exists l1 v l2, busy A = l1 ++ (pos, v) :: l2 /\ busy A' = l1 ++ l2 /\
    free A' = pos :: free A /\ n = first_it l2 /\ wf A'.
Proof.
  unfold erase, next. intros W H. apply bind_Ok in H as (u & _ & H).
  apply bind_Ok in H as (x & E & H). destruct (find_it pos (busy A)) as [v|] eqn:F.
  - apply find_it_split in F as (l1 & l2 & Eb & Hn). exists l1, v, l2.
    rewrite Eb in *. rewrite next_it_at in E by done. simpl in E. injection E as <-.
    injection H as <- <-. simpl. rewrite remove_it_at by done. split_and!; auto.
    apply (wf_perm A); [| done]. rewrite Eb. simpl. rewrite !items_app. simpl. solve_Permutation.
  - exfalso. assert (Hni : pos ∉ items (busy A)).
    { intros Hin. apply find_it_in in Hin as [? ?]. congruence. }
    clear F H. induction (busy A) as [|[a w] t IH]; simpl in *; [done |].
    destruct (Z.eqb_spec a pos) as [-> |]; [set_solver | apply IH; auto; set_solver].
Qed.

End Spec.
