(* ===== verification/XList.v ===== *)
(** lib/containers/list.h: the pointer implementation of [list_t<T,N>] and its
    refinement of the contract in [ListSpec].

    Items live in a heap indexed by address; 0 is the null pointer and an
    access to an unmapped address is a memory error.  The
    operations are those of the release build, where [check] does nothing;
    the consistency check [do_check] of the debug build is modelled apart,
    and never fails on a list that represents a sequence. *)

From Stdlib Require Import ZArith Lia Bool.
From stdpp Require Import base list numbers gmap.
From S2P Require Import Prelude ListSpec.

Record item (T : Type) := MkItem { i_prev : Z; i_next : Z; i_data : T }.
Arguments MkItem {T} _ _ _.
Arguments i_prev {T} _.
Arguments i_next {T} _.
Arguments i_data {T} _.

(** Xlist *)
Record xlist := MkX { x_begin : Z; x_last : Z; x_sz : Z }.

Inductive where_t := Next | Prev.

Section Impl.
Context {T : Type}.
Notation heap := (gmap Z (item T)).
Implicit Types (h : heap) (x : xlist).

Definition load h (a : Z) : res (item T) := from_opt FMem (h !! a).

Definition set_prev h (a v : Z) : res heap :=
  i ← load h a; Ok (<[a := MkItem v (i_next i) (i_data i)]> h).
Definition set_next h (a v : Z) : res heap :=
  i ← load h a; Ok (<[a := MkItem (i_prev i) v (i_data i)]> h).
Definition set_data h (a : Z) (d : T) : res heap :=
  i ← load h a; Ok (<[a := MkItem (i_prev i) (i_next i) d]> h).

Definition xlist_ctor : xlist := MkX 0 0 0.

(** Xlist::remove *)
Definition xremove h x (it : Z) : res (heap * xlist) :=
  _ ← wassert (negb (x_sz x =? 0));
  i ← load h it;
  h1 ← (if negb (i_next i =? 0) then set_prev h (i_next i) (i_prev i) else Ok h);
  h2 ← (if negb (i_prev i =? 0) then set_next h1 (i_prev i) (i_next i) else Ok h1);
  Ok (h2, MkX (if it =? x_begin x then i_next i else x_begin x)
              (if it =? x_last x then i_prev i else x_last x)
              (u32 (x_sz x - 1))).

(** Xlist::add *)
Definition xadd h x (pos : Z) (where_ : where_t) (it : Z) : res (heap * xlist) :=
  if x_sz x =? 0 then
    h1 ← set_prev h it 0;
    h2 ← set_next h1 it 0;
    Ok (h2, MkX it it (u32 (x_sz x + 1)))
  else match where_ with
  | Next =>
      p ← load h pos;
      h1 ← (if negb (i_next p =? 0) then set_prev h (i_next p) it else Ok h);
      p1 ← load h1 pos;
      h2 ← set_next h1 it (i_next p1);
      h3 ← set_next h2 pos it;
      h4 ← set_prev h3 it pos;
      Ok (h4, MkX (x_begin x) (if pos =? x_last x then it else x_last x) (u32 (x_sz x + 1)))
  | Prev =>
      p ← load h pos;
      h1 ← (if negb (i_prev p =? 0) then set_next h (i_prev p) it else Ok h);
      p1 ← load h1 pos;
      h2 ← set_prev h1 it (i_prev p1);
      h3 ← set_prev h2 pos it;
      h4 ← set_next h3 it pos;
      Ok (h4, MkX (if pos =? x_begin x then it else x_begin x) (x_last x) (u32 (x_sz x + 1)))
  end.

(** Xlist::find_pos: the loop follows [next]; [fuel] bounds its steps. *)
Section FindPos.
Context (ltb : T -> T -> bool).

Fixpoint find_pos_loop (fuel : nat) h (it : Z) (v : T) : res Z :=
  match fuel with
  | O => Stop FFuel
  | S f =>
      if it =? 0 then Ok 0
      else i ← load h it;
           if negb (ltb (i_data i) v) then Ok it else find_pos_loop f h (i_next i) v
  end.

Definition xfind_pos h x (v : T) : res Z :=
  if x_sz x =? 0 then Ok 0 else find_pos_loop (S (Z.to_nat (x_sz x))) h (x_begin x) v.

End FindPos.

(** Xlist::do_check: the two loops of the consistency check of the debug
    build count the items, remember the last one and look for [pos]. *)
Fixpoint check_walk (link : item T -> Z) (fuel : nat) h (it pos cnt last_item : Z) (pos_in_list : bool)
  : res (Z * Z * bool) :=
  match fuel with
  | O => Stop FFuel
  | S f =>
      if it =? 0 then Ok (cnt, last_item, pos_in_list)
      else i ← load h it;
           check_walk link f h (link i) pos (u32 (cnt + 1)) it (pos_in_list || (pos =? it))
  end.

Definition do_check (fuel : nat) h x (pos : Z) : res unit :=
  let sz := x_sz x in
  _ ← wassert (negb (sz =? 0) || ((x_begin x =? 0) && (x_last x =? 0)));
  _ ← wassert ((sz <=? 1) || negb (x_begin x =? x_last x));
  _ ← wassert ((1 <? sz) || (x_begin x =? x_last x));
  '(cnt, last_item, found) ← check_walk i_next fuel h (x_begin x) pos 0 0 false;
  _ ← wassert (x_last x =? last_item);
  _ ← wassert (sz =? cnt);
  _ ← wassert (found || ((sz =? 0) && (pos =? 0)));
  '(cnt, last_item, found) ← check_walk i_prev fuel h (x_last x) pos 0 0 false;
  _ ← wassert (x_begin x =? last_item);
  _ ← wassert (sz =? cnt);
  wassert (found || ((sz =? 0) && (pos =? 0))).

(** ** list_t

    [malloc_func] is null ([None]) or a callback; the model lists the answers
    (address and size) its successive calls will give, an exhausted list
    standing for a null answer. *)
Record xl := MkL {
  hp : heap; xbusy : xlist; xfree : xlist; malloc_func : option (list (Z * Z))
}.

(** sizeof(Item) and the content of memory that was never written. *)
Context (Item_size : Z) (garbage : T).

Definition format h (a : Z) : heap :=
  match h !! a with Some _ => h | None => <[a := MkItem 0 0 garbage]> h end.

(** add_mem: put the items of [base, base + sz) to the free list. *)
Fixpoint add_mem_loop (fuel : nat) (L : xl) (addr rest : Z) : res xl :=
  match fuel with
  | O => Stop FFuel
  | S f =>
      if Item_size <=? rest then
        '(h1, fr) ← xadd (format (hp L) addr) (xfree L) (x_last (xfree L)) Next addr;
        add_mem_loop f (MkL h1 (xbusy L) fr (malloc_func L)) (addr + Item_size) (rest - Item_size)
      else Ok L
  end.

Definition add_mem (L : xl) (base sz : Z) : res xl :=
  add_mem_loop (S (Z.to_nat (sz / Item_size))) L base sz.

(** list_t(): N items of the local buffer. *)
Definition list_ctor (N local_buf : Z) : res xl :=
  add_mem (MkL ∅ xlist_ctor xlist_ctor None) local_buf (Item_size * N).

(** list_t(mem, sz): further items from [mem]. *)
Definition list_ctor_mem (N local_buf mem sz : Z) : res xl :=
  L ← list_ctor N local_buf; add_mem L mem sz.

Definition set_allocator (L : xl) (new_malloc : option (list (Z * Z))) : xl :=
  MkL (hp L) (xbusy L) (xfree L) new_malloc.

Definition check_for_alloc (L : xl) : res xl :=
  if x_sz (xfree L) =? 0 then
    match malloc_func L with
    | Some ((mem, sz) :: more) =>
        if mem =? 0 then Stop FPanic
        else add_mem (MkL (hp L) (xbusy L) (xfree L) (Some more)) mem sz
    | _ => Stop FPanic
    end
  else Ok L.

Definition lpush_back (L0 : xl) (v : T) : res xl :=
  L ← check_for_alloc L0;
  let it := x_begin (xfree L) in
  '(h1, fr) ← xremove (hp L) (xfree L) it;
  '(h2, bs) ← xadd h1 (xbusy L) (x_last (xbusy L)) Next it;
  h3 ← set_data h2 it v;
  Ok (MkL h3 bs fr (malloc_func L)).

Definition linsert (w : where_t) (L0 : xl) (pos : Z) (v : T) : res (Z * xl) :=
  L ← check_for_alloc L0;
  let it := x_begin (xfree L) in
  '(h1, fr) ← xremove (hp L) (xfree L) it;
  '(h2, bs) ← xadd h1 (xbusy L) pos w it;
  h3 ← set_data h2 it v;
  Ok (it, MkL h3 bs fr (malloc_func L)).

Definition linsert_before := linsert Prev.
Definition linsert_after := linsert Next.

Definition linsert_sort (ltb : T -> T -> bool) (L0 : xl) (v : T) : res (Z * xl) :=
  L ← check_for_alloc L0;
  pos ← xfind_pos ltb (hp L) (xbusy L) v;
  let it := x_begin (xfree L) in
  '(h1, fr) ← xremove (hp L) (xfree L) it;
  h2 ← set_data h1 it v;
  '(h3, bs) ← (if negb (pos =? 0) then xadd h2 (xbusy L) pos Prev it
               else xadd h2 (xbusy L) (x_last (xbusy L)) Next it);
  Ok (it, MkL h3 bs fr (malloc_func L)).

Definition lerase (L : xl) (it : Z) : res (Z * xl) :=
  _ ← wassert (negb (x_sz (xbusy L) =? 0));
  i ← load (hp L) it;
  let ret := i_next i in
  '(h1, bs) ← xremove (hp L) (xbusy L) it;
  '(h2, fr) ← xadd h1 (xfree L) (x_begin (xfree L)) Prev it;
  Ok (ret, MkL h2 bs fr (malloc_func L)).

Fixpoint lclear_loop (fuel : nat) (L : xl) (it : Z) : res xl :=
  match fuel with
  | O => Stop FFuel
  | S f => if it =? 0 then Ok L else '(n, L') ← lerase L it; lclear_loop f L' n
  end.

Definition lclear (L : xl) : res xl :=
  lclear_loop (S (Z.to_nat (x_sz (xbusy L)))) L (x_begin (xbusy L)).

Definition lfront (L : xl) : res T :=
  _ ← wassert (negb (x_sz (xbusy L) =? 0)); i ← load (hp L) (x_begin (xbusy L)); Ok (i_data i).
Definition lback (L : xl) : res T :=
  _ ← wassert (negb (x_sz (xbusy L) =? 0)); i ← load (hp L) (x_last (xbusy L)); Ok (i_data i).

(** iter_t: operator++, operator--, operator* *)
Definition iter_next (L : xl) (it : Z) : res Z := i ← load (hp L) it; Ok (i_next i).
Definition iter_prev (L : xl) (it : Z) : res Z := i ← load (hp L) it; Ok (i_prev i).
Definition iter_deref (L : xl) (it : Z) : res T := i ← load (hp L) it; Ok (i_data i).

End Impl.
Arguments xl : clear implicits.

(** ** Representation of an address list by linked items *)

Definition hdz (n : Z) (l : list Z) : Z := match l with [] => n | a :: _ => a end.
Fixpoint lastz (p : Z) (l : list Z) : Z := match l with [] => p | a :: t => lastz a t end.

Section Repr.
Context {T : Type}.
Notation heap := (gmap Z (item T)).
Implicit Types (h : heap) (x : xlist) (l : list Z).

(** [l] is a chain of items with [p] before its first and [n] after its last. *)
Fixpoint dseg h (p : Z) l (n : Z) : Prop :=
  match l with
  | [] => True
  | a :: t => (exists d, h !! a = Some (MkItem p (hdz n t) d)) /\ dseg h a t n
  end.

(** The Xlist [x] holds exactly the items [l], in this order. *)
Record dll h x l : Prop := {
  dll_seg : dseg h 0 l 0;
  dll_x : x = MkX (hdz 0 l) (lastz 0 l) (Z.of_nat (length l));
  dll_nodup : NoDup l;
  dll_nonnull : Forall (fun a => a <> 0) l;
  dll_small : Z.of_nat (length l) < 2 ^ 32;
}.

(** [h'] agrees with [h] outside [l] and holds the same data everywhere. *)
Definition touched l h h' : Prop :=
  (forall a, a ∉ l -> h' !! a = h !! a) /\
  (forall a, i_data <$> h' !! a = i_data <$> h !! a).

Lemma touched_refl l h : touched l h h.
Proof. done. Qed.

Lemma touched_trans l h h1 h2 : touched l h h1 -> touched l h1 h2 -> touched l h h2.
Proof.
  intros [A1 B1] [A2 B2]. split; intros a; [intros Ha; by rewrite A2, A1 | by rewrite B2, B1].
Qed.

Lemma touched_mono l l' h h' : l ⊆ l' -> touched l h h' -> touched l' h h'.
Proof. intros Hs [A B]. split; [| done]. intros a Ha. apply A. set_solver. Qed.

Lemma touched_mapped l h h' a : touched l h h' -> is_Some (h !! a) -> is_Some (h' !! a).
Proof. intros [_ B] [i Hi]. specialize (B a). rewrite Hi in B. by destruct (h' !! a). Qed.

Lemma touched_insert l h a i i' : a ∈ l -> h !! a = Some i -> i_data i' = i_data i ->
  touched l h (<[a := i']> h).
Proof.
  intros Ha Hi Hd. split; intros b.
  - intros Hb. apply lookup_insert_ne. set_solver.
  - destruct (decide (a = b)) as [<- |]; [rewrite lookup_insert_eq, Hi; simpl; by f_equal |].
    by rewrite lookup_insert_ne.
Qed.

Lemma dseg_frame h h' p l n : (forall a, a ∈ l -> h' !! a = h !! a) -> dseg h p l n -> dseg h' p l n.
Proof.
  revert p. induction l as [|a t IH]; intros p Hf; simpl; [done |].
  intros [[d Hd] Ht]. split; [exists d; rewrite Hf; set_solver | apply IH; [set_solver | done]].
Qed.

Lemma dseg_touched h h' p l n k : touched k h h' -> (forall a, a ∈ l -> a ∉ k) ->
  dseg h p l n -> dseg h' p l n.
Proof. intros [A _] Hd. apply dseg_frame. auto. Qed.

Lemma dseg_app h p l1 l2 n :
  dseg h p (l1 ++ l2) n <-> dseg h p l1 (hdz n l2) /\ dseg h (lastz p l1) l2 n.
Proof.
  revert p. induction l1 as [|a t IH]; intros p; simpl; [tauto |].
  rewrite IH. assert (hdz n (t ++ l2) = hdz (hdz n l2) t) as -> by (by destruct t). tauto.
Qed.

Lemma lastz_app p l1 l2 : lastz p (l1 ++ l2) = lastz (lastz p l1) l2.
Proof. revert p. induction l1; intros; simpl; auto. Qed.

Lemma hdz_app n l1 l2 : hdz n (l1 ++ l2) = hdz (hdz n l2) l1.
Proof. by destruct l1. Qed.

Lemma lastz_in p l : l <> [] -> lastz p l ∈ l.
Proof.
  revert p. induction l as [|a t IH]; intros p Hl; [done |]. simpl.
  destruct t as [|b t]; [set_solver |]. apply elem_of_cons. right. by apply IH.
Qed.

(** Rewriting the back pointer of the first item, and the forward pointer of
    the last item, of a chain. *)
Lemma relink_prev h p l n v : dseg h p l n -> NoDup l -> Forall (fun a => a <> 0) l ->
  exists h', (if negb (hdz 0 l =? 0) then set_prev h (hdz 0 l) v else Ok h) = Ok h' /\
    dseg h' v l n /\ touched l h h'.
Proof.
  intros Hs Hd Hz. destruct l as [|a t]; simpl; [exists h; auto using touched_refl |].
  destruct Hs as [[d Ha] Ht]. apply NoDup_cons in Hd as [Hn Hd]. apply Forall_cons in Hz as [Hz _].
  destruct (Z.eqb_spec a 0); [done |]. simpl. unfold set_prev, load. rewrite Ha. simpl.
  eexists. split; [done |]. split.
  - split; [exists d; by rewrite lookup_insert_eq |]. apply (dseg_frame h); [| done].
    intros b Hb. apply lookup_insert_ne. set_solver.
  - eapply touched_insert; [| exact Ha | done]. set_solver.
Qed.

Lemma relink_next h p l n v : dseg h p l n -> NoDup l -> Forall (fun a => a <> 0) l ->
  exists h', (if negb (lastz 0 l =? 0) then set_next h (lastz 0 l) v else Ok h) = Ok h' /\
    dseg h' p l v /\ touched l h h'.
Proof.
  destruct l as [|b t _] using rev_ind; intros Hs Hd Hz; [exists h; auto using touched_refl |].
  rewrite lastz_app. simpl. apply dseg_app in Hs as [Hs [[d Hb] _]]. simpl in *.
  apply NoDup_app in Hd as (Hd & Hdj & _). apply Forall_app in Hz as [_ Hz].
  apply Forall_cons in Hz as [Hz _]. destruct (Z.eqb_spec b 0); [done |]. simpl.
  unfold set_next, load. rewrite Hb. simpl. eexists. split; [done |]. split.
  - apply dseg_app. simpl. split; [| split; [exists d; by rewrite lookup_insert_eq | done]].
    apply (dseg_frame h); [| done]. intros c Hc. apply lookup_insert_ne. set_solver.
  - eapply touched_insert; [| exact Hb | done]. set_solver.
Qed.


Lemma dll_parts h x l1 l2 : dll h x (l1 ++ l2) ->
  dseg h 0 l1 (hdz 0 l2) /\ dseg h (lastz 0 l1) l2 0 /\ NoDup l1 /\ NoDup l2 /\
  (forall a, a ∈ l1 -> a ∉ l2) /\ Forall (fun a => a <> 0) l1 /\ Forall (fun a => a <> 0) l2.
Proof.
  intros [S _ D Z _]. apply dseg_app in S as [? ?]. apply NoDup_app in D as (? & ? & ?).
  apply Forall_app in Z as [? ?].
  split_and!; auto.
Qed.

(** The set of items behind a chain is mapped, and the chain ignores writes elsewhere. *)
Lemma dseg_insert h p l n a i : a ∉ l -> dseg h p l n -> dseg (<[a := i]> h) p l n.
Proof. intros Ha. apply dseg_frame. intros b Hb. apply lookup_insert_ne. set_solver. Qed.

Lemma if_eqb_begin it l1 l2 : it ∉ l1 ->
  (if it =? hdz 0 (l1 ++ it :: l2) then hdz 0 l2 else hdz 0 (l1 ++ it :: l2)) = hdz 0 (l1 ++ l2).
Proof.
  intros Hn. destruct l1 as [|a t]; simpl; [by rewrite Z.eqb_refl |].
  destruct (Z.eqb_spec it a); [set_solver | done].
Qed.

Lemma if_eqb_last it l1 l2 : it ∉ l2 ->
  (if it =? lastz 0 (l1 ++ it :: l2) then lastz 0 l1 else lastz 0 (l1 ++ it :: l2)) =
  lastz 0 (l1 ++ l2).
Proof.
  intros Hn. rewrite !lastz_app. simpl. destruct l2 as [|a t]; simpl; [by rewrite Z.eqb_refl |].
  destruct (Z.eqb_spec it (lastz a t)) as [E |]; [| done].
  exfalso. apply Hn. rewrite E. apply (lastz_in it (a :: t)). done.
Qed.

Lemma xremove_spec h x l1 it l2 : dll h x (l1 ++ it :: l2) ->
  exists h' x', xremove h x it = Ok (h', x') /\ dll h' x' (l1 ++ l2) /\
    touched (l1 ++ it :: l2) h h'.
Proof.
  intros D. destruct (dll_parts _ _ _ _ D) as (S1 & [[d Hit] S2] & N1 & N2 & Dj & Z1 & Z2).
  apply NoDup_cons in N2 as [Hn2 N2]. apply Forall_cons in Z2 as [Zi Z2].
  assert (Hn1 : it ∉ l1) by (intros ?; apply (Dj it); set_solver).
  destruct (relink_prev h it l2 0 (lastz 0 l1)) as (h1 & E1 & S2' & T1); [done..|].
  destruct (relink_next h1 0 l1 it (hdz 0 l2)) as (h2 & E2 & S1' & T2); [| done..|].
  { eapply dseg_touched; [exact T1 | | exact S1]. intros a Ha ?. apply (Dj a Ha). set_solver. }
  destruct D as [_ Dx Dn Dz Ds].
  assert (Hlen : length (l1 ++ it :: l2) = S (length (l1 ++ l2))) by (rewrite !length_app; simpl; lia).
  exists h2, (MkX (hdz 0 (l1 ++ l2)) (lastz 0 (l1 ++ l2)) (Z.of_nat (length (l1 ++ l2)))).
  split_and!.
  - unfold xremove. subst x. cbn [x_sz x_begin x_last].
    destruct (Z.eqb_spec (Z.of_nat (length (l1 ++ it :: l2))) 0); [lia |]. simpl.
    unfold load. rewrite Hit. simpl. rewrite E1. simpl. rewrite E2. simpl.
    rewrite if_eqb_begin, if_eqb_last by done. do 3 f_equal.
    rewrite wrap_small; unfold in_range; lia.
  - constructor; [| done | | | lia].
    + apply dseg_app. split; [done |]. eapply dseg_touched; [exact T2 | | exact S2'].
      intros a Ha ?. apply (Dj a); set_solver.
    + apply NoDup_app. split_and!; auto. intros a Ha ?. apply (Dj a); set_solver.
    + apply Forall_app. done.
  - eapply touched_trans; (eapply touched_mono; [| eassumption]); set_solver.
Qed.

Lemma load_at h a i : h !! a = Some i -> load h a = Ok i.
Proof. intros E. unfold load. by rewrite E. Qed.

(** Writing the links of an item that is in no chain. *)
Lemma set_next_at h a v i : h !! a = Some i ->
  set_next h a v = Ok (<[a := MkItem (i_prev i) v (i_data i)]> h).
Proof. intros E. unfold set_next, load. by rewrite E. Qed.
Lemma set_prev_at h a v i : h !! a = Some i ->
  set_prev h a v = Ok (<[a := MkItem v (i_next i) (i_data i)]> h).
Proof. intros E. unfold set_prev, load. by rewrite E. Qed.

(** A chain with a new item in the middle. *)
Lemma dll_insert h x l1 it l2 d : NoDup (l1 ++ l2) -> it ∉ l1 ++ l2 -> it <> 0 ->
  Forall (fun a => a <> 0) (l1 ++ l2) ->
  Z.of_nat (length (l1 ++ l2)) + 1 < 2 ^ 32 ->
  dseg h 0 l1 it -> h !! it = Some (MkItem (lastz 0 l1) (hdz 0 l2) d) -> dseg h it l2 0 ->
  x = MkX (hdz 0 (l1 ++ it :: l2)) (lastz 0 (l1 ++ it :: l2)) (Z.of_nat (length (l1 ++ l2)) + 1) ->
  dll h x (l1 ++ it :: l2).
Proof.
  intros Nd Hn Hz Fz Hl S1 Hi S2 ->.
  assert (Hlen : length (l1 ++ it :: l2) = S (length (l1 ++ l2))) by (rewrite !length_app; simpl; lia).
  constructor.
  - apply dseg_app. simpl. split; [done |]. eauto.
  - f_equal. lia.
  - rewrite <- Permutation_middle. by apply NoDup_cons.
  - apply Forall_app in Fz as [? ?]. apply Forall_app. auto.
  - lia.
Qed.

Lemma if_eqb_new_last it l1 l2 : NoDup (l1 ++ l2) -> l1 <> [] ->
  (if lastz 0 l1 =? lastz 0 (l1 ++ l2) then it else lastz 0 (l1 ++ l2)) = lastz 0 (l1 ++ it :: l2).
Proof.
  intros N H1. rewrite !lastz_app. destruct l2 as [|b t]; simpl; [by rewrite Z.eqb_refl |].
  destruct (Z.eqb_spec (lastz 0 l1) (lastz b t)) as [E |]; [| done]. exfalso.
  apply NoDup_app in N as (_ & Dj & _). apply (Dj (lastz 0 l1)); [by apply lastz_in |].
  rewrite E. apply (lastz_in 0 (b :: t)). done.
Qed.

Lemma if_eqb_new_begin it l1 l2 : NoDup (l1 ++ l2) -> l2 <> [] ->
  (if hdz 0 l2 =? hdz 0 (l1 ++ l2) then it else hdz 0 (l1 ++ l2)) = hdz 0 (l1 ++ it :: l2).
Proof.
  intros N H2. destruct l1 as [|a t]; simpl; [by rewrite Z.eqb_refl |].
  destruct l2 as [|b u]; [done |]. simpl. apply NoDup_cons in N as [Hn _].
  destruct (Z.eqb_spec b a); [set_solver | done].
Qed.


(** What every form of Xlist::add promises. *)
Definition adds h x (pos : Z) (w : where_t) (it : Z) l1 l2 : Prop :=
  exists h' x', xadd h x pos w it = Ok (h', x') /\ dll h' x' (l1 ++ it :: l2) /\
    touched (it :: l1 ++ l2) h h'.

Section Add.
Context (h : heap) (x : xlist) (it : Z) (i : item T).
Context (Hz : it <> 0) (Hi : h !! it = Some i).

Lemma xadd_empty pos w : dll h x [] -> adds h x pos w it [] [].
Proof.
  intros D. exists (<[it := MkItem 0 0 (i_data i)]> h), (MkX it it 1). split_and!.
  - unfold xadd. rewrite (dll_x _ _ _ D). simpl. erewrite set_prev_at by done. simpl.
    erewrite set_next_at by (apply lookup_insert_eq). simpl. by rewrite insert_insert_eq.
  - apply dll_insert with (d := i_data i); simpl; try done.
    + constructor.
    + apply not_elem_of_nil.
    + apply lookup_insert_eq.
  - by eapply touched_insert; [constructor | exact Hi |].
Qed.

Lemma xadd_next l1 l2 : dll h x (l1 ++ l2) -> it ∉ l1 ++ l2 -> l1 <> [] ->
  Z.of_nat (length (l1 ++ l2)) + 1 < 2 ^ 32 ->
  adds h x (lastz 0 l1) Next it l1 l2.
Proof.
  intros D Hn Hl Hlen. destruct (dll_parts _ _ _ _ D) as (S1 & S2 & N1 & N2 & Dj & Z1 & Z2).
  pose proof (lastz_in 0 l1 Hl) as Hin. set (pos := lastz 0 l1) in *.
  assert (Hpz : pos <> 0) by (rewrite Forall_forall in Z1; auto).
  assert (Hp : exists q d, h !! pos = Some (MkItem q (hdz 0 l2) d)).
  { subst pos. clear - S1 Hl. destruct l1 as [|b t _] using rev_ind; [done |].
    apply dseg_app in S1 as [_ [[d E] _]]. rewrite lastz_app. simpl in *. eauto. }
  destruct Hp as (q & d & Hp).
  destruct (relink_prev h pos l2 0 it) as (h1 & E1 & S2' & T1); [done..|].
  assert (Hp1 : h1 !! pos = Some (MkItem q (hdz 0 l2) d)).
  { destruct T1 as [-> _]; [done | apply (Dj pos Hin)]. }
  assert (Hi1 : h1 !! it = Some i) by (destruct T1 as [-> _]; [done | set_solver]).
  set (h2 := <[it := MkItem (i_prev i) (hdz 0 l2) (i_data i)]> h1).
  destruct (relink_next h2 0 l1 (hdz 0 l2) it) as (h3 & E3 & S1' & T3); [| done..|].
  { apply dseg_insert; [set_solver |]. eapply dseg_touched; [exact T1 | | exact S1]. auto. }
  assert (Hi3 : h3 !! it = Some (MkItem (i_prev i) (hdz 0 l2) (i_data i))).
  { destruct T3 as [-> _]; [| set_solver]. apply lookup_insert_eq. }
  fold pos in E3. destruct (Z.eqb_spec pos 0) as [| _]; [done |]. simpl in E3.
  exists (<[it := MkItem pos (hdz 0 l2) (i_data i)]> h3).
  eexists. split_and!.
  - unfold xadd. rewrite (dll_x _ _ _ D). cbn [x_sz x_begin x_last].
    destruct (Z.eqb_spec (Z.of_nat (length (l1 ++ l2))) 0) as [E|].
    { destruct l1; [done | simpl in E; lia]. }
    rewrite (load_at _ _ _ Hp). simpl. rewrite E1. simpl. rewrite (load_at _ _ _ Hp1). simpl.
    rewrite (set_next_at _ _ _ _ Hi1). simpl. fold h2. rewrite E3. simpl.
    rewrite (set_prev_at _ _ _ _ Hi3). simpl. reflexivity.
  - apply dll_insert with (d := i_data i); try done.
    + apply (dll_nodup _ _ _ D).
    + apply (dll_nonnull _ _ _ D).
    + apply dseg_insert; [set_solver | done].
    + apply lookup_insert_eq.
    + apply dseg_insert; [set_solver |]. eapply dseg_touched; [exact T3 | set_solver |].
      by apply dseg_insert; [set_solver |].
    + subst pos. rewrite if_eqb_new_last by (done || apply (dll_nodup _ _ _ D)).
      rewrite wrap_small by (unfold in_range; lia). f_equal. by destruct l1.
  - eapply touched_trans; [eapply touched_mono; [| exact T1]; set_solver |].
    apply (touched_trans _ _ h2); [eapply touched_insert; [| exact Hi1 |]; [set_solver | done] |].
    eapply touched_trans; [eapply touched_mono; [| exact T3]; set_solver |].
    by eapply touched_insert; [| exact Hi3 |]; [set_solver |].
Qed.

Lemma xadd_prev l1 l2 : dll h x (l1 ++ l2) -> it ∉ l1 ++ l2 -> l2 <> [] ->
  Z.of_nat (length (l1 ++ l2)) + 1 < 2 ^ 32 ->
  adds h x (hdz 0 l2) Prev it l1 l2.
Proof.
  intros D Hn Hl Hlen. destruct (dll_parts _ _ _ _ D) as (S1 & S2 & N1 & N2 & Dj & Z1 & Z2).
  assert (Hin : hdz 0 l2 ∈ l2) by (destruct l2; [done | simpl; set_solver]).
  set (pos := hdz 0 l2) in *.
  assert (Hpz : pos <> 0) by (rewrite Forall_forall in Z2; auto).
  assert (Hp : exists q d, h !! pos = Some (MkItem (lastz 0 l1) q d)).
  { subst pos. destruct l2 as [|b t]; [done |]. destruct S2 as [[d E] _]. simpl. eauto. }
  destruct Hp as (q & d & Hp).
  destruct (relink_next h 0 l1 pos it) as (h1 & E1 & S1' & T1); [done..|].
  assert (Hp1 : h1 !! pos = Some (MkItem (lastz 0 l1) q d)).
  { destruct T1 as [-> _]; [done |]. intros ?. by apply (Dj pos). }
  assert (Hi1 : h1 !! it = Some i) by (destruct T1 as [-> _]; [done | set_solver]).
  set (h2 := <[it := MkItem (lastz 0 l1) (i_next i) (i_data i)]> h1).
  destruct (relink_prev h2 (lastz 0 l1) l2 0 it) as (h3 & E3 & S2' & T3); [| done..|].
  { apply dseg_insert; [set_solver |]. eapply dseg_touched; [exact T1 | | exact S2].
    intros a ? ?. by apply (Dj a). }
  assert (Hi3 : h3 !! it = Some (MkItem (lastz 0 l1) (i_next i) (i_data i))).
  { destruct T3 as [-> _]; [| set_solver]. apply lookup_insert_eq. }
  fold pos in E3. destruct (Z.eqb_spec pos 0) as [| _]; [done |]. simpl in E3.
  exists (<[it := MkItem (lastz 0 l1) pos (i_data i)]> h3).
  eexists. split_and!.
  - unfold xadd. rewrite (dll_x _ _ _ D). cbn [x_sz x_begin x_last].
    destruct (Z.eqb_spec (Z.of_nat (length (l1 ++ l2))) 0) as [E|].
    { rewrite length_app in E. destruct l2; [done | simpl in E; lia]. }
    rewrite (load_at _ _ _ Hp). simpl. rewrite E1. simpl. rewrite (load_at _ _ _ Hp1). simpl.
    rewrite (set_prev_at _ _ _ _ Hi1). simpl. fold h2. rewrite E3. simpl.
    rewrite (set_next_at _ _ _ _ Hi3). simpl. reflexivity.
  - apply dll_insert with (d := i_data i); try done.
    + apply (dll_nodup _ _ _ D).
    + apply (dll_nonnull _ _ _ D).
    + apply dseg_insert; [set_solver |]. eapply dseg_touched; [exact T3 | |].
      { intros a ? ?. by apply (Dj a). }
      by apply dseg_insert; [set_solver |].
    + apply lookup_insert_eq.
    + apply dseg_insert; [set_solver | done].
    + subst pos. rewrite if_eqb_new_begin by (done || apply (dll_nodup _ _ _ D)).
      rewrite wrap_small by (unfold in_range; lia). f_equal. rewrite !lastz_app. by destruct l2.
  - eapply touched_trans; [eapply touched_mono; [| exact T1]; set_solver |].
    apply (touched_trans _ _ h2); [eapply touched_insert; [| exact Hi1 |]; [set_solver | done] |].
    eapply touched_trans; [eapply touched_mono; [| exact T3]; set_solver |].
    by eapply touched_insert; [| exact Hi3 |]; [set_solver |].
Qed.

End Add.


Lemma dll_touched h h' x l k : touched k h h' -> (forall a, a ∈ l -> a ∉ k) ->
  dll h x l -> dll h' x l.
Proof. intros Ht Hd []. constructor; try done. by eapply dseg_touched. Qed.

Lemma dll_set_data h x l a i v : h !! a = Some i -> dll h x l ->
  dll (<[a := MkItem (i_prev i) (i_next i) v]> h) x l.
Proof.
  intros Hi [S ? ? ? ?]. constructor; try done. revert S. generalize 0 at 1 3 as p.
  clear - Hi. induction l as [|b t IH]; intros p; simpl; [done |].
  intros [[d Hd] Ht]. split; [| by apply IH].
  destruct (decide (a = b)) as [<- |]; [| rewrite lookup_insert_ne by done; eauto].
  rewrite lookup_insert_eq. rewrite Hi in Hd. injection Hd as ->. simpl. eauto.
Qed.

(** *** The debug check *)

Lemma check_forward h pos : forall l fuel p cnt lst b, dseg h p l 0 ->
  Forall (fun a => a <> 0) l -> (length l < fuel)%nat -> 0 <= cnt ->
  cnt + Z.of_nat (length l) < 2 ^ 32 ->
  check_walk i_next fuel h (hdz 0 l) pos cnt lst b =
    Ok (cnt + Z.of_nat (length l), lastz lst l, b || bool_decide (pos ∈ l)).
Proof.
  induction l as [|a t IH]; intros [|fuel] p cnt lst b S Z Hf Hc Hl; simpl in *; try lia.
  - by rewrite Z.add_0_r, orb_false_r.
  - destruct S as [[d Ha] S]. apply Forall_cons in Z as [Z Zt].
    destruct (Z.eqb_spec a 0); [done |]. rewrite (load_at _ _ _ Ha). simpl.
    rewrite wrap_small by (unfold in_range; lia).
    rewrite (IH fuel a) by (done || lia). f_equal. f_equal; [f_equal; lia |].
    rewrite <- orb_assoc. f_equal. destruct (Z.eqb_spec pos a); simpl; symmetry.
    + rewrite bool_decide_eq_true. set_solver.
    + apply bool_decide_ext. set_solver.
Qed.

Lemma check_backward h pos : forall l fuel n cnt lst b, dseg h 0 l n ->
  Forall (fun a => a <> 0) l -> (length l < fuel)%nat -> 0 <= cnt ->
  cnt + Z.of_nat (length l) < 2 ^ 32 ->
  check_walk i_prev fuel h (lastz 0 l) pos cnt lst b =
    Ok (cnt + Z.of_nat (length l), hdz lst l, b || bool_decide (pos ∈ l)).
Proof.
  induction l as [|a t IH] using rev_ind; intros [|fuel] n cnt lst b S Z Hf Hc Hl;
    rewrite ?length_app in *; simpl in *; try lia.
  - by rewrite Z.add_0_r, orb_false_r.
  - apply dseg_app in S as [S [[d Ha] _]]. apply Forall_app in Z as [Zt Z].
    apply Forall_cons in Z as [Z _]. rewrite lastz_app. simpl in *.
    destruct (Z.eqb_spec a 0); [done |]. rewrite (load_at _ _ _ Ha). simpl.
    rewrite wrap_small by (unfold in_range; lia).
    rewrite (IH fuel a) by (done || lia). f_equal. f_equal; [f_equal; [lia | by destruct t] |].
    rewrite <- orb_assoc. f_equal. destruct (Z.eqb_spec pos a); simpl; symmetry.
    + rewrite bool_decide_eq_true. set_solver.
    + apply bool_decide_ext. set_solver.
Qed.

Lemma do_check_ok h x l pos fuel : dll h x l -> (length l < fuel)%nat ->
  pos ∈ l \/ (l = [] /\ pos = 0) -> do_check fuel h x pos = Ok tt.
Proof.
  intros [Sg Dx N Zn Hs] Hf Hpos. unfold do_check. rewrite Dx. cbn [x_sz x_begin x_last].
  rewrite (check_forward h pos l fuel 0), (check_backward h pos l fuel 0) by (done || lia).
  assert (Hp : bool_decide (pos ∈ l) || ((Z.of_nat (length l) =? 0) && (pos =? 0)) = true).
  { destruct Hpos as [Hin | [-> ->]]; [by rewrite bool_decide_eq_true_2 | done]. }
  simpl. rewrite !Z.add_0_l, !Z.eqb_refl, Hp. simpl.
  destruct l as [|a [|b t]]; [done | simpl; by rewrite !Z.eqb_refl |].
  apply NoDup_cons in N as [Hn _]. simpl. destruct (Z.eqb_spec a (lastz b t)) as [E|_].
  { exfalso. apply Hn. rewrite E. apply (lastz_in 0 (b :: t)). done. }
  replace (1 <? Z.of_nat (S (S (length t)))) with true by (symmetry; apply Z.ltb_lt; lia).
  rewrite !orb_true_r. done.
Qed.

End Repr.

(** ** Refinement of the contract *)

Section Refine.
Context {T : Type}.
Notation heap := (gmap Z (item T)).
Implicit Types (h : heap) (x : xlist) (l : list (Z * T)).

(** The data of the items of [l] are stored in [h]. *)
Definition holds h (l : list (Z * T)) : Prop :=
  Forall (fun p => i_data <$> h !! p.1 = Some p.2) l.

Record repr (L : xl T) (A : alist T) : Prop := {
  r_busy : dll (hp L) (xbusy L) (items (busy A));
  r_free : dll (hp L) (xfree L) (free A);
  r_data : holds (hp L) (busy A);
  r_wf : wf A;
  r_total : Z.of_nat (length (items (busy A) ++ free A)) < 2 ^ 32;
  r_fixed : malloc_func L = None;
}.

(** [impl] does what [spec] says; where the contract leaves the behaviour open
    (an iterator that is not in the list) nothing is promised. *)
Definition refines {R} (impl : res (R * xl T)) (spec : res (R * alist T)) : Prop :=
  match spec with
  | Ok (r, A') => exists L', impl = Ok (r, L') /\ repr L' A'
  | Stop FMem => True
  | Stop f => impl = Stop f
  end.

Lemma holds_touched h h' k l : touched k h h' -> holds h l -> holds h' l.
Proof. intros [_ B] D. eapply Forall_impl; [exact D |]. intros [a v] H. simpl in *. by rewrite B. Qed.

Lemma holds_insert h l a i : a ∉ items l -> holds h l -> holds (<[a := i]> h) l.
Proof.
  intros Ha. unfold holds. rewrite !Forall_forall. intros H [b v] Hb. simpl.
  rewrite lookup_insert_ne; [by apply (H (b, v)) |].
  intros ->. apply Ha. unfold items. apply list_elem_of_fmap. by exists (b, v).
Qed.

(** Detaching the first free item. *)
Record detached (L : xl T) (A : alist T) (f : Z) (fs : list Z) (h : heap) (fr : xlist) : Prop := {
  d_busy : dll h (xbusy L) (items (busy A));
  d_free : dll h fr fs;
  d_data : holds h (busy A);
  d_item : exists i, h !! f = Some i;
  d_fresh : f ∉ items (busy A) ++ fs;
  d_nonnull : f <> 0;
}.

Lemma detach L A f fs : repr L A -> free A = f :: fs ->
  exists h fr, (x_sz (xfree L) =? 0) = false /\ x_begin (xfree L) = f /\
    xremove (hp L) (xfree L) f = Ok (h, fr) /\ detached L A f fs h fr.
Proof.
  intros [B F D W Tt _] E. rewrite E in *.
  destruct W as [Nd Nz]. rewrite E in Nd, Nz. apply NoDup_app in Nd as (_ & Dj & Nf).
  apply NoDup_cons in Nf as [Hf _]. apply Forall_app in Nz as [_ Nz].
  apply Forall_cons in Nz as [Nz _].
  destruct (xremove_spec _ _ [] f fs F) as (h & fr & R & F' & T'). simpl in *.
  exists h, fr. split_and!; auto.
  - by rewrite (dll_x _ _ _ F).
  - by rewrite (dll_x _ _ _ F).
  - constructor; auto.
    + eapply dll_touched; [exact T' | | exact B]. auto.
    + by eapply holds_touched.
    + destruct (dll_seg _ _ _ F) as [[d Hd] _].
      destruct (touched_mapped _ _ _ f T'); [by eexists | eauto].
    + rewrite elem_of_app. intros [Hb | ?]; [| done]. apply (Dj f Hb). set_solver.
Qed.

(** Attaching it to the busy list. *)
Lemma attach_repr L A f fs h fr l1 l2 v bs :
  repr L A -> free A = f :: fs -> busy A = l1 ++ l2 -> dll h fr fs ->
  dll h bs (items l1 ++ f :: items l2) -> holds h (l1 ++ l2) -> i_data <$> h !! f = Some v ->
  repr (MkL h bs fr (malloc_func L)) (MkA (l1 ++ (f, v) :: l2) fs).
Proof.
  intros R Ef Eb F B D Hv.
  assert (P : items (busy A) ++ free A ≡ₚ items (l1 ++ (f, v) :: l2) ++ fs).
  { rewrite Ef, Eb, !items_app. simpl. solve_Permutation. }
  constructor; simpl; auto.
  - rewrite items_app. done.
  - apply Forall_app in D as [? ?]. apply Forall_app. split; [done |]. by constructor.
  - by apply (wf_perm A); [| apply r_wf in R].
  - rewrite <- P. apply (r_total _ _ R).
  - apply (r_fixed _ _ R).
Qed.

(** Data may be written to the item before or after it is attached. *)
Lemma attach_after L A f fs h fr l1 l2 v pos w : repr L A -> free A = f :: fs ->
  busy A = l1 ++ l2 -> detached L A f fs h fr ->
  adds h (xbusy L) pos w f (items l1) (items l2) ->
  exists h' bs h'', xadd h (xbusy L) pos w f = Ok (h', bs) /\ set_data h' f v = Ok h'' /\
    repr (MkL h'' bs fr (malloc_func L)) (MkA (l1 ++ (f, v) :: l2) fs).
Proof.
  intros R Ef Eb [B F D [i0 Hi0] Hf Hz] (h' & bs & Ea & B' & T'). rewrite Eb in *.
  destruct (touched_mapped _ _ _ f T') as [i Hi]; [by eexists |].
  exists h', bs. eexists. split_and!; [done | unfold set_data; rewrite (load_at _ _ _ Hi); done |].
  apply attach_repr with (A := A); auto.
  - apply dll_set_data; [done |]. eapply dll_touched; [exact T' | | exact F].
    pose proof (r_wf _ _ R) as [N _]. rewrite Ef, Eb, items_app in N.
    apply NoDup_app in N as (_ & N & _). intros a Ha. rewrite elem_of_cons.
    intros [-> | Hin]; [set_solver |]. apply (N a Hin). set_solver.
  - by apply dll_set_data.
  - apply holds_insert; [set_solver |]. by eapply holds_touched.
  - by rewrite lookup_insert_eq.
Qed.

Lemma attach_before L A f fs h fr l1 l2 v pos w : repr L A -> free A = f :: fs ->
  busy A = l1 ++ l2 -> detached L A f fs h fr -> i_data <$> h !! f = Some v ->
  adds h (xbusy L) pos w f (items l1) (items l2) ->
  exists h' bs, xadd h (xbusy L) pos w f = Ok (h', bs) /\
    repr (MkL h' bs fr (malloc_func L)) (MkA (l1 ++ (f, v) :: l2) fs).
Proof.
  intros R Ef Eb [B F D _ Hf Hz] Hv (h' & bs & Ea & B' & T'). rewrite Eb in *.
  exists h', bs. split; [done |]. apply attach_repr with (A := A); auto.
  - eapply dll_touched; [exact T' | | exact F].
    pose proof (r_wf _ _ R) as [N _]. rewrite Ef, Eb, items_app in N.
    apply NoDup_app in N as (_ & N & _). intros a Ha. rewrite elem_of_cons.
    intros [-> | Hin]; [set_solver |]. apply (N a Hin). set_solver.
  - by eapply holds_touched.
  - destruct T' as [_ ->]. done.
Qed.

Lemma detached_set_data L A f fs h fr i v : detached L A f fs h fr -> h !! f = Some i ->
  detached L A f fs (<[f := MkItem (i_prev i) (i_next i) v]> h) fr.
Proof.
  intros [B F D _ Hf Hz] Hi. constructor; auto using dll_set_data.
  - apply holds_insert; [set_solver | done].
  - eexists. apply lookup_insert_eq.
Qed.

(** Xlist::add to the end and next to an item, in terms of the sequence. *)
Lemma adds_back L A f fs h fr : repr L A -> free A = f :: fs -> detached L A f fs h fr ->
  adds h (xbusy L) (x_last (xbusy L)) Next f (items (busy A)) [].
Proof.
  intros R Ef [B F D [i Hi] Hf Hz]. rewrite (dll_x _ _ _ B). simpl.
  destruct (decide (items (busy A) = [])) as [E|E].
  - rewrite E in *. rewrite (dll_x _ _ _ B) in B. by eapply xadd_empty.
  - rewrite (dll_x _ _ _ B) in B. eapply xadd_next; rewrite ?app_nil_r; try done; [set_solver |].
    pose proof (r_total _ _ R) as Ht. rewrite Ef, length_app in Ht. simpl in Ht. lia.
Qed.

Lemma adds_at L A f fs h fr l1 l2 pos v : repr L A -> free A = f :: fs ->
  detached L A f fs h fr -> busy A = l1 ++ (pos, v) :: l2 ->
  adds h (xbusy L) pos Prev f (items l1) (items ((pos, v) :: l2)) /\
  adds h (xbusy L) pos Next f (items (l1 ++ [(pos, v)])) (items l2).
Proof.
  intros R Ef [B F D [i Hi] Hf Hz] Eb. pose proof (r_total _ _ R) as Ht.
  rewrite Ef, Eb, items_app, !length_app in Ht. rewrite Eb, items_app in B, Hf. simpl in *.
  split.
  - eapply (xadd_prev _ _ _ _ Hz Hi (items l1) (pos :: items l2)); try done; [set_solver |].
    rewrite length_app. simpl. lia.
  - rewrite items_app. simpl.
    replace pos with (lastz 0 (items l1 ++ [pos])) at 1 by (by rewrite lastz_app).
    eapply (xadd_next _ _ _ _ Hz Hi); rewrite <- ?app_assoc; simpl; try done; [set_solver | |].
    + by destruct (items l1).
    + rewrite length_app. simpl. lia.
Qed.


Section Ops.
Context (Item_size : Z) (garbage : T).

Lemma check_for_alloc_full L A : repr L A ->
  check_for_alloc Item_size garbage L = (if free A is [] then Stop FPanic else Ok L).
Proof.
  intros R. unfold check_for_alloc. rewrite (dll_x _ _ _ (r_free _ _ R)). simpl.
  rewrite (r_fixed _ _ R). by destruct (free A).
Qed.

(** Every operation starts by taking the first free item. *)
Lemma refines_take {R} L A (impl : res (R * xl T)) (k : Z -> list Z -> res (R * alist T)) :
  repr L A ->
  (free A = [] -> check_for_alloc Item_size garbage L = Stop FPanic -> impl = Stop FPanic) ->
  (forall f fs h fr, free A = f :: fs -> check_for_alloc Item_size garbage L = Ok L ->
     x_begin (xfree L) = f -> xremove (hp L) (xfree L) f = Ok (h, fr) ->
     detached L A f fs h fr -> refines impl (k f fs)) ->
  refines impl ('(f, fs) ← take_free A; k f fs).
Proof.
  intros HR H0 H1. pose proof (check_for_alloc_full L A HR) as Hc. unfold take_free.
  destruct (free A) as [|f fs] eqn:E; simpl; [auto |].
  destruct (detach L A f fs HR E) as (h & fr & _ & Hb & Hr & Hd). eauto.
Qed.

Lemma push_back_refines L A v : repr L A ->
  refines (L' ← lpush_back Item_size garbage L v; Ok (tt, L')) (A' ← push_back A v; Ok (tt, A')).
Proof.
  intros R. unfold push_back.
  replace (A' ← _; Ok (tt, A')) with
    ('(f, fs) ← take_free A; Ok (tt, MkA (busy A ++ [(f, v)]) fs)) by
    (unfold take_free; by destruct (free A)).
  apply (refines_take L A); [done | intros _ E; unfold lpush_back; by rewrite E |].
  intros f fs h fr Ef Ec Hb Hr Hd. pose proof (adds_back _ _ _ _ _ _ R Ef Hd) as Ha.
  destruct (attach_after L A f fs h fr (busy A) [] v (x_last (xbusy L)) Next R Ef) as (h' & bs & h'' & Ea & Es & R');
    rewrite ?app_nil_r; auto.
  simpl. unfold lpush_back. rewrite Ec. simpl. rewrite Hb, Hr. simpl. rewrite Ea. simpl.
  rewrite Es. simpl. eauto.
Qed.

Lemma insert_refines (w : where_t) L A pos v : repr L A ->
  refines (linsert Item_size garbage w L pos v)
    (insert_at (match w with Prev => before_it | Next => after_it end) A pos v).
Proof.
  intros R. unfold insert_at. apply (refines_take L A); [done | intros _ E; unfold linsert; by rewrite E |].
  intros f fs h fr Ef Ec Hb Hr Hd.
  assert (Hlift : forall l1 l2, busy A = l1 ++ l2 ->
    adds h (xbusy L) pos w f (items l1) (items l2) ->
    exists L', linsert Item_size garbage w L pos v = Ok (f, L') /\
      repr L' (MkA (l1 ++ (f, v) :: l2) fs)).
  { intros l1 l2 Eb Ha.
    destruct (attach_after L A f fs h fr l1 l2 v _ _ R Ef Eb Hd Ha) as (h' & bs & h'' & Ea & Es & R').
    unfold linsert. rewrite Ec. simpl. rewrite Hb, Hr. simpl. rewrite Ea. simpl.
    rewrite Es. simpl. eauto. }
  destruct (busy A) as [|p0 l0] eqn:Eb0.
  - simpl. apply (Hlift [] []); [done |]. destruct Hd as [B F D [i Hi] Hf Hz]. rewrite Eb0 in B.
    by eapply xadd_empty.
  - rewrite <- Eb0 in *. destruct (find_it pos (busy A)) as [u|] eqn:Fi; simpl; [| done].
    apply find_it_split in Fi as (l1 & l2 & Eb & Hn).
    destruct (adds_at L A f fs h fr l1 l2 pos u R Ef Hd Eb) as [Hp Hx]. rewrite Eb.
    destruct w.
    + rewrite after_it_at by done. destruct (Hlift (l1 ++ [(pos, u)]) l2) as (L' & E' & R'); auto.
      { by rewrite Eb, <- app_assoc. }
      rewrite <- app_assoc in R'. simpl in R'. eauto.
    + rewrite before_it_at by done. by apply Hlift.
Qed.

Lemma find_pos_loop_spec (ltb : T -> T -> bool) h v : forall l fuel p,
  dseg h p (items l) 0 -> holds h l -> Forall (fun a => a <> 0) (items l) ->
  (length l < fuel)%nat -> find_pos_loop ltb fuel h (hdz 0 (items l)) v = Ok (find_pos ltb l v).
Proof.
  induction l as [|[a d] t IH]; intros [|fuel] p S D Z Hf; simpl in *; try lia; [done |].
  destruct S as [[d' Ha] S]. apply Forall_cons in Z as [Z Zt]. apply Forall_cons in D as [Da D].
  simpl in Da. rewrite Ha in Da. simpl in Da. injection Da as ->.
  destruct (Z.eqb_spec a 0); [done |]. rewrite (load_at _ _ _ Ha). simpl.
  destruct (negb (ltb d v)); [done |]. apply (IH fuel a); auto. lia.
Qed.

Lemma xfind_pos_spec ltb L A v : repr L A ->
  xfind_pos ltb (hp L) (xbusy L) v = Ok (find_pos ltb (busy A) v).
Proof.
  intros R. pose proof (r_busy _ _ R) as B. unfold xfind_pos. rewrite (dll_x _ _ _ B).
  cbn [x_sz x_begin]. unfold items at 1. rewrite length_fmap.
  destruct (Z.eqb_spec (Z.of_nat (length (busy A))) 0) as [E|E].
  - by destruct (busy A).
  - apply find_pos_loop_spec with (p := 0).
    + apply (dll_seg _ _ _ B).
    + apply (r_data _ _ R).
    + apply (dll_nonnull _ _ _ B).
    + unfold items. rewrite length_fmap. lia.
Qed.

Lemma find_pos_some ltb l v : find_pos ltb l v <> 0 ->
  exists u, find_it (find_pos ltb l v) l = Some u.
Proof.
  induction l as [|[a d] t IH]; simpl; [done |]. intros H.
  destruct (negb (ltb d v)) eqn:E; [rewrite Z.eqb_refl; eauto |].
  destruct (Z.eqb_spec a (find_pos ltb t v)); [eauto | auto].
Qed.

Lemma insert_sort_refines ltb L A v : repr L A ->
  refines (linsert_sort Item_size garbage ltb L v) (insert_sort ltb A v).
Proof.
  intros R. unfold insert_sort.
  apply (refines_take L A); [done | intros _ E; unfold linsert_sort; by rewrite E |].
  intros f fs h fr Ef Ec Hb Hr Hd. destruct (d_item _ _ _ _ _ _ Hd) as [i Hi].
  pose proof (detached_set_data _ _ _ _ _ _ i v Hd Hi) as Hd'.
  set (h2 := <[f := _]> h) in Hd'. assert (Es : set_data h f v = Ok h2).
  { unfold set_data. by rewrite (load_at _ _ _ Hi). }
  assert (Hv : i_data <$> h2 !! f = Some v) by (unfold h2; by rewrite lookup_insert_eq).
  unfold linsert_sort. rewrite Ec. simpl. rewrite (xfind_pos_spec _ _ _ _ R). simpl.
  rewrite Hb, Hr. simpl. rewrite Es. simpl.
  destruct (Z.eqb_spec (find_pos ltb (busy A) v) 0) as [E|E]; simpl.
  - pose proof (adds_back _ _ _ _ _ _ R Ef Hd') as Ha.
    destruct (attach_before L A f fs h2 fr (busy A) [] v (x_last (xbusy L)) Next R Ef) as (h' & bs & Ea & R');
      rewrite ?app_nil_r; auto. rewrite Ea. simpl. eauto.
  - destruct (find_pos_some ltb (busy A) v E) as [u Fi].
    apply find_it_split in Fi as (l1 & l2 & Eb & Hn). revert Eb Hn E.
    generalize (find_pos ltb (busy A) v) as pos. intros pos Eb Hn E.
    destruct (adds_at L A f fs h2 fr l1 l2 pos u R Ef Hd' Eb) as [Hp _].
    destruct (attach_before L A f fs h2 fr l1 ((pos, u) :: l2) v _ _ R Ef Eb Hd' Hv Hp)
      as (h' & bs & Ea & R').
    rewrite Ea. simpl. rewrite Eb, before_it_at by done. eauto.
Qed.

Lemma adds_front h x it i (l : list Z) : it <> 0 -> h !! it = Some i -> dll h x l -> it ∉ l ->
  Z.of_nat (length l) + 1 < 2 ^ 32 -> adds h x (x_begin x) Prev it [] l.
Proof.
  intros Hz Hi D Hn Hl. rewrite (dll_x _ _ _ D). simpl. rewrite (dll_x _ _ _ D) in D.
  destruct l as [|a t]; [by eapply xadd_empty | by eapply (xadd_prev _ _ _ _ Hz Hi [])].
Qed.

Lemma repr_split L A l1 pos v l2 : repr L A -> busy A = l1 ++ (pos, v) :: l2 ->
  pos ∉ items l1 ++ items l2 ++ free A /\ pos <> 0 /\
  (forall a, a ∈ items l1 ++ items l2 -> a ∉ free A) /\
  wf (MkA (l1 ++ l2) (pos :: free A)) /\
  length (items (l1 ++ l2) ++ pos :: free A) = length (items (busy A) ++ free A) /\
  exists i, hp L !! pos = Some i /\ i_next i = first_it l2 /\ i_prev i = last_from 0 l1 /\ i_data i = v.
Proof.
  intros R Eb.
  assert (P : items (busy A) ++ free A ≡ₚ items (l1 ++ l2) ++ pos :: free A).
  { rewrite Eb, !items_app. simpl. solve_Permutation. }
  assert (W : wf (MkA (l1 ++ l2) (pos :: free A))) by (apply (wf_perm A); [done | apply (r_wf _ _ R)]).
  pose proof W as [N Nz]. simpl in N, Nz. rewrite <- Permutation_middle in N, Nz.
  apply NoDup_cons in N as [Hp N]. apply Forall_cons in Nz as [Hz _]. rewrite items_app in Hp, N.
  apply NoDup_app in N as (_ & N & _). split_and!; auto.
  - by rewrite app_assoc.
  - by rewrite P.
  - pose proof (dll_seg _ _ _ (r_busy _ _ R)) as S. rewrite Eb, items_app in S.
    apply dseg_app in S as [_ [[d Hd] _]]. simpl in Hd.
    eexists. split; [exact Hd |]. simpl.
    pose proof (r_data _ _ R) as D. rewrite Eb in D. apply Forall_app in D as [_ D].
    apply Forall_cons in D as [D _]. simpl in D.
    rewrite Hd in D. injection D as ->.
    split_and!; [by destruct l2 as [|[]] | | done].
    clear. generalize 0. induction l1 as [|[a w] t IH]; intros z; simpl; auto.
Qed.

Lemma erase_refines L A pos : repr L A -> refines (lerase L pos) (erase A pos).
Proof.
  intros R. pose proof (r_busy _ _ R) as B. unfold erase, lerase.
  rewrite (dll_x _ _ _ B) at 1. cbn [x_sz]. unfold empty, size, items at 1. rewrite length_fmap.
  destruct (Nat.eqb_spec (length (busy A)) 0) as [E0|E0]; simpl; [by rewrite E0 |].
  destruct (Z.eqb_spec (Z.of_nat (length (busy A))) 0); [lia |]. simpl. unfold next.
  destruct (find_it pos (busy A)) as [v|] eqn:Fi; last first.
  { assert (next_it pos (busy A) = None) as ->; [| done]. clear - Fi.
    induction (busy A) as [|[a w] t IH]; simpl in *; [done |]. destruct (a =? pos); auto. done. }
  apply find_it_split in Fi as (l1 & l2 & Eb & Hn).
  destruct (repr_split L A l1 pos v l2 R Eb) as (Hp & Hz & Dj & W & Hlen & i & Hi & Hnx & _ & Hd).
  rewrite Eb, next_it_at, remove_it_at by done. simpl. rewrite (load_at _ _ _ Hi). simpl.
  rewrite Eb, items_app in B. simpl in B.
  destruct (xremove_spec _ _ _ _ _ B) as (h1 & bs & Er & B1 & T1). rewrite Er. simpl.
  destruct (touched_mapped _ _ _ pos T1) as [i1 Hi1]; [by eexists |].
  assert (F1 : dll h1 (xfree L) (free A)).
  { eapply dll_touched; [exact T1 | | apply (r_free _ _ R)]. intros a Ha.
    rewrite elem_of_app, elem_of_cons. intros [? | [-> | ?]]; [apply (Dj a); set_solver | set_solver |].
    apply (Dj a); set_solver. }
  pose proof (r_total _ _ R) as Ht. rewrite <- Hlen, length_app in Ht. simpl in Ht.
  destruct (adds_front h1 (xfree L) pos i1 (free A)) as (h2 & fr & Ea & F2 & T2);
    [done | done | done | set_solver | lia |].
  rewrite Ea. simpl. rewrite Hnx. eexists. split; [done |]. constructor; simpl; auto.
  - rewrite items_app. eapply dll_touched; [exact T2 | | exact B1]. intros a Ha.
    rewrite elem_of_cons. intros [-> | ?]; [set_solver | by apply (Dj a)].
  - pose proof (r_data _ _ R) as D. rewrite Eb in D. apply Forall_app in D as [D1 D2].
    apply Forall_cons in D2 as [_ D2]. eapply holds_touched; [exact T2 |].
    eapply holds_touched; [exact T1 |]. by apply Forall_app.
  - rewrite length_app. simpl. lia.
  - apply (r_fixed _ _ R).
Qed.

Lemma iter_refines L A it : repr L A -> is_Some (find_it it (busy A)) ->
  iter_next L it = next A it /\ iter_prev L it = prev A it /\ iter_deref L it = deref A it.
Proof.
  intros R [v Fi]. pose proof Fi as Fi'. apply find_it_split in Fi as (l1 & l2 & Eb & Hn).
  destruct (repr_split L A l1 it v l2 R Eb) as (_ & _ & _ & _ & _ & i & Hi & Hnx & Hpv & Hd).
  unfold iter_next, iter_prev, iter_deref, next, prev, deref. rewrite (load_at _ _ _ Hi). simpl.
  rewrite Eb, next_it_at, prev_it_at, find_it_at by done. simpl. by rewrite Hnx, Hpv, Hd.
Qed.

(** clear() empties the list in [size] erase steps; the items go back to the
    free list, last one first. *)
Lemma lclear_loop_spec : forall l fuel L fr, repr L (MkA l fr) -> (length l < fuel)%nat ->
  exists L', lclear_loop fuel L (first_it l) = Ok L' /\ repr L' (MkA [] (rev (items l) ++ fr)).
Proof.
  induction l as [|[a v] t IH]; intros [|fuel] L fr R Hf; simpl in *; try lia; [eauto |].
  pose proof (r_wf _ _ R) as [_ Nz]. simpl in Nz. apply Forall_cons in Nz as [Nz _].
  destruct (Z.eqb_spec a 0); [done |].
  pose proof (erase_refines L _ a R) as E. unfold erase, next in E. simpl in E.
  rewrite Z.eqb_refl in E. simpl in E. destruct E as (L1 & E & R1). rewrite E. simpl.
  destruct (IH fuel L1 (a :: fr) R1) as (L2 & E2 & R2); [lia |]. exists L2. split; [done |].
  by rewrite <- app_assoc.
Qed.

(** *** Memory for items *)

(** The addresses of the [n] items of a buffer at [base]. *)
Fixpoint slots (base : Z) (n : nat) : list Z :=
  match n with O => [] | S m => base :: slots (base + Item_size) m end.

Lemma slots_in base n a : 0 < Item_size -> a ∈ slots base n -> base <= a.
Proof.
  intros HI. revert base. induction n as [|n IH]; intros base; simpl; [by intros ?%elem_of_nil |].
  rewrite elem_of_cons. intros [-> | H]; [lia |]. apply IH in H. lia.
Qed.

Lemma repr_format L b fr a : repr L (MkA b fr) -> a ∉ items b ++ fr ->
  repr (MkL (format garbage (hp L) a) (xbusy L) (xfree L) (malloc_func L)) (MkA b fr) /\
  exists i, format garbage (hp L) a !! a = Some i.
Proof.
  intros R Ha. unfold format. destruct (hp L !! a) as [i|] eqn:E; [destruct L; eauto |].
  split; [| eexists; apply lookup_insert_eq]. destruct R as [B F D W Tt Fx].
  constructor; simpl in *; try done.
  - destruct B. constructor; try done. apply dseg_insert; [set_solver | done].
  - destruct F. constructor; try done. apply dseg_insert; [set_solver | done].
  - apply holds_insert; [set_solver | done].
Qed.

(** One item is added at the end of the free list. *)
Lemma add_slot L b fr a : repr L (MkA b fr) -> a ∉ items b ++ fr -> a <> 0 ->
  Z.of_nat (length (items b ++ fr)) + 1 < 2 ^ 32 ->
  exists h x, xadd (format garbage (hp L) a) (xfree L) (x_last (xfree L)) Next a = Ok (h, x) /\
    repr (MkL h (xbusy L) x (malloc_func L)) (MkA b (fr ++ [a])).
Proof.
  intros R Ha Hz Hl. destruct (repr_format L b fr a R Ha) as [[B F D W Tt Fx] [i Hi]]. simpl in *.
  set (h := format garbage (hp L) a) in *.
  assert (Hadd : adds h (xfree L) (x_last (xfree L)) Next a fr []).
  { rewrite (dll_x _ _ _ F). simpl. rewrite (dll_x _ _ _ F) in F.
    destruct (decide (fr = [])) as [-> |]; [by eapply xadd_empty |].
    rewrite length_app in Hl. eapply xadd_next; rewrite ?app_nil_r; try done; [set_solver | lia]. }
  destruct Hadd as (h' & x' & E & F' & T'). rewrite app_nil_r in T'.
  destruct W as [N Nz]. simpl in N, Nz. pose proof N as (_ & Dj & _)%NoDup_app.
  exists h', x'. split; [done |]. constructor; simpl; try done.
  - eapply dll_touched; [exact T' | | exact B]. set_solver.
  - by eapply holds_touched.
  - split; simpl; rewrite (Permutation_app_comm fr), Permutation_app_swap_app; simpl.
    + by apply NoDup_cons.
    + by constructor.
  - rewrite !length_app in *. simpl. lia.
Qed.

Lemma add_mem_loop_spec : 0 < Item_size -> forall n fuel L b fr base rest,
  repr L (MkA b fr) -> (n < fuel)%nat -> rest / Item_size = Z.of_nat n -> 0 < base -> 0 <= rest ->
  (forall a, a ∈ slots base n -> a ∉ items b ++ fr) ->
  Z.of_nat (length (items b ++ fr) + n) < 2 ^ 32 ->
  exists L', add_mem_loop Item_size garbage fuel L base rest = Ok L' /\
    repr L' (MkA b (fr ++ slots base n)).
Proof.
  intros HI. induction n as [|n IH]; intros [|fuel] L b fr base rest R Hf Hn Hb Hr Hd Hl; try lia;
    simpl.
  - destruct (Z.leb_spec Item_size rest); [| rewrite app_nil_r; eauto].
    assert (Item_size / Item_size <= rest / Item_size) by (apply Z.div_le_mono; lia).
    rewrite Z.div_same in * by lia. lia.
  - destruct (Z.leb_spec Item_size rest); last first.
    { rewrite Z.div_small in Hn; lia. }
    destruct (add_slot L b fr base R) as (h & x & E & R'); [apply Hd; simpl; set_solver | lia | lia |].
    rewrite E. simpl.
    assert (Hdiv : (rest - Item_size) / Item_size = Z.of_nat n).
    { replace (rest - Item_size) with (rest + (-1) * Item_size) by lia.
      rewrite Z.div_add by lia. lia. }
    destruct (IH fuel _ _ _ (base + Item_size) (rest - Item_size) R') as (L' & E' & R'');
      [lia | done | lia | lia | | rewrite !length_app in *; simpl; lia |].
    + intros a Ha. pose proof (slots_in _ _ _ HI Ha). specialize (Hd a). simpl in Hd.
      assert (a <> base) by lia. set_solver.
    + exists L'. split; [done |]. by rewrite <- app_assoc in R''.
Qed.

Lemma add_mem_refines L b fr base sz : 0 < Item_size -> repr L (MkA b fr) -> 0 < base -> 0 <= sz ->
  (forall a, a ∈ slots base (Z.to_nat (sz / Item_size)) -> a ∉ items b ++ fr) ->
  Z.of_nat (length (items b ++ fr)) + sz / Item_size < 2 ^ 32 ->
  exists L', add_mem Item_size garbage L base sz = Ok L' /\
    repr L' (MkA b (fr ++ slots base (Z.to_nat (sz / Item_size)))).
Proof.
  intros HI R Hb Hs Hd Hl. assert (0 <= sz / Item_size) by (apply Z.div_pos; lia).
  apply add_mem_loop_spec; auto; lia.
Qed.

(** The allocator is carried along. *)
Lemma add_mem_loop_malloc fuel : forall L f addr rest,
  add_mem_loop Item_size garbage fuel (set_allocator L f) addr rest =
  (L' ← add_mem_loop Item_size garbage fuel L addr rest; Ok (set_allocator L' f)).
Proof.
  induction fuel as [|fuel IH]; intros L f addr rest; simpl; [done |]. destruct (Item_size <=? rest); [| done].
  destruct (xadd _ _ _ _ _) as [[h1 fr]|]; [| done]. simpl.
  exact (IH (MkL h1 (xbusy L) fr (malloc_func L)) f (addr + Item_size) (rest - Item_size)).
Qed.
(** A full list with an allocator takes the items of a new buffer. *)
Lemma push_back_grows L A v mem sz more : 0 < Item_size -> repr L A -> free A = [] -> 0 < mem -> Item_size <= sz ->
  (forall a, a ∈ slots mem (Z.to_nat (sz / Item_size)) -> a ∉ items (busy A)) ->
  Z.of_nat (length (busy A)) + sz / Item_size < 2 ^ 32 ->
  exists L' A', lpush_back Item_size garbage (set_allocator L (Some ((mem, sz) :: more))) v = Ok L' /\ malloc_func L' = Some more /\
    push_back (MkA (busy A) (slots mem (Z.to_nat (sz / Item_size)))) v = Ok A' /\ repr (set_allocator L' None) A'.
Proof.
  intros HI R Hf Hm Hs Hd Hb. destruct A as [b fr]. simpl in *. subst fr.
  assert (Hn : 1 <= sz / Item_size) by (apply Z.div_le_lower_bound; lia).
  destruct (add_mem_refines L b [] mem sz HI R Hm) as (L1 & E1 & R1); rewrite ?app_nil_r; [lia | done | unfold items; rewrite length_fmap; lia |]. simpl in R1.
  set (A1 := MkA b (slots mem (Z.to_nat (sz / Item_size)))) in *. assert (Ef : exists f fs, free A1 = f :: fs) by (unfold A1; simpl; destruct (Z.to_nat (sz / Item_size)) as [|k] eqn:Ek; [lia | simpl; eauto]).
  destruct Ef as (f & fs & Ef). pose proof (push_back_refines L1 A1 v R1) as Hp. unfold push_back, take_free in Hp |- *. rewrite Ef in Hp |- *. cbn [mbind res_bind] in Hp |- *.
  destruct Hp as (L2 & E2 & R2). destruct (lpush_back Item_size garbage L1 v) as [L2'|] eqn:E3; [| done]. injection E2 as ->.
  assert (Ec : check_for_alloc Item_size garbage (set_allocator L (Some ((mem, sz) :: more))) = Ok (set_allocator L1 (Some more))).
  { unfold check_for_alloc. cbn [set_allocator xfree malloc_func hp xbusy]. assert (Hz : x_sz (xfree L) = 0) by (by rewrite (dll_x _ _ _ (r_free _ _ R))). rewrite Hz. cbn [Z.eqb]. destruct (Z.eqb_spec mem 0); [lia |].
    change (MkL (hp L) (xbusy L) (xfree L) (Some more)) with (set_allocator L (Some more)). unfold add_mem in E1 |- *. by rewrite add_mem_loop_malloc, E1. }
  exists (set_allocator L2 (Some more)). eexists. split; [| split; [done | split; [done |]]].
  - unfold lpush_back in E3 |- *. rewrite Ec. rewrite (check_for_alloc_full L1 A1 R1), Ef in E3. cbn [mbind res_bind set_allocator xfree xbusy hp malloc_func] in E3 |- *.
    destruct (xremove _ _ _) as [[h1 fr1]|]; [| done]. cbn [mbind res_bind] in E3 |- *. destruct (xadd _ _ _ _ _) as [[h2 bs]|]; [| done]. cbn [mbind res_bind] in E3 |- *.
    destruct (set_data _ _ _) as [h3|]; [| done]. cbn [mbind res_bind] in E3 |- *. by injection E3 as <-.
  - pose proof (r_fixed _ _ R2) as Em. destruct L2; simpl in Em. by subst.
Qed.

(** The positions and the ends of the sequence. *)
Lemma ends_refine L A : repr L A ->
  x_begin (xbusy L) = begin A /\ x_last (xbusy L) = last A /\ x_sz (xbusy L) = Z.of_nat (size A) /\
  lfront L = (_ ← wassert (negb (empty A)); deref A (begin A)) /\ lback L = (_ ← wassert (negb (empty A)); deref A (last A)).
Proof.
  intros R. pose proof (r_busy _ _ R) as B. rewrite (dll_x _ _ _ B). cbn [x_begin x_last x_sz].
  assert (E1 : hdz 0 (items (busy A)) = begin A) by (unfold begin; by destruct (busy A) as [|[]]).
  assert (E2 : forall l d, lastz d (items l) = last_from d l) by (induction l as [|[a w] l IH]; intros d; [done | apply IH]).
  assert (E3 : length (items (busy A)) = size A) by apply length_fmap. rewrite E1, E2, E3. change (last_from 0 (busy A)) with (last A). split_and!; [done | done | done | |].
  - unfold lfront. rewrite (dll_x _ _ _ B). cbn [x_begin x_sz]. rewrite E1, E3. unfold empty. destruct (busy A) as [|[a w] l] eqn:Eb; [unfold size; by rewrite Eb |].
    assert (Hz : (Z.of_nat (size A) =? 0) = false /\ Nat.eqb (size A) 0 = false) by (unfold size; by rewrite Eb). destruct Hz as [-> ->]. cbn [negb wassert mbind res_bind].
    apply (iter_refines L A (begin A) R). apply find_it_in. unfold begin. rewrite Eb. by left.
  - unfold lback. rewrite (dll_x _ _ _ B). cbn [x_last x_sz]. rewrite E2, E3. change (last_from 0 (busy A)) with (last A). unfold empty. destruct (busy A) as [|[a w] l] eqn:Eb; [unfold size; by rewrite Eb |].
    assert (Hz : (Z.of_nat (size A) =? 0) = false /\ Nat.eqb (size A) 0 = false) by (unfold size; by rewrite Eb). destruct Hz as [-> ->]. cbn [negb wassert mbind res_bind].
    apply (iter_refines L A (last A) R). apply find_it_in. unfold last, last_it. apply last_from_in. by rewrite Eb.
Qed.

Lemma repr_empty : repr (MkL ∅ xlist_ctor xlist_ctor None) (MkA [] []).
Proof.
  constructor; simpl; try done; [by constructor; try apply NoDup_nil.. | by constructor |].
  split; simpl; [apply NoDup_nil | constructor]. done.
Qed.

End Ops.

(** C39: [list_t] implements its contract: on every list that represents a
    sequence, push_back, insert_before, insert_after, insert_sort, erase and
    clear have exactly the effect (and the panic: list is full) the contract
    states, the iterator returned included, and leave a list that represents
    the resulting sequence; begin, last, size, front and back are those of the
    sequence, iterators move along it, and the consistency check of the debug
    build passes.  A full list with an allocator takes the items of one new
    buffer and then does what a list with these free items does. *)
Theorem list_refines (Item_size : Z) (garbage : T) (ltb : T -> T -> bool) L A : repr L A ->
  (forall v, refines (L' ← lpush_back Item_size garbage L v; Ok (tt, L'))
                     (A' ← push_back A v; Ok (tt, A'))) /\
  (forall pos v, refines (linsert_before Item_size garbage L pos v) (insert_before A pos v)) /\
  (forall pos v, refines (linsert_after Item_size garbage L pos v) (insert_after A pos v)) /\
  (forall v, refines (linsert_sort Item_size garbage ltb L v) (insert_sort ltb A v)) /\
  (forall pos, refines (lerase L pos) (erase A pos)) /\
  (exists L', lclear L = Ok L' /\ repr L' (MkA [] (rev (items (busy A)) ++ free A))) /\
  (forall it, is_Some (find_it it (busy A)) ->
     iter_next L it = next A it /\ iter_prev L it = prev A it /\ iter_deref L it = deref A it) /\
  (forall fuel, (length (items (busy A) ++ free A) < fuel)%nat ->
     do_check fuel (hp L) (xbusy L) (x_begin (xbusy L)) = Ok tt /\
     do_check fuel (hp L) (xfree L) (x_begin (xfree L)) = Ok tt) /\
  (x_begin (xbusy L) = begin A /\ x_last (xbusy L) = last A /\ x_sz (xbusy L) = Z.of_nat (size A) /\
   lfront L = (_ ← wassert (negb (empty A)); deref A (begin A)) /\ lback L = (_ ← wassert (negb (empty A)); deref A (last A))) /\
  (forall v mem sz more, 0 < Item_size -> free A = [] -> 0 < mem -> Item_size <= sz ->
     (forall a, a ∈ slots Item_size mem (Z.to_nat (sz / Item_size)) -> a ∉ items (busy A)) ->
     Z.of_nat (length (busy A)) + sz / Item_size < 2 ^ 32 ->
     exists L' A', lpush_back Item_size garbage (set_allocator L (Some ((mem, sz) :: more))) v = Ok L' /\ malloc_func L' = Some more /\
       push_back (MkA (busy A) (slots Item_size mem (Z.to_nat (sz / Item_size)))) v = Ok A' /\ repr (set_allocator L' None) A').
Proof.
  intros R. split; [| split; [| split; [| split; [| split; [| split; [| split; [| split; [| split]]]]]]]]; intros.
  - by apply push_back_refines.
  - by apply (insert_refines _ _ Prev).
  - by apply (insert_refines _ _ Next).
  - by apply insert_sort_refines.
  - by apply erase_refines.
  - unfold lclear. pose proof (r_busy _ _ R) as B. rewrite (dll_x _ _ _ B). cbn [x_begin x_sz].
    destruct A as [l fr]. simpl in *. assert (length (items l) = length l) as -> by apply length_fmap.
    rewrite Nat2Z.id.
    assert (hdz 0 (items l) = first_it l) as -> by (by destruct l as [|[]]).
    apply (lclear_loop_spec l (S (length l)) L fr R). lia.
  - by apply iter_refines.
  - assert (forall x (l : list Z), dll (hp L) x l -> (length l < fuel)%nat ->
      do_check fuel (hp L) x (x_begin x) = Ok tt) as Hc.
    { intros x l D Hl. eapply do_check_ok; [exact D | done |]. rewrite (dll_x _ _ _ D).
      destruct l; simpl; [by right | left; set_solver]. }
    rewrite length_app in *. split; (eapply Hc; [apply R | lia]).
  - by apply ends_refine.
  - by apply push_back_grows.
Qed.

(** the memory of a list: the constructor of a list with a local buffer
    of [N] items gives an empty list with these [N] items free; add_memory
    appends the whole items of the new buffer to the free ones, and so does the
    constructor with a buffer. *)
Theorem list_memory (Item_size : Z) (garbage : T) : 0 < Item_size ->
  (forall N buf, 0 <= N < 2 ^ 32 -> 0 < buf ->
     exists L, list_ctor Item_size garbage N buf = Ok L /\
       repr L (MkA [] (slots Item_size buf (Z.to_nat N))) /\
       forall mem sz, list_ctor_mem Item_size garbage N buf mem sz = add_mem Item_size garbage L mem sz) /\
  (forall L A mem sz, repr L A -> 0 < mem -> 0 <= sz ->
     (forall a, a ∈ slots Item_size mem (Z.to_nat (sz / Item_size)) -> a ∉ items (busy A) ++ free A) ->
     Z.of_nat (length (items (busy A) ++ free A)) + sz / Item_size < 2 ^ 32 ->
     exists L', add_mem Item_size garbage L mem sz = Ok L' /\
       repr L' (MkA (busy A) (free A ++ slots Item_size mem (Z.to_nat (sz / Item_size))))).
Proof.
  intros HI. split.
  - intros N buf HN Hb. unfold list_ctor.
    assert (E : Item_size * N / Item_size = N) by (rewrite Z.mul_comm; apply Z.div_mul; lia).
    destruct (add_mem_refines Item_size garbage _ [] [] buf (Item_size * N) HI repr_empty)
      as (L & EL & R); rewrite ?E; simpl; try lia; [set_solver |].
    rewrite E in R. exists L. split; [done |]. split; [done |]. intros mem sz. unfold list_ctor_mem, list_ctor. by rewrite EL.
  - intros L [b fr] mem sz R. simpl. by apply add_mem_refines.
Qed.

End Refine.

(** A list of three items at 0x100, 0x110, 0x120 (16-byte items). *)
Lemma list_refines_witness :
  exists L, list_ctor 16 0 3 0x100 = Ok L /\
    refines (L' ← lpush_back 16 0 L 7; Ok (tt, L')) (Ok (tt, MkA [(0x100, 7)] [0x110; 0x120])).
Proof.
  destruct (add_mem_refines 16 0 _ [] [] 0x100 48 eq_refl repr_empty) as (L & E & R);
    [lia | lia | intros a _; apply not_elem_of_nil | vm_compute; done |].
  exists L. split; [exact E |].
  destruct (list_refines 16 0 Z.ltb L _ R) as [Hp _]. exact (Hp 7).
Defined.

Lemma list_memory_witness :
  exists L L', list_ctor 16 0 1 0x100 = Ok L /\ add_mem 16 0 L 0x200 40 = Ok L' /\
    repr L' (MkA [] [0x100; 0x200; 0x210]).
Proof.
  destruct (list_memory 16 0 eq_refl) as [H H'].
  destruct (H 1 0x100) as (L & E & R & _); [lia | lia |].
  destruct (H' L _ 0x200 40 R) as (L' & E' & R'); [lia | lia | | vm_compute; done |].
  - intros a Ha. simpl in *. set_solver by lia.
  - exists L, L'. split_and!; [exact E | exact E' | exact R'].
Defined.
