(* ===== verification/L4Types.v ===== *)
(** lib/l4/inc/l4_types.h: the L4 data types shared by the kernel and its
    users.

    Every type is one or two machine words; a C++ object is represented by its
    raw word(s), a C bit-field access by [bf_get]/[bf_set] with the offsets of
    the big-endian layout.  Signed bit-fields ([long x : w]) are read through
    [signed w].  A constructor that leaves bits of an automatic variable
    unset takes the previous raw value as an argument. *)

From Stdlib Require Import ZArith Lia Bool.
From stdpp Require Import base list numbers.
From S2P Require Import Prelude SysUtils.

(** ** Thread id *)

Definition Thrid_nil : Z := 0.
Definition Thrid_any : Z := u32 (-1).
Definition Thrid_any_local : Z := u32 (Z.land (-1) (Z.lnot 0x3f)).
Definition Def_glob_ver : Z := 2.

Definition glob_number (t : Z) : Z := bf_get 14 18 t.
Definition glob_version (t : Z) : Z := bf_get 0 14 t.
Definition loc_number (t : Z) : Z := bf_get 6 26 t.
Definition loc_nulls (t : Z) : Z := bf_get 0 6 t.

Definition thrid_is_nil (t : Z) : bool := t =? Thrid_nil.
Definition thrid_is_any (t : Z) : bool := t =? Thrid_any.
Definition thrid_is_any_local (t : Z) : bool := t =? Thrid_any_local.
Definition thrid_is_single (t : Z) : bool :=
  negb (thrid_is_nil t) && negb (thrid_is_any t) && negb (thrid_is_any_local t).
Definition thrid_is_local (t : Z) : bool := thrid_is_single t && (loc_nulls t =? 0).
Definition thrid_is_global (t : Z) : bool := thrid_is_single t && negb (loc_nulls t =? 0).
Definition thrid_number (t : Z) : Z := if thrid_is_global t then glob_number t else loc_number t.
Definition thrid_version (t : Z) : Z := glob_version t.

Definition thrid_create_global (num ver : Z) : Z := bf_set 0 14 ver (bf_set 14 18 num 0).
Definition thrid_create_irq (num : Z) : Z := bf_set 0 14 1 (bf_set 14 18 num 0).

(** ** Time *)

Definition Time_never : Z := 0x0000.
Definition Time_zero : Z := 0x0400.
Definition Mantissa_len : Z := 10.
Definition Mantissa_max : Z := Z.shiftl 1 Mantissa_len - 1.
Definition Exponent_max_rel : Z := Z.shiftl 1 5 - 1.

Definition time_is_never (t : Z) : bool := t =? Time_never.
Definition time_is_zero (t : Z) : bool := t =? Time_zero.
Definition time_is_abs (t : Z) : bool := negb (bf_get 15 1 t =? 0).
Definition time_is_rel (t : Z) : bool := negb (time_is_abs t).
Definition time_rel_man (t : Z) : Z := bf_get 0 10 t.
Definition time_rel_exp (t : Z) : Z := bf_get 10 5 t.

Definition time_rel_usec (t : Z) : Z :=
  if t =? Time_never then 0 else u64 (Z.shiftl (time_rel_man t) (time_rel_exp t)).

(** [int pos = 64; while (!((usec >> --pos) && 0x1));] *)
Fixpoint msbit_loop (pos : nat) (usec : Z) : res Z :=
  match pos with
  | O => Stop FFuel
  | S p => if negb (Z.shiftr usec (Z.of_nat p) =? 0) then Ok (Z.of_nat p) else msbit_loop p usec
  end.

Definition time_set_period (t exp mantissa : Z) : Z :=
  bf_set 0 10 mantissa (bf_set 10 5 exp (bf_set 15 1 0 t)).

Definition time_rel (t usec : Z) : res Z :=
  if usec =? 0 then Ok Time_zero
  else if usec <=? Mantissa_max then Ok (time_set_period t 0 usec)
  else
    pos ← msbit_loop 64 usec;
    let exp := pos + 1 - Mantissa_len in
    if Exponent_max_rel <? exp then Ok Time_zero
    else Ok (time_set_period t exp (Z.shiftr usec exp)).

Definition time_create_rel (usec : Z) : res Z := time_rel Time_zero usec.

(** ** Timeouts *)

Definition timeouts_create (s r : Z) : Z := bf_set 0 16 r (bf_set 16 16 s 0).
Definition timeouts_of_raw (raw : Z) : Z := timeouts_create (Z.shiftr raw 16) (Z.land raw 0xffff).
Definition timeouts_snd (t : Z) : Z := bf_get 16 16 t.
Definition timeouts_rcv (t : Z) : Z := bf_get 0 16 t.

(** ** Flex page *)

Definition Acc_r : Z := 4.
Definition Acc_w : Z := 2.
Definition Acc_x : Z := 1.
Definition Acc_rw : Z := 6.
Definition Acc_rwx : Z := 7.
Definition Fpage_nil : Z := 0.
Definition Ioport : Z := 0x26.
Definition Size_min : Z := Cfg_page_sz.

Definition fpage_is_io (p : Z) : bool := bf_get 0 10 p =? Ioport.
Definition fpage_is_nil (p : Z) : bool := p =? Fpage_nil.
Definition fpage_base (p : Z) : Z := signed 22 (bf_get 10 22 p).
Definition fpage_log2sz (p : Z) : Z := bf_get 4 6 p.
Definition fpage_is_complete (p : Z) : bool := (fpage_base p =? 0) && (fpage_log2sz p =? 1).
Definition fpage_addr (p : Z) : Z := u32 (Z.shiftl (u32 (fpage_base p)) 10).
Definition fpage_size (p : Z) : Z := u32 (Z.shiftl 1 (fpage_log2sz p)).
Definition fpage_access (p : Z) : Z := bf_get 0 3 p.
Definition fpage_end (p : Z) : Z := u32 (fpage_addr p + fpage_size p).
Definition fpage_io_port (p : Z) : Z := u32 (signed 16 (bf_get 16 16 p)).
Definition fpage_io_size (p : Z) : Z := u32 (Z.shiftl 1 (bf_get 10 6 p)).

Definition fpage_set_addr (p v : Z) : Z := bf_set 10 22 (Z.shiftr v 10) p.
Definition fpage_set_log2sz (p v : Z) : Z := bf_set 4 6 v p.
Definition fpage_set_access (p v : Z) : Z := bf_set 0 3 v p.
Definition fpage_set_complete (p : Z) : Z := bf_set 4 6 1 (bf_set 10 22 0 p).

(** [while (!(bytes & 1)) { bytes >>= 1; _mem.size += 1; }]: the counter is a
    6-bit field of the page at bit [lo]. *)
Fixpoint fpage_size_loop (lo : Z) (fuel : nat) (bytes p : Z) : res Z :=
  match fuel with
  | O => Stop FFuel
  | S f => if Z.land bytes 1 =? 0
           then fpage_size_loop lo f (Z.shiftr bytes 1) (bf_set lo 6 (bf_get lo 6 p + 1) p)
           else Ok p
  end.

Definition fpage_set (p0 adr sz_bytes acc : Z) : res Z :=
  if (sz_bytes <? Size_min) || negb (is_aligned adr sz_bytes) then Ok Fpage_nil
  else
    let p1 := bf_set 10 22 (Z.shiftr adr 10) p0 in
    let p2 := bf_set 4 6 0 p1 in
    let p3 := bf_set 0 3 (Z.land acc Acc_rwx) p2 in
    p4 ← fpage_size_loop 4 32 sz_bytes p3;
    if negb (fpage_size p4 =? sz_bytes) then Ok Fpage_nil else Ok p4.

Definition fpage_set_io (p0 port sz_ports : Z) : res Z :=
  if (sz_ports =? 0) || (0xffff <? port) || (0xffff <? u32 (port + sz_ports))
     || negb (is_aligned port sz_ports) then Ok Fpage_nil
  else
    let p1 := bf_set 16 16 port p0 in
    let p2 := bf_set 10 6 0 p1 in
    let p3 := bf_set 0 10 Ioport p2 in
    p4 ← fpage_size_loop 10 32 sz_ports p3;
    if negb (fpage_io_size p4 =? sz_ports) then Ok Fpage_nil else Ok p4.

Definition fpage_is_cross (a p : Z) : bool :=
  negb ((fpage_end a <=? fpage_addr p) || (fpage_end p <=? fpage_addr a)).
Definition fpage_is_inside (a p : Z) : bool :=
  (fpage_addr a <=? fpage_addr p) && (fpage_end p <=? fpage_end a).
Definition fpage_is_acc_fit (a acc : Z) : bool := Z.land acc (fpage_access a) =? acc.
Definition fpage_is_inside_acc (a p : Z) : bool :=
  fpage_is_inside a p && fpage_is_acc_fit a (fpage_access p).

(** ** Typed items: two words *)

Definition Map_item : Z := 4.
Definition Grant_item : Z := 5.
Definition String_item_max : Z := 3.

Definition titem_is_last (w0 : Z) : bool := bf_get 0 1 w0 =? 0.
Definition titem_is_map_item (w0 : Z) : bool := bf_get 1 3 w0 =? Map_item.
Definition titem_is_grant_item (w0 : Z) : bool := bf_get 1 3 w0 =? Grant_item.
Definition titem_is_string_item (w0 : Z) : bool := bf_get 1 3 w0 <=? String_item_max.

Definition mitem_set (w0 fpg : Z) (cont : bool) : Z * Z :=
  (bf_set 0 1 (Z.b2z cont) (bf_set 1 3 Map_item (bf_set 4 6 0 (bf_set 10 22 0 w0))), fpg).
Definition mitem_set_grant (w0 : Z) : Z := bf_set 1 3 Grant_item w0.
Definition gitem_set (w0 fpg : Z) : Z * Z :=
  let '(w0', w1') := mitem_set w0 fpg false in (mitem_set_grant w0', w1').
Definition mitem_is_map (w0 : Z) : bool := bf_get 1 3 w0 =? Map_item.
Definition mitem_is_grant (w0 : Z) : bool := bf_get 1 3 w0 =? Grant_item.
Definition mitem_is_last (w0 : Z) : bool := bf_get 0 1 w0 =? 0.
Definition mitem_snd_base (w0 : Z) : Z := bf_get 10 22 w0.

Definition sitem_simple (w0 ptr len : Z) (c : bool) : Z * Z :=
  (bf_set 0 1 (Z.b2z c) (bf_set 1 2 0 (bf_set 3 7 0 (bf_set 10 22 len w0))), ptr).
Definition sitem_length (w0 : Z) : Z := bf_get 10 22 w0.
Definition sitem_substring_number (w0 : Z) : Z := bf_get 4 5 w0 + 1.
Definition sitem_is_string_continue (w0 : Z) : bool := negb (bf_get 9 1 w0 =? 0).
Definition sitem_is_last (w0 : Z) : bool := bf_get 0 1 w0 =? 0.
Definition sitem_cont (w0 : Z) (c : bool) : Z := bf_set 0 1 (Z.b2z c) w0.

(** ** Acceptor *)

Definition acceptor_fpage (a : Z) : Z := a.
Definition acceptor_string_accepted (a : Z) : bool := negb (bf_get 0 1 a =? 0).
Definition acceptor_set (fp : Z) (str : bool) : Z :=
  bf_set 0 1 (Z.b2z str) (Z.land fp (u32 (Z.lnot 7))).

(** ** Message tag *)

Definition Thread_start : Z := 0.
Definition Interrupt : Z := -1.
Definition Pagefault : Z := -2.
Definition Io_pagefault : Z := -3.
Definition System_exception : Z := -4.
Definition Arch_exception : Z := -5.
Definition Force_exception : Z := -6.
Definition Mmu_exception : Z := -7.
Definition Sigma0 : Z := -8.

Definition tag_ipc_label (t : Z) : Z := signed 14 (bf_get 18 14 t).
Definition tag_ipc_is_failed (t : Z) : bool := negb (bf_get 17 1 t =? 0).
Definition tag_set_ipc_label (t l : Z) : Z := bf_set 18 14 l t.
Definition tag_ipc_set_ok (t : Z) : Z := bf_set 17 1 0 t.
Definition tag_ipc_set_failed (t : Z) : Z := bf_set 17 1 1 t.

Definition tag_set_ipc (label untyped typed : Z) : Z :=
  bf_set 0 8 untyped (bf_set 8 6 typed (bf_set 18 14 label 0)).

Definition tag_proto_label (t : Z) : Z := signed 10 (bf_get 22 10 t).
Definition tag_set_proto_label (t v : Z) : Z := bf_set 22 10 v t.
Definition tag_proto_nulls (t : Z) : Z := bf_set 14 8 0 t.

Definition tag_set_proto (t label untyped typed : Z) : Z :=
  bf_set 0 8 untyped (bf_set 8 6 typed (bf_set 14 8 0 (bf_set 22 10 label t))).

Definition tag_pfault_access (t : Z) : Z := bf_get 18 3 t.
Definition tag_set_proto_pf (t label access untyped typed : Z) : Z :=
  bf_set 0 8 untyped (bf_set 8 6 typed (bf_set 14 4 0
    (bf_set 18 3 access (bf_set 21 1 0 (bf_set 22 10 label t))))).

Definition tag_typed (t : Z) : Z := bf_get 8 6 t.
Definition tag_untyped (t : Z) : Z := bf_get 0 8 t.
Definition tag_propagated (t : Z) : bool := negb (bf_get 14 1 t =? 0).
Definition tag_set_typed (t v : Z) : Z := bf_set 8 6 v t.
Definition tag_set_untyped (t v : Z) : Z := bf_set 0 8 v t.
Definition tag_set_propagated (t : Z) (v : bool) : Z := bf_set 14 1 (Z.b2z v) t.

Definition tag_is_thread_start (t : Z) : bool :=
  (tag_ipc_label t =? Thread_start) && (tag_typed t =? 0) && (tag_untyped t =? 3).
Definition tag_is_pf_request (t : Z) : bool :=
  (tag_proto_label t =? Pagefault) && (tag_typed t =? 2) && (tag_untyped t =? 0).
Definition tag_is_pf_reply (t : Z) : bool :=
  (tag_ipc_label t =? 0) && (tag_typed t =? 2) && (tag_untyped t =? 0).
Definition tag_is_io_pf_request (t : Z) : bool :=
  (tag_proto_label t =? Io_pagefault) && (tag_typed t =? 2) && (tag_untyped t =? 0).
Definition tag_is_io_pf_reply (t : Z) : bool :=
  (tag_ipc_label t =? 0) && (tag_typed t =? 2) && (tag_untyped t =? 0).
Definition tag_is_exc_request (t : Z) : bool :=
  ((tag_proto_label t =? System_exception) || (tag_proto_label t =? Arch_exception) ||
   (tag_proto_label t =? Force_exception) || (tag_proto_label t =? Mmu_exception)) &&
  (tag_typed t =? 0).
Definition tag_is_exc_reply (t : Z) : bool :=
  (tag_ipc_label t =? 0) && (tag_typed t =? 0) && (tag_untyped t =? 133).

(** ** IPC error code *)

Definition Ipcerr_snd : Z := 0.
Definition Ipcerr_rcv : Z := 1.

Definition ipcerr_create (w p e o : Z) : Z := bf_set 4 28 o (bf_set 1 3 e (bf_set 0 1 p w)).
Definition ipcerr_transferred (x : Z) : Z := bf_get 4 28 x.
Definition ipcerr_error (x : Z) : Z := bf_get 1 3 x.
Definition ipcerr_is_snd_error (x : Z) : bool := bf_get 0 1 x =? Ipcerr_snd.
Definition ipcerr_is_rcv_error (x : Z) : bool := bf_get 0 1 x =? Ipcerr_rcv.
Definition ipcerr_snd_error (x e : Z) : Z := bf_set 0 1 Ipcerr_snd (bf_set 1 3 e x).
Definition ipcerr_rcv_error (x e : Z) : Z := bf_set 0 1 Ipcerr_rcv (bf_set 1 3 e x).

(** ** Lemmas *)

Lemma bf_get_0 lo w : bf_get lo w 0 = 0.
Proof. unfold bf_get. by rewrite Z.shiftr_0_l, Z.land_0_l. Qed.

(** A narrower field inside a wider one. *)
Lemma bf_get_set_within lo w lo' w' v x : 0 <= lo' <= lo -> 0 <= w -> lo + w <= lo' + w' ->
  bf_get lo w (bf_set lo' w' v x) = bf_get (lo - lo') w v.
Proof.
  intros. apply Z.bits_inj'. intros i Hi. rewrite !bf_get_spec by lia.
  bit_cases; try done. rewrite bf_set_spec by lia. bit_cases; f_equal; lia.
Qed.

Lemma bf_get_small w x : 0 <= w -> bf_get 0 w x = wrap w x.
Proof. intros. unfold bf_get. by rewrite Z.shiftr_0_r, Z.land_ones by lia. Qed.

Lemma signed_wrap w x : 0 < w -> - 2 ^ (w - 1) <= x < 2 ^ (w - 1) -> signed w (wrap w x) = x.
Proof.
  intros Hw Hx. unfold signed. rewrite wrap_wrap.
  assert (E : 2 ^ w = 2 * 2 ^ (w - 1)) by (rewrite <- Z.pow_succ_r by lia; f_equal; lia).
  unfold wrap. destruct (Z.lt_ge_cases x 0).
  - replace (x mod 2 ^ w) with (x + 2 ^ w).
    + destruct (Z.ltb_spec (x + 2 ^ w) (2 ^ (w - 1))); lia.
    + symmetry. rewrite <- (Z.mod_add x 1), Z.mul_1_l by lia. apply Z.mod_small. lia.
  - rewrite Z.mod_small by lia. destruct (Z.ltb_spec x (2 ^ (w - 1))); lia.
Qed.

Lemma wrap_signed w x : 0 < w -> wrap w (signed w x) = wrap w x.
Proof.
  intros Hw. unfold signed. destruct (_ <? _); [apply wrap_wrap |]. unfold wrap.
  replace (x mod 2 ^ w - 2 ^ w) with (x mod 2 ^ w + (-1) * 2 ^ w) by lia.
  rewrite Z.mod_add by lia. apply Zmod_mod.
Qed.

#[export] Hint Rewrite bf_get_0 : word.

(** global thread ids: [create_global] produces a global id whose number
    and version are those given, for every version whose low six bits are not
    null, except for the all-ones value, which is the wildcard [Any]; with
    null low bits the value is never a global id.  [create_irq] is the id of
    version 1. *)
Theorem thrid_create_global_correct num ver : in_range 18 num -> in_range 14 ver ->
  let t := thrid_create_global num ver in
  in_range 32 t /\ thrid_version t = ver /\ glob_number t = num /\
  (ver mod 64 = 0 -> thrid_is_global t = false) /\
  (ver mod 64 <> 0 -> t <> Thrid_any ->
     thrid_is_global t = true /\ thrid_is_local t = false /\ thrid_number t = num) /\
  (num = 2 ^ 18 - 1 -> ver = 2 ^ 14 - 1 -> t = Thrid_any) /\
  thrid_create_irq num = thrid_create_global num 1.
Proof.
  intros Hn Hv t.
  assert (Ev : glob_version t = ver).
  { unfold glob_version, t, thrid_create_global. bf_simpl. by apply wrap_small. }
  assert (En : glob_number t = num).
  { unfold glob_number, t, thrid_create_global. bf_simpl. by apply wrap_small. }
  assert (El : loc_nulls t = ver mod 64).
  { unfold loc_nulls, t, thrid_create_global. rewrite bf_get_set_within by lia. by apply bf_get_small. }
  split_and!; auto.
  - unfold t, thrid_create_global. repeat apply bf_set_range; try lia. done.
  - intros E. unfold thrid_is_global. rewrite El, E. by rewrite andb_false_r.
  - intros E Ha.
    assert (Hs : thrid_is_single t = true).
    { unfold thrid_is_single, thrid_is_nil, thrid_is_any, thrid_is_any_local.
      destruct (Z.eqb_spec t Thrid_nil) as [Et|_]; [exfalso; apply E; by rewrite <- El, Et |].
      destruct (Z.eqb_spec t Thrid_any) as [Et|_]; [done |].
      destruct (Z.eqb_spec t Thrid_any_local) as [Et|_]; [| done].
      exfalso. apply E. by rewrite <- El, Et. }
    unfold thrid_number, thrid_is_global, thrid_is_local. rewrite Hs, El.
    destruct (Z.eqb_spec (ver mod 64) 0); [done |]. done.
  - intros -> ->. done.
Qed.

Lemma thrid_create_global_correct_witness :
  thrid_is_global (thrid_create_global 5 Def_glob_ver) = true /\
  thrid_number (thrid_create_global 5 Def_glob_ver) = 5.
Proof.
  destruct (thrid_create_global_correct 5 Def_glob_ver) as (_ & _ & _ & _ & H & _);
    [unfold in_range; lia | unfold in_range, Def_glob_ver; lia |].
  destruct H as (H1 & _ & H2); [done | done | by split].
Defined.

(** *** Time *)

Lemma msbit_loop_spec usec : forall n, 0 < usec < 2 ^ Z.of_nat n ->
  msbit_loop n usec = Ok (Z.log2 usec).
Proof.
  induction n as [|n IH]; intros H; [simpl in H; lia |]. cbn [msbit_loop].
  rewrite Z.shiftr_div_pow2 by lia.
  destruct (Z.eqb_spec (usec / 2 ^ Z.of_nat n) 0) as [E|E]; simpl.
  - apply IH. apply Z.div_small_iff in E; lia.
  - f_equal. symmetry. apply Z.log2_unique; [lia |]. split.
    + destruct (Z.lt_ge_cases usec (2 ^ Z.of_nat n)) as [L|]; [| lia].
      rewrite Z.div_small in E; lia.
    + rewrite Nat2Z.inj_succ in H. lia.
Qed.

Lemma time_set_period_fields t e m : in_range 16 t -> in_range 5 e -> in_range 10 m ->
  in_range 16 (time_set_period t e m) /\ time_rel_exp (time_set_period t e m) = e /\
  time_rel_man (time_set_period t e m) = m /\ time_is_rel (time_set_period t e m) = true.
Proof.
  intros Ht He Hm. unfold time_set_period. split_and!.
  - repeat apply bf_set_range; lia || done.
  - unfold time_rel_exp. bf_simpl. by apply wrap_small.
  - unfold time_rel_man. bf_simpl. by apply wrap_small.
  - unfold time_is_rel, time_is_abs. by bf_simpl.
Qed.

(** [L4_time_t::rel] encodes every 64-bit duration as a relative time
    that is never the [Never] value; durations up to 1023 us are exact, longer
    ones are rounded down by at most 1/512 of their value, and durations of
    2^41 us or more become [Zero]. *)
Theorem time_rel_correct usec : in_range 64 usec ->
  exists t, time_create_rel usec = Ok t /\ in_range 16 t /\ time_is_rel t = true /\
    time_is_never t = false /\
    (usec <= 1023 -> time_rel_usec t = usec) /\
    (usec < 2 ^ 41 -> time_rel_usec t <= usec /\ 512 * (usec - time_rel_usec t) <= usec) /\
    (2 ^ 41 <= usec -> t = Time_zero).
Proof.
  intros Hu. unfold in_range in Hu. unfold time_create_rel, time_rel.
  change Mantissa_max with 1023. change Exponent_max_rel with 31. change Mantissa_len with 10.
  destruct (Z.eqb_spec usec 0) as [-> | Hz].
  { exists Time_zero. split_and!; try done; try lia. }
  assert (Huse : forall e m, in_range 5 e -> 0 < m < 1024 ->
    let t := time_set_period Time_zero e m in
    in_range 16 t /\ time_is_rel t = true /\ time_is_never t = false /\ time_rel_usec t = m * 2 ^ e).
  { intros e m He Hm t. destruct (time_set_period_fields Time_zero e m) as (H1 & H2 & H3 & H4);
      [done | done | unfold in_range; lia |]. fold t in H1, H2, H3, H4.
    assert (Hn : (t =? Time_never) = false).
    { apply Z.eqb_neq. intros E. rewrite E in H3. vm_compute in H3. lia. }
    split_and!; auto. unfold time_rel_usec. rewrite Hn, H2, H3, Z.shiftl_mul_pow2 by (unfold in_range in He; lia).
    apply wrap_small. unfold in_range in *. pose proof (Z.pow_le_mono_r 2 e 31). nia. }
  destruct (Z.leb_spec usec 1023).
  - destruct (Huse 0 usec) as (H1 & H2 & H3 & H4); [unfold in_range; lia | lia |].
    rewrite Z.pow_0_r, Z.mul_1_r in H4. eexists. split; [reflexivity |].
    rewrite H4. split_and!; auto; lia.
  - rewrite msbit_loop_spec by (split; [lia | exact (proj2 Hu)]). simpl.
    pose proof (Z.log2_spec usec ltac:(lia)) as [L1 L2].
    assert (L3 : 10 <= Z.log2 usec) by (apply Z.log2_le_pow2; lia).
    set (l := Z.log2 usec) in *. clearbody l. set (e := l + 1 - 10).
    destruct (Z.ltb_spec 31 e) as [Hb|Hb].
    + exists Time_zero. split_and!; try done; [lia |]. intros. exfalso.
      assert (2 ^ 41 <= 2 ^ l) by (apply Z.pow_le_mono_r; lia). lia.
    + assert (Ep : 2 ^ l = 512 * 2 ^ e).
      { change 512 with (2 ^ 9). rewrite <- Z.pow_add_r by lia. f_equal. lia. }
      rewrite Z.pow_succ_r in L2 by lia. pose proof (Z.pow_pos_nonneg 2 e ltac:(lia) ltac:(lia)) as Hp.
      assert (Hm : 512 <= usec / 2 ^ e < 1024).
      { split; [apply Z.div_le_lower_bound | apply Z.div_lt_upper_bound]; lia. }
      rewrite Z.shiftr_div_pow2 by lia.
      destruct (Huse e (usec / 2 ^ e)) as (H1 & H2 & H3 & H4); [unfold in_range; lia | lia |].
      eexists. split; [reflexivity |]. rewrite H4.
      pose proof (Z.div_mod usec (2 ^ e) ltac:(lia)). pose proof (Z.mod_pos_bound usec (2 ^ e) Hp).
      split_and!; auto; try lia. intros. exfalso.
      assert (2 ^ Z.succ l <= 2 ^ 41) by (apply Z.pow_le_mono_r; lia).
      rewrite Z.pow_succ_r in * by lia. lia.
Qed.

Lemma time_rel_correct_witness :
  exists t, time_create_rel 1000000 = Ok t /\ 999424 = time_rel_usec t /\ time_rel_usec t <= 1000000.
Proof.
  destruct (time_rel_correct 1000000) as (t & E & _ & _ & _ & _ & H & _); [unfold in_range; lia |].
  exists t. split_and!; [exact E | vm_compute in E; injection E as <-; reflexivity | apply H; lia].
Defined.

(** *** Flex pages *)

(** The size loop writes the index of the lowest set bit and nothing else. *)
Lemma fpage_size_loop_spec lo : 0 <= lo -> lo + 6 <= 32 -> forall fuel b p r,
  low_bit_loop fuel b (bf_get lo 6 p) = Ok r -> r < 64 -> in_range 32 p ->
  exists p', fpage_size_loop lo fuel b p = Ok p' /\ in_range 32 p' /\ bf_get lo 6 p' = r /\
    (forall lo' w', 0 <= lo' -> 0 <= w' -> lo + 6 <= lo' \/ lo' + w' <= lo ->
       bf_get lo' w' p' = bf_get lo' w' p).
Proof.
  intros Hlo Hlo6. induction fuel as [|f IH]; intros b p r E Hr Hp; [done |]. simpl in *.
  destruct (Z.land b 1 =? 0).
  - set (p1 := bf_set lo 6 (bf_get lo 6 p + 1) p).
    assert (Hle : forall n x c y, low_bit_loop n x c = Ok y -> c <= y).
    { clear. induction n as [|n IH]; intros x c y; simpl; [done |].
      destruct (Z.land x 1 =? 0); [intros ?%IH; lia | intros [= ->]; lia]. }
    assert (E1 : bf_get lo 6 p1 = bf_get lo 6 p + 1).
    { unfold p1. rewrite bf_get_set_same by lia. apply wrap_small.
      pose proof (bf_get_range lo 6 p ltac:(lia) ltac:(lia)) as R. unfold in_range in *.
      apply Hle in E. simpl in *. lia. }
    destruct (IH (Z.shiftr b 1) p1 r) as (p' & Ef & R' & G & O); auto.
    { by rewrite E1. } { apply bf_set_range; lia || done. }
    exists p'. split_and!; auto. intros lo' w' ? ? ?. rewrite O by lia.
    unfold p1. by rewrite bf_get_set_other by lia.
  - injection E as <-. eauto.
Qed.

#[local] Arguments fpage_size_loop : simpl never.
#[local] Arguments low_bit_loop : simpl never.

Lemma fpage_addr_get p : fpage_addr p = bf_get 10 22 p * 2 ^ 10.
Proof.
  unfold fpage_addr, fpage_base. pose proof (bf_get_range 10 22 p ltac:(lia) ltac:(lia)) as R.
  unfold in_range in R. set (b := bf_get 10 22 p) in *. rewrite Z.shiftl_mul_pow2 by lia.
  unfold signed. rewrite (wrap_small 22 b) by (unfold in_range; lia). destruct (Z.ltb_spec b (2 ^ (22 - 1))).
  - rewrite (wrap_small 32 b) by (unfold in_range; lia). apply wrap_small. unfold in_range. lia.
  - replace (u32 (b - 2 ^ 22)) with (b - 2 ^ 22 + 2 ^ 32).
    + unfold wrap. replace ((b - 2 ^ 22 + 2 ^ 32) * 2 ^ 10) with (b * 2 ^ 10 + 1023 * 2 ^ 32) by lia.
      rewrite Z.mod_add by lia. apply Z.mod_small. lia.
    + unfold wrap. rewrite <- (Z.mod_add _ 1), Z.mul_1_l by lia. rewrite Z.mod_small; lia.
Qed.

Lemma shiftr10_base adr : in_range 32 adr -> adr mod 2 ^ 10 = 0 ->
  wrap 22 (Z.shiftr adr 10) * 2 ^ 10 = adr.
Proof.
  unfold in_range. intros Ha Hm. rewrite Z.shiftr_div_pow2 by lia.
  rewrite wrap_small; [| unfold in_range; split; [apply Z.div_pos | apply Z.div_lt_upper_bound]; lia].
  pose proof (Z.div_mod adr (2 ^ 10)). lia.
Qed.

(** [L4_fpage_t::set]: for a power of two of at least a page and an
    address aligned to it, the flex page has exactly this address, size and
    access rights; every other request gives the nil page. *)
Theorem fpage_set_correct p0 adr sz acc : in_range 32 p0 -> in_range 32 adr -> in_range 32 sz ->
  (forall k, 12 <= k -> sz = 2 ^ k -> adr mod 2 ^ k = 0 ->
     exists p, fpage_set p0 adr sz acc = Ok p /\ in_range 32 p /\ fpage_addr p = adr /\
       fpage_size p = sz /\ fpage_log2sz p = k /\ fpage_access p = acc mod 8) /\
  ((forall k, 12 <= k -> sz = 2 ^ k -> adr mod 2 ^ k <> 0) ->
     fpage_set p0 adr sz acc = Ok Fpage_nil).
Proof.
  intros Hp Ha Hs. unfold fpage_set. change Size_min with 4096.
  set (p3 := bf_set 0 3 _ (bf_set 4 6 0 _)).
  assert (Hp3 : in_range 32 p3) by (unfold p3; repeat apply bf_set_range; lia || done).
  assert (E0 : bf_get 4 6 p3 = 0) by (unfold p3; by bf_simpl).
  assert (Hloop : forall t q, 0 <= t < 32 -> low_bit_loop 32 sz 0 = Ok t -> sz = (2 * q + 1) * 2 ^ t ->
    exists p, fpage_size_loop 4 32 sz p3 = Ok p /\ in_range 32 p /\ fpage_log2sz p = t /\
      fpage_size p = 2 ^ t /\ fpage_access p = acc mod 8 /\
      bf_get 10 22 p = wrap 22 (Z.shiftr adr 10)).
  { intros t q Ht El _. rewrite <- E0 in El.
    destruct (fpage_size_loop_spec 4 ltac:(lia) ltac:(lia) _ _ _ _ El ltac:(lia) Hp3)
      as (p & Ef & R & G & O).
    exists p. split_and!; auto.
    - unfold fpage_size, fpage_log2sz. rewrite G. by apply get_size_pow2.
    - unfold fpage_access. rewrite O by lia. unfold p3. bf_simpl.
      change Acc_rwx with (Z.ones 3). rewrite Z.land_ones by lia. unfold wrap.
      change (2 ^ 3) with 8. apply Zmod_mod.
    - rewrite O by lia. unfold p3. by bf_simpl. }
  unfold in_range in Hs. split.
  - intros k Hk -> Hm.
    assert (Hk32 : k < 32) by (apply (Z.pow_lt_mono_r_iff 2); lia).
    assert (2 ^ 12 <= 2 ^ k) by (apply Z.pow_le_mono_r; lia).
    destruct (Z.ltb_spec (2 ^ k) 4096); [lia |]. simpl.
    rewrite (proj2 (is_aligned_spec adr k ltac:(lia)) Hm). simpl.
    destruct (low_bit_loop_spec 32 (2 ^ k) 0) as (t & q & Ht & E & El); [simpl; lia |].
    simpl in Ht, El. rewrite Z.add_0_l in El. symmetry in E.
    assert (t = k) as -> by (apply (odd_pow2_unique q); lia).
    destruct (Hloop k q Ht El) as (p & Ef & R & G1 & G2 & G3 & G4); [lia |].
    rewrite Ef. simpl. rewrite G2, Z.eqb_refl. simpl. exists p. split_and!; auto.
    rewrite fpage_addr_get, G4. apply shiftr10_base; [done |].
    apply Z.mod_divide in Hm; [| lia]. apply Z.mod_divide; [lia |].
    transitivity (2 ^ k); [| done]. exists (2 ^ (k - 10)). rewrite <- Z.pow_add_r by lia. f_equal. lia.
  - intros Hno. destruct (Z.ltb_spec sz 4096); [done |]. simpl.
    destruct (is_aligned adr sz) eqn:Eal; [| done]. simpl.
    destruct (low_bit_loop_spec 32 sz 0) as (t & q & Ht & E & El); [simpl; lia |].
    simpl in Ht, El. rewrite Z.add_0_l in El.
    destruct (Hloop t q Ht El E) as (p & Ef & R & G1 & G2 & G3 & G4). rewrite Ef. simpl. rewrite G2.
    destruct (Z.eqb_spec (2 ^ t) sz) as [Et|]; [| done]. exfalso.
    assert (12 <= t).
    { destruct (Z.lt_ge_cases t 12); [| done].
      assert (2 ^ t < 2 ^ 12) by (apply Z.pow_lt_mono_r; lia). lia. }
    apply (Hno t); auto. rewrite <- Et in Eal. by apply is_aligned_spec in Eal; [| lia].
Qed.

Lemma fpage_set_correct_witness :
  (exists p, fpage_set 0 0x40000000 0x10000 Acc_rw = Ok p /\ fpage_addr p = 0x40000000 /\
     fpage_size p = 0x10000) /\
  fpage_set 0 0x40001000 0x10000 Acc_rw = Ok Fpage_nil.
Proof.
  split.
  - destruct (fpage_set_correct 0 0x40000000 0x10000 Acc_rw) as [H _]; [unfold in_range; lia.. |].
    destruct (H 16) as (p & E & _ & Ea & Es & _); [lia | reflexivity | reflexivity |].
    exists p. exact (conj E (conj Ea Es)).
  - apply (fpage_set_correct 0 0x40001000 0x10000 Acc_rw); [unfold in_range; lia.. |].
    intros k Hk E. change 0x10000 with (2 ^ 16) in E. apply Z.pow_inj_r in E; [| lia..].
    subst k. done.
Defined.

(** The bytes a flex page denotes. *)
Definition fpage_has (p x : Z) : Prop := fpage_addr p <= x < fpage_addr p + fpage_size p.

Lemma fpage_size_pos p : fpage_log2sz p < 32 -> 0 < fpage_size p.
Proof.
  intros H. pose proof (bf_get_range 4 6 p ltac:(lia) ltac:(lia)) as R. unfold in_range in R.
  unfold fpage_size. fold (get_size (fpage_log2sz p)). unfold fpage_log2sz in *.
  rewrite get_size_pow2 by lia. apply Z.pow_pos_nonneg; lia.
Qed.

(** [is_cross] and [is_inside] decide intersection and inclusion of the
    byte ranges of two flex pages that end below the top of the address space;
    a flex page that ends exactly at the top (its [end()] wraps to 0) crosses
    nothing, itself included. *)
Theorem fpage_ranges a p : fpage_log2sz a < 32 -> fpage_log2sz p < 32 ->
  (fpage_addr a + fpage_size a < 2 ^ 32 -> fpage_addr p + fpage_size p < 2 ^ 32 ->
     (fpage_is_cross a p = true <-> exists x, fpage_has a x /\ fpage_has p x) /\
     (fpage_is_inside a p = true <-> forall x, fpage_has p x -> fpage_has a x)) /\
  (fpage_addr a + fpage_size a = 2 ^ 32 -> fpage_is_cross a p = false).
Proof.
  intros Ha Hp. pose proof (fpage_size_pos a Ha) as Sa. pose proof (fpage_size_pos p Hp) as Sp.
  assert (Aa : 0 <= fpage_addr a) by (apply wrap_range; lia).
  assert (Ap : 0 <= fpage_addr p) by (apply wrap_range; lia).
  unfold fpage_is_cross, fpage_is_inside, fpage_has, fpage_end. split.
  - intros La Lp. rewrite !wrap_small by (unfold in_range; lia). split.
    + rewrite negb_true_iff, orb_false_iff, !Z.leb_gt. split.
      * intros [? ?]. exists (Z.max (fpage_addr a) (fpage_addr p)). lia.
      * intros (x & ? & ?). lia.
    + rewrite andb_true_iff, !Z.leb_le. split; [intros; lia |].
      intros H. pose proof (H (fpage_addr p)). pose proof (H (fpage_addr p + fpage_size p - 1)). lia.
  - intros ->. change (u32 (2 ^ 32)) with 0. destruct (Z.leb_spec 0 (fpage_addr p)); [done | lia].
Qed.

Lemma fpage_ranges_witness :
  (fpage_is_cross 0x400000c7 0x400010c7 = true <->
     exists x, fpage_has 0x400000c7 x /\ fpage_has 0x400010c7 x) /\
  fpage_is_cross 0xfffff0c7 0xfffff0c7 = false.
Proof.
  split.
  - apply (fpage_ranges 0x400000c7 0x400010c7); vm_compute; done.
  - apply (fpage_ranges 0xfffff0c7 0xfffff0c7); vm_compute; done.
Defined.

Lemma bf_set_chain_io p0 port : in_range 32 p0 ->
  let p3 := bf_set 0 10 Ioport (bf_set 10 6 0 (bf_set 16 16 port p0)) in
  in_range 32 p3 /\ bf_get 10 6 p3 = 0 /\ bf_get 16 16 p3 = wrap 16 port /\ bf_get 0 10 p3 = Ioport.
Proof.
  intros Hp p3. unfold p3. split_and!.
  - repeat apply bf_set_range; lia || done.
  - by bf_simpl.
  - by bf_simpl.
  - by bf_simpl.
Qed.

(** [set_io] builds an I/O flex page with the requested size for a
    power-of-two, aligned port range; [io_port] returns the port only for ports
    below 0x8000: the port field is signed, so ports from 0x8000 on read back
    with the upper half of the word set. *)
Theorem fpage_set_io_correct p0 port k : in_range 32 p0 -> 0 <= k -> 0 <= port ->
  port + 2 ^ k <= 0xffff -> port mod 2 ^ k = 0 ->
  exists p, fpage_set_io p0 port (2 ^ k) = Ok p /\ fpage_is_io p = true /\
    fpage_io_size p = 2 ^ k /\
    fpage_io_port p = (if port <? 0x8000 then port else port + 0xffff0000).
Proof.
  intros Hp Hk H0 Hs Hm. pose proof (Z.pow_pos_nonneg 2 k ltac:(lia) Hk) as Hpos.
  assert (Hk16 : k < 16) by (apply (Z.pow_lt_mono_r_iff 2); lia).
  unfold fpage_set_io. destruct (Z.eqb_spec (2 ^ k) 0); [lia |]. destruct (Z.ltb_spec 0xffff port); [lia |].
  rewrite (wrap_small 32) by (unfold in_range; lia). destruct (Z.ltb_spec 0xffff (port + 2 ^ k)); [lia |].
  rewrite (proj2 (is_aligned_spec port k ltac:(lia)) Hm). cbn [orb negb].
  destruct (bf_set_chain_io p0 port Hp) as (R3 & G0 & G16 & Gm). set (p3 := bf_set 0 10 _ _) in *.
  destruct (low_bit_loop_spec 32 (2 ^ k) 0) as (t & q & Ht & E & El); [simpl; lia |].
  rewrite Z.add_0_l, <- G0 in El. symmetry in E.
  assert (t = k) as -> by (apply (odd_pow2_unique q); lia).
  destruct (fpage_size_loop_spec 10 ltac:(lia) ltac:(lia) _ _ _ _ El ltac:(lia) R3)
    as (p & Ef & R & G & O).
  assert (Es : fpage_io_size p = 2 ^ k).
  { unfold fpage_io_size. rewrite G. apply get_size_pow2. lia. }
  rewrite Ef. simpl. rewrite Es, Z.eqb_refl. simpl. exists p. split_and!; auto.
  - unfold fpage_is_io. by rewrite O, Gm by lia.
  - unfold fpage_io_port. rewrite O, G16 by lia. unfold signed. rewrite wrap_wrap.
    rewrite (wrap_small 16) by (unfold in_range; lia). change (2 ^ (16 - 1)) with 0x8000.
    destruct (Z.ltb_spec port 0x8000); [apply wrap_small; unfold in_range; lia |].
    unfold wrap. rewrite <- (Z.mod_add _ 1), Z.mul_1_l by lia. rewrite Z.mod_small; lia.
Qed.

Lemma fpage_set_io_correct_witness :
  (exists p, fpage_set_io 0 0x3f8 8 = Ok p /\ fpage_io_port p = 0x3f8) /\
  (exists p, fpage_set_io 0 0x8000 8 = Ok p /\ fpage_io_port p = 0xffff8000).
Proof.
  split.
  - destruct (fpage_set_io_correct 0 0x3f8 3) as (p & E & _ & _ & P);
      [unfold in_range; lia | lia | lia | lia | reflexivity |]. exists p. exact (conj E P).
  - destruct (fpage_set_io_correct 0 0x8000 3) as (p & E & _ & _ & P);
      [unfold in_range; lia | lia | lia | lia | reflexivity |]. exists p. exact (conj E P).
Defined.

(** *** Message tags and typed items *)

(** message tags: the fields written by [set_ipc], [set_proto] and
    [set_proto_pf] read back unchanged (labels are sign-extended), the error
    flag is clear, and marking a tag as failed changes no other field; a page
    fault request and its empty reply are recognised as such. *)
Theorem msgtag_fields t label untyped typed acc : in_range 32 t ->
  in_range 8 untyped -> in_range 6 typed -> in_range 3 acc ->
  (- 2 ^ 13 <= label < 2 ^ 13 ->
     let g := tag_set_ipc label untyped typed in
     in_range 32 g /\ tag_ipc_label g = label /\ tag_untyped g = untyped /\ tag_typed g = typed /\
     tag_ipc_is_failed g = false /\ tag_propagated g = false /\
     tag_ipc_is_failed (tag_ipc_set_failed g) = true /\
     tag_ipc_label (tag_ipc_set_failed g) = label /\
     tag_ipc_set_ok (tag_ipc_set_failed g) = g) /\
  (- 2 ^ 9 <= label < 2 ^ 9 ->
     let g := tag_set_proto t label untyped typed in
     let h := tag_set_proto_pf t label acc untyped typed in
     tag_proto_label g = label /\ tag_untyped g = untyped /\ tag_typed g = typed /\
     tag_ipc_is_failed g = false /\
     tag_proto_label h = label /\ tag_untyped h = untyped /\ tag_typed h = typed /\
     tag_pfault_access h = acc /\ tag_ipc_is_failed h = false) /\
  tag_is_pf_request (tag_set_proto_pf t Pagefault acc 0 2) = true /\
  tag_is_pf_reply (tag_set_ipc 0 0 2) = true.
Proof.
  intros Ht Hu Hy Ha. split_and!.
  - intros Hl g. unfold g, tag_set_ipc, tag_ipc_label, tag_untyped, tag_typed, tag_ipc_is_failed,
      tag_propagated, tag_ipc_set_failed, tag_ipc_set_ok. split_and!.
    + repeat apply bf_set_range; lia || done.
    + bf_simpl. by apply signed_wrap.
    + bf_simpl. by apply wrap_small.
    + bf_simpl. by apply wrap_small.
    + bf_simpl. by rewrite bf_get_0.
    + bf_simpl. by rewrite bf_get_0.
    + by bf_simpl.
    + bf_simpl. by apply signed_wrap.
    + apply Z.bits_inj'. intros i Hi. rewrite !bf_set_spec by lia. bit_cases; try done.
      by rewrite !Z.testbit_0_l.
  - intros Hl g h. unfold g, h, tag_set_proto, tag_set_proto_pf, tag_proto_label, tag_untyped, tag_typed,
      tag_ipc_is_failed, tag_pfault_access. split_and!; bf_simpl;
      try (by apply wrap_small); try (by apply signed_wrap).
    + by rewrite bf_get_set_within by lia.
    + by rewrite bf_get_set_within by lia.
  - unfold tag_is_pf_request, tag_set_proto_pf, tag_proto_label, tag_untyped, tag_typed.
    bf_simpl. done.
  - done.
Qed.

Lemma msgtag_fields_witness :
  tag_ipc_label (tag_set_ipc (-2) 3 4) = -2 /\ tag_untyped (tag_set_ipc (-2) 3 4) = 3 /\
  tag_pfault_access (tag_set_proto_pf 0 (-2) 6 3 4) = 6.
Proof.
  destruct (msgtag_fields 0 (-2) 3 4 6) as (H1 & H2 & _); [unfold in_range; lia.. |].
  destruct H1 as (_ & E1 & E2 & _); [lia |]. destruct H2 as (_ & _ & _ & _ & _ & _ & _ & E3 & _); [lia |].
  exact (conj E1 (conj E2 E3)).
Defined.

(** typed items: whatever the word held before, a map, grant or simple
    string item written by its setter is recognised as exactly that kind by
    the typed-item queries, its payload and continuation flag read back; the
    acceptor keeps base and size of its flex page and the string flag. *)
Theorem typed_items_fields w fpg ptr len (c : bool) : in_range 22 len ->
  (let '(m0, m1) := mitem_set w fpg c in
   m1 = fpg /\ titem_is_map_item m0 = true /\ titem_is_grant_item m0 = false /\
   titem_is_string_item m0 = false /\ titem_is_last m0 = negb c /\ mitem_snd_base m0 = 0) /\
  (let '(g0, g1) := gitem_set w fpg in
   g1 = fpg /\ titem_is_map_item g0 = false /\ titem_is_grant_item g0 = true /\
   titem_is_string_item g0 = false /\ titem_is_last g0 = true) /\
  (let '(s0, s1) := sitem_simple w ptr len c in
   s1 = ptr /\ titem_is_string_item s0 = true /\ titem_is_map_item s0 = false /\
   titem_is_grant_item s0 = false /\ sitem_length s0 = len /\ sitem_substring_number s0 = 1 /\
   sitem_is_string_continue s0 = false /\ sitem_is_last s0 = negb c) /\
  (let a := acceptor_set fpg c in in_range 32 fpg ->
   fpage_addr (acceptor_fpage a) = fpage_addr fpg /\ fpage_size (acceptor_fpage a) = fpage_size fpg /\
   acceptor_string_accepted a = c).
Proof.
  intros Hl. split_and!.
  - unfold mitem_set. unfold titem_is_map_item, titem_is_grant_item, titem_is_string_item,
      titem_is_last, mitem_snd_base. bf_simpl. by destruct c.
  - unfold gitem_set, mitem_set, mitem_set_grant, titem_is_map_item, titem_is_grant_item,
      titem_is_string_item, titem_is_last. by bf_simpl.
  - unfold sitem_simple, titem_is_map_item, titem_is_grant_item, titem_is_string_item,
      sitem_length, sitem_substring_number, sitem_is_string_continue, sitem_is_last.
    set (s0 := bf_set 0 1 _ _).
    assert (Ht : forall lo w', 1 <= lo -> 0 <= w' -> lo + w' <= 10 -> bf_get lo w' s0 = 0).
    { intros lo w' ? ? ?. apply Z.bits_inj'. intros i Hi. unfold s0.
      rewrite bf_get_spec, !bf_set_spec, Z.testbit_0_l by lia.
      bit_cases; by rewrite ?Z.testbit_0_l. }
    rewrite (Ht 1 3), (Ht 4 5), (Ht 9 1) by lia. unfold s0. bf_simpl. rewrite (wrap_small 22) by done. by destruct c.
  - intros a Hf. unfold a, acceptor_fpage, acceptor_set, acceptor_string_accepted.
    assert (Hk : forall lo w', 3 <= lo -> 0 <= w' -> lo + w' <= 32 ->
      bf_get lo w' (bf_set 0 1 (Z.b2z c) (Z.land fpg (u32 (Z.lnot 7)))) = bf_get lo w' fpg).
    { intros lo w' ? ? ?. rewrite bf_get_set_other by lia. apply Z.bits_inj'. intros i Hi.
      rewrite !bf_get_spec by lia. bit_cases; try done. rewrite Z.land_spec. unfold wrap.
      rewrite Z.mod_pow2_bits_low, Z.lnot_spec by lia. change 7 with (Z.ones 3).
      rewrite testbit_ones by lia. bit_cases. by rewrite andb_true_r. }
    rewrite !fpage_addr_get. unfold fpage_size, fpage_log2sz. rewrite !Hk by lia. bf_simpl. by destruct c.
Qed.

Lemma typed_items_fields_witness :
  sitem_length (sitem_simple 0xffffffff 0x1000 77 true).1 = 77 /\
  fpage_addr (acceptor_fpage (acceptor_set 0x400000c7 true)) = 0x40000000.
Proof.
  destruct (typed_items_fields 0xffffffff 0x400000c7 0x1000 77 true) as (_ & _ & H & H');
    [unfold in_range; lia |].
  split; [apply H | destruct H' as [E _]; [unfold in_range; lia | exact E]].
Defined.
