(* ===== verification/AddressSpace.v ===== *)
(** krn/kmem.h: [Address_space_t], the ordered map of address regions that
    the kernel uses for virtual spaces ([Aspace]) and for its heap ([Kmem]).

    A space is a [list_t] of region descriptors in address order.  The model
    works on the contract of [list_t] ([ListSpec]); iterators are item
    addresses and a [for] loop over the list is a recursion over its
    sequence.  Addresses and sizes are 32-bit. *)

From Stdlib Require Import ZArith Lia Bool.
From stdpp Require Import base list numbers sets.
From S2P Require Import Prelude SysUtils ListSpec.

(** What [Address_space_t] requires of its [Type] argument: operators == and |=. *)
Class RegionType (T : Type) := {
  rt_eqb : T -> T -> bool;
  rt_or : T -> T -> T;
  rt_eqb_spec : forall a b, reflect (a = b) (rt_eqb a b);
}.

Inductive mode_t := Combine | NotCombine.

Record desc (T : Type) := MkDesc { d_addr : Z; d_sz : Z; d_type : T }.
Arguments MkDesc {T} _ _ _.
Arguments d_addr {T} _.
Arguments d_sz {T} _.
Arguments d_type {T} _.

Section AddressSpace.
Context `{RegionType T}.
Abbreviation space := (alist (desc T)).
Implicit Types (A : space) (d : desc T) (ds : list (desc T)) (l : list (Z * desc T)).

Definition d_end d : Z := u32 (d_addr d + d_sz d).

(** add(iter_t pos, ...): set new element before [pos], combine regions if need. *)
Definition add_at A (pos addr sz : Z) (type : T) (mode : mode_t) : res space :=
  next_ok ← (if pos =? 0 then Ok true
             else p ← deref A pos; Ok (u32 (addr + sz) <=? d_addr p));
  _ ← wassert next_ok;
  prev_ok ← (if (pos =? begin A) || empty A then Ok true
             else if pos =? 0 then b ← deref A (last A); Ok (d_end b <=? addr)
             else q ← prev A pos; d ← deref A q; Ok (d_end d <=? addr));
  _ ← wassert prev_ok;
  match mode with
  | NotCombine =>
      if negb (pos =? 0) then '(_, A') ← insert_before A pos (MkDesc addr sz type); Ok A'
      else push_back A (MkDesc addr sz type)
  | Combine =>
      if negb (pos =? 0) then
        p ← deref A pos;
        let pos_cont := (u32 (addr + sz) =? d_addr p) && rt_eqb type (d_type p) in
        pv ← prev A pos;
        prev_cont ← (if pv =? 0 then Ok false
                     else d ← deref A pv;
                          Ok ((u32 (d_addr d + d_sz d) =? addr) && rt_eqb (d_type d) type));
        if pos_cont && prev_cont then
          d ← deref A pv;
          '(_, A') ← erase (store A pv (MkDesc (d_addr d) (u32 (d_sz d + (sz + d_sz p))) (d_type d))) pos;
          Ok A'
        else if pos_cont then
          Ok (store A pos (MkDesc (u32 (d_addr p - sz)) (u32 (d_sz p + sz)) (d_type p)))
        else if prev_cont then
          d ← deref A pv;
          Ok (store A pv (MkDesc (d_addr d) (u32 (d_sz d + sz)) (d_type d)))
        else '(_, A') ← insert_before A pos (MkDesc addr sz type); Ok A'
      else
        let lst := last A in
        cont ← (if lst =? 0 then Ok false
                else d ← deref A lst;
                     Ok ((u32 (d_addr d + d_sz d) =? addr) && rt_eqb (d_type d) type));
        if cont : bool then
          d ← deref A lst;
          Ok (store A lst (MkDesc (d_addr d) (u32 (d_sz d + sz)) (d_type d)))
        else push_back A (MkDesc addr sz type)
  end.

(** remove(iter_t pos, ...): remove a piece or the whole of element [pos];
    returns the next element. *)
Definition remove A (pos addr sz : Z) : res (Z * space) :=
  _ ← wassert (negb (pos =? 0));
  p ← deref A pos;
  _ ← wassert ((d_addr p <=? addr) && (u32 (addr + sz) <=? u32 (d_addr p + d_sz p)));
  let eend := u32 (addr + sz) in
  let pos_end := u32 (d_addr p + d_sz p) in
  if (d_addr p =? addr) && (pos_end =? eend) then erase A pos
  else if d_addr p =? addr then
    Ok (pos, store A pos (MkDesc (u32 (d_addr p + sz)) (u32 (d_sz p - sz)) (d_type p)))
  else if pos_end =? eend then
    let A' := store A pos (MkDesc (d_addr p) (u32 (d_sz p - sz)) (d_type p)) in
    n ← next A' pos; Ok (n, A')
  else
    '(_, A1) ← insert_before A pos (MkDesc (d_addr p) (u32 (addr - d_addr p)) (d_type p));
    Ok (pos, store A1 pos (MkDesc eend (u32 (pos_end - eend)) (d_type p))).

(** The first item from which [cond] holds, as the rest of the sequence. *)
Fixpoint seek (cond : desc T -> bool) l : list (Z * desc T) :=
  match l with
  | [] => []
  | (a, d) :: t => if cond d then l else seek cond t
  end.

(** add(addr, ...) *)
Definition add A (addr sz : Z) (type : T) (mode : mode_t) : res space :=
  let it := first_it (seek (fun d => addr <=? d_addr d) (busy A)) in
  cross ← (if it =? 0 then Ok false else d ← deref A it; Ok (d_addr d <? u32 (addr + sz)));
  if cross : bool then Stop FPanic else add_at A it addr sz type mode.

(** insert: the loop stops at the region that contains the new one, or at
    the next busy region. *)
Fixpoint insert_loop (addr sz : Z) l : res (Z * bool) :=
  match l with
  | [] => Ok (0, false)
  | (a, d) :: t =>
      if (d_addr d <=? addr) && (u32 (addr + sz) <=? d_end d) then Ok (a, true)
      else if addr <=? d_addr d then
        if d_addr d <? u32 (addr + sz) then Stop FPanic else Ok (a, false)
      else insert_loop addr sz t
  end.

Definition insert A (addr sz : Z) (type : T) (mode : mode_t) : res (T * space) :=
  '(it, contains) ← insert_loop addr sz (busy A);
  if contains : bool then
    d ← deref A it;
    let type' := rt_or type (d_type d) in
    '(it', A1) ← remove A it addr sz;
    A2 ← add_at A1 it' addr sz type' mode;
    Ok (type', A2)
  else
    A2 ← add_at A it addr sz type mode;
    Ok (type, A2).

(** find_free *)
Fixpoint find_free_loop (sz align space_end : Z) l (cur : Z) : Z :=
  match l with
  | [] => cur
  | (_, d) :: t =>
      if (space_end <=? cur) || (space_end <? u32 (cur + sz)) then 0
      else if u32 (cur + sz) <=? d_addr d then cur
      else find_free_loop sz align space_end t (round_up (u32 (d_addr d + d_sz d)) align)
  end.

Definition find_free A (sz align space_start space_sz : Z) : Z :=
  let rest := seek (fun d => space_start <=? d_addr d) (busy A) in
  let space_end := u32 (space_start + space_sz) in
  let cur := find_free_loop sz align space_end rest (round_up space_start align) in
  if negb (cur =? 0) && (space_end <? u32 (cur + sz)) then 0 else cur.

Definition alloc A (sz align : Z) (type : T) (mode : mode_t) (space_start space_sz : Z)
  : res (Z * space) :=
  let addr := find_free A sz align space_start space_sz in
  if negb (addr =? 0) then A' ← add A addr sz type mode; Ok (addr, A')
  else Ok (addr, A).

(** find(addr): the region that starts at [addr]. *)
Fixpoint find_start (addr : Z) l : Z :=
  match l with
  | [] => 0
  | (a, d) :: t => if addr =? d_addr d then a else if addr <? d_addr d then 0 else find_start addr t
  end.
Definition find A (addr : Z) : Z := find_start addr (busy A).

(** find(addr, sz): the region that contains the piece. *)
Fixpoint find_piece (addr sz : Z) l : Z :=
  match l with
  | [] => 0
  | (a, d) :: t =>
      let e := u32 (addr + sz) in
      if (d_addr d <=? addr) && (e <=? d_end d) then a
      else if e <=? d_addr d then 0
      else find_piece addr sz t
  end.
Definition find_in A (addr sz : Z) : Z := find_piece addr sz (busy A).

(** free(addr, sz) and free(pos) *)
Definition free_piece A (addr sz : Z) : res space :=
  let it := find_in A addr sz in
  if negb (it =? 0) then '(_, A') ← remove A it addr sz; Ok A' else Ok A.
Definition free_pos A (pos : Z) : res space :=
  if negb (pos =? 0) then '(_, A') ← erase A pos; Ok A' else Ok A.

Definition set_type A (pos addr sz : Z) (type : T) (mode : mode_t) : res space :=
  _ ← wassert (negb (pos =? 0));
  p ← deref A pos;
  _ ← wassert ((d_addr p <=? addr) && (u32 (addr + sz) <=? u32 (d_addr p + d_sz p)));
  _ ← wassert (negb (rt_eqb (d_type p) type));
  '(it, A1) ← remove A pos addr sz;
  add_at A1 it addr sz type mode.

(** ** Abstraction: the regions as a partial map from addresses to types *)

Definition covers d (x : Z) : bool := (d_addr d <=? x) && (x <? d_addr d + d_sz d).

Fixpoint lookup_at ds (x : Z) : option T :=
  match ds with
  | [] => None
  | d :: t => if covers d x then Some (d_type d) else lookup_at t x
  end.

(** Regions are non-empty, ordered, disjoint and end below the top of the
    address space; [lo] bounds them from below. *)
Fixpoint ordered (lo : Z) ds : Prop :=
  match ds with
  | [] => True
  | d :: t => lo <= d_addr d /\ 0 < d_sz d /\ d_addr d + d_sz d < 2 ^ 32 /\
              ordered (d_addr d + d_sz d) t
  end.

Fixpoint end_of (lo : Z) ds : Z :=
  match ds with [] => lo | d :: t => end_of (d_addr d + d_sz d) t end.

Definition view A : Z -> option T := lookup_at (vals (busy A)).

Definition inv A : Prop := ListSpec.wf A /\ ordered 0 (vals (busy A)).

(** [f] with the range [addr, addr + sz) replaced by [v]. *)
Definition upd (f : Z -> option T) (addr sz : Z) (v : option T) : Z -> option T :=
  fun x => if (addr <=? x) && (x <? addr + sz) then v else f x.

(** ** Lemmas on ordered region lists *)

Lemma ordered_app lo ds1 ds2 :
  ordered lo (ds1 ++ ds2) <-> ordered lo ds1 /\ ordered (end_of lo ds1) ds2.
Proof. revert lo. induction ds1 as [|d t IH]; intros lo; simpl; [tauto |]. rewrite IH. tauto. Qed.

Lemma end_of_app lo ds1 ds2 : end_of lo (ds1 ++ ds2) = end_of (end_of lo ds1) ds2.
Proof. revert lo. induction ds1; intros lo; simpl; auto. Qed.

Lemma end_of_ge lo ds : ordered lo ds -> lo <= end_of lo ds.
Proof.
  revert lo. induction ds as [|d t IH]; intros lo; simpl; [lia |].
  intros (? & ? & ? & Ht). apply IH in Ht. lia.
Qed.

Lemma ordered_mono lo lo' ds : lo' <= lo -> ordered lo ds -> ordered lo' ds.
Proof. destruct ds; simpl; [done |]. intros ? (? & ?). split; [lia | done]. Qed.

Lemma lookup_at_app ds1 ds2 x :
  lookup_at (ds1 ++ ds2) x = match lookup_at ds1 x with Some t => Some t | None => lookup_at ds2 x end.
Proof. induction ds1 as [|d t IH]; simpl; [done |]. by destruct (covers d x). Qed.

Lemma lookup_below lo ds x : ordered lo ds -> x < lo -> lookup_at ds x = None.
Proof.
  revert lo. induction ds as [|d t IH]; intros lo; simpl; [done |]. intros (? & ? & ? & Ht) Hx.
  unfold covers. destruct (Z.leb_spec (d_addr d) x); [lia |]. simpl. eapply IH; [exact Ht | lia].
Qed.

Lemma lookup_above lo ds x : ordered lo ds -> end_of lo ds <= x -> lookup_at ds x = None.
Proof.
  revert lo. induction ds as [|d t IH]; intros lo; simpl; [done |]. intros (? & ? & ? & Ht) Hx.
  pose proof (end_of_ge _ _ Ht). unfold covers. destruct (Z.ltb_spec x (d_addr d + d_sz d)); [lia |].
  rewrite andb_false_r. by eapply IH.
Qed.

(** A region list around a position: what lies before ends at or below [lo],
    what lies after starts at or above. *)
Lemma lookup_mid lo ds1 ds2 ds x : ordered lo (ds1 ++ ds2) ->
  ordered (end_of lo ds1) ds -> 
  lookup_at (ds1 ++ ds ++ ds2) x =
    match lookup_at ds x with Some t => Some t | None => lookup_at (ds1 ++ ds2) x end.
Proof.
  intros Ho Hd. apply ordered_app in Ho as [H1 H2]. rewrite !lookup_at_app.
  destruct (Z.lt_ge_cases x (end_of lo ds1)).
  - rewrite (lookup_below _ _ _ Hd) by done. done.
  - rewrite (lookup_above _ _ _ H1) by done. done.
Qed.


(** ** Reference definitions on region lists *)

Definition joins (a b : desc T) : bool := (d_addr a + d_sz a =? d_addr b) && rt_eqb (d_type a) (d_type b).
Definition join (a b : desc T) : desc T := MkDesc (d_addr a) (d_sz a + d_sz b) (d_type a).

Definition join_next d ds : list (desc T) :=
  match ds with
  | p :: t => if joins d p then join d p :: t else d :: ds
  | [] => [d]
  end.

Fixpoint join_prev ds (rest : list (desc T)) : list (desc T) :=
  match ds with
  | [] => rest
  | [q] => match rest with
           | d :: t => if joins q d then join q d :: t else q :: rest
           | [] => [q]
           end
  | q :: t => q :: join_prev t rest
  end.

(** The region list after the insertion of [d] between [ds1] and [ds2]. *)
Definition merge (mode : mode_t) ds1 d ds2 : list (desc T) :=
  match mode with
  | NotCombine => ds1 ++ d :: ds2
  | Combine => join_prev ds1 (join_next d ds2)
  end.

(** The bytes whose type satisfies [P]. *)
Definition weight (P : T -> bool) ds : Z :=
  foldr (fun d acc => (if P (d_type d) then d_sz d else 0) + acc) 0 ds.

Lemma weight_app P ds1 ds2 : weight P (ds1 ++ ds2) = weight P ds1 + weight P ds2.
Proof. induction ds1 as [|d t IH]; simpl; lia. Qed.

Lemma join_prev_snoc ds q rest :
  join_prev (ds ++ [q]) rest = ds ++ join_prev [q] rest.
Proof.
  induction ds as [|d t IH]; [done |]. destruct t as [|d' t]; [done |].
  change (d :: join_prev ((d' :: t) ++ [q]) rest = d :: (d' :: t) ++ join_prev [q] rest).
  by rewrite IH.
Qed.

(** [ds] is a re-partition of [ds']: same order bounds, bytes and weights. *)
Definition same_map (lo : Z) ds ds' : Prop :=
  (ordered lo ds' -> ordered lo ds) /\
  (ordered lo ds' -> forall x, lookup_at ds x = lookup_at ds' x) /\
  (forall P, weight P ds = weight P ds').

Lemma same_map_refl lo ds : same_map lo ds ds.
Proof. done. Qed.

Lemma joins_same a b t lo : joins a b = true -> same_map lo (join a b :: t) (a :: b :: t).
Proof.
  unfold joins. rewrite andb_true_iff, Z.eqb_eq. intros [E Et]. destruct (rt_eqb_spec (d_type a) (d_type b)) as [Ty|]; [| done].
  split_and!.
  - simpl. intros (? & ? & ? & ? & ? & ? & Ht). split_and!; try lia.
    by replace (d_addr a + (d_sz a + d_sz b)) with (d_addr b + d_sz b) by lia.
  - simpl. intros (? & ? & ? & ? & ? & ? & Ht) x. unfold covers. simpl. rewrite <- Ty.
    bit_cases; done.
  - intros P. simpl. rewrite <- Ty. destruct (P _); lia.
Qed.

Lemma same_map_trans lo a b c : same_map lo a b -> same_map lo b c -> same_map lo a c.
Proof.
  intros (A1 & A2 & A3) (B1 & B2 & B3). split_and!; auto.
  - intros Ho x. rewrite A2 by auto. by apply B2.
  - intros P. by rewrite A3.
Qed.

Lemma same_map_app lo ds a b : same_map (end_of lo ds) a b -> same_map lo (ds ++ a) (ds ++ b).
Proof.
  intros (A1 & A2 & A3). split_and!.
  - rewrite !ordered_app. intros [? ?]. auto.
  - rewrite ordered_app. intros [? ?] x. rewrite !lookup_at_app. rewrite A2 by done. done.
  - intros P. by rewrite !weight_app, A3.
Qed.

Lemma merge_same lo mode ds1 d ds2 : same_map lo (merge mode ds1 d ds2) (ds1 ++ d :: ds2).
Proof.
  destruct mode; [| apply same_map_refl]. unfold merge.
  assert (Hn : forall lo, same_map lo (join_next d ds2) (d :: ds2)).
  { intros lo'. unfold join_next. destruct ds2 as [|p t]; [apply same_map_refl |].
    destruct (joins d p) eqn:J; [by apply joins_same | apply same_map_refl]. }
  destruct ds1 as [|q ds1 _] using rev_ind; [apply Hn |]. rewrite join_prev_snoc, <- app_assoc.
  apply same_map_app. eapply same_map_trans; [| apply (same_map_app _ [q]), Hn]. simpl.
  destruct (join_next d ds2) as [|e t]; [apply same_map_refl |].
  destruct (joins q e) eqn:J; [by apply joins_same | apply same_map_refl].
Qed.

(** Insertion of a region into a gap. *)
Lemma gap_insert ds1 d ds2 : ordered 0 (ds1 ++ ds2) -> end_of 0 ds1 <= d_addr d -> 0 < d_sz d ->
  d_addr d + d_sz d < 2 ^ 32 -> ordered (d_addr d + d_sz d) ds2 ->
  ordered 0 (ds1 ++ d :: ds2) /\
  forall x, lookup_at (ds1 ++ d :: ds2) x =
    upd (lookup_at (ds1 ++ ds2)) (d_addr d) (d_sz d) (Some (d_type d)) x.
Proof.
  intros Ho He Hz Hl H2. pose proof Ho as [H1 _]%ordered_app. split.
  - apply ordered_app. split; [done |]. simpl. auto.
  - intros x. rewrite (lookup_mid 0 ds1 ds2 [d]) by (simpl; auto). unfold upd. simpl. fold (covers d x).
    by destruct (covers d x).
Qed.


(** ** The operations refine the reference definitions *)

Lemma at_item A l1 a d l2 : ListSpec.wf A -> busy A = l1 ++ (a, d) :: l2 ->
  (a =? 0) = false /\ a ∉ items l1 /\ deref A a = Ok d /\ prev A a = Ok (last_from 0 l1) /\
  next A a = Ok (first_it l2) /\
  (forall d', store A a d' = MkA (l1 ++ (a, d') :: l2) (free A)) /\
  (forall d', ListSpec.wf (MkA (l1 ++ (a, d') :: l2) (free A))).
Proof.
  intros W E. assert (Hn : a ∉ items l1 /\ a <> 0).
  { destruct W as [N Nz]. rewrite E, items_app in N, Nz. simpl in N, Nz.
    rewrite <- app_assoc, <- app_comm_cons in N, Nz.
    rewrite <- Permutation_middle in N, Nz. apply NoDup_cons in N as [N _].
    apply Forall_cons in Nz as [Nz _]. set_solver. }
  destruct Hn as [Hn Hz]. unfold deref, prev, next, store. rewrite E.
  rewrite find_it_at, prev_it_at, next_it_at by done. split_and!; auto.
  - by apply Z.eqb_neq.
  - intros d'. by rewrite update_it_at.
  - intros d'. apply (wf_perm A); [| done]. rewrite E. simpl.
    rewrite !items_app. reflexivity.
Qed.

Lemma last_from_snoc z l a d : last_from z (l ++ [(a, d)]) = a.
Proof. revert z. induction l as [|[b e] t IH]; intros z; simpl; auto. Qed.

(** The insertion step used by both modes. *)
Lemma plain_insert A l1 l2 d : ListSpec.wf A -> busy A = l1 ++ l2 -> free A <> [] ->
  exists A', (if negb (first_it l2 =? 0) then '(_, A') ← insert_before A (first_it l2) d; Ok A'
              else push_back A d) = Ok A' /\ ListSpec.wf A' /\
    exists f, free A = f :: free A' /\ busy A' = l1 ++ (f, d) :: l2.
Proof.
  intros W E Hf. destruct (free A) as [|f fs] eqn:Ef; [done |].
  assert (W' : ListSpec.wf (MkA (l1 ++ (f, d) :: l2) fs)).
  { apply (wf_perm A); [| done]. rewrite E, Ef. simpl. rewrite !items_app. simpl. solve_Permutation. }
  destruct l2 as [|[a p] t]; simpl.
  - unfold push_back, take_free. rewrite Ef. simpl. rewrite E, app_nil_r. rewrite app_nil_r in E.
    eexists. split_and!; [reflexivity | done | eauto].
  - destruct (at_item A l1 a p t W E) as (Hz & Hn & _). rewrite Hz. simpl.
    unfold insert_before, insert_at, take_free. rewrite Ef. simpl.
    assert (Hne : busy A <> []) by (rewrite E; by destruct l1).
    rewrite E in Hne |- *. destruct (l1 ++ (a, p) :: t) as [|b0 l0] eqn:El; [done |]. rewrite <- El.
    rewrite find_it_at, before_it_at by done. simpl. eexists. split_and!; [reflexivity | done | eauto].
Qed.

(** One step of add() in Combine mode: the neighbours that join. *)
Lemma joins_u32 (a b : desc T) : d_addr a + d_sz a < 2 ^ 32 -> 0 <= d_addr a -> 0 < d_sz a ->
  (u32 (d_addr a + d_sz a) =? d_addr b) && rt_eqb (d_type a) (d_type b) = joins a b.
Proof. intros. rewrite wrap_small by (unfold in_range; lia). done. Qed.

Lemma snoc_cases l : l = [] \/ exists l' q dq, l = l' ++ [(q, dq)].
Proof. destruct l as [|[q dq] l' _] using rev_ind; [by left | right; eauto]. Qed.

Section AddAt.
Context (A : space) (l1 l2 : list (Z * desc T)) (addr sz : Z) (type : T).
Context (W : ListSpec.wf A) (Eb : busy A = l1 ++ l2).
Context (Ho : ordered 0 (vals l1 ++ vals l2)) (Hsz : 0 < sz) (Hend : addr + sz < 2 ^ 32).
Context (H1 : end_of 0 (vals l1) <= addr) (H2 : ordered (addr + sz) (vals l2)).
Context (Hf : free A <> []).

Lemma addr_nonneg : 0 <= addr.
Proof. apply ordered_app in Ho as [Ho1 _]. pose proof (end_of_ge _ _ Ho1). lia. Qed.

Lemma end_u32 : u32 (addr + sz) = addr + sz.
Proof. pose proof addr_nonneg. apply wrap_small. unfold in_range. lia. Qed.

(** The assertions of add() hold. *)
Lemma add_next_ok : (if first_it l2 =? 0 then Ok true
    else p ← deref A (first_it l2); Ok (u32 (addr + sz) <=? d_addr p)) = Ok true.
Proof.
  rewrite end_u32. destruct l2 as [|[a p] t]; simpl; [done |].
  destruct (at_item _ _ _ _ _ W Eb) as (-> & _ & -> & _).
  simpl. simpl in H2. by rewrite (proj2 (Z.leb_le _ _)) by lia.
Qed.

(** The region before the position ends at or below [addr]. *)
Lemma prev_desc l q dq : l1 = l ++ [(q, dq)] ->
  0 <= d_addr dq /\ 0 < d_sz dq /\ d_addr dq + d_sz dq < 2 ^ 32 /\ d_addr dq + d_sz dq <= addr /\
  (q =? 0) = false /\ deref A q = Ok dq /\ last_from 0 l1 = q.
Proof.
  intros El. rewrite El in *. rewrite vals_app, end_of_app in H1. simpl in H1.
  rewrite vals_app, <- app_assoc in Ho. apply ordered_app in Ho as [Ho1 Ho2]. simpl in Ho2.
  pose proof (end_of_ge _ _ Ho1). rewrite <- app_assoc in Eb.
  destruct (at_item _ _ _ _ _ W Eb) as (? & _ & ? & _). rewrite last_from_snoc. split_and!; auto; lia.
Qed.

Lemma add_prev_ok :
  (if (first_it l2 =? begin A) || empty A then Ok true
   else if first_it l2 =? 0 then b ← deref A (last A); Ok (d_end b <=? addr)
   else q ← prev A (first_it l2); d ← deref A q; Ok (d_end d <=? addr)) = Ok true.
Proof.
  unfold begin, empty, size, last, last_it. rewrite Eb.
  destruct (snoc_cases l1) as [-> | (l & q & dq & El)]; [simpl; by rewrite Z.eqb_refl |].
  destruct (prev_desc l q dq El) as (? & ? & ? & ? & Hq & Dq & Lq).
  assert (Hd : (d_end dq <=? addr) = true).
  { unfold d_end. rewrite wrap_small by (unfold in_range; lia). apply Z.leb_le. lia. }
  destruct (_ || _); [done |]. destruct l2 as [|[a p] t]; simpl.
  - rewrite app_nil_r, Lq, Dq. simpl. by rewrite Hd.
  - destruct (at_item _ _ _ _ _ W Eb) as (-> & _ & _ & -> & _). simpl. rewrite Lq, Dq. simpl. by rewrite Hd.
Qed.

Abbreviation d0 := (MkDesc addr sz type).

(** Extending the region before the position over the new one (and [extra]
    more bytes). *)
Lemma store_prev l q dq extra : l1 = l ++ [(q, dq)] -> 0 <= extra ->
  d_addr dq + d_sz dq = addr -> addr + sz + extra < 2 ^ 32 ->
  store A q (MkDesc (d_addr dq) (u32 (d_sz dq + (sz + extra))) (d_type dq)) =
  MkA (l ++ (q, MkDesc (d_addr dq) (d_sz dq + (sz + extra)) (d_type dq)) :: l2) (free A).
Proof.
  intros El Hx Hj Hlt. destruct (prev_desc l q dq El) as (? & ? & ? & ? & _).
  rewrite wrap_small by (unfold in_range; lia). rewrite El, <- app_assoc in Eb.
  by destruct (at_item _ _ _ _ _ W Eb) as (_ & _ & _ & _ & _ & -> & _).
Qed.

(** Combine: the last region may grow over the new one. *)
Lemma combine_last : l2 = [] ->
  exists A',
    (cont ← (if last A =? 0 then Ok false
             else d ← deref A (last A);
                  Ok ((u32 (d_addr d + d_sz d) =? addr) && rt_eqb (d_type d) type));
     if cont : bool then
       d ← deref A (last A);
       Ok (store A (last A) (MkDesc (d_addr d) (u32 (d_sz d + sz)) (d_type d)))
     else push_back A d0) = Ok A' /\ ListSpec.wf A' /\ vals (busy A') = join_prev (vals l1) [d0].
Proof.
  intros E2. destruct (plain_insert A l1 l2 d0 W Eb Hf) as (Ai & Ei & Wi & fi & Efi & Ebi).
  rewrite E2 in Ei, Ebi. simpl in Ei. unfold last, last_it. rewrite Eb, E2, app_nil_r.
  destruct (snoc_cases l1) as [El | (l & q & dq & El)].
  - rewrite El in *. simpl. exists Ai. rewrite Ebi. auto.
  - destruct (prev_desc l q dq El) as (? & ? & ? & ? & Hq & Dq & Lq).
    rewrite Lq, Hq, Dq. simpl. rewrite El, vals_app. simpl. rewrite join_prev_snoc. simpl.
    pose proof (joins_u32 dq d0 ltac:(lia) ltac:(lia) ltac:(lia)) as Hj. simpl in Hj. rewrite Hj.
    destruct (joins dq d0) eqn:J.
    + pose proof J as [Ja _]%andb_true_iff. apply Z.eqb_eq in Ja. simpl in Ja. simpl.
      replace (d_sz dq + sz) with (d_sz dq + (sz + 0)) by lia.
      rewrite (store_prev l q dq 0 El) by lia. eexists. split; [reflexivity |]. simpl. split.
      * pose proof Eb as Eb'. rewrite El, <- app_assoc in Eb'. by apply (at_item _ _ _ _ _ W Eb').
      * rewrite vals_app. unfold join. simpl. rewrite Z.add_0_r, E2. done.
    + exists Ai. split_and!; auto. rewrite Ebi, El, !vals_app, <- app_assoc. done.
Qed.

(** Combine before an existing region: it may join the new region on either
    side. *)
Lemma combine_pos a p t : l2 = (a, p) :: t ->
  exists A',
    (pv ← prev A a;
     prev_cont ← (if pv =? 0 then Ok false
                  else d ← deref A pv;
                       Ok ((u32 (d_addr d + d_sz d) =? addr) && rt_eqb (d_type d) type));
     if joins d0 p && prev_cont then
       d ← deref A pv;
       '(_, A') ← erase (store A pv (MkDesc (d_addr d) (u32 (d_sz d + (sz + d_sz p))) (d_type d))) a;
       Ok A'
     else if joins d0 p then
       Ok (store A a (MkDesc (u32 (d_addr p - sz)) (u32 (d_sz p + sz)) (d_type p)))
     else if prev_cont : bool then
       d ← deref A pv;
       Ok (store A pv (MkDesc (d_addr d) (u32 (d_sz d + sz)) (d_type d)))
     else '(_, A') ← insert_before A a d0; Ok A') = Ok A' /\
    ListSpec.wf A' /\ vals (busy A') = join_prev (vals l1) (join_next d0 (vals l2)).
Proof.
  intros E2. pose proof addr_nonneg. destruct (plain_insert A l1 l2 d0 W Eb Hf) as (Ai & Ei & Wi & fi & Efi & Ebi).
  rewrite E2 in Ei, Ebi. simpl in Ei. pose proof Eb as Eb'. rewrite E2 in Eb'.
  destruct (at_item _ _ _ _ _ W Eb') as (Ha & Hna & Da & Pa & Na & Sa & Wa). rewrite Ha in Ei. simpl in Ei.
  assert (Hp : addr + sz <= d_addr p /\ 0 < d_sz p /\ d_addr p + d_sz p < 2 ^ 32).
  { rewrite E2 in H2. simpl in H2. tauto. }
  (* the new region and the one at the position as one *)
  assert (Sp : joins d0 p = true ->
    store A a (MkDesc (u32 (d_addr p - sz)) (u32 (d_sz p + sz)) (d_type p)) =
    MkA (l1 ++ (a, join d0 p) :: t) (free A)).
  { unfold joins, join. simpl. rewrite andb_true_iff, Z.eqb_eq. intros [Ea Et].
    destruct (rt_eqb_spec type (d_type p)) as [Ty|]; [| done]. rewrite <- Ty, Sa.
    rewrite !wrap_small by (unfold in_range; lia). do 5 f_equal; lia. }
  rewrite Pa. simpl. destruct (snoc_cases l1) as [El | (l & q & dq & El)].
  - rewrite El. simpl. rewrite andb_false_r. rewrite E2. simpl. destruct (joins d0 p) eqn:J.
    + rewrite Sp by done. eexists. split_and!; [reflexivity | apply Wa |]. rewrite El. done.
    + exists Ai. rewrite Ebi, El. auto.
  - destruct (prev_desc l q dq El) as (? & ? & ? & ? & Hq & Dq & Lq).
    rewrite Lq, Hq, Dq. simpl. rewrite El, vals_app. simpl. rewrite join_prev_snoc, E2. simpl.
    pose proof (joins_u32 dq d0 ltac:(lia) ltac:(lia) ltac:(lia)) as Hj. simpl in Hj. rewrite Hj.
    pose proof Eb as Eq. rewrite El, <- app_assoc in Eq. simpl in Eq.
    assert (Hjq : joins dq (join d0 p) = joins dq d0) by done.
    destruct (joins d0 p) eqn:J; simpl.
    + rewrite Hjq. pose proof J as [Ja _]%andb_true_iff. apply Z.eqb_eq in Ja. simpl in Ja.
      destruct (joins dq d0) eqn:Jq; simpl.
      * pose proof Jq as [Jqa _]%andb_true_iff. apply Z.eqb_eq in Jqa. simpl in Jqa.
        rewrite (store_prev l q dq (d_sz p) El) by lia.
        set (A1 := MkA _ _).
        assert (W1 : ListSpec.wf A1) by (apply (at_item _ _ _ _ _ W Eq)).
        assert (E1 : busy A1 = (l ++ [(q, MkDesc (d_addr dq) (d_sz dq + (sz + d_sz p)) (d_type dq))]) ++ (a, p) :: t).
        { unfold A1. simpl. by rewrite E2, <- app_assoc. }
        destruct (at_item _ _ _ _ _ W1 E1) as (_ & Hn1 & _ & _ & Nx & _ & _).
        unfold erase. rewrite Nx. unfold empty, size. rewrite E1.
        replace (Nat.eqb _ 0) with false by (rewrite !length_app; simpl; symmetry; apply Nat.eqb_neq; lia).
        simpl. rewrite remove_it_at by done. eexists. split_and!; [reflexivity | |].
        -- apply (wf_perm A1); [| done]. rewrite E1. simpl. rewrite !items_app. simpl. solve_Permutation.
        -- simpl. rewrite !vals_app, <- app_assoc. done.
      * rewrite Sp by done. eexists. split_and!; [reflexivity | apply Wa |]. simpl.
        rewrite El, !vals_app, <- app_assoc. done.
    + destruct (joins dq d0) eqn:Jq; simpl.
      * pose proof Jq as [Jqa _]%andb_true_iff. apply Z.eqb_eq in Jqa. simpl in Jqa.
        replace (d_sz dq + sz) with (d_sz dq + (sz + 0)) by lia.
        rewrite (store_prev l q dq 0 El) by lia. eexists. split; [reflexivity |].
        split; [apply (at_item _ _ _ _ _ W Eq) |]. simpl. rewrite vals_app, E2. unfold join. simpl.
        by rewrite Z.add_0_r.
      * exists Ai. split_and!; auto. rewrite Ebi, El, !vals_app, <- app_assoc. done.
Qed.

(** add(pos, ...) computes [merge]. *)
Lemma add_at_merge mode : exists A', add_at A (first_it l2) addr sz type mode = Ok A' /\
  ListSpec.wf A' /\ vals (busy A') = merge mode (vals l1) d0 (vals l2) /\
  (mode = NotCombine -> exists f, free A = f :: free A' /\ busy A' = l1 ++ (f, d0) :: l2).
Proof.
  unfold add_at. rewrite add_next_ok, add_prev_ok. simpl. destruct mode.
  - assert (Hc : l2 = [] \/ exists a p t, l2 = (a, p) :: t).
    { destruct l2 as [|[a p] t]; [by left | right; eauto]. }
    destruct Hc as [E2 | (a & p & t & E2)].
    + destruct (combine_last E2) as (A' & E' & W' & V').
      rewrite E2. simpl. rewrite E'. exists A'. split_and!; done.
    + destruct (combine_pos a p t E2) as (A' & E' & W' & V').
      pose proof Eb as Eb'. rewrite E2 in Eb'.
      destruct (at_item _ _ _ _ _ W Eb') as (Ha & _ & Da & _).
      replace (first_it l2) with a by (by rewrite E2). rewrite Ha. simpl. rewrite Da. simpl.
      pose proof (joins_u32 d0 p) as Hj. simpl in Hj. rewrite Hj by (pose proof addr_nonneg; lia).
      rewrite E'. exists A'. split_and!; done.
  - destruct (plain_insert A l1 l2 d0 W Eb Hf) as (Ai & Ei & Wi & fi & Efi & Ebi). rewrite Ei.
    exists Ai. split_and!; auto; [| eauto]. rewrite Ebi, vals_app. done.
Qed.

Lemma add_at_spec mode : exists A', add_at A (first_it l2) addr sz type mode = Ok A' /\ inv A' /\
  (forall x, view A' x = upd (view A) addr sz (Some type) x) /\
  (forall P, weight P (vals (busy A')) = weight P (vals (busy A)) + (if P type then sz else 0)) /\
  (mode = NotCombine -> exists f, free A = f :: free A' /\ busy A' = l1 ++ (f, d0) :: l2).
Proof.
  destruct (add_at_merge mode) as (A' & E' & W' & V' & N').
  destruct (gap_insert (vals l1) d0 (vals l2)) as [O L]; auto.
  destruct (merge_same 0 mode (vals l1) d0 (vals l2)) as (S1 & S2 & S3).
  exists A'. unfold inv, view. rewrite V', Eb, vals_app. split_and!; auto.
  - intros x. rewrite S2 by done. apply L.
  - intros P. rewrite S3, !weight_app. simpl. destruct (P type); lia.
Qed.

End AddAt.

(** Replacing a region by the pieces left of it after a cut. *)
Lemma cut_view ds1 p ds2 pieces addr sz : ordered 0 (ds1 ++ p :: ds2) ->
  d_addr p <= addr -> 0 < sz -> addr + sz <= d_addr p + d_sz p ->
  ordered (d_addr p) pieces ->
  (forall x, lookup_at pieces x = upd (lookup_at [p]) addr sz None x) ->
  forall x, lookup_at (ds1 ++ pieces ++ ds2) x = upd (lookup_at (ds1 ++ p :: ds2)) addr sz None x.
Proof.
  intros Ho Ha Hz He Hp Hv x. pose proof Ho as Ho'. apply ordered_app in Ho' as [H1 (H2 & H3 & H4 & H5)].
  assert (Hg : ordered 0 (ds1 ++ ds2)).
  { apply ordered_app. split; [done |]. eapply ordered_mono; [| exact H5]. lia. }
  unfold upd. rewrite (lookup_mid 0 ds1 ds2 pieces); [| done | by eapply ordered_mono].
  change (ds1 ++ p :: ds2) with (ds1 ++ [p] ++ ds2).
  rewrite (lookup_mid 0 ds1 ds2 [p]) by (simpl; auto). rewrite Hv. unfold upd.
  destruct (Z.leb_spec addr x), (Z.ltb_spec x (addr + sz)); simpl; try done.
  rewrite lookup_at_app, (lookup_above 0), (lookup_below (d_addr p + d_sz p)) by (done || lia). done.
Qed.

(** What remove() leaves around the removed piece. *)
Record removed A (p : desc T) (addr sz : Z) A' l1 l2 : Prop := {
  rm_wf : ListSpec.wf A';
  rm_busy : busy A' = l1 ++ l2;
  rm_ordered : ordered 0 (vals l1 ++ vals l2);
  rm_before : end_of 0 (vals l1) <= addr;
  rm_after : ordered (addr + sz) (vals l2);
  rm_view : forall x, view A' x = upd (view A) addr sz None x;
  rm_weight : forall P, weight P (vals (busy A')) =
                        weight P (vals (busy A)) - (if P (d_type p) then sz else 0);
  rm_free : (length (free A) <= S (length (free A')))%nat;
}.

Lemma removed_pieces A l1 pos p l2 addr sz A' (k1 k2 : list (Z * desc T)) :
  busy A = l1 ++ (pos, p) :: l2 -> ordered 0 (vals (busy A)) -> 0 < sz ->
  d_addr p <= addr -> addr + sz <= d_addr p + d_sz p ->
  ListSpec.wf A' -> busy A' = (l1 ++ k1) ++ (k2 ++ l2) ->
  ordered (d_addr p) (vals k1) -> end_of (d_addr p) (vals k1) <= addr ->
  ordered (addr + sz) (vals k2) -> end_of (addr + sz) (vals k2) <= d_addr p + d_sz p ->
  (forall x, lookup_at (vals k1 ++ vals k2) x = upd (lookup_at [p]) addr sz None x) ->
  (forall P, weight P (vals k1) + weight P (vals k2) =
             (if P (d_type p) then d_sz p - sz else 0)) ->
  (length (free A) <= S (length (free A')))%nat ->
  removed A p addr sz A' (l1 ++ k1) (k2 ++ l2).
Proof.
  intros Eb Ho Hz Ha He W' Eb' O1 N1 O2 N2 Hv Hw Hfr. rewrite Eb, vals_app in Ho. simpl in Ho.
  pose proof Ho as [H1 (H2 & H3 & H4 & H5)]%ordered_app. fold (vals l2) in *.
  assert (A2 : ordered (addr + sz) (vals (k2 ++ l2))).
  { rewrite vals_app. apply ordered_app. split; [done |]. by eapply ordered_mono. }
  assert (E1 : end_of 0 (vals (l1 ++ k1)) <= addr).
  { rewrite vals_app, end_of_app. destruct (vals k1); simpl in *; [lia | done]. }
  assert (O12 : ordered 0 (vals (l1 ++ k1) ++ vals (k2 ++ l2))).
  { apply ordered_app. split; [| eapply ordered_mono; [| exact A2]; lia]. rewrite vals_app.
    apply ordered_app. split; [done | by eapply ordered_mono]. }
  constructor; auto.
  - intros x. unfold view. rewrite Eb, Eb', !vals_app.
    replace ((vals l1 ++ vals k1) ++ vals k2 ++ vals l2)
      with (vals l1 ++ (vals k1 ++ vals k2) ++ vals l2) by (by rewrite !app_assoc).
    apply cut_view; auto.
    cbn [snd]. apply ordered_app. split; [done |]. eapply ordered_mono; [| exact O2]. lia.
  - intros P. rewrite Eb, Eb', !vals_app, !weight_app. specialize (Hw P). simpl. fold (vals l2).
    destruct (P (d_type p)); lia.
Qed.

Local Ltac solve_pieces :=
  solve [ by rewrite app_nil_r | by rewrite <- app_assoc
        | intros x; unfold upd, covers; simpl; bit_cases; done
        | intros P; destruct (P _); lia
        | split_and!; lia || done
        | match goal with E : free _ = _ |- _ => rewrite E; simpl; lia end ].

Lemma remove_spec A l1 pos p l2 addr sz :
  ListSpec.wf A -> busy A = l1 ++ (pos, p) :: l2 -> ordered 0 (vals (busy A)) -> 0 < sz ->
  d_addr p <= addr -> addr + sz <= d_addr p + d_sz p -> free A <> [] ->
  exists A' l1' l2', remove A pos addr sz = Ok (first_it l2', A') /\ removed A p addr sz A' l1' l2'.
Proof.
  intros W Eb Ho Hz Ha He Hf. pose proof Ho as Ho'. rewrite Eb, vals_app in Ho'.
  simpl in Ho'. apply ordered_app in Ho' as [H1 (H2 & H3 & H4 & H5)]. pose proof (end_of_ge _ _ H1).
  destruct (at_item _ _ _ _ _ W Eb) as (Hp0 & Hn & Dp & _ & Nx & Sp & Wp).
  unfold remove. rewrite Hp0, Dp. cbn [negb wassert mbind res_bind].
  rewrite !(wrap_small 32 (addr + sz)), !(wrap_small 32 (d_addr p + d_sz p)) by (unfold in_range; lia).
  rewrite (proj2 (Z.leb_le (d_addr p) addr)), (proj2 (Z.leb_le (addr + sz) _)) by lia.
  cbn [andb wassert mbind res_bind].
  destruct (Z.eqb_spec (d_addr p) addr) as [Ea|Ea]; destruct (Z.eqb_spec (d_addr p + d_sz p) (addr + sz)) as [Ee|Ee];
    cbn [andb].
  - (* whole *)
    unfold erase. rewrite Nx. unfold empty, size. rewrite Eb.
    replace (Nat.eqb _ 0) with false by (rewrite !length_app; simpl; symmetry; apply Nat.eqb_neq; lia).
    cbn [negb wassert mbind res_bind]. rewrite remove_it_at by done.
    eexists _, (l1 ++ []), ([] ++ l2). split; [reflexivity |].
    eapply removed_pieces; eauto; simpl; try lia.
    all: try solve_pieces.
    apply (wf_perm A); [| done]. rewrite Eb. simpl. rewrite !items_app. simpl. solve_Permutation.
  - (* beginning *)
    rewrite Sp, !wrap_small by (unfold in_range; lia).
    eexists _, (l1 ++ []), ([(pos, MkDesc (d_addr p + sz) (d_sz p - sz) (d_type p))] ++ l2).
    split; [reflexivity |]. eapply removed_pieces; eauto; simpl; try lia.
    all: solve_pieces.
  - (* end *)
    rewrite Sp, !wrap_small by (unfold in_range; lia).
    set (A1 := MkA _ _). assert (W1 : ListSpec.wf A1) by apply Wp.
    destruct (at_item A1 l1 pos _ l2 W1 eq_refl) as (_ & _ & _ & _ & -> & _). simpl.
    eexists _, (l1 ++ [(pos, MkDesc (d_addr p) (d_sz p - sz) (d_type p))]), ([] ++ l2).
    split; [reflexivity |]. eapply removed_pieces; eauto; simpl; try lia.
    all: solve_pieces.
  - (* middle *)
    rewrite !wrap_small by (unfold in_range; lia).
    set (d1 := MkDesc (d_addr p) (addr - d_addr p) (d_type p)).
    destruct (plain_insert A l1 ((pos, p) :: l2) d1 W Eb Hf) as (A1 & E1 & W1 & f & Ef & Eb1).
    simpl in E1. rewrite Hp0 in E1. simpl in E1.
    destruct (insert_before A pos d1) as [[n A1']|] eqn:Ei; [| done]. simpl in E1 |- *. injection E1 as ->.
    replace (l1 ++ (f, d1) :: (pos, p) :: l2) with ((l1 ++ [(f, d1)]) ++ (pos, p) :: l2) in Eb1
      by (by rewrite <- app_assoc).
    destruct (at_item _ _ _ _ _ W1 Eb1) as (_ & _ & _ & _ & _ & S1 & Wp1). rewrite S1.
    eexists _, (l1 ++ [(f, d1)]), ([(pos, MkDesc (addr + sz) (d_addr p + d_sz p - (addr + sz)) (d_type p))] ++ l2).
    split; [reflexivity |]. eapply removed_pieces; eauto; simpl; try lia.
    all: solve_pieces.
Qed.

(** ** Searching *)

(** Range [addr, addr + sz) is unmapped. *)
Definition unmapped A (addr sz : Z) : Prop := forall x, addr <= x < addr + sz -> view A x = None.

Lemma seek_split addr l : exists l1, l = l1 ++ seek (fun d => addr <=? d_addr d) l /\
  Forall (fun d => d_addr d < addr) (vals l1) /\
  match seek (fun d => addr <=? d_addr d) l with (_, d) :: _ => addr <= d_addr d | [] => True end.
Proof.
  induction l as [|[a d] t (l1 & E & F & M)]; simpl; [by exists [] |].
  destruct (Z.leb_spec addr (d_addr d)); [by exists [] |].
  exists ((a, d) :: l1). split_and!; [simpl; by f_equal | by constructor | done].
Qed.

Lemma lookup_covered ds1 d ds2 x : ordered 0 (ds1 ++ d :: ds2) ->
  d_addr d <= x < d_addr d + d_sz d -> lookup_at (ds1 ++ d :: ds2) x = Some (d_type d).
Proof.
  intros Ho Hx. apply ordered_app in Ho as [H1 (H2 & _)]. rewrite lookup_at_app.
  rewrite (lookup_above 0) by (done || lia). simpl. unfold covers.
  rewrite (proj2 (Z.leb_le _ _)), (proj2 (Z.ltb_lt _ _)) by lia. done.
Qed.

(** Where the new region goes: what lies before and after the position. *)
Lemma gap_position l1 l2 addr sz : ordered 0 (vals (l1 ++ l2)) -> 0 <= addr -> 0 < sz ->
  Forall (fun d => d_addr d < addr) (vals l1) ->
  match l2 with (_, d) :: _ => addr <= d_addr d | [] => True end ->
  (forall x, addr <= x < addr + sz -> lookup_at (vals (l1 ++ l2)) x = None) ->
  end_of 0 (vals l1) <= addr /\ ordered (addr + sz) (vals l2).
Proof.
  intros Ho Ha Hz F M U. rewrite vals_app in *. split.
  - destruct (vals l1) as [|d t _] eqn:E using rev_ind; [done |]. rewrite end_of_app. simpl.
    apply Forall_app in F as [_ F]. apply Forall_cons in F as [F _].
    destruct (Z.le_gt_cases (d_addr d + d_sz d) addr); [done |]. exfalso.
    rewrite <- app_assoc in Ho, U. change ([d] ++ vals l2) with (d :: vals l2) in *.
    specialize (U addr ltac:(lia)).
    by rewrite (lookup_covered t d) in U by (done || lia).
  - pose proof Ho as [_ H2]%ordered_app. destruct l2 as [|[a d] t]; [done |]. simpl in *.
    destruct H2 as (? & ? & ? & ?). split; [| done].
    destruct (Z.le_gt_cases (addr + sz) (d_addr d)); [done |]. exfalso.
    specialize (U (d_addr d) ltac:(lia)). by rewrite (lookup_covered (vals l1) d) in U by (done || lia).
Qed.

(** A region before the position that ends above [addr] is refused. *)
Lemma add_at_cross A l1 l2 addr sz type mode : ListSpec.wf A -> busy A = l1 ++ l2 ->
  ordered 0 (vals (busy A)) -> addr < end_of 0 (vals l1) -> 0 <= addr ->
  add_at A (first_it l2) addr sz type mode = Stop FAssert.
Proof.
  intros W E Ho Hc Ha. destruct (snoc_cases l1) as [-> | (l & q & dq & El)]; [simpl in Hc; lia |].
  rewrite El, vals_app, end_of_app in Hc. simpl in Hc.
  assert (Eq : busy A = l ++ (q, dq) :: l2) by (by rewrite E, El, <- app_assoc).
  destruct (at_item _ _ _ _ _ W Eq) as (Hq & _ & Dq & _).
  assert (Hd : (d_end dq <=? addr) = false).
  { rewrite Eq, vals_app in Ho. simpl in Ho. apply ordered_app in Ho as [O1 (? & ? & ? & _)].
    pose proof (end_of_ge _ _ O1). unfold d_end.
    rewrite wrap_small by (unfold in_range; lia). apply Z.leb_gt. lia. }
  assert (Hb : (first_it l2 =? begin A) || empty A = false).
  { unfold begin, empty, size. rewrite Eq. apply orb_false_iff. split; last first.
    { rewrite length_app. simpl. apply Nat.eqb_neq. lia. }
    destruct W as [N Nz]. rewrite Eq, items_app in N, Nz. simpl in N, Nz. apply Z.eqb_neq.
    destruct l2 as [|[a d] t]; simpl in *.
    - destruct l as [|[b e] u]; simpl in *; apply Forall_cons in Nz as [Nz _]; done.
    - destruct l as [|[b e] u]; simpl in *; apply NoDup_cons in N as [N _]; set_solver. }
  unfold add_at. rewrite Hb. clear Hb. destruct l2 as [|[a d] t].
  - cbn [first_it]. rewrite Z.eqb_refl. cbn [wassert mbind res_bind]. unfold last, last_it.
    rewrite Eq, last_from_snoc, Dq. simpl. by rewrite Hd.
  - cbn [first_it]. pose proof E as E'. destruct (at_item _ _ _ _ _ W E') as (-> & _ & -> & -> & _).
    rewrite El, last_from_snoc. cbn [mbind res_bind]. destruct (_ <=? d_addr d); [| done].
    cbn [wassert mbind res_bind]. rewrite Dq. simpl. by rewrite Hd.
Qed.

Lemma unmapped_around l1 l2 addr sz : ordered 0 (vals (l1 ++ l2)) ->
  end_of 0 (vals l1) <= addr ->
  match l2 with (_, d) :: _ => addr + sz <= d_addr d | [] => True end ->
  forall x, addr <= x < addr + sz -> lookup_at (vals (l1 ++ l2)) x = None.
Proof.
  intros Ho He M x Hx. rewrite vals_app in *. apply ordered_app in Ho as [H1 H2].
  rewrite lookup_at_app, (lookup_above 0) by (done || lia).
  destruct l2 as [|[a d] t]; [done |]. apply (lookup_below (d_addr d)); [| lia].
  simpl in *. split; [lia | tauto].
Qed.

Definition contains d (addr sz : Z) : Prop := d_addr d <= addr /\ addr + sz <= d_addr d + d_sz d.

Lemma ordered_head_after lo d ds : ordered lo (d :: ds) ->
  Forall (fun d' => d_addr d + d_sz d <= d_addr d') ds.
Proof.
  intros (_ & _ & _ & Ho). revert Ho. generalize (d_addr d + d_sz d) as z.
  induction ds as [|d' t IH]; intros z; [done |]. intros (? & ? & ? & Ht). constructor; [done |].
  apply IH. eapply ordered_mono; [| exact Ht]. lia.
Qed.

Lemma ordered_start_unique lo ds1 d ds2 ds3 d' ds4 : ordered lo (ds1 ++ d :: ds2) ->
  ds1 ++ d :: ds2 = ds3 ++ d' :: ds4 -> d_addr d = d_addr d' -> d' = d.
Proof.
  revert lo ds3. induction ds1 as [|e t IH]; intros lo [|f u] Ho E Ha; simpl in *.
  - congruence.
  - injection E as -> ->. pose proof (ordered_head_after lo f (u ++ d' :: ds4) Ho) as Hh.
    apply Forall_app in Hh as [_ Hh]. apply Forall_cons in Hh as [Hh _]. simpl in Ho. lia.
  - injection E as -> <-. pose proof (ordered_head_after lo d' (t ++ d :: ds2) Ho) as Hh.
    apply Forall_app in Hh as [_ Hh]. apply Forall_cons in Hh as [Hh _]. simpl in Ho. lia.
  - injection E as <- E. destruct Ho as (_ & _ & _ & Ho). by eapply IH.
Qed.

Lemma find_piece_spec addr sz l : forall lo, ordered lo (vals l) -> 0 <= lo -> 0 <= addr -> 0 < sz ->
  addr + sz < 2 ^ 32 ->
  (find_piece addr sz l = 0 /\ Forall (fun d => ~ contains d addr sz) (vals l)) \/
  (exists l1 a d l2, l = l1 ++ (a, d) :: l2 /\ find_piece addr sz l = a /\ contains d addr sz).
Proof.
  induction l as [|[a d] t IH]; intros lo Ho Hlo Ha Hz He; [by left |].
  pose proof (ordered_head_after lo d (vals t) Ho) as Hh. destruct Ho as (Hl & Hd & Hde & Ht). simpl.
  unfold d_end. simpl in Hl, Hd, Hde, Ht. rewrite !wrap_small by (unfold in_range; lia).
  destruct (Z.leb_spec (d_addr d) addr) as [La|La]; destruct (Z.leb_spec (addr + sz) (d_addr d + d_sz d)) as [Le|Le];
    simpl; try (right; exists [], a, d, t; split_and!; [done.. | split; lia]).
  all: destruct (Z.leb_spec (addr + sz) (d_addr d)).
  all: try (left; split; [done |]; constructor; [unfold contains; lia |];
            eapply Forall_impl; [exact Hh |]; intros d' Hd'; cbn beta in *; unfold contains; lia).
  all: destruct (IH _ Ht ltac:(lia) Ha Hz He) as [[E F] | (l1 & b & e & l2 & -> & E & C)];
    [left; split; [done |]; constructor; [unfold contains; lia | done]
    | right; exists ((a, d) :: l1), b, e, l2; split_and!; [reflexivity | exact E | exact C]].
Qed.

Lemma contained_view A addr sz l1 a d l2 : inv A -> busy A = l1 ++ (a, d) :: l2 ->
  contains d addr sz -> forall x, addr <= x < addr + sz -> view A x = Some (d_type d).
Proof.
  intros [_ Ho] E [C1 C2] x Hx. unfold view. rewrite E, vals_app in *. apply lookup_covered; [done | simpl; lia].
Qed.

Lemma upd_upd (f : Z -> option T) addr sz u v x : upd (upd f addr sz u) addr sz v x = upd f addr sz v x.
Proof. unfold upd. by destruct (_ && _). Qed.

(** remove() followed by add() at the position it returns. *)
Lemma retype_spec A l1 pos p l2 addr sz type mode : inv A -> busy A = l1 ++ (pos, p) :: l2 ->
  0 <= addr -> 0 < sz -> addr + sz < 2 ^ 32 -> contains p addr sz -> (2 <= length (free A))%nat ->
  exists it A1 A', remove A pos addr sz = Ok (it, A1) /\ add_at A1 it addr sz type mode = Ok A' /\
    inv A' /\ (forall x, view A' x = upd (view A) addr sz (Some type) x) /\
    (forall P, weight P (vals (busy A')) = weight P (vals (busy A)) -
       (if P (d_type p) then sz else 0) + (if P type then sz else 0)) /\
    (mode = NotCombine -> (length (free A) <= S (S (length (free A'))))%nat /\
       exists k1 f k2, busy A' = k1 ++ (f, MkDesc addr sz type) :: k2).
Proof.
  intros [W Ho] E Ha Hz He [C1 C2] Hf.
  destruct (remove_spec A l1 pos p l2 addr sz) as (A1 & k1 & k2 & Er & R); auto.
  { destruct (free A); [simpl in Hf; lia | done]. }
  destruct (add_at_spec A1 k1 k2 addr sz type (rm_wf _ _ _ _ _ _ _ R) (rm_busy _ _ _ _ _ _ _ R)
    (rm_ordered _ _ _ _ _ _ _ R) Hz He (rm_before _ _ _ _ _ _ _ R) (rm_after _ _ _ _ _ _ _ R)) with (mode := mode)
    as (A' & Ea & I' & V' & Wt' & N').
  { pose proof (rm_free _ _ _ _ _ _ _ R). destruct (free A1); [simpl in *; lia | done]. }
  exists (first_it k2), A1, A'. split_and!; auto.
  - intros x. rewrite V'. unfold upd at 1. rewrite (rm_view _ _ _ _ _ _ _ R).
    fold (upd (upd (view A) addr sz None) addr sz (Some type) x). apply upd_upd.
  - intros P. rewrite Wt', (rm_weight _ _ _ _ _ _ _ R). lia.
  - intros Hm. destruct (N' Hm) as (f & Ef & ?). pose proof (rm_free _ _ _ _ _ _ _ R). rewrite Ef in *. simpl in *.
    split; [lia | eauto].
Qed.

Lemma set_type_spec A l1 pos p l2 addr sz type mode : inv A -> busy A = l1 ++ (pos, p) :: l2 ->
  0 <= addr -> 0 < sz -> addr + sz < 2 ^ 32 -> contains p addr sz -> (2 <= length (free A))%nat ->
  d_type p <> type ->
  exists A', set_type A pos addr sz type mode = Ok A' /\
    inv A' /\ (forall x, view A' x = upd (view A) addr sz (Some type) x) /\
    (forall P, weight P (vals (busy A')) = weight P (vals (busy A)) -
       (if P (d_type p) then sz else 0) + (if P type then sz else 0)) /\
    (mode = NotCombine -> (length (free A) <= S (S (length (free A'))))%nat /\
       exists k1 f k2, busy A' = k1 ++ (f, MkDesc addr sz type) :: k2).
Proof.
  intros I E Ha Hz He C Hf Ht.
  destruct (retype_spec A l1 pos p l2 addr sz type mode) as (it & A1 & A' & Er & Ea & H'); auto.
  exists A'. split; [| exact H']. destruct I as [W Ho]. destruct C as [C1 C2].
  destruct (at_item _ _ _ _ _ W E) as (Hp & _ & Dp & _).
  rewrite E, vals_app in Ho. simpl in Ho. apply ordered_app in Ho as [_ (? & ? & ? & _)].
  unfold set_type. rewrite Hp, Dp. simpl.
  rewrite !wrap_small by (unfold in_range; lia).
  rewrite (proj2 (Z.leb_le (d_addr p) addr)), (proj2 (Z.leb_le (addr + sz) _)) by lia. simpl.
  destruct (rt_eqb_spec (d_type p) type); [done |]. simpl. rewrite Er. simpl. done.
Qed.

(** insert_loop finds the containing region or the gap position. *)
Lemma insert_loop_spec addr sz l : forall lo, ordered lo (vals l) -> 0 <= lo -> 0 <= addr -> 0 < sz ->
  addr + sz < 2 ^ 32 ->
  (exists l1 a d l2, l = l1 ++ (a, d) :: l2 /\ contains d addr sz /\
     insert_loop addr sz l = Ok (a, true)) \/
  (Forall (fun d => ~ contains d addr sz) (vals l) /\
   exists l1 l2, l = l1 ++ l2 /\ Forall (fun d => d_addr d < addr) (vals l1) /\
     match l2 with (_, d) :: _ => addr <= d_addr d | [] => True end /\
     insert_loop addr sz l =
       (if match l2 with (_, d) :: _ => d_addr d <? addr + sz | [] => false end
        then Stop FPanic else Ok (first_it l2, false))).
Proof.
  induction l as [|[a d] t IH]; intros lo Ho Hlo Ha Hz He.
  { right. split; [constructor |]. exists [], []. split_and!; done. }
  pose proof (ordered_head_after lo d (vals t) Ho) as Hh. destruct Ho as (Hl & Hd & Hde & Ht). simpl.
  unfold d_end. simpl in Hl, Hd, Hde, Ht. rewrite !wrap_small by (unfold in_range; lia).
  destruct ((d_addr d <=? addr) && (addr + sz <=? d_addr d + d_sz d)) eqn:Ec.
  { left. exists [], a, d, t. apply andb_true_iff in Ec as [?%Z.leb_le ?%Z.leb_le]. split_and!; done. }
  assert (Hnc : ~ contains d addr sz).
  { intros [?%Z.leb_le ?%Z.leb_le]. by rewrite H0, H1 in Ec. }
  destruct (Z.leb_spec addr (d_addr d)).
  - right. split.
    + constructor; [done |]. eapply Forall_impl; [exact Hh |].
      intros d' Hd'. cbn beta in *. unfold contains. lia.
    + exists [], ((a, d) :: t). split_and!; [done.. |]. simpl. by destruct (_ <? _).
  - destruct (IH _ Ht ltac:(lia) Ha Hz He) as [(l1 & b & e & l2 & -> & C & E) | (F & l1 & l2 & -> & F1 & M & E)].
    + left. exists ((a, d) :: l1), b, e, l2. done.
    + right. split; [by constructor |]. exists ((a, d) :: l1), l2. split_and!; try done. by constructor.
Qed.

Section Client.
Context (A : space) (addr sz : Z) (type : T) (mode : mode_t).
Context (Hinv : inv A) (Ha : 0 <= addr) (Hsz : 0 < sz) (Hend : addr + sz < 2 ^ 32).

Lemma add_unfold : exists l1 l2, busy A = l1 ++ l2 /\ Forall (fun d => d_addr d < addr) (vals l1) /\
  match l2 with (_, d) :: _ => addr <= d_addr d | [] => True end /\
  add A addr sz type mode =
    (if match l2 with (_, d) :: _ => d_addr d <? addr + sz | [] => false end then Stop FPanic
     else add_at A (first_it l2) addr sz type mode).
Proof.
  destruct Hinv as [W Ho]. destruct (seek_split addr (busy A)) as (l1 & E & F & M). unfold add.
  set (l2 := seek _ (busy A)) in *. clearbody l2. exists l1, l2. split_and!; auto.
  rewrite (wrap_small 32 (addr + sz)) by (unfold in_range; lia).
  destruct l2 as [|[a d] t]; simpl; [done |]. by destruct (at_item _ _ _ _ _ W E) as (-> & _ & -> & _).
Qed.

Lemma add_unmapped : free A <> [] -> unmapped A addr sz ->
  exists A', add A addr sz type mode = Ok A' /\ inv A' /\
    forall x, view A' x = upd (view A) addr sz (Some type) x.
Proof.
  intros Hf U. destruct add_unfold as (l1 & l2 & E & F & M & ->). destruct Hinv as [W Ho].
  rewrite E in Ho. unfold unmapped, view in U. rewrite E in U.
  destruct (gap_position l1 l2 addr sz) as [G1 G2]; auto. rewrite vals_app in Ho.
  replace (match l2 with (_, d) :: _ => d_addr d <? addr + sz | [] => false end) with false.
  - destruct (add_at_spec A l1 l2 addr sz type W E Ho Hsz Hend G1 G2 Hf mode) as (A' & ? & ? & ? & _). eauto.
  - destruct l2 as [|[a d] t]; [done |]. simpl in G2. symmetry. apply Z.ltb_ge. lia.
Qed.

(** [add] of a region into an unmapped range extends the map by exactly
    this range, in both modes, and keeps the regions ordered, disjoint and the
    list well formed; a region that touches a mapped byte is refused (panic
    or assertion), never silently accepted. *)
Theorem add_correct : free A <> [] ->
  (unmapped A addr sz ->
     exists A', add A addr sz type mode = Ok A' /\ inv A' /\
       forall x, view A' x = upd (view A) addr sz (Some type) x) /\
  (~ unmapped A addr sz -> exists f, add A addr sz type mode = Stop f).
Proof.
  intros Hf. split; [by apply add_unmapped |]. intros U.
  destruct add_unfold as (l1 & l2 & E & F & M & ->). destruct Hinv as [W Ho].
  destruct (match l2 with [] => false | _ => _ end) eqn:Em; [eauto |].
  exists FAssert. apply (add_at_cross A l1); auto.
  destruct (Z.lt_ge_cases addr (end_of 0 (vals l1))); [done |]. exfalso. apply U.
  intros x Hx. unfold view. rewrite E in *. apply (unmapped_around _ _ addr sz); auto.
  destruct l2 as [|[a d] t]; [done |]. by apply Z.ltb_ge in Em.
Qed.

Lemma free_piece_spec : free A <> [] ->
  (Exists (fun d => contains d addr sz) (vals (busy A)) ->
     exists A', free_piece A addr sz = Ok A' /\ inv A' /\
       forall x, view A' x = upd (view A) addr sz None x) /\
  (~ Exists (fun d => contains d addr sz) (vals (busy A)) -> free_piece A addr sz = Ok A).
Proof.
  intros Hf. destruct Hinv as [W Ho]. unfold free_piece, find_in.
  destruct (find_piece_spec addr sz (busy A) 0 Ho) as [[E F] | (l1 & a & d & l2 & E & Ef & C)]; try lia.
  - rewrite E. split; [| done]. intros Hx. exfalso. apply Forall_not_Exists in F. done.
  - rewrite Ef. split.
    + intros _. destruct (at_item _ _ _ _ _ W E) as (-> & _). simpl. destruct C.
      destruct (remove_spec A l1 a d l2 addr sz) as (A' & k1 & k2 & Er & R); auto.
      rewrite Er. simpl. exists A'. split_and!; auto; [| apply (rm_view _ _ _ _ _ _ _ R)].
      split; [apply (rm_wf _ _ _ _ _ _ _ R) |].
      rewrite (rm_busy _ _ _ _ _ _ _ R), vals_app. apply (rm_ordered _ _ _ _ _ _ _ R).
    + intros Hx. exfalso. apply Hx. rewrite E, vals_app. apply Exists_app. right. by apply Exists_cons_hd.
Qed.

(** [free(addr, sz)] unmaps exactly the given range when one region
    contains it, whatever part of the region it is, and otherwise changes
    nothing. *)
Theorem free_piece_correct : free A <> [] ->
  (Exists (fun d => contains d addr sz) (vals (busy A)) ->
     exists A', free_piece A addr sz = Ok A' /\ inv A' /\
       forall x, view A' x = upd (view A) addr sz None x) /\
  (~ Exists (fun d => contains d addr sz) (vals (busy A)) -> free_piece A addr sz = Ok A).
Proof. exact free_piece_spec. Qed.

Lemma insert_spec : (2 <= length (free A))%nat ->
  (forall d, d ∈ vals (busy A) -> contains d addr sz ->
     exists A', insert A addr sz type mode = Ok (rt_or type (d_type d), A') /\ inv A' /\
       forall x, view A' x = upd (view A) addr sz (Some (rt_or type (d_type d))) x) /\
  (unmapped A addr sz ->
     exists A', insert A addr sz type mode = Ok (type, A') /\ inv A' /\
       forall x, view A' x = upd (view A) addr sz (Some type) x) /\
  (~ unmapped A addr sz -> ~ Exists (fun d => contains d addr sz) (vals (busy A)) ->
     exists f, insert A addr sz type mode = Stop f).
Proof.
  intros Hf. pose proof Hinv as [W Ho]. unfold insert.
  destruct (insert_loop_spec addr sz (busy A) 0 Ho) as
    [(l1 & a & d & l2 & E & C & El) | (F & l1 & l2 & E & F1 & M & El)]; try lia; rewrite El.
  - assert (Hin : d ∈ vals (busy A)).
    { rewrite E, vals_app. set_solver. }
    assert (V : view A addr = Some (d_type d)) by (apply (contained_view A addr sz l1 a d l2); auto; lia).
    split_and!.
    + intros d' Hd' C'. assert (d_type d' = d_type d) as ->.
      { apply list_elem_of_split in Hd' as (ds1 & ds2 & Es). destruct C'. unfold view in V. rewrite Es in *.
        rewrite lookup_covered in V by (done || lia). congruence. }
      destruct (at_item _ _ _ _ _ W E) as (_ & _ & Da & _). simpl. rewrite Da. simpl.
      destruct (retype_spec A l1 a d l2 addr sz (rt_or type (d_type d)) mode)
        as (it & A1 & A' & Er & Ea & I' & V' & _); auto.
      rewrite Er. simpl. rewrite Ea. simpl. eauto.
    + intros U. specialize (U addr ltac:(lia)). congruence.
    + intros _ Hx. exfalso. apply Hx. rewrite E, vals_app. apply Exists_app. right. by apply Exists_cons_hd.
  - split_and!.
    + intros d Hd C. exfalso. rewrite Forall_forall in F. by apply (F d).
    + intros U. unfold unmapped, view in U. rewrite E in U. pose proof Ho as Ho'. rewrite E in Ho'.
      destruct (gap_position l1 l2 addr sz) as [G1 G2]; auto. rewrite vals_app in Ho'.
      replace (match l2 with (_, d) :: _ => d_addr d <? addr + sz | [] => false end) with false.
      * simpl. destruct (add_at_spec A l1 l2 addr sz type W E Ho' Hsz Hend G1 G2) with (mode := mode)
          as (A' & Ea & ? & ? & _); [destruct (free A); [simpl in *; lia | done] |].
        rewrite Ea. simpl. eauto.
      * destruct l2 as [|[a d] t]; [done |]. simpl in G2. symmetry. apply Z.ltb_ge. lia.
    + intros U _. destruct (match l2 with [] => false | _ => _ end) eqn:Em; [eauto |]. simpl.
      rewrite (add_at_cross A l1); auto; [eauto |].
      destruct (Z.lt_ge_cases addr (end_of 0 (vals l1))); [done |]. exfalso. apply U.
      intros x Hx. unfold view. rewrite E in *. apply (unmapped_around _ _ addr sz); auto.
      destruct l2 as [|[a d] t]; [done |]. by apply Z.ltb_ge in Em.
Qed.

(** [insert] of a range that one region contains gives the range the
    union of the new and the old type and returns it; a range that is unmapped
    is mapped with the new type; a range that is partly mapped, or mapped by
    several regions, is refused. *)
Theorem insert_correct : (2 <= length (free A))%nat ->
  (forall d, d ∈ vals (busy A) -> contains d addr sz ->
     exists A', insert A addr sz type mode = Ok (rt_or type (d_type d), A') /\ inv A' /\
       forall x, view A' x = upd (view A) addr sz (Some (rt_or type (d_type d))) x) /\
  (unmapped A addr sz ->
     exists A', insert A addr sz type mode = Ok (type, A') /\ inv A' /\
       forall x, view A' x = upd (view A) addr sz (Some type) x) /\
  (~ unmapped A addr sz -> ~ Exists (fun d => contains d addr sz) (vals (busy A)) ->
     exists f, insert A addr sz type mode = Stop f).
Proof. exact insert_spec. Qed.

End Client.

(** ** First fit *)

Lemma least_multiple_mono a m n r q : m <= n -> least_multiple a m r -> least_multiple a n q -> r <= q.
Proof. intros Hmn (_ & _ & Hr) (Hq & Hn & _). apply Hr; [done | lia]. Qed.

Lemma round_up_least n k : 0 <= k < 32 -> 0 <= n -> n + 2 ^ k <= 2 ^ 32 ->
  least_multiple (2 ^ k) n (round_up n (2 ^ k)).
Proof.
  intros Hk Hn Hl. pose proof (Z.pow_pos_nonneg 2 k ltac:(lia) ltac:(lia)). rewrite round_up_spec by lia.
  rewrite wrap_small by (unfold in_range; lia). by apply div_up_least.
Qed.

(** The loop over the regions that start inside the space: [cur] is the
    rounded end [e] of what was passed so far. *)
Lemma find_free_loop_spec sz k space_end : 0 <= k < 32 -> 0 < sz -> 0 <= space_end ->
  forall l e cur, ordered e (vals l) -> 0 < e -> e + sz + 2 ^ k <= 2 ^ 32 ->
  Forall (fun d => d_addr d + d_sz d + sz + 2 ^ k <= 2 ^ 32) (vals l) ->
  least_multiple (2 ^ k) e cur ->
  let r := find_free_loop sz (2 ^ k) space_end l cur in
  (r <> 0 -> cur <= r /\ (2 ^ k | r) /\ r + sz < 2 ^ 32) /\
  (r <> 0 -> r + sz <= space_end -> forall x, r <= x < r + sz -> lookup_at (vals l) x = None) /\
  (forall c, cur <= c -> (2 ^ k | c) -> c + sz <= space_end ->
     (forall x, c <= x < c + sz -> lookup_at (vals l) x = None) -> r <> 0 /\ r <= c).
Proof.
  intros Hk Hz Hs. pose proof (Z.pow_pos_nonneg 2 k ltac:(lia) ltac:(lia)) as Hp.
  induction l as [|[a d] t IH]; intros e cur Ho He Hl F Lm r; pose proof Lm as (Dv & Ge & Lst).
  all: assert (Hc : cur < e + 2 ^ k) by
    (destruct (Z.lt_ge_cases cur (e + 2 ^ k)); [done |];
     assert (cur <= cur - 2 ^ k); [apply Lst; [apply Z.divide_sub_r; [done | apply Z.divide_refl] | lia] | lia]).
  - subst r. simpl. split_and!; [| done |]; intros; split_and!; lia || done.
  - change (vals ((a, d) :: t)) with (d :: vals t) in *.
    destruct Ho as (Ha & Hd & Hde & Ht). apply Forall_cons in F as [Fd F]. cbn beta in Fd.
    subst r. cbn [find_free_loop]. rewrite !wrap_small by (unfold in_range; lia).
    destruct (Z.leb_spec space_end cur); simpl; [split_and!; [done | done | intros; lia] |].
    destruct (Z.ltb_spec space_end (cur + sz)); simpl; [split_and!; [done | done | intros; lia] |].
    destruct (Z.leb_spec (cur + sz) (d_addr d)).
    + split_and!; [intros _; split_and!; lia || done | |].
      * intros _ _ x Hx. apply (lookup_below (d_addr d) (d :: vals t)); [| lia]. simpl. split_and!; lia || done.
      * intros c Hcc _ _ _. split; lia.
    + assert (Lm' : least_multiple (2 ^ k) (d_addr d + d_sz d) (round_up (d_addr d + d_sz d) (2 ^ k)))
        by (apply round_up_least; lia).
      assert (Hcc : cur <= round_up (d_addr d + d_sz d) (2 ^ k)).
      { eapply least_multiple_mono; [| exact Lm | exact Lm']. lia. }
      destruct (IH (d_addr d + d_sz d) _ Ht ltac:(lia) ltac:(lia) F Lm') as (I1 & I2 & I3).
      set (r := find_free_loop _ _ _ t _) in *. destruct Lm' as (_ & Ge' & Lst').
      split_and!.
      * intros Hr. destruct (I1 Hr) as (? & ? & ?). split_and!; lia || done.
      * intros Hr Hre x Hx. simpl. unfold covers.
        assert (d_addr d + d_sz d <= r) by (destruct (I1 Hr) as (? & _); lia).
        destruct (Z.ltb_spec x (d_addr d + d_sz d)); [lia |]. rewrite andb_false_r. by apply I2.
      * intros c Hc1 Hc2 Hc3 Hc4. apply I3; auto.
        -- destruct (Z.le_gt_cases (d_addr d + d_sz d) c); [by apply Lst' |]. exfalso.
           specialize (Hc4 (Z.max c (d_addr d)) ltac:(lia)). simpl in Hc4. unfold covers in Hc4.
           rewrite (proj2 (Z.leb_le _ _)), (proj2 (Z.ltb_lt _ _)) in Hc4 by lia. done.
        -- intros x Hx. specialize (Hc4 x Hx). simpl in Hc4. by destruct (covers d x).
Qed.

(** Nothing in the space, and [sz] more bytes, reaches the top of the address
    space, and no region straddles [space_start]. *)
Record fits A (sz k space_start space_sz : Z) : Prop := {
  f_k : 0 <= k < 32;
  f_sz : 0 < sz;
  f_start : 0 < space_start;
  f_space : 0 <= space_sz;
  f_top : space_start + space_sz + sz + 2 ^ k <= 2 ^ 32;
  f_regions : Forall (fun d => d_addr d + d_sz d + sz + 2 ^ k <= 2 ^ 32) (vals (busy A));
  f_straddle : Forall (fun d => d_addr d < space_start -> d_addr d + d_sz d <= space_start) (vals (busy A));
}.

Lemma find_free_spec A sz k space_start space_sz : inv A -> fits A sz k space_start space_sz ->
  let r := find_free A sz (2 ^ k) space_start space_sz in
  (r <> 0 -> (2 ^ k | r) /\ space_start <= r /\ r + sz <= space_start + space_sz /\ unmapped A r sz) /\
  (forall c, (2 ^ k | c) -> space_start <= c -> c + sz <= space_start + space_sz -> unmapped A c sz ->
     r <> 0 /\ r <= c).
Proof.
  intros [W Ho] [Hk Hz Hst Hsp Htop F St]. pose proof (Z.pow_pos_nonneg 2 k ltac:(lia) ltac:(lia)) as Hp.
  unfold find_free. destruct (seek_split space_start (busy A)) as (l1 & E & F1 & M).
  set (rest := seek _ _) in *. clearbody rest. rewrite (wrap_small 32 (space_start + space_sz)) by (unfold in_range; lia).
  unfold unmapped, view. rewrite E, vals_app in *. pose proof Ho as [O1 O2]%ordered_app.
  apply Forall_app in F as [_ F]. apply Forall_app in St as [St _].
  assert (G1 : end_of 0 (vals l1) <= space_start).
  { destruct (vals l1) as [|d t _] using rev_ind; [simpl; lia |]. rewrite end_of_app. simpl.
    apply Forall_app in F1 as [_ F1]. apply Forall_cons in F1 as [F1 _].
    apply Forall_app in St as [_ St]. apply Forall_cons in St as [St _]. auto. }
  assert (O3 : ordered space_start (vals rest)).
  { destruct rest as [|[a d] t]; [done |]. simpl in *. split; [lia | tauto]. }
  assert (Lm : least_multiple (2 ^ k) space_start (round_up space_start (2 ^ k))) by (apply round_up_least; lia).
  destruct (find_free_loop_spec sz k (space_start + space_sz) Hk Hz ltac:(lia) rest space_start _ O3 Hst ltac:(lia) F Lm)
    as (I1 & I2 & I3).
  set (r := find_free_loop _ _ _ _ _) in *. destruct Lm as (_ & Ge & Lst).
  assert (Hl1 : forall x, space_start <= x -> lookup_at (vals l1 ++ vals rest) x = lookup_at (vals rest) x).
  { intros x Hx. rewrite lookup_at_app, (lookup_above 0) by (done || lia). done. }
  destruct (Z.eqb_spec r 0) as [R0|R0]; simpl.
  - rewrite R0 in *. split; [done |]. intros c C1 C2 C3 C4.
    destruct (I3 c); auto. intros x Hx. rewrite <- Hl1 by lia. auto.
  - assert (Hru : u32 (r + sz) = r + sz).
    { apply wrap_small. unfold in_range. destruct (I1 R0) as (? & _ & ?). lia. }
    rewrite Hru. destruct (Z.ltb_spec (space_start + space_sz) (r + sz)).
    + split; [done |]. intros c C1 C2 C3 C4. exfalso.
      destruct (I3 c); auto; [| lia]. intros x Hx. rewrite <- Hl1 by lia. auto.
    + split.
      * intros _. destruct (I1 R0) as (Hge & Hd & _).
        split_and!; [done | lia | lia |]. intros x Hx. rewrite Hl1 by lia. by apply I2.
      * intros c C1 C2 C3 C4. destruct (I3 c); auto. intros x Hx. rewrite <- Hl1 by lia. auto.
Qed.

Lemma alloc_spec A sz k type mode space_start space_sz :
  inv A -> fits A sz k space_start space_sz -> free A <> [] ->
  let ok c := (2 ^ k | c) /\ space_start <= c /\ c + sz <= space_start + space_sz /\ unmapped A c sz in
  (exists r A', alloc A sz (2 ^ k) type mode space_start space_sz = Ok (r, A') /\ r <> 0 /\ ok r /\
     (forall c, ok c -> r <= c) /\ inv A' /\
     forall x, view A' x = upd (view A) r sz (Some type) x) \/
  (alloc A sz (2 ^ k) type mode space_start space_sz = Ok (0, A) /\ forall c, ~ ok c).
Proof.
  intros I Ft Hf ok. destruct (find_free_spec A sz k space_start space_sz I Ft) as [S1 S2].
  unfold alloc. set (r := find_free _ _ _ _ _) in *. destruct (Z.eqb_spec r 0) as [E|E]; simpl.
  - right. split; [by rewrite E |]. intros c (? & ? & ? & ?). destruct (S2 c); auto.
  - left. destruct (S1 E) as (O1 & O2 & O3 & O4). destruct Ft as [? ? ? ? ? ? ?].
    pose proof (Z.pow_pos_nonneg 2 k ltac:(lia) ltac:(lia)).
    assert (Hadd : exists A', add A r sz type mode = Ok A' /\ inv A' /\
      forall x, view A' x = upd (view A) r sz (Some type) x).
    { apply add_unmapped; auto; lia. }
    destruct Hadd as (A' & Ea & I' & V'). rewrite Ea. exists r, A'.
    split_and!; auto; [by unfold ok |]. intros c (? & ? & ? & ?). by apply S2.
Qed.

(** [alloc] is first fit in a space that no region crosses at its start and in
    which no sum of addresses and sizes wraps around ([fits]; a region across
    the start of the space makes find_free go wrong): it returns the lowest
    aligned address of the space at which [sz] bytes are unmapped and maps
    exactly these bytes, and it returns 0 and changes nothing only when no such
    address exists. *)
Theorem alloc_correct A sz k type mode space_start space_sz :
  inv A -> fits A sz k space_start space_sz -> free A <> [] ->
  let ok c := (2 ^ k | c) /\ space_start <= c /\ c + sz <= space_start + space_sz /\ unmapped A c sz in
  (exists r A', alloc A sz (2 ^ k) type mode space_start space_sz = Ok (r, A') /\ r <> 0 /\ ok r /\
     (forall c, ok c -> r <= c) /\ inv A' /\
     forall x, view A' x = upd (view A) r sz (Some type) x) \/
  (alloc A sz (2 ^ k) type mode space_start space_sz = Ok (0, A) /\ forall c, ~ ok c).
Proof. apply alloc_spec. Qed.

End AddressSpace.

(** ** Aspace::Type: access rights and cacheability of a virtual region *)

Record vtype := MkVtype { acc : Z; cached : bool }.

Definition vtype_eqb (a b : vtype) : bool := (acc a =? acc b) && Bool.eqb (cached a) (cached b).
Definition vtype_or (a b : vtype) : vtype := MkVtype (Z.lor (acc a) (acc b)) (cached a).

#[global, program] Instance vtype_region : RegionType vtype :=
  {| rt_eqb := vtype_eqb; rt_or := vtype_or |}.
Next Obligation.
  intros [a c] [b d]. unfold vtype_eqb. simpl.
  destruct (Z.eqb_spec a b), (eqb_spec c d); simpl; constructor; congruence.
Qed.

(** A user space with two regions and two free items. *)
Definition sample : alist (desc vtype) :=
  MkA [(0x10, MkDesc 0x10000000 0x2000 (MkVtype 4 true));
       (0x20, MkDesc 0x10004000 0x1000 (MkVtype 6 true))] [0x30; 0x40].

Lemma sample_inv : inv sample.
Proof.
  split; [| vm_compute; intuition congruence]. split; [| repeat constructor; done].
  simpl. repeat (apply NoDup_cons; split; [set_solver by lia |]). apply NoDup_nil. done.
Qed.

Lemma sample_unmapped : unmapped sample 0x10002000 0x2000.
Proof.
  intros x Hx. unfold view. simpl. unfold covers. simpl. bit_cases; done.
Qed.

Lemma add_correct_witness :
  exists A', add sample 0x10002000 0x2000 (MkVtype 4 true) Combine = Ok A' /\ inv A' /\
    forall x, view A' x = upd (view sample) 0x10002000 0x2000 (Some (MkVtype 4 true)) x.
Proof.
  apply (add_correct sample 0x10002000 0x2000 (MkVtype 4 true) Combine sample_inv); try lia;
    [discriminate | exact sample_unmapped].
Defined.

Lemma free_piece_correct_witness :
  exists A', free_piece sample 0x10000000 0x1000 = Ok A' /\ inv A' /\
    forall x, view A' x = upd (view sample) 0x10000000 0x1000 None x.
Proof.
  apply (free_piece_correct sample 0x10000000 0x1000 sample_inv); try lia; [discriminate |].
  apply Exists_cons_hd. split; simpl; lia.
Defined.

Lemma insert_correct_witness :
  (exists A', insert sample 0x10000000 0x1000 (MkVtype 2 true) Combine = Ok (MkVtype 6 true, A') /\ inv A' /\
    forall x, view A' x = upd (view sample) 0x10000000 0x1000 (Some (MkVtype 6 true)) x) /\
  (exists f, insert sample 0x10001000 0x2000 (MkVtype 2 true) Combine = Stop f).
Proof.
  split.
  - apply (insert_correct sample 0x10000000 0x1000 (MkVtype 2 true) Combine sample_inv ltac:(lia) ltac:(lia)
             ltac:(lia) ltac:(simpl; lia)) with (d := MkDesc 0x10000000 0x2000 (MkVtype 4 true)).
    + apply list_elem_of_here.
    + split; simpl; lia.
  - apply (insert_correct sample 0x10001000 0x2000 (MkVtype 2 true) Combine sample_inv ltac:(lia) ltac:(lia)
             ltac:(lia) ltac:(simpl; lia)).
    + intros U. specialize (U 0x10001000 ltac:(lia)). vm_compute in U. discriminate U.
    + unfold contains. simpl. intros Hx. repeat (apply Exists_cons in Hx as [[? ?] | Hx]; [simpl in *; lia |]).
      by apply Exists_nil in Hx.
Defined.

Lemma alloc_correct_witness :
  exists r A', alloc sample 0x1000 (2 ^ 12) (MkVtype 6 true) NotCombine 0x10000000 0x10000 = Ok (r, A') /\
    r = 0x10002000 /\ forall x, view A' x = upd (view sample) r 0x1000 (Some (MkVtype 6 true)) x.
Proof.
  destruct (alloc_correct sample 0x1000 12 (MkVtype 6 true) NotCombine 0x10000000 0x10000 sample_inv)
    as [(r & A' & E & _ & _ & _ & _ & V) | (E & _)].
  - constructor; simpl; try lia; repeat (constructor; simpl; [lia |]); constructor.
  - discriminate.
  - exists r, A'. split_and!; [exact E | | exact V]. vm_compute in E. injection E as <- _. reflexivity.
  - exfalso. vm_compute in E. discriminate E.
Defined.
