(* ===== verification/Kmem.v ===== *)
(** krn/kmem.h: [Kmem], the kernel heap, on top of [Address_space_t].

    The heap is an address space whose regions are Free or Busy and whose
    list has a fixed number of descriptors; [pool_sz] counts the free bytes.
    Also the queries of [Aspace] that only read the user address space. *)

From Stdlib Require Import ZArith Lia Bool.
From stdpp Require Import base list numbers sets.
From S2P Require Import Prelude SysUtils ListSpec AddressSpace L4Types.

(** Kmem::Type *)
Inductive ktype := Free | Busy.

Definition ktype_eqb (a b : ktype) : bool :=
  match a, b with Free, Free | Busy, Busy => true | _, _ => false end.
(** [type | t.type] with Free = 0 and Busy = 1. *)
Definition ktype_or (a b : ktype) : ktype :=
  match a, b with Free, Free => Free | _, _ => Busy end.

#[global, program] Instance ktype_region : RegionType ktype :=
  {| rt_eqb := ktype_eqb; rt_or := ktype_or |}.
Next Obligation. intros [] []; by constructor. Qed.

Definition is_free (t : ktype) : bool := ktype_eqb t Free.

Record kmem := MkKmem { memory : alist (desc ktype); pool_sz : Z }.

Definition Alloc_min_sz : Z := 0x40.
Definition Pool_init_sz : Z := 256 * Cfg_page_sz.

(** setup_premapped / init: one free region, the premapped memory at [va]. *)
Definition kmem_init (st : kmem) (va : Z) : res kmem :=
  _ ← wassert (negb (va =? 0) && is_aligned va Cfg_page_sz);
  _ ← wassert (negb (Pool_init_sz =? 0) && is_aligned Pool_init_sz Cfg_page_sz);
  m ← add (memory st) va Pool_init_sz Free NotCombine;
  Ok (MkKmem m (pool_sz st)).

(** alloc: the first free region that holds the aligned chunk. *)
Fixpoint kmem_alloc_loop (sz align : Z) (l : list (Z * desc ktype)) : option (Z * Z) :=
  match l with
  | [] => None
  | (it, d) :: t =>
      if ktype_eqb (d_type d) Free && (sz <=? d_sz d) then
        let aaddr := round_up (d_addr d) align in
        let diff := u32 (aaddr - d_addr d) in
        if u32 (diff + sz) <=? d_sz d then Some (it, aaddr) else kmem_alloc_loop sz align t
      else kmem_alloc_loop sz align t
  end.

Definition kmem_alloc (st : kmem) (sz0 align : Z) : res (Z * kmem) :=
  _ ← wassert (negb (sz0 =? 0) && negb (align =? 0));
  let sz := round_up sz0 Alloc_min_sz in
  match kmem_alloc_loop sz align (busy (memory st)) with
  | Some (it, aaddr) =>
      m ← set_type (memory st) it aaddr sz Busy NotCombine;
      Ok (aaddr, MkKmem m (u32 (pool_sz st - sz)))
  | None => Stop FPanic
  end.

Definition kmem_free (st : kmem) (va : Z) : res kmem :=
  let it := find (memory st) va in
  _ ← wassert (negb (it =? 0));
  d ← deref (memory st) it;
  _ ← wassert (ktype_eqb (d_type d) Busy);
  m ← set_type (memory st) it va (d_sz d) Free Combine;
  Ok (MkKmem m (u32 (pool_sz st + d_sz d))).

(** ** Aspace: queries on the user address space *)

Definition Acc_urwx : Z := 7.
Definition acc2uacc (a : Z) : Z := Z.land a Acc_urwx.
Definition uacc2acc (uacc : Z) : Z := Z.land uacc Acc_urwx.

Definition is_inside_acc (uspace : alist (desc vtype)) (fp : Z) : res bool :=
  let it := find_in uspace (fpage_addr fp) (fpage_size fp) in
  if it =? 0 then Ok false
  else d ← deref uspace it;
       Ok (fpage_access fp =? Z.land (fpage_access fp) (acc2uacc (acc (d_type d)))).

Definition aspace_cached (uspace : alist (desc vtype)) (fp : Z) : res Z :=
  let it := find_in uspace (fpage_addr fp) (fpage_size fp) in
  if it =? 0 then Ok (-1)
  else d ← deref uspace it;
       if negb (fpage_access fp =? Z.land (fpage_access fp) (acc2uacc (acc (d_type d)))) then Ok (-2)
       else Ok (Z.b2z (cached (d_type d))).

Definition attributes (uspace : alist (desc vtype)) (fp : Z) : res Z :=
  let it := find_in uspace (fpage_addr fp) (fpage_size fp) in
  if it =? 0 then Ok (-1)
  else d ← deref uspace it; Ok (Z.lor (acc (d_type d)) (Z.shiftl (Z.b2z (cached (d_type d))) 6)).

(** ** Invariant *)

(** The heap list is well formed and [pool_sz] is the number of free bytes. *)
Definition kinv (st : kmem) : Prop :=
  inv (memory st) /\ pool_sz st = weight is_free (vals (busy (memory st))).

Lemma weight_bound {T} (P : T -> bool) ds : forall lo, ordered lo ds ->
  0 <= weight P ds <= end_of lo ds - lo.
Proof.
  induction ds as [|d t IH]; intros lo Ho; simpl in *; [lia |].
  destruct Ho as (? & ? & ? & Ht). specialize (IH _ Ht). destruct (P (d_type d)); lia.
Qed.

Lemma end_of_top {T} (ds : list (desc T)) lo : 0 <= lo < 2 ^ 32 -> ordered lo ds -> end_of lo ds < 2 ^ 32.
Proof.
  revert lo. induction ds as [|d t IH]; intros lo Hl Ho; simpl in *; [lia |].
  destruct Ho as (? & ? & ? & Ht). apply IH; [lia | done].
Qed.

Lemma weight_range {T} `{RegionType T} (P : T -> bool) (A : alist (desc T)) : inv A ->
  in_range 32 (weight P (vals (busy A))).
Proof.
  intros [_ Ho]. pose proof (weight_bound P _ _ Ho). pose proof (end_of_top _ 0 ltac:(lia) Ho).
  unfold in_range. lia.
Qed.

Lemma kmem_alloc_loop_spec sz k l : 0 <= k < 32 -> 0 < sz ->
  Forall (fun d => 0 <= d_addr d /\ 0 < d_sz d /\ d_addr d + d_sz d + 2 ^ k + sz <= 2 ^ 32) (vals l) ->
  match kmem_alloc_loop sz (2 ^ k) l with
  | Some (it, a) => exists l1 d l2, l = l1 ++ (it, d) :: l2 /\ d_type d = Free /\ (2 ^ k | a) /\
                      contains d a sz
  | None => Forall (fun d => d_type d = Free -> forall c, (2 ^ k | c) -> ~ contains d c sz) (vals l)
  end.
Proof.
  intros Hk Hz. induction l as [|[it d] t IH]; intros F; simpl; [constructor |].
  change (vals ((it, d) :: t)) with (d :: vals t) in *. apply Forall_cons in F as [(Ha & Hd & Hb) F].
  specialize (IH F). pose proof (Z.pow_pos_nonneg 2 k ltac:(lia) ltac:(lia)).
  destruct (round_up_least (d_addr d) k Hk Ha ltac:(lia)) as (Dv & Ge & Lst).
  set (a := round_up (d_addr d) (2 ^ k)) in *.
  assert (Hskip : (d_type d = Free -> forall c, (2 ^ k | c) -> ~ contains d c sz) ->
    match kmem_alloc_loop sz (2 ^ k) t with
    | Some (it', a') => exists l1 d' l2, (it, d) :: t = l1 ++ (it', d') :: l2 /\ d_type d' = Free /\
                          (2 ^ k | a') /\ contains d' a' sz
    | None => Forall (fun d => d_type d = Free -> forall c, (2 ^ k | c) -> ~ contains d c sz) (d :: vals t)
    end).
  { intros Hn. destruct (kmem_alloc_loop sz (2 ^ k) t) as [[it' a']|]; [| by constructor].
    destruct IH as (l1 & d' & l2 & -> & ?). by exists ((it, d) :: l1), d', l2. }
  destruct (d_type d) eqn:Et; simpl; [| by apply Hskip].
  destruct (Z.leb_spec sz (d_sz d)); last first.
  { apply Hskip. intros _ c _ [C1 C2]. lia. }
  assert (a < d_addr d + 2 ^ k).
  { destruct (Z.lt_ge_cases a (d_addr d + 2 ^ k)); [done |]. assert (a <= a - 2 ^ k); [| lia].
    apply Lst; [apply Z.divide_sub_r; [done | apply Z.divide_refl] | lia]. }
  rewrite (wrap_small 32 (a - d_addr d)), wrap_small by (unfold in_range; lia).
  destruct (Z.leb_spec (a - d_addr d + sz) (d_sz d)).
  - exists [], d, t. split_and!; try done. split; lia.
  - apply Hskip. intros _ c Hc [C1 C2]. pose proof (Lst c Hc C1). lia.
Qed.

Lemma regions_bounds {T} (ds : list (desc T)) m : ordered 0 ds ->
  Forall (fun d => d_addr d + d_sz d + m <= 2 ^ 32) ds ->
  Forall (fun d => 0 <= d_addr d /\ 0 < d_sz d /\ d_addr d + d_sz d + m <= 2 ^ 32) ds.
Proof.
  assert (G : forall lo, 0 <= lo -> ordered lo ds -> Forall (fun d => 0 <= d_addr d /\ 0 < d_sz d) ds).
  { induction ds as [|d t IH]; intros lo Hl Ho; [constructor |]. destruct Ho as (? & ? & ? & Ht).
    constructor; [split; lia |]. eapply IH; [| exact Ht]. lia. }
  intros Ho F. specialize (G 0 ltac:(lia) Ho). rewrite Forall_forall in *.
  intros d Hd. destruct (G d Hd). split_and!; auto.
Qed.

Lemma kmem_alloc_spec st sz k : kinv st -> 0 <= k < 32 -> 0 < sz -> sz + 0x40 <= 2 ^ 32 ->
  Forall (fun d => d_addr d + d_sz d + (2 ^ k + round_up sz Alloc_min_sz) <= 2 ^ 32) (vals (busy (memory st))) ->
  (2 <= length (free (memory st)))%nat ->
  let n := round_up sz Alloc_min_sz in
  (exists a st', kmem_alloc st sz (2 ^ k) = Ok (a, st') /\ (2 ^ k | a) /\ sz <= n /\
     (forall x, a <= x < a + n -> view (memory st) x = Some Free) /\
     (forall x, view (memory st') x = upd (view (memory st)) a n (Some Busy) x) /\
     MkDesc a n Busy ∈ vals (busy (memory st')) /\
     pool_sz st' = pool_sz st - n /\ kinv st' /\
     (length (free (memory st)) <= S (S (length (free (memory st')))))%nat) \/
  (kmem_alloc st sz (2 ^ k) = Stop FPanic /\
   Forall (fun d => d_type d = Free -> forall c, (2 ^ k | c) -> ~ contains d c n) (vals (busy (memory st)))).
Proof.
  intros [I Hp] Hk Hz Hsz F Hf n. pose proof (Z.pow_pos_nonneg 2 k ltac:(lia) ltac:(lia)) as Hpk.
  destruct (round_up_least sz 6 ltac:(lia) ltac:(lia) Hsz) as (_ & Hn & _).
  change (2 ^ 6) with Alloc_min_sz in Hn. fold n in Hn, F.
  pose proof (regions_bounds _ _ (proj2 I) F) as F'.
  assert (F2 : Forall (fun d => 0 <= d_addr d /\ 0 < d_sz d /\ d_addr d + d_sz d + 2 ^ k + n <= 2 ^ 32)
                (vals (busy (memory st)))).
  { eapply Forall_impl; [exact F' |]. intros d ?. cbn beta in *. lia. }
  pose proof (kmem_alloc_loop_spec n k (busy (memory st)) Hk ltac:(lia) F2) as L. unfold kmem_alloc.
  destruct (Z.eqb_spec sz 0); [lia |]. destruct (Z.eqb_spec (2 ^ k) 0); [lia |]. cbn [negb andb wassert mbind res_bind].
  fold n. destruct (kmem_alloc_loop n (2 ^ k) (busy (memory st))) as [[it a]|]; [left | by right].
  destruct L as (l1 & d & l2 & E & Et & Dv & C).
  assert (Hd : 0 <= d_addr d /\ d_addr d + d_sz d + 2 ^ k + n <= 2 ^ 32).
  { rewrite E in F2. unfold vals in F2. rewrite fmap_app in F2. apply Forall_app in F2 as [_ F2].
    apply Forall_cons in F2 as [F2 _]. simpl in F2. lia. }
  destruct (set_type_spec (memory st) l1 it d l2 a n Busy NotCombine I E) as (m & Es & I' & V' & Wt & N');
    [destruct C; lia | lia | destruct C; lia | done | done | by rewrite Et |].
  rewrite Es. simpl. exists a. eexists. split; [reflexivity |].
  specialize (Wt is_free). rewrite Et in Wt. simpl in Wt.
  assert (Hpool : u32 (pool_sz st - n) = pool_sz st - n).
  { rewrite Hp. apply wrap_small. pose proof (weight_range is_free m I') as R. unfold in_range in *. lia. }
  split_and!; simpl; auto.
  - intros x Hx. rewrite (contained_view (memory st) a n l1 it d l2) by auto. by rewrite Et.
  - destruct (N' eq_refl) as (_ & k1 & f & k2 & ->). rewrite vals_app. set_solver.
  - split; simpl; [done |]. lia.
  - by destruct (N' eq_refl) as [? _].
Qed.

(** the kernel heap allocator: with a free descriptor pair, [alloc] of a
    non-zero size returns a chunk with the requested power-of-two alignment
    and the size rounded up to 64 bytes, which was free and becomes one busy
    region, changes nothing else and subtracts the size from the pool; it
    panics only when no free region can hold such a chunk.  The invariant
    (ordered disjoint regions, pool_sz = free bytes) is kept. *)
Theorem kmem_alloc_correct st sz k : kinv st -> 0 <= k < 32 -> 0 < sz -> sz + 0x40 <= 2 ^ 32 ->
  Forall (fun d => d_addr d + d_sz d + (2 ^ k + round_up sz Alloc_min_sz) <= 2 ^ 32) (vals (busy (memory st))) ->
  (2 <= length (free (memory st)))%nat ->
  let n := round_up sz Alloc_min_sz in
  (exists a st', kmem_alloc st sz (2 ^ k) = Ok (a, st') /\ (2 ^ k | a) /\ sz <= n /\
     (forall x, a <= x < a + n -> view (memory st) x = Some Free) /\
     (forall x, view (memory st') x = upd (view (memory st)) a n (Some Busy) x) /\
     MkDesc a n Busy ∈ vals (busy (memory st')) /\
     pool_sz st' = pool_sz st - n /\ kinv st') \/
  (kmem_alloc st sz (2 ^ k) = Stop FPanic /\
   Forall (fun d => d_type d = Free -> forall c, (2 ^ k | c) -> ~ contains d c n) (vals (busy (memory st)))).
Proof.
  intros I Hk Hz Hsz F Hf n. destruct (kmem_alloc_spec st sz k I Hk Hz Hsz F Hf) as [(a & st' & R) | R]; [left | by right].
  exists a, st'. naive_solver.
Qed.

Lemma find_start_spec {T} `{RegionType T} addr (l : list (Z * desc T)) : forall lo, ordered lo (vals l) ->
  (find_start addr l = 0 /\ Forall (fun d => d_addr d <> addr) (vals l)) \/
  (exists l1 a d l2, l = l1 ++ (a, d) :: l2 /\ find_start addr l = a /\ d_addr d = addr).
Proof.
  induction l as [|[a d] t IH]; intros lo Ho; [by left |].
  pose proof (ordered_head_after lo d (vals t) Ho) as Hh. destruct Ho as (Hl & Hd & Hde & Ht). simpl in *.
  destruct (Z.eqb_spec addr (d_addr d)) as [Ea|Ea]; [right; by exists [], a, d, t |].
  destruct (Z.ltb_spec addr (d_addr d)) as [Lt|Lt].
  - left. split; [done |]. constructor; [done |]. eapply Forall_impl; [exact Hh |].
    intros d' Hd'. cbn beta in *. lia.
  - destruct (IH _ Ht) as [[E F] | (l1 & b & e & l2 & -> & E & C)].
    + left. split; [done |]. by constructor.
    + right. by exists ((a, d) :: l1), b, e, l2.
Qed.

(** [free(va)] accepts exactly the start addresses of busy regions: it
    makes the whole region free (joining it with free neighbours), returns
    its size to the pool and keeps the invariant; any other address, a second
    free of the same chunk included, fails the assertion. *)
Theorem kmem_free_correct st va : kinv st -> (2 <= length (free (memory st)))%nat ->
  (forall d, d ∈ vals (busy (memory st)) -> d_addr d = va -> d_type d = Busy ->
     exists st', kmem_free st va = Ok st' /\
       (forall x, view (memory st') x = upd (view (memory st)) va (d_sz d) (Some Free) x) /\
       pool_sz st' = pool_sz st + d_sz d /\ kinv st') /\
  (Forall (fun d => d_addr d = va -> d_type d = Free) (vals (busy (memory st))) ->
     kmem_free st va = Stop FAssert).
Proof.
  intros [I Hp] Hf. pose proof I as [W Ho]. unfold kmem_free, find.
  destruct (find_start_spec va (busy (memory st)) 0 Ho) as [[E F] | (l1 & a & d & l2 & E & Ef & Ed)].
  - rewrite E. split; [| done]. intros d Hd Ha _. exfalso. rewrite Forall_forall in F. by apply (F d).
  - rewrite Ef. destruct (at_item _ _ _ _ _ W E) as (-> & _ & -> & _). cbn [negb wassert mbind res_bind].
    pose proof Ho as Ho'. rewrite E, vals_app in Ho'. simpl in Ho'.
    pose proof Ho' as [O1 (B1 & B2 & B3 & _)]%ordered_app. pose proof (end_of_ge _ _ O1).
    split.
    + intros d' Hd' Ha' Ht'.
      assert (d' = d) as ->.
      { apply list_elem_of_split in Hd' as (ds1 & ds2 & Es).
        clear - Ho Es E Ed Ha' Ho'. rewrite E, vals_app in Es. simpl in Es. rewrite E, vals_app in Ho. simpl in Ho.
        by apply (ordered_start_unique 0 (vals l1) d (vals l2) ds1 d' ds2); [done | | congruence]. }
      rewrite Ht'. cbn [ktype_eqb wassert mbind res_bind].
      destruct (set_type_spec (memory st) l1 a d l2 va (d_sz d) Free Combine I E) as (m & Es & I' & V' & Wt & _);
        [lia | lia | lia | split; lia | done | by rewrite Ht' |].
      rewrite Es. simpl. eexists. split; [reflexivity |]. simpl. specialize (Wt is_free). rewrite Ht' in Wt.
      simpl in Wt.
      assert (Hpool : u32 (pool_sz st + d_sz d) = pool_sz st + d_sz d).
      { rewrite Hp. apply wrap_small. pose proof (weight_range is_free m I') as R. unfold in_range in *. lia. }
      split_and!; auto. split; simpl; [done |]. lia.
    + intros F. rewrite Forall_forall in F. rewrite (F d); [done | | done]. rewrite E, vals_app. set_solver.
Qed.

(** A heap of 64 KiB at 0x100000 with four spare descriptors. *)
Definition sample_heap : kmem :=
  MkKmem (MkA [(0x10, MkDesc 0x100000 0x10000 Free)] [0x20; 0x30; 0x40; 0x50]) 0x10000.

Lemma sample_heap_inv : kinv sample_heap.
Proof.
  split; [| reflexivity]. split; [| vm_compute; intuition congruence]. split; [| repeat constructor; done].
  simpl. repeat (apply NoDup_cons; split; [set_solver by lia |]). apply NoDup_nil. done.
Qed.

Lemma kmem_alloc_correct_witness :
  exists a st', kmem_alloc sample_heap 100 (2 ^ 12) = Ok (a, st') /\ a = 0x100000 /\
    pool_sz st' = pool_sz sample_heap - 128 /\ kinv st'.
Proof.
  destruct (kmem_alloc_correct sample_heap 100 12 sample_heap_inv) as
    [(a & st' & E & _ & _ & _ & _ & _ & P & I) | [E _]]; try lia.
  - repeat (constructor; [vm_compute; congruence |]). constructor.
  - simpl. lia.
  - exists a, st'. split_and!; [exact E | | exact P | exact I].
    vm_compute in E. injection E as <- _. reflexivity.
  - exfalso. vm_compute in E. discriminate E.
Defined.

Definition sample_used : kmem :=
  MkKmem (MkA [(0x20, MkDesc 0x100000 128 Busy); (0x10, MkDesc 0x100080 0xff80 Free)] [0x30; 0x40; 0x50]) 0xff80.

Lemma sample_used_inv : kinv sample_used.
Proof.
  split; [| reflexivity]. split; [| vm_compute; intuition congruence]. split; [| repeat constructor; done].
  simpl. repeat (apply NoDup_cons; split; [set_solver by lia |]). apply NoDup_nil. done.
Qed.

Lemma kmem_free_correct_witness :
  (exists st', kmem_free sample_used 0x100000 = Ok st' /\ pool_sz st' = pool_sz sample_used + 128 /\ kinv st') /\
  kmem_free sample_used 0x100080 = Stop FAssert.
Proof.
  split.
  - destruct (kmem_free_correct sample_used 0x100000 sample_used_inv) as [H _]; [simpl; lia |].
    destruct (H (MkDesc 0x100000 128 Busy)) as (st' & E & _ & P & I); [apply list_elem_of_here | done | done |].
    exists st'. exact (conj E (conj P I)).
  - apply (kmem_free_correct sample_used 0x100080 sample_used_inv); [simpl; lia |].
    constructor; [simpl; lia | constructor; [done | constructor]].
Defined.

(** the access query of a user address space answers yes exactly when
    one region contains the flex page and grants every right it asks for;
    [cached] returns the cacheability of that region, -2 if it does not grant
    the rights and -1 for a page no region contains; [attributes] returns -1
    for such a page, otherwise the rights and the cacheability of the region,
    whatever rights are asked for. *)
Theorem aspace_queries_correct (U : alist (desc vtype)) fp : inv U -> fpage_log2sz fp < 32 ->
  fpage_addr fp + fpage_size fp < 2 ^ 32 ->
  let inside d := contains d (fpage_addr fp) (fpage_size fp) in
  (forall d, d ∈ vals (busy U) -> inside d ->
     is_inside_acc U fp = Ok (Z.land (fpage_access fp) (acc2uacc (acc (d_type d))) =? fpage_access fp) /\
     attributes U fp = Ok (Z.lor (acc (d_type d)) (Z.shiftl (Z.b2z (cached (d_type d))) 6)) /\
     aspace_cached U fp = Ok (if Z.land (fpage_access fp) (acc2uacc (acc (d_type d))) =? fpage_access fp then Z.b2z (cached (d_type d)) else -2)) /\
  (Forall (fun d => ~ inside d) (vals (busy U)) ->
     is_inside_acc U fp = Ok false /\ attributes U fp = Ok (-1) /\ aspace_cached U fp = Ok (-1)).
Proof.
  intros I Hl Hend inside. pose proof I as [W Ho]. pose proof (fpage_size_pos fp Hl) as Hsz.
  assert (Ha : 0 <= fpage_addr fp) by (apply wrap_range; lia).
  unfold is_inside_acc, attributes, aspace_cached, find_in.
  destruct (find_piece_spec (fpage_addr fp) (fpage_size fp) (busy U) 0 Ho)
    as [[E F] | (l1 & a & d & l2 & E & Ef & C)]; try lia.
  - rewrite E. split; [| done]. intros d Hd Hi. exfalso. rewrite Forall_forall in F. by apply (F d).
  - rewrite Ef. destruct (at_item _ _ _ _ _ W E) as (-> & _ & -> & _). cbn [mbind res_bind]. split.
    + intros d' Hd' C'.
      assert (Ed : d_type d' = d_type d).
      { pose proof (contained_view U _ _ l1 a d l2 I E C (fpage_addr fp) ltac:(lia)) as V.
        apply list_elem_of_split in Hd' as (ds1 & ds2 & Es). destruct C'. unfold view in V. rewrite Es in *.
        rewrite lookup_covered in V by (done || lia). congruence. }
      rewrite Ed. split_and!; [by rewrite Z.eqb_sym | done |]. rewrite (Z.eqb_sym (fpage_access fp)). by destruct (_ =? fpage_access fp).
    + intros F. exfalso. rewrite Forall_forall in F. apply (F d); [| done]. rewrite E, vals_app. set_solver.
Qed.

Lemma aspace_queries_correct_witness :
  is_inside_acc sample 0x100000c4 = Ok true /\ attributes sample 0x100000c4 = Ok 0x44.
Proof.
  destruct (aspace_queries_correct sample 0x100000c4 sample_inv) as [H _]; [vm_compute; done | vm_compute; done |].
  destruct (H (MkDesc 0x10000000 0x2000 (MkVtype 4 true))) as (E1 & E2 & _);
    [apply list_elem_of_here | split; vm_compute; congruence |].
  split; [exact E1 | exact E2].
Defined.
