(* ===== verification/CString.v ===== *)
(** lib/wlibc/src/string.c: memory and string functions of the C library.

    Memory is a finite map from addresses to bytes; an access outside it is a
    memory error.  [long] is 32 bits and the byte order is big-endian, so the
    word loops move 4 or 8 bytes at once, most significant byte first.  Loops
    over a string take fuel. *)

From Stdlib Require Import ZArith Lia Bool.
From stdpp Require Import base list numbers gmap.
From S2P Require Import Prelude SysUtils.

Abbreviation mem := (gmap Z Z).
Implicit Types (m : mem) (a dst src sz : Z).

Definition loadb m a : res Z := from_opt FMem (m !! a).
Definition storeb m a (v : Z) : res mem := _ ← loadb m a; Ok (<[a := v]> m).

Fixpoint load_bytes m a (n : nat) : res (list Z) :=
  match n with
  | O => Ok []
  | S k => b ← loadb m a; t ← load_bytes m (a + 1) k; Ok (b :: t)
  end.

Fixpoint store_bytes m a (l : list Z) : res mem :=
  match l with
  | [] => Ok m
  | b :: t => m1 ← storeb m a b; store_bytes m1 (a + 1) t
  end.

Definition is_aligned2 (n1 n2 al : Z) : bool := is_aligned n1 al && is_aligned n2 al.
Definition is_aligned3 (n1 n2 n3 al : Z) : bool :=
  is_aligned n1 al && is_aligned n2 al && is_aligned n3 al.

(** The loop over [cnt] array elements of [w] bytes: dst[i] = src[i]. *)
Fixpoint copy_loop (w cnt : nat) m dst src : res mem :=
  match cnt with
  | O => Ok m
  | S k => l ← load_bytes m src w; m1 ← store_bytes m dst l;
           copy_loop w k m1 (dst + Z.of_nat w) (src + Z.of_nat w)
  end.

Definition memcpy m dst src sz : res mem :=
  _ ← wassert (sz <? 0xf0000000);
  if (32 <=? sz) && is_aligned3 dst src sz 8 then copy_loop 8 (Z.to_nat (sz / 8)) m dst src
  else if (32 <=? sz) && is_aligned3 dst src sz 4 then copy_loop 4 (Z.to_nat (sz / 4)) m dst src
  else copy_loop 1 (Z.to_nat sz) m dst src.

Definition memmove m dst src sz : res mem :=
  if (32 <=? sz) && (if src <? dst then 8 <=? dst - src else 8 <=? src - dst) then memcpy m dst src sz
  else copy_loop 1 (Z.to_nat sz) m dst src.

(** The bytes of a big-endian word of [w] bytes. *)
Fixpoint be_bytes (w : nat) (v : Z) : list Z :=
  match w with
  | O => []
  | S k => u8 (Z.shiftr v (8 * Z.of_nat k)) :: be_bytes k v
  end.

Fixpoint fill_loop (word : list Z) (cnt : nat) m dst : res mem :=
  match cnt with
  | O => Ok m
  | S k => m1 ← store_bytes m dst word; fill_loop word k m1 (dst + Z.of_nat (length word))
  end.

(** [val<<24 | val<<16 | val<<8 | val] in [int]. *)
Definition spread (val : Z) : Z :=
  s32 (Z.lor (Z.lor (Z.lor (Z.shiftl val 24) (Z.shiftl val 16)) (Z.shiftl val 8)) val).

Definition memset m dst (val sz : Z) : res mem :=
  if (32 <=? sz) && is_aligned2 dst sz 8 then
    let v := u64 (spread (Z.land val 0xff)) in
    let v := Z.lor v (u64 (Z.shiftl v 32)) in
    fill_loop (be_bytes 8 v) (Z.to_nat (sz / 8)) m dst
  else if (32 <=? sz) && is_aligned2 dst sz 4 then
    let v := spread (Z.land val 0xff) in
    fill_loop (be_bytes 4 (u32 v)) (Z.to_nat (sz / 4)) m dst
  else fill_loop [u8 val] (Z.to_nat sz) m dst.

Definition be_word (l : list Z) : Z := foldl (fun acc b => acc * 256 + b) 0 l.

(** The word loop; the difference of the two words is unsigned. *)
Fixpoint cmp_words (n : nat) m (p1 p2 : Z) : res Z :=
  match n with
  | O => Ok 0
  | S k =>
      l1 ← load_bytes m p1 4; l2 ← load_bytes m p2 4;
      if negb (be_word l1 =? be_word l2)
      then Ok (if u32 (be_word l1 - be_word l2) <? 0 then -1 else 1)
      else cmp_words k m (p1 + 4) (p2 + 4)
  end.

Fixpoint cmp_bytes (n : nat) m (p1 p2 : Z) : res Z :=
  match n with
  | O => Ok 0
  | S k =>
      b1 ← loadb m p1; b2 ← loadb m p2;
      if negb (b1 =? b2) then Ok (b1 - b2) else cmp_bytes k m (p1 + 1) (p2 + 1)
  end.

Definition memcmp m (ptr1 ptr2 sz : Z) : res Z :=
  if (32 <=? sz) && is_aligned3 ptr1 ptr2 sz 4 then cmp_words (Z.to_nat (sz / 4)) m ptr1 ptr2
  else cmp_bytes (Z.to_nat sz) m ptr1 ptr2.

Fixpoint memchr_loop (n : nat) m (p val : Z) : res Z :=
  match n with
  | O => Ok 0
  | S k => b ← loadb m p; if b =? u8 val then Ok p else memchr_loop k m (p + 1) val
  end.
Definition memchr m (ptr val num : Z) : res Z := memchr_loop (Z.to_nat num) m ptr val.

(** ** Strings *)

Fixpoint strlen_loop (fuel : nat) m (s n : Z) : res Z :=
  match fuel with
  | O => Stop FFuel
  | S f => c ← loadb m s; if c =? 0 then Ok n else strlen_loop f m (s + 1) (n + 1)
  end.
Definition strlen (fuel : nat) m (str : Z) : res Z := strlen_loop fuel m str 0.

Fixpoint strcmp (fuel : nat) m (s1 s2 : Z) : res Z :=
  match fuel with
  | O => Stop FFuel
  | S f => c1 ← loadb m s1; c2 ← loadb m s2;
           if negb (c1 =? 0) && (c1 =? c2) then strcmp f m (s1 + 1) (s2 + 1) else Ok (c1 - c2)
  end.

Fixpoint strncmp (n : nat) m (s1 s2 : Z) : res Z :=
  match n with
  | O => Ok 0
  | S k => c1 ← loadb m s1; c2 ← loadb m s2;
           if negb (c1 =? c2) then Ok (if c1 <? c2 then -1 else 1)
           else if c1 =? 0 then Ok 0
           else strncmp k m (s1 + 1) (s2 + 1)
  end.

(** The copy loop up to the terminating null; returns its address in the copy. *)
Fixpoint copy_str (fuel : nat) m dst src : res (mem * Z) :=
  match fuel with
  | O => Stop FFuel
  | S f => c ← loadb m src; m1 ← storeb m dst c;
           if c =? 0 then Ok (m1, dst) else copy_str f m1 (dst + 1) (src + 1)
  end.

Definition strcpy (fuel : nat) m dst src : res (mem * Z) :=
  '(m1, _) ← copy_str fuel m dst src; Ok (m1, dst).
Definition stpcpy (fuel : nat) m dst src : res (mem * Z) := copy_str fuel m dst src.

Fixpoint fill_zero (n : nat) m dst : res mem :=
  match n with O => Ok m | S k => m1 ← storeb m dst 0; fill_zero k m1 (dst + 1) end.

Fixpoint strncpy (n : nat) m dst src : res mem :=
  match n with
  | O => Ok m
  | S k => c ← loadb m src;
           if c =? 0 then fill_zero n m dst
           else m1 ← storeb m dst c; strncpy k m1 (dst + 1) (src + 1)
  end.

Fixpoint strchr (fuel : nat) m (s c : Z) : res Z :=
  match fuel with
  | O => Stop FFuel
  | S f => b ← loadb m s;
           if b =? u8 c then Ok s else if b =? 0 then Ok 0 else strchr f m (s + 1) c
  end.

Fixpoint skip_str (fuel : nat) m (s : Z) : res Z :=
  match fuel with
  | O => Stop FFuel
  | S f => c ← loadb m s; if c =? 0 then Ok s else skip_str f m (s + 1)
  end.

Definition strcat (fuel : nat) m dst src : res (mem * Z) :=
  e ← skip_str fuel m dst; '(m1, _) ← copy_str fuel m e src; Ok (m1, dst).

Fixpoint strupr_loop (fuel : nat) m (s : Z) : res mem :=
  match fuel with
  | O => Stop FFuel
  | S f => c ← loadb m s;
           if c =? 0 then Ok m
           else m1 ← (if (97 <=? c) && (c <=? 122) then storeb m s (c + 65 - 97) else Ok m);
                strupr_loop f m1 (s + 1)
  end.
Definition strupr (fuel : nat) m (s : Z) : res (mem * Z) := m1 ← strupr_loop fuel m s; Ok (m1, s).

(** Is [c] in the string at [p]? *)
Fixpoint char_in (fuel : nat) m (p c : Z) : res bool :=
  match fuel with
  | O => Stop FFuel
  | S f => b ← loadb m p;
           if b =? 0 then Ok false else if b =? c then Ok true else char_in f m (p + 1) c
  end.

Fixpoint strspn_loop (fuel : nat) m (str1 str2 n : Z) : res Z :=
  match fuel with
  | O => Stop FFuel
  | S f => c ← loadb m str1;
           if c =? 0 then Ok n
           else hit ← char_in fuel m str2 c;
                if hit : bool then strspn_loop f m (str1 + 1) str2 (n + 1) else Ok n
  end.
Definition strspn (fuel : nat) m (str1 str2 : Z) : res Z := strspn_loop fuel m str1 str2 0.

Fixpoint strpbrk (fuel : nat) m (str1 str2 : Z) : res Z :=
  match fuel with
  | O => Stop FFuel
  | S f => c ← loadb m str1;
           if c =? 0 then Ok 0
           else hit ← char_in fuel m str2 c;
                if hit : bool then Ok str1 else strpbrk f m (str1 + 1) str2
  end.

(** The inner loop of strstr: does [substr] start at [s]? *)
Fixpoint prefix_at (fuel : nat) m (s ss : Z) : res bool :=
  match fuel with
  | O => Stop FFuel
  | S f => c ← loadb m s; d ← loadb m ss;
           if negb (c =? 0) && negb (d =? 0) && (c =? d) then prefix_at f m (s + 1) (ss + 1)
           else Ok (d =? 0)
  end.

Fixpoint strstr (fuel : nat) m (str substr : Z) : res Z :=
  match fuel with
  | O => Stop FFuel
  | S f => c ← loadb m str;
           if c =? 0 then Ok 0
           else hit ← prefix_at fuel m str substr;
                if hit : bool then Ok str else strstr f m (str + 1) substr
  end.

(** ** Lemmas on memory ranges *)

Definition mapped m a (n : Z) : Prop := forall i, 0 <= i < n -> is_Some (m !! (a + i)).

(** [m'] is [m] with the range [a, a + n) replaced by [f]. *)
Definition overlay m a (n : Z) (f : Z -> option Z) m' : Prop :=
  forall x, m' !! x = if (a <=? x) && (x <? a + n) then f (x - a) else m !! x.

Lemma mapped_le m a n k : k <= n -> mapped m a n -> mapped m a k.
Proof. intros Hk H i Hi. apply H. lia. Qed.

Lemma mapped_tail m a n k : 0 <= k -> mapped m a n -> mapped m (a + k) (n - k).
Proof. intros Hk H i Hi. replace (a + k + i) with (a + (k + i)) by lia. apply H. lia. Qed.

Lemma overlay_mapped m a n f m' b k : overlay m a n f m' -> (forall i, 0 <= i < n -> is_Some (f i)) ->
  mapped m b k -> mapped m' b k.
Proof.
  intros Ho Hf Hm i Hi. rewrite (Ho (b + i)).
  destruct (Z.leb_spec a (b + i)), (Z.ltb_spec (b + i) (a + n)); simpl; try (by apply Hm). apply Hf. lia.
Qed.

Lemma loadb_mapped m a n : mapped m a n -> 0 < n -> exists b, m !! a = Some b /\ loadb m a = Ok b.
Proof.
  intros H Hn. destruct (H 0) as [b Hb]; [lia |]. rewrite Z.add_0_r in Hb. exists b.
  split; [done |]. unfold loadb. by rewrite Hb.
Qed.

Lemma load_bytes_ok m n : forall a, mapped m a (Z.of_nat n) ->
  exists l, load_bytes m a n = Ok l /\ length l = n /\
    forall i, (i < n)%nat -> l !! i = m !! (a + Z.of_nat i).
Proof.
  induction n as [|n IH]; intros a H; simpl; [exists []; split_and!; [done | done | lia] |].
  destruct (loadb_mapped m a _ H) as (b & Hb & ->); [lia |].
  destruct (IH (a + 1)) as (l & -> & Hl & Hi).
  { eapply mapped_le; [| apply (mapped_tail m a _ 1 ltac:(lia) H)]. lia. }
  exists (b :: l). split_and!; [done | simpl; lia |]. intros [|i] Hlt; simpl; [by rewrite Z.add_0_r |].
  rewrite Hi by lia. f_equal. lia.
Qed.

Lemma store_bytes_ok l : forall m a, mapped m a (Z.of_nat (length l)) ->
  exists m', store_bytes m a l = Ok m' /\
    overlay m a (Z.of_nat (length l)) (fun i => l !! Z.to_nat i) m'.
Proof.
  induction l as [|b t IH]; intros m a H; cbn [store_bytes length].
  { exists m. split; [done |]. intros x. bit_cases; done. }
  destruct (loadb_mapped m a _ H) as (c & Hc & Ec); [simpl; lia |]. unfold storeb. rewrite Ec. cbn [mbind res_bind].
  destruct (IH (<[a := b]> m) (a + 1)) as (m' & -> & Ho).
  { intros i Hi. rewrite lookup_insert_is_Some'. right. replace (a + 1 + i) with (a + (i + 1)) by lia.
    apply H. simpl. lia. }
  exists m'. split; [done |]. intros x. rewrite Ho. destruct (decide (x = a)) as [-> | Hx].
  - rewrite lookup_insert_eq. bit_cases; try lia. by rewrite Z.sub_diag.
  - rewrite lookup_insert_ne by done. bit_cases; try done; try lia.
    replace (Z.to_nat (x - a)) with (S (Z.to_nat (x - (a + 1)))) by lia. done.
Qed.

(** A forward copy is right unless the destination starts inside the source. *)
Definition safe_copy dst src sz : Prop := dst <= src \/ src + sz <= dst.

Lemma copy_loop_ok w cnt : (0 < w)%nat -> forall m dst src,
  let sz := Z.of_nat w * Z.of_nat cnt in
  mapped m dst sz -> mapped m src sz -> safe_copy dst src sz ->
  exists m', copy_loop w cnt m dst src = Ok m' /\ overlay m dst sz (fun i => m !! (src + i)) m'.
Proof.
  intros Hw. induction cnt as [|k IH]; intros m dst src sz Hd Hs Hc; cbn [copy_loop].
  { exists m. split; [done |]. intros x. bit_cases; done. }
  assert (Esz : sz = Z.of_nat w + Z.of_nat w * Z.of_nat k) by (subst sz; lia).
  destruct (load_bytes_ok m w src) as (l & -> & Hl & Hi); [eapply mapped_le; [| exact Hs]; lia |].
  cbn [mbind res_bind].
  destruct (store_bytes_ok l m dst) as (m1 & -> & O1); [rewrite Hl; eapply mapped_le; [| exact Hd]; lia |].
  rewrite Hl in O1. cbn [mbind res_bind].
  assert (Hf : forall i, 0 <= i < Z.of_nat w -> is_Some (l !! Z.to_nat i)) by (intros i ?; apply lookup_lt_is_Some; lia).
  destruct (IH m1 (dst + Z.of_nat w) (src + Z.of_nat w)) as (m' & -> & O').
  { eapply overlay_mapped; [exact O1 | exact Hf |]. eapply mapped_le; [| apply (mapped_tail m dst sz (Z.of_nat w)); [lia | done]]. lia. }
  { eapply overlay_mapped; [exact O1 | exact Hf |]. eapply mapped_le; [| apply (mapped_tail m src sz (Z.of_nat w)); [lia | done]]. lia. }
  { unfold safe_copy in *. lia. }
  exists m'. split; [done |]. intros x. rewrite (O' x).
  destruct (Z.leb_spec (dst + Z.of_nat w) x), (Z.ltb_spec x (dst + Z.of_nat w + Z.of_nat w * Z.of_nat k)); simpl.
  - rewrite (proj2 (Z.leb_le dst x)), (proj2 (Z.ltb_lt x _)) by lia. simpl.
    replace (src + Z.of_nat w + (x - (dst + Z.of_nat w))) with (src + (x - dst)) by lia.
    rewrite (O1 _). unfold safe_copy in Hc. bit_cases; try done; lia.
  - rewrite (O1 x). bit_cases; done || lia.
  - rewrite (O1 x). bit_cases; try done; try lia. rewrite Hi by lia. f_equal. lia.
  - lia.
Qed.

Lemma aligned_div n k : 0 <= k <= 32 -> 0 <= n -> is_aligned n (2 ^ k) = true ->
  2 ^ k * Z.of_nat (Z.to_nat (n / 2 ^ k)) = n.
Proof.
  intros Hk Hn Ha. apply is_aligned_spec in Ha; [| done]. pose proof (Z.pow_pos_nonneg 2 k ltac:(lia) ltac:(lia)).
  rewrite Z2Nat.id by (apply Z.div_pos; lia). pose proof (Z.div_mod n (2 ^ k)). lia.
Qed.

Lemma memcpy_ok m dst src sz : 0 <= sz < 0xf0000000 -> mapped m dst sz -> mapped m src sz ->
  safe_copy dst src sz ->
  exists m', memcpy m dst src sz = Ok m' /\ overlay m dst sz (fun i => m !! (src + i)) m'.
Proof.
  intros Hz Hd Hs Hc. unfold memcpy. rewrite (proj2 (Z.ltb_lt sz _)) by lia. cbn [wassert mbind res_bind].
  assert (Huse : forall (w cnt : nat), (0 < w)%nat -> Z.of_nat w * Z.of_nat cnt = sz ->
    exists m', copy_loop w cnt m dst src = Ok m' /\ overlay m dst sz (fun i => m !! (src + i)) m').
  { intros w cnt Hw E. rewrite <- E in *. by apply copy_loop_ok. }
  destruct (_ && is_aligned3 dst src sz 8) eqn:E8.
  { apply Huse; [lia |]. apply andb_true_iff in E8 as [_ E8]. apply andb_true_iff in E8 as [_ E8].
    by apply (aligned_div sz 3); [lia | lia |]. }
  destruct (_ && is_aligned3 dst src sz 4) eqn:E4; [| apply Huse; lia].
  apply Huse; [lia |]. apply andb_true_iff in E4 as [_ E4]. apply andb_true_iff in E4 as [_ E4].
  by apply (aligned_div sz 2); [lia | lia |].
Qed.

(** [memcpy] and [memmove] copy exactly [sz] bytes, on every path (64-bit,
    word and byte loops), and change nothing else, whenever the destination
    does not start inside the source range. *)
Theorem memcpy_memmove_correct m dst src sz : 0 <= sz < 0xf0000000 ->
  mapped m dst sz -> mapped m src sz -> safe_copy dst src sz ->
  (exists m', memcpy m dst src sz = Ok m' /\ overlay m dst sz (fun i => m !! (src + i)) m') /\
  (exists m', memmove m dst src sz = Ok m' /\ overlay m dst sz (fun i => m !! (src + i)) m').
Proof.
  intros Hz Hd Hs Hc. split; [by apply memcpy_ok |]. unfold memmove.
  destruct (_ && _); [by apply memcpy_ok |].
  pose proof (copy_loop_ok 1 (Z.to_nat sz) ltac:(lia) m dst src) as H. simpl in H.
  rewrite Z.mul_1_l, Z2Nat.id in H by lia. auto.
Qed.

(** Forty bytes at 0x1000 and forty at 0x2000. *)
Definition sample_mem : mem :=
  list_to_map (((fun i => (0x1000 + i, i)) <$> seqZ 0 40) ++ ((fun i => (0x2000 + i, 0)) <$> seqZ 0 40)).

Lemma sample_mapped a : a = 0x1000 \/ a = 0x2000 -> mapped sample_mem a 40.
Proof.
  intros Ha i Hi. assert (H : forallb (fun i => bool_decide (is_Some (sample_mem !! (a + i)))) (seqZ 0 40) = true).
  { destruct Ha as [-> | ->]; vm_compute; reflexivity. }
  rewrite forallb_forall in H. specialize (H i). apply bool_decide_eq_true in H; [done |].
  apply list_elem_of_In, elem_of_seqZ. lia.
Qed.

Lemma memcpy_memmove_correct_witness :
  exists m', memcpy sample_mem 0x2000 0x1000 40 = Ok m' /\ m' !! 0x2007 = Some 7.
Proof.
  destruct (memcpy_memmove_correct sample_mem 0x2000 0x1000 40) as [(m' & E & O) _];
    [lia | apply sample_mapped; auto | apply sample_mapped; auto | right; lia |].
  exists m'. split; [exact E |]. rewrite (O 0x2007). vm_compute. reflexivity.
Defined.

(** *** Overlapping memmove *)

Lemma copy_bytes_overlap n : forall m dst src, src < dst ->
  mapped m dst (Z.of_nat n) -> mapped m src (Z.of_nat n) ->
  exists m', copy_loop 1 n m dst src = Ok m' /\
    overlay m dst (Z.of_nat n) (fun i => m !! (src + i mod (dst - src))) m'.
Proof.
  induction n as [|n IH]; intros m dst src Hlt Hd Hs; cbn [copy_loop].
  { exists m. split; [done |]. intros x. bit_cases; done. }
  destruct (loadb_mapped m src _ Hs) as (b & Hb & Eb); [lia |].
  destruct (loadb_mapped m dst _ Hd) as (c & Hc & Ec); [lia |].
  cbn [load_bytes store_bytes]. rewrite Eb. cbn [mbind res_bind store_bytes]. unfold storeb. rewrite Ec. cbn [mbind res_bind].
  set (m1 := <[dst := b]> m). change (Z.of_nat 1) with 1.
  assert (Hm1 : forall a k, mapped m a k -> mapped m1 a k).
  { intros a k H i Hi. unfold m1. rewrite lookup_insert_is_Some'. right. by apply H. }
  destruct (IH m1 (dst + 1) (src + 1)) as (m' & -> & O); [lia | | |].
  { eapply mapped_le; [| apply (mapped_tail _ _ _ 1 ltac:(lia) (Hm1 _ _ Hd))]. lia. }
  { eapply mapped_le; [| apply (mapped_tail _ _ _ 1 ltac:(lia) (Hm1 _ _ Hs))]. lia. }
  exists m'. split; [done |]. intros x. rewrite (O x). replace (dst + 1 - (src + 1)) with (dst - src) by lia.
  set (d := dst - src). assert (0 < d) by (unfold d; lia).
  destruct (decide (x = dst)) as [-> | Hx].
  { unfold m1. rewrite lookup_insert_eq. bit_cases; try lia.
    by rewrite Z.sub_diag, Zmod_0_l, Z.add_0_r. }
  assert (Hne : forall y, y <> dst -> m1 !! y = m !! y) by (intros; unfold m1; by apply lookup_insert_ne).
  bit_cases; try (by apply Hne); try lia.
  set (i := x - (dst + 1)). replace (x - dst) with (i + 1) by (unfold i; lia).
  pose proof (Z.mod_pos_bound i d ltac:(lia)) as Hj. pose proof (Z.div_mod i d ltac:(lia)) as Hdm.
  destruct (decide (i mod d = d - 1)) as [E|E].
  - replace (src + 1 + i mod d) with dst by (unfold d in *; lia). unfold m1. rewrite lookup_insert_eq.
    replace ((i + 1) mod d) with 0; [by rewrite Z.add_0_r |].
    symmetry. apply Z.mod_divide; [lia |]. exists (i / d + 1). lia.
  - rewrite Hne by (unfold d in *; lia). f_equal.
    replace ((i + 1) mod d) with (i mod d + 1); [lia |]. apply (Zmod_unique _ _ (i / d)); lia.
Qed.

(** [memmove] always copies forward: when the destination starts inside
    the source range (and the size is below 32 bytes, the byte loop), the
    destination receives the first [dst - src] source bytes over and over
    instead of the source. *)
Theorem memmove_overlap m dst src sz : 0 <= sz < 32 -> src < dst ->
  mapped m dst sz -> mapped m src sz ->
  exists m', memmove m dst src sz = Ok m' /\ overlay m dst sz (fun i => m !! (src + i mod (dst - src))) m'.
Proof.
  intros Hz Hlt Hd Hs. unfold memmove. destruct (Z.leb_spec 32 sz); [lia |]. simpl.
  pose proof (copy_bytes_overlap (Z.to_nat sz) m dst src Hlt) as H'. rewrite Z2Nat.id in H' by lia. auto.
Qed.

Lemma memmove_overlap_witness :
  exists m', memmove sample_mem 0x1002 0x1000 8 = Ok m' /\
    m' !! 0x1004 = Some 0 /\ sample_mem !! 0x1002 = Some 2.
Proof.
  destruct (memmove_overlap sample_mem 0x1002 0x1000 8) as (m' & E & O);
    [lia | lia | | eapply mapped_le; [| apply sample_mapped; auto]; lia |].
  { eapply mapped_le; [| apply (mapped_tail _ 0x1000 40 2 ltac:(lia)); apply sample_mapped; auto]. lia. }
  exists m'. split_and!; [exact E | rewrite (O 0x1004); vm_compute; reflexivity | vm_compute; reflexivity].
Defined.

(** *** memset *)

Lemma fill_loop_ok word cnt : (0 < length word)%nat -> forall m dst,
  let w := Z.of_nat (length word) in
  mapped m dst (w * Z.of_nat cnt) ->
  exists m', fill_loop word cnt m dst = Ok m' /\
    overlay m dst (w * Z.of_nat cnt) (fun i => word !! Z.to_nat (i mod w)) m'.
Proof.
  intros Hw. induction cnt as [|k IH]; intros m dst w Hd; cbn [fill_loop].
  { exists m. split; [done |]. intros x. bit_cases; done. }
  destruct (store_bytes_ok word m dst) as (m1 & -> & O1); [eapply mapped_le; [| exact Hd]; lia |].
  cbn [mbind res_bind]. fold w in O1 |- *.
  destruct (IH m1 (dst + w)) as (m' & -> & O').
  { eapply overlay_mapped; [exact O1 | intros i ?; apply lookup_lt_is_Some; lia |].
    eapply mapped_le; [| apply (mapped_tail m dst _ w ltac:(lia) Hd)]. lia. }
  fold w in O'. exists m'. split; [done |]. intros x. rewrite (O' x), (O1 x).
  bit_cases; try done; try lia.
  - f_equal. f_equal. replace (x - dst) with (x - (dst + w) + 1 * w) by lia. by rewrite Z.mod_add by lia.
  - by rewrite Z.mod_small by lia.
Qed.

(** The bytes of the words memset builds, for every byte value. *)
Definition word64 (b : Z) : list Z :=
  let v := u64 (spread b) in be_bytes 8 (Z.lor v (u64 (Z.shiftl v 32))).
Definition word32 (b : Z) : list Z := be_bytes 4 (u32 (spread b)).

Lemma words_computed b : 0 <= b < 256 ->
  word32 b = replicate 4 b /\
  word64 b = (if b <? 128 then replicate 8 b else replicate 4 255 ++ replicate 4 b).
Proof.
  intros Hb.
  assert (H : forallb (fun b => bool_decide (word32 b = replicate 4 b /\
    word64 b = (if b <? 128 then replicate 8 b else replicate 4 255 ++ replicate 4 b))) (seqZ 0 256) = true)
    by (vm_compute; reflexivity).
  rewrite forallb_forall in H. specialize (H b). apply bool_decide_eq_true in H; [done |].
  apply list_elem_of_In, elem_of_seqZ. lia.
Qed.

(** [memset] writes exactly [sz] bytes; each is the low byte of [val],
    except on the 64-bit path (at least 32 bytes, address and size multiples
    of 8) with a byte of 0x80 or more: there the first four bytes of every
    eight become 0xff, since the 32-bit pattern is sign-extended. *)
Theorem memset_correct m dst val sz : 0 <= sz < 2 ^ 32 -> mapped m dst sz ->
  let b := val mod 256 in
  let wide := (32 <=? sz) && is_aligned2 dst sz 8 in
  exists m', memset m dst val sz = Ok m' /\
    overlay m dst sz (fun i => Some (if wide && (128 <=? b) && (i mod 8 <? 4) then 255 else b)) m'.
Proof.
  intros Hz Hd b wide. unfold memset. fold wide.
  assert (Eb : Z.land val 0xff = b) by (change 0xff with (Z.ones 8); by rewrite Z.land_ones by lia).
  rewrite Eb. pose proof (Z.mod_pos_bound val 256 ltac:(lia)) as Hb. fold b in Hb.
  destruct (words_computed b Hb) as [W4 W8]. unfold word32, word64 in W4, W8.
  assert (Huse : forall word cnt, (0 < length word)%nat -> Z.of_nat (length word) * Z.of_nat cnt = sz ->
    exists m', fill_loop word cnt m dst = Ok m' /\
      overlay m dst sz (fun i => word !! Z.to_nat (i mod Z.of_nat (length word))) m').
  { intros word cnt Hw E. rewrite <- E in *. by apply fill_loop_ok. }
  destruct wide eqn:Ew.
  - rewrite W8. destruct (Huse (if b <? 128 then replicate 8 b else replicate 4 255 ++ replicate 4 b)
      (Z.to_nat (sz / 8))) as (m' & -> & O).
    { destruct (b <? 128); simpl; lia. }
    { replace (length (if b <? 128 then _ else _)) with 8%nat by (by destruct (b <? 128)).
      apply andb_true_iff in Ew as [_ Ew]. apply andb_true_iff in Ew as [_ Ew].
      by apply (aligned_div sz 3); [lia | lia |]. }
    exists m'. split; [done |]. intros x. rewrite (O x).
      destruct ((dst <=? x) && (x <? dst + sz)); [| done].
    replace (Z.of_nat (length (if b <? 128 then _ else _))) with 8 by (by destruct (b <? 128)).
    pose proof (Z.mod_pos_bound (x - dst) 8 ltac:(lia)) as Hi.
    assert (Hk : exists k, (x - dst) mod 8 = Z.of_nat k /\ (k < 8)%nat).
    { exists (Z.to_nat ((x - dst) mod 8)). lia. }
    destruct Hk as (k & -> & Hk). rewrite Nat2Z.id.
    destruct (Z.ltb_spec b 128), (Z.leb_spec 128 b); try lia;
      do 8 (destruct k as [|k]; [done |]); lia.
  - cbn [andb]. destruct (_ && is_aligned2 dst sz 4) eqn:E4.
    + rewrite W4. destruct (Huse (replicate 4 b) (Z.to_nat (sz / 4))) as (m' & -> & O); [simpl; lia | |].
      { apply andb_true_iff in E4 as [_ E4]. apply andb_true_iff in E4 as [_ E4].
        by apply (aligned_div sz 2); [lia | lia |]. }
      exists m'. split; [done |]. intros x. rewrite (O x).
      destruct ((dst <=? x) && (x <? dst + sz)); [| done].
      pose proof (Z.mod_pos_bound (x - dst) 4 ltac:(lia)) as Hi. simpl length.
      change (Z.of_nat 4) with 4.
      rewrite lookup_replicate_2 by lia. done.
    + destruct (Huse [u8 val] (Z.to_nat sz)) as (m' & -> & O); [simpl; lia | simpl; lia |].
      exists m'. split; [done |]. intros x. rewrite (O x).
      destruct ((dst <=? x) && (x <? dst + sz)); [| done].
      simpl. by rewrite Z.mod_1_r.
Qed.

Lemma memset_correct_witness :
  (exists m', memset sample_mem 0x2000 0x41 40 = Ok m' /\ m' !! 0x2001 = Some 0x41) /\
  (exists m', memset sample_mem 0x2000 0x81 40 = Ok m' /\ m' !! 0x2001 = Some 0xff).
Proof.
  split.
  - destruct (memset_correct sample_mem 0x2000 0x41 40) as (m' & E & O); [lia | apply sample_mapped; auto |].
    exists m'. split; [exact E |]. rewrite (O 0x2001). vm_compute. reflexivity.
  - destruct (memset_correct sample_mem 0x2000 0x81 40) as (m' & E & O); [lia | apply sample_mapped; auto |].
    exists m'. split; [exact E |]. rewrite (O 0x2001). vm_compute. reflexivity.
Defined.

(** *** memcmp *)

Definition same_bytes m (p1 p2 n : Z) : Prop := forall i, 0 <= i < n -> m !! (p1 + i) = m !! (p2 + i).

Lemma cmp_bytes_ok n : forall m p1 p2, mapped m p1 (Z.of_nat n) -> mapped m p2 (Z.of_nat n) ->
  exists r, cmp_bytes n m p1 p2 = Ok r /\
    ((r = 0 /\ same_bytes m p1 p2 (Z.of_nat n)) \/
     (exists k b1 b2, 0 <= k < Z.of_nat n /\ same_bytes m p1 p2 k /\ m !! (p1 + k) = Some b1 /\
        m !! (p2 + k) = Some b2 /\ b1 <> b2 /\ r = b1 - b2)).
Proof.
  induction n as [|n IH]; intros m p1 p2 H1 H2; cbn [cmp_bytes].
  { exists 0. split; [done |]. left. split; [done |]. intros i Hi. simpl in Hi. lia. }
  destruct (loadb_mapped m p1 _ H1) as (b1 & Hb1 & ->); [lia |].
  destruct (loadb_mapped m p2 _ H2) as (b2 & Hb2 & ->); [lia |]. cbn [mbind res_bind].
  destruct (Z.eqb_spec b1 b2) as [<- | Hne]; simpl.
  - destruct (IH m (p1 + 1) (p2 + 1)) as (r & -> & Hr).
    { eapply mapped_le; [| apply (mapped_tail _ _ _ 1 ltac:(lia) H1)]. lia. }
    { eapply mapped_le; [| apply (mapped_tail _ _ _ 1 ltac:(lia) H2)]. lia. }
    assert (Hext : forall k, same_bytes m (p1 + 1) (p2 + 1) k -> same_bytes m p1 p2 (k + 1)).
    { intros k Hk i Hi. destruct (decide (i = 0)) as [-> |]; [by rewrite !Z.add_0_r, Hb1, Hb2 |].
      specialize (Hk (i - 1) ltac:(lia)). replace (p1 + i) with (p1 + 1 + (i - 1)) by lia.
      replace (p2 + i) with (p2 + 1 + (i - 1)) by lia. done. }
    exists r. split; [done |]. destruct Hr as [[-> Hs] | (k & c1 & c2 & Hk & Hs & E1 & E2 & Hne & ->)].
    + left. split; [done |]. rewrite Nat2Z.inj_succ, <- Z.add_1_r. by apply Hext.
    + right. exists (k + 1), c1, c2. split_and!; auto; try lia.
      * by replace (p1 + (k + 1)) with (p1 + 1 + k) by lia.
      * by replace (p2 + (k + 1)) with (p2 + 1 + k) by lia.
  - exists (b1 - b2). split; [done |]. right. exists 0, b1, b2. rewrite !Z.add_0_r.
    split_and!; auto; try lia. intros i Hi. lia.
Qed.

Lemma be_word_inj l1 l2 : length l1 = length l2 -> Forall (in_range 8) l1 -> Forall (in_range 8) l2 ->
  be_word l1 = be_word l2 -> l1 = l2.
Proof.
  unfold be_word. revert l2. induction l1 as [|b1 l1 IH] using rev_ind; intros l2 Hl F1 F2.
  { by destruct l2. }
  destruct l2 as [|b2 l2 _] using rev_ind; [rewrite length_app in Hl; simpl in Hl; lia |].
  rewrite !length_app in Hl. simpl in Hl. rewrite !foldl_app. simpl.
  apply Forall_app in F1 as [F1 B1]. apply Forall_app in F2 as [F2 B2].
  apply Forall_cons in B1 as [B1 _]. apply Forall_cons in B2 as [B2 _]. unfold in_range in B1, B2.
  change (2 ^ 8) with 256 in *. intros E. rewrite (IH l2); [f_equal; f_equal; lia | lia | done | done | lia].
Qed.

Lemma cmp_words_ok n : forall m p1 p2, mapped m p1 (4 * Z.of_nat n) -> mapped m p2 (4 * Z.of_nat n) ->
  map_Forall (fun _ b => in_range 8 b) m ->
  exists r, cmp_words n m p1 p2 = Ok r /\ (r = 0 \/ r = 1) /\
    (r = 0 <-> same_bytes m p1 p2 (4 * Z.of_nat n)).
Proof.
  induction n as [|n IH]; intros m p1 p2 H1 H2 Hm; cbn [cmp_words].
  { exists 0. split_and!; [done | by left |]. split; [intros _ i Hi; simpl in Hi; lia | done]. }
  destruct (load_bytes_ok m 4 p1) as (l1 & -> & L1 & G1); [eapply mapped_le; [| exact H1]; lia |].
  destruct (load_bytes_ok m 4 p2) as (l2 & -> & L2 & G2); [eapply mapped_le; [| exact H2]; lia |].
  cbn [mbind res_bind].
  assert (Hr : forall l p, (forall i, (i < 4)%nat -> l !! i = m !! (p + Z.of_nat i)) -> length l = 4%nat ->
    Forall (in_range 8) l).
  { intros l p G L. apply Forall_lookup. intros i x Hx. pose proof (lookup_lt_Some _ _ _ Hx).
    rewrite G in Hx by lia. by apply (Hm _ _ Hx). }
  destruct (Z.eqb_spec (be_word l1) (be_word l2)) as [E|E]; simpl.
  - apply be_word_inj in E; [| lia | by eapply Hr | by eapply Hr]. subst l2.
    assert (H4 : same_bytes m p1 p2 4).
    { intros i Hi. rewrite <- (Z2Nat.id i) by lia. rewrite <- G1, <- G2 by lia. done. }
    destruct (IH m (p1 + 4) (p2 + 4)) as (r & -> & R1 & R2); auto.
    { eapply mapped_le; [| apply (mapped_tail _ _ _ 4 ltac:(lia) H1)]. lia. }
    { eapply mapped_le; [| apply (mapped_tail _ _ _ 4 ltac:(lia) H2)]. lia. }
    exists r. split_and!; [done | done |]. rewrite R2. split.
    + intros Hs i Hi. destruct (Z.lt_ge_cases i 4); [apply H4; lia |].
      specialize (Hs (i - 4) ltac:(lia)). replace (p1 + i) with (p1 + 4 + (i - 4)) by lia.
      replace (p2 + i) with (p2 + 4 + (i - 4)) by lia. done.
    + intros Hs i Hi. replace (p1 + 4 + i) with (p1 + (i + 4)) by lia.
      replace (p2 + 4 + i) with (p2 + (i + 4)) by lia. apply Hs. lia.
  - exists 1. split_and!; [| by right |].
    { destruct (Z.ltb_spec (u32 (be_word l1 - be_word l2)) 0) as [L|]; [| done].
      pose proof (wrap_range 32 (be_word l1 - be_word l2) ltac:(lia)) as [? _]. lia. }
    split; [done |]. intros Hs. exfalso. apply E. f_equal. apply list_eq. intros i.
    destruct (decide (i < 4)%nat).
    + rewrite G1, G2 by done. apply Hs. lia.
    + rewrite !lookup_ge_None_2 by lia. done.
Qed.

(** [memcmp] returns 0 exactly on equal ranges.  On the byte path its
    sign is that of the first differing byte pair; on the word path (at least
    32 bytes, all arguments word aligned) it returns +1 for every difference,
    whichever range is the smaller. *)
Theorem memcmp_correct m p1 p2 sz : 0 <= sz < 2 ^ 32 -> mapped m p1 sz -> mapped m p2 sz ->
  map_Forall (fun _ b => in_range 8 b) m ->
  exists r, memcmp m p1 p2 sz = Ok r /\ (r = 0 <-> same_bytes m p1 p2 sz) /\
    (if (32 <=? sz) && is_aligned3 p1 p2 sz 4 then r = 0 \/ r = 1
     else r <> 0 -> exists k b1 b2, 0 <= k < sz /\ same_bytes m p1 p2 k /\
            m !! (p1 + k) = Some b1 /\ m !! (p2 + k) = Some b2 /\ r = b1 - b2).
Proof.
  intros Hz H1 H2 Hm. unfold memcmp. destruct (_ && is_aligned3 p1 p2 sz 4) eqn:E4.
  - apply andb_true_iff in E4 as [_ E4]. apply andb_true_iff in E4 as [_ E4].
    pose proof (aligned_div sz 2 ltac:(lia) ltac:(lia) E4) as Esz. change (2 ^ 2) with 4 in Esz.
    destruct (cmp_words_ok (Z.to_nat (sz / 4)) m p1 p2) as (r & E & R1 & R2); rewrite ?Esz; auto.
    rewrite Esz in R2. eauto.
  - destruct (cmp_bytes_ok (Z.to_nat sz) m p1 p2) as (r & E & Hr); rewrite ?Z2Nat.id by lia; auto.
    rewrite Z2Nat.id in Hr by lia. exists r. split; [done |].
    destruct Hr as [[-> Hs] | (k & b1 & b2 & Hk & Hs & E1 & E2 & Hne & ->)].
    + split; [done |]. done.
    + split.
      * split; [intros; lia |]. intros Hs'. specialize (Hs' k Hk). congruence.
      * intros _. exists k, b1, b2. auto.
Qed.

#[global] Instance in_range_dec w x : Decision (in_range w x).
Proof. unfold in_range. apply _. Defined.

Lemma sample_bytes : map_Forall (fun _ b => in_range 8 b) sample_mem.
Proof. apply (bool_decide_eq_true_1 _). vm_compute. reflexivity. Qed.

Lemma memcmp_correct_witness :
  exists r, memcmp sample_mem 0x2000 0x1000 32 = Ok r /\ (r = 0 \/ r = 1) /\ r <> 0.
Proof.
  destruct (memcmp_correct sample_mem 0x2000 0x1000 32) as (r & E & R & P);
    [lia | eapply mapped_le; [| apply sample_mapped; auto]; lia
    | eapply mapped_le; [| apply sample_mapped; auto]; lia | exact sample_bytes |].
  exists r. split_and!; [exact E | exact P |]. intros Hr. apply R in Hr. specialize (Hr 1 ltac:(lia)).
  vm_compute in Hr. discriminate Hr.
Defined.

(** *** Strings *)

(** The string [s] (without its null) is stored at [p]. *)
Fixpoint cstr m p (s : list Z) : Prop :=
  match s with
  | [] => m !! p = Some 0
  | c :: t => m !! p = Some c /\ c <> 0 /\ cstr m (p + 1) t
  end.

(** The first position from which [f] holds of the rest of the string. *)
Fixpoint first_pos (f : list Z -> bool) (s : list Z) (i : Z) : option Z :=
  match s with
  | [] => None
  | _ :: t => if f s then Some i else first_pos f t (i + 1)
  end.
Definition ptr_or_null (o : option Z) : Z := match o with Some a => a | None => 0 end.

Fixpoint span (set s : list Z) : Z :=
  match s with
  | [] => 0
  | c :: t => if bool_decide (c ∈ set) then 1 + span set t else 0
  end.

(** Lexicographic order of byte strings, as the sign of the difference at the
    first mismatch (the null counts as 0). *)
Fixpoint lex_diff (s t : list Z) : Z :=
  match s, t with
  | [], [] => 0
  | [], d :: _ => - d
  | c :: _, [] => c
  | c :: s', d :: t' => if c =? d then lex_diff s' t' else c - d
  end.

Lemma cstr_load m p s : cstr m p s -> loadb m p = Ok (match s with [] => 0 | c :: _ => c end).
Proof. unfold loadb. destruct s; simpl; [intros -> | intros (-> & _)]; done. Qed.

Lemma strlen_loop_ok m s : forall fuel p n, cstr m p s -> (length s < fuel)%nat ->
  strlen_loop fuel m p n = Ok (n + Z.of_nat (length s)).
Proof.
  induction s as [|c t IH]; intros [|fuel] p n H Hf; simpl in Hf; try lia; simpl;
    rewrite (cstr_load _ _ _ H); simpl; [f_equal; lia |].
  destruct H as (_ & Hc & Ht). destruct (Z.eqb_spec c 0); [done |]. rewrite IH by (done || lia). f_equal; lia.
Qed.

Lemma strcmp_ok m s : forall t fuel p q, cstr m p s -> cstr m q t -> (length s < fuel)%nat ->
  strcmp fuel m p q = Ok (lex_diff s t).
Proof.
  induction s as [|c s IH]; intros t [|fuel] p q Hs Ht Hf; simpl in Hf; try lia; simpl;
    rewrite (cstr_load _ _ _ Hs), (cstr_load _ _ _ Ht); simpl.
  - destruct t; simpl; f_equal; lia.
  - destruct Hs as (_ & Hc & Hs). destruct (Z.eqb_spec c 0); [done |]. simpl. destruct t as [|d t]; simpl.
    + destruct (Z.eqb_spec c 0); [done |]. f_equal; lia.
    + destruct Ht as (_ & _ & Ht). destruct (c =? d); [| done]. apply IH; auto. lia.
Qed.

Lemma strchr_ok m s c : forall fuel p, cstr m p s -> u8 c <> 0 -> (length s < fuel)%nat ->
  strchr fuel m p c = Ok (ptr_or_null (first_pos (fun r => bool_decide (head r = Some (u8 c))) s p)).
Proof.
  induction s as [|d s IH]; intros [|fuel] p Hs Hz Hf; simpl in Hf; try lia; simpl;
    rewrite (cstr_load _ _ _ Hs); simpl.
  - by destruct (u8 c).
  - destruct Hs as (_ & Hd & Hs). destruct (Z.eqb_spec d (u8 c)) as [-> | Hne].
    + by rewrite bool_decide_eq_true_2.
    + destruct (Z.eqb_spec d 0); [done |]. rewrite bool_decide_eq_false_2 by congruence. apply IH; auto. lia.
Qed.

Lemma char_in_ok m set c : forall fuel p, cstr m p set -> (length set < fuel)%nat ->
  char_in fuel m p c = Ok (bool_decide (c ∈ set)).
Proof.
  induction set as [|d set IH]; intros [|fuel] p Hs Hf; simpl in Hf; try lia; simpl;
    rewrite (cstr_load _ _ _ Hs); simpl; [done |].
  destruct Hs as (_ & Hd & Hs). destruct (Z.eqb_spec d 0); [done |].
  destruct (Z.eqb_spec d c) as [-> | Hne].
  - rewrite bool_decide_eq_true_2; [done | set_solver].
  - rewrite IH by (done || lia). f_equal. apply bool_decide_ext. set_solver.
Qed.

Lemma strspn_loop_ok m set s q : cstr m q set -> forall fuel p n, cstr m p s ->
  (length s + length set < fuel)%nat -> strspn_loop fuel m p q n = Ok (n + span set s).
Proof.
  intros Hq. induction s as [|c s IH]; intros [|fuel] p n Hs Hf; simpl in Hf; try lia;
    cbn [strspn_loop]; rewrite (cstr_load _ _ _ Hs); cbn [mbind res_bind]; [simpl; f_equal; lia |].
  destruct Hs as (_ & Hc & Hs). destruct (Z.eqb_spec c 0); [done |].
  rewrite (char_in_ok m set c) by (done || lia). cbn [mbind res_bind span].
  destruct (bool_decide (c ∈ set)); [| f_equal; lia]. rewrite IH by (done || lia). f_equal; lia.
Qed.

Lemma strpbrk_ok m set s q : cstr m q set -> forall fuel p, cstr m p s ->
  (length s + length set < fuel)%nat ->
  strpbrk fuel m p q =
    Ok (ptr_or_null (first_pos (fun r => match r with c :: _ => bool_decide (c ∈ set) | [] => false end) s p)).
Proof.
  intros Hq. induction s as [|c s IH]; intros [|fuel] p Hs Hf; simpl in Hf; try lia;
    cbn [strpbrk]; rewrite (cstr_load _ _ _ Hs); cbn [mbind res_bind]; [done |].
  destruct Hs as (_ & Hc & Hs). destruct (Z.eqb_spec c 0); [done |].
  rewrite (char_in_ok m set c) by (done || lia). cbn [mbind res_bind first_pos].
  destruct (bool_decide (c ∈ set)); [done |]. apply IH; [done | lia].
Qed.

Lemma prefix_at_ok m sub : forall fuel s p q, cstr m p s -> cstr m q sub -> (length sub < fuel)%nat ->
  prefix_at fuel m p q = Ok (bool_decide (sub `prefix_of` s)).
Proof.
  induction sub as [|d sub IH]; intros [|fuel] s p q Hs Hq Hf; simpl in Hf; try lia; cbn [prefix_at];
    rewrite (cstr_load _ _ _ Hs), (cstr_load _ _ _ Hq); cbn [mbind res_bind].
  - rewrite Z.eqb_refl. cbn [negb]. rewrite andb_false_r. cbn [andb].
    rewrite bool_decide_eq_true_2; [done |]. apply prefix_nil.
  - destruct Hq as (_ & Hd & Hq). destruct (Z.eqb_spec d 0); [done |]. destruct s as [|c s].
    + cbn [negb andb Z.eqb]. rewrite bool_decide_eq_false_2; [done |]. by intros ?%prefix_nil_not.
    + destruct Hs as (_ & Hc & Hs). destruct (Z.eqb_spec c 0); [done |]. cbn [negb andb].
      destruct (Z.eqb_spec c d) as [-> | Hne].
      * rewrite (IH fuel s) by (done || lia). f_equal. apply bool_decide_ext.
        split; [apply prefix_cons | apply prefix_cons_inv_2].
      * rewrite bool_decide_eq_false_2; [done |]. intros E%prefix_cons_inv_1. congruence.
Qed.

Lemma strstr_ok m sub s q : cstr m q sub -> forall fuel p, cstr m p s ->
  (length s + length sub < fuel)%nat ->
  strstr fuel m p q = Ok (ptr_or_null (first_pos (fun r => bool_decide (sub `prefix_of` r)) s p)).
Proof.
  intros Hq. induction s as [|c s IH]; intros [|fuel] p Hs Hf; simpl in Hf; try lia;
    cbn [strstr]; rewrite (cstr_load _ _ _ Hs); cbn [mbind res_bind]; [done |].
  pose proof Hs as Hs'. destruct Hs as (_ & Hc & Hs). destruct (Z.eqb_spec c 0); [done |].
  rewrite (prefix_at_ok m sub (S fuel) (c :: s)) by (done || lia). cbn [mbind res_bind first_pos].
  destruct (bool_decide _); [done |]. apply IH; [done | lia].
Qed.

(** the read-only string functions terminate on null-terminated strings
    and compute their mathematical counterparts: length, lexicographic
    difference at the first mismatch, first occurrence of a character, of a
    character of a set and of a substring, and the initial span over a set.
    ([strstr] looks at positions before the terminating null only, so nothing,
    not even the empty string, is found in an empty string.) *)
Theorem strings_correct m p q s t c fuel : cstr m p s -> cstr m q t -> u8 c <> 0 ->
  (length s + length t < fuel)%nat ->
  strlen fuel m p = Ok (Z.of_nat (length s)) /\
  strcmp fuel m p q = Ok (lex_diff s t) /\
  strchr fuel m p c = Ok (ptr_or_null (first_pos (fun r => bool_decide (head r = Some (u8 c))) s p)) /\
  strspn fuel m p q = Ok (span t s) /\
  strpbrk fuel m p q =
    Ok (ptr_or_null (first_pos (fun r => match r with d :: _ => bool_decide (d ∈ t) | [] => false end) s p)) /\
  strstr fuel m p q = Ok (ptr_or_null (first_pos (fun r => bool_decide (t `prefix_of` r)) s p)).
Proof.
  intros Hs Ht Hc Hf. split_and!.
  - unfold strlen. rewrite (strlen_loop_ok m s) by (done || lia). done.
  - apply strcmp_ok; auto. lia.
  - apply strchr_ok; auto. lia.
  - unfold strspn. rewrite (strspn_loop_ok m t s q) by (done || lia). done.
  - by apply strpbrk_ok.
  - by apply strstr_ok.
Qed.

(** "abcb" at 0x100 and "cb" at 0x200. *)
Definition sample_str : mem :=
  list_to_map (zip (seqZ 0x100 5) [97; 98; 99; 98; 0] ++ zip (seqZ 0x200 3) [99; 98; 0]).

Lemma strings_correct_witness :
  strlen 8 sample_str 0x100 = Ok 4 /\ strstr 8 sample_str 0x100 0x200 = Ok 0x102 /\
  strcmp 8 sample_str 0x100 0x200 = Ok (-2).
Proof.
  destruct (strings_correct sample_str 0x100 0x200 [97; 98; 99; 98] [99; 98] 98 8) as (H1 & H2 & _ & _ & _ & H3);
    [vm_compute; intuition congruence | vm_compute; intuition congruence | done | simpl; lia |].
  split_and!; [exact H1 | exact H3 | exact H2].
Defined.
