(* ===== verification/CStdlib.v ===== *)
(** lib/wlibc/src/ctype.c and stdlib.c: character classes, number parsing,
    the pseudo-random generator, exit functions and the allocation front end.

    The mask bits of the character table are symbolic (their values come from
    the C library headers, as does RAND_MAX); the allocator callbacks are
    parameters that act on an abstract world. *)

From Stdlib Require Import ZArith Lia Bool.
From stdpp Require Import base list numbers gmap.
From S2P Require Import Prelude SysUtils CString.

(** ** ctype.c *)

Inductive ctype_class :=
| ISupper | ISlower | ISalpha | ISdigit | ISxdigit | ISspace | ISprint | ISgraph | ISblank
| IScntrl | ISpunct | ISalnum.

#[global] Instance ctype_class_eq_dec : EqDecision ctype_class.
Proof. solve_decision. Defined.

Abbreviation cmask := (list ctype_class).

Definition m_cntrl : cmask := [IScntrl].
Definition m_punct : cmask := [ISprint; ISgraph; ISpunct].
Definition m_digit : cmask := [ISdigit; ISxdigit; ISprint; ISgraph; ISalnum].
Definition m_upperx : cmask := [ISupper; ISalpha; ISxdigit; ISprint; ISgraph; ISalnum].
Definition m_upper : cmask := [ISupper; ISalpha; ISprint; ISgraph; ISalnum].
Definition m_lowerx : cmask := [ISlower; ISalpha; ISxdigit; ISprint; ISgraph; ISalnum].
Definition m_lower : cmask := [ISlower; ISalpha; ISprint; ISgraph; ISalnum].

(** Rows -128 .. -1 (signed characters), 0 .. 127 and 128 .. 255. *)
Definition ctype_rows_neg : list cmask := replicate 128 [].
Definition ctype_rows_ascii : list cmask :=
  replicate 9 m_cntrl ++ [[ISspace; ISblank; IScntrl]] ++ replicate 4 [ISspace; IScntrl] ++
  replicate 18 m_cntrl ++ [[ISspace; ISprint; ISblank]] ++ replicate 15 m_punct ++
  replicate 10 m_digit ++ replicate 7 m_punct ++ replicate 6 m_upperx ++ replicate 20 m_upper ++
  replicate 6 m_punct ++ replicate 6 m_lowerx ++ replicate 20 m_lower ++ replicate 4 m_punct ++
  [m_cntrl].
Definition ctype_rows_high : list cmask := replicate 128 [].

Definition C_ctype_b_data : list cmask := ctype_rows_neg ++ ctype_rows_ascii ++ ctype_rows_high.

(** [__ctype_b[c]]: the table with offset 128. *)
Definition ctype_b (c : Z) : cmask := default [] (C_ctype_b_data !! Z.to_nat (c + 128)).
Definition is_class (k : ctype_class) (c : Z) : bool := bool_decide (k ∈ ctype_b c).
Definition isspace (c : Z) : bool := is_class ISspace c.
Definition isdigit (c : Z) : bool := is_class ISdigit c.

(** the character table classifies every character code from -128 to 255
    as the C locale does: letters, digits, hexadecimal digits, white space and
    blanks, printable and graphic characters, punctuation and controls; codes
    outside ASCII are in no class. *)
Theorem ctype_table_correct c : -128 <= c < 256 ->
  let upper := (65 <=? c) && (c <=? 90) in
  let lower := (97 <=? c) && (c <=? 122) in
  let digit := (48 <=? c) && (c <=? 57) in
  let graph := (33 <=? c) && (c <=? 126) in
  length C_ctype_b_data = 384%nat /\
  is_class ISupper c = upper /\ is_class ISlower c = lower /\ is_class ISalpha c = upper || lower /\
  isdigit c = digit /\ is_class ISalnum c = upper || lower || digit /\
  is_class ISxdigit c = digit || ((65 <=? c) && (c <=? 70)) || ((97 <=? c) && (c <=? 102)) /\
  isspace c = ((9 <=? c) && (c <=? 13)) || (c =? 32) /\ is_class ISblank c = (c =? 9) || (c =? 32) /\
  is_class ISgraph c = graph /\ is_class ISprint c = graph || (c =? 32) /\
  is_class ISpunct c = graph && negb (upper || lower || digit) /\
  is_class IScntrl c = ((0 <=? c) && (c <=? 31)) || (c =? 127).
Proof.
  intros Hc. cbv zeta.
  match goal with |- ?P => assert (H : forallb (fun c => bool_decide
    (ltac:(let f := eval pattern c in P in match f with ?g _ => exact (g c) end))) (seqZ (-128) 384) = true) end.
  { vm_compute. reflexivity. }
  rewrite forallb_forall in H. specialize (H c). apply bool_decide_eq_true in H; [exact H |].
  apply list_elem_of_In, elem_of_seqZ. lia.
Qed.

Lemma ctype_table_correct_witness : isspace 32 = true /\ isdigit 65 = false.
Proof.
  destruct (ctype_table_correct 32) as (_ & _ & _ & _ & _ & _ & _ & Hs & _); [lia |].
  destruct (ctype_table_correct 65) as (_ & _ & _ & _ & Hd & _); [lia |].
  split; [exact Hs | exact Hd].
Defined.

(** ** strtoul *)

Definition ULONG_MAX : Z := 2 ^ 32 - 1.

(** The digit table, indexed from '0'; 99 is no digit. *)
Definition char2digit : list Z :=
  seqZ 0 10 ++ replicate 7 99 ++ seqZ 10 26 ++ replicate 6 99 ++ seqZ 10 26.

(** The value of the character in the loop for [base]; None ends the loop.
    [*p - '0'] is computed in int from a signed char. *)
Definition digit_of (base c : Z) : option Z :=
  let digit := u32 (signed 8 c - 48) in
  if base =? 8 then if 7 <? digit then None else Some digit
  else if base =? 10 then if 9 <? digit then None else Some digit
  else if 122 - 48 <? digit then None
  else let d := default 99 (char2digit !! Z.to_nat digit) in
       if base <=? d then None else Some d.

(** One loop of the four (base 8, 10, 16 and any other): position, result,
    overflow flag and whether any digit was seen. *)
Fixpoint digits_loop (fuel : nat) (m : mem) (base p result : Z) (overflow any : bool)
  : res (Z * Z * bool * bool) :=
  match fuel with
  | O => Stop FFuel
  | S f =>
      c ← loadb m p;
      match digit_of base c with
      | None => Ok (p, result, overflow, any)
      | Some digit =>
          let overflow1 := overflow || (ULONG_MAX / base <? result) in
          let result1 := u32 (result * base) in
          let overflow2 := overflow1 || (ULONG_MAX - result1 <? digit) in
          digits_loop f m base (p + 1) (u32 (result1 + digit)) overflow2 true
      end
  end.

Fixpoint skip_spaces (fuel : nat) (m : mem) (p : Z) : res Z :=
  match fuel with
  | O => Stop FFuel
  | S f => c ← loadb m p; if isspace (signed 8 c) then skip_spaces f m (p + 1) else Ok p
  end.

Definition is_x (c : Z) : bool := (c =? 120) || (c =? 88).

(** Returns the value and the end pointer. *)
Definition strtoul (fuel : nat) (m : mem) (str base0 : Z) : res (Z * Z) :=
  p0 ← skip_spaces fuel m str;
  c ← loadb m p0;
  let negative := c =? 45 in
  let p1 := if (c =? 45) || (c =? 43) then p0 + 1 else p0 in
  '(p2, base, any0) ←
    (if base0 =? 0 then
       c1 ← loadb m p1;
       if c1 =? 48 then
         c2 ← loadb m (p1 + 1);
         if is_x c2 then Ok (p1 + 2, 16, false) else Ok (p1 + 1, 8, true)
       else Ok (p1, 10, false)
     else if base0 =? 16 then
       c1 ← loadb m p1;
       if c1 =? 48 then
         c2 ← loadb m (p1 + 1);
         if is_x c2 then Ok (p1 + 2, 16, false) else Ok (p1, 16, false)
       else Ok (p1, 16, false)
     else Ok (p1, base0, false));
  '(p3, result, overflow, any) ←
    (if (2 <=? base) && (base <=? 36) then digits_loop fuel m base p2 0 false any0
     else Ok (p2, 0, false, any0));
  let endp := if any : bool then p3 else str in
  if overflow : bool then Ok (ULONG_MAX, endp)
  else Ok (if negative then u32 (- result) else result, endp).

Definition atoi (fuel : nat) (m : mem) (str : Z) : res Z :=
  '(v, _) ← strtoul fuel m str 10; Ok (s32 v).

(** ** Random numbers and exit functions *)

Section Misc.
Context (RAND_MAX : Z).

Definition rand (rand_next : Z) : Z * Z :=
  let n := u64 (rand_next * 11035152451103515245 + 12345) in
  (s32 (Z.shiftr n 16 mod (RAND_MAX + 1)), n).
Definition srand (seed : Z) : Z := seed.

End Misc.

Definition Exit_funcs_max : nat := 32.

(** atexit: the registered functions, in order. *)
Definition atexit {F} (exit_funcs : list F) (func : F) : Z * list F :=
  if Nat.eqb (length exit_funcs) Exit_funcs_max then (-1, exit_funcs) else (0, exit_funcs ++ [func]).

(** ** Allocation front end

    The three callbacks may be absent; each acts on the world [W] that holds
    the memory. *)
Section Alloc.
Context {W : Type}.
Context (cb_malloc cb_malloc_empty : option (W -> Z -> Z * W)) (cb_free : option (W -> Z -> W)).
Context (memory_of : W -> mem) (set_memory : W -> mem -> W).

Definition malloc (w : W) (sz : Z) : Z * W :=
  match cb_malloc with
  | None => (0, w)
  | Some ma =>
      let '(r, w1) := ma w sz in
      if (r =? 0) && negb (sz =? 0) then
        match cb_malloc_empty with
        | None => (r, w1)
        | Some me => let '(rc, w2) := me w1 sz in if rc =? 0 then ma w2 sz else (r, w2)
        end
      else (r, w1)
  end.

Definition free (w : W) (ptr : Z) : W := match cb_free with Some f => f w ptr | None => w end.

Definition calloc (w : W) (num size : Z) : res (Z * W) :=
  let sz := u32 (num * size) in
  let '(r, w1) := malloc w sz in
  if negb (sz =? 0) && negb (r =? 0) then
    m1 ← memset (memory_of w1) r 0 sz; Ok (r, set_memory w1 m1)
  else Ok (r, w1).

End Alloc.

(** ** Correctness of strtoul *)

(** The value of a digit string. *)
Definition num_value (base : Z) (ds : list Z) : Z := foldl (fun v d => v * base + d) 0 ds.

(** The value of a character as a digit: '0' to '9', 'A' to 'Z' and 'a' to 'z'. *)
Definition digit_value (c : Z) : option Z :=
  if (48 <=? c) && (c <=? 57) then Some (c - 48)
  else if (65 <=? c) && (c <=? 90) then Some (c - 65 + 10)
  else if (97 <=? c) && (c <=? 122) then Some (c - 97 + 10)
  else None.
Definition digit_in (base c : Z) : option Z := match digit_value c with Some d => if d <? base then Some d else None | None => None end.

(** The code's digits are these. *)
Lemma digit_of_in base c : 2 <= base <= 36 -> in_range 8 c -> digit_of base c = digit_in base c.
Proof.
  intros Hb Hc. assert (H : forallb (fun b => forallb (fun x => bool_decide (digit_of b x = digit_in b x)) (seqZ 0 256)) (seqZ 2 35) = true) by (vm_compute; reflexivity).
  rewrite forallb_forall in H. specialize (H base ltac:(apply list_elem_of_In, elem_of_seqZ; lia)). rewrite forallb_forall in H.
  specialize (H c ltac:(apply list_elem_of_In, elem_of_seqZ; unfold in_range in Hc; lia)). by apply bool_decide_eq_true_1 in H.
Qed.

(** The characters at [p] are digits of values [ds] and the next one is no digit. *)
Fixpoint digits_at (m : mem) (base p : Z) (ds : list Z) : Prop :=
  match ds with
  | [] => exists c, m !! p = Some c /\ in_range 8 c /\ digit_in base c = None
  | d :: t => exists c, m !! p = Some c /\ in_range 8 c /\ digit_in base c = Some d /\ digits_at m base (p + 1) t
  end.

Lemma digit_in_range base c d : digit_in base c = Some d -> 0 <= d < base.
Proof. unfold digit_in, digit_value. intros H. repeat case_match; simplify_eq; bit_cases; lia. Qed.

(** The flag is exact: it is set when and only when the value exceeds ULONG_MAX. *)
Lemma digits_loop_ok m base ds : 2 <= base <= 36 -> forall fuel p v result overflow any,
  digits_at m base p ds -> (length ds < fuel)%nat -> 0 <= v ->
  overflow = (ULONG_MAX <? v) -> (v <= ULONG_MAX -> result = v) -> in_range 32 result ->
  let v' := foldl (fun v d => v * base + d) v ds in
  exists r, digits_loop fuel m base p result overflow any =
    Ok (p + Z.of_nat (length ds), r, ULONG_MAX <? v', any || negb (Nat.eqb (length ds) 0)) /\
    (v' <= ULONG_MAX -> r = v') /\ v <= v'.
Proof.
  intros Hb. unfold ULONG_MAX. induction ds as [|d t IH]; intros [|fuel] p v result overflow any Hd Hf Hv Ho Hr Hrg;
    simpl in Hf; try lia.
  - destruct Hd as (c & Hc & Hcr & Hn). cbn [digits_loop]. unfold loadb. rewrite Hc. simpl. rewrite digit_of_in, Hn by done.
    exists result. rewrite Z.add_0_r, orb_false_r, Ho. split_and!; [done | done | lia].
  - destruct Hd as (c & Hc & Hcr & Hn & Hd). cbn [digits_loop]. unfold ULONG_MAX, loadb. rewrite Hc. cbn [from_opt mbind res_bind].
    rewrite digit_of_in, Hn by done. unfold in_range in Hrg.
    assert (Hdr : 0 <= d < 2 ^ 32) by (pose proof (digit_in_range base c d Hn); lia).
    assert (Hvd : v <= v * base + d) by nia.
    destruct (IH fuel (p + 1) (v * base + d) (u32 (u32 (result * base) + d))
      (overflow || ((2 ^ 32 - 1) / base <? result) || (2 ^ 32 - 1 - u32 (result * base) <? d)) true)
      as (r & E & Er & Em); [done | lia | nia | | | apply wrap_range; lia |].
    + subst overflow. destruct (Z.ltb_spec (2 ^ 32 - 1) v) as [Hgt|Hle]; simpl.
      { symmetry. apply Z.ltb_lt. lia. }
      rewrite (Hr Hle) in *. destruct (Z.ltb_spec ((2 ^ 32 - 1) / base) v) as [Hq|Hq]; simpl.
      { symmetry. apply Z.ltb_lt. pose proof (Z.mul_succ_div_gt (2 ^ 32 - 1) base ltac:(lia)). nia. }
      assert (v * base <= 2 ^ 32 - 1).
      { pose proof (Z.mul_div_le (2 ^ 32 - 1) base ltac:(lia)). nia. }
      rewrite wrap_small by (unfold in_range; nia). bit_cases; done.
    + intros Hle. assert (Hv2 : v <= 2 ^ 32 - 1) by lia. rewrite (Hr Hv2).
      rewrite (wrap_small 32 (v * base)) by (unfold in_range; nia). apply wrap_small. unfold in_range. nia.
    + exists r. rewrite E. cbn [foldl length]. rewrite orb_true_l, orb_true_r.
      split_and!; [| done | lia]. do 4 f_equal. lia.
Qed.

(** White space from [p] on, up to [q]. *)
Fixpoint spaces_to (m : mem) (p : Z) (n : nat) : Prop :=
  match n with
  | O => True
  | S k => (exists c, m !! p = Some c /\ isspace (signed 8 c) = true) /\ spaces_to m (p + 1) k
  end.

Lemma skip_spaces_ok m c n : isspace (signed 8 c) = false -> forall fuel p,
  spaces_to m p n -> m !! (p + Z.of_nat n) = Some c -> (n < fuel)%nat ->
  skip_spaces fuel m p = Ok (p + Z.of_nat n).
Proof.
  intros Hc. induction n as [|n IH]; intros [|fuel] p Hs He Hf; try lia; cbn [skip_spaces]; unfold loadb.
  - rewrite Z.add_0_r in *. rewrite He. simpl. by rewrite Hc.
  - destruct Hs as [(d & Hd & Hsp) Hs]. rewrite Hd. simpl. rewrite Hsp.
    rewrite IH; [f_equal; lia | done | | lia]. rewrite <- He. f_equal. lia.
Qed.

(** The prefix at [p]: the base it leads to, the place of the digits, and
    whether it is a digit itself. *)
Inductive prefix (m : mem) (p : Z) : Z -> Z -> Z -> bool -> Prop :=
  | p_given base : 2 <= base <= 36 -> base <> 16 -> prefix m p base base p false
  | p_hex base c : base = 0 \/ base = 16 -> m !! p = Some 48 -> m !! (p + 1) = Some c -> is_x c = true -> prefix m p base 16 (p + 2) false
  | p_16 c : m !! p = Some c -> c <> 48 -> prefix m p 16 16 p false
  | p_16_0 c : m !! p = Some 48 -> m !! (p + 1) = Some c -> is_x c = false -> prefix m p 16 16 p false
  | p_octal c : m !! p = Some 48 -> m !! (p + 1) = Some c -> is_x c = false -> prefix m p 0 8 (p + 1) true
  | p_decimal c : m !! p = Some c -> c <> 48 -> prefix m p 0 10 p false.

(** C40: [strtoul] on white space, an optional sign, an optional prefix (base 0 and
    16) and digits, for the bases 0 and 2 to 36: it stops at the first
    non-digit, returns the number modulo the sign when it fits in 32 bits and
    ULONG_MAX exactly when it does not; without a digit it returns 0 and the
    start of the string (after "0x" too). *)
Theorem strtoul_correct m str base0 base n c ds fuel p2 (neg plus any : bool) :
  spaces_to m str n -> m !! (str + Z.of_nat n) = Some c -> isspace (signed 8 c) = false ->
  neg = (c =? 45) -> plus = (c =? 43) ->
  let p1 := str + Z.of_nat n + (if neg || plus then 1 else 0) in
  prefix m p1 base0 base p2 any -> digits_at m base p2 ds -> (n + length ds + 2 < fuel)%nat ->
  let v := num_value base ds in
  strtoul fuel m str base0 =
    Ok (if ULONG_MAX <? v then ULONG_MAX else if neg then u32 (- v) else v,
        if any || negb (Nat.eqb (length ds) 0) then p2 + Z.of_nat (length ds) else str).
Proof.
  intros Hs Hc Hsp -> -> p1 Hp Hd Hf v. unfold strtoul.
  rewrite (skip_spaces_ok m c n Hsp) by (done || lia). cbn [mbind res_bind].
  assert (El : loadb m (str + Z.of_nat n) = Ok c) by (unfold loadb; by rewrite Hc). rewrite El. cbn [mbind res_bind].
  replace (if (c =? 45) || (c =? 43) then _ else _) with p1 by (unfold p1; destruct (_ || _); lia).
  assert (Hb : 2 <= base <= 36) by (destruct Hp; lia).
  match goal with |- mbind _ ?x = _ => assert (Epre : x = Ok (p2, base, any)) end.
  { unfold loadb. destruct Hp as [b Hb1 Hb2|b x [-> | ->] H0 H1 Hx|x H0 Hx|x H0 H1 Hx|x H0 H1 Hx|x H0 Hx]; cbn [Z.eqb Pos.eqb].
    - destruct (Z.eqb_spec b 0); [lia |]. by destruct (Z.eqb_spec b 16).
    - rewrite H0. cbn [from_opt mbind res_bind Z.eqb Pos.eqb]. rewrite H1. cbn [from_opt mbind res_bind]. by rewrite Hx.
    - rewrite H0. cbn [from_opt mbind res_bind Z.eqb Pos.eqb]. rewrite H1. cbn [from_opt mbind res_bind]. by rewrite Hx.
    - rewrite H0. cbn [from_opt mbind res_bind]. by destruct (Z.eqb_spec x 48).
    - rewrite H0. cbn [from_opt mbind res_bind Z.eqb Pos.eqb]. rewrite H1. cbn [from_opt mbind res_bind]. by rewrite Hx.
    - rewrite H0. cbn [from_opt mbind res_bind Z.eqb Pos.eqb]. rewrite H1. cbn [from_opt mbind res_bind]. by rewrite Hx.
    - rewrite H0. cbn [from_opt mbind res_bind]. by destruct (Z.eqb_spec x 48). }
  rewrite Epre. cbn [mbind res_bind]. rewrite (proj2 (Z.leb_le 2 base)), (proj2 (Z.leb_le base 36)) by lia. cbn [andb].
  destruct (digits_loop_ok m base ds Hb fuel p2 0 0 false any Hd ltac:(lia) ltac:(lia) eq_refl ltac:(done)
    ltac:(unfold in_range; lia)) as (r & -> & Er & Hm).
  cbn [mbind res_bind]. fold (num_value base ds). fold v. change (foldl _ 0 ds) with v in *.
  destruct (Z.ltb_spec ULONG_MAX v) as [Hgt|Hle]; [done |]. by rewrite (Er Hle).
Qed.

(** " -42;" at 0x100. *)
Definition sample_num : mem := list_to_map (zip (seqZ 0x100 5) [32; 45; 52; 50; 59]).

(** "0x2a;" at 0x100. *)
Definition sample_hex : mem := list_to_map (zip (seqZ 0x100 5) [48; 120; 50; 97; 59]).

Lemma strtoul_correct_witness : strtoul 10 sample_num 0x100 10 = Ok (u32 (-42), 0x104) /\ strtoul 10 sample_hex 0x100 0 = Ok (0x2a, 0x104).
Proof.
  split.
  - eapply eq_trans; [apply (strtoul_correct sample_num 0x100 10 10 1 45 [4; 2] 10 0x102 true false false) |
                    vm_compute; reflexivity].
    + simpl. split; [| done]. exists 32. split; vm_compute; reflexivity.
    + vm_compute. reflexivity.
    + vm_compute. reflexivity.
    + reflexivity.
    + reflexivity.
    + apply p_given; lia.
    + simpl. exists 52. split_and!; [vm_compute; reflexivity | unfold in_range; lia | reflexivity |].
      exists 50. split_and!; [vm_compute; reflexivity | unfold in_range; lia | reflexivity |].
      exists 59. split_and!; [vm_compute; reflexivity | unfold in_range; lia | reflexivity].
    + simpl. lia.
  - eapply eq_trans; [apply (strtoul_correct sample_hex 0x100 0 16 0 48 [2; 10] 10 0x102 false false false) |
                    vm_compute; reflexivity].
    + done.
    + vm_compute. reflexivity.
    + vm_compute. reflexivity.
    + reflexivity.
    + reflexivity.
    + change (prefix sample_hex 0x100 0 16 (0x100 + 2) false). apply (p_hex _ _ 0 120); [by left | vm_compute; reflexivity..].
    + simpl. exists 50. split_and!; [vm_compute; reflexivity | unfold in_range; lia | reflexivity |].
      exists 97. split_and!; [vm_compute; reflexivity | unfold in_range; lia | reflexivity |].
      exists 59. split_and!; [vm_compute; reflexivity | unfold in_range; lia | reflexivity].
    + simpl. lia.
Defined.
