(* ===== verification/Stdio.v ===== *)
(** lib/wlibc/src/stdio.c: formatted output.

    The buffer, the format and the strings live in the memory of [CString].
    Variadic arguments are a list of 32-bit and 64-bit values (int, long,
    size_t, ptrdiff_t and pointers are 32 bits wide).  The conversion of
    floating point values ([snprint_float]) is not modelled: it is the
    parameter [print_float], which appends characters like the others. *)

From Stdlib Require Import ZArith Lia Bool.
From stdpp Require Import base list numbers gmap.
From S2P Require Import Prelude SysUtils CString CStdlib.

(** enum Flags and the is_present flags, as bits *)
Definition Align_left : Z := 1.
Definition Force_sign : Z := 2.
Definition Space_instead_plus : Z := 4.
Definition Alternate : Z := 8.
Definition Null_pad : Z := 16.

Definition Flags_present : Z := 1.
Definition Width_present : Z := 2.
Definition Precision_present : Z := 4.
Definition Length_present : Z := 8.
Definition Specifier_present : Z := 16.

Inductive parse_stage :=
| PNone | PFlags | PWidth_may_be_asterisk | PWidth_digits | PPrecision_dot_or_absent
| PPrecision_may_be_asterisk | PPrecision_digits | PLength | PLength_may_be_h | PLength_may_be_l
| PSpecifier.

Inductive length_spec :=
| Length_none | Length_hh | Length_h | Length_l | Length_ll | Length_j | Length_z | Length_t | Length_L.

Record spec_t := MkSpec {
  present : Z; flags : Z; width : Z; precision : Z; length_ : length_spec; specifier : Z
}.

Definition has (f bit : Z) : bool := negb (Z.land f bit =? 0).

(** ** Appending characters

    The state of the output functions is the memory and [buf_ptr]; [buf] and
    [sz] are fixed. *)
Abbreviation ost := (mem * Z)%type.

Definition add_char (buf sz : Z) (ch : Z) (s : ost) : res ost :=
  let '(m, buf_ptr) := s in
  m1 ← (if buf_ptr <? sz then storeb m (buf + buf_ptr) ch else Ok m);
  Ok (m1, u32 (buf_ptr + 1)).

Fixpoint emit (buf sz : Z) (l : list Z) (s : ost) : res ost :=
  match l with
  | [] => Ok s
  | c :: t => s1 ← add_char buf sz c s; emit buf sz t s1
  end.

Fixpoint add_chars (buf sz : Z) (ch : Z) (count : nat) (s : ost) : res ost :=
  match count with
  | O => Ok s
  | S k => s1 ← add_char buf sz ch s; add_chars buf sz ch k s1
  end.

(** add_str, and the string loop of snprint_str: the characters are read from
    the memory as it is when they are copied. *)
Fixpoint add_str (buf sz : Z) (str : Z) (count : nat) (s : ost) : res ost :=
  match count with
  | O => Ok s
  | S k => c ← loadb s.1 str; s1 ← add_char buf sz c s; add_str buf sz (str + 1) k s1
  end.

(** ** Integers *)

Definition Oct : Z := 8.
Definition Dec : Z := 10.
Definition Hex : Z := 16.

Definition digit_char (d : Z) : Z := if d <? 10 then 48 + d else 97 + d - 10.

(** The do-while loop: digits of [val], the lowest first.  The array holds 22. *)
Fixpoint digits_of (fuel : nat) (val base : Z) : res (list Z) :=
  match fuel with
  | O => Stop FMem
  | S f =>
      let d := digit_char (val mod base) in
      let val' := val / base in
      if val' =? 0 then Ok [d] else t ← digits_of f val' base; Ok (d :: t)
  end.

Definition snprint_64bit_int (buf sz val : Z) (spec : spec_t) (base : Z) (positive : bool) (m : mem)
  : res ost :=
  if negb ((base =? Oct) || (base =? Dec) || (base =? Hex)) then Ok (m, 0)
  else
    digits ← digits_of 22 val base;
    let digits_num := Z.of_nat (length digits) in
    let sign :=
      if base =? Dec then
        if positive then
          if has (flags spec) Force_sign then 43
          else if has (flags spec) Space_instead_plus then 32 else 0
        else 45
      else 0 in
    let prefix := if has (flags spec) Alternate && ((base =? Oct) || (base =? Hex)) then base else 0 in
    let len := u32 (cmax digits_num (precision spec) + (if sign =? 0 then 0 else 1)) in
    let len := u32 (len + (if prefix =? Hex then 2 else if prefix =? Oct then 1 else 0)) in
    let left := has (flags spec) Align_left in
    let pad := if has (flags spec) Null_pad then 48 else 32 in
    s ← (if negb left && (len <? width spec) then add_chars buf sz pad (Z.to_nat (width spec - len)) (m, 0)
         else Ok (m, 0));
    s ← (if negb (sign =? 0) then add_char buf sz sign s else Ok s);
    s ← (if negb (prefix =? 0) then
           s ← add_char buf sz 48 s;
           if prefix =? Hex then add_char buf sz 120 s else Ok s
         else Ok s);
    s ← (if digits_num <? precision spec
         then add_chars buf sz 48 (Z.to_nat (precision spec - digits_num)) s else Ok s);
    s ← emit buf sz (rev digits) s;
    if left && (len <? width spec) then add_chars buf sz pad (Z.to_nat (width spec - len)) s else Ok s.

Definition snprint_uint64 (buf sz val : Z) spec base m := snprint_64bit_int buf sz val spec base true m.
Definition snprint_int64 (buf sz val : Z) spec base m :=
  snprint_64bit_int buf sz (u64 (if val <? 0 then - val else val)) spec base (0 <=? val) m.

(** ** Characters and strings *)

Definition snprint_char (buf sz ch : Z) (spec : spec_t) (m : mem) : res ost :=
  let left := has (flags spec) Align_left in
  s ← (if negb left && (1 <? width spec) then add_chars buf sz 32 (Z.to_nat (width spec - 1)) (m, 0)
       else Ok (m, 0));
  s ← add_char buf sz (u8 ch) s;
  if left && (1 <? width spec) then add_chars buf sz 32 (Z.to_nat (width spec - 1)) s else Ok s.

Definition snprint_str (fuel : nat) (buf sz str : Z) (spec : spec_t) (m : mem) : res ost :=
  n ← strlen fuel m str;
  let len := if has (present spec) Precision_present then cmin n (precision spec) else n in
  let left := has (flags spec) Align_left in
  s ← (if negb left && (len <? width spec) then add_chars buf sz 32 (Z.to_nat (width spec - len)) (m, 0)
       else Ok (m, 0));
  s ← add_str buf sz str (Z.to_nat len) s;
  if left && (len <? width spec) then add_chars buf sz 32 (Z.to_nat (width spec - len)) s else Ok s.

(** ** One conversion *)

Inductive varg := A32 (v : Z) | A64 (v : Z).

Definition va32 (args : list varg) : res (Z * list varg) :=
  match args with A32 v :: t => Ok (v, t) | _ => Stop FMem end.
Definition va64 (args : list varg) : res (Z * list varg) :=
  match args with A64 v :: t => Ok (v, t) | _ => Stop FMem end.

(** The signed and unsigned argument of an integer conversion. *)
Definition int_arg (l : length_spec) (args : list varg) : res (Z * list varg) :=
  match l with
  | Length_none | Length_l | Length_t => '(v, t) ← va32 args; Ok (s32 v, t)
  | Length_hh => '(v, t) ← va32 args; Ok (Z.land (s32 v) 0xff, t)
  | Length_h => '(v, t) ← va32 args; Ok (Z.land (s32 v) 0xffff, t)
  | Length_z => '(v, t) ← va32 args; Ok (u32 v, t)
  | Length_ll | Length_j | Length_L => '(v, t) ← va64 args; Ok (signed 64 v, t)
  end.

Definition uint_arg (l : length_spec) (args : list varg) : res (Z * list varg) :=
  match l with
  | Length_none | Length_l | Length_z => '(v, t) ← va32 args; Ok (u32 v, t)
  | Length_hh => '(v, t) ← va32 args; Ok (Z.land (u32 v) 0xff, t)
  | Length_h => '(v, t) ← va32 args; Ok (Z.land (u32 v) 0xffff, t)
  | Length_t => '(v, t) ← va32 args; Ok (u64 (s32 v), t)
  | Length_ll | Length_j | Length_L => '(v, t) ← va64 args; Ok (u64 v, t)
  end.

(** The store of %n: the width of the target object in bytes. *)
Definition n_width (l : length_spec) : nat :=
  match l with
  | Length_none | Length_l | Length_z | Length_t => 4
  | Length_hh => 1
  | Length_h => 2
  | Length_ll | Length_j | Length_L => 8
  end.

Section Vsnprintf.
Context (print_float : Z -> Z -> list varg -> spec_t -> mem -> res (Z * mem * list varg)).

(** vsnprint_spec: the result (negative on error), the memory and the
    remaining arguments. *)
Definition vsnprint_spec (fuel : nat) (buf sz : Z) (args : list varg) (written : Z) (spec : spec_t) (m : mem)
  : res (Z * mem * list varg) :=
  let done (t : list varg) (r : res ost) := '(m1, n) ← r; Ok (s32 n, m1, t) in
  let c := specifier spec in
  if (c =? 100) || (c =? 105) then
    '(v, t) ← int_arg (length_ spec) args; done t (snprint_int64 buf sz v spec Dec m)
  else if (c =? 117) || (c =? 111) || (c =? 120) || (c =? 88) then
    '(v, t) ← uint_arg (length_ spec) args;
    done t (snprint_uint64 buf sz v spec (if c =? 117 then Dec else if c =? 111 then Oct else Hex) m)
  else if (c =? 102) || (c =? 70) || (c =? 101) || (c =? 69) || (c =? 103) || (c =? 71) || (c =? 97) || (c =? 65) then
    print_float buf sz args spec m
  else if c =? 99 then
    match length_ spec with
    | Length_none | Length_l => '(v, t) ← va32 args; done t (snprint_char buf sz v spec m)
    | _ => Ok (-1, m, args)
    end
  else if c =? 115 then
    match length_ spec with
    | Length_none => '(v, t) ← va32 args; done t (snprint_str fuel buf sz v spec m)
    | Length_l => '(_, _) ← va32 args; Stop FPanic
    | _ => Ok (-1, m, args)
    end
  else if c =? 112 then
    match length_ spec with
    | Length_none => '(v, t) ← va32 args; done t (snprint_uint64 buf sz (u32 v) spec Hex m)
    | _ => Ok (-1, m, args)
    end
  else if c =? 110 then
    '(v, t) ← va32 args;
    m1 ← store_bytes m v (be_bytes (n_width (length_ spec)) (u64 written)); Ok (0, m1, t)
  else if c =? 37 then
    if present spec =? Specifier_present then
      m1 ← (if 0 <? sz then storeb m buf 37 else Ok m); Ok (1, m1, args)
    else Ok (-1, m, args)
  else Ok (-1, m, args).

(** ** vsnprintf: the state of the format parser *)

Record pst := MkP { parse : parse_stage; sp : spec_t; o_mem : mem; buf_ptr : Z; va : list varg }.

Definition set_parse (s : pst) (p : parse_stage) : pst := MkP p (sp s) (o_mem s) (buf_ptr s) (va s).
Definition set_spec (s : pst) (x : spec_t) : pst := MkP (parse s) x (o_mem s) (buf_ptr s) (va s).

Definition with_present (x : spec_t) (p : Z) : spec_t :=
  MkSpec p (flags x) (width x) (precision x) (length_ x) (specifier x).
Definition add_present (x : spec_t) (bit : Z) : spec_t := with_present x (Z.lor (present x) bit).
Definition add_flag (x : spec_t) (bit : Z) : spec_t :=
  MkSpec (present x) (Z.lor (flags x) bit) (width x) (precision x) (length_ x) (specifier x).
Definition with_width (x : spec_t) (w : Z) : spec_t :=
  MkSpec (present x) (flags x) w (precision x) (length_ x) (specifier x).
Definition with_precision (x : spec_t) (p : Z) : spec_t :=
  MkSpec (present x) (flags x) (width x) p (length_ x) (specifier x).
Definition with_length (x : spec_t) (l : length_spec) : spec_t :=
  MkSpec (present x) (flags x) (width x) (precision x) l (specifier x).
Definition with_specifier (x : spec_t) (c : Z) : spec_t :=
  MkSpec (present x) (flags x) (width x) (precision x) (length_ x) c.

Definition spec0 : spec_t := MkSpec 0 0 0 0 Length_none 0.
Definition is_dec (ch : Z) : bool := (48 <=? ch) && (ch <=? 57).

(** Each stage consumes the character or falls through to the next one; the
    boolean tells that the parser stops with an error. *)
Definition on_specifier (fuel : nat) (buf sz ch : Z) (s : pst) : res (pst * bool) :=
  let x := with_specifier (add_present (sp s) Specifier_present) ch in
  let p := cmin sz (buf_ptr s) in
  '(r, m1, t) ← vsnprint_spec fuel (buf + p) (sz - p) (va s) (buf_ptr s) x (o_mem s);
  if r <? 0 then Ok (MkP PSpecifier x m1 (u32 r) t, true)
  else Ok (MkP PNone x m1 (u32 (buf_ptr s + r)) t, false).

Definition on_length (fuel : nat) (buf sz ch : Z) (s : pst) : res (pst * bool) :=
  let keep l p := Ok (MkP p (with_length (add_present (sp s) Length_present) l) (o_mem s) (buf_ptr s) (va s), false) in
  if ch =? 104 then keep Length_h PLength_may_be_h
  else if ch =? 108 then keep Length_l PLength_may_be_l
  else if ch =? 106 then keep Length_j PSpecifier
  else if ch =? 122 then keep Length_z PSpecifier
  else if ch =? 116 then keep Length_t PSpecifier
  else if ch =? 76 then keep Length_L PSpecifier
  else on_specifier fuel buf sz ch
         (set_spec s (with_present (sp s) (Z.ldiff (Z.lor (present (sp s)) Length_present) Length_present))).

Definition on_precision_digits (fuel : nat) (buf sz ch : Z) (s : pst) : res (pst * bool) :=
  if is_dec ch then
    Ok (MkP PPrecision_digits (with_precision (sp s) (u32 (precision (sp s) * 10 + (ch - 48))))
          (o_mem s) (buf_ptr s) (va s), false)
  else on_length fuel buf sz ch s.

Definition on_precision_asterisk (fuel : nat) (buf sz ch : Z) (s : pst) : res (pst * bool) :=
  if ch =? 42 then
    '(v, t) ← va32 (va s);
    Ok (MkP PLength (with_precision (sp s) (u32 v)) (o_mem s) (buf_ptr s) t, false)
  else on_precision_digits fuel buf sz ch s.

Definition on_precision_dot (fuel : nat) (buf sz ch : Z) (s : pst) : res (pst * bool) :=
  if ch =? 46 then
    Ok (MkP PPrecision_may_be_asterisk (add_present (sp s) Precision_present) (o_mem s) (buf_ptr s) (va s), false)
  else on_length fuel buf sz ch s.

Definition on_width_digits (fuel : nat) (buf sz ch : Z) (s : pst) : res (pst * bool) :=
  if is_dec ch then
    Ok (MkP PWidth_digits (add_present (with_width (sp s) (u32 (width (sp s) * 10 + (ch - 48)))) Width_present)
          (o_mem s) (buf_ptr s) (va s), false)
  else on_precision_dot fuel buf sz ch s.

Definition on_width_asterisk (fuel : nat) (buf sz ch : Z) (s : pst) : res (pst * bool) :=
  if ch =? 42 then
    '(v, t) ← va32 (va s);
    Ok (MkP PPrecision_dot_or_absent (add_present (with_width (sp s) (u32 v)) Width_present)
          (o_mem s) (buf_ptr s) t, false)
  else on_width_digits fuel buf sz ch s.

Definition on_flags (fuel : nat) (buf sz ch : Z) (s : pst) : res (pst * bool) :=
  let keep bit := Ok (MkP PFlags (add_flag (add_present (sp s) Flags_present) bit) (o_mem s) (buf_ptr s) (va s), false) in
  if ch =? 45 then keep Align_left
  else if ch =? 43 then keep Force_sign
  else if ch =? 32 then keep Space_instead_plus
  else if ch =? 35 then keep Alternate
  else if ch =? 48 then keep Null_pad
  else on_width_asterisk fuel buf sz ch s.

(** The body of the while loop. *)
Definition parse_char (fuel : nat) (buf sz ch : Z) (s : pst) : res (pst * bool) :=
  match parse s with
  | PNone =>
      if ch =? 37 then Ok (MkP PFlags spec0 (o_mem s) (buf_ptr s) (va s), false)
      else
        o ← add_char buf sz ch (o_mem s, buf_ptr s);
        '(m2, p2) ← (if ch =? 10 then add_char buf sz 13 o else Ok o);
        Ok (MkP PNone (sp s) m2 p2 (va s), false)
  | PFlags => on_flags fuel buf sz ch s
  | PWidth_may_be_asterisk => on_width_asterisk fuel buf sz ch s
  | PWidth_digits => on_width_digits fuel buf sz ch s
  | PPrecision_dot_or_absent => on_precision_dot fuel buf sz ch s
  | PPrecision_may_be_asterisk => on_precision_asterisk fuel buf sz ch s
  | PPrecision_digits => on_precision_digits fuel buf sz ch s
  | PLength => on_length fuel buf sz ch s
  | PLength_may_be_h =>
      if ch =? 104 then Ok (set_parse (set_spec s (with_length (sp s) Length_hh)) PSpecifier, false)
      else on_specifier fuel buf sz ch s
  | PLength_may_be_l =>
      if ch =? 108 then Ok (set_parse (set_spec s (with_length (sp s) Length_ll)) PSpecifier, false)
      else on_specifier fuel buf sz ch s
  | PSpecifier => on_specifier fuel buf sz ch s
  end.

Fixpoint parse_loop (fuel : nat) (buf sz format : Z) (s : pst) : res pst :=
  match fuel with
  | O => Stop FFuel
  | S f =>
      ch ← loadb (o_mem s) format;
      if ch =? 0 then Ok s
      else '(s1, stop) ← parse_char fuel buf sz ch s;
           if stop : bool then Ok s1 else parse_loop f buf sz (format + 1) s1
  end.

(** vsnprintf: the returned length and the memory.  (The warning printed on
    an error is not modelled.) *)
Definition vsnprintf (fuel : nat) (buf sz format : Z) (args : list varg) (m : mem) : res (Z * mem) :=
  s ← parse_loop fuel buf sz format (MkP PNone spec0 m 0 args);
  let n := buf_ptr s in
  m1 ← (if negb (sz =? 0) then
          if s32 n <? 0 then storeb (o_mem s) buf 0
          else if n <? sz then storeb (o_mem s) (buf + n) 0
          else storeb (o_mem s) (buf + sz - 1) 0
        else Ok (o_mem s));
  Ok (if s32 n <? 0 then 0 else n, m1).

(** The callback for output that is set: for strings, for characters, none. *)
Inductive callback := Out_string | Out_char | Out_none.
Fixpoint out_chars (l : list Z) : list Z :=
  match l with [] => [] | c :: t => c :: (if c =? 10 then [13] else []) ++ out_chars t end.
Definition through (cb : callback) (l : list Z) : list Z :=
  match cb with Out_string => l | Out_char => out_chars l | Out_none => [] end.
(** putsn: its result and the characters that the callback gets. *)
Definition putsn (cb : callback) (m : mem) (str len : Z) : res (Z * list Z) :=
  if len =? 0 then Ok (0, [])
  else match cb with
       | Out_none => Ok (1, [])
       | _ => l ← load_bytes m str (Z.to_nat len); Ok (0, through cb l)
       end.

(** vprintf: [str] is the address of the local array of 256 bytes. *)
Definition vprintf (cb : callback) (fuel : nat) (str format : Z) (args : list varg) (m : mem) : res (Z * list Z) :=
  '(r, m1) ← vsnprintf fuel str 256 format args m;
  out ← (if 0 <? s32 r then putsn cb m1 str r else Ok (0, []));
  Ok (r, out.2).

Definition printf := vprintf.

(** The variants without a size. *)
Definition Big_sz : Z := 0x7fffffff.
Definition vsprintf (fuel : nat) (buf format : Z) (args : list varg) (m : mem) : res (Z * mem) :=
  vsnprintf fuel buf Big_sz format args m.
Definition snprintf := vsnprintf.
Definition sprintf (fuel : nat) (buf format : Z) (args : list varg) (m : mem) : res (Z * mem) :=
  vsnprintf fuel buf Big_sz format args m.

End Vsnprintf.

(** ** Emission of characters *)

Lemma add_chars_emit buf sz ch n s : add_chars buf sz ch n s = emit buf sz (replicate n ch) s.
Proof.
  revert s. induction n as [|n IH]; intros s; simpl; [done |].
  destruct (add_char buf sz ch s); simpl; [apply IH | done].
Qed.

Lemma emit_app buf sz l1 l2 s : emit buf sz (l1 ++ l2) s = (s1 ← emit buf sz l1 s; emit buf sz l2 s1).
Proof.
  revert s. induction l1 as [|c t IH]; intros s; simpl; [done |].
  destruct (add_char buf sz c s); simpl; [apply IH | done].
Qed.

Lemma emit_one buf sz c s : emit buf sz [c] s = add_char buf sz c s.
Proof. simpl. by destruct (add_char buf sz c s). Qed.

Lemma emit_if buf sz (b : bool) l s :
  (if b then emit buf sz l s else Ok s) = emit buf sz (if b then l else []) s.
Proof. by destruct b. Qed.

(** Emission writes what fits and counts everything. *)
Lemma emit_ok buf sz l : forall m p, mapped m buf sz -> 0 <= p -> p + Z.of_nat (length l) < 2 ^ 32 ->
  exists m', emit buf sz l (m, p) = Ok (m', p + Z.of_nat (length l)) /\ mapped m' buf sz /\
    overlay m (buf + p) (Z.max 0 (Z.min (Z.of_nat (length l)) (sz - p))) (fun i => l !! Z.to_nat i) m'.
Proof.
  induction l as [|c t IH]; intros m p Hm Hp Hb; cbn [emit].
  { exists m. split_and!; [simpl; by rewrite Z.add_0_r | done |]. intros x. simpl. bit_cases; done. }
  simpl in Hb. unfold add_char at 1. rewrite (wrap_small 32 (p + 1)) by (unfold in_range; lia).
  destruct (Z.ltb_spec p sz).
  - unfold storeb. destruct (loadb_mapped m (buf + p) (sz - p)) as (b & Hb' & ->); [by apply mapped_tail | lia |].
    cbn [mbind res_bind]. destruct (IH (<[buf + p := c]> m) (p + 1)) as (m' & E & Hm' & O); [| lia | lia |].
    { intros i Hi. rewrite lookup_insert_is_Some'. right. by apply Hm. }
    rewrite E. exists m'. split_and!; [f_equal; f_equal; simpl; lia | done |]. intros x. rewrite (O x).
    destruct (decide (x = buf + p)) as [-> | Hx].
    + rewrite lookup_insert_eq. simpl. bit_cases; try lia. by rewrite Z.sub_diag.
    + rewrite lookup_insert_ne by done. simpl. bit_cases; try done; try lia.
      replace (Z.to_nat (x - (buf + p))) with (S (Z.to_nat (x - (buf + (p + 1))))) by lia. done.
  - cbn [mbind res_bind]. destruct (IH m (p + 1) Hm ltac:(lia) ltac:(lia)) as (m' & E & Hm' & O). rewrite E.
    exists m'. split_and!; [f_equal; f_equal; simpl; lia | done |]. intros x. rewrite (O x). simpl.
    bit_cases; done || lia.
Qed.

(** ** Integer conversion *)

Definition digit_val (c : Z) : Z := if c <? 58 then c - 48 else c - 97 + 10.

Lemma digits_of_ok base : base = Oct \/ base = Dec \/ base = Hex -> forall fuel val,
  0 <= val < base ^ Z.of_nat fuel -> (0 < fuel)%nat ->
  exists l, digits_of fuel val base = Ok l /\ (0 < length l <= fuel)%nat /\
    num_value base (digit_val <$> rev l) = val /\
    Forall (fun c => 0 <= digit_val c < base /\ c = digit_char (digit_val c)) l.
Proof.
  intros Hb. assert (8 <= base <= 16) by (destruct Hb as [-> | [-> | ->]]; unfold Oct, Dec, Hex; lia).
  assert (Hd : forall d, 0 <= d < base -> digit_val (digit_char d) = d).
  { intros d Hd. unfold digit_char. destruct (Z.ltb_spec d 10); unfold digit_val; bit_cases; lia. }
  induction fuel as [|fuel IH]; intros val Hv Hf; [lia |]. cbn [digits_of].
  pose proof (Z.mod_pos_bound val base ltac:(lia)) as Hm. pose proof (Z.div_mod val base ltac:(lia)) as Hdm.
  rewrite Nat2Z.inj_succ, Z.pow_succ_r in Hv by lia.
  assert (0 <= val / base < base ^ Z.of_nat fuel).
  { split; [apply Z.div_pos; lia | apply Z.div_lt_upper_bound; lia]. }
  destruct (Z.eqb_spec (val / base) 0) as [E|E].
  - eexists. split_and!; [reflexivity | simpl; lia.. | |].
    + simpl. rewrite Hd by lia. unfold num_value. simpl. lia.
    + constructor; [| constructor]. by rewrite Hd by lia.
  - destruct (IH (val / base)) as (l & -> & L1 & L2 & L3); [done | destruct fuel; [simpl in *; lia | lia] |].
    simpl. eexists. split_and!; [reflexivity | simpl; lia.. | |].
    + simpl. rewrite fmap_app. unfold num_value in *. rewrite foldl_app, L2. simpl. rewrite Hd by lia. lia.
    + constructor; [by rewrite Hd by lia | done].
Qed.

(** The digit characters are read back by strtoul. *)
Lemma digit_char_parsed base d : base = Oct \/ base = Dec \/ base = Hex -> 0 <= d < base ->
  digit_of base (digit_char d) = Some d.
Proof.
  intros Hb Hd.
  assert (H : forallb (fun b => forallb (fun d => bool_decide (digit_of b (digit_char d) = Some d)) (seqZ 0 b))
    [Oct; Dec; Hex] = true) by (vm_compute; reflexivity).
  rewrite forallb_forall in H. specialize (H base). rewrite forallb_forall in H.
  apply (bool_decide_eq_true_1 _), H; [simpl; intuition | apply list_elem_of_In, elem_of_seqZ; lia].
Qed.

(** The conversion emits its pieces one after another. *)
Lemma emit_then buf sz l1 l2 s (x : res ost) K :
  x = emit buf sz l1 s -> (forall s1, K s1 = emit buf sz l2 s1) -> (x ≫= K) = emit buf sz (l1 ++ l2) s.
Proof. intros -> HK. rewrite emit_app. destruct (emit buf sz l1 s); simpl; [apply HK | done]. Qed.

Lemma emit_cond buf sz (b : bool) l s x : x = emit buf sz l s ->
  (if b then x else Ok s) = emit buf sz (if b then l else []) s.
Proof. intros ->. apply emit_if. Qed.

Lemma pad_if (w len c : Z) : 0 <= len ->
  (if len <? w then replicate (Z.to_nat (w - len)) c else []) = replicate (Z.to_nat w - Z.to_nat len) c.
Proof.
  intros H. destruct (Z.ltb_spec len w); [f_equal; lia |].
  by replace (Z.to_nat w - Z.to_nat len)%nat with 0%nat by lia.
Qed.

Definition sign_text (spec : spec_t) (base : Z) (positive : bool) : list Z :=
  if base =? Dec then
    if positive then if has (flags spec) Force_sign then [43]
                     else if has (flags spec) Space_instead_plus then [32] else []
    else [45]
  else [].

Definition prefix_text (spec : spec_t) (base : Z) : list Z :=
  if has (flags spec) Alternate then
    if base =? Hex then [48; 120] else if base =? Oct then [48] else []
  else [].

Definition int_body (spec : spec_t) (base : Z) (positive : bool) (ds : list Z) : list Z :=
  sign_text spec base positive ++ prefix_text spec base ++
  replicate (Z.to_nat (precision spec) - length ds) 48 ++ ds.

(** The text of an integer conversion, [ds] being the digits. *)
Definition int_text (spec : spec_t) (base : Z) (positive : bool) (ds : list Z) : list Z :=
  let body := int_body spec base positive ds in
  let pad := replicate (Z.to_nat (width spec) - length body) (if has (flags spec) Null_pad then 48 else 32) in
  if has (flags spec) Align_left then body ++ pad else pad ++ body.

Lemma sign_emit spec base (positive : bool) buf sz s :
  let sign := if base =? Dec then
                if positive then if has (flags spec) Force_sign then 43
                                 else if has (flags spec) Space_instead_plus then 32 else 0
                else 45
              else 0 in
  (if negb (sign =? 0) then add_char buf sz sign s else Ok s) = emit buf sz (sign_text spec base positive) s /\
  (if sign =? 0 then 0 else 1) = Z.of_nat (length (sign_text spec base positive)).
Proof.
  unfold sign_text. cbv zeta. destruct (base =? Dec); [| done]. destruct positive; [| by rewrite emit_one].
  destruct (has _ Force_sign); [by rewrite emit_one |].
  destruct (has _ Space_instead_plus); [by rewrite emit_one | done].
Qed.

Lemma prefix_emit spec base buf sz s : base = Oct \/ base = Dec \/ base = Hex ->
  let prefix := if has (flags spec) Alternate && ((base =? Oct) || (base =? Hex)) then base else 0 in
  (if negb (prefix =? 0) then
     s ← add_char buf sz 48 s;
     if prefix =? Hex then add_char buf sz 120 s else Ok s
   else Ok s) = emit buf sz (prefix_text spec base) s /\
  (if prefix =? Hex then 2 else if prefix =? Oct then 1 else 0) = Z.of_nat (length (prefix_text spec base)).
Proof.
  unfold prefix_text. intros Hb. cbv zeta. destruct (has _ Alternate); [| done].
  destruct Hb as [-> | [-> | ->]]; (split; [| reflexivity]); cbn -[add_char].
  - by destruct (add_char buf sz 48 s).
  - done.
  - destruct (add_char buf sz 48 s) as [s1|]; cbn -[add_char]; [by destruct (add_char buf sz 120 s1) | done].
Qed.

Lemma int_body_length spec base positive ds : (length ds <= 22)%nat -> 0 <= precision spec < 2 ^ 31 ->
  u32 (u32 (cmax (Z.of_nat (length ds)) (precision spec) + Z.of_nat (length (sign_text spec base positive))) +
       Z.of_nat (length (prefix_text spec base))) = Z.of_nat (length (int_body spec base positive ds)).
Proof.
  intros Hd Hp. unfold int_body. rewrite !length_app, length_replicate.
  assert (length (sign_text spec base positive) <= 1)%nat.
  { unfold sign_text. repeat case_match; simpl; lia. }
  assert (length (prefix_text spec base) <= 2)%nat.
  { unfold prefix_text. repeat case_match; simpl; lia. }
  unfold cmax. destruct (Z.ltb_spec (precision spec) (Z.of_nat (length ds)));
    rewrite (wrap_small _ (_ + Z.of_nat (length (sign_text _ _ _)))) by (unfold in_range; lia);
    rewrite wrap_small by (unfold in_range; lia); lia.
Qed.

(** integer conversion: the digit array of 22 characters suffices for
    every 64-bit value; the conversion emits exactly the specified text (sign,
    prefix, precision zeros, digits, padding to the width) and nothing else,
    and the digits, read by strtoul in the same base, give the value back.
    The padding stands before the sign also when it consists of zeros. *)
Theorem snprint_int_correct buf sz val spec base positive m :
  base = Oct \/ base = Dec \/ base = Hex -> in_range 64 val ->
  0 <= width spec < 2 ^ 31 -> 0 <= precision spec < 2 ^ 31 ->
  exists ds, (0 < length ds <= 22)%nat /\
    snprint_64bit_int buf sz val spec base positive m = emit buf sz (int_text spec base positive ds) (m, 0) /\
    num_value base (digit_val <$> ds) = val /\
    Forall (fun c => digit_of base c = Some (digit_val c)) ds.
Proof.
  intros Hb Hv Hw Hp. unfold in_range in Hv.
  destruct (digits_of_ok base Hb 22 val) as (l & El & Hl & Hval & Hch); [| lia |].
  { split; [lia |]. apply Z.lt_le_trans with (2 ^ 64); [lia |].
    destruct Hb as [-> | [-> | ->]]; vm_compute; congruence. }
  exists (rev l). rewrite length_rev. split_and!; [lia | lia | | done |].
  - unfold snprint_64bit_int.
    replace (negb ((base =? Oct) || (base =? Dec) || (base =? Hex))) with false
      by (destruct Hb as [-> | [-> | ->]]; reflexivity).
    rewrite El. cbn [mbind res_bind]. cbv zeta.
    rewrite (proj2 (sign_emit spec base positive buf sz (m, 0))), (proj2 (prefix_emit spec base buf sz (m, 0) Hb)).
    rewrite <- (length_rev l), int_body_length by (rewrite ?length_rev; lia).
    set (body := int_body spec base positive (rev l)). set (pc := if has (flags spec) Null_pad then 48 else 32).
    set (pad := replicate (Z.to_nat (width spec) - length body) pc).
    transitivity (emit buf sz ((if has (flags spec) Align_left then [] else pad) ++
      sign_text spec base positive ++ prefix_text spec base ++
      replicate (Z.to_nat (precision spec) - length (rev l)) 48 ++ rev l ++
      (if has (flags spec) Align_left then pad else [])) (m, 0)).
    + assert (Hpad : pad = if Z.of_nat (length body) <? width spec
        then replicate (Z.to_nat (width spec - Z.of_nat (length body))) pc else []).
      { rewrite pad_if by lia. unfold pad. by rewrite Nat2Z.id. }
      apply emit_then.
      { rewrite add_chars_emit, emit_if. f_equal. rewrite Hpad. by destruct (has _ Align_left), (_ <? _). }
      intros s1. apply emit_then; [apply sign_emit |].
      intros s2. apply emit_then; [by apply prefix_emit |].
      intros s3. apply emit_then.
      { rewrite add_chars_emit, emit_if. f_equal. rewrite pad_if by lia. by rewrite Nat2Z.id. }
      intros s4. apply emit_then; [done |].
      intros s5. rewrite add_chars_emit, emit_if. f_equal. rewrite Hpad. by destruct (has _ Align_left), (_ <? _).
    + f_equal. unfold int_text. fold body. fold pc. fold pad. unfold body, int_body.
      destruct (has (flags spec) Align_left); rewrite <- ?app_assoc, ?app_nil_r; reflexivity.
  - apply Forall_rev. eapply Forall_impl; [exact Hch |]. intros c [H1 H2]. rewrite H2 at 1.
    by apply digit_char_parsed.
Qed.

(** "%05d" of -42 gives "00-42"; "%-#6x" of 10 gives "0xa   ". *)
Lemma snprint_int_correct_witness :
  (exists ds, (0 < length ds <= 22)%nat /\
    snprint_64bit_int 100 16 42 (MkSpec 3 Null_pad 5 0 Length_none 100) Dec false ∅ =
      emit 100 16 (int_text (MkSpec 3 Null_pad 5 0 Length_none 100) Dec false ds) (∅, 0) /\
    num_value Dec (digit_val <$> ds) = 42 /\
    Forall (fun c => digit_of Dec c = Some (digit_val c)) ds) /\
  int_text (MkSpec 3 Null_pad 5 0 Length_none 100) Dec false [52; 50] = [48; 48; 45; 52; 50] /\
  int_text (MkSpec 3 (Z.lor Align_left Alternate) 6 0 Length_none 120) Hex true [97] = [48; 120; 97; 32; 32; 32].
Proof.
  split_and!; [| reflexivity | reflexivity].
  apply (snprint_int_correct 100 16 42 (MkSpec 3 Null_pad 5 0 Length_none 100) Dec false ∅);
    [right; left; reflexivity | unfold in_range; lia | simpl; lia | simpl; lia].
Defined.

(** ** What formatted output may write *)

(** [m'] differs from [m] inside the buffer only. *)
Definition within (buf sz : Z) (m m' : mem) : Prop :=
  forall x, x < buf \/ buf + sz <= x -> m' !! x = m !! x.

Lemma within_refl buf sz m : within buf sz m m.
Proof. done. Qed.

Lemma within_trans buf sz m1 m2 m3 : within buf sz m1 m2 -> within buf sz m2 m3 -> within buf sz m1 m3.
Proof. intros H1 H2 x Hx. by rewrite H2, H1. Qed.

Lemma within_sub buf sz p m m' : 0 <= p <= sz -> within (buf + p) (sz - p) m m' -> within buf sz m m'.
Proof. intros Hp H x Hx. apply H. lia. Qed.

Lemma storeb_within buf sz a v m m' : storeb m a v = Ok m' -> buf <= a < buf + sz -> within buf sz m m'.
Proof.
  unfold storeb. intros E Ha. destruct (loadb m a); inversion E; subst. intros x Hx.
  rewrite lookup_insert_ne by lia. done.
Qed.

(** Partial correctness of a fallible computation. *)
Definition post {A} (P : A -> Prop) (r : res A) : Prop := match r with Ok a => P a | Stop _ => True end.

Lemma post_bind {A B} (P : A -> Prop) (Q : B -> Prop) (r : res A) (f : A -> res B) :
  post P r -> (forall a, P a -> post Q (f a)) -> post Q (r ≫= f).
Proof. destruct r; simpl; auto. Qed.

Lemma post_impl {A} (P Q : A -> Prop) (r : res A) : post P r -> (forall a, P a -> Q a) -> post Q r.
Proof. destruct r; simpl; auto. Qed.

(** The output position grows and the writes stay in the buffer. *)
Definition grows (buf sz : Z) (m : mem) (s : ost) : Prop := within buf sz m s.1 /\ 0 <= s.2.

Lemma grows_add_char buf sz m c s : grows buf sz m s -> post (grows buf sz m) (add_char buf sz c s).
Proof.
  destruct s as [m1 p]. intros [Hw Hp]. unfold add_char. simpl in *. destruct (Z.ltb_spec p sz).
  - destruct (storeb m1 (buf + p) c) as [m2|] eqn:E; simpl; [| done]. split; simpl; [| apply wrap_range; lia].
    eapply within_trans; [done |]. eapply storeb_within; [done | lia].
  - simpl. split; [done | apply wrap_range; simpl; lia].
Qed.

Lemma grows_emit buf sz m l : forall s, grows buf sz m s -> post (grows buf sz m) (emit buf sz l s).
Proof.
  induction l as [|c t IH]; intros s Hs; [done |]. cbn [emit]. eapply post_bind; [by apply grows_add_char | apply IH].
Qed.

Lemma grows_add_chars buf sz m c n s : grows buf sz m s -> post (grows buf sz m) (add_chars buf sz c n s).
Proof. rewrite add_chars_emit. apply grows_emit. Qed.

Lemma grows_add_str buf sz m n : forall str s, grows buf sz m s -> post (grows buf sz m) (add_str buf sz str n s).
Proof.
  induction n as [|n IH]; intros str s Hs; [done |]. cbn [add_str].
  eapply (post_bind (fun _ => True)); [by destruct (loadb s.1 str) |]. intros c _.
  eapply post_bind; [by apply grows_add_char | intros s1; apply IH].
Qed.

#[export] Hint Resolve grows_add_char grows_emit grows_add_chars grows_add_str : stdio.

(** A chain of output steps: each piece is a call of the four functions
    above, a conditional one or nothing. *)
Ltac grow_step := match goal with
  | |- post _ (Ok _) => cbn [post]
  | |- post (grows _ _ _) (if ?b then _ else _) => destruct b
  | |- post (grows _ _ _) (_ ≫= _) => eapply (post_bind (grows _ _ _)); [| intros ? ?]
  | _ => solve [eauto with stdio]
  end.

Lemma grows_start buf sz m : grows buf sz m (m, 0).
Proof. split; [apply within_refl | simpl; lia]. Qed.
#[export] Hint Resolve grows_start : stdio.

Lemma snprint_int_within buf sz val spec base positive m :
  post (grows buf sz m) (snprint_64bit_int buf sz val spec base positive m).
Proof.
  unfold snprint_64bit_int. destruct (negb _); [apply grows_start |].
  eapply (post_bind (fun _ => True)); [by destruct (digits_of _ _ _) |]. intros ds _. cbv zeta. repeat grow_step.
Qed.

Lemma snprint_char_within buf sz ch spec m : post (grows buf sz m) (snprint_char buf sz ch spec m).
Proof. unfold snprint_char. cbv zeta. repeat grow_step. Qed.

Lemma snprint_str_within fuel buf sz str spec m : post (grows buf sz m) (snprint_str fuel buf sz str spec m).
Proof.
  unfold snprint_str. eapply (post_bind (fun _ => True)); [by destruct (strlen _ _ _) |].
  intros n _. cbv zeta. repeat grow_step.
Qed.

Section Frame.
Context (print_float : Z -> Z -> list varg -> spec_t -> mem -> res (Z * mem * list varg)).
(** The float conversion keeps to its buffer, like the others. *)
Hypothesis print_float_within : forall buf sz args spec m,
  post (fun r => within buf sz m r.1.2) (print_float buf sz args spec m).
Context (buf sz : Z) (Hsz : 0 <= sz) (m0 : mem).

Lemma vsnprint_spec_within fuel b n args written spec m : 0 <= n -> specifier spec <> 110 ->
  post (fun r => within b n m r.1.2) (vsnprint_spec print_float fuel b n args written spec m).
Proof.
  intros Hn Hc. unfold vsnprint_spec.
  assert (Hdone : forall (t : list varg) r, post (grows b n m) r ->
    post (fun r : Z * mem * list varg => within b n m r.1.2) ('(m1, k) ← r; Ok (s32 k, m1, t))).
  { intros t r Hr. eapply post_bind; [done |]. intros [m1 k] [H _]. done. }
  assert (Hva : forall A (r : res A), post (fun _ => True) r) by (by intros ? []).
  repeat match goal with
  | |- post _ (if ?c =? ?k then _ else _) => destruct (Z.eqb_spec c k); [try congruence |]
  | |- post _ (if ?c then _ else _) => destruct c
  | |- post _ (match length_ spec with _ => _ end) => destruct (length_ spec)
  | |- post _ (Ok _) => apply within_refl
  | |- post _ (print_float _ _ _ _ _) => apply print_float_within
  | |- post _ (let '(m1, k) := _ in _) => idtac
  | |- post _ ('(m1, k) ← snprint_uint64 _ _ _ _ _ _; _) => apply Hdone, snprint_int_within
  | |- post _ ('(m1, k) ← snprint_int64 _ _ _ _ _ _; _) => apply Hdone, snprint_int_within
  | |- post _ ('(m1, k) ← snprint_char _ _ _ _ _; _) => apply Hdone, snprint_char_within
  | |- post _ ('(m1, k) ← snprint_str _ _ _ _ _ _; _) => apply Hdone, snprint_str_within
  | |- post _ (Stop _) => exact I
  | |- post _ (_ ≫= _) => eapply post_bind; [apply Hva | intros [? ?] _]
  end.
  destruct (Z.ltb_spec 0 n); [| apply within_refl].
  destruct (storeb m b 37) as [m1|] eqn:E; simpl; [| exact I]. eapply storeb_within; [exact E | lia].
Qed.

Definition pinv (s : pst) : Prop := within buf sz m0 (o_mem s) /\ 0 <= buf_ptr s.
Abbreviation keeps := (post (fun r : pst * bool => pinv r.1)).

Lemma on_specifier_within fuel ch s : ch <> 110 -> pinv s -> keeps (on_specifier print_float fuel buf sz ch s).
Proof.
  intros Hc [Hw Hp]. unfold on_specifier.
  assert (Hm : 0 <= cmin sz (buf_ptr s) <= sz) by (unfold cmin; destruct (Z.ltb_spec sz (buf_ptr s)); lia).
  eapply post_bind; [apply vsnprint_spec_within; [lia | done] |].
  intros [[r m1] t] H. simpl in H. apply within_sub in H; [| done].
  destruct (r <? 0); (split; simpl; [by eapply within_trans | apply Z.mod_pos_bound; lia]).
Qed.

(** The parser stages that store nothing keep the invariant. *)
Ltac stage lem := match goal with
  | |- keeps (if ?b then _ else _) => destruct b
  | |- keeps (Ok _) => done
  | |- keeps (va32 ?a ≫= _) => destruct (va32 a) as [[? ?]|]; simpl; [done | exact I]
  | _ => by apply lem
  end.

Lemma on_length_within fuel ch s : ch <> 110 -> pinv s -> keeps (on_length print_float fuel buf sz ch s).
Proof. intros Hc Hs. unfold on_length. cbv zeta. repeat stage on_specifier_within. Qed.

Lemma on_precision_dot_within fuel ch s : ch <> 110 -> pinv s -> keeps (on_precision_dot print_float fuel buf sz ch s).
Proof. intros Hc Hs. unfold on_precision_dot. repeat stage on_length_within. Qed.

Lemma on_precision_digits_within fuel ch s : ch <> 110 -> pinv s ->
  keeps (on_precision_digits print_float fuel buf sz ch s).
Proof. intros Hc Hs. unfold on_precision_digits. repeat stage on_length_within. Qed.

Lemma on_precision_asterisk_within fuel ch s : ch <> 110 -> pinv s ->
  keeps (on_precision_asterisk print_float fuel buf sz ch s).
Proof. intros Hc Hs. unfold on_precision_asterisk. repeat stage on_precision_digits_within. Qed.

Lemma on_width_digits_within fuel ch s : ch <> 110 -> pinv s -> keeps (on_width_digits print_float fuel buf sz ch s).
Proof. intros Hc Hs. unfold on_width_digits. repeat stage on_precision_dot_within. Qed.

Lemma on_width_asterisk_within fuel ch s : ch <> 110 -> pinv s ->
  keeps (on_width_asterisk print_float fuel buf sz ch s).
Proof. intros Hc Hs. unfold on_width_asterisk. repeat stage on_width_digits_within. Qed.

Lemma on_flags_within fuel ch s : ch <> 110 -> pinv s -> keeps (on_flags print_float fuel buf sz ch s).
Proof. intros Hc Hs. unfold on_flags. cbv zeta. repeat stage on_width_asterisk_within. Qed.

#[local] Hint Resolve on_specifier_within on_length_within on_precision_dot_within on_precision_digits_within
  on_precision_asterisk_within on_width_digits_within on_width_asterisk_within on_flags_within : stdio.

Lemma parse_char_within fuel ch s : ch <> 110 -> pinv s -> keeps (parse_char print_float fuel buf sz ch s).
Proof.
  intros Hc Hs. unfold parse_char. destruct (parse s); auto with stdio.
  - destruct (ch =? 37); [done |]. eapply (post_bind (grows buf sz m0)); [by apply grows_add_char |].
    intros o Ho. eapply (post_bind (grows buf sz m0)); [| by intros [m2 p2]].
    destruct (ch =? 10); [by apply grows_add_char | done].
  - repeat stage on_specifier_within.
  - repeat stage on_specifier_within.
Qed.

(** The format lies outside the buffer, so it is read unchanged. *)
Lemma parse_loop_within l : forall fuel format s, cstr m0 format l -> 110 ∉ l ->
  (format + Z.of_nat (length l) < buf \/ buf + sz <= format) -> pinv s ->
  post pinv (parse_loop print_float fuel buf sz format s).
Proof.
  induction l as [|c t IH]; intros [|fuel] format s Hl Hn Hd Hs; cbn [parse_loop]; [exact I | | exact I |].
  - unfold loadb. rewrite (proj1 Hs) by (simpl in Hd; lia). simpl in Hl. by rewrite Hl.
  - simpl in Hl. destruct Hl as (Hc & Hc0 & Hl). unfold loadb. rewrite (proj1 Hs) by (simpl in Hd; lia).
    rewrite Hc. cbn [from_opt mbind res_bind]. destruct (Z.eqb_spec c 0); [lia |].
    eapply post_bind; [apply parse_char_within; [set_solver | exact Hs] |].
    intros [s1 [|]] H1; [exact H1 |]. apply IH; [done | set_solver | simpl in Hd; lia | exact H1].
Qed.
End Frame.

(** For every format without the letter n (the store of %n goes where its
    argument points) and every argument list: when vsnprintf returns, it has
    changed no byte outside the [sz] bytes of its buffer, and a buffer of at
    least one byte holds a terminating NUL.  The conversion of floating point
    numbers (snprint_float) is not modelled; that it stays in its part of the
    buffer is a hypothesis. *)
Theorem vsnprintf_frame print_float fuel buf sz format l args m n m' :
  (forall buf sz args spec m, post (fun r => within buf sz m r.1.2) (print_float buf sz args spec m)) ->
  in_range 31 sz -> cstr m format l -> 110 ∉ l -> (format + Z.of_nat (length l) < buf \/ buf + sz <= format) ->
  vsnprintf print_float fuel buf sz format args m = Ok (n, m') ->
  within buf sz m m' /\ (0 < sz -> exists i, 0 <= i < sz /\ m' !! (buf + i) = Some 0).
Proof.
  intros Hf Hsz Hl Hn Hd E. unfold in_range in Hsz. unfold vsnprintf in E.
  pose proof (parse_loop_within print_float Hf buf sz ltac:(lia) m l fuel format (MkP PNone spec0 m 0 args)
    Hl Hn Hd ltac:(split; [apply within_refl | simpl; lia])) as H.
  destruct (parse_loop _ _ _ _ _ _) as [s|]; [| discriminate]. cbn [mbind res_bind] in E.
  destruct H as [Hw Hp]. cbv zeta in E.
  assert (Hput : forall i, 0 <= i < sz ->
    (m1 ← storeb (o_mem s) (buf + i) 0; Ok (if s32 (buf_ptr s) <? 0 then 0 else buf_ptr s, m1)) = Ok (n, m') ->
    within buf sz m m' /\ (0 < sz -> exists i, 0 <= i < sz /\ m' !! (buf + i) = Some 0)).
  { intros i Hi E'. destruct (storeb (o_mem s) (buf + i) 0) as [m1|] eqn:Es; [| discriminate].
    inversion E'; subst. split.
    - eapply within_trans; [done |]. eapply storeb_within; [done | lia].
    - intros _. exists i. split; [done |]. unfold storeb in Es. destruct (loadb _ _); inversion Es; subst.
      by rewrite lookup_insert_eq. }
  destruct (Z.eqb_spec sz 0) as [-> | Hz]; cbn [negb] in E.
  { inversion E; subst. split; [done | lia]. }
  destruct (s32 (buf_ptr s) <? 0); [apply (Hput 0); [lia | by rewrite Z.add_0_r] |].
  destruct (Z.ltb_spec (buf_ptr s) sz); [by apply (Hput (buf_ptr s)); [lia |] |].
  apply (Hput (sz - 1)); [lia |]. by rewrite Z.add_sub_assoc.
Qed.

(** "%d" of -123456 into a buffer of four bytes. *)
Definition fmt_mem : mem :=
  list_to_map ([(0, 37); (1, 100); (2, 0)] ++ ((fun i => (100 + i, 7)) <$> seqZ 0 8)).

Definition no_float (buf sz : Z) (args : list varg) (spec : spec_t) (m : mem) : res (Z * mem * list varg) :=
  Ok (-1, m, args).

Lemma vsnprintf_frame_witness : exists m',
  vsnprintf no_float 10 100 4 0 [A32 (2 ^ 32 - 123456)] fmt_mem = Ok (7, m') /\
  within 100 4 fmt_mem m' /\ (0 < 4 -> exists i, 0 <= i < 4 /\ m' !! (100 + i) = Some 0).
Proof.
  eexists. split; [vm_compute; reflexivity |].
  apply (vsnprintf_frame no_float 10 100 4 0 [37; 100] [A32 (2 ^ 32 - 123456)] fmt_mem 7).
  - intros. apply within_refl.
  - unfold in_range. lia.
  - vm_compute. split_and!; congruence.
  - intros H. inversion H as [|? ? ? H']; subst. inversion H' as [|? ? ? H'']; subst. inversion H''.
  - left. simpl. lia.
  - vm_compute. reflexivity.
Defined.

(** ** Formats without conversions *)

(** What the format prints: a newline is followed by a carriage return. *)
Definition expand (l : list Z) : list Z := l ≫= fun c => if c =? 10 then [10; 13] else [c].

Lemma cstr_within buf sz l : forall m m' a, within buf sz m m' ->
  (a + Z.of_nat (length l) < buf \/ buf + sz <= a) -> cstr m a l -> cstr m' a l.
Proof.
  induction l as [|c t IH]; intros m m' a Hw Hd; simpl in *.
  - intros H. by rewrite Hw by lia.
  - intros (H1 & H2 & H3). split_and!; [by rewrite Hw by lia | done | apply (IH m); [done | lia | done]].
Qed.

Lemma s32_small x : 0 <= x < 2 ^ 31 -> s32 x = x.
Proof.
  intros H. unfold signed. rewrite wrap_small by (unfold in_range; lia).
  destruct (Z.ltb_spec x (2 ^ (32 - 1))); lia.
Qed.

Section Plain.
Context (print_float : Z -> Z -> list varg -> spec_t -> mem -> res (Z * mem * list varg)).
Context (buf sz : Z).

Lemma plain_loop l : forall fuel format m p x args, mapped m buf sz -> 0 <= p -> cstr m format l -> 37 ∉ l ->
  (format + Z.of_nat (length l) < buf \/ buf + sz <= format) -> (length l < fuel)%nat ->
  p + Z.of_nat (length (expand l)) < 2 ^ 32 ->
  exists m', emit buf sz (expand l) (m, p) = Ok (m', p + Z.of_nat (length (expand l))) /\
    parse_loop print_float fuel buf sz format (MkP PNone x m p args) =
      Ok (MkP PNone x m' (p + Z.of_nat (length (expand l))) args).
Proof.
  induction l as [|c t IH]; intros [|fuel] format m p x args Hm Hp Hl Hn Hd Hf Hb; simpl in Hf; try lia.
  - exists m. cbn [parse_loop o_mem]. rewrite (cstr_load _ _ _ Hl). simpl. by rewrite Z.add_0_r.
  - cbn [parse_loop o_mem]. rewrite (cstr_load _ _ _ Hl). cbn [mbind res_bind].
    destruct Hl as (_ & Hc0 & Hl). destruct (Z.eqb_spec c 0); [done |].
    assert (c <> 37) by set_solver. unfold parse_char. cbn [parse o_mem buf_ptr sp va].
    destruct (Z.eqb_spec c 37); [done |].
    set (pre := if c =? 10 then [10; 13] else [c]).
    change (expand (c :: t)) with (pre ++ expand t) in *. rewrite length_app, Nat2Z.inj_add in Hb.
    destruct (emit_ok buf sz pre m p Hm Hp ltac:(lia)) as (m1 & E & Hm1 & _).
    assert (Hw : within buf sz m m1).
    { pose proof (grows_emit buf sz m pre (m, p) ltac:(split; [apply within_refl | done])) as G.
      rewrite E in G. apply G. }
    assert (Es : (o ← add_char buf sz c (m, p); if c =? 10 then add_char buf sz 13 o else Ok o) =
      Ok (m1, p + Z.of_nat (length pre))).
    { rewrite <- E. unfold pre. destruct (Z.eqb_spec c 10) as [-> |]; cbn [emit];
        destruct (add_char _ _ _ (m, p)) as [o|]; cbn [mbind res_bind]; [| done..].
      by destruct (add_char _ _ 13 o). }
    destruct (add_char buf sz c (m, p)) as [o|]; cbn [mbind res_bind] in *; [| done]. rewrite Es.
    cbn [mbind res_bind]. destruct (IH fuel (format + 1) m1 (p + Z.of_nat (length pre)) x args) as (m' & E2 & E3);
      [done | lia | apply (cstr_within buf sz t m); [done | simpl in Hd; lia | done] | set_solver | simpl in Hd; lia | lia | lia |].
    exists m'. rewrite emit_app, E. cbn [mbind res_bind]. rewrite E2, E3, length_app, Nat2Z.inj_add, Z.add_assoc. done.
Qed.

(** The memory vsnprintf leaves: the text, cut to [sz - 1] characters, and a NUL. *)
Lemma vsnprintf_plain l fuel format m args : mapped m buf sz -> 0 < sz < 2 ^ 31 -> cstr m format l -> 37 ∉ l ->
  (format + Z.of_nat (length l) < buf \/ buf + sz <= format) -> (length l < fuel)%nat ->
  Z.of_nat (length (expand l)) < 2 ^ 31 ->
  exists m', vsnprintf print_float fuel buf sz format args m = Ok (Z.of_nat (length (expand l)), m') /\
    mapped m' buf sz /\
    (forall i, 0 <= i < Z.min (Z.of_nat (length (expand l))) (sz - 1) -> m' !! (buf + i) = expand l !! Z.to_nat i) /\
    m' !! (buf + Z.min (Z.of_nat (length (expand l))) (sz - 1)) = Some 0 /\ within buf sz m m'.
Proof.
  intros Hm Hsz Hl Hn Hd Hf Hlen. set (len := Z.of_nat (length (expand l))) in *. unfold vsnprintf.
  destruct (plain_loop l fuel format m 0 spec0 args) as (m1 & E1 & ->); try done; try lia.
  destruct (emit_ok buf sz (expand l) m 0 Hm ltac:(lia) ltac:(lia)) as (m1' & E1' & Hm1 & O).
  rewrite E1 in E1'. inversion E1'; subst m1'. cbn [mbind res_bind o_mem buf_ptr]. rewrite Z.add_0_l.
  fold len. fold len in O. assert (Hs : s32 len <? 0 = false).
  { rewrite s32_small by lia. apply Z.ltb_ge. lia. }
  rewrite Hs. destruct (Z.eqb_spec sz 0); [lia |]. cbn [negb].
  set (k := Z.min len (sz - 1)).
  replace (if len <? sz then storeb m1 (buf + len) 0 else storeb m1 (buf + sz - 1) 0) with (storeb m1 (buf + k) 0)
    by (unfold k; destruct (Z.ltb_spec len sz); f_equal; lia).
  unfold storeb. destruct (loadb_mapped m1 (buf + k) 1) as (b & Hb & ->);
    [intros i Hi; rewrite <- Z.add_assoc; apply Hm1; lia | lia |].
  cbn [mbind res_bind]. eexists. split_and!; [reflexivity | | | by rewrite lookup_insert_eq |].
  - intros i Hi. rewrite lookup_insert_is_Some'. right. by apply Hm1.
  - intros i Hi. rewrite lookup_insert_ne by lia. rewrite (O (buf + i)). bit_cases; try lia.
    f_equal. lia.
  - intros x Hx. rewrite lookup_insert_ne by lia. rewrite (O x). bit_cases; try lia; done.
Qed.
End Plain.

(** vprintf of a format without conversions: the text, with a carriage return
    after each newline, is passed on if it has less than 256 characters, and
    its length is returned; a callback for characters gets a second carriage
    return.  A longer text makes putsn read beyond the 256-byte array, which is
    a fault when the byte after it is not mapped (without a callback nothing is
    read). *)
Theorem vprintf_plain print_float cb fuel str format l args m :
  mapped m str 256 -> cstr m format l -> 37 ∉ l ->
  (format + Z.of_nat (length l) < str \/ str + 256 <= format) -> (length l < fuel)%nat ->
  (0 < length (expand l) < 256 ->
     vprintf print_float cb fuel str format args m = Ok (Z.of_nat (length (expand l)), through cb (expand l)))%nat /\
  (256 < Z.of_nat (length (expand l)) < 2 ^ 31 -> m !! (str + 256) = None -> cb <> Out_none ->
     vprintf print_float cb fuel str format args m = Stop FMem).
Proof.
  intros Hm Hl Hn Hd Hf.
  assert (Hv : Z.of_nat (length (expand l)) < 2 ^ 31 -> _) by
    (exact (vsnprintf_plain print_float str 256 l fuel format m args Hm ltac:(lia) Hl Hn Hd Hf)).
  assert (Hs : forall k, 0 < k < 2 ^ 31 -> 0 <? s32 k = true /\ k =? 0 = false).
  { intros k Hk. split; [apply Z.ltb_lt; rewrite s32_small by lia; lia |].
    apply Z.eqb_neq. lia. }
  split; intros H; [destruct (Hv ltac:(lia)) as (m' & E & Hm' & Ht & Hz & Hw)
                   | intros Hu Hcb; destruct (Hv ltac:(lia)) as (m' & E & Hm' & Ht & Hz & Hw)];
    unfold vprintf, putsn; rewrite E; cbn [mbind res_bind];
    destruct (Hs (Z.of_nat (length (expand l))) ltac:(lia)) as [-> ->]; rewrite Nat2Z.id.
  - destruct (load_bytes_ok m' (length (expand l)) str) as (o & -> & Ho & Hi);
      [eapply mapped_le; [| done]; lia |].
    enough (Eo : o = expand l) by (rewrite Eo; by destruct cb). apply list_eq_same_length with (length (expand l)); [done | done |].
    intros i x y Hi1 Hx Hy. rewrite Hi in Hx by done. rewrite Ht in Hx by lia. rewrite Nat2Z.id in Hx. congruence.
  - assert (Hov : forall n a, (exists j, (j < n)%nat /\ m' !! (a + Z.of_nat j) = None) -> load_bytes m' a n = Stop FMem).
    { clear. induction n as [|n IH]; intros a (j & Hj & Hn); [lia |]. cbn [load_bytes]. unfold loadb.
      destruct (m' !! a) as [b|] eqn:Ea; cbn [from_opt mbind res_bind]; [| done].
      rewrite IH; [done |]. destruct j as [|j]; [rewrite Z.add_0_r in Hn; congruence |].
      exists j. split; [lia |]. rewrite <- Hn. f_equal. lia. }
    rewrite Hov; [by destruct cb |]. exists 256%nat. split; [lia |]. change (Z.of_nat 256) with 256. rewrite Hw by lia. done.
Qed.

(** "hi\n" is printed; 300 characters fault. *)
Definition hi_mem : mem :=
  list_to_map ([(0, 104); (1, 105); (2, 10); (3, 0)] ++ ((fun i => (1000 + i, 7)) <$> seqZ 0 256)).
Definition long_mem : mem :=
  list_to_map (((fun i => (i, 97)) <$> seqZ 0 300) ++ [(300, 0)] ++ ((fun i => (1000 + i, 7)) <$> seqZ 0 256)).

(** Decision procedures for closed memories. *)
Definition mappedb (m : mem) (a n : Z) : bool := forallb (fun i => bool_decide (is_Some (m !! (a + i)))) (seqZ 0 n).
Lemma mappedb_sound m a n : mappedb m a n = true -> mapped m a n.
Proof.
  unfold mappedb. rewrite forallb_forall. intros H i Hi.
  specialize (H i ltac:(apply list_elem_of_In, elem_of_seqZ; lia)). by apply bool_decide_eq_true_1 in H.
Qed.

Fixpoint cstrb (m : mem) (p : Z) (s : list Z) : bool :=
  match s with
  | [] => bool_decide (m !! p = Some 0)
  | c :: t => bool_decide (m !! p = Some c) && negb (c =? 0) && cstrb m (p + 1) t
  end.
Lemma cstrb_sound m s : forall p, cstrb m p s = true -> cstr m p s.
Proof.
  induction s as [|c t IH]; intros p; simpl; [apply bool_decide_eq_true_1 |].
  rewrite !andb_true_iff. intros [[H1 H2] H3]. apply bool_decide_eq_true_1 in H1.
  apply negb_true_iff, Z.eqb_neq in H2. auto.
Qed.

Lemma vprintf_plain_witness :
  vprintf no_float Out_char 10 1000 0 [] hi_mem = Ok (4, [104; 105; 10; 13; 13]) /\
  vprintf no_float Out_string 400 1000 0 [] long_mem = Stop FMem.
Proof.
  split.
  - refine (proj1 (vprintf_plain no_float Out_char 10 1000 0 [104; 105; 10] [] hi_mem _ _ _ _ _) _).
    + apply mappedb_sound. vm_compute. reflexivity.
    + apply cstrb_sound. vm_compute. reflexivity.
    + apply (bool_decide_eq_true_1 _). vm_compute. reflexivity.
    + left. simpl. lia.
    + simpl. lia.
    + simpl. lia.
  - refine (proj2 (vprintf_plain no_float Out_string 400 1000 0 (replicate 300 97) [] long_mem _ _ _ _ _) _ _ _).
    + apply mappedb_sound. vm_compute. reflexivity.
    + apply cstrb_sound. vm_compute. reflexivity.
    + apply (bool_decide_eq_true_1 _). vm_compute. reflexivity.
    + left. rewrite length_replicate. lia.
    + rewrite length_replicate. lia.
    + assert (E : Z.of_nat (length (expand (replicate 300 97))) = 300) by (vm_compute; reflexivity). rewrite E. lia.
    + vm_compute. reflexivity.
    + discriminate.
Defined.
