(* ===== verification/Threads.v ===== *)
(** krn/thread.h, krn/threads.h, krn/sched.h, krn/kconfig.h: threads, their
    states and the scheduler queues.

    A thread pointer is its index in [_threads].  The queues are [list_t]s of
    thread pointers (the contract [ListSpec]); an iterator is the list object
    that owns the item and the item address, [None] is end().  The system
    clock is an argument of the operations that read it; names, kernel stack
    contents, floating point frames and time accounting are not modelled. *)

From Stdlib Require Import ZArith Lia Bool.
From stdpp Require Import base list numbers sets sorting.
From S2P Require Import Prelude SysUtils ListSpec L4Types.

(** ** kconfig.h *)

Definition Ints_max : Z := 128.
Definition Kthreads_max : Z := 1.
Definition Thr_num_width : Z := 8.
Definition Uthreads_max : Z := Z.shiftl 1 Thr_num_width - (Ints_max + Kthreads_max).
Definition Threads_max : Z := Kthreads_max + Uthreads_max.
Definition Timeslice_usec : Z := 50 * 1000.
Definition Thread_number_min : Z := Ints_max.
Definition Thread_number_max : Z := Ints_max + Threads_max - 1.

(** ** Thread_t *)

Definition Prio_max : Z := 255.
Definition Snd_mask : Z := 0x10.
Definition Rcv_mask : Z := 0x20.

Inductive state_t :=
| Idle | Inactive | Active | Ready | Send_ipc | Send_pfault | Send_exception
| Receive_ipc | Receive_pfault | Receive_exception.

Definition state_code (s : state_t) : Z :=
  match s with
  | Idle => 0 | Inactive => 1 | Active => 2 | Ready => 3
  | Send_ipc => Z.lor Snd_mask 0 | Send_pfault => Z.lor Snd_mask 1 | Send_exception => Z.lor Snd_mask 2
  | Receive_ipc => Z.lor Rcv_mask 0 | Receive_pfault => Z.lor Rcv_mask 1 | Receive_exception => Z.lor Rcv_mask 2
  end.

#[export] Instance state_eq_dec : EqDecision state_t.
Proof. solve_decision. Defined.

Record ipc_t := MkIpc { timeout : Z; ipc_to : Z; ipc_from_spec : Z }.
Record pfault_t := MkPf { pf_addr : Z; pf_inst : Z; pf_access : Z }.

Definition ipc_clear : ipc_t := MkIpc 0 Thrid_nil Thrid_nil.
Definition pfault_clear : pfault_t := MkPf 0 0 0.

(** InheritedPrio_t: owner and priority, compared by priority. *)
Abbreviation inhprio := (Z * Z)%type.
Definition inhprio_ltb (a b : inhprio) : bool := snd a <? snd b.

(** The scheduler lists. *)
Inductive qid := QReady (prio : Z) | QSend | QTmoSnd | QTmoRcv.

#[export] Instance qid_eq_dec : EqDecision qid.
Proof. solve_decision. Defined.

Abbreviation iter_t := (option (qid * Z)).

(** The fields of Thread_t the modelled operations use; the last three are
    fields of the thread's UTCB. *)
Record thread_t := MkThread {
  _task : Z; _utcb_uva : Z; _glob_id : Z; _sched_id : Z; _pager_id : Z;
  _kstack_area : Z; _ksp : Z;
  _state : state_t; _ipc : ipc_t; _pfault : pfault_t;
  _prio : Z; _inherited_prios : alist inhprio; _prio_heir : Z; _iter : iter_t;
  _update_timeslice_point : Z; _remaning_timeslice : Z;
  utcb_msgtag : Z; utcb_sender : Z; utcb_error : Z
}.

Definition with_ids (th : thread_t) task glob sched pager := let 'MkThread _ u _ _ _ k p s i f pr h he it up r m sd e := th in
  MkThread task u glob sched pager k p s i f pr h he it up r m sd e.
Definition with_ksp (th : thread_t) v := let 'MkThread t u g sc pg k _ s i f pr h he it up r m sd e := th in
  MkThread t u g sc pg k v s i f pr h he it up r m sd e.
Definition with_state (th : thread_t) v := let 'MkThread t u g sc pg k p _ i f pr h he it up r m sd e := th in
  MkThread t u g sc pg k p v i f pr h he it up r m sd e.
Definition with_ipc (th : thread_t) v := let 'MkThread t u g sc pg k p s _ f pr h he it up r m sd e := th in
  MkThread t u g sc pg k p s v f pr h he it up r m sd e.
Definition with_pfault (th : thread_t) v := let 'MkThread t u g sc pg k p s i _ pr h he it up r m sd e := th in
  MkThread t u g sc pg k p s i v pr h he it up r m sd e.
Definition with_prio (th : thread_t) v := let 'MkThread t u g sc pg k p s i f _ h he it up r m sd e := th in
  MkThread t u g sc pg k p s i f v h he it up r m sd e.
Definition with_inherited (th : thread_t) v := let 'MkThread t u g sc pg k p s i f pr _ he it up r m sd e := th in
  MkThread t u g sc pg k p s i f pr v he it up r m sd e.
Definition with_heir (th : thread_t) v := let 'MkThread t u g sc pg k p s i f pr h _ it up r m sd e := th in
  MkThread t u g sc pg k p s i f pr h v it up r m sd e.
Definition with_iter (th : thread_t) v := let 'MkThread t u g sc pg k p s i f pr h he _ up r m sd e := th in
  MkThread t u g sc pg k p s i f pr h he v up r m sd e.
Definition with_slice (th : thread_t) up r := let 'MkThread t u g sc pg k p s i f pr h he it _ _ m sd e := th in
  MkThread t u g sc pg k p s i f pr h he it up r m sd e.
Definition with_utcb (th : thread_t) m e := let 'MkThread t u g sc pg k p s i f pr h he it up r _ sd _ := th in
  MkThread t u g sc pg k p s i f pr h he it up r m sd e.

Definition prio (th : thread_t) : Z := u8 (_prio th).
Definition localid (th : thread_t) : Z := _utcb_uva th.
Definition is_active (th : thread_t) : bool := negb (bool_decide (_state th = Inactive)).
Definition is_snd_state (th : thread_t) : bool := negb (Z.land (state_code (_state th)) Snd_mask =? 0).
Definition is_rcv_state (th : thread_t) : bool := negb (Z.land (state_code (_state th)) Rcv_mask =? 0).

(** timeslice(v), timeslice_start, timeslice_stop, timeslice_update; the
    parameters of min() are 32 bits wide, so it gets the low half of the time. *)
Definition timeslice_set (th : thread_t) v := with_slice th (_update_timeslice_point th) v.
Definition timeslice_start (th : thread_t) now := with_slice th now (_remaning_timeslice th).
Definition rest_of_slice (th : thread_t) (now : Z) : Z :=
  let exec_time := u64 (now - _update_timeslice_point th) in
  u32 (_remaning_timeslice th - cmin (u32 exec_time) (_remaning_timeslice th)).
Definition timeslice_stop (th : thread_t) now := with_slice th 0 (rest_of_slice th now).
Definition timeslice_update (th : thread_t) now := with_slice th now (rest_of_slice th now).

(** Inherited priorities: list_t<InheritedPrio_t, 2>, sorted by priority. *)
Fixpoint find_owner (owner : Z) (l : list (Z * inhprio)) : Z :=
  match l with
  | [] => 0
  | (a, p) :: t => if fst p =? owner then a else find_owner owner t
  end.
Definition inherit_prio_find (th : thread_t) (owner : Z) : Z := find_owner owner (busy (_inherited_prios th)).

Definition inherit_prio_add (th : thread_t) (owner priority : Z) : res thread_t :=
  _ ← wassert (negb (owner =? _glob_id th));
  _ ← wassert (inherit_prio_find th owner =? 0);
  '(_, l) ← insert_sort inhprio_ltb (_inherited_prios th) (owner, priority);
  Ok (with_inherited th l).

Definition inherit_prio_del (th : thread_t) (owner priority : Z) : res thread_t :=
  let it := inherit_prio_find th owner in
  _ ← wassert (negb (owner =? _glob_id th));
  _ ← wassert (negb (it =? 0));
  p ← deref (_inherited_prios th) it;
  _ ← wassert (snd p =? priority);
  '(_, l) ← erase (_inherited_prios th) it;
  Ok (with_inherited th l).

Definition prio_max (th : thread_t) : res Z :=
  if empty (_inherited_prios th) then Ok (_prio th)
  else p ← deref (_inherited_prios th) (last (_inherited_prios th));
       Ok (cmax (_prio th) (snd p)).

(** ** Threads_t: the static data *)

Record threads := MkS {
  thr : list thread_t;          (* _threads *)
  ready_bits : list Z;          (* _ready_bits *)
  queues : qid -> alist nat;    (* _ready_threads, _send_threads, _timeout_waiting_*_threads *)
  current : nat                 (* Sched_t::_current *)
}.

Definition get (s : threads) (t : nat) : res thread_t := from_opt FMem (thr s !! t).
Definition put (s : threads) (t : nat) (th : thread_t) : threads :=
  MkS (<[t := th]> (thr s)) (ready_bits s) (queues s) (current s).
Definition set_queue (s : threads) (q : qid) (A : alist nat) : threads :=
  MkS (thr s) (ready_bits s) (fun q' => if decide (q' = q) then A else queues s q') (current s).
Definition set_bits (s : threads) (b : list Z) : threads := MkS (thr s) b (queues s) (current s).

(** The two is_exist helpers. *)
Definition is_exist_thr (A : alist nat) (t : nat) : bool := existsb (fun x => Nat.eqb (snd x) t) (busy A).
Definition is_exist_it (s : threads) (q : qid) (it : iter_t) : bool :=
  match it with
  | Some (q', a) => bool_decide (q' = q) && existsb (fun x => fst x =? a) (busy (queues s q))
  | None => false
  end.

(** *it: the item belongs to the list object named by the iterator. *)
Definition deref_it (s : threads) (it : iter_t) : res nat :=
  '(q, a) ← from_opt FMem it; deref (queues s q) a.

Definition erase_it (s : threads) (q : qid) (it : iter_t) : res (alist nat) :=
  '(_, a) ← from_opt FMem it; '(_, A) ← erase (queues s q) a; Ok A.

Definition ready_threads (p : Z) : res qid := _ ← wassert (p <=? Prio_max); Ok (QReady p).

Definition bits_group (p : Z) : nat := Z.to_nat (p / 32).
Definition bit_mask (p : Z) : Z := u32 (Z.shiftl 1 (p - p / 32 * 32)).

Definition add_ready (s : threads) (t : nat) : res (iter_t * threads) :=
  th ← get s t;
  q ← ready_threads (prio th);
  _ ← wassert (negb (is_exist_thr (queues s q) t));
  A ← push_back (queues s q) t;
  w ← from_opt FMem (ready_bits s !! bits_group (prio th));
  Ok (Some (q, last A),
      set_bits (set_queue s q A) (<[bits_group (prio th) := Z.lor w (bit_mask (prio th))]> (ready_bits s))).

Definition del_ready (s : threads) (it : iter_t) : res (iter_t * threads) :=
  t ← deref_it s it;
  th ← get s t;
  q ← ready_threads (prio th);
  _ ← wassert (is_exist_it s q it);
  A ← erase_it s q it;
  let s1 := set_queue s q A in
  if empty A then
    w ← from_opt FMem (ready_bits s !! bits_group (prio th));
    Ok (None, set_bits s1 (<[bits_group (prio th) := Z.ldiff w (bit_mask (prio th))]> (ready_bits s)))
  else Ok (None, s1).

Definition add_send (s : threads) (t : nat) : res (iter_t * threads) :=
  _ ← wassert (negb (is_exist_thr (queues s QSend) t));
  A ← push_back (queues s QSend) t;
  Ok (Some (QSend, last A), set_queue s QSend A).

Definition del_send (s : threads) (it : iter_t) : res (iter_t * threads) :=
  _ ← wassert (is_exist_it s QSend it);
  A ← erase_it s QSend it;
  Ok (None, set_queue s QSend A).

(** The position of a thread with this timeout and priority: the first item
    that expires later, or at the same time with a lower priority. *)
Fixpoint tmo_pos (s : threads) (th : thread_t) (l : list (Z * nat)) : res Z :=
  match l with
  | [] => Ok 0
  | (a, u) :: tl =>
      uth ← get s u;
      if (timeout (_ipc th) <? timeout (_ipc uth)) ||
         ((timeout (_ipc uth) =? timeout (_ipc th)) && (prio uth <? prio th))
      then Ok a else tmo_pos s th tl
  end.

Definition add_timeout_waiting (s : threads) (t : nat) (q : qid) : res (iter_t * threads) :=
  _ ← wassert (negb (is_exist_thr (queues s q) t));
  th ← get s t;
  pos ← tmo_pos s th (busy (queues s q));
  if negb (pos =? 0) then
    '(_, A) ← insert_before (queues s q) pos t;
    p ← prev A pos;
    Ok (Some (q, p), set_queue s q A)
  else
    A ← push_back (queues s q) t;
    Ok (Some (q, last A), set_queue s q A).

Definition del_timeout_waiting (s : threads) (it : iter_t) (q : qid) : res (iter_t * threads) :=
  _ ← wassert (is_exist_it s q it);
  A ← erase_it s q it;
  Ok (None, set_queue s q A).

Definition in_state (s : threads) (t : nat) (st : state_t) : res unit :=
  th ← get s t; wassert (bool_decide (_state th = st)).

Definition add_rcv_timeout_waiting (s : threads) (t : nat) :=
  _ ← in_state s t Receive_ipc; add_timeout_waiting s t QTmoRcv.
Definition add_snd_timeout_waiting (s : threads) (t : nat) :=
  _ ← in_state s t Send_ipc; add_timeout_waiting s t QTmoSnd.
Definition del_rcv_timeout_waiting (s : threads) (it : iter_t) :=
  t ← deref_it s it; _ ← in_state s t Receive_ipc; del_timeout_waiting s it QTmoRcv.
Definition del_snd_timeout_waiting (s : threads) (it : iter_t) :=
  t ← deref_it s it; _ ← in_state s t Send_ipc; del_timeout_waiting s it QTmoSnd.

(** *** Lookup of threads *)

(** find(unsigned): null for a number out of range and for an idle thread. *)
Definition find_num (s : threads) (num : Z) : option nat :=
  if (Thread_number_min <=? num) && (num <=? Thread_number_max) then
    let t := Z.to_nat (num - Thread_number_min) in
    match thr s !! t with
    | Some th => if decide (_state th = Idle) then None else Some t
    | None => None
    end
  else None.

Fixpoint find_utcb_loop (task utcb : Z) (l : list thread_t) (t : nat) : res (option nat) :=
  match l with
  | [] => Stop FPanic
  | th :: tl =>
      if (_task th =? task) && (utcb =? _utcb_uva th) then
        Ok (if decide (_state th = Idle) then None else Some t)
      else find_utcb_loop task utcb tl (S t)
  end.

Definition find_by_utcb (s : threads) (utcb : Z) : res (option nat) :=
  cur ← get s (current s); find_utcb_loop (_task cur) utcb (thr s) 0.

Definition find (s : threads) (id : Z) : res (option nat) :=
  if thrid_is_global id then Ok (find_num s (thrid_number id))
  else if thrid_is_local id then find_by_utcb s id
  else Ok None.

(** *** Thread_t::state(state_t) *)

Definition Never_timeout : Z := u64 (-1).
Definition waits (th : thread_t) : bool := negb (timeout (_ipc th) =? Never_timeout).

(** The iterator assigned by an add or delete operation goes into _iter. *)
Definition assign_iter (t : nat) (r : res (iter_t * threads)) : res threads :=
  '(it, s) ← r; th ← get s t; Ok (put s t (with_iter th it)).

(** "delete from cur sched-list if need" *)
Definition leave_list (s : threads) (t : nat) (th : thread_t) : res threads :=
  match _state th with
  | Ready => assign_iter t (del_ready s (_iter th))
  | Send_ipc => if waits th then assign_iter t (del_snd_timeout_waiting s (_iter th))
                else assign_iter t (del_send s (_iter th))
  | Send_pfault | Send_exception => assign_iter t (del_send s (_iter th))
  | Receive_ipc => if waits th then assign_iter t (del_rcv_timeout_waiting s (_iter th)) else Ok s
  | _ => Ok s
  end.

(** "add to sched-new list if need" *)
Definition enter_list (s : threads) (t : nat) : res threads :=
  th ← get s t;
  match _state th with
  | Ready =>
      let s1 := put s t (timeslice_set (with_pfault (with_ipc th ipc_clear) pfault_clear) Timeslice_usec) in
      assign_iter t (add_ready s1 t)
  | Send_ipc => if waits th then assign_iter t (add_snd_timeout_waiting s t) else assign_iter t (add_send s t)
  | Send_pfault | Send_exception => assign_iter t (add_send s t)
  | Receive_ipc => if waits th then assign_iter t (add_rcv_timeout_waiting s t) else Ok s
  | _ => Ok s
  end.

(** "remove inherited prio if need" *)
Definition drop_heir (s : threads) (t : nat) : res threads :=
  th ← get s t;
  if negb (thrid_is_nil (_prio_heir th)) then
    o ← find s (_prio_heir th);
    h ← from_opt FAssert o;
    hth ← get s h;
    p ← prio_max th;
    hth' ← inherit_prio_del hth (_glob_id th) p;
    let s1 := put s h hth' in
    th1 ← get s1 t;
    Ok (put s1 t (with_heir th1 Thrid_nil))
  else Ok s.

Definition set_state (s : threads) (t : nat) (st : state_t) : res threads :=
  th ← get s t;
  _ ← wassert (negb (bool_decide (_state th = st)));
  s1 ← leave_list s t th;
  th1 ← get s1 t;
  s2 ← enter_list (put s1 t (with_state th1 st)) t;
  drop_heir s2 t.

(** Thread_t::prio(uint8_t) *)
Definition set_prio (s : threads) (t : nat) (v : Z) : res threads :=
  th ← get s t;
  s1 ← (if decide (_state th = Ready) then assign_iter t (del_ready s (_iter th)) else Ok s);
  th1 ← get s1 t;
  let s2 := put s1 t (with_prio th1 (u8 v)) in
  if decide (_state th = Ready) then assign_iter t (add_ready s2 t) else Ok s2.

(** save_rcv_phase and save_snd_phase: [now] is the system clock. *)
Definition expire_at (now timeout : Z) : Z :=
  if time_is_never timeout then Never_timeout else u64 (now + time_rel_usec timeout).

Definition save_rcv_phase (s : threads) (t : nat) (now timeout from_spec : Z) : res threads :=
  _ ← wassert (time_is_rel timeout);
  th ← get s t;
  set_state (put s t (with_ipc th (MkIpc (expire_at now timeout) (ipc_to (_ipc th)) from_spec))) t Receive_ipc.

Definition save_snd_phase (s : threads) (t : nat) (now timeout to : Z) : res threads :=
  _ ← wassert (time_is_rel timeout);
  th ← get s t;
  set_state (put s t (with_ipc th (MkIpc (expire_at now timeout) to (ipc_from_spec (_ipc th))))) t Send_ipc.

(** *** The scheduler *)

(** replace cur thread at the end of que and set new timeslice *)
Definition timeslice_expired (s : threads) (t : nat) (que : option qid) : res (iter_t * threads) :=
  th ← get s t;
  _ ← wassert (_remaning_timeslice th =? 0);
  _ ← wassert (bool_decide (_state th = Ready));
  q ← (match que with Some q => Ok q | None => ready_threads (prio th) end);
  let s1 := put s t (timeslice_set th Timeslice_usec) in
  let it := _iter th in
  if Nat.ltb 1 (size (queues s q)) then
    v ← deref_it s1 it;
    A ← push_back (queues s1 q) v;
    let s2 := put (set_queue s1 q A) t (with_iter (timeslice_set th Timeslice_usec) (Some (q, last A))) in
    A2 ← erase_it s2 q it;
    Ok (Some (q, begin A2), set_queue s2 q A2)
  else Ok (Some (q, begin (queues s q)), s1).

(** The highest set bit below [n]. *)
Fixpoint hi_bit (n : nat) (w : Z) : option Z :=
  match n with
  | O => None
  | S j => if negb (Z.land (Z.shiftr w (Z.of_nat j)) 1 =? 0) then Some (Z.of_nat j) else hi_bit j w
  end.

(** The two loops over the ready bits: the highest priority with its bit set. *)
Fixpoint hi_prio (n : nat) (bits : list Z) : res (option Z) :=
  match n with
  | O => Ok None
  | S i =>
      w ← from_opt FMem (bits !! i);
      match (if negb (w =? 0) then hi_bit 32 w else None) with
      | Some j => Ok (Some (32 * Z.of_nat i + j))
      | None => hi_prio i bits
      end
  end.

Definition get_highest_prio_ready_thread (s : threads) : res (nat * threads) :=
  o ← hi_prio 8 (ready_bits s);
  p ← from_opt FPanic o;
  q ← ready_threads p;
  _ ← wassert (negb (Nat.eqb (size (queues s q)) 0));
  let it := Some (q, begin (queues s q)) in
  t ← deref_it s it;
  th ← get s t;
  if _remaning_timeslice th =? 0 then
    '(it2, s1) ← timeslice_expired s t (Some q);
    t2 ← deref_it s1 it2;
    Ok (t2, s1)
  else Ok (t, s).

(** Sched_t::switch_to: the running thread's slice is charged, the next one
    starts at [now] (the processor context switch itself is not modelled). *)
Definition switch_to (s : threads) (nxt : nat) (now : Z) : res threads :=
  if Nat.eqb (current s) nxt then Ok s
  else
    cth ← get s (current s);
    let s1 := put s (current s) (timeslice_stop cth now) in
    nth ← get s1 nxt;
    let s2 := put s1 nxt (timeslice_start nth now) in
    Ok (MkS (thr s2) (ready_bits s2) (queues s2) nxt).

Definition switch_to_next (s : threads) (now : Z) : res threads :=
  '(nxt, s1) ← get_highest_prio_ready_thread s; switch_to s1 nxt now.

(** *** Expired timeouts *)

Definition L4_snd_phase : Z := 0.
Definition L4_rcv_phase : Z := 1.
Definition L4_ipc_timeout : Z := 1.

(** One pass over a timeout list; the list shrinks as its threads become ready. *)
Fixpoint expire_loop (fuel : nat) (s : threads) (now : Z) (q : qid) (it : Z) (nxt : option nat)
  : res (option nat * threads) :=
  if it =? 0 then Ok (nxt, s)
  else match fuel with
  | O => Stop FFuel
  | S f =>
      t ← deref (queues s q) it;
      th ← get s t;
      _ ← wassert (bool_decide (_state th = Send_ipc) || bool_decide (_state th = Receive_ipc));
      if now <? timeout (_ipc th) then Ok (nxt, s)
      else
        let nxt' := match nxt with None => Some t | _ => nxt end in
        let phase := if decide (_state th = Send_ipc) then L4_snd_phase else L4_rcv_phase in
        let s1 := put s t (with_utcb th (tag_ipc_set_failed (utcb_msgtag th))
                             (ipcerr_create 0 phase L4_ipc_timeout 0)) in
        next_it ← next (queues s1 q) it;
        s2 ← set_state s1 t Ready;
        s3 ← drop_heir s2 t;
        expire_loop f s3 now q next_it nxt'
  end.

Definition check_ipc_timeouts_list (s : threads) (now : Z) (q : qid) : res (option nat * threads) :=
  expire_loop (length (busy (queues s q))) s now q (begin (queues s q)) None.

Definition check_ipc_timeouts (s : threads) (now : Z) : res (option nat * threads) :=
  '(n1, s1) ← check_ipc_timeouts_list s now QTmoSnd;
  '(n2, s2) ← check_ipc_timeouts_list s1 now QTmoRcv;
  match n1, n2 with
  | Some t1, Some t2 =>
      th1 ← get s2 t1; th2 ← get s2 t2;
      p1 ← prio_max th1; p2 ← prio_max th2;
      Ok (Some (if p2 <? p1 then t1 else t2), s2)
  | Some t1, None => Ok (Some t1, s2)
  | None, _ => Ok (n2, s2)
  end.

(** *** Creation and removal *)

Definition create (s : threads) (globid sched pager task pr : Z) : res (nat * threads) :=
  let num := thrid_number globid in
  _ ← wassert ((Thread_number_min <=? num) && (num <=? Thread_number_max));
  let t := Z.to_nat (num - Thread_number_min) in
  th ← get s t;
  _ ← wassert (bool_decide (_state th = Idle));
  s1 ← set_prio (put s t (with_ids th task globid sched pager)) t pr;
  s2 ← set_state s1 t Inactive;
  th2 ← get s2 t;
  _ ← wassert (negb (_kstack_area th2 =? 0));
  Ok (t, put s2 t (with_ksp th2 (u32 (_kstack_area th2 + 4096)))).

Definition remove (s : threads) (globid : Z) : res threads :=
  let num := thrid_number globid in
  _ ← wassert ((Thread_number_min <=? num) && (num <=? Thread_number_max));
  set_state s (Z.to_nat (num - Thread_number_min)) Idle.

(** *** Partners of a receiver *)

(** The out parameters [propagated] and [use_local_id], which are only ever
    set to true. *)
Record flags_t := MkFl { propagated : bool; use_local_id : bool }.

Definition _is_good_sender (s : threads) (rcv : thread_t) (from_spec : Z) (snd : thread_t) (fl : flags_t)
  : res (bool * flags_t) :=
  _ ← wassert (is_snd_state snd);
  let to := ipc_to (_ipc snd) in
  let local := _task snd =? _task rcv in
  _ ← wassert (negb (thrid_is_nil to));
  _ ← wassert (negb (thrid_is_any to));
  _ ← wassert (negb (thrid_is_any_local to));
  if negb (local && (to =? localid rcv)) && negb (to =? _glob_id rcv) then Ok (false, fl)
  else
    '(sender, local1, fl1) ←
      (if tag_propagated (utcb_msgtag snd) then
         o ← find s (utcb_sender snd);
         match o with
         | Some v =>
             vth ← get s v;
             if (_task snd =? _task vth) || (_task snd =? _task rcv)
             then Ok (vth, _task vth =? _task rcv, MkFl true (use_local_id fl))
             else Ok (snd, local, fl)
         | None => Ok (snd, local, fl)
         end
       else Ok (snd, local, fl));
    if negb (thrid_is_any from_spec) &&
       negb (local1 && thrid_is_any_local from_spec) &&
       negb (local1 && (from_spec =? localid sender)) &&
       negb (from_spec =? _glob_id sender)
    then Ok (false, fl1)
    else
      let fl2 := if local1 && (thrid_is_any_local from_spec || (from_spec =? localid sender))
                 then MkFl (propagated fl1) true else fl1 in
      Ok (true, fl2).

Fixpoint best_sender (s : threads) (rcv : thread_t) (from_spec : Z) (l : list nat) (r : option nat) (fl : flags_t)
  : res (option nat * flags_t) :=
  match l with
  | [] => Ok (r, fl)
  | t :: tl =>
      th ← get s t;
      '(good, fl1) ← _is_good_sender s rcv from_spec th fl;
      if negb good then best_sender s rcv from_spec tl r fl1
      else
        take ← (match r with
                | None => Ok true
                | Some u => uth ← get s u; pu ← prio_max uth; pt ← prio_max th; Ok (pu <? pt)
                end);
        best_sender s rcv from_spec tl (if take : bool then Some t else r) fl1
  end.

Definition find_highest_prio_sender (s : threads) (q : qid) (rcv : thread_t) (from_spec : Z) (fl : flags_t) :=
  best_sender s rcv from_spec (vals (busy (queues s q))) None fl.

Definition find_sender (s : threads) (rcv : nat) (from_spec : Z) : res (option nat * flags_t) :=
  let fl := MkFl false false in
  rth ← get s rcv;
  o ← find s from_spec;
  match o with
  | Some t =>
      th ← get s t;
      if negb (is_snd_state th) then Ok (None, fl)
      else '(good, fl1) ← _is_good_sender s rth from_spec th fl;
           Ok (if good : bool then Some t else None, fl1)
  | None =>
      '(snd1, fl1) ← find_highest_prio_sender s QTmoSnd rth from_spec fl;
      '(snd2, fl2) ← find_highest_prio_sender s QSend rth from_spec fl;
      match snd1, snd2 with
      | Some t1, Some t2 =>
          th1 ← get s t1; th2 ← get s t2; p1 ← prio_max th1; p2 ← prio_max th2;
          Ok (if p1 <? p2 then (Some t2, fl2) else (Some t1, fl1))
      | Some t1, None => Ok (Some t1, fl1)
      | None, Some t2 => Ok (Some t2, fl2)
      | None, None => Ok (None, fl)
      end
  end.

(** Thread_t::is_good_sender: the result and use_local_id *)
Definition is_good_sender (rcv snd : thread_t) : res (bool * bool) :=
  _ ← wassert (bool_decide (_state rcv = Receive_ipc));
  let from_spec := ipc_from_spec (_ipc rcv) in
  _ ← wassert (negb (from_spec =? Thrid_nil));
  let local := _task rcv =? _task snd in
  if thrid_is_any from_spec || (local && thrid_is_any_local from_spec) ||
     (local && (from_spec =? localid snd)) || (from_spec =? _glob_id snd)
  then Ok (true, false)
  else if local && (thrid_is_any_local from_spec || (from_spec =? localid snd)) then Ok (false, true)
  else Ok (false, false).

Definition is_irq_acceptable (rcv : thread_t) (irq : Z) : res bool :=
  _ ← wassert (bool_decide (_state rcv = Receive_ipc));
  let from_spec := ipc_from_spec (_ipc rcv) in
  _ ← wassert (negb (from_spec =? Thrid_nil));
  Ok (thrid_is_any from_spec || (from_spec =? thrid_create_irq irq)).
