(* ===== verification/Sched.v ===== *)
(** The invariant of the scheduler queues and the correctness of the thread
    state machine and of the scheduler ([Threads]).

    Every thread is in exactly the list its state prescribes, its [_iter]
    points to its item there, the ready bits tell which ready lists are not
    empty and the timeout lists are ordered.  The state change of a thread
    first detaches it from its list, then attaches it to the new one: in
    between the invariant holds for all threads but this one ([inv_x]). *)

From Stdlib Require Import ZArith Lia Bool.
From stdpp Require Import base list numbers sets sorting.
From S2P Require Import Prelude SysUtils ListSpec L4Types Threads.

(** ** The list a thread belongs to *)

Definition queue_of (th : thread_t) : option qid :=
  match _state th with
  | Ready => Some (QReady (prio th))
  | Send_ipc => Some (if waits th then QTmoSnd else QSend)
  | Send_pfault | Send_exception => Some QSend
  | Receive_ipc => if waits th then Some QTmoRcv else None
  | _ => None
  end.

(** The threads of a list, in order. *)
Definition q_threads (s : threads) (q : qid) : list nat := vals (busy (queues s q)).

Definition tmo (s : threads) (t : nat) : Z := from_option (fun th => timeout (_ipc th)) 0 (thr s !! t).

Definition timed (q : qid) : Prop := q = QTmoSnd \/ q = QTmoRcv.

(** The ready bits [b] agree with the ready lists. *)
Definition bits_ok (b : list Z) (qs : qid -> alist nat) : Prop :=
  length b = 8%nat /\ Forall (in_range 32) b /\
  forall p, 0 <= p <= 255 -> exists w, b !! bits_group p = Some w /\
    Z.testbit w (p - p / 32 * 32) = negb (empty (qs (QReady p))).

Record inv_x (x : option nat) (s : threads) : Prop := MkInv {
  i_len : length (thr s) = 128%nat;
  i_bits : bits_ok (ready_bits s) (queues s);
  i_wf : forall q, wf (queues s q);
  i_cap : forall q, (length (busy (queues s q)) + length (free (queues s q)) = 128)%nat;
  i_in : forall t th q, thr s !! t = Some th -> Some t <> x -> queue_of th = Some q ->
    exists a, _iter th = Some (q, a) /\ (a, t) ∈ busy (queues s q);
  i_out : forall q a t, (a, t) ∈ busy (queues s q) -> Some t <> x /\
    exists th, thr s !! t = Some th /\ queue_of th = Some q /\ _iter th = Some (q, a);
  i_sorted : forall q, timed q -> StronglySorted Z.le (tmo s <$> q_threads s q)
}.

Abbreviation inv := (inv_x None).

(** ** Queue lemmas *)

Section Queue.
Implicit Types (A : alist nat).

Lemma in_busy_find A a t : wf A -> (a, t) ∈ busy A -> find_it a (busy A) = Some t.
Proof.
  intros [Hnd _] Hin. apply list_elem_of_split in Hin as (l1 & l2 & E). rewrite E.
  apply find_it_at. rewrite E, items_app in Hnd. simpl in Hnd. apply NoDup_app in Hnd as (Hnd & _ & _).
  apply NoDup_app in Hnd as (_ & H & _). intros Ha. apply (H a Ha). set_solver.
Qed.

Lemma erase_at A a t : wf A -> (a, t) ∈ busy A -> exists l1 l2 n A', erase A a = Ok (n, A') /\
  busy A = l1 ++ (a, t) :: l2 /\ busy A' = l1 ++ l2 /\ free A' = a :: free A /\ n = first_it l2 /\ wf A'.
Proof.
  intros W Hin. pose proof (in_busy_find A a t W Hin) as F.
  destruct (find_it_split a (busy A) t F) as (l1 & l2 & E & Hn).
  assert (Ee : exists n A', erase A a = Ok (n, A')).
  { unfold erase, next, empty, size. rewrite E, next_it_at by done. rewrite length_app. simpl.
    replace (length l1 + S (length l2) =? 0)%nat with false by (symmetry; apply Nat.eqb_neq; lia). simpl. eauto. }
  destruct Ee as (n & A' & Ee). destruct (erase_wf A a n A' W Ee) as (k1 & v & k2 & E1 & E2 & E3 & E4 & E5).
  assert (v = t); [| subst v; exists k1, k2, n, A'; split_and!; done].
  rewrite E1 in F. destruct W as [W _]. rewrite E1, items_app in W. simpl in W.
  rewrite find_it_at in F; [congruence |]. apply NoDup_app in W as (W & _ & _).
  apply NoDup_app in W as (_ & H & _). intros Ha. apply (H a Ha). set_solver.
Qed.

Lemma push_back_ok A t : free A <> [] -> exists f fs, free A = f :: fs /\
  push_back A t = Ok (MkA (busy A ++ [(f, t)]) fs) /\ last (MkA (busy A ++ [(f, t)]) fs) = f.
Proof.
  destruct (free A) as [|f fs] eqn:E; [done |]. intros _. exists f, fs. unfold push_back, take_free. rewrite E.
  split_and!; [done | done |]. unfold last, last_it. simpl. generalize 0.
  induction (busy A) as [|[b v] l IH]; intros d; simpl; [done | apply IH].
Qed.

Lemma elem_of_vals t (l : list (Z * nat)) : t ∈ vals l <-> exists a, (a, t) ∈ l.
Proof.
  unfold vals. rewrite list_elem_of_fmap. split.
  - intros ([a u] & -> & H). eauto.
  - intros (a & H). by exists (a, t).
Qed.

Lemma is_exist_thr_spec A t : is_exist_thr A t = true <-> t ∈ vals (busy A).
Proof.
  unfold is_exist_thr. rewrite existsb_exists, elem_of_vals. split.
  - intros ([a u] & H & E). apply Nat.eqb_eq in E. simpl in E. subst. exists a. by apply list_elem_of_In.
  - intros (a & H). exists (a, t). split; [by apply list_elem_of_In | apply Nat.eqb_refl].
Qed.

Lemma size_pos (l : list (Z * nat)) fr x : x ∈ l -> empty (MkA l fr) = false.
Proof. unfold empty, size. simpl. destruct l; [by intros ?%elem_of_nil | done]. Qed.
End Queue.

(** Without [t] in a list of thread indices below 128 there is a free item. *)
Lemma nodup_room (l : list nat) n : NoDup l -> (forall u, u ∈ l -> (u < n)%nat) -> (length l <= n)%nat.
Proof.
  intros Hn Hb. rewrite <- (length_seq n 0). apply submseteq_length, NoDup_submseteq; [done |].
  intros u Hu. apply elem_of_seq. specialize (Hb u Hu). lia.
Qed.

(** ** The ready bits *)

Lemma bits_group_lt p : 0 <= p <= 255 -> (bits_group p < 8)%nat.
Proof. intros H. unfold bits_group. assert (p / 32 < 8) by (apply Z.div_lt_upper_bound; lia). lia. Qed.

Lemma bit_mask_spec p i : 0 <= p -> 0 <= i < 32 -> Z.testbit (bit_mask p) i = (i =? p - p / 32 * 32).
Proof.
  intros Hp Hi. unfold bit_mask, wrap. rewrite Z.mod_pow2_bits_low by lia.
  pose proof (Z.mod_pos_bound p 32 ltac:(lia)). pose proof (Z.div_mod p 32 ltac:(lia)).
  rewrite Z.shiftl_1_l, Z.pow2_bits_eqb by lia. apply Z.eqb_sym.
Qed.

Lemma same_group p p' : 0 <= p -> 0 <= p' -> bits_group p = bits_group p' ->
  p - p / 32 * 32 = p' - p' / 32 * 32 -> p = p'.
Proof.
  unfold bits_group. intros H H' Hg Ho. pose proof (Z.div_pos p 32 H ltac:(lia)).
  pose proof (Z.div_pos p' 32 H' ltac:(lia)). lia.
Qed.

Lemma group_off p : 0 <= p -> 0 <= p - p / 32 * 32 < 32.
Proof. intros H. pose proof (Z.mod_pos_bound p 32 ltac:(lia)). pose proof (Z.div_mod p 32 ltac:(lia)). lia. Qed.

(** One word of the bits is replaced: the bit of [p] becomes [v], the others stay. *)
Lemma bits_update b qs p w w' A (v : bool) : bits_ok b qs -> 0 <= p <= 255 -> b !! bits_group p = Some w ->
  in_range 32 w' -> (forall i, 0 <= i < 32 ->
    Z.testbit w' i = if i =? p - p / 32 * 32 then v else Z.testbit w i) ->
  v = negb (empty A) ->
  bits_ok (<[bits_group p := w']> b) (fun q' => if decide (q' = QReady p) then A else qs q').
Proof.
  intros (Hl & Hr & Hb) Hp Hw Hw' Hbit Hv. split_and!.
  - by rewrite length_insert.
  - by apply Forall_insert.
  - intros p' Hp'. pose proof (group_off p' ltac:(lia)) as Ho. destruct (decide (bits_group p' = bits_group p)) as [Eg|Eg].
    + rewrite Eg, list_lookup_insert_eq by (rewrite Hl; by apply bits_group_lt). eexists. split; [done |].
      rewrite Hbit by lia. destruct (Z.eqb_spec (p' - p' / 32 * 32) (p - p / 32 * 32)) as [Eo|Eo].
      * assert (p' = p) by (apply same_group; [lia | lia | done | done]). subst p'. by rewrite decide_True by done.
      * rewrite decide_False by (intros [= ->]; done). destruct (Hb p' Hp') as (w1 & Hw1 & E).
        rewrite Eg, Hw in Hw1. injection Hw1 as <-. done.
    + rewrite list_lookup_insert_ne by done. destruct (Hb p' Hp') as (w1 & Hw1 & E). exists w1. split; [done |].
      rewrite decide_False by (intros [= ->]; done). done.
Qed.

(** ** Detached threads *)

Lemma inv_lt x s t th : inv_x x s -> thr s !! t = Some th -> (t < 128)%nat.
Proof. intros I H. rewrite <- (i_len x s I). by eapply lookup_lt_Some. Qed.

Lemma inv_nodup x s q : inv_x x s -> NoDup (q_threads s q).
Proof.
  intros I. unfold q_threads, vals. apply NoDup_fmap_2_strong; [| ].
  - intros [a t] [b u] H1 H2 E. simpl in E. subst u.
    destruct (i_out x s I q a t H1) as (_ & th & T1 & _ & E1). destruct (i_out x s I q b t H2) as (_ & th2 & T2 & _ & E2).
    congruence.
  - destruct (i_wf x s I q) as [W _]. apply NoDup_app in W as (W & _ & _). unfold items in W.
    by apply NoDup_fmap_1 in W.
Qed.

(** A detached thread is in no list; any change of it keeps the others intact. *)
Lemma detached_notin t s q : inv_x (Some t) s -> t ∉ q_threads s q.
Proof. intros I H. apply elem_of_vals in H as (a & H). destruct (i_out _ s I q a t H) as [Hn _]. done. Qed.

Lemma put_detached t s th : inv_x (Some t) s -> inv_x (Some t) (put s t th).
Proof.
  intros I. split; try apply I.
  - simpl. rewrite length_insert. apply I.
  - simpl. intros u uth q Hu Hx Hq. rewrite list_lookup_insert_ne in Hu by (intros ->; done).
    by eapply (i_in _ s I).
  - simpl. intros q a u Hin. destruct (i_out _ s I q a u Hin) as (Hx & uth & H). split; [done |]. exists uth.
    rewrite list_lookup_insert_ne by (intros ->; done). done.
  - intros q Hq. pose proof (i_sorted _ s I q Hq) as Hs.
    replace (tmo (put s t th) <$> q_threads (put s t th) q) with (tmo s <$> q_threads s q); [done |].
    apply list_fmap_ext. intros i u Hu. unfold tmo. simpl. rewrite list_lookup_insert_ne; [done |].
    intros ->. apply (detached_notin u s q I). by eapply list_elem_of_lookup_2.
Qed.

(** A thread in no list may be taken as detached, and conversely. *)
Lemma inv_detach t s : inv s -> (forall th, thr s !! t = Some th -> queue_of th = None) -> inv_x (Some t) s.
Proof.
  intros I Hn. split; try apply I.
  - intros u th q Hu _ Hq. by eapply (i_in _ s I).
  - intros q a u Hin. destruct (i_out _ s I q a u Hin) as (_ & th & H1 & H2 & H3). split; [| eauto].
    intros [= ->]. rewrite (Hn th H1) in H2. done.
Qed.

Lemma inv_attach_none t s : inv_x (Some t) s -> (forall th, thr s !! t = Some th -> queue_of th = None) -> inv s.
Proof.
  intros I Hn. split; try apply I.
  - intros u th q Hu _ Hq. eapply (i_in _ s I); [done | | done]. intros [= ->]. rewrite (Hn th Hu) in Hq. done.
  - intros q a u Hin. destruct (i_out _ s I q a u Hin) as (_ & H). done.
Qed.

(** ** Removal of a thread from its list *)

Lemma filter_notin (l : list nat) t : t ∉ l -> filter (fun u => u <> t) l = l.
Proof.
  induction l as [|u l IH]; intros H; [done |]. rewrite filter_cons_True by set_solver. f_equal. apply IH. set_solver.
Qed.

Lemma filter_mid (l1 l2 : list nat) t : NoDup (l1 ++ t :: l2) ->
  filter (fun u => u <> t) (l1 ++ t :: l2) = l1 ++ l2.
Proof.
  intros Hn. apply NoDup_app in Hn as (_ & H1 & H2). apply NoDup_cons in H2 as [H2 _].
  rewrite filter_app, filter_cons_False by tauto. f_equal; apply filter_notin; [| done].
  intros Hin. apply (H1 t Hin). left.
Qed.

Lemma sorted_app_del {A} (R : A -> A -> Prop) (l1 l2 : list A) x : StronglySorted R (l1 ++ x :: l2) -> StronglySorted R (l1 ++ l2).
Proof.
  induction l1 as [|y t IH]; simpl; intros H; apply StronglySorted_inv in H as [H1 H2]; [done |].
  constructor; [by apply IH |]. rewrite Forall_app in *. rewrite Forall_cons in H2. tauto.
Qed.

Section Detach.
Context (s : threads) (t : nat) (th : thread_t) (q : qid) (a : Z) (A : alist nat) (b : list Z)
  (l1 l2 : list (Z * nat)).
Hypotheses (I : inv s) (Ht : thr s !! t = Some th) (Hq : queue_of th = Some q).
Hypotheses (Eb : busy (queues s q) = l1 ++ (a, t) :: l2) (Ea : busy A = l1 ++ l2)
  (Ef : free A = a :: free (queues s q)) (HwA : wf A).
Hypothesis Hb : bits_ok b (queues (set_queue s q A)).

Abbreviation s' := (put (set_bits (set_queue s q A) b) t (with_iter th None)).

Lemma detach_threads q' : q_threads s' q' = filter (fun u => u <> t) (q_threads s q').
Proof.
  unfold q_threads. simpl. destruct (decide (q' = q)) as [-> | Hne].
  - rewrite Ea, Eb, !vals_app. simpl. symmetry. apply filter_mid.
    pose proof (inv_nodup None s q I) as Hn. unfold q_threads in Hn. by rewrite Eb, vals_app in Hn.
  - symmetry. apply filter_notin. intros Hin. apply elem_of_vals in Hin as (c & Hin).
    destruct (i_out _ s I q' c t Hin) as (_ & th' & T & Q & _). congruence.
Qed.

Lemma detach_inv : inv_x (Some t) s'.
Proof.
  assert (Hsub : forall q' c u, (c, u) ∈ busy (queues s' q') -> (c, u) ∈ busy (queues s q') /\ u <> t).
  { intros q' c u Hin. split.
    - simpl in Hin. destruct (decide (q' = q)) as [-> |]; [| done].
      rewrite Ea in Hin. rewrite Eb. set_solver.
    - assert (Hv : u ∈ q_threads s' q') by (apply elem_of_vals; eauto).
      rewrite detach_threads in Hv. by apply list_elem_of_filter in Hv as [? _]. }
  split.
  - simpl. rewrite length_insert. apply I.
  - exact Hb.
  - intros q'. simpl. destruct (decide (q' = q)); [done | apply I].
  - intros q'. simpl. destruct (decide (q' = q)) as [-> |]; [| apply I].
    pose proof (i_cap _ s I q) as Hc. rewrite Eb in Hc. rewrite Ea, Ef. rewrite length_app in *. simpl in *. lia.
  - intros u uth q' Hu Hx Hqu. simpl in Hu. rewrite list_lookup_insert_ne in Hu by (intros ->; done).
    destruct (i_in _ s I u uth q' Hu ltac:(done) Hqu) as (c & H1 & H2). exists c. split; [done |].
    simpl. destruct (decide (q' = q)) as [-> |]; [| done]. rewrite Ea. rewrite Eb in H2.
    apply elem_of_app in H2 as [H2 | H2]; [set_solver |]. apply elem_of_cons in H2 as [[= -> ->] | H2]; [done | set_solver].
  - intros q' c u Hin. destruct (Hsub q' c u Hin) as [Hin' Hne]. split; [congruence |].
    destruct (i_out _ s I q' c u Hin') as (_ & uth & H). exists uth. simpl.
    rewrite list_lookup_insert_ne by congruence. done.
  - intros q' Hq'. pose proof (i_sorted _ s I q' Hq') as Hs.
    assert (Et : tmo s' <$> q_threads s' q' = tmo s <$> q_threads s' q').
    { apply list_fmap_ext. intros i u Hu. unfold tmo. simpl. rewrite list_lookup_insert_ne; [done |].
      intros E. subst u. apply list_elem_of_lookup_2 in Hu. rewrite detach_threads in Hu. by apply list_elem_of_filter in Hu as [? _]. }
    rewrite Et. unfold q_threads in *. simpl. destruct (decide (q' = q)) as [-> |]; [| done].
    rewrite Ea, vals_app, fmap_app. rewrite Eb, vals_app, fmap_app in Hs. simpl in Hs. by eapply sorted_app_del.
Qed.
End Detach.

(** ** Insertion of a detached thread *)

Section Attach.
Context (s : threads) (t : nat) (th : thread_t) (q : qid) (f : Z) (A : alist nat) (b : list Z)
  (l1 l2 : list (Z * nat)).
Hypotheses (I : inv_x (Some t) s) (Ht : thr s !! t = Some th) (Hq : queue_of th = Some q).
Hypotheses (Eb : busy (queues s q) = l1 ++ l2) (Ea : busy A = l1 ++ (f, t) :: l2)
  (Ef : free (queues s q) ≡ₚ f :: free A).
Hypothesis Hb : bits_ok b (queues (set_queue s q A)).
Hypothesis Hsort : timed q -> StronglySorted Z.le (tmo s <$> vals (busy A)).

Abbreviation s' := (put (set_bits (set_queue s q A) b) t (with_iter th (Some (q, f)))).

Lemma attach_inv : inv s'.
Proof.
  assert (Hlt : (t < length (thr s))%nat) by (by eapply lookup_lt_Some).
  assert (Hiq : queue_of (with_iter th (Some (q, f))) = Some q) by (rewrite <- Hq; by destruct th).
  split.
  - simpl. rewrite length_insert. apply I.
  - exact Hb.
  - intros q'. simpl. destruct (decide (q' = q)); [| apply I].
    apply (wf_perm (queues s q)); [| apply I]. rewrite Eb, Ea, Ef, !items_app. simpl. solve_Permutation.
  - intros q'. simpl. destruct (decide (q' = q)) as [-> |]; [| apply I].
    pose proof (i_cap _ s I q) as Hc. rewrite Eb, Ef in Hc. rewrite Ea. rewrite length_app in *. simpl in *. lia.
  - intros u uth q' Hu _ Hqu. simpl in *. destruct (decide (u = t)) as [-> | Hne].
    + rewrite list_lookup_insert_eq in Hu by done. injection Hu as <-. rewrite Hiq in Hqu. injection Hqu as <-.
      exists f. split; [by destruct th |]. rewrite decide_True by done. rewrite Ea. set_solver.
    + rewrite list_lookup_insert_ne in Hu by done. destruct (i_in _ s I u uth q' Hu ltac:(congruence) Hqu) as (c & H1 & H2).
      exists c. split; [done |]. destruct (decide (q' = q)) as [-> |]; [| done]. rewrite Ea. rewrite Eb in H2. set_solver.
  - intros q' c u Hin. split; [done |]. simpl in *.
    assert (Hold : (c, u) ∈ busy (queues s q') -> exists uth, <[t := with_iter th (Some (q, f))]> (thr s) !! u = Some uth /\
      queue_of uth = Some q' /\ _iter uth = Some (q', c)).
    { intros Ho. destruct (i_out _ s I q' c u Ho) as (Hx & uth & H). exists uth.
      rewrite list_lookup_insert_ne by congruence. done. }
    destruct (decide (q' = q)) as [-> |]; [| by apply Hold].
    rewrite Ea in Hin. apply elem_of_app in Hin as [Hin | Hin]; [apply Hold; rewrite Eb; set_solver |].
    apply elem_of_cons in Hin as [[= -> ->] | Hin]; [| apply Hold; rewrite Eb; set_solver].
    exists (with_iter th (Some (q, f))). rewrite list_lookup_insert_eq by done. split_and!; [done | done | by destruct th].
  - intros q' Hq'. assert (Et : forall u, tmo s' u = tmo s u).
    { intros u. unfold tmo. simpl. destruct (decide (u = t)) as [-> | Hne].
      - rewrite list_lookup_insert_eq, Ht by done. simpl. by destruct th.
      - by rewrite list_lookup_insert_ne by done. }
    rewrite (list_fmap_ext (tmo s') (tmo s) (q_threads s' q')) by (intros; apply Et).
    unfold q_threads. simpl. destruct (decide (q' = q)) as [-> |]; [by apply Hsort | by apply I].
Qed.

Lemma attach_threads q' : q_threads s' q' = if decide (q' = q) then vals l1 ++ t :: vals l2 else q_threads s q'.
Proof. unfold q_threads. simpl. destruct (decide (q' = q)); [by rewrite Ea, vals_app | done]. Qed.
End Attach.

(** ** Leaving the current list *)

Lemma own_item s t th q : inv s -> thr s !! t = Some th -> queue_of th = Some q ->
  exists a l1 l2 A, deref_it s (_iter th) = Ok t /\ is_exist_it s q (_iter th) = true /\
    erase_it s q (_iter th) = Ok A /\ _iter th = Some (q, a) /\
    busy (queues s q) = l1 ++ (a, t) :: l2 /\ busy A = l1 ++ l2 /\ free A = a :: free (queues s q) /\ wf A.
Proof.
  intros I Ht Hq. destruct (i_in _ s I t th q Ht ltac:(done) Hq) as (a & Ei & Hin).
  destruct (erase_at (queues s q) a t (i_wf _ s I q) Hin) as (l1 & l2 & n & A & E & E1 & E2 & E3 & E4 & E5).
  exists a, l1, l2, A. unfold deref_it, is_exist_it, erase_it. rewrite Ei. simpl. unfold deref.
  rewrite (in_busy_find _ a t (i_wf _ s I q) Hin), E. simpl. split_and!; try done.
  rewrite bool_decide_eq_true_2 by done. simpl. apply existsb_exists. exists (a, t). split; [by apply list_elem_of_In |].
  simpl. apply Z.eqb_refl.
Qed.

Lemma get_ok s t th : thr s !! t = Some th -> get s t = Ok th.
Proof. intros H. unfold get. by rewrite H. Qed.

Lemma set_bits_id s q A : set_queue s q A = set_bits (set_queue s q A) (ready_bits s).
Proof. done. Qed.

(** Outside the ready lists the bits do not change. *)
Lemma bits_other b qs q A : bits_ok b qs -> (forall p, q <> QReady p) ->
  bits_ok b (fun q' => if decide (q' = q) then A else qs q').
Proof.
  intros (H1 & H2 & H3) Hn. split_and!; [done | done |]. intros p Hp. destruct (H3 p Hp) as (w & Hw & E).
  exists w. rewrite decide_False by (intros E'; by apply (Hn p)). done.
Qed.

Lemma prio_range th : 0 <= prio th <= 255.
Proof. unfold prio, wrap. pose proof (Z.mod_pos_bound (_prio th) (2 ^ 8) ltac:(lia)). lia. Qed.

Lemma ready_threads_ok th : ready_threads (prio th) = Ok (QReady (prio th)).
Proof. unfold ready_threads, Prio_max. pose proof (prio_range th). by rewrite (proj2 (Z.leb_le _ _)) by lia. Qed.

(** What a deletion leaves: the thread detached, all else as it was. *)
Definition detached_from (s : threads) (t : nat) (th : thread_t) (s1 : threads) : Prop :=
  inv_x (Some t) s1 /\ (forall q, q_threads s1 q = filter (fun u => u <> t) (q_threads s q)) /\
  (exists it, thr s1 = <[t := with_iter th it]> (thr s)) /\ current s1 = current s.

(** The ready bit of a list that loses an item: cleared when the list becomes empty. *)
Lemma del_ready_bits s t th a l1 l2 A : inv s -> queue_of th = Some (QReady (prio th)) ->
  busy (queues s (QReady (prio th))) = l1 ++ (a, t) :: l2 -> busy A = l1 ++ l2 ->
  exists b, bits_ok b (queues (set_queue s (QReady (prio th)) A)) /\
    (if empty A then
       w ← from_opt FMem (ready_bits s !! bits_group (prio th));
       Ok (None (A := qid * Z), set_bits (set_queue s (QReady (prio th)) A)
                  (<[bits_group (prio th) := Z.ldiff w (bit_mask (prio th))]> (ready_bits s)))
     else Ok (None, set_queue s (QReady (prio th)) A)) = Ok (None, set_bits (set_queue s (QReady (prio th)) A) b).
Proof.
  intros I Hq Eb Ea. pose proof (prio_range th) as Hp. pose proof (i_bits _ s I) as HB.
  destruct HB as (H1 & H2 & H3). destruct (H3 (prio th) Hp) as (w & Hw & Hbit).
  destruct (empty A) eqn:Ee.
  - exists (<[bits_group (prio th) := Z.ldiff w (bit_mask (prio th))]> (ready_bits s)). rewrite Hw. split; [| done].
    pose proof (Forall_lookup_1 _ _ _ _ H2 Hw) as Hr.
    eapply (bits_update _ _ _ w _ A false); [by split_and! | done | done | | | by rewrite Ee].
    + apply in_range_bits; [lia |]. intros i Hi. rewrite Z.ldiff_spec. by rewrite (in_range_testbit 32 w) by (done || lia).
    + intros i Hi. rewrite Z.ldiff_spec, bit_mask_spec by lia. destruct (_ =? _); [apply andb_false_r | apply andb_true_r].
  - exists (ready_bits s). split; [| done]. split_and!; [done | done |]. intros p Hp'. destruct (H3 p Hp') as (w' & Hw' & E').
    exists w'. split; [done |]. simpl. destruct (decide (QReady p = QReady (prio th))) as [[= ->] |]; [| done].
    rewrite E', Ee. unfold empty, size. rewrite Eb, length_app. simpl. apply negb_true_iff, Nat.eqb_neq. lia.
Qed.

Lemma leave_ok s t th : inv s -> thr s !! t = Some th ->
  exists s1, leave_list s t th = Ok s1 /\ detached_from s t th s1.
Proof.
  intros I Ht. destruct (queue_of th) as [q|] eqn:Hq.
  - destruct (own_item s t th q I Ht Hq) as (a & l1 & l2 & A & Ed & Ex & Ee & Ei & Eb & Ea & Ef & HwA).
    assert (Hfin : forall b, bits_ok b (queues (set_queue s q A)) ->
      detached_from s t th (put (set_bits (set_queue s q A) b) t (with_iter th None))).
    { intros b Hb. split_and!; [by eapply detach_inv | by eapply detach_threads | by exists None | done]. }
    assert (Has : forall b, assign_iter t (Ok (None, set_bits (set_queue s q A) b)) =
      Ok (put (set_bits (set_queue s q A) b) t (with_iter th None))).
    { intros b. unfold assign_iter. cbn [mbind res_bind]. rewrite (get_ok _ t th) by done. done. }
    assert (Hst : forall st, _state th = st -> in_state s t st = Ok tt).
    { intros st E. unfold in_state. rewrite (get_ok s t th Ht). simpl. by rewrite bool_decide_eq_true_2. }
    assert (Hoth : (forall p, q <> QReady p) -> exists s1,
      assign_iter t (A0 ← erase_it s q (_iter th); Ok (None, set_queue s q A0)) = Ok s1 /\ detached_from s t th s1).
    { intros Hnr. rewrite Ee. cbn [mbind res_bind]. rewrite set_bits_id, Has. eexists. split; [done |].
      apply Hfin, bits_other; [apply I | done]. }
    unfold leave_list. unfold queue_of in Hq. destruct (_state th) eqn:Es; try discriminate Hq.
    + injection Hq as <-. unfold del_ready. rewrite Ed. cbn [mbind res_bind]. rewrite (get_ok s t th Ht). cbn [mbind res_bind].
      rewrite ready_threads_ok. cbn [mbind res_bind]. rewrite Ex, Ee. cbn [wassert mbind res_bind].
      destruct (del_ready_bits s t th a l1 l2 A I ltac:(unfold queue_of; by rewrite Es) Eb Ea) as (b & Hb & E).
      cbv zeta. rewrite E, Has. eexists. split; [done | by apply Hfin].
    + destruct (waits th); injection Hq as <-; (destruct Hoth as (s1 & E & H); [done |]; exists s1; split; [| done]).
      * unfold del_snd_timeout_waiting, del_timeout_waiting. rewrite Ed. cbn [mbind res_bind]. rewrite Hst by done.
        cbn [mbind res_bind]. by rewrite Ex.
      * unfold del_send. by rewrite Ex.
    + injection Hq as <-. destruct Hoth as (s1 & E & H); [done |]. exists s1. unfold del_send. by rewrite Ex.
    + injection Hq as <-. destruct Hoth as (s1 & E & H); [done |]. exists s1. unfold del_send. by rewrite Ex.
    + destruct (waits th); [| discriminate Hq]. injection Hq as <-. destruct Hoth as (s1 & E & H); [done |]. exists s1.
      split; [| done]. unfold del_rcv_timeout_waiting, del_timeout_waiting. rewrite Ed. cbn [mbind res_bind].
      rewrite Hst by done. cbn [mbind res_bind]. by rewrite Ex.
  - exists s. assert (Hd : detached_from s t th s).
    { assert (Ix : inv_x (Some t) s) by (apply inv_detach; [done | intros ? ?; congruence]). split_and!; try done.
      - intros q. symmetry. by apply filter_notin, detached_notin.
      - exists (_iter th). rewrite list_insert_id; [done |]. rewrite Ht. by destruct th. }
    split; [| done]. unfold leave_list. unfold queue_of in Hq. by destruct (_state th), (waits th).
Qed.

(** ** Entering the new list *)

Lemma room s t q : inv_x (Some t) s -> (t < 128)%nat -> free (queues s q) <> [].
Proof.
  intros I Ht Hf. pose proof (i_cap _ s I q) as Hc. rewrite Hf in Hc. simpl in Hc.
  assert (Hl : (length (t :: q_threads s q) <= 128)%nat).
  { apply nodup_room.
    - constructor; [by apply detached_notin | by eapply inv_nodup].
    - intros u Hu. apply elem_of_cons in Hu as [-> | Hu]; [done |]. apply elem_of_vals in Hu as (a & Hu).
      destruct (i_out _ s I q a u Hu) as (_ & uth & H & _). by eapply inv_lt. }
  unfold q_threads, vals in Hl. simpl in Hl. rewrite length_fmap in Hl. lia.
Qed.

(** The new state of the lists: [t] joins [q], at the end unless [q] is a timeout list. *)
Definition joined (s : threads) (t : nat) (q : qid) (s' : threads) : Prop :=
  exists l1 l2, q_threads s q = l1 ++ l2 /\ (~ timed q -> l2 = []) /\
    forall q', q_threads s' q' = if decide (q' = q) then l1 ++ t :: l2 else q_threads s q'.

Definition attached (s : threads) (t : nat) (th : thread_t) (q : qid) (s' : threads) : Prop :=
  inv s' /\ joined s t q s' /\ (exists it, thr s' = <[t := with_iter th it]> (thr s)) /\ current s' = current s.

Lemma attach_end s t th q b : inv_x (Some t) s -> thr s !! t = Some th -> queue_of th = Some q -> ~ timed q ->
  exists A, push_back (queues s q) t = Ok A /\ empty A = false /\
    (bits_ok b (queues (set_queue s q A)) ->
     attached s t th q (put (set_bits (set_queue s q A) b) t (with_iter th (Some (q, last A))))).
Proof.
  intros I Ht Hq Hnt. destruct (push_back_ok (queues s q) t (room s t q I (inv_lt _ s t th I Ht))) as (f & fs & Ef & Ep & El).
  eexists. split; [exact Ep |]. split; [eapply (size_pos _ _ (f, t)); set_solver |]. intros Hb. rewrite El. split_and!.
  - apply (attach_inv s t th q f _ b (busy (queues s q)) []); try done; [by rewrite app_nil_r | by rewrite Ef].
  - exists (q_threads s q), []. split_and!; [by rewrite app_nil_r | done |]. intros q'.
    unfold q_threads. simpl. destruct (decide (q' = q)) as [-> |]; [| done]. simpl. by rewrite vals_app.
  - by exists (Some (q, f)).
  - done.
Qed.

(** The position of the timeout lists. *)
Lemma tmo_pos_ok x s th l : inv_x x s -> (forall a u, (a, u) ∈ l -> (exists uth, thr s !! u = Some uth) /\ a <> 0) ->
  exists pos, tmo_pos s th l = Ok pos /\
    ((pos = 0 /\ Forall (fun y => y <= timeout (_ipc th)) (tmo s <$> vals l)) \/
     (pos <> 0 /\ exists l1 u l2, l = l1 ++ (pos, u) :: l2 /\
        Forall (fun y => y <= timeout (_ipc th)) (tmo s <$> vals l1) /\ timeout (_ipc th) <= tmo s u)).
Proof.
  intros I. induction l as [|[a u] tl IH]; intros Hl; cbn [tmo_pos].
  - exists 0. split; [done |]. left. split; [done | constructor].
  - destruct (Hl a u) as [(uth & Hu) Ha]; [left |]. rewrite (get_ok s u uth Hu). cbn [mbind res_bind].
    assert (Et : tmo s u = timeout (_ipc uth)) by (unfold tmo; by rewrite Hu).
    destruct (_ || _) eqn:E.
    + exists a. split; [done |]. right. split; [done |]. exists [], u, tl. split_and!; [done | constructor |].
      rewrite Et. apply orb_true_iff in E as [E | E]; [apply Z.ltb_lt in E; lia |].
      apply andb_true_iff in E as [E _]. apply Z.eqb_eq in E. lia.
    + apply orb_false_iff in E as [E _]. apply Z.ltb_ge in E.
      destruct IH as (pos & -> & H); [intros b v Hin; apply Hl; by right |]. exists pos. split; [done |].
      destruct H as [(-> & H) | (Hp & l1 & v & l2 & -> & H1 & H2)].
      * left. split; [done |]. constructor; [simpl; by rewrite Et | done].
      * right. split; [done |]. exists ((a, u) :: l1), v, l2. split_and!; [done | | done].
        constructor; [simpl; by rewrite Et | done].
Qed.

Lemma sorted_insert (a b : list Z) v : StronglySorted Z.le (a ++ b) -> Forall (fun y => y <= v) a ->
  (forall y, head b = Some y -> v <= y) -> StronglySorted Z.le (a ++ v :: b).
Proof.
  induction a as [|x a IH]; simpl; intros Hs Ha Hb.
  - constructor; [done |]. destruct b as [|y b]; [constructor |]. specialize (Hb y eq_refl).
    apply StronglySorted_inv in Hs as [_ Hf]. constructor; [done |]. eapply Forall_impl; [done |]. simpl. lia.
  - apply StronglySorted_inv in Hs as [Hs Hf]. apply Forall_cons in Ha as [Hx Ha]. constructor; [by apply IH |].
    rewrite Forall_app in *. destruct Hf. split; [done | by constructor].
Qed.

Lemma attach_timed s t th q : inv_x (Some t) s -> thr s !! t = Some th -> queue_of th = Some q -> timed q ->
  exists it s', add_timeout_waiting s t q = Ok (it, s') /\
    attached s t th q (put s' t (with_iter th it)) /\ thr s' = thr s.
Proof.
  intros I Ht Hq Htm. unfold add_timeout_waiting.
  assert (Hex : is_exist_thr (queues s q) t = false).
  { apply not_true_iff_false. rewrite is_exist_thr_spec. by apply detached_notin. }
  rewrite Hex. cbn [negb wassert mbind res_bind]. rewrite (get_ok s t th Ht). cbn [mbind res_bind].
  destruct (i_wf _ s I q) as [Hnd Hnz].
  destruct (tmo_pos_ok _ s th (busy (queues s q)) I) as (pos & -> & Hpos).
  { intros a u Hin. destruct (i_out _ s I q a u Hin) as (_ & uth & H & _). split; [eauto |].
    rewrite Forall_forall in Hnz. apply Hnz. apply elem_of_app. left. unfold items. apply list_elem_of_fmap. by exists (a, u). }
  assert (Etm : tmo s t = timeout (_ipc th)) by (unfold tmo; by rewrite Ht).
  assert (Hbits : forall A, bits_ok (ready_bits s) (queues (set_queue s q A))).
  { intros A. apply bits_other; [apply I |]. intros p. destruct Htm; subst; done. }
  pose proof (i_sorted _ s I q Htm) as Hs. unfold q_threads in Hs.
  destruct (push_back_ok (queues s q) t (room s t q I (inv_lt _ s t th I Ht))) as (f & fs & Ef & Ep & El).
  cbn [mbind res_bind]. destruct Hpos as [(-> & Hall) | (Hp0 & l1 & u & l2 & Eb & Hl1 & Hu)].
  - rewrite Z.eqb_refl. cbn [negb]. rewrite Ep. cbn [mbind res_bind]. rewrite El. eexists _, _. split_and!; [done | | done].
    split_and!.
    + rewrite set_bits_id. apply (attach_inv s t th q f _ (ready_bits s) (busy (queues s q)) []); try done; [by rewrite app_nil_r | by rewrite Ef |].
      intros _. simpl. rewrite vals_app, fmap_app. apply (sorted_insert _ [] (tmo s t)); [by rewrite app_nil_r | by rewrite Etm | done].
    + exists (q_threads s q), []. split_and!; [by rewrite app_nil_r | done |]. intros q'. unfold q_threads. simpl.
      destruct (decide (q' = q)) as [-> |]; [| done]. simpl. by rewrite vals_app.
    + by exists (Some (q, f)).
    + done.
  - destruct (Z.eqb_spec pos 0); [done |]. cbn [negb].
    assert (Hn1 : pos ∉ items l1).
    { rewrite Eb, items_app in Hnd. simpl in Hnd. apply NoDup_app in Hnd as (Hnd & _ & _).
      apply NoDup_app in Hnd as (_ & H & _). intros Ha. apply (H pos Ha). left. }
    assert (Hnf : pos <> f).
    { intros ->. rewrite Eb, Ef, items_app in Hnd. apply NoDup_app in Hnd as (_ & H & _). apply (H f); [set_solver | left]. }
    assert (Ei : insert_before (queues s q) pos t = Ok (f, MkA (l1 ++ (f, t) :: (pos, u) :: l2) fs)).
    { unfold insert_before, insert_at, take_free. rewrite Ef. cbn [mbind res_bind]. rewrite Eb, find_it_at by done.
      rewrite before_it_at by done. destruct l1 as [|[? ?] ?]; done. }
    rewrite Ei. cbn [mbind res_bind]. unfold prev. simpl busy.
    change (l1 ++ (f, t) :: (pos, u) :: l2) with (l1 ++ [(f, t)] ++ (pos, u) :: l2). rewrite app_assoc.
    rewrite prev_it_at by (rewrite items_app; set_solver). cbn [from_opt mbind res_bind].
    assert (Elast : last_from 0 (l1 ++ [(f, t)]) = f).
    { generalize 0. clear. induction l1 as [|[b v] l IH]; intros d; simpl; [done | apply IH]. }
    rewrite Elast, <- app_assoc. simpl app. eexists _, _. split_and!; [done | | done]. split_and!.
    + rewrite set_bits_id. apply (attach_inv s t th q f _ (ready_bits s) l1 ((pos, u) :: l2)); try done; [by rewrite Ef |].
      intros _. simpl. rewrite vals_app, fmap_app. simpl. rewrite Eb, vals_app, fmap_app in Hs.
      apply (sorted_insert _ (tmo s u :: _) (tmo s t)); [done | by rewrite Etm | simpl; intros y [= <-]; lia].
    + exists (vals l1), (vals ((pos, u) :: l2)). split_and!; [by unfold q_threads; rewrite Eb, vals_app | done |].
      intros q'. unfold q_threads. simpl. destruct (decide (q' = q)) as [-> |]; [| done]. simpl. by rewrite vals_app.
    + by exists (Some (q, f)).
    + done.
Qed.

(** What becoming ready resets. *)
Definition entered (th : thread_t) : thread_t :=
  match _state th with
  | Ready => timeslice_set (with_pfault (with_ipc th ipc_clear) pfault_clear) Timeslice_usec
  | _ => th
  end.

Lemma entered_queue th : queue_of (entered th) = queue_of th.
Proof. unfold entered. destruct (_state th) eqn:E; try done. unfold queue_of. destruct th. simpl in *. by rewrite E. Qed.

Lemma add_ready_ok s t th : inv_x (Some t) s -> thr s !! t = Some th -> queue_of th = Some (QReady (prio th)) ->
  exists it s', add_ready s t = Ok (it, s') /\
    attached s t th (QReady (prio th)) (put s' t (with_iter th it)) /\ thr s' = thr s.
Proof.
  intros I Ht Hq. pose proof (prio_range th) as Hp. unfold add_ready. rewrite (get_ok s t th Ht). cbn [mbind res_bind].
  rewrite ready_threads_ok. cbn [mbind res_bind]. set (q := QReady (prio th)) in *.
  assert (Hex : is_exist_thr (queues s q) t = false).
  { apply not_true_iff_false. rewrite is_exist_thr_spec. by apply detached_notin. }
  rewrite Hex. cbn [negb wassert mbind res_bind].
  destruct (i_bits _ s I) as (H1 & H2 & H3). destruct (H3 (prio th) Hp) as (w & Hw & Hbit).
  destruct (attach_end s t th q (<[bits_group (prio th) := Z.lor w (bit_mask (prio th))]> (ready_bits s)) I Ht Hq)
    as (A & -> & Hne & Hatt); [intros [? | ?]; done |].
  cbn [mbind res_bind]. rewrite Hw. cbn [from_opt mbind res_bind]. eexists _, _. split_and!; [done | | done].
  apply Hatt. pose proof (Forall_lookup_1 _ _ _ _ H2 Hw) as Hr.
  eapply (bits_update _ _ _ w _ A true); [by split_and! | done | done | | | by rewrite Hne].
  - apply in_range_bits; [lia |]. intros i Hi. rewrite Z.lor_spec.
    rewrite (in_range_testbit 32 w), (in_range_testbit 32 (bit_mask (prio th)));
      [done | lia | apply wrap_range; lia | done | lia | done | done].
  - intros i Hi. rewrite Z.lor_spec, bit_mask_spec by lia. destruct (_ =? _); [apply orb_true_r | apply orb_false_r].
Qed.

Lemma assign_iter_ok t s th it s' : thr s' = thr s -> thr s !! t = Some th ->
  assign_iter t (Ok (it, s')) = Ok (put s' t (with_iter th it)).
Proof. intros E Ht. unfold assign_iter. cbn [mbind res_bind]. by rewrite (get_ok s' t th) by (by rewrite E). Qed.

Definition entered_to (s : threads) (t : nat) (th : thread_t) (s' : threads) : Prop :=
  inv s' /\ (exists it, thr s' = <[t := with_iter (entered th) it]> (thr s)) /\ current s' = current s /\
  match queue_of th with Some q => joined s t q s' | None => forall q, q_threads s' q = q_threads s q end.

Lemma enter_ok s t th : inv_x (Some t) s -> thr s !! t = Some th ->
  exists s', enter_list s t = Ok s' /\ entered_to s t th s'.
Proof.
  intros I Ht. unfold enter_list. rewrite (get_ok s t th Ht). cbn [mbind res_bind].
  assert (Hfin : forall q s', queue_of th = Some q -> entered th = th -> attached s t th q s' -> entered_to s t th s').
  { intros q s' Hq He (H1 & H2 & H3 & H4). split_and!; try done; [by rewrite He | by rewrite Hq]. }
  assert (Hst : in_state s t (_state th) = Ok tt).
  { unfold in_state. rewrite (get_ok s t th Ht). simpl. by rewrite bool_decide_eq_true_2. }
  assert (Hsend : queue_of th = Some QSend -> entered th = th ->
    exists s', assign_iter t (add_send s t) = Ok s' /\ entered_to s t th s').
  { intros Hq He. unfold add_send.
    assert (Hex : is_exist_thr (queues s QSend) t = false).
    { apply not_true_iff_false. rewrite is_exist_thr_spec. by apply detached_notin. }
    rewrite Hex. cbn [negb wassert mbind res_bind].
    destruct (attach_end s t th QSend (ready_bits s) I Ht Hq) as (A & -> & _ & Hatt); [intros [? | ?]; done |].
    cbn [mbind res_bind]. rewrite (assign_iter_ok t s th) by done. eexists. split; [done |].
    apply (Hfin QSend); [done | done |]. apply Hatt, bits_other; [apply I | done]. }
  assert (Hnone : queue_of th = None -> entered th = th -> exists s', Ok s = Ok s' /\ entered_to s t th s').
  { intros Hq He. exists s. split; [done |]. split_and!; [| | done | by rewrite Hq].
    - eapply inv_attach_none; [done |]. intros ? ?. congruence.
    - exists (_iter th). rewrite list_insert_id; [done |]. rewrite Ht, He. by destruct th. }
  assert (Htim : forall q, queue_of th = Some q -> timed q -> entered th = th ->
    exists s', assign_iter t (add_timeout_waiting s t q) = Ok s' /\ entered_to s t th s').
  { intros q Hq Htm He. destruct (attach_timed s t th q I Ht Hq Htm) as (it & s' & -> & Hatt & Et).
    rewrite (assign_iter_ok t s th) by done. eexists. split; [done | by apply (Hfin q)]. }
  destruct (_state th) eqn:Es; try (apply Hnone; unfold queue_of, entered; by rewrite Es).
  - set (s1 := put s t _). assert (He : entered th = timeslice_set (with_pfault (with_ipc th ipc_clear) pfault_clear) Timeslice_usec)
      by (unfold entered; by rewrite Es).
    assert (Hl : (t < length (thr s))%nat) by (by eapply lookup_lt_Some).
    assert (Ht1 : thr s1 !! t = Some (entered th)) by (unfold s1; simpl; rewrite list_lookup_insert_eq, He; done).
    assert (Hq1 : queue_of (entered th) = Some (QReady (prio (entered th)))).
    { rewrite He. unfold queue_of. destruct th. simpl in *. by rewrite Es. }
    destruct (add_ready_ok s1 t (entered th) (put_detached t s _ I) Ht1 Hq1) as (it & s' & -> & Hatt & Et).
    rewrite (assign_iter_ok t s1 (entered th)) by done. eexists. split; [done |].
    destruct Hatt as (A1 & A2 & (it' & A3) & A4). split_and!; [done | | done |].
    + exists it'. rewrite A3. unfold s1. simpl. by rewrite list_insert_insert_eq.
    + rewrite <- entered_queue, Hq1. exact A2.
  - destruct (waits th) eqn:Ew.
    + unfold add_snd_timeout_waiting. rewrite Hst. cbn [mbind res_bind].
      apply Htim; [unfold queue_of; by rewrite Es, Ew | by left | unfold entered; by rewrite Es].
    + apply Hsend; [unfold queue_of; by rewrite Es, Ew | unfold entered; by rewrite Es].
  - apply Hsend; [unfold queue_of; by rewrite Es | unfold entered; by rewrite Es].
  - apply Hsend; [unfold queue_of; by rewrite Es | unfold entered; by rewrite Es].
  - destruct (waits th) eqn:Ew.
    + unfold add_rcv_timeout_waiting. rewrite Hst. cbn [mbind res_bind].
      apply Htim; [unfold queue_of; by rewrite Es, Ew | by right | unfold entered; by rewrite Es].
    + apply Hnone; [unfold queue_of; by rewrite Es, Ew | unfold entered; by rewrite Es].
Qed.

(** ** The inherited priority *)

(** Changes that do not concern the queues. *)
Lemma put_same x s t th th' : inv_x x s -> thr s !! t = Some th -> queue_of th' = queue_of th ->
  _iter th' = _iter th -> timeout (_ipc th') = timeout (_ipc th) -> inv_x x (put s t th').
Proof.
  intros I Ht Hq Hi Htm. assert (Hl : (t < length (thr s))%nat) by (by eapply lookup_lt_Some). split; try apply I.
  - simpl. rewrite length_insert. apply I.
  - simpl. intros u uth q Hu Hx Hqu. destruct (decide (u = t)) as [-> |].
    + rewrite list_lookup_insert_eq in Hu by done. injection Hu as <-. rewrite Hi. rewrite Hq in Hqu.
      by eapply (i_in _ s I).
    + rewrite list_lookup_insert_ne in Hu by done. by eapply (i_in _ s I).
  - simpl. intros q a u Hin. destruct (i_out _ s I q a u Hin) as (Hx & uth & H1 & H2 & H3). split; [done |].
    destruct (decide (u = t)) as [-> |].
    + exists th'. rewrite list_lookup_insert_eq by done. rewrite Ht in H1. injection H1 as <-. by rewrite Hq, Hi.
    + exists uth. by rewrite list_lookup_insert_ne by done.
  - intros q Hqt. pose proof (i_sorted _ s I q Hqt) as Hs. rewrite (list_fmap_ext _ (tmo s)); [done |].
    intros i u _. unfold tmo. simpl. destruct (decide (u = t)) as [-> |].
    + by rewrite list_lookup_insert_eq, Ht by done.
    + by rewrite list_lookup_insert_ne by done.
Qed.

(** *** Lent priorities *)

(** The own priority or the last, so highest, inherited one. *)
Definition top_prio (th : thread_t) : Z :=
  match find_it (last (_inherited_prios th)) (busy (_inherited_prios th)) with Some p => cmax (_prio th) (snd p) | None => _prio th end.

Lemma prio_max_top th : prio_max th = Ok (top_prio th).
Proof.
  unfold prio_max, top_prio, empty, size, deref, last, last_it. destruct (busy (_inherited_prios th)) as [|x l] eqn:E; [done |].
  destruct (proj2 (find_it_in (last_from 0 (x :: l)) (x :: l))) as [p Ep]; [by apply last_from_in |]. cbn [length Nat.eqb].
  by rewrite Ep.
Qed.

(** Thread [t] has lent a priority: its heir [h], another live thread, has the
    record [a] of it with the priority [p], its only record of [t]. *)
Record lends (s : threads) (t : nat) (th : thread_t) (h : nat) (hth : thread_t) (a p : Z) : Prop := {
  l_heir : _prio_heir th <> Thrid_nil /\ thrid_is_global (_prio_heir th) = true /\ find_num s (thrid_number (_prio_heir th)) = Some h;
  l_other : h <> t /\ thr s !! h = Some hth /\ _glob_id th <> _glob_id hth;
  l_record : ListSpec.wf (_inherited_prios hth) /\ find_it a (busy (_inherited_prios hth)) = Some (_glob_id th, p) /\
    forall b q, (b, (_glob_id th, q)) ∈ busy (_inherited_prios hth) -> b = a }.

(** The heir without the record [a]. *)
Definition taken_back (hth : thread_t) (a : Z) : thread_t :=
  with_inherited hth (MkA (remove_it a (busy (_inherited_prios hth))) (a :: free (_inherited_prios hth))).

Lemma find_owner_unique owner (l : list (Z * inhprio)) a p : (a, (owner, p)) ∈ l -> (forall b q, (b, (owner, q)) ∈ l -> b = a) -> find_owner owner l = a.
Proof.
  induction l as [|[c [o q]] l IH]; intros Hin Hu; [by apply elem_of_nil in Hin |]. simpl. destruct (Z.eqb_spec o owner) as [->|Hn].
  - apply (Hu c q). by left.
  - apply IH; [by apply elem_of_cons in Hin as [[= -> -> ->]|?] |]. intros b q' H. apply (Hu b q'). by right.
Qed.
Lemma lends_del s t th h hth a p v : lends s t th h hth a p ->
  inherit_prio_del hth (_glob_id th) v = if p =? v then Ok (taken_back hth a) else Stop FAssert.
Proof.
  intros [_ (_ & _ & Hg) (W & Ha & Hu)]. pose proof (find_it_elem_of _ _ _ Ha) as Hin. unfold inherit_prio_del, inherit_prio_find.
  rewrite (find_owner_unique _ _ a p Hin Hu). apply Z.eqb_neq in Hg. rewrite Hg. cbn [negb wassert mbind res_bind].
  assert (Hn : a <> 0). { destruct W as [_ F]. rewrite Forall_forall in F. apply F, elem_of_app. left. apply find_it_in. by exists (_glob_id th, p). }
  apply Z.eqb_neq in Hn. rewrite Hn. unfold deref. rewrite Ha. cbn [negb wassert mbind res_bind from_opt snd]. destruct (p =? v); [| done]. cbn [wassert mbind res_bind].
  unfold erase, next, empty, size. destruct (next_it_some a (busy (_inherited_prios hth))) as [n En]; [by exists (_glob_id th, p) |].
  rewrite En. destruct (busy (_inherited_prios hth)) as [|x l] eqn:Eb; [done |]. cbn [length Nat.eqb negb wassert mbind res_bind from_opt]. unfold taken_back. by rewrite Eb.
Qed.

Lemma inherit_prio_del_shape hth owner p hth' : inherit_prio_del hth owner p = Ok hth' -> exists l, hth' = with_inherited hth l.
Proof.
  unfold inherit_prio_del. intros H. do 3 apply bind_Ok in H as (? & _ & H). apply bind_Ok in H as (? & _ & H).
  apply bind_Ok in H as ([n l] & _ & H). injection H as <-. eauto.
Qed.

Lemma drop_heir_nil s t th : thr s !! t = Some th -> _prio_heir th = Thrid_nil -> drop_heir s t = Ok s.
Proof. intros Ht E. unfold drop_heir. rewrite (get_ok s t th Ht). cbn [mbind res_bind]. by rewrite E. Qed.
Lemma drop_heir_lends s t th h hth a p : thr s !! t = Some th -> lends s t th h hth a p ->
  drop_heir s t = if p =? top_prio th then Ok (put (put s h (taken_back hth a)) t (with_heir th Thrid_nil)) else Stop FAssert.
Proof.
  intros Ht L. pose proof L as [(Hn & Hg & Hf) (Hne & Hth & _) _]. unfold drop_heir. rewrite (get_ok s t th Ht). cbn [mbind res_bind]. unfold thrid_is_nil. apply Z.eqb_neq in Hn. rewrite Hn. cbn [negb].
  unfold find. rewrite Hg, Hf. cbn [from_opt mbind res_bind]. rewrite (get_ok s h hth Hth). cbn [mbind res_bind]. rewrite prio_max_top. cbn [mbind res_bind].
  rewrite (lends_del s t th h hth a p _ L). destruct (p =? top_prio th); [| done]. cbn [mbind res_bind].
  by rewrite (get_ok _ t th) by (simpl; by rewrite list_lookup_insert_ne).
Qed.
Lemma put_lends s t th h hth a p : inv s -> thr s !! t = Some th -> lends s t th h hth a p -> inv (put (put s h (taken_back hth a)) t (with_heir th Thrid_nil)).
Proof.
  intros I Ht [_ (Hne & Hth & _) _]. eapply put_same; [eapply (put_same _ s h hth); [done | done | by destruct hth..] | simpl; rewrite list_lookup_insert_ne by done; exact Ht | by destruct th..].
Qed.

(** ** The state machine *)

(** The lists after a state change: [t] has left its list and joined the one
    of its new state. *)
Definition moved (s : threads) (t : nat) (target : option qid) (s' : threads) : Prop :=
  match target with
  | None => forall q, q_threads s' q = filter (fun u => u <> t) (q_threads s q)
  | Some q => exists l1 l2, filter (fun u => u <> t) (q_threads s q) = l1 ++ l2 /\ (~ timed q -> l2 = []) /\
      forall q', q_threads s' q' = if decide (q' = q) then l1 ++ t :: l2
                                   else filter (fun u => u <> t) (q_threads s q')
  end.

(** All of state() but the return of a lent priority. *)
Lemma set_state_lists s t th st : inv s -> thr s !! t = Some th -> _state th <> st ->
  exists s2 it, set_state s t st = drop_heir s2 t /\ inv s2 /\ current s2 = current s /\ moved s t (queue_of (with_state th st)) s2 /\
    thr s2 = <[t := with_iter (entered (with_state th st)) it]> (thr s).
Proof.
  intros I Ht Hst. unfold set_state. rewrite (get_ok s t th Ht). cbn [mbind res_bind].
  rewrite bool_decide_eq_false_2 by done. cbn [negb wassert mbind res_bind].
  assert (Hl : (t < length (thr s))%nat) by (by eapply lookup_lt_Some).
  destruct (leave_ok s t th I Ht) as (s1 & -> & I1 & Q1 & (it1 & T1) & C1). cbn [mbind res_bind].
  assert (Ht1 : thr s1 !! t = Some (with_iter th it1)) by (rewrite T1; by rewrite list_lookup_insert_eq).
  rewrite (get_ok s1 t _ Ht1). cbn [mbind res_bind].
  set (th2 := with_state (with_iter th it1) st). set (s1' := put s1 t th2).
  assert (Ht2 : thr s1' !! t = Some th2).
  { unfold s1'. simpl. rewrite T1, list_insert_insert_eq. by rewrite list_lookup_insert_eq. }
  assert (Hq2 : queue_of th2 = queue_of (with_state th st)) by (unfold th2; by destruct th).
  destruct (enter_ok s1' t th2 (put_detached t s1 th2 I1) Ht2) as (s2 & -> & I2 & (it2 & T2) & C2 & J2).
  exists s2, it2. split_and!; [done | done | by rewrite C2 | |].
  - rewrite <- Hq2. unfold moved. destruct (queue_of th2) as [q|].
    + destruct J2 as (l1 & l2 & E1 & E2 & E3). exists l1, l2. split_and!; [rewrite <- E1; symmetry; apply Q1 | done |].
      intros q'. rewrite E3. destruct (decide (q' = q)); [done | apply Q1].
    + intros q. rewrite J2. apply Q1.
  - rewrite T2. unfold s1'. simpl. rewrite T1, !list_insert_insert_eq. f_equal. unfold th2. destruct th, st; reflexivity.
Qed.

Lemma set_state_ok s t th st : inv s -> thr s !! t = Some th -> _state th <> st -> _prio_heir th = Thrid_nil ->
  exists s' it, set_state s t st = Ok s' /\ inv s' /\ current s' = current s /\ moved s t (queue_of (with_state th st)) s' /\
    thr s' = <[t := with_heir (with_iter (entered (with_state th st)) it) Thrid_nil]> (thr s).
Proof.
  intros I Ht Hst Hh. destruct (set_state_lists s t th st I Ht Hst) as (s2 & it & E & I2 & C2 & M2 & T2). exists s2, it.
  assert (Ht2 : thr s2 !! t = Some (with_iter (entered (with_state th st)) it)) by (rewrite T2; apply list_lookup_insert_eq; by eapply lookup_lt_Some).
  split_and!; [| done | done | done |].
  - rewrite E. eapply drop_heir_nil; [exact Ht2 |]. by destruct th, st.
  - rewrite T2. f_equal. destruct th, st; simpl in Hh; by subst.
Qed.

Lemma set_state_lends s t th st h hth a p : inv s -> thr s !! t = Some th -> _state th <> st -> lends s t th h hth a p ->
  if p =? top_prio th then
    exists s' it, set_state s t st = Ok s' /\ inv s' /\ current s' = current s /\ moved s t (queue_of (with_state th st)) s' /\
      thr s' = <[t := with_heir (with_iter (entered (with_state th st)) it) Thrid_nil]> (<[h := taken_back hth a]> (thr s))
  else set_state s t st = Stop FAssert.
Proof.
  intros I Ht Hst L. destruct (set_state_lists s t th st I Ht Hst) as (s2 & it & E & I2 & C2 & M2 & T2). set (th2 := with_iter (entered (with_state th st)) it) in *.
  assert (Hl : (t < length (thr s))%nat) by (by eapply lookup_lt_Some).
  assert (Ht2 : thr s2 !! t = Some th2) by (rewrite T2; by apply list_lookup_insert_eq).
  assert (Ef : _prio_heir th2 = _prio_heir th /\ _glob_id th2 = _glob_id th /\ top_prio th2 = top_prio th) by (unfold th2; by destruct th, st). destruct Ef as (E1 & E2 & E3).
  assert (L2 : lends s2 t th2 h hth a p).
  { destruct L as [(H1 & H2 & H3) (H4 & H5 & H6) H7]. assert (Hs : thr s2 !! h = Some hth) by (rewrite T2; by rewrite list_lookup_insert_ne by done).
    split; rewrite ?E1, ?E2; [split_and!; [done | done |] | done | done]. unfold find_num in *.
    destruct ((Thread_number_min <=? thrid_number (_prio_heir th)) && (thrid_number (_prio_heir th) <=? Thread_number_max)); [| discriminate H3].
    assert (Ek : Z.to_nat (thrid_number (_prio_heir th) - Thread_number_min) = h) by (clear -H3; repeat case_match; congruence).
    rewrite Ek in *. rewrite Hs. by rewrite H5 in H3. }
  rewrite E, (drop_heir_lends s2 t th2 h hth a p Ht2 L2), E3. destruct (p =? top_prio th); [| done].
  eexists _, it. split_and!; [done | by eapply put_lends | done | done |]. simpl. rewrite T2. destruct L as [_ (Hne & _ & _) _].
  rewrite (list_insert_insert_ne (thr s)) by done. by rewrite list_insert_insert_eq.
Qed.

Lemma set_prio_ok s t th v : inv s -> thr s !! t = Some th ->
  exists s', set_prio s t v = Ok s' /\ inv s' /\ current s' = current s /\
    (if decide (_state th = Ready) then moved s t (Some (QReady (u8 v))) s'
     else forall q, q_threads s' q = q_threads s q) /\
    (exists it, thr s' = <[t := with_iter (with_prio th (u8 v)) it]> (thr s)).
Proof.
  intros I Ht. unfold set_prio. rewrite (get_ok s t th Ht). cbn [mbind res_bind].
  assert (Hl : (t < length (thr s))%nat) by (by eapply lookup_lt_Some).
  destruct (decide (_state th = Ready)) as [Es | Es].
  - destruct (leave_ok s t th I Ht) as (s1 & E1 & I1 & Q1 & (it1 & T1) & C1). unfold leave_list in E1. rewrite Es in E1.
    rewrite E1. cbn [mbind res_bind].
    assert (Ht1 : thr s1 !! t = Some (with_iter th it1)) by (rewrite T1; by rewrite list_lookup_insert_eq).
    rewrite (get_ok s1 t _ Ht1). cbn [mbind res_bind]. set (th2 := with_prio (with_iter th it1) (u8 v)).
    assert (Ht2 : thr (put s1 t th2) !! t = Some th2).
    { simpl. rewrite T1, list_insert_insert_eq. by rewrite list_lookup_insert_eq. }
    assert (Hp2 : prio th2 = u8 v) by (unfold prio, th2; destruct th; apply wrap_wrap).
    assert (Hq2 : queue_of th2 = Some (QReady (prio th2))) by (unfold queue_of, th2; destruct th; simpl in *; by rewrite Es).
    destruct (add_ready_ok _ t th2 (put_detached t s1 th2 I1) Ht2 Hq2) as (it & s' & -> & (A1 & A2 & (it' & A3) & A4) & Et).
    rewrite (assign_iter_ok t (put s1 t th2) th2) by done. eexists. split; [done |]. split_and!; [done | by rewrite A4 | |].
    + rewrite <- Hp2. destruct A2 as (l1 & l2 & E2 & E3 & E4). exists l1, l2.
      split_and!; [rewrite <- E2; symmetry; apply Q1 | done |]. intros q'. rewrite E4. destruct (decide _); [done | apply Q1].
    + exists it'. rewrite A3. simpl. rewrite T1, !list_insert_insert_eq. f_equal. unfold th2. by destruct th.
  - cbn [mbind res_bind]. rewrite (get_ok s t th Ht). cbn [mbind res_bind]. eexists. split; [done |]. split_and!; [| done | done |].
    + eapply put_same; [done | done | | by destruct th..]. unfold queue_of. destruct th; simpl in *. by case_match.
    + exists (_iter th). simpl. f_equal. by destruct th.
Qed.

(** C14: the thread state machine: from a state in which every thread is in
    the list its state prescribes (with consistent iterators, ready bits and
    timeout order), [state()] to a new state of a thread that has not lent its
    priority succeeds, keeps this invariant, moves the thread, and only it, to
    the list of the new state (at the end of ready and send lists) and resets
    the slice, the IPC and the page fault data of a thread that becomes ready;
    no other thread changes.  If the thread has lent a priority and the record
    of its heir still has its present highest priority, exactly this record
    leaves the heir as well; if its priority was changed meanwhile, the kernel
    stops on an assertion.  [prio()] always succeeds, keeps the invariant and
    moves a ready thread to the end of the list of its new priority; it does not
    look at the record of a lent priority. *)
Theorem thread_state_correct s t th st v : inv s -> thr s !! t = Some th -> _state th <> st ->
  (_prio_heir th = Thrid_nil -> exists s' it, set_state s t st = Ok s' /\ inv s' /\ moved s t (queue_of (with_state th st)) s' /\
     thr s' = <[t := with_heir (with_iter (entered (with_state th st)) it) Thrid_nil]> (thr s)) /\
  (forall h hth a p, lends s t th h hth a p ->
     if p =? top_prio th then
       exists s' it, set_state s t st = Ok s' /\ inv s' /\ moved s t (queue_of (with_state th st)) s' /\
         thr s' = <[t := with_heir (with_iter (entered (with_state th st)) it) Thrid_nil]> (<[h := taken_back hth a]> (thr s))
     else set_state s t st = Stop FAssert) /\
  (exists s' it, set_prio s t v = Ok s' /\ inv s' /\
     (if decide (_state th = Ready) then moved s t (Some (QReady (u8 v))) s'
      else forall q, q_threads s' q = q_threads s q) /\
     thr s' = <[t := with_iter (with_prio th (u8 v)) it]> (thr s)).
Proof.
  intros I Ht Hst. split_and!.
  - intros Hh. destruct (set_state_ok s t th st I Ht Hst Hh) as (s' & it & E & H1 & _ & H2 & H3). eauto 10.
  - intros h hth a p L. pose proof (set_state_lends s t th st h hth a p I Ht Hst L) as H. destruct (p =? top_prio th); [| done].
    destruct H as (s' & it & E & H1 & _ & H2 & H3). eauto 10.
  - destruct (set_prio_ok s t th v I Ht) as (s' & E & H1 & _ & H2 & it & H3). eauto 10.
Qed.

(** ** The initial state *)

Definition idle_thread : thread_t :=
  MkThread 0 (2 ^ 32 - 1) Thrid_nil Thrid_nil Thrid_nil 0x10000000 0 Idle ipc_clear pfault_clear 0 (MkA [] [1; 2])
    Thrid_nil None 0 0 0 0 0.

Definition init_threads : threads :=
  MkS (replicate 128 idle_thread) (replicate 8 0) (fun _ => MkA [] (seqZ 1 128)) 0.

Lemma init_inv : inv init_threads.
Proof.
  assert (Hth : forall t th, thr init_threads !! t = Some th -> th = idle_thread)
    by (intros t th H; by apply lookup_replicate in H as [-> _]).
  split.
  - apply length_replicate.
  - split_and!; [done | apply Forall_replicate; unfold in_range; lia |]. intros p Hp. exists 0.
    split; [| apply Z.testbit_0_l]. apply lookup_replicate. split; [done | by apply bits_group_lt].
  - intros q. split; simpl; [apply NoDup_seqZ |]. apply Forall_forall. intros a Ha. apply elem_of_seqZ in Ha. lia.
  - intros q. reflexivity.
  - intros t th q Ht _ Hq. by rewrite (Hth t th Ht) in Hq.
  - intros q a t Hin. by apply elem_of_nil in Hin.
  - intros q _. constructor.
Qed.

(** Thread 5 waits for thread 6, to which it has lent its priority 9. *)
Definition lender (pr : Z) : thread_t :=
  MkThread 1 0x1000 (thrid_create_global (5 + Thread_number_min) Def_glob_ver) Thrid_nil Thrid_nil 0x10000000 0 Receive_pfault ipc_clear pfault_clear pr (MkA [] [1; 2])
    (thrid_create_global (6 + Thread_number_min) Def_glob_ver) None 0 0 0 0 0.
Definition heir : thread_t :=
  MkThread 1 0x2000 (thrid_create_global (6 + Thread_number_min) Def_glob_ver) Thrid_nil Thrid_nil 0x10000000 0 Inactive ipc_clear pfault_clear 3 (MkA [(1, (_glob_id (lender 9), 9))] [2])
    Thrid_nil None 0 0 0 0 0.
Definition lent_threads (pr : Z) : threads := put (put init_threads 5 (lender pr)) 6 heir.
Lemma lent_inv pr : inv (lent_threads pr).
Proof.
  unfold lent_threads. apply (put_same _ _ 6 idle_thread); [| by vm_compute | done..]. apply (put_same _ _ 5 idle_thread); [apply init_inv | done..].
Qed.
Lemma lent_lends pr : lends (lent_threads pr) 5 (lender pr) 6 heir 1 9.
Proof.
  split; [split_and!; by vm_compute | split_and!; by vm_compute |]. split_and!; [split; apply (bool_decide_unpack _); by vm_compute | by vm_compute |].
  intros b q Hb. apply list_elem_of_singleton in Hb. by injection Hb.
Qed.

Lemma thread_state_correct_witness :
  (exists s', set_state init_threads 5 Ready = Ok s' /\ inv s' /\ q_threads s' (QReady 0) = [5%nat]) /\
  (exists s', set_state (lent_threads 9) 5 Ready = Ok s' /\ inv s' /\ thr s' !! 6%nat = Some (with_inherited heir (MkA [] [1; 2]))) /\
  set_state (lent_threads 4) 5 Ready = Stop FAssert.
Proof.
  split_and!.
  - destruct (thread_state_correct init_threads 5 idle_thread Ready 0) as (H & _); [apply init_inv | reflexivity | discriminate |].
    destruct (H eq_refl) as (s' & it & E & Hi & M & _). exists s'. split_and!; [exact E | exact Hi |]. destruct M as (l1 & l2 & E1 & E2 & E3).
    rewrite E3, decide_True by reflexivity. simpl in E1. symmetry in E1. apply app_eq_nil in E1 as [-> ->]. reflexivity.
  - destruct (thread_state_correct (lent_threads 9) 5 (lender 9) Ready 0) as (_ & H & _); [apply lent_inv | reflexivity | discriminate |].
    destruct (H 6%nat heir 1 9 (lent_lends 9)) as (s' & it & E & Hi & _ & T). exists s'. split_and!; [exact E | exact Hi |]. rewrite T. reflexivity.
  - destruct (thread_state_correct (lent_threads 4) 5 (lender 4) Ready 0) as (_ & H & _); [apply lent_inv | reflexivity | discriminate |].
    exact (H 6%nat heir 1 9 (lent_lends 4)).
Defined.

(** ** The scheduler *)

Lemma hi_bit_spec n w :
  match hi_bit n w with
  | Some j => 0 <= j < Z.of_nat n /\ Z.testbit w j = true /\ forall i, j < i < Z.of_nat n -> Z.testbit w i = false
  | None => forall i, 0 <= i < Z.of_nat n -> Z.testbit w i = false
  end.
Proof.
  induction n as [|n IH]; cbn [hi_bit]; [intros; lia |].
  assert (Eb : negb (Z.land (Z.shiftr w (Z.of_nat n)) 1 =? 0) = Z.testbit w (Z.of_nat n)).
  { rewrite Z.testbit_odd. change 1 with (Z.ones 1) at 1. rewrite Z.land_ones by lia. change (2 ^ 1) with 2.
    rewrite Zmod_odd. by destruct (Z.odd _). }
  rewrite Eb. destruct (Z.testbit w (Z.of_nat n)) eqn:Et.
  - split_and!; [lia.. | done | intros; lia].
  - destruct (hi_bit n w) as [j|].
    + destruct IH as (H1 & H2 & H3). split_and!; [lia | lia | done |]. intros i Hi.
      destruct (decide (i = Z.of_nat n)) as [-> |]; [done | apply H3; lia].
    + intros i Hi. destruct (decide (i = Z.of_nat n)) as [-> |]; [done | apply IH; lia].
Qed.

Lemma hi_prio_spec b qs n : bits_ok b qs -> (n <= 8)%nat -> exists o, hi_prio n b = Ok o /\
  match o with
  | Some p => 0 <= p < 32 * Z.of_nat n /\ empty (qs (QReady p)) = false /\
      forall p', p < p' < 32 * Z.of_nat n -> empty (qs (QReady p')) = true
  | None => forall p', 0 <= p' < 32 * Z.of_nat n -> empty (qs (QReady p')) = true
  end.
Proof.
  intros (Hl & Hr & Hb). induction n as [|n IH]; intros Hn; cbn [hi_prio]; [exists None; split; [done | intros; lia] |].
  destruct (lookup_lt_is_Some_2 b n) as [w Hw]; [lia |]. rewrite Hw. cbn [from_opt mbind res_bind].
  assert (Hg : forall j, 0 <= j < 32 -> Z.testbit w j = negb (empty (qs (QReady (32 * Z.of_nat n + j))))).
  { intros j Hj. destruct (Hb (32 * Z.of_nat n + j)) as (w' & Hw' & E); [lia |].
    assert (Ed : (32 * Z.of_nat n + j) / 32 = Z.of_nat n) by (symmetry; apply (Z.div_unique _ _ _ j); lia).
    unfold bits_group in Hw'. rewrite Ed, Nat2Z.id, Hw in Hw'. injection Hw' as <-. rewrite <- E. f_equal. rewrite Ed. lia. }
  destruct IH as (o & E & Ho); [lia |].
  assert (Hnone : (forall i, 0 <= i < 32 -> Z.testbit w i = false) -> exists o, hi_prio n b = Ok o /\
    match o with
    | Some p => 0 <= p < 32 * Z.of_nat (S n) /\ empty (qs (QReady p)) = false /\
        forall p', p < p' < 32 * Z.of_nat (S n) -> empty (qs (QReady p')) = true
    | None => forall p', 0 <= p' < 32 * Z.of_nat (S n) -> empty (qs (QReady p')) = true
    end).
  { intros H0. assert (Htop : forall p', 32 * Z.of_nat n <= p' < 32 * Z.of_nat (S n) -> empty (qs (QReady p')) = true).
    { intros p' Hp'. specialize (Hg (p' - 32 * Z.of_nat n) ltac:(lia)). rewrite H0 in Hg by lia.
      replace (32 * Z.of_nat n + (p' - 32 * Z.of_nat n)) with p' in Hg by lia.
      symmetry in Hg. by apply negb_false_iff in Hg. }
    exists o. split; [done |]. destruct o as [p|].
    - destruct Ho as (H1 & H2 & H3). split_and!; [lia | lia | done |]. intros p' Hp'.
      destruct (Z.lt_ge_cases p' (32 * Z.of_nat n)); [apply H3; lia | apply Htop; lia].
    - intros p' Hp'. destruct (Z.lt_ge_cases p' (32 * Z.of_nat n)); [apply Ho; lia | apply Htop; lia]. }
  destruct (Z.eqb_spec w 0) as [-> | Hw0]; cbn [negb]; [apply Hnone; intros; apply Z.testbit_0_l |].
  pose proof (hi_bit_spec 32 w) as Hh. destruct (hi_bit 32 w) as [j|]; [| by apply Hnone].
  destruct Hh as (H1 & H2 & H3). exists (Some (32 * Z.of_nat n + j)). split; [done |]. rewrite Hg in H2 by lia.
  split_and!; [lia | lia | by apply negb_true_iff in H2 |]. intros p' Hp'.
  specialize (H3 (p' - 32 * Z.of_nat n) ltac:(lia)). rewrite Hg in H3 by lia.
  replace (32 * Z.of_nat n + (p' - 32 * Z.of_nat n)) with p' in H3 by lia. by apply negb_false_iff in H3.
Qed.

(** The invariant sees the lists one by one. *)
Lemma inv_ext x s s' : thr s' = thr s -> ready_bits s' = ready_bits s -> (forall q, queues s' q = queues s q) ->
  inv_x x s -> inv_x x s'.
Proof.
  intros Et Eb Eq I. split.
  - rewrite Et. apply I.
  - rewrite Eb. destruct (i_bits _ s I) as (H1 & H2 & H3). split_and!; [done | done |]. intros p Hp. rewrite Eq. by apply H3.
  - intros q. rewrite Eq. apply I.
  - intros q. rewrite Eq. apply I.
  - intros t th q. rewrite Et, Eq. apply I.
  - intros q a t. rewrite Et, Eq. apply I.
  - intros q Hq. pose proof (i_sorted _ s I q Hq) as Hs. unfold q_threads in *. rewrite Eq.
    rewrite (list_fmap_ext _ (tmo s)); [done |]. intros i u _. unfold tmo. by rewrite Et.
Qed.

(** The rotation of a ready list: the new item is taken before the old one is
    returned. *)
Lemma rotate_ok s p a h hth b u l f fs : inv s -> let q := QReady p in
  busy (queues s q) = (a, h) :: (b, u) :: l -> free (queues s q) = f :: fs ->
  thr s !! h = Some hth -> _remaning_timeslice hth = 0 ->
  exists s', timeslice_expired s h (Some q) = Ok (Some (q, b), s') /\ inv s' /\
    busy (queues s' q) = (b, u) :: l ++ [(f, h)] /\ (forall q', q' <> q -> queues s' q' = queues s q') /\
    thr s' = <[h := with_iter (timeslice_set hth Timeslice_usec) (Some (q, f))]> (thr s).
Proof.
  intros I q Eb Ef Hh Hsl. destruct (i_out _ s I q a h) as (_ & th0 & H1 & Hq & Hi); [rewrite Eb; left |].
  rewrite Hh in H1. injection H1 as <-. unfold timeslice_expired. rewrite (get_ok s h hth Hh). cbn [mbind res_bind].
  rewrite Hsl. cbn [Z.eqb wassert mbind res_bind].
  assert (Hst : _state hth = Ready).
  { unfold queue_of in Hq. destruct (_state hth) eqn:Es; try done; destruct (waits hth); done. }
  rewrite bool_decide_eq_true_2 by done. cbn [wassert mbind res_bind].
  unfold size. rewrite Eb. cbn [length Nat.ltb Nat.leb]. rewrite Hi. unfold deref_it. cbn [from_opt mbind res_bind].
  unfold deref. cbn [put queues]. rewrite Eb. simpl find_it. rewrite Z.eqb_refl. cbn [from_opt mbind res_bind].
  destruct (push_back_ok (queues s q) h) as (f' & fs' & Ef' & Ep & El); [by rewrite Ef |].
  rewrite Ef in Ef'. injection Ef' as <- <-. rewrite Ep. cbn [mbind res_bind]. rewrite El.
  unfold erase_it. cbn [from_opt mbind res_bind]. cbn [put set_queue queues]. rewrite decide_True by done.
  unfold erase, next. cbn [busy free]. rewrite Eb. unfold empty, size. cbn [busy app length Nat.eqb negb wassert mbind res_bind].
  cbn [next_it]. rewrite Z.eqb_refl. cbn [from_opt mbind res_bind remove_it]. rewrite Z.eqb_refl.
  cbn [mbind res_bind begin busy first_it app]. eexists. split; [done |].
  set (A0 := MkA ((b, u) :: l) (a :: f :: fs)). set (A2 := MkA ((b, u) :: l ++ [(f, h)]) (a :: fs)).
  set (th1 := timeslice_set hth Timeslice_usec).
  assert (Hb : forall A, empty A = false -> bits_ok (ready_bits s) (queues (set_queue s q A))).
  { intros A HA. destruct (i_bits _ s I) as (B1 & B2 & B3). split_and!; [done | done |]. intros p' Hp'.
    destruct (B3 p' Hp') as (w & Hw & E). exists w. split; [done |]. cbn [set_queue queues].
    destruct (decide (QReady p' = q)) as [Eq |]; [| done]. rewrite E, HA, Eq. unfold empty, size. by rewrite Eb. }
  assert (I0 : inv_x (Some h) (put (set_bits (set_queue s q A0) (ready_bits s)) h (with_iter hth None))).
  { apply (detach_inv s h hth q a A0 (ready_bits s) [] ((b, u) :: l)); try done; [by rewrite Ef | | by apply Hb].
    apply (wf_perm (queues s q)); [| apply I]. rewrite Eb, Ef. simpl. solve_Permutation. }
  assert (Hl : (h < length (thr s))%nat) by (by eapply lookup_lt_Some).
  pose proof (put_detached h _ th1 I0) as I1. set (s1 := put _ h th1) in I1.
  assert (Eth : thr s1 = <[h := th1]> (thr s)) by (unfold s1; cbn; by rewrite list_insert_insert_eq).
  split_and!.
  - eapply (inv_ext _ (put (set_bits (set_queue s1 q A2) (ready_bits s1)) h (with_iter th1 (Some (q, f))))).
    + cbn [put set_bits set_queue thr]. rewrite Eth. unfold th1. by rewrite !list_insert_insert_eq.
    + done.
    + intros q'. cbn [put set_bits set_queue queues s1]. destruct (decide (q' = q)); [done | done].
    + apply (attach_inv s1 h th1 q f A2 (ready_bits s1) ((b, u) :: l) []); try done.
      * rewrite Eth. by rewrite list_lookup_insert_eq.
      * rewrite <- Hq. unfold th1. by destruct hth.
      * unfold s1. cbn [put set_bits set_queue queues]. rewrite decide_True by done. by rewrite app_nil_r.
      * unfold s1. cbn [put set_bits set_queue queues]. rewrite decide_True by done. unfold A0, A2. simpl. solve_Permutation.
      * destruct (Hb A2 eq_refl) as (B1 & B2 & B3). split_and!; [done | done |]. intros p' Hp'.
        destruct (B3 p' Hp') as (w & Hw & E). exists w. split; [done |]. rewrite E. unfold s1.
        cbn [put set_bits set_queue queues]. by destruct (decide _).
      * intros [? | ?]; done.
  - cbn [put set_queue queues]. by rewrite decide_True by done.
  - intros q' Hq'. cbn [put set_queue queues]. by rewrite !decide_False by done.
  - cbn [put set_queue thr]. by rewrite list_insert_insert_eq.
Qed.

Lemma ready_queue th : queue_of th = Some (QReady (prio th)) <-> _state th = Ready.
Proof. unfold queue_of. destruct (_state th); split; intros H; try done; try (destruct (waits th); done). Qed.

Lemma queue_ready th p : queue_of th = Some (QReady p) -> _state th = Ready /\ prio th = p.
Proof. unfold queue_of. destruct (_state th), (waits th); intros [= H]; done. Qed.

Lemma empty_busy (A : alist nat) : empty A = true <-> busy A = [].
Proof. unfold empty, size. destruct (busy A); split; done. Qed.

(** The head of the highest ready list. *)
Lemma hi_prio_head s : inv s -> exists o, hi_prio 8 (ready_bits s) = Ok o /\
  match o with
  | None => forall t th, thr s !! t = Some th -> _state th <> Ready
  | Some p => ready_threads p = Ok (QReady p) /\ exists a h hth l, busy (queues s (QReady p)) = (a, h) :: l /\
      thr s !! h = Some hth /\ _state hth = Ready /\ prio hth = p /\ _iter hth = Some (QReady p, a) /\
      forall u uth, thr s !! u = Some uth -> _state uth = Ready -> prio uth <= p
  end.
Proof.
  intros I. destruct (hi_prio_spec (ready_bits s) (queues s) 8 (i_bits _ s I) ltac:(lia)) as (o & E & Ho).
  exists o. split; [done |].
  assert (Hin : forall u uth, thr s !! u = Some uth -> _state uth = Ready -> empty (queues s (QReady (prio uth))) = false).
  { intros u uth Hu Hs. destruct (i_in _ s I u uth (QReady (prio uth)) Hu ltac:(done)) as (a & _ & Hin); [by apply ready_queue |].
    apply not_true_iff_false. rewrite empty_busy. intros Eb. rewrite Eb in Hin. by apply elem_of_nil in Hin. }
  destruct o as [p|].
  - destruct Ho as (Hp & Hne & Hmax). split.
    { unfold ready_threads, Prio_max. by rewrite (proj2 (Z.leb_le p 255)) by lia. }
    apply not_true_iff_false in Hne. rewrite empty_busy in Hne.
    destruct (busy (queues s (QReady p))) as [|[a h] l] eqn:Eb; [done |].
    destruct (i_out _ s I (QReady p) a h) as (_ & hth & H1 & H2 & H3); [rewrite Eb; left |].
    apply queue_ready in H2 as [H2 H2']. exists a, h, hth, l. split_and!; try done.
    intros u uth Hu Hs. destruct (Z.le_gt_cases (prio uth) p); [done |]. pose proof (prio_range uth).
    pose proof (Hin u uth Hu Hs) as Hf. rewrite Hmax in Hf by lia. done.
  - intros t th Ht Hs. pose proof (prio_range th). pose proof (Hin t th Ht Hs) as Hf. rewrite Ho in Hf by lia. done.
Qed.

(** C18: the scheduler picks the head of the ready list of the highest
    priority of any ready thread; if its time slice is used up the list is
    rotated, the slice renewed and the next thread of the list taken; nothing
    else changes and the invariant is kept.  Without a ready thread the
    scheduler panics; it also panics on a rotation when all 128 threads are
    ready at one priority, since the rotation takes a list item before it
    returns the old one. *)
Theorem sched_correct s : inv s ->
  ((forall t th, thr s !! t = Some th -> _state th <> Ready) -> get_highest_prio_ready_thread s = Stop FPanic) /\
  (forall r rth, thr s !! r = Some rth -> _state rth = Ready ->
   exists h hth l, let p := prio hth in q_threads s (QReady p) = h :: l /\ thr s !! h = Some hth /\ _state hth = Ready /\
     (forall u uth, thr s !! u = Some uth -> _state uth = Ready -> prio uth <= p) /\
     (_remaning_timeslice hth <> 0 -> get_highest_prio_ready_thread s = Ok (h, s)) /\
     (_remaning_timeslice hth = 0 -> (length (h :: l) < 128)%nat -> exists t s',
        get_highest_prio_ready_thread s = Ok (t, s') /\ inv s' /\ head (l ++ [h]) = Some t /\
        q_threads s' (QReady p) = l ++ [h] /\ (forall q', q' <> QReady p -> q_threads s' q' = q_threads s q') /\
        exists it, thr s' = <[h := with_iter (timeslice_set hth Timeslice_usec) it]> (thr s)) /\
     (_remaning_timeslice hth = 0 -> length (h :: l) = 128%nat -> get_highest_prio_ready_thread s = Stop FPanic)).
Proof.
  intros I. destruct (hi_prio_head s I) as (o & E & Ho). unfold get_highest_prio_ready_thread. rewrite E.
  cbn [mbind res_bind]. destruct o as [p|].
  2: { split; [done |]. intros r rth Hr Hs. by destruct (Ho r rth Hr). }
  destruct Ho as (Er & a & h & hth & l & Eb & Hh & Hs & Hp & Hi & Hmax). cbn [from_opt mbind res_bind]. rewrite Er.
  cbn [mbind res_bind]. unfold size. rewrite Eb. cbn [length Nat.eqb negb wassert mbind res_bind].
  unfold begin. rewrite Eb. cbn [first_it]. 
  assert (Ed : deref (queues s (QReady p)) a = Ok h) by (unfold deref; rewrite Eb; simpl; by rewrite Z.eqb_refl).
  assert (Hd : deref_it s (Some (QReady p, a)) = Ok h) by done.
  rewrite Hd. cbn [mbind res_bind]. rewrite (get_ok s h hth Hh). cbn [mbind res_bind]. split.
  { intros Hn. by destruct (Hn h hth Hh). }
  intros r rth _ _. exists h, hth, (vals l). cbv zeta. rewrite Hp.
  assert (Eq : q_threads s (QReady p) = h :: vals l) by (unfold q_threads; by rewrite Eb).
  split_and!; try done.
  - intros Hne. by destruct (Z.eqb_spec (_remaning_timeslice hth) 0).
  - intros Hz Hlen. rewrite Hz, Z.eqb_refl. destruct l as [|[b u] l].
    + unfold timeslice_expired. rewrite (get_ok s h hth Hh). cbn [mbind res_bind]. rewrite Hz. cbn [Z.eqb wassert mbind res_bind].
      rewrite bool_decide_eq_true_2 by done. cbn [wassert mbind res_bind]. unfold size. rewrite Eb. cbn [length Nat.ltb Nat.leb].
      cbn [mbind res_bind]. unfold begin. rewrite Eb. cbn [first_it]. unfold deref_it. cbn [from_opt mbind res_bind put queues].
      rewrite Ed. cbn [mbind res_bind]. eexists _, _. split_and!; [done | | done | done | done |].
      * eapply put_same; [done | done | by destruct hth..].
      * exists (_iter hth). cbn [put thr]. f_equal. by destruct hth.
    + destruct (free (queues s (QReady p))) as [|f fs] eqn:Ef.
      { pose proof (i_cap _ s I (QReady p)) as Hc. rewrite Eb, Ef in Hc. unfold vals in Hlen. simpl in Hc, Hlen. rewrite length_fmap in Hlen. lia. }
      destruct (rotate_ok s p a h hth b u l f fs I Eb Ef Hh Hz) as (s' & -> & I' & Eb' & Eo & Et).
      cbn [mbind res_bind]. unfold deref_it. cbn [from_opt mbind res_bind]. unfold deref. rewrite Eb'. cbn [find_it].
      rewrite Z.eqb_refl. cbn [from_opt mbind res_bind]. eexists _, _. split_and!; [done | done | done | | |].
      * unfold q_threads. rewrite Eb'. change ((b, u) :: l ++ [(f, h)]) with (((b, u) :: l) ++ [(f, h)]). by rewrite vals_app.
      * intros q' Hq'. unfold q_threads. by rewrite Eo.
      * by exists (Some (QReady p, f)).
  - intros Hz Hlen. rewrite Hz, Z.eqb_refl. pose proof (i_cap _ s I (QReady p)) as Hc. rewrite Eb in Hc.
    unfold vals in Hlen. simpl in Hc, Hlen. rewrite length_fmap in Hlen.
    destruct (free (queues s (QReady p))) as [|f fs] eqn:Ef; [| simpl in Hc; lia].
    destruct l as [|[b u] l]; [done |]. unfold timeslice_expired. rewrite (get_ok s h hth Hh). cbn [mbind res_bind].
    rewrite Hz. cbn [Z.eqb wassert mbind res_bind]. rewrite bool_decide_eq_true_2 by done. cbn [wassert mbind res_bind].
    unfold size. rewrite Eb. cbn [length Nat.ltb Nat.leb]. rewrite Hi. unfold deref_it. cbn [from_opt mbind res_bind put queues].
    rewrite Ed. cbn [mbind res_bind]. unfold push_back, take_free. by rewrite Ef.
Qed.

(** One thread becomes ready and is scheduled. *)
Lemma sched_correct_witness : exists s1, set_state init_threads 5 Ready = Ok s1 /\
  get_highest_prio_ready_thread s1 = Ok (5%nat, s1).
Proof.
  destruct (set_state_ok init_threads 5 idle_thread Ready) as (s1 & it & E & I & _ & M & T');
    [apply init_inv | reflexivity | discriminate | reflexivity |].
  pose proof (eq_trans (f_equal (lookup 5%nat) T') eq_refl) as T. exists s1. split; [exact E |].
  destruct (proj2 (sched_correct s1 I) 5%nat _ T) as (h & hth & l & Q & Hh & _ & _ & H & _); [reflexivity |].
  destruct M as (l1 & l2 & E1 & _ & E3). symmetry in E1. apply app_eq_nil in E1 as [-> ->].
  rewrite E3 in Q. destruct (decide _); [| discriminate Q]. injection Q as <- <-.
  apply H. rewrite T in Hh. injection Hh as <-. discriminate.
Defined.

(** ** Expired timeouts *)

(** The items of a list are those its threads' iterators name. *)
Definition item_of (s : threads) (t : nat) : Z :=
  match thr s !! t with Some th => match _iter th with Some (_, a) => a | None => 0 end | None => 0 end.

Lemma busy_items x s q : inv_x x s -> busy (queues s q) = (fun t => (item_of s t, t)) <$> q_threads s q.
Proof.
  intros I. unfold q_threads, vals. rewrite <- list_fmap_compose. rewrite <- (list_fmap_id (busy (queues s q))) at 1.
  apply list_fmap_ext. intros i [a t] Hi. simpl. apply list_elem_of_lookup_2 in Hi.
  destruct (i_out _ s I q a t Hi) as (_ & th & H1 & _ & H3). unfold item_of. by rewrite H1, H3.
Qed.

Definition others_kept (t : nat) (s s' : threads) : Prop := forall u, u <> t -> thr s' !! u = thr s !! u.
Lemma others_tmo t s s' u : others_kept t s s' -> u <> t -> tmo s' u = tmo s u /\ item_of s' u = item_of s u.
Proof. intros Ho Hu. unfold tmo, item_of. by rewrite (Ho u Hu). Qed.

Lemma timed_state th q : timed q -> queue_of th = Some q ->
  bool_decide (_state th = Send_ipc) || bool_decide (_state th = Receive_ipc) = true /\ _state th <> Ready.
Proof.
  unfold queue_of, timed. destruct (_state th) eqn:Es; intros Hq E; try discriminate E; split; try done.
  all: injection E as E; subst q; destruct Hq; done.
Qed.

(** What an expired thread looks like. *)
Definition timed_out (th th' : thread_t) : Prop :=
  _state th' = Ready /\ utcb_msgtag th' = tag_ipc_set_failed (utcb_msgtag th) /\
  utcb_error th' = ipcerr_create 0 (if decide (_state th = Send_ipc) then L4_snd_phase else L4_rcv_phase) L4_ipc_timeout 0.

(** The head of a timeout list becomes ready; the rest of the list stays as it is. *)
Lemma expire_step s q a t th rest : inv s -> timed q -> busy (queues s q) = (a, t) :: rest ->
  thr s !! t = Some th -> _prio_heir th = Thrid_nil ->
  let s1 := put s t (with_utcb th (tag_ipc_set_failed (utcb_msgtag th))
              (ipcerr_create 0 (if decide (_state th = Send_ipc) then L4_snd_phase else L4_rcv_phase) L4_ipc_timeout 0)) in
  exists s2 th', next (queues s1 q) a = Ok (first_it rest) /\ set_state s1 t Ready = Ok s2 /\ drop_heir s2 t = Ok s2 /\
    inv s2 /\ busy (queues s2 q) = rest /\ others_kept t s s2 /\ thr s2 !! t = Some th' /\ timed_out th th'.
Proof.
  intros I Hq Eb Ht Hh s1. assert (Hl : (t < length (thr s))%nat) by (by eapply lookup_lt_Some).
  destruct (i_out _ s I q a t) as (_ & th0 & H1 & Hqt & Hi); [rewrite Eb; left |]. rewrite Ht in H1. injection H1 as <-.
  destruct (timed_state th q Hq Hqt) as [_ Hnr].
  set (th1 := with_utcb th _ _) in s1.
  assert (I1 : inv s1) by (eapply put_same; [done | done | by destruct th..]).
  assert (Ht1 : thr s1 !! t = Some th1) by (unfold s1; simpl; by rewrite list_lookup_insert_eq).
  destruct (set_state_ok s1 t th1 Ready I1 Ht1) as (s2 & it & E2 & I2 & _ & M2 & T2');
    [by destruct th | by destruct th |].
  assert (T2 : thr s2 !! t = Some (with_heir (with_iter (entered (with_state th1 Ready)) it) Thrid_nil)).
  { rewrite T2'. apply list_lookup_insert_eq. unfold s1. simpl. by rewrite length_insert. }
  assert (Os : others_kept t s s2).
  { intros u Hu. rewrite T2', list_lookup_insert_ne by done. unfold s1. simpl. by rewrite list_lookup_insert_ne by done. }
  assert (Hqs : q_threads s2 q = vals rest).
  { assert (En : q_threads s q = t :: vals rest) by (unfold q_threads; by rewrite Eb).
    assert (Ef : filter (fun u => u <> t) (q_threads s q) = vals rest).
    { rewrite En. apply (filter_mid [] (vals rest) t). rewrite <- (app_nil_l (t :: vals rest)), <- En. by eapply inv_nodup. }
    assert (Eq2 : queue_of (with_state th1 Ready) = Some (QReady (prio th))) by (unfold th1; by destruct th).
    rewrite Eq2 in M2. destruct M2 as (l1 & l2 & _ & _ & E3). rewrite E3, decide_False; [exact Ef |].
    destruct Hq as [-> | ->]; done. }
  exists s2. eexists. split_and!; [| done | | done | | done | exact T2 |].
  - unfold s1, next. simpl. rewrite Eb. simpl. by rewrite Z.eqb_refl.
  - unfold drop_heir. rewrite (get_ok s2 t _ T2). cbn [mbind res_bind]. by destruct th.
  - rewrite (busy_items _ s2 q I2), Hqs. pose proof (busy_items _ s q I) as Hb. unfold q_threads in Hb. rewrite Eb in Hb.
    simpl in Hb. injection Hb as _ Hb. rewrite Hb at 2. apply list_fmap_ext. intros i u Hu. f_equal.
    apply list_elem_of_lookup_2 in Hu. assert (Hin : u ∈ q_threads s q) by (unfold q_threads; rewrite Eb; by right).
    pose proof (inv_nodup _ s q I) as Hn. unfold q_threads in Hn. rewrite Eb in Hn. apply NoDup_cons in Hn as [Hn _].
    apply (others_tmo t s s2 u Os). by intros ->.
  - by destruct th.
Qed.

Lemma expire_loop_ok q now rest : timed q -> forall s nxt, inv s -> busy (queues s q) = rest ->
  (forall t th, t ∈ vals rest -> thr s !! t = Some th -> _prio_heir th = Thrid_nil) ->
  exists l1 l2 s', vals rest = l1 ++ l2 /\
    expire_loop (length rest) s now q (first_it rest) nxt = Ok (match nxt with None => head l1 | _ => nxt end, s') /\
    inv s' /\ q_threads s' q = l2 /\ Forall (fun t => tmo s t <= now) l1 /\ Forall (fun t => now < tmo s t) l2 /\
    (forall t th, t ∈ l1 -> thr s !! t = Some th -> exists th', thr s' !! t = Some th' /\ timed_out th th') /\
    (forall u, u ∉ l1 -> thr s' !! u = thr s !! u).
Proof.
  intros Hq. induction rest as [|[a t] rest IH]; intros s nxt I Eb Hh.
  { exists [], [], s. split_and!; [done | by destruct nxt | done | unfold q_threads; by rewrite Eb | constructor | constructor | |].
    - intros t th Hin. by apply elem_of_nil in Hin.
    - done. }
  destruct (i_out _ s I q a t) as (_ & th & Ht & Hqt & _); [rewrite Eb; left |].
  destruct (timed_state th q Hq Hqt) as [Hst _]. pose proof (inv_nodup _ s q I) as Hnd. unfold q_threads in Hnd. rewrite Eb in Hnd.
  assert (Ha : a <> 0).
  { destruct (i_wf _ s I q) as [_ Hz]. rewrite Eb in Hz. simpl in Hz. by apply Forall_cons in Hz as [? _]. }
  assert (Etm : tmo s t = timeout (_ipc th)) by (unfold tmo; by rewrite Ht).
  cbn [first_it length expire_loop]. destruct (Z.eqb_spec a 0); [done |].
  assert (Ed : deref (queues s q) a = Ok t) by (unfold deref; rewrite Eb; simpl; by rewrite Z.eqb_refl).
  rewrite Ed. cbn [mbind res_bind]. rewrite (get_ok s t th Ht). cbn [mbind res_bind]. rewrite Hst. cbn [wassert mbind res_bind].
  destruct (Z.ltb_spec now (timeout (_ipc th))) as [Hlt | Hge].
  { exists [], (vals ((a, t) :: rest)), s. pose proof (i_sorted _ s I q Hq) as Hs. unfold q_threads in *. rewrite Eb in *.
    split_and!; [done | by destruct nxt | done | done | constructor | | |].
    - simpl in Hs. apply StronglySorted_inv in Hs as [_ Hs]. constructor; [simpl; lia |].
      rewrite Forall_fmap in Hs. eapply Forall_impl; [exact Hs |]. simpl. intros u Hu. simpl in Hu. lia.
    - intros u uth Hin. by apply elem_of_nil in Hin.
    - done. }
  destruct (expire_step s q a t th rest I Hq Eb Ht) as (s2 & th' & En & E2 & E3 & I2 & Eb2 & O2 & T2 & X2);
    [apply (Hh t th); [left | done] |].
  cbv zeta in En, E2. rewrite En. cbn [mbind res_bind]. rewrite E2. cbn [mbind res_bind]. rewrite E3. cbn [mbind res_bind].
  apply NoDup_cons in Hnd as [Hnt Hnd]. change (t ∉ vals rest) in Hnt.
  assert (Hrest : forall u, u ∈ vals rest -> u <> t) by (intros u Hu ->; done).
  destruct (IH s2 (match nxt with None => Some t | _ => nxt end) I2 Eb2) as (l1 & l2 & s' & V & E & I' & Q' & F1 & F2 & X & O).
  { intros u uth Hu Hut. rewrite (O2 u (Hrest u Hu)) in Hut. apply (Hh u uth); [by right | done]. }
  assert (Htm : forall u, u ∈ vals rest -> tmo s2 u = tmo s u) by (intros u Hu; by apply (others_tmo t s s2 u O2), Hrest).
  assert (Hl1 : forall u, u ∈ l1 -> u ∈ vals rest) by (intros u Hu; rewrite V; set_solver).
  assert (Hl2 : forall u, u ∈ l2 -> u ∈ vals rest) by (intros u Hu; rewrite V; set_solver).
  exists (t :: l1), l2, s'. split_and!.
  - simpl. by rewrite <- V.
  - rewrite E. by destruct nxt.
  - done.
  - done.
  - constructor; [lia |]. rewrite Forall_forall in *. intros u Hu. rewrite <- Htm by auto. auto.
  - rewrite Forall_forall in *. intros u Hu. rewrite <- Htm by auto. auto.
  - intros u uth Hu Hut. destruct (decide (u = t)) as [-> | Hne].
    + exists th'. rewrite Ht in Hut. injection Hut as <-. split; [| done]. rewrite O; [done |]. intros Hin. by apply Hnt, Hl1.
    + apply elem_of_cons in Hu as [? | Hu]; [done |]. apply (X u uth Hu). by rewrite (O2 u Hne).
  - intros u Hu. rewrite O by set_solver. apply O2. set_solver.
Qed.

(** one pass over a timeout list (of threads that have not lent their
    priority): exactly the threads whose timeout has expired leave the list
    and become ready, with the timeout error of their phase and the failure
    flag in their UTCB; the others keep waiting, unchanged and in order; the
    first expired thread is returned and the invariant is kept. *)
Theorem ipc_timeouts_correct s now q : inv s -> timed q ->
  (forall t th, t ∈ q_threads s q -> thr s !! t = Some th -> _prio_heir th = Thrid_nil) ->
  exists l1 l2 s', q_threads s q = l1 ++ l2 /\ check_ipc_timeouts_list s now q = Ok (head l1, s') /\ inv s' /\
    q_threads s' q = l2 /\ Forall (fun t => tmo s t <= now) l1 /\ Forall (fun t => now < tmo s t) l2 /\
    (forall t th, t ∈ l1 -> thr s !! t = Some th -> exists th', thr s' !! t = Some th' /\ timed_out th th') /\
    (forall u, u ∉ l1 -> thr s' !! u = thr s !! u).
Proof. intros I Hq Hh. exact (expire_loop_ok q now _ Hq s None I eq_refl Hh). Qed.

(** A thread waits until time 100 and is woken at time 200. *)
Definition waiting_thread : thread_t := with_ipc idle_thread (MkIpc 100 Thrid_nil Thrid_any).

Lemma waiting_inv : inv (put init_threads 5 waiting_thread).
Proof.
  apply (inv_attach_none 5).
  - apply put_detached, inv_detach; [apply init_inv |]. intros th H. by apply lookup_replicate in H as [-> _].
  - simpl. intros th H. injection H as <-. done.
Qed.

Lemma ipc_timeouts_correct_witness : exists s1 s2,
  set_state (put init_threads 5 waiting_thread) 5 Receive_ipc = Ok s1 /\
  check_ipc_timeouts_list s1 200 QTmoRcv = Ok (Some 5%nat, s2) /\ q_threads s2 QTmoRcv = [].
Proof.
  destruct (set_state_ok (put init_threads 5 waiting_thread) 5 waiting_thread Receive_ipc)
    as (s1 & it & E & I & _ & M & T'); [apply waiting_inv | reflexivity | discriminate | reflexivity |].
  pose proof (eq_trans (f_equal (lookup 5%nat) T') eq_refl) as T.
  destruct M as (l1 & l2 & E1 & _ & E3). symmetry in E1. apply app_eq_nil in E1 as [-> ->].
  specialize (E3 QTmoRcv). rewrite decide_True in E3 by reflexivity. simpl in E3.
  destruct (ipc_timeouts_correct s1 200 QTmoRcv I) as (k1 & k2 & s2 & K & C & _ & Q & F1 & F2 & _).
  - by right.
  - intros t th Ht Hth. rewrite E3 in Ht. apply list_elem_of_singleton in Ht. subst t. rewrite T in Hth. by injection Hth as <-.
  - exists s1, s2. split; [exact E |]. rewrite E3 in K. destruct k1 as [|x k1].
    + simpl in K. subst k2. apply Forall_cons in F2 as [F2 _]. unfold tmo in F2. rewrite T in F2. simpl in F2. lia.
    + injection K as -> K. symmetry in K. apply app_eq_nil in K as [-> ->]. split; [exact C | exact Q].
Defined.
