(* ===== verification/Mmu.v ===== *)
(** lib/mmu: the page-table cell formats of the supported MMUs.

    Every architecture packs a table cell into one machine word and accesses
    it through the same functions (mmu_set_dir, mmu_get_map_pa, ...).  Class
    [Mmu] is that interface as krn/ptable.h uses it, with the geometry of the
    [Ptable] typedefs; class [MmuSpec] states what the paging code may rely
    on.  The SPARC reference MMU, the ARM and the two x86 formats are instances
    of both ([ktables] is the typedef Ktab_t).  A cell function gets the level and the cell's word; the setters
    return the new word.  The mmu_assert checks are compiled out, as in the
    release build. *)

From Stdlib Require Import ZArith Lia Bool String.
From stdpp Require Import base list numbers.
From S2P Require Import Prelude SysUtils.

(** Template arguments of Ptable: level and the address bits of the index. *)
Record level := MkLevel { Level : Z; Index_hi : Z; Index_low : Z }.

Definition index_bits (l : level) : Z := Index_hi l - Index_low l + 1.
Definition Table_sz (l : level) : Z := Z.shiftl 1 (index_bits l).
Definition Index_mask (l : level) : Z := Z.shiftl (Z.shiftl 1 (index_bits l) - 1) (Index_low l).
Definition Offset_mask (l : level) : Z := Z.shiftl 1 (Index_low l) - 1.
Definition Page_sz (l : level) : Z := Z.shiftl 1 (Index_low l).
Definition Aspace_sz (l : level) : Z := Z.shiftl 1 (Index_hi l + 1).

Class Mmu := {
  mmu_set_dir : Z -> Z -> Z -> Z;
  mmu_set_map : Z -> Z -> Z -> Z -> Z -> Z;
  mmu_set_inv : Z -> Z -> Z;
  mmu_get_dir_pa : Z -> Z -> Z;
  mmu_get_map_pa : Z -> Z -> Z;
  mmu_get_map_cached : Z -> Z -> Z;
  mmu_map_acc : Z -> Z -> Z;
  mmu_is_dir : Z -> Z -> bool;
  mmu_is_map : Z -> Z -> bool;
  mmu_is_inv : Z -> Z -> bool;
  ptables : list level;
  ktables : list level;
  use_ctxtb : bool;
  word_bytes : Z;
  addr_w : Z }.

Definition Table_bytes `{Mmu} (l : level) : Z := Table_sz l * word_bytes.

(** Consecutive index fields: the first ends at bit [h], the last at bit 12;
    every level but the last has directory records. *)
Fixpoint chain (has_dir : Z -> bool) (h : Z) (ls : list level) : Prop :=
  match ls with
  | [] => h = 11
  | l :: ls' => Index_hi l = h /\ 12 <= Index_low l <= h /\
                match ls' with [] => True | _ => has_dir (Level l) = true end /\
                chain has_dir (Index_low l - 1) ls'
  end.

(** What ptable.h needs from the cell functions: a record written at a level
    that supports it is recognised as that record and as no other, and reads
    back what was written, for physical addresses below the limits. *)
Class MmuSpec (M : Mmu) := {
  dir_limit : Z;
  map_limit : Z -> Z;
  dir_align : Z;
  acc_max : Z;
  has_dir : Z -> bool;
  has_map : Z -> bool;
  spec_geometry : exists h, chain has_dir h ptables /\ h < addr_w /\ 0 < word_bytes /\
                    Forall (fun l => (dir_align | Table_bytes l)) ptables;
  spec_limit : 0 < dir_align /\ dir_limit <= 2 ^ 64 /\ forall lev, map_limit lev <= 2 ^ 64;
  spec_dir lev c tb : has_dir lev = true -> 0 <= tb < dir_limit -> (dir_align | tb) ->
    mmu_is_dir lev (mmu_set_dir lev c tb) = true /\ mmu_get_dir_pa lev (mmu_set_dir lev c tb) = tb;
  spec_map l c pa a k : l ∈ ptables -> has_map (Level l) = true -> 0 <= pa < map_limit (Level l) -> (Page_sz l | pa) ->
    0 <= a <= acc_max -> 0 <= k <= 1 ->
    let c' := mmu_set_map (Level l) c pa a k in
    mmu_is_map (Level l) c' = true /\ mmu_get_map_pa (Level l) c' = pa /\
    mmu_map_acc (Level l) c' = a /\ mmu_get_map_cached (Level l) c' = k;
  spec_inv l c : l ∈ ptables -> mmu_is_inv (Level l) (mmu_set_inv (Level l) c) = true /\ mmu_is_inv (Level l) 0 = true;
  spec_excl lev c :
    (mmu_is_dir lev c = true -> mmu_is_map lev c = false /\ mmu_is_inv lev c = false) /\
    (mmu_is_map lev c = true -> mmu_is_inv lev c = false) }.

(** [(int)x << n] stored into the 64-bit paddr_t: a bit field narrower than
    int is promoted to int before the shift, so bit 31 is the sign. *)
Definition int_shl (x n : Z) : Z := u64 (s32 (Z.shiftl x n)).

(** * SPARC reference MMU: lib/mmu/sparc_srmmu/mmu.h *)

Definition Et_inv : Z := 0.
Definition Et_ptd : Z := 1.
Definition Et_pte : Z := 2.
Definition Et_mask : Z := 3.

(** *cell = ((tb >> 4) & ~3) | Et_ptd, stored into a 32-bit word. *)
Definition sparc_set_dir (lev c tb : Z) : Z := u32 (Z.lor (Z.ldiff (Z.shiftr tb 4) 3) Et_ptd).

Definition sparc_set_map (lev c pa access cachable : Z) : Z :=
  u32 (Z.lor (Z.lor (Z.lor (Z.land (Z.shiftr pa 4) 0xffffff00) (Z.shiftl cachable 7)) (Z.shiftl access 2)) Et_pte).

Definition sparc_set_inv (lev c : Z) : Z := Et_inv.

(** The shift is done in the 32-bit word_t. *)
Definition sparc_get_dir_pa (lev c : Z) : Z := u32 (Z.shiftl (Z.land c 0xfffffffc) 4).
Definition sparc_get_map_pa (lev c : Z) : Z := u32 (Z.shiftl (Z.land c 0xffffff00) 4).
Definition sparc_get_map_cached (lev c : Z) : Z := Z.land (Z.shiftr c 7) 1.
Definition sparc_map_acc (lev c : Z) : Z := Z.land (Z.shiftr c 2) 7.

Definition sparc_get_map_acc (lev c : Z) : string :=
  match sparc_map_acc lev c with
  | 0 => "kr--_ur--" | 1 => "krw-_urw-" | 2 => "kr-x_ur-x" | 3 => "krwx_urwx"
  | 4 => "k--x_u--x" | 5 => "krw-_ur--" | 6 => "kr-x_u---" | 7 => "krwx_u---"
  | _ => "__unknown_mmu_access__"
  end%string.

Definition sparc_is_dir (lev c : Z) : bool := Z.land c Et_mask =? Et_ptd.
Definition sparc_is_map (lev c : Z) : bool := Z.land c Et_mask =? Et_pte.
Definition sparc_is_inv (lev c : Z) : bool := Z.land c Et_mask =? Et_inv.

Definition sparc_index2va (lev index : Z) : Z :=
  if lev =? 1 then u32 (index * 0x1000000)
  else if lev =? 2 then u32 (index * 0x40000)
  else if lev =? 3 then u32 (index * 0x1000)
  else u32 (-1).

Definition sparc_ptables : list level := [MkLevel 1 31 24; MkLevel 2 23 18; MkLevel 3 17 12].

Definition sparc : Mmu := {|
  mmu_set_dir := sparc_set_dir; mmu_set_map := sparc_set_map; mmu_set_inv := sparc_set_inv;
  mmu_get_dir_pa := sparc_get_dir_pa; mmu_get_map_pa := sparc_get_map_pa;
  mmu_get_map_cached := sparc_get_map_cached; mmu_map_acc := sparc_map_acc;
  mmu_is_dir := sparc_is_dir; mmu_is_map := sparc_is_map; mmu_is_inv := sparc_is_inv;
  ptables := sparc_ptables; ktables := drop 1 sparc_ptables; use_ctxtb := true; word_bytes := 4; addr_w := 32 |}.

(** * ARM MMU: lib/mmu/arm_mmu/mmu.h (little-endian bit-field layout) *)

Definition Et_l1_inv : Z := 0.
Definition Et_l1_dir : Z := 1.
Definition Et_l1_map : Z := 2.
Definition Et_l2_inv : Z := 0.
Definition Et_l2_map : Z := 2.

(** The type field is the same two bits in L1_map_t, L1_dir_t and L2_map_t. *)
Definition arm_type (c : Z) : Z := bf_get 0 2 c.

Definition arm_set_dir (lev c tb : Z) : Z :=
  if lev =? 1 then bf_set 0 2 Et_l1_dir (bf_set 5 4 0 (bf_set 10 22 (Z.shiftr tb 10) 0)) else c.

Definition _mmu_set_l1_map (pa access cachable : Z) : Z :=
  bf_set 0 2 Et_l1_map (bf_set 2 1 cachable (bf_set 3 1 cachable (bf_set 5 4 0
    (bf_set 10 2 access (bf_set 20 12 (Z.shiftr pa 20) 0))))).

Definition _mmu_set_l2_map (pa access cachable : Z) : Z :=
  bf_set 0 2 Et_l2_map (bf_set 2 1 cachable (bf_set 3 1 cachable
    (bf_set 4 2 access (bf_set 12 20 (Z.shiftr pa 12) 0)))).

Definition arm_set_map (lev c pa access cachable : Z) : Z :=
  if lev =? 1 then _mmu_set_l1_map pa access cachable
  else if lev =? 2 then _mmu_set_l2_map pa access cachable else c.

Definition arm_set_inv (lev c : Z) : Z := if lev =? 1 then 0 else if lev =? 2 then 0 else c.

Definition arm_get_dir_pa (lev c : Z) : Z :=
  if lev =? 1 then int_shl (bf_get 10 22 c) 10 else u64 (-1).

Definition arm_get_map_pa (lev c : Z) : Z :=
  if lev =? 1 then int_shl (bf_get 20 12 c) 20
  else if lev =? 2 then int_shl (bf_get 12 20 c) 12 else u64 (-1).

Definition arm_get_map_cached (lev c : Z) : Z :=
  if lev =? 1 then bf_get 3 1 c else if lev =? 2 then bf_get 3 1 c else -1.

Definition arm_map_acc (lev c : Z) : Z :=
  if lev =? 1 then bf_get 10 2 c else if lev =? 2 then bf_get 4 2 c else 0.

Definition arm_get_map_acc (lev c : Z) : string :=
  match arm_map_acc lev c with
  | 0 => "k---_u---" | 1 => "krwx_u---" | 2 => "krwx_ur-x" | 3 => "krwx_urwx"
  | _ => "__unknown_mmu_access__"
  end%string.

Definition arm_is_dir (lev c : Z) : bool := if lev =? 1 then arm_type c =? Et_l1_dir else false.
Definition arm_is_map (lev c : Z) : bool :=
  if lev =? 1 then arm_type c =? Et_l1_map else if lev =? 2 then arm_type c =? Et_l2_map else false.
Definition arm_is_inv (lev c : Z) : bool :=
  if lev =? 1 then arm_type c =? Et_l1_inv else if lev =? 2 then arm_type c =? Et_l2_inv else false.

Definition arm_index2va (lev index : Z) : Z :=
  if lev =? 1 then u32 (index * 0x100000) else if lev =? 2 then u32 (index * 0x1000) else u32 (-1).

Definition arm_ptables : list level := [MkLevel 1 31 20; MkLevel 2 19 12].

Definition arm : Mmu := {|
  mmu_set_dir := arm_set_dir; mmu_set_map := arm_set_map; mmu_set_inv := arm_set_inv;
  mmu_get_dir_pa := arm_get_dir_pa; mmu_get_map_pa := arm_get_map_pa;
  mmu_get_map_cached := arm_get_map_cached; mmu_map_acc := arm_map_acc;
  mmu_is_dir := arm_is_dir; mmu_is_map := arm_is_map; mmu_is_inv := arm_is_inv;
  ptables := arm_ptables; ktables := drop 1 arm_ptables; use_ctxtb := false; word_bytes := 4; addr_w := 32 |}.

(** * x86 MMU: lib/mmu/x86_mmu/x86_mmu.h, for both word sizes

    [x64 = false] is the code compiled with X86_32.  Every entry has its flags
    in bits 0 to 12: present, writeable, user, cache_mode, cache_off, accessed,
    dirty, is_map (pat in a PT entry), global. *)

Definition Paddr_width (x64 : bool) : Z := if x64 then 52 else 32.
Definition _mmu_acc_user (acc : Z) : bool := (acc =? 2) || (acc =? 3).
Definition _mmu_acc_wr (acc : Z) : bool := (acc =? 1) || (acc =? 3).
Definition _mmu_make_acc (user wr : Z) : Z := Z.lor (Z.shiftl user 1) wr.

(** Flags of a directory entry: present, writeable, user, cached. *)
Definition dir_flags (raw : Z) : Z :=
  bf_set 0 1 1 (bf_set 1 1 1 (bf_set 2 1 1 (bf_set 3 1 0 (bf_set 4 1 0 raw)))).

(** PML4T_dir_t::set has no is_map field; PDPT_dir_t::set and PDT_dir_t::set
    clear theirs. *)
Definition PML4T_dir_set (x64 : bool) (tb : Z) : Z :=
  dir_flags (bf_set 12 (Paddr_width x64 - 12) (Z.shiftr tb 12) 0).
Definition PDT_dir_set (x64 : bool) (tb : Z) : Z :=
  dir_flags (bf_set 7 1 0 (bf_set 12 (Paddr_width x64 - 12) (Z.shiftr tb 12) 0)).

(** [addr << 12]: the field is 20 bits wide (promoted to int) or 40 bits wide. *)
Definition dir_paddr (x64 : bool) (c : Z) : Z :=
  let addr := bf_get 12 (Paddr_width x64 - 12) c in
  if x64 then u64 (Z.shiftl addr 12) else int_shl addr 12.

(** Flags of a map entry, from bit 8 down; bit 7 is written before. *)
Definition map_flags (access cachable raw : Z) : Z :=
  bf_set 0 1 1 (bf_set 1 1 (Z.b2z (_mmu_acc_wr access)) (bf_set 2 1 (Z.b2z (_mmu_acc_user access))
    (bf_set 3 1 0 (bf_set 4 1 (Z.b2z (cachable =? 0)) (bf_set 5 1 0 (bf_set 6 1 0 raw)))))).

(** 1 GB pages: [addr] starts at bit 30, [set] shifts by 21. *)
Definition PDPT_map_set (pa access cachable : Z) : Z :=
  map_flags access cachable (bf_set 7 1 1 (bf_set 8 1 0 (bf_set 12 1 0
    (bf_set 30 22 (Z.shiftr pa 21) 0)))).
Definition PDPT_map_paddr (c : Z) : Z := int_shl (bf_get 30 22 c) 30.

(** 4 MB (32-bit) and 2 MB (64-bit) pages. *)
Definition PDT_map_set (x64 : bool) (pa access cachable : Z) : Z :=
  let addr :=
    if x64 then bf_set 52 12 0 (bf_set 13 8 0 (bf_set 32 20 (Z.shiftr pa 32) (bf_set 21 11 (Z.shiftr pa 21) 0)))
    else bf_set 13 4 (Z.shiftr pa 32) (bf_set 17 5 0 (bf_set 22 10 (Z.shiftr pa 22) 0)) in
  map_flags access cachable (bf_set 7 1 1 (bf_set 8 1 0 (bf_set 12 1 0 addr))).
Definition PDT_map_paddr (x64 : bool) (c : Z) : Z :=
  if x64 then Z.lor (Z.shiftl (bf_get 32 20 c) 32) (int_shl (bf_get 21 11 c) 21)
  else Z.lor (Z.shiftl (bf_get 13 4 c) 32) (int_shl (bf_get 22 10 c) 22).

Definition PT_map_set (x64 : bool) (pa access cachable : Z) : Z :=
  map_flags access cachable (bf_set 7 1 0 (bf_set 8 1 0
    (bf_set 12 (Paddr_width x64 - 12) (Z.shiftr pa 12) 0))).
Definition PT_map_paddr (x64 : bool) (c : Z) : Z := dir_paddr x64 c.

Definition x86_has_map (x64 : bool) (lev : Z) : bool :=
  if x64 then (2 <=? lev) && (lev <=? 4) else (1 <=? lev) && (lev <=? 2).

Definition x86_set_dir (x64 : bool) (lev c tb : Z) : Z :=
  if x64 then
    if lev =? 1 then PML4T_dir_set x64 tb
    else if lev =? 2 then PDT_dir_set x64 tb
    else if lev =? 3 then PDT_dir_set x64 tb else c
  else if lev =? 1 then PDT_dir_set x64 tb else c.

Definition x86_set_map (x64 : bool) (lev c pa access cachable : Z) : Z :=
  if x64 then
    if lev =? 2 then PDPT_map_set pa access cachable
    else if lev =? 3 then PDT_map_set x64 pa access cachable
    else if lev =? 4 then PT_map_set x64 pa access cachable else c
  else if lev =? 1 then PDT_map_set x64 pa access cachable
  else if lev =? 2 then PT_map_set x64 pa access cachable else c.

Definition x86_set_inv (lev c : Z) : Z := 0.

Definition x86_get_dir_pa (x64 : bool) (lev c : Z) : Z :=
  if x64 then if (1 <=? lev) && (lev <=? 3) then dir_paddr x64 c else u64 (-1)
  else if lev =? 1 then dir_paddr x64 c else u64 (-1).

Definition x86_get_map_pa (x64 : bool) (lev c : Z) : Z :=
  if x64 then
    if lev =? 2 then PDPT_map_paddr c
    else if lev =? 3 then PDT_map_paddr x64 c
    else if lev =? 4 then PT_map_paddr x64 c else u64 (-1)
  else if lev =? 1 then PDT_map_paddr x64 c
  else if lev =? 2 then PT_map_paddr x64 c else u64 (-1).

Definition x86_get_map_cached (x64 : bool) (lev c : Z) : Z :=
  if x86_has_map x64 lev then Z.b2z (bf_get 4 1 c =? 0) else -1.

Definition x86_map_acc (x64 : bool) (lev c : Z) : Z :=
  if x86_has_map x64 lev then _mmu_make_acc (bf_get 2 1 c) (bf_get 1 1 c) else 0.

Definition x86_get_map_acc (x64 : bool) (lev c : Z) : string :=
  match x86_map_acc x64 lev c with
  | 0 => "krx_uno" | 1 => "krwx_uno" | 2 => "krx_urx" | 3 => "krwx_urwx"
  | _ => "__unknown_mmu_access__"
  end%string.

Definition x86_present (c : Z) : bool := bf_get 0 1 c =? 1.
Definition x86_large (c : Z) : bool := bf_get 7 1 c =? 1.

Definition x86_is_dir (x64 : bool) (lev c : Z) : bool :=
  if x64 then
    if lev =? 1 then x86_present c
    else if lev =? 2 then x86_present c && negb (x86_large c)
    else if lev =? 3 then x86_present c && negb (x86_large c) else false
  else if lev =? 1 then x86_present c && negb (x86_large c) else false.

Definition x86_is_map (x64 : bool) (lev c : Z) : bool :=
  if x64 then
    if lev =? 1 then false
    else if lev =? 2 then x86_present c && x86_large c
    else if lev =? 3 then x86_present c && x86_large c
    else if lev =? 4 then x86_present c else false
  else if lev =? 1 then x86_present c && x86_large c
  else if lev =? 2 then x86_present c else false.

Definition x86_is_inv (x64 : bool) (lev c : Z) : bool :=
  if (1 <=? lev) && (lev <=? (if x64 then 4 else 2)) then negb (x86_present c) else false.

Definition x86_index2va (x64 : bool) (lev index : Z) : Z :=
  if x64 then
    if lev =? 1 then u64 (index * 0x8000000000 + if index <? 0x100 then 0 else 0xffff000000000000)
    else if lev =? 2 then u64 (index * 0x40000000)
    else if lev =? 3 then u64 (index * 0x200000)
    else if lev =? 4 then u64 (index * 0x1000) else 0
  else if lev =? 1 then u32 (index * 0x400000)
  else if lev =? 2 then u32 (index * 0x1000) else 0.

Definition x86_ptables (x64 : bool) : list level :=
  if x64 then [MkLevel 1 47 39; MkLevel 2 38 30; MkLevel 3 29 21; MkLevel 4 20 12]
  else [MkLevel 1 31 22; MkLevel 2 21 12].

Definition x86 (x64 : bool) : Mmu := {|
  mmu_set_dir := x86_set_dir x64; mmu_set_map := x86_set_map x64; mmu_set_inv := x86_set_inv;
  mmu_get_dir_pa := x86_get_dir_pa x64; mmu_get_map_pa := x86_get_map_pa x64;
  mmu_get_map_cached := x86_get_map_cached x64; mmu_map_acc := x86_map_acc x64;
  mmu_is_dir := x86_is_dir x64; mmu_is_map := x86_is_map x64; mmu_is_inv := x86_is_inv x64;
  ptables := x86_ptables x64; ktables := drop (if x64 then 3 else 1) (x86_ptables x64); use_ctxtb := false;
  word_bytes := if x64 then 8 else 4; addr_w := if x64 then 64 else 32 |}.

(** * The laws of the four formats *)

Lemma int_shl_small x n : 0 <= n -> 0 <= x -> x * 2 ^ n < 2 ^ 31 -> int_shl x n = x * 2 ^ n.
Proof.
  intros Hn Hx Hb. unfold int_shl, signed. rewrite Z.shiftl_mul_pow2 by lia.
  assert (0 <= x * 2 ^ n) by (apply Z.mul_nonneg_nonneg; [lia | apply Z.pow_nonneg; lia]).
  rewrite (wrap_small 32) by (unfold in_range; lia). change (2 ^ (32 - 1)) with (2 ^ 31).
  destruct (Z.ltb_spec (x * 2 ^ n) (2 ^ 31)); [| lia]. apply wrap_small. unfold in_range. lia.
Qed.

(** The frame number of an aligned address, read back and shifted up. *)
Lemma frame_roundtrip w n x : 0 <= w -> 0 <= n -> 0 <= x < 2 ^ (w + n) -> (2 ^ n | x) ->
  wrap w (Z.shiftr x n) * 2 ^ n = x /\ 0 <= wrap w (Z.shiftr x n).
Proof.
  intros Hw Hn Hx Hd. rewrite Z.shiftr_div_pow2 by lia. rewrite Z.pow_add_r in Hx by lia.
  assert (0 < 2 ^ n) by (apply Z.pow_pos_nonneg; lia).
  rewrite wrap_small; [split |].
  - rewrite Z.mul_comm. symmetry. apply Z.div_exact; [lia |]. by apply Z.mod_divide; [lia |].
  - apply Z.div_pos; lia.
  - split; [apply Z.div_pos; lia |]. apply Z.div_lt_upper_bound; lia.
Qed.

Lemma int_shl_frame w n x : 0 <= w -> 0 <= n -> 0 <= x < 2 ^ (w + n) -> x < 2 ^ 31 -> (2 ^ n | x) ->
  int_shl (wrap w (Z.shiftr x n)) n = x.
Proof.
  intros Hw Hn Hx Hb Hd. destruct (frame_roundtrip w n x Hw Hn Hx Hd) as [E Hp].
  rewrite int_shl_small; [exact E | lia | lia | lia].
Qed.

Lemma b2z_bit k : 0 <= k <= 1 -> wrap 1 k = k.
Proof. intros. apply wrap_small. unfold in_range. simpl. lia. Qed.

(** Turn the masks of the SPARC cells into bit ranges. *)
Lemma mask_hi n m : 0 <= n -> 0 <= m -> (Z.shiftl (Z.ones m) n) = (2 ^ m - 1) * 2 ^ n.
Proof. intros. rewrite Z.shiftl_mul_pow2, Z.ones_equiv by lia. lia. Qed.

Lemma sparc_set_map_fields lev c pa a k : 0 <= pa < 2 ^ 32 -> 0 <= a <= 7 -> 0 <= k <= 1 ->
  sparc_set_map lev c pa a k = bf_set 0 2 2 (bf_set 2 3 a (bf_set 7 1 k (bf_set 8 24 (Z.shiftr pa 12) 0))).
Proof.
  intros Hp Ha Hk. unfold sparc_set_map, Et_pte. apply Z.bits_inj'. intros i Hi.
  change 0xffffff00 with (Z.shiftl (Z.ones 24) 8). rewrite !bf_set_spec by lia. unfold wrap.
  destruct (Z.lt_ge_cases i 32).
  2: { rewrite Z.mod_pow2_bits_high by lia. bit_cases. by rewrite Z.bits_0. }
  rewrite Z.mod_pow2_bits_low by lia. rewrite !Z.lor_spec, Z.land_spec, !Z.shiftl_spec, testbit_ones, !Z.shiftr_spec by lia.
  assert (T2 : Z.testbit 2 i = (i =? 1)) by (change 2 with (2 ^ 1); rewrite Z.pow2_bits_eqb by lia; apply Z.eqb_sym).
  rewrite T2.
  assert (Kh : forall j, 1 <= j -> Z.testbit k j = false) by (intros; apply (in_range_testbit 1); unfold in_range; lia).
  assert (Ah : forall j, 3 <= j -> Z.testbit a j = false) by (intros; apply (in_range_testbit 3); unfold in_range; lia).
  bit_cases; rewrite ?Z.shiftr_spec, ?andb_true_r, ?andb_false_r, ?orb_false_r by lia;
    rewrite ?(Z.testbit_neg_r _ (i - 7)), ?(Z.testbit_neg_r _ (i - 2)), ?Kh, ?Ah by lia; simpl; try done.
  all: try (assert (i = 0 \/ i = 1) as [-> | ->] by lia; done).
  all: try (f_equal; lia).
  all: rewrite ?Z.bits_0, ?orb_false_r; try done; f_equal; lia.
Qed.

Lemma sparc_set_dir_fields lev c tb : 0 <= tb < 2 ^ 32 ->
  sparc_set_dir lev c tb = bf_set 0 2 1 (bf_set 2 30 (Z.shiftr tb 6) 0).
Proof.
  intros Hp. unfold sparc_set_dir, Et_ptd. apply Z.bits_inj'. intros i Hi.
  change 3 with (Z.ones 2). rewrite !bf_set_spec by lia. unfold wrap.
  destruct (Z.lt_ge_cases i 32).
  2: { rewrite Z.mod_pow2_bits_high by lia. bit_cases. by rewrite Z.bits_0. }
  rewrite Z.mod_pow2_bits_low by lia. rewrite !Z.lor_spec, Z.ldiff_spec, testbit_ones, !Z.shiftr_spec by lia.
  assert (T1 : Z.testbit 1 i = (i =? 0)) by (change 1 with (2 ^ 0); rewrite Z.pow2_bits_eqb by lia; apply Z.eqb_sym).
  rewrite T1. bit_cases; rewrite ?Z.shiftr_spec, ?andb_true_r, ?andb_false_r, ?orb_false_r by lia; simpl; try done.
  all: try (assert (i = 0 \/ i = 1) as [-> | ->] by lia; done).
  all: rewrite ?Z.bits_0; try done; f_equal; lia.
Qed.

Lemma land_field n w c : 0 <= n -> 0 <= w -> Z.land c (Z.shiftl (Z.ones w) n) = Z.shiftl (bf_get n w c) n.
Proof.
  intros Hn Hw. apply Z.bits_inj'. intros i Hi. rewrite Z.land_spec, !Z.shiftl_spec by lia.
  rewrite bf_get_spec, testbit_ones by lia. replace (i - n + n) with i by lia. apply andb_comm.
Qed.

(** A cell field that holds an address: shift down, store, read, shift up. *)
Lemma sparc_frame w n x : 0 <= w <= 32 -> 0 <= n -> w + n = 36 -> 0 <= x < 2 ^ 32 -> (2 ^ n | x) ->
  u32 (Z.shiftl (Z.shiftl (wrap w (Z.shiftr x n)) (32 - w)) 4) = x.
Proof.
  intros Hw Hn Hs Hx Hd. assert (2 ^ 32 < 2 ^ 36) by (apply Z.pow_lt_mono_r; lia).
  destruct (frame_roundtrip w n x ltac:(lia) Hn) as [E Hp]; [rewrite Hs; lia | done |].
  rewrite Z.shiftl_shiftl by lia. replace (32 - w + 4) with n by lia. rewrite Z.shiftl_mul_pow2, E by lia.
  apply wrap_small. unfold in_range. lia.
Qed.

(** Every page size is a multiple of the smallest page. *)
Lemma page_divides l n x : 0 <= n <= Index_low l -> (Page_sz l | x) -> (2 ^ n | x).
Proof.
  intros Hn Hd. apply Z.divide_trans with (Page_sz l); [| done]. unfold Page_sz. rewrite Z.shiftl_mul_pow2 by lia.
  replace (Index_low l) with (Index_low l - n + n) by lia. rewrite Z.pow_add_r by lia. exists (2 ^ (Index_low l - n)). lia.
Qed.

(** Case analysis on a level of a concrete format. *)
Ltac levels H := cbn in H; repeat (apply elem_of_cons in H as [-> | H]); [.. | by apply elem_of_nil in H].

(** The geometry of a concrete format, by computation. *)
Ltac geometry h :=
  exists h; split_and!; [cbn; repeat split; lia | cbn; lia | cbn; lia |];
  lazy [ptables sparc arm x86 sparc_ptables arm_ptables x86_ptables];
  repeat (apply Forall_cons_2; [apply Z.mod_divide; [lia | reflexivity] |]); apply Forall_nil_2.

#[global, program] Instance sparc_spec : MmuSpec sparc := {|
  dir_limit := 2 ^ 32; map_limit := fun _ => 2 ^ 32; dir_align := 2 ^ 6; acc_max := 7;
  has_dir := fun _ => true; has_map := fun _ => true |}.
Next Obligation. geometry 31. Qed.
Next Obligation. split_and!; intros; lia. Qed.
Next Obligation.
  intros lev c tb _ Ht Hd. cbn [mmu_is_dir mmu_get_dir_pa mmu_set_dir sparc].
  rewrite sparc_set_dir_fields by lia. unfold sparc_is_dir, sparc_get_dir_pa, Et_mask.
  change 0xfffffffc with (Z.shiftl (Z.ones 30) 2). rewrite land_field by lia.
  change 3 with (Z.shiftl (Z.ones 2) 0). rewrite land_field by lia. bf_simpl.
  split; [reflexivity |]. by apply (sparc_frame 30 6).
Qed.
Next Obligation.
  intros l c pa a k Hl _ Hp Hd Ha Hk c'. subst c'.
  cbn [mmu_is_map mmu_get_map_pa mmu_map_acc mmu_get_map_cached mmu_set_map sparc].
  rewrite sparc_set_map_fields by lia. unfold sparc_is_map, sparc_get_map_pa, sparc_map_acc, sparc_get_map_cached, Et_mask.
  change 0xffffff00 with (Z.shiftl (Z.ones 24) 8). rewrite land_field by lia.
  change (Z.land ?x 3) with (bf_get 0 2 x).
  change (Z.land (Z.shiftr ?x 2) 7) with (bf_get 2 3 x). change (Z.land (Z.shiftr ?x 7) 1) with (bf_get 7 1 x).
  bf_simpl. split_and!; [reflexivity | | apply wrap_small; unfold in_range; lia | by apply b2z_bit].
  apply (sparc_frame 24 12); [lia | lia | lia | lia |]. levels Hl; (eapply page_divides; [| exact Hd]; cbn; lia).
Qed.
Next Obligation. intros. by split. Qed.
Next Obligation.
  intros lev c. cbn. unfold sparc_is_dir, sparc_is_map, sparc_is_inv.
  split; intros ->%Z.eqb_eq; [split |]; reflexivity.
Qed.

#[global, program] Instance arm_spec : MmuSpec arm := {|
  dir_limit := 2 ^ 31; map_limit := fun _ => 2 ^ 31; dir_align := 2 ^ 10; acc_max := 3;
  has_dir := fun lev => lev =? 1; has_map := fun _ => true |}.
Next Obligation. geometry 31. Qed.
Next Obligation. split_and!; intros; lia. Qed.
Next Obligation.
  intros lev c tb ->%Z.eqb_eq Ht Hd. cbn [mmu_is_dir mmu_get_dir_pa mmu_set_dir arm].
  unfold arm_is_dir, arm_get_dir_pa, arm_set_dir, arm_type. simpl (1 =? 1). cbn iota. bf_simpl.
  split; [reflexivity |]. apply int_shl_frame; lia || done.
Qed.
Next Obligation.
  intros l c pa a k Hl _ Hp Hd Ha Hk c'. subst c'. assert (wrap 2 a = a) by (apply wrap_small; unfold in_range; lia).
  pose proof (b2z_bit k Hk).
  levels Hl; cbn [mmu_is_map mmu_get_map_pa mmu_map_acc mmu_get_map_cached mmu_set_map arm Level];
    unfold arm_is_map, arm_get_map_pa, arm_map_acc, arm_get_map_cached, arm_set_map, arm_type;
    cbn [Z.eqb Pos.eqb]; unfold _mmu_set_l1_map, _mmu_set_l2_map; bf_simpl;
    (split_and!; [reflexivity | | done | done]); (apply int_shl_frame; [lia | lia | simpl Z.add; lia | lia | exact Hd]).
Qed.
Next Obligation. intros l c Hl. levels Hl; split; reflexivity. Qed.
Next Obligation.
  intros lev c. cbn. unfold arm_is_dir, arm_is_map, arm_is_inv.
  split; destruct (lev =? 1), (lev =? 2); try done; intros ->%Z.eqb_eq; by try split.
Qed.

Lemma x86_acc_roundtrip a : 0 <= a <= 3 ->
  _mmu_make_acc (wrap 1 (Z.b2z (_mmu_acc_user a))) (wrap 1 (Z.b2z (_mmu_acc_wr a))) = a.
Proof. intros. assert (a = 0 \/ a = 1 \/ a = 2 \/ a = 3) as [->|[->|[->| ->]]] by lia; reflexivity. Qed.

Lemma x86_cache_roundtrip k : 0 <= k <= 1 -> Z.b2z (wrap 1 (Z.b2z (k =? 0)) =? 0) = k.
Proof. intros. assert (k = 0 \/ k = 1) as [-> | ->] by lia; reflexivity. Qed.

(** The flags a map entry reads back, whatever its address fields hold. *)
Lemma map_flags_read a k raw : 0 <= a <= 3 -> 0 <= k <= 1 ->
  bf_get 0 1 (map_flags a k raw) = 1 /\ bf_get 7 1 (map_flags a k raw) = bf_get 7 1 raw /\
  _mmu_make_acc (bf_get 2 1 (map_flags a k raw)) (bf_get 1 1 (map_flags a k raw)) = a /\
  Z.b2z (bf_get 4 1 (map_flags a k raw) =? 0) = k.
Proof.
  intros Ha Hk. unfold map_flags. bf_simpl.
  split_and!; [reflexivity | done | by apply x86_acc_roundtrip | by apply x86_cache_roundtrip].
Qed.

Lemma map_flags_addr lo w a k raw : 7 <= lo -> 0 <= w -> bf_get lo w (map_flags a k raw) = bf_get lo w raw.
Proof. intros. unfold map_flags. bf_simpl. done. Qed.

Lemma dir_flags_read lo w raw : 5 <= lo -> 0 <= w ->
  bf_get 0 1 (dir_flags raw) = 1 /\ bf_get lo w (dir_flags raw) = bf_get lo w raw.
Proof. intros. unfold dir_flags. bf_simpl. done. Qed.

Lemma u64_frame w n x : 0 <= w -> 0 <= n -> w + n <= 64 -> 0 <= x < 2 ^ (w + n) -> (2 ^ n | x) ->
  u64 (Z.shiftl (wrap w (Z.shiftr x n)) n) = x.
Proof.
  intros Hw Hn Hs Hx Hd. destruct (frame_roundtrip w n x Hw Hn Hx Hd) as [E Hp].
  rewrite Z.shiftl_mul_pow2, E by lia. apply wrap_small.
  assert (2 ^ (w + n) <= 2 ^ 64) by (apply Z.pow_le_mono_r; lia). unfold in_range. lia.
Qed.

Lemma dir_paddr_read x64 c x : bf_get 12 (Paddr_width x64 - 12) c = wrap (Paddr_width x64 - 12) (Z.shiftr x 12) ->
  0 <= x < (if x64 then 2 ^ 52 else 2 ^ 31) -> (2 ^ 12 | x) -> dir_paddr x64 c = x.
Proof.
  intros E Hx Hd. unfold dir_paddr. rewrite E. destruct x64; unfold Paddr_width.
  - apply u64_frame; [lia | lia | lia | exact Hx | done].
  - apply int_shl_frame; [lia | lia | change (32 - 12 + 12) with 32; lia | lia | done].
Qed.

Lemma PDT_map_read (x64 : bool) pa a k : 0 <= pa < 2 ^ 31 -> (2 ^ (if x64 then 21 else 22) | pa) ->
  PDT_map_paddr x64 (PDT_map_set x64 pa a k) = pa.
Proof.
  intros Hp Hd. unfold PDT_map_paddr, PDT_map_set. rewrite !map_flags_addr by lia.
  assert (Hz : Z.shiftr pa 32 = 0) by (rewrite Z.shiftr_div_pow2 by lia; apply Z.div_small; lia).
  destruct x64; bf_simpl; rewrite Hz; change (wrap 20 0) with 0; change (wrap 4 0) with 0; rewrite Z.shiftl_0_l, Z.lor_0_l;
    (apply int_shl_frame; [lia | lia | simpl Z.add; lia | lia | exact Hd]).
Qed.

Lemma PT_map_read (x64 : bool) pa a k : 0 <= pa < (if x64 then 2 ^ 52 else 2 ^ 31) -> (2 ^ 12 | pa) ->
  dir_paddr x64 (PT_map_set x64 pa a k) = pa.
Proof.
  intros Hp Hd. apply dir_paddr_read; [| done | done]. unfold PT_map_set.
  destruct x64; unfold Paddr_width; rewrite map_flags_addr by lia; bf_simpl; done.
Qed.

#[global, program] Instance x86_spec x64 : MmuSpec (x86 x64) := {|
  dir_limit := if x64 then 2 ^ 52 else 2 ^ 31;
  map_limit := fun lev => if x64 && (lev =? 4) then 2 ^ 52 else 2 ^ 31; dir_align := 2 ^ 12; acc_max := 3;
  has_dir := fun lev => (1 <=? lev) && (lev <=? (if x64 then 3 else 1));
  has_map := fun lev => if x64 then 3 <=? lev else true |}.
Next Obligation. intros []; [geometry 47 | geometry 31]. Qed.
Next Obligation. intros []; split_and!; intros; try destruct (_ && _); lia. Qed.
Next Obligation.
  intros x64 lev c tb Hl Ht Hd. cbn [mmu_is_dir mmu_get_dir_pa mmu_set_dir x86].
  assert (G : x86_get_dir_pa x64 lev (x86_set_dir x64 lev c tb) = dir_paddr x64 (x86_set_dir x64 lev c tb) /\
    bf_get 12 (Paddr_width x64 - 12) (x86_set_dir x64 lev c tb) = wrap (Paddr_width x64 - 12) (Z.shiftr tb 12) /\
    x86_is_dir x64 lev (x86_set_dir x64 lev c tb) = true) .
  { apply andb_prop in Hl as [H1%Z.leb_le H2%Z.leb_le].
    assert (lev = 1 \/ x64 = true /\ (lev = 2 \/ lev = 3)) as [-> | [-> [-> | ->]]] by (destruct x64; lia);
      [destruct x64 | |]; split_and!; try reflexivity;
      unfold x86_is_dir, x86_present, x86_large, x86_set_dir, PDT_dir_set, PML4T_dir_set, Paddr_width; cbn [Z.eqb Pos.eqb];
      unfold dir_flags; bf_simpl; reflexivity. }
  destruct G as (-> & G & ->). split; [done |]. by apply dir_paddr_read.
Qed.
Next Obligation.
  intros x64 l c pa a k Hl Hm Hp Hd Ha Hk c'. subst c'. cbn beta in *.
  destruct x64; levels Hl; try discriminate Hm;
    cbn [mmu_is_map mmu_get_map_pa mmu_map_acc mmu_get_map_cached mmu_set_map x86 Level] in *;
    unfold x86_is_map, x86_get_map_pa, x86_map_acc, x86_get_map_cached, x86_set_map, x86_has_map, x86_present, x86_large;
    cbn [Z.eqb Pos.eqb Z.leb Z.compare Pos.compare Pos.compare_cont andb];
    first [rewrite PDT_map_read by (exact Hd || exact Hp); unfold PDT_map_set
          | unfold PT_map_paddr; rewrite PT_map_read by (exact Hd || exact Hp); unfold PT_map_set];
    match goal with |- context [map_flags a k ?r] => destruct (map_flags_read a k r Ha Hk) as (E0 & E7 & Ea & Ec); rewrite ?E7, E0, Ea, Ec end;
    (split_and!; [bf_simpl; reflexivity | done..]).
Qed.
Next Obligation. intros [] l c Hl; levels Hl; by split. Qed.
Next Obligation.
  intros x64 lev c. cbn. unfold x86_is_dir, x86_is_map, x86_is_inv.
  destruct (x86_present c); simpl; [| by destruct x64; split; repeat case_match].
  destruct (x86_large c), x64; split; repeat case_match; try done; simpl; intros; split; try done;
    by destruct (_ && _).
Qed.

(** the cell formats round-trip: on every level that has map records, a
    record written for a page-aligned address reads back the same address,
    access and cacheability, is recognised as a map record and as nothing
    else; likewise directory records.  SPARC holds 32-bit physical addresses,
    ARM and 32-bit x86 31-bit ones, x86-64 4 kB pages 52-bit and 2 MB pages
    31-bit ones. *)
Theorem cells_roundtrip :
  (forall lev c pa a k, 0 <= pa < 2 ^ 32 -> (2 ^ 12 | pa) -> 0 <= a <= 7 -> 0 <= k <= 1 ->
     let w := sparc_set_map lev c pa a k in
     sparc_is_map lev w = true /\ sparc_is_dir lev w = false /\ sparc_is_inv lev w = false /\
     (sparc_get_map_pa lev w, sparc_map_acc lev w, sparc_get_map_cached lev w) = (pa, a, k)) /\
  (forall l c pa a k, l ∈ arm_ptables -> 0 <= pa < 2 ^ 31 -> (Page_sz l | pa) -> 0 <= a <= 3 -> 0 <= k <= 1 ->
     let w := arm_set_map (Level l) c pa a k in
     arm_is_map (Level l) w = true /\
     (arm_get_map_pa (Level l) w, arm_map_acc (Level l) w, arm_get_map_cached (Level l) w) = (pa, a, k)) /\
  (forall x64 l c pa a k, l ∈ x86_ptables x64 -> (if x64 then 3 <=? Level l else true) = true ->
     0 <= pa < (if x64 && (Level l =? 4) then 2 ^ 52 else 2 ^ 31) -> (Page_sz l | pa) -> 0 <= a <= 3 -> 0 <= k <= 1 ->
     let w := x86_set_map x64 (Level l) c pa a k in
     x86_is_map x64 (Level l) w = true /\
     (x86_get_map_pa x64 (Level l) w, x86_map_acc x64 (Level l) w, x86_get_map_cached x64 (Level l) w) = (pa, a, k)) /\
  (forall lev c tb, 0 <= tb < 2 ^ 32 -> (2 ^ 6 | tb) ->
     sparc_is_dir lev (sparc_set_dir lev c tb) = true /\ sparc_get_dir_pa lev (sparc_set_dir lev c tb) = tb).
Proof.
  split_and!.
  - intros lev c pa a k Hp Hd Ha Hk w.
    destruct (spec_map (MmuSpec := sparc_spec) (MkLevel 3 17 12) c pa a k) as (E1 & E2 & E3 & E4); try done.
    { cbn. by do 2 right; left. }
    destruct (spec_excl (MmuSpec := sparc_spec) lev w) as [X1 X2]. split_and!; [exact E1 | | by apply X2 |].
    + destruct (sparc_is_dir lev w) eqn:Ed; [| done]. destruct (X1 Ed) as [Em _].
      assert (Ew : sparc_is_map lev w = true) by exact E1. assert (En : sparc_is_map lev w = false) by exact Em. congruence.
    + unfold w. f_equal; [f_equal |]; done.
  - intros l c pa a k Hl Hp Hd Ha Hk w. destruct (spec_map (MmuSpec := arm_spec) l c pa a k) as (E1 & E2 & E3 & E4); try done.
    split; [exact E1 |]. unfold w. f_equal; [f_equal |]; done.
  - intros x64 l c pa a k Hl Hm Hp Hd Ha Hk w.
    destruct (spec_map (MmuSpec := x86_spec x64) l c pa a k) as (E1 & E2 & E3 & E4); try done.
    split; [exact E1 |]. unfold w. f_equal; [f_equal |]; done.
  - intros lev c tb Ht Hd. by apply (spec_dir (MmuSpec := sparc_spec)).
Qed.

(** the formats lose physical addresses beyond these limits: the SPARC
    reads shift in the 32-bit word, the ARM and x86 address fields are
    sign-extended from bit 31, and an x86-64 record for a 1 GB page does not
    hold the address of the page at all. *)
Theorem cells_lose_high_addresses :
  sparc_get_map_pa 3 (sparc_set_map 3 0 0x100001000 3 1) = 0x1000 /\
  arm_get_map_pa 1 (arm_set_map 1 0 0x80000000 3 1) = 0xffffffff80000000 /\
  arm_get_map_pa 2 (arm_set_map 2 0 0x80000000 3 1) = 0xffffffff80000000 /\
  x86_get_map_pa false 2 (x86_set_map false 2 0 0x80000000 3 1) = 0xffffffff80000000 /\
  x86_get_map_pa true 3 (x86_set_map true 3 0 0x80000000 3 1) = 0xffffffff80000000 /\
  x86_get_map_pa true 2 (x86_set_map true 2 0 0x40000000 3 1) <> 0x40000000.
Proof. split_and!; vm_compute; congruence. Qed.

Lemma cells_roundtrip_witness :
  sparc_get_map_pa 1 (sparc_set_map 1 0 0x40000000 7 0) = 0x40000000 /\
  arm_get_map_pa 2 (arm_set_map 2 0 0x20001000 3 1) = 0x20001000 /\
  x86_get_map_pa true 4 (x86_set_map true 4 0 0x123456000 2 1) = 0x123456000.
Proof.
  destruct cells_roundtrip as (S & A & X & _). split_and!.
  - destruct (S 1 0 0x40000000 7 0) as (_ & _ & _ & E); [lia | by exists 0x40000 | lia | lia |]. exact (f_equal (fun p => p.1.1) E).
  - destruct (A (MkLevel 2 19 12) 0 0x20001000 3 1) as (_ & E); [by right; left | lia | by exists 0x20001 | lia | lia |]. exact (f_equal (fun p => p.1.1) E).
  - destruct (X true (MkLevel 4 20 12) 0 0x123456000 2 1) as (_ & E);
      [by right; right; right; left | done | simpl; lia | by exists 0x123456 | lia | lia |]. exact (f_equal (fun p => p.1.1) E).
Defined.
