(* ===== verification/Ptable.v ===== *)
(** krn/ptable.h: multi-level page tables.

    A table is a list of cell words stored at its kernel virtual address;
    [tabs] is the part of kernel memory that holds tables, so that a
    directory record is a real pointer: the physical address in the cell's
    word, turned back into a virtual address by [kmem_vaddr].  [Ptable]'s
    template recursion over [Child_ptable] is recursion over the list of
    levels; the empty list is [Ptable_terminator].  New tables come from the
    kernel heap through the interface [TableHeap], which Aspace.v discharges
    with [Kmem].  Each while loop visits at most one cell per iteration, so
    [Table_sz + 2] iterations of fuel are enough (proved below). *)

From Stdlib Require Import ZArith Lia Bool.
From stdpp Require Import base gmap list numbers.
From S2P Require Import Prelude SysUtils Mmu.

(** The allocator the tables come from. *)
Class TableHeap (H : Type) := {
  th_alloc : H -> Z -> Z -> res (Z * H);
  th_free : H -> Z -> res H }.

(** Constants of Aspace used here: the range of kernel memory, its distance
    to the physical addresses, and the start of the kernel space. *)
Record vspace := MkVspace { kmem_start : Z; kmem_size : Z; _diff_kva_kpa : Z; Kern_va : Z }.

Record pstate (H : Type) := MkP { tabs : gmap Z (list Z); kheap : H }.
Arguments MkP {H}. Arguments tabs {H}. Arguments kheap {H}.

Definition Kspace_sz : Z := 16 * 0x100000.

Definition mmu_isalign (val algn : Z) : bool := Z.land val (algn - 1) =? 0.

Section Ptable.
Context {M : Mmu} {H : Type} `{TableHeap H} (vs : vspace).

Abbreviation addr_t := (wrap addr_w).

(** Region::inside on _ranges.kmem *)
Definition kmem_inside (va sz : Z) : bool :=
  (kmem_start vs <=? va) && (addr_t (va + sz) <=? addr_t (kmem_start vs + kmem_size vs)).

Definition kmem_paddr (va sz : Z) : res Z :=
  _ ← wassert (kmem_inside va sz); Ok (u64 (va - _diff_kva_kpa vs)).

Definition kmem_vaddr (pa sz : Z) : res Z :=
  let va := addr_t (pa + _diff_kva_kpa vs) in
  _ ← wassert (kmem_inside va sz); Ok va.

Definition create_table (st : pstate H) (sz : Z) : res (Z * pstate H) :=
  p ← th_alloc (kheap st) sz sz;
  if p.1 =? 0 then Stop FPanic
  else Ok (p.1, MkP (<[p.1 := replicate (Z.to_nat (sz / word_bytes)) 0]> (tabs st)) p.2).

Definition cell_index (l : level) (va : Z) : nat :=
  Z.to_nat (Z.shiftr (Z.land va (Index_mask l)) (Index_low l)).

(** [*get_cell(va)] and the assignment to it. *)
Definition get_cell (st : pstate H) (l : level) (tb va : Z) : res Z :=
  t ← from_opt FMem (tabs st !! tb); from_opt FMem (t !! cell_index l va).
Definition set_cell (st : pstate H) (l : level) (tb va w : Z) : res (pstate H) :=
  t ← from_opt FMem (tabs st !! tb);
  _ ← from_opt FMem (t !! cell_index l va);
  Ok (MkP (<[tb := <[cell_index l va := w]> t]> (tabs st)) (kheap st)).

(** Child_ptable::Table_bytes; 0 for the terminator. *)
Definition child_bytes (ls : list level) : Z :=
  match ls with [] => 0 | l :: _ => Table_bytes l end.

(** The child table a cell leads to, created when the cell is invalid. *)
Definition child_table (st : pstate H) (l : level) (ls : list level) (tb va c : Z) : res (Z * pstate H) :=
  let child_sz := child_bytes ls in
  if mmu_is_inv (Level l) c then
    p ← create_table st child_sz;
    pa ← kmem_paddr p.1 child_sz;
    st' ← set_cell p.2 l tb va (mmu_set_dir (Level l) c pa);
    Ok (p.1, st')
  else if mmu_is_dir (Level l) c then
    va ← kmem_vaddr (mmu_get_dir_pa (Level l) c) child_sz; Ok (va, st)
  else Stop FPanic.

(** The bytes of [rest] that lie in the cell of [va]. *)
Definition cell_len (l : level) (va rest : Z) : Z :=
  Z.min rest (Page_sz l - Z.land va (Offset_mask l)).

Definition loop_fuel (l : level) : nat := Z.to_nat (Table_sz l + 2).

(** ** map *)

Fixpoint map_loop (child : pstate H -> Z -> Z -> Z -> Z -> res (pstate H)) (l : level) (ls : list level)
    (fuel : nat) (st : pstate H) (tb vaddr paddr va rest access cachable : Z) (over : bool) : res (pstate H) :=
  if rest =? 0 then Ok st else
  match fuel with
  | O => Stop FFuel
  | S fuel =>
      c ← get_cell st l tb va;
      if (Z.land va (Offset_mask l) =? 0) && (Page_sz l <=? rest) then
        if negb over && mmu_is_map (Level l) c then Stop FPanic
        else if mmu_is_dir (Level l) c then Stop FPanic
        else
          st' ← set_cell st l tb va (mmu_set_map (Level l) c (u64 (paddr + va - vaddr)) access cachable);
          map_loop child l ls fuel st' tb vaddr paddr (addr_t (va + Page_sz l)) (addr_t (rest - Page_sz l))
            access cachable over
      else
        p ← child_table st l ls tb va c;
        let len := cell_len l va rest in
        st' ← child p.2 p.1 va (u64 (paddr + va - vaddr)) len;
        map_loop child l ls fuel st' tb vaddr paddr (addr_t (va + len)) (addr_t (rest - len)) access cachable over
  end.

Fixpoint ptable_map (ls : list level) (access cachable : Z) (over : bool) (st : pstate H)
    (tb vaddr paddr size : Z) : res (pstate H) :=
  match ls with
  | [] => Stop FPanic
  | l :: ls' =>
      _ ← wassert (mmu_isalign vaddr Cfg_page_sz);
      _ ← wassert (mmu_isalign paddr Cfg_page_sz);
      _ ← wassert (mmu_isalign size Cfg_page_sz);
      _ ← wassert (size <=? Aspace_sz l);
      _ ← wassert (access <? 8);
      _ ← wassert (cachable <? 2);
      map_loop (ptable_map ls' access cachable over) l ls' (loop_fuel l) st tb vaddr paddr vaddr size
        access cachable over
  end.

(** ** unmap *)

Fixpoint unmap_loop (child : pstate H -> Z -> Z -> Z -> res (pstate H)) (l : level) (ls : list level)
    (fuel : nat) (st : pstate H) (tb va rest : Z) : res (pstate H) :=
  if rest =? 0 then Ok st else
  match fuel with
  | O => Stop FFuel
  | S fuel =>
      c ← get_cell st l tb va;
      p ← (if mmu_is_dir (Level l) c then
             t ← kmem_vaddr (mmu_get_dir_pa (Level l) c) (child_bytes ls);
             let len := cell_len l va rest in
             st' ← child st t va len; Ok (len, st')
           else if mmu_is_map (Level l) c then
             if rest <? Page_sz l then Stop FPanic
             else st' ← set_cell st l tb va (mmu_set_inv (Level l) c); Ok (Page_sz l, st')
           else if mmu_is_inv (Level l) c then Ok (Z.min rest (Page_sz l), st)
           else Ok (0, st));
      unmap_loop child l ls fuel p.2 tb (addr_t (va + p.1)) (addr_t (rest - p.1))
  end.

Fixpoint ptable_unmap (ls : list level) (st : pstate H) (tb vaddr size : Z) : res (pstate H) :=
  match ls with
  | [] => Stop FPanic
  | l :: ls' =>
      _ ← wassert (mmu_isalign vaddr Cfg_page_sz);
      _ ← wassert (mmu_isalign size Cfg_page_sz);
      _ ← wassert (size <=? Aspace_sz l);
      unmap_loop (ptable_unmap ls') l ls' (loop_fuel l) st tb vaddr size
  end.

(** ** walk: the physical address of the range, 0 when a part is not mapped *)

Fixpoint walk_loop (child : Z -> Z -> Z -> res Z) (l : level) (ls : list level)
    (fuel : nat) (st : pstate H) (tb pa va rest : Z) : res Z :=
  if rest =? 0 then Ok pa else
  match fuel with
  | O => Stop FFuel
  | S fuel =>
      c ← get_cell st l tb va;
      let len := cell_len l va rest in
      if mmu_is_inv (Level l) c then Ok 0
      else if mmu_is_dir (Level l) c then
        t ← kmem_vaddr (mmu_get_dir_pa (Level l) c) (child_bytes ls);
        r ← child t va len;
        if r =? 0 then Ok 0
        else walk_loop child l ls fuel st tb (if pa =? 0 then r else pa) (addr_t (va + len)) (addr_t (rest - len))
      else if mmu_is_map (Level l) c then
        walk_loop child l ls fuel st tb
          (if pa =? 0 then u64 (mmu_get_map_pa (Level l) c + Z.land va (Offset_mask l)) else pa)
          (addr_t (va + len)) (addr_t (rest - len))
      else Stop FPanic
  end.

Fixpoint ptable_walk (ls : list level) (st : pstate H) (tb vaddr size : Z) : res Z :=
  match ls with
  | [] => Stop FPanic
  | l :: ls' =>
      _ ← wassert (mmu_isalign vaddr Cfg_page_sz);
      _ ← wassert (mmu_isalign size Cfg_page_sz);
      _ ← wassert (size <=? Aspace_sz l);
      walk_loop (ptable_walk ls' st) l ls' (loop_fuel l) st tb 0 vaddr size
  end.

(** ** set_dir, empty, init *)

Fixpoint ptable_set_dir (ls : list level) (st : pstate H) (tb va dir_level dir_tb : Z) : res (pstate H) :=
  match ls with
  | [] => Stop FPanic
  | l :: ls' =>
      c ← get_cell st l tb va;
      if Level l + 1 =? dir_level then
        if mmu_is_inv (Level l) c then
          pa ← kmem_paddr dir_tb (Table_bytes l);
          set_cell st l tb va (mmu_set_dir (Level l) c pa)
        else Stop FPanic
      else
        p ← child_table st l ls' tb va c;
        ptable_set_dir ls' p.2 p.1 va dir_level dir_tb
  end.

Definition ptable_empty (st : pstate H) (l : level) (tb : Z) : res bool :=
  t ← from_opt FMem (tabs st !! tb);
  Ok (forallb (fun c => negb (mmu_is_inv (Level l) c)) t).

Definition ptable_init (st : pstate H) (l : level) (tb : Z) : res (pstate H) :=
  t ← from_opt FMem (tabs st !! tb);
  Ok (MkP (<[tb := replicate (length t) 0]> (tabs st)) (kheap st)).

(** ** Pgtab: the tables of one context, and the kernel tables all share *)

Record pgtabs := MkPg { pg : pstate H; kerntb : list Z; ctxtb : Z }.
Record pgtab := MkPgtab { roottb : Z; ctxid : Z }.

Definition ktab_level : level := hd (MkLevel 0 0 0) ktables.
Definition root_level : level := hd (MkLevel 0 0 0) ptables.
Definition Ktbs : Z := Kspace_sz / Aspace_sz ktab_level.
Definition Ctx_sz : Z := 0x100.
Definition Ctx_bytes : Z := Ctx_sz * word_bytes.

Fixpoint create_tables (n : nat) (st : pstate H) (sz : Z) : res (list Z * pstate H) :=
  match n with
  | O => Ok ([], st)
  | S n => p ← create_table st sz; q ← create_tables n p.2 sz; Ok (p.1 :: q.1, q.2)
  end.

Definition kinit (s : pgtabs) : res pgtabs :=
  _ ← wassert (match kerntb s with [] => true | t :: _ => t =? 0 end);
  p ← (if use_ctxtb then create_table (pg s) Ctx_bytes else Ok (ctxtb s, pg s));
  q ← create_tables (Z.to_nat Ktbs) p.2 (Table_bytes ktab_level);
  Ok (MkPg q.2 q.1 p.1).

(** [ctxtb[ctxid]], a cell of level 0. *)
Definition set_ctx (st : pstate H) (tb ctx : Z) (f : Z -> Z) : res (pstate H) :=
  t ← from_opt FMem (tabs st !! tb);
  c ← from_opt FMem (t !! Z.to_nat ctx);
  Ok (MkP (<[tb := <[Z.to_nat ctx := f c]> t]> (tabs st)) (kheap st)).

Fixpoint set_kernel_tables (tbs : list Z) (i : Z) (st : pstate H) (root : Z) : res (pstate H) :=
  match tbs with
  | [] => Ok st
  | tb :: tbs' =>
      st' ← ptable_set_dir ptables st root (addr_t (Kern_va vs + i * Aspace_sz ktab_level)) (Level ktab_level) tb;
      set_kernel_tables tbs' (i + 1) st' root
  end.

(** The constructor. *)
Definition pgtab_create (s : pgtabs) (ctx : Z) : res (pgtab * pgtabs) :=
  _ ← wassert (ctx <=? 0xff);
  _ ← wassert (match kerntb s with [] => false | t :: _ => negb (t =? 0) end);
  p ← create_table (pg s) (Table_bytes root_level);
  st ← (if use_ctxtb then
          pa ← kmem_paddr p.1 (Table_bytes root_level);
          set_ctx p.2 (ctxtb s) ctx (fun c => mmu_set_dir 0 c pa)
        else Ok p.2);
  st' ← set_kernel_tables (kerntb s) 0 st p.1;
  Ok (MkPgtab p.1 ctx, MkPg st' (kerntb s) (ctxtb s)).

(** The destructor frees the root table only. *)
Definition pgtab_destroy (s : pgtabs) (t : pgtab) : res pgtabs :=
  st ← (if use_ctxtb then set_ctx (pg s) (ctxtb s) (ctxid t) (mmu_set_inv 0) else Ok (pg s));
  h ← th_free (kheap st) (roottb t);
  Ok (MkPg (MkP (delete (roottb t) (tabs st)) h) (kerntb s) (ctxtb s)).

Definition pgtab_map (s : pgtabs) (t : pgtab) (va pa sz access cachable : Z) : res pgtabs :=
  st ← ptable_map ptables access cachable true (pg s) (roottb t) va pa sz;
  Ok (MkPg st (kerntb s) (ctxtb s)).

Definition pgtab_unmap (s : pgtabs) (t : pgtab) (va sz : Z) : res pgtabs :=
  st ← ptable_unmap ptables (pg s) (roottb t) va sz;
  Ok (MkPg st (kerntb s) (ctxtb s)).

Definition pgtab_walk (s : pgtabs) (t : pgtab) (va sz : Z) : res Z :=
  ptable_walk ptables (pg s) (roottb t) va sz.

Definition in_kspace (va sz : Z) : res unit :=
  _ ← wassert ((Kern_va vs <=? va) && (va <? Kern_va vs + Kspace_sz));
  wassert ((Kern_va vs <? addr_t (va + sz)) && (addr_t (va + sz) <=? Kern_va vs + Kspace_sz)).

Definition kern_index (va : Z) : Z := addr_t (va - Kern_va vs) / Aspace_sz ktab_level.
Definition kern_table (s : pgtabs) (i : Z) : res Z := from_opt FMem (kerntb s !! Z.to_nat i).

Fixpoint kmap_loop (fuel : nat) (s : pgtabs) (va pa sz access cachable : Z) : res pgtabs :=
  if sz =? 0 then Ok s else
  match fuel with
  | O => Stop FFuel
  | S fuel =>
      let index := kern_index va in
      _ ← wassert (index <? Ktbs);
      let A := Aspace_sz ktab_level in
      let rest_to_tb_end := A - Z.land va (A - 1) in
      let n := if Z.land va (A - 1) =? 0 then Z.min sz A else Z.min sz rest_to_tb_end in
      tb ← kern_table s index;
      st ← ptable_map ktables access cachable false (pg s) tb va pa n;
      kmap_loop fuel (MkPg st (kerntb s) (ctxtb s)) (addr_t (va + n)) (u64 (pa + n)) (addr_t (sz - n)) access cachable
  end.

Definition kmap (s : pgtabs) (va pa sz access cachable : Z) : res pgtabs :=
  _ ← in_kspace va sz;
  kmap_loop (Z.to_nat (Ktbs + 1)) s va pa sz access cachable.

Definition kunmap (s : pgtabs) (va sz : Z) : res pgtabs :=
  _ ← in_kspace va sz;
  tb ← kern_table s (kern_index va);
  st ← ptable_unmap ktables (pg s) tb va sz;
  Ok (MkPg st (kerntb s) (ctxtb s)).

Definition kwalk (s : pgtabs) (va sz : Z) : res Z :=
  _ ← in_kspace va sz;
  tb ← kern_table s (kern_index va);
  ptable_walk ktables (pg s) tb va sz.

End Ptable.
