(* ===== verification/PtableSpec.v ===== *)
(** Page tables as a partial function from virtual to physical addresses.

    [translate] follows the directory records the way the hardware does; the
    theorems say what [map], [unmap] and [walk] of Ptable.v do to it.  [wf] is
    the shape the tables of one root keep: a tree, every table of the right
    size, every directory record leading to a table of the next level inside
    kernel memory, no table reached twice. *)

From Stdlib Require Import ZArith Lia Bool.
From stdpp Require Import base gmap list numbers relations.
From S2P Require Import Prelude SysUtils Mmu Ptable.

(** ** Geometry: the index arithmetic in div/mod form *)

Section Geometry.
Context (l : level) (Hl : 12 <= Index_low l <= Index_hi l).

Lemma Page_sz_pow : Page_sz l = 2 ^ Index_low l.
Proof using Hl. unfold Page_sz. rewrite Z.shiftl_mul_pow2 by lia. lia. Qed.

Lemma Page_sz_pos : 4096 <= Page_sz l /\ (4096 | Page_sz l).
Proof using Hl.
  rewrite Page_sz_pow. change 4096 with (2 ^ 12).
  split; [apply Z.pow_le_mono_r; lia |]. exists (2 ^ (Index_low l - 12)).
  rewrite <- Z.pow_add_r by lia. f_equal. lia.
Qed.

Lemma Table_sz_pow : Table_sz l = 2 ^ index_bits l /\ 0 < Table_sz l.
Proof using Hl.
  unfold Table_sz, index_bits. rewrite Z.shiftl_mul_pow2 by lia. rewrite Z.mul_1_l.
  split; [done | apply Z.pow_pos_nonneg; lia].
Qed.

Lemma Aspace_sz_mul : Aspace_sz l = Page_sz l * Table_sz l.
Proof using Hl.
  rewrite Page_sz_pow, (proj1 Table_sz_pow). unfold Aspace_sz, index_bits.
  rewrite Z.shiftl_mul_pow2, Z.mul_1_l by lia. rewrite <- Z.pow_add_r by lia. f_equal. lia.
Qed.

Lemma offset_mod va : Z.land va (Offset_mask l) = va mod Page_sz l.
Proof using Hl.
  unfold Offset_mask. rewrite Page_sz_pow, Z.shiftl_mul_pow2, Z.mul_1_l by lia.
  replace (2 ^ Index_low l - 1) with (Z.ones (Index_low l)) by (rewrite Z.ones_equiv; lia).
  by rewrite Z.land_ones by lia.
Qed.

Lemma cell_index_div va : cell_index l va = Z.to_nat ((va / Page_sz l) mod Table_sz l).
Proof using Hl.
  unfold cell_index. f_equal. rewrite Page_sz_pow, (proj1 Table_sz_pow).
  rewrite <- bf_get_div by (unfold index_bits; lia). unfold bf_get, Index_mask.
  rewrite Z.shiftr_land. f_equal. rewrite !Z.shiftl_mul_pow2, Z.mul_1_l by (unfold index_bits; lia).
  rewrite Z.shiftr_div_pow2, Z.div_mul by (try apply Z.pow_nonzero; lia).
  rewrite Z.ones_equiv. lia.
Qed.

Lemma cell_index_lt va : (cell_index l va < Z.to_nat (Table_sz l))%nat.
Proof using Hl.
  rewrite cell_index_div. destruct Table_sz_pow as [_ Ht]. pose proof (Z.mod_pos_bound (va / Page_sz l) _ Ht). lia.
Qed.

(** In one table's address block, equal index means equal cell. *)
Lemma cell_index_inj x y : x / Aspace_sz l = y / Aspace_sz l ->
  cell_index l x = cell_index l y <-> x / Page_sz l = y / Page_sz l.
Proof using Hl.
  rewrite !cell_index_div, Aspace_sz_mul. destruct Page_sz_pos as [Hp _]. destruct Table_sz_pow as [_ Ht].
  rewrite <- !Z.div_div by lia. intros E. split; [| by intros ->]. intros E2.
  pose proof (Z.mod_pos_bound (x / Page_sz l) _ Ht). pose proof (Z.mod_pos_bound (y / Page_sz l) _ Ht).
  rewrite (Z.div_mod (x / Page_sz l) (Table_sz l)), (Z.div_mod (y / Page_sz l) (Table_sz l)) by lia.
  rewrite E. f_equal. lia.
Qed.

(** The cell of [va] starts at [cell_start va]. *)
Definition cell_start (va : Z) : Z := va - va mod Page_sz l.

Lemma cell_start_spec va : cell_start va <= va < cell_start va + Page_sz l /\ cell_start va = Page_sz l * (va / Page_sz l).
Proof using Hl.
  destruct Page_sz_pos as [Hp _]. unfold cell_start. pose proof (Z.mod_pos_bound va (Page_sz l) ltac:(lia)).
  pose proof (Z.div_mod va (Page_sz l) ltac:(lia)). lia.
Qed.

Lemma same_cell va x : x / Page_sz l = va / Page_sz l <-> cell_start va <= x < cell_start va + Page_sz l.
Proof using Hl.
  destruct Page_sz_pos as [Hp _]. destruct (cell_start_spec va) as [_ E]. rewrite E. split.
  - intros Ex. rewrite <- Ex. pose proof (Z.mod_pos_bound x (Page_sz l) ltac:(lia)).
    pose proof (Z.div_mod x (Page_sz l) ltac:(lia)). lia.
  - intros Hx. symmetry. apply Z.div_unique with (x - Page_sz l * (va / Page_sz l)); lia.
Qed.

(** A cell lies in one block. *)
Lemma cell_block va x : x / Page_sz l = va / Page_sz l -> x / Aspace_sz l = va / Aspace_sz l.
Proof using Hl.
  rewrite Aspace_sz_mul. destruct Page_sz_pos as [Hp _]. destruct Table_sz_pow as [_ Ht].
  rewrite <- !Z.div_div by lia. by intros ->.
Qed.

End Geometry.

Lemma isalign_spec x : mmu_isalign x Cfg_page_sz = true <-> (4096 | x).
Proof.
  unfold mmu_isalign, Cfg_page_sz. change (4096 - 1) with (Z.ones 12). rewrite Z.land_ones, Z.eqb_eq by lia.
  change (2 ^ 12) with 4096. apply Z.mod_divide. lia.
Qed.

Lemma block_between a x y z : 0 < a -> x <= y <= z -> x / a = z / a -> y / a = x / a.
Proof.
  intros Ha Hxy E. pose proof (Z.div_le_mono x y a Ha ltac:(lia)). pose proof (Z.div_le_mono y z a Ha ltac:(lia)). lia.
Qed.

Lemma block_size a va size : 0 < a -> 0 < size -> va / a = (va + size - 1) / a -> size <= a.
Proof.
  intros Ha Hs Hb. pose proof (Z.div_mod va a ltac:(lia)). pose proof (Z.mod_pos_bound va a ltac:(lia)).
  pose proof (Z.div_mod (va + size - 1) a ltac:(lia)). pose proof (Z.mod_pos_bound (va + size - 1) a ltac:(lia)).
  rewrite <- Hb in *. lia.
Qed.

(** ** Tables as trees *)

Section Tree.
Context {M : Mmu} {MS : MmuSpec M} (vs : vspace).

Abbreviation store := (gmap Z (list Z)).

(** The table a directory record of level [l] leads to. *)
Definition kid (l : level) (c : Z) : Z := wrap addr_w (mmu_get_dir_pa (Level l) c + _diff_kva_kpa vs).

(** What the MMU makes of a virtual address: physical address, access code
    and cacheability. *)
Fixpoint translate (ls : list level) (m : store) (tb va : Z) : option (Z * Z * Z) :=
  match ls with
  | [] => None
  | l :: ls' =>
      t ← m !! tb; c ← t !! cell_index l va;
      if mmu_is_map (Level l) c then
        Some (mmu_get_map_pa (Level l) c + va mod Page_sz l, mmu_map_acc (Level l) c, mmu_get_map_cached (Level l) c)
      else if mmu_is_dir (Level l) c then translate ls' m (kid l c) va
      else None
  end.

(** The tables below [tb]. *)
Fixpoint reach (ls : list level) (m : store) (tb a : Z) : Prop :=
  match ls with
  | [] => False
  | l :: ls' => a = tb \/ exists t i c, m !! tb = Some t /\ t !! i = Some c /\ mmu_is_dir (Level l) c = true /\
                  reach ls' m (kid l c) a
  end.

Definition known (l : level) (c : Z) : Prop :=
  mmu_is_dir (Level l) c = true \/ mmu_is_map (Level l) c = true \/ mmu_is_inv (Level l) c = true.

Definition dirs (l : level) (t : list Z) (i : nat) (c : Z) : Prop :=
  t !! i = Some c /\ mmu_is_dir (Level l) c = true.

Fixpoint wf (ls : list level) (m : store) (tb : Z) : Prop :=
  match ls with
  | [] => False
  | l :: ls' =>
      exists t, m !! tb = Some t /\ length t = Z.to_nat (Table_sz l) /\ Forall (known l) t /\
        (forall i c, dirs l t i c ->
           wf ls' m (kid l c) /\ kmem_inside vs (kid l c) (child_bytes ls') = true /\ ~ reach ls' m (kid l c) tb) /\
        (forall i j c d a, i <> j -> dirs l t i c -> dirs l t j d -> reach ls' m (kid l c) a -> ~ reach ls' m (kid l d) a)
  end.

Lemma reach_dom ls : forall m tb a, wf ls m tb -> reach ls m tb a -> is_Some (m !! a).
Proof.
  induction ls as [|l ls IH]; intros m tb a; [done |]. intros (t & Et & _ & _ & Hk & _) [-> | (t' & i & c & Et' & Ei & Ed & Hr)].
  - by rewrite Et.
  - simplify_eq. destruct (Hk i c) as (Hw & _ & _); [by split |]. by apply (IH _ _ _ Hw).
Qed.

(** Everything said about the tables of [tb] depends only on those tables. *)
Lemma reach_local ls : forall m m' tb, (forall a, reach ls m tb a -> m' !! a = m !! a) ->
  forall a, reach ls m' tb a <-> reach ls m tb a.
Proof.
  induction ls as [|l ls IH]; intros m m' tb Hm a; [done |]. simpl.
  assert (Et : m' !! tb = m !! tb) by (apply Hm; by left).
  assert (Hk : forall t i c, m !! tb = Some t -> t !! i = Some c -> mmu_is_dir (Level l) c = true ->
    forall a, reach ls m' (kid l c) a <-> reach ls m (kid l c) a).
  { intros t i c E1 E2 E3. apply IH. intros b Hb. apply Hm. right. eauto 10. }
  split; (intros [-> | (t & i & c & E1 & E2 & E3 & Hr)]; [by left | right; exists t, i, c]).
  - rewrite Et in E1. split_and!; try done. by apply (Hk t i c).
  - rewrite Et. split_and!; try done. by apply (Hk t i c).
Qed.

Lemma translate_local ls : forall m m' tb, (forall a, reach ls m tb a -> m' !! a = m !! a) ->
  forall va, translate ls m' tb va = translate ls m tb va.
Proof.
  induction ls as [|l ls IH]; intros m m' tb Hm va; [done |]. simpl.
  rewrite (Hm tb) by (by left). destruct (m !! tb) as [t|] eqn:Et; simpl; [| done].
  destruct (t !! cell_index l va) as [c|] eqn:Ec; simpl; [| done].
  destruct (mmu_is_map (Level l) c); [done |]. destruct (mmu_is_dir (Level l) c) eqn:Ed; [| done].
  apply IH. intros a Ha. apply Hm. right. eauto 10.
Qed.

Lemma wf_local ls : forall m m' tb, (forall a, reach ls m tb a -> m' !! a = m !! a) -> wf ls m tb -> wf ls m' tb.
Proof.
  induction ls as [|l ls IH]; intros m m' tb Hm; [done |]. intros (t & Et & Hlen & Hkn & Hk & Hd).
  assert (Hsub : forall i c, dirs l t i c -> forall a, reach ls m (kid l c) a -> m' !! a = m !! a).
  { intros i c [E1 E2] a Ha. apply Hm. right. eauto 10. }
  exists t. split_and!; try done.
  - rewrite (Hm tb) by (by left). done.
  - intros i c Hi. destruct (Hk i c Hi) as (H1 & H2 & H3). split_and!; [| done |].
    + apply (IH m); [by apply (Hsub i) | done].
    + rewrite (reach_local ls m m'); [done | by apply (Hsub i)].
  - intros i j c d a Hij Hi Hj. rewrite (reach_local ls m m'), (reach_local ls m m');
      [by apply (Hd i j) | by apply (Hsub j) | by apply (Hsub i)].
Qed.

(** ** One step of change below a table *)

(** [m'] differs from [m] only in the tables below [tb] and in new ones. *)
Definition evolves (ls : list level) (m m' : store) (tb : Z) : Prop :=
  wf ls m' tb /\
  (forall a, is_Some (m !! a) -> ~ reach ls m tb a -> m' !! a = m !! a) /\
  (forall a, is_Some (m !! a) -> is_Some (m' !! a)) /\
  (forall a, reach ls m' tb a -> reach ls m tb a \/ m !! a = None).

Lemma evolves_refl ls m tb : wf ls m tb -> evolves ls m m tb.
Proof. intros. split_and!; auto. Qed.

Lemma evolves_trans ls m1 m2 m3 tb : evolves ls m1 m2 tb -> evolves ls m2 m3 tb -> evolves ls m1 m3 tb.
Proof.
  intros (W2 & F2 & D2 & R2) (W3 & F3 & D3 & R3). split_and!; [done | | auto |].
  - intros a Ha Hn. rewrite F3; [by apply F2 | by apply D2 |]. intros [?|E]%R2; [done |]. rewrite E in Ha. by destruct Ha.
  - intros a [Hr|E]%R3; [by apply R2 |]. right. destruct (m1 !! a) eqn:E1; [| done].
    destruct (D2 a) as [x Ex]; [by eexists |]. congruence.
Qed.

(** The cell [i] of table [tb] was rewritten to [c'], and the tables below the
    old cell may have changed. *)
Lemma cell_update l ls m m' tb t i c c' : wf (l :: ls) m tb -> m !! tb = Some t -> t !! i = Some c ->
  m' !! tb = Some (<[i := c']> t) -> known l c' ->
  (forall a, is_Some (m !! a) -> a <> tb -> (mmu_is_dir (Level l) c = true -> ~ reach ls m (kid l c) a) -> m' !! a = m !! a) ->
  (forall a, is_Some (m !! a) -> is_Some (m' !! a)) ->
  (mmu_is_dir (Level l) c' = true ->
     wf ls m' (kid l c') /\ kmem_inside vs (kid l c') (child_bytes ls) = true /\
     (forall a, reach ls m' (kid l c') a ->
        (mmu_is_dir (Level l) c = true /\ reach ls m (kid l c) a) \/ m !! a = None)) ->
  evolves (l :: ls) m m' tb /\
  (forall va, cell_index l va <> i -> translate (l :: ls) m' tb va = translate (l :: ls) m tb va) /\
  (forall j d, j <> i -> dirs l t j d -> forall a, reach ls m (kid l d) a -> m' !! a = m !! a).
Proof.
  intros W Et Ei Et' Hk' Hfr Hdom Hnew. pose proof W as (t0 & Et0 & Hlen & Hkn & Hk & Hd). simplify_eq.
  assert (Hi : (i < length t)%nat) by (by apply lookup_lt_Some in Ei).
  assert (Hoth : forall j d, j <> i -> dirs l t j d -> forall a, reach ls m (kid l d) a -> m' !! a = m !! a).
  { intros j d Hj Hjd a Ha. destruct (Hk j d Hjd) as (Wd & _ & Hn). apply Hfr.
    - by apply (reach_dom _ _ _ _ Wd).
    - intros ->. done.
    - intros Ed Hr. by apply (Hd i j c d a). }
  assert (Hcase : forall j d, dirs l (<[i:=c']> t) j d -> (j = i /\ d = c') \/ (j <> i /\ dirs l t j d)).
  { intros j d [Ej Edj]. destruct (decide (j = i)) as [-> | Hj].
    - rewrite list_lookup_insert_eq in Ej by done. left. naive_solver.
    - rewrite list_lookup_insert_ne in Ej by done. right. by repeat split. }
  assert (Hntb : forall j d, dirs l (<[i:=c']> t) j d -> ~ reach ls m' (kid l d) tb).
  { intros j d Hj Hr. destruct (Hcase j d Hj) as [[-> ->] | [Hne Hj']].
    - destruct (Hnew (proj2 Hj)) as (_ & _ & HR). destruct (HR _ Hr) as [[Ed Hr'] | E]; [| congruence].
      by apply (Hk i c (conj Ei Ed)).
    - rewrite (reach_local ls m m') in Hr by (by apply (Hoth j)). by apply (Hk j d Hj'). }
  assert (Hsep : forall j d a, j <> i -> dirs l t j d -> mmu_is_dir (Level l) c' = true ->
    reach ls m' (kid l c') a -> ~ reach ls m (kid l d) a).
  { intros j d a Hj Hjd Edc' Hr Hr2. destruct (Hnew Edc') as (_ & _ & HR). destruct (HR _ Hr) as [[Ed Hr'] | E].
    - by apply (Hd i j c d a).
    - destruct (reach_dom _ _ _ _ (proj1 (Hk j d Hjd)) Hr2) as [x Ex]. congruence. }
  split_and!; [split_and! | |]; try done.
  - exists (<[i:=c']> t). split_and!; try done.
    + by rewrite length_insert.
    + by apply Forall_insert.
    + intros j d Hj. destruct (Hcase j d Hj) as [[-> ->] | [Hne Hj']].
      * destruct (Hnew (proj2 Hj)) as (? & ? & _). split_and!; [done | done |]. by apply (Hntb i).
      * destruct (Hk j d Hj') as (? & ? & _). split_and!; [| done | by apply (Hntb j)].
        apply (wf_local ls m); [by apply (Hoth j) | done].
    + intros j k d e a Hjk Hj Hk2. destruct (Hcase j d Hj) as [[-> ->] | [Hne Hj']], (Hcase k e Hk2) as [[-> ->] | [Hne2 Hkk]]; [done | | |].
      * intros Hr. rewrite (reach_local ls m m') by (by apply (Hoth k)). apply (Hsep k); try done. apply Hj.
      * rewrite (reach_local ls m m') by (by apply (Hoth j)). intros Hr Hr2. apply (Hsep j d a); try done. apply Hk2.
      * rewrite (reach_local ls m m' (kid l d)) by (by apply (Hoth j)).
        rewrite (reach_local ls m m' (kid l e)) by (by apply (Hoth k)). by apply (Hd j k).
  - intros a Ha Hn. apply Hfr; [done | intros ->; apply Hn; by left |]. intros Ed Hr. apply Hn. right. eauto 10.
  - intros a [-> | (t2 & j & d & E1 & E2 & E3 & Hr)]; [left; by left |].
    assert (t2 = <[i:=c']> t) as -> by congruence.
    destruct (Hcase j d (conj E2 E3)) as [[-> ->] | [Hne Hj']].
    + destruct (Hnew E3) as (_ & _ & HR). destruct (HR _ Hr) as [[Ed Hr'] | E]; [| by right].
      left. right. eauto 10.
    + rewrite (reach_local ls m m') in Hr by (by apply (Hoth j)). left. right. exists t, j, d. destruct Hj'. eauto.
  - intros va Hva. simpl. rewrite Et', Et. simpl. rewrite list_lookup_insert_ne by done.
    destruct (t !! cell_index l va) as [d|] eqn:Ed; simpl; [| done]. destruct (mmu_is_map (Level l) d); [done |].
    destruct (mmu_is_dir (Level l) d) eqn:Edd; [| done]. apply translate_local. by apply (Hoth (cell_index l va)).
Qed.

End Tree.

(** ** The heap interface: what the page tables need from the allocator *)

(** Where a table may live: in kernel memory, at a physical address a
    directory record can hold. *)
Definition table_addr {M : Mmu} {MS : MmuSpec M} (vs : vspace) (a bytes : Z) : Prop :=
  kmem_inside vs a bytes = true /\ 0 < a < 2 ^ addr_w /\
  0 <= a - _diff_kva_kpa vs < dir_limit /\ (dir_align | a - _diff_kva_kpa vs).

(** [th_inv h n]: the heap is consistent and has the bookkeeping for [n] more
    tables.  An allocation then yields a new table address, or the heap is
    out of memory and the kernel panics. *)
Class TableHeapSpec {M : Mmu} {MS : MmuSpec M} (vs : vspace) (H : Type) {TH : TableHeap H} := {
  th_inv : H -> nat -> Prop;
  th_used : H -> Z -> Prop;
  th_inv_le h n k : (k <= n)%nat -> th_inv h n -> th_inv h k;
  th_alloc_spec h n l : th_inv h (S n) -> l ∈ ptables ->
    (exists a h', th_alloc h (Table_bytes l) (Table_bytes l) = Ok (a, h') /\ th_inv h' n /\
       ~ th_used h a /\ th_used h' a /\ (forall x, th_used h x -> th_used h' x) /\
       table_addr vs a (Table_bytes l)) \/
    th_alloc h (Table_bytes l) (Table_bytes l) = Stop FPanic }.

Section Map.
Context {M : Mmu} {MS : MmuSpec M} (vs : vspace) {H : Type} {TH : TableHeap H} {THS : TableHeapSpec vs H}.

Abbreviation store := (gmap Z (list Z)).

Definition heap_ok (st : pstate H) (n : nat) : Prop :=
  th_inv (kheap st) n /\ forall a, is_Some (tabs st !! a) -> th_used (kheap st) a.

Lemma heap_ok_le st n k : (k <= n)%nat -> heap_ok st n -> heap_ok st k.
Proof. intros Hk [I U]. split; [by apply (th_inv_le _ n) | done]. Qed.

(** One table allocation, and running out of memory after some of them. *)
Definition heap_step (h h' : H) : Prop :=
  exists l a, l ∈ ptables /\ th_alloc h (Table_bytes l) (Table_bytes l) = Ok (a, h').
Definition oom (h : H) : Prop :=
  exists h' l, rtc heap_step h h' /\ l ∈ ptables /\ th_alloc h' (Table_bytes l) (Table_bytes l) = Stop FPanic.

Lemma oom_step h h' : rtc heap_step h h' -> oom h' -> oom h.
Proof. intros Hs (h2 & l & Hr & ?). exists h2, l. split; [by transitivity h' | done]. Qed.

Lemma create_table_spec st n l : heap_ok st (S n) -> l ∈ ptables -> 12 <= Index_low l <= Index_hi l -> 0 < word_bytes ->
  (exists tb st', create_table st (Table_bytes l) = Ok (tb, st') /\ heap_ok st' n /\ tabs st !! tb = None /\
     tabs st' = <[tb := replicate (Z.to_nat (Table_sz l)) 0]> (tabs st) /\ table_addr vs tb (Table_bytes l) /\
     heap_step (kheap st) (kheap st')) \/
  (create_table st (Table_bytes l) = Stop FPanic /\ oom (kheap st)).
Proof.
  intros [I U] Hl Hg Hw. unfold create_table.
  destruct (th_alloc_spec _ n l I Hl) as [(a & h' & E & I' & Hn & Hu & Hmono & Ha) | E]; rewrite E; simpl; [left | right].
  - destruct (Z.eqb_spec a 0) as [->|_]; [destruct Ha as (_ & ? & _); lia |]. do 2 eexists. split; [reflexivity |]. simpl.
    split_and!.
    + split; [done |]. simpl. intros x Hx. destruct (decide (x = a)) as [-> | Hne]; [done |].
      rewrite lookup_insert_ne in Hx by done. auto.
    + destruct (tabs st !! a) eqn:Ea; [| done]. exfalso. apply Hn, U. by rewrite Ea.
    + unfold Table_bytes. by rewrite Z.div_mul by lia.
    + done.
    + by exists l, a.
  - split; [done |]. exists (kheap st), l. by split_and!.
Qed.

(** A fresh table: nothing is mapped. *)
Lemma zero_table l ls (m : store) tb n : l ∈ ptables -> m !! tb = Some (replicate n 0) -> n = Z.to_nat (Table_sz l) ->
  wf vs (l :: ls) m tb /\ (forall va, translate vs (l :: ls) m tb va = None) /\
  (forall a, reach vs (l :: ls) m tb a -> a = tb).
Proof.
  intros Hl Et ->. destruct (spec_inv l 0 Hl) as [_ Hz].
  assert (Hd : forall i c, ~ dirs l (replicate (Z.to_nat (Table_sz l)) 0) i c).
  { intros i c [[-> _]%lookup_replicate_1 Ed]. apply spec_excl in Ed as [_ Ed]. congruence. }
  split_and!.
  - exists (replicate (Z.to_nat (Table_sz l)) 0). split_and!; [done | by rewrite length_replicate | | |].
    + apply Forall_replicate. by right; right.
    + intros i c Hi. by apply Hd in Hi.
    + intros i j c d a _ Hi. by apply Hd in Hi.
  - intros va. simpl. rewrite Et. simpl. destruct (_ !! cell_index l va) as [c|] eqn:Ec; simpl; [| done].
    apply lookup_replicate_1 in Ec as [-> _]. destruct (mmu_is_map (Level l) 0) eqn:Em; [apply spec_excl in Em; congruence |].
    destruct (mmu_is_dir (Level l) 0) eqn:Ed; [apply spec_excl in Ed as [_ Ed]; congruence | done].
  - intros a [-> | (t & i & c & E1 & E2 & E3 & _)]; [done |]. simplify_eq. exfalso. by apply (Hd i c).
Qed.

(** The cell of [va] lies in [lo, hi). *)
Definition whole (l : level) (lo hi va : Z) : bool :=
  (lo <=? cell_start l va) && (cell_start l va + Page_sz l <=? hi).

(** No record stands in the way of mapping [lo, hi): a cell to be written as a
    whole is no directory (and not mapped unless over-mapping is allowed), a
    cell to be entered is no large page. *)
Fixpoint mappable (over : bool) (ls : list level) (m : store) (tb lo hi : Z) : Prop :=
  match ls with
  | [] => False
  | l :: ls' => forall va t c, lo <= va < hi -> m !! tb = Some t -> t !! cell_index l va = Some c ->
      if whole l lo hi va then mmu_is_dir (Level l) c = false /\ (over = true \/ mmu_is_map (Level l) c = false)
      else mmu_is_map (Level l) c = false /\
           (mmu_is_dir (Level l) c = true ->
            mappable over ls' m (kid vs l c) (Z.max lo (cell_start l va)) (Z.min hi (cell_start l va + Page_sz l)))
  end.

Lemma mappable_local over ls : forall m m' tb lo hi, (forall a, reach vs ls m tb a -> m' !! a = m !! a) ->
  mappable over ls m tb lo hi -> mappable over ls m' tb lo hi.
Proof.
  induction ls as [|l ls IH]; intros m m' tb lo hi Hm; [done |]. intros Hp va t c Hva Et Ec.
  rewrite (Hm tb) in Et by (by left). specialize (Hp va t c Hva Et Ec). destruct (whole l lo hi va); [done |].
  destruct Hp as [Hp1 Hp2]. split; [done |]. intros Ed. eapply IH; [| by apply Hp2].
  intros a Ha. apply Hm. right. eauto 10.
Qed.

Lemma mappable_zero over l ls (m : store) tb n lo hi : l ∈ ptables -> m !! tb = Some (replicate n 0) ->
  mappable over (l :: ls) m tb lo hi.
Proof.
  intros Hl Et va t c _ Et' Ec. simplify_eq. apply lookup_replicate_1 in Ec as [-> _].
  destruct (spec_inv l 0 Hl) as [_ Hz]. destruct (spec_excl (Level l) 0) as [X1 X2].
  assert (mmu_is_dir (Level l) 0 = false) as -> by (destruct (mmu_is_dir (Level l) 0); naive_solver congruence).
  assert (mmu_is_map (Level l) 0 = false) as -> by (destruct (mmu_is_map (Level l) 0); naive_solver congruence).
  destruct (whole l lo hi va); (split; [done |]); [by right | done].
Qed.

(** The part of the range after the cell of [va] stays mappable. *)
Lemma mappable_rest over l ls (m m' : store) tb t i c' va hi : 12 <= Index_low l <= Index_hi l -> 0 <= va ->
  va / Aspace_sz l = (hi - 1) / Aspace_sz l -> m !! tb = Some t -> m' !! tb = Some (<[i := c']> t) ->
  i = cell_index l va ->
  (forall j d, j <> i -> dirs l t j d -> forall a, reach vs ls m (kid vs l d) a -> m' !! a = m !! a) ->
  mappable over (l :: ls) m tb va hi -> mappable over (l :: ls) m' tb (cell_start l va + Page_sz l) hi.
Proof.
  intros Hg Hva Hb Et Et' -> Hoth Hp x t' c Hx Et'' Ec. simplify_eq.
  destruct (cell_start_spec l Hg va) as [Hs _]. destruct (Page_sz_pos l Hg) as [HP _].
  assert (HA : 0 < Aspace_sz l) by (rewrite Aspace_sz_mul by done; destruct (Table_sz_pow l Hg); nia).
  assert (Hne : cell_index l x <> cell_index l va).
  { rewrite cell_index_inj by (done || apply (block_between _ va x (hi - 1)); lia). rewrite same_cell by done. lia. }
  rewrite list_lookup_insert_ne in Ec by done. specialize (Hp x t c ltac:(lia) Et Ec).
  assert (Hcs : cell_start l va + Page_sz l <= cell_start l x).
  { rewrite (proj2 (cell_start_spec l Hg va)), (proj2 (cell_start_spec l Hg x)) in *.
    assert (va / Page_sz l + 1 <= x / Page_sz l) by (apply Z.div_le_lower_bound; lia). nia. }
  unfold whole in *. rewrite (proj2 (Z.leb_le va (cell_start l x))) in Hp by lia.
  rewrite (proj2 (Z.leb_le (cell_start l va + Page_sz l) (cell_start l x))) by lia.
  destruct (true && _); [done |]. destruct Hp as [Hp1 Hp2]. split; [done |]. intros Ed. specialize (Hp2 Ed).
  rewrite Z.max_r in * by lia. eapply mappable_local; [| exact Hp2]. by apply (Hoth (cell_index l x)).
Qed.

(** Large pages used for the range exist, are aligned and hold the address. *)
Definition fits (ls : list level) (va pa size : Z) : Prop :=
  Forall (fun l => Page_sz l <= size -> has_map (Level l) = true /\ (Page_sz l | pa - va) /\
                   pa + size <= map_limit (Level l)) ls.

Lemma fits_sub ls va pa size va' size' : va <= va' -> va' + size' <= va + size -> fits ls va pa size ->
  fits ls va' (pa + va' - va) size'.
Proof.
  intros H1 H2 F. eapply Forall_impl; [exact F |]. intros l Hl Hs. cbn beta in *. destruct Hl as (? & ? & ?); [lia |]. split_and!; [done | | lia].
  by replace (pa + va' - va - va') with (pa - va) by lia.
Qed.

(** [st'] maps [va, va') as [f] says and nothing else, and the rest of the
    range up to [hi] is still mappable. *)
Definition mapped (over : bool) (ls : list level) (A : Z) (st st' : pstate H) (tb va va' hi : Z)
    (f : Z -> option (Z * Z * Z)) : Prop :=
  evolves vs ls (tabs st) (tabs st') tb /\
  (forall x, x / A = va / A -> translate vs ls (tabs st') tb x =
     if (va <=? x) && (x <? va') then f x else translate vs ls (tabs st) tb x) /\
  (va' < hi -> mappable over ls (tabs st') tb va' hi).

Lemma mapped_trans over ls A st1 st2 st3 tb va va' hi hi' f : va <= va' <= hi' -> va' / A = va / A ->
  mapped over ls A st1 st2 tb va va' hi f -> mapped over ls A st2 st3 tb va' hi' hi f ->
  mapped over ls A st1 st3 tb va hi' hi f.
Proof.
  intros Hv Hb (E1 & T1 & _) (E2 & T2 & P2). split_and!; [by eapply evolves_trans | | done].
  intros x Hx. rewrite T2, T1 by congruence.
  destruct (Z.leb_spec va x), (Z.ltb_spec x va'), (Z.leb_spec va' x), (Z.ltb_spec x hi'); simpl; done || lia.
Qed.

Lemma get_cell_wf l ls (st : pstate H) tb va : 12 <= Index_low l <= Index_hi l -> wf vs (l :: ls) (tabs st) tb ->
  exists t c, tabs st !! tb = Some t /\ t !! cell_index l va = Some c /\ get_cell st l tb va = Ok c /\ known l c.
Proof.
  intros Hg (t & Et & Hlen & Hkn & _). destruct (lookup_lt_is_Some_2 t (cell_index l va)) as [c Ec].
  { rewrite Hlen. by apply cell_index_lt. }
  exists t, c. unfold get_cell. rewrite Et. simpl. rewrite Ec. split_and!; try done. by apply (Forall_lookup_1 _ _ _ _ Hkn Ec).
Qed.

Lemma map_whole over l ls st tb va hi t c paddr vaddr a k : 12 <= Index_low l <= Index_hi l -> l ∈ ptables ->
  wf vs (l :: ls) (tabs st) tb -> 0 <= va -> va / Aspace_sz l = (hi - 1) / Aspace_sz l ->
  va mod Page_sz l = 0 -> va + Page_sz l <= hi -> vaddr <= va -> 0 <= paddr ->
  fits (l :: ls) va (paddr + va - vaddr) (hi - va) -> 0 <= a <= acc_max -> 0 <= k <= 1 ->
  tabs st !! tb = Some t -> t !! cell_index l va = Some c -> mmu_is_dir (Level l) c = false ->
  mappable over (l :: ls) (tabs st) tb va hi ->
  exists st', set_cell st l tb va (mmu_set_map (Level l) c (u64 (paddr + va - vaddr)) a k) = Ok st' /\
    kheap st' = kheap st /\ (forall b, is_Some (tabs st' !! b) -> is_Some (tabs st !! b)) /\
    mapped over (l :: ls) (Aspace_sz l) st st' tb va (va + Page_sz l) hi (fun x => Some (paddr + x - vaddr, a, k)).
Proof.
  intros Hg Hl W Hva Hb Hal Hle Hvv Hpa Hfit Ha Hk Et Ec Ed Hm.
  destruct (Page_sz_pos l Hg) as [HP _].
  apply Forall_cons in Hfit as [Hf _]. destruct Hf as (Hhm & [q Hq] & Hlim); [lia |].
  pose proof (proj2 (proj2 spec_limit) (Level l)) as H64.
  rewrite (wrap_small 64) by (unfold in_range; lia). set (pa := paddr + va - vaddr) in *.
  assert (Hdiv : (Page_sz l | pa)).
  { apply Z.mod_divide in Hal as [q2 Hq2]; [| lia]. exists (q + q2). lia. }
  destruct (spec_map l c pa a k Hl Hhm ltac:(lia) Hdiv Ha Hk) as (S1 & S2 & S3 & S4).
  set (c' := mmu_set_map (Level l) c pa a k) in *. destruct (spec_excl (Level l) c') as [X1 X2].
  assert (Ed' : mmu_is_dir (Level l) c' = false) by (destruct (mmu_is_dir (Level l) c'); naive_solver congruence).
  unfold set_cell. rewrite Et. simpl. rewrite Ec. simpl. eexists. split; [reflexivity |]. simpl.
  split; [done |]. split.
  { intros b. destruct (decide (b = tb)) as [-> | Hne]; [by rewrite Et | by rewrite lookup_insert_ne by done]. }
  assert (HP2 : cell_start l va = va) by (unfold cell_start; lia).
  destruct (cell_update vs l ls (tabs st) (<[tb:=<[cell_index l va:=c']> t]> (tabs st)) tb t (cell_index l va) c c')
    as (Ev & Tr & Oth); try done.
  - by rewrite lookup_insert_eq.
  - by right; left.
  - intros b Hb' Hne _. by rewrite lookup_insert_ne.
  - intros b Hb'. destruct (decide (b = tb)) as [-> | Hne]; [by rewrite lookup_insert_eq | by rewrite lookup_insert_ne].
  - congruence.
  - split_and!; [done | |].
    + intros x Hx. destruct (Z.leb_spec va x), (Z.ltb_spec x (va + Page_sz l)); simpl.
      2-4: apply Tr; rewrite cell_index_inj, same_cell by done; lia.
      assert (Ecell : cell_index l x = cell_index l va) by (rewrite cell_index_inj, same_cell by done; lia).
      simpl. rewrite lookup_insert_eq. simpl. rewrite Ecell, list_lookup_insert_eq by (by apply lookup_lt_Some in Ec). simpl.
      rewrite S1, S2, S3, S4. do 3 f_equal. subst pa.
      assert (x mod Page_sz l = x - va); [| lia].
      symmetry. apply Z.mod_unique_pos with (va / Page_sz l); [lia |]. pose proof (Z.div_mod va (Page_sz l) ltac:(lia)). lia.
    + intros _. replace (va + Page_sz l) with (cell_start l va + Page_sz l) by lia.
      eapply (mappable_rest over l ls (tabs st) _ tb t (cell_index l va) c'); try done. simpl. by rewrite lookup_insert_eq.
Qed.

(** A record made for a table address leads back to it. *)
Lemma kid_set_dir l c tb bytes : has_dir (Level l) = true -> table_addr vs tb bytes ->
  mmu_is_dir (Level l) (mmu_set_dir (Level l) c (u64 (tb - _diff_kva_kpa vs))) = true /\
  kid vs l (mmu_set_dir (Level l) c (u64 (tb - _diff_kva_kpa vs))) = tb.
Proof.
  intros Hd (_ & Hr & Hpa & Hal). destruct spec_limit as (_ & H64 & _).
  rewrite (wrap_small 64) by (unfold in_range; lia). destruct (spec_dir (Level l) c _ Hd Hpa Hal) as [-> E].
  split; [done |]. unfold kid. rewrite E. rewrite wrap_small by (unfold in_range; lia). lia.
Qed.

(** Entering the cell of [va]: afterwards it is a directory record whose
    table maps what the cell mapped before. *)
Lemma child_table_ok over l l' ls st tb va t c n : 12 <= Index_low l' <= Index_hi l' ->
  l' ∈ ptables -> has_dir (Level l) = true -> 0 < word_bytes ->
  wf vs (l :: l' :: ls) (tabs st) tb -> heap_ok st (S n) ->
  tabs st !! tb = Some t -> t !! cell_index l va = Some c -> known l c -> mmu_is_map (Level l) c = false ->
  (exists k st' c', child_table vs st l (l' :: ls) tb va c = Ok (k, st') /\ heap_ok st' n /\
     rtc heap_step (kheap st) (kheap st') /\ evolves vs (l :: l' :: ls) (tabs st) (tabs st') tb /\
     tabs st' !! tb = Some (<[cell_index l va := c']> t) /\ mmu_is_dir (Level l) c' = true /\ kid vs l c' = k /\
     (forall x, translate vs (l :: l' :: ls) (tabs st') tb x = translate vs (l :: l' :: ls) (tabs st) tb x) /\
     (forall lo hi, (mmu_is_dir (Level l) c = true -> mappable over (l' :: ls) (tabs st) (kid vs l c) lo hi) ->
        mappable over (l' :: ls) (tabs st') k lo hi) /\
     (forall j d, j <> cell_index l va -> dirs l t j d ->
        forall a, reach vs (l' :: ls) (tabs st) (kid vs l d) a -> tabs st' !! a = tabs st !! a)) \/
  (child_table vs st l (l' :: ls) tb va c = Stop FPanic /\ oom (kheap st)).
Proof.
  intros Hg' Hl' Hhd Hwb W Hok Et Ec Hkn Em. unfold child_table. cbn [child_bytes].
  destruct (spec_excl (Level l) c) as [X1 X2].
  destruct Hkn as [Ed | [Em' | Ei]]; [| congruence |].
  - rewrite (proj2 (X1 Ed)), Ed. left. pose proof W as (t0 & Et0 & _ & _ & Hk & _). simplify_eq.
    destruct (Hk (cell_index l va) c (conj Ec Ed)) as (Wk & Hin & _).
    exists (kid vs l c), st, c. unfold kmem_vaddr. fold (kid vs l c). cbn [child_bytes] in Hin. rewrite Hin. cbn [wassert mbind res_bind].
    split_and!; try done; [by apply (heap_ok_le _ (S n)); [lia |] | by apply evolves_refl | by rewrite list_insert_id |].
    intros lo hi Hp. by apply Hp.
  - rewrite Ei. assert (Ed : mmu_is_dir (Level l) c = false) by (destruct (mmu_is_dir (Level l) c); naive_solver congruence).
    destruct (create_table_spec st n l' Hok Hl' Hg' Hwb) as [(nb & st1 & E & Hok1 & Hnew & Etabs & Haddr & Hst) | [E Ho]];
      rewrite E; cbn [mbind res_bind]; [left | by right].
    assert (nb <> tb) by (intros ->; congruence).
    destruct (kid_set_dir l c nb _ Hhd Haddr) as [Sd Sk].
    cbn [fst snd]. unfold kmem_paddr. rewrite (proj1 Haddr). cbn [wassert mbind res_bind].
    set (c' := mmu_set_dir (Level l) c (u64 (nb - _diff_kva_kpa vs))) in *.
    unfold set_cell. rewrite Etabs, lookup_insert_ne, Et by done. cbn [from_opt mbind res_bind]. rewrite Ec. cbn [from_opt mbind res_bind].
    set (m' := <[tb:=<[cell_index l va:=c']> t]> (<[nb:=replicate (Z.to_nat (Table_sz l')) 0]> (tabs st))).
    assert (Enb : m' !! nb = Some (replicate (Z.to_nat (Table_sz l')) 0)) by (unfold m'; by rewrite lookup_insert_ne, lookup_insert_eq).
    assert (Hfr : forall b, is_Some (tabs st !! b) -> b <> tb -> m' !! b = tabs st !! b).
    { intros b [y Hb] Hne. unfold m'. rewrite !lookup_insert_ne by congruence. done. }
    destruct (zero_table l' ls m' nb _ Hl' Enb eq_refl) as (Wz & Tz & Rz).
    destruct (cell_update vs l (l' :: ls) (tabs st) m' tb t (cell_index l va) c c') as (Ev & Tr & Oth); try done.
    + unfold m'. by rewrite lookup_insert_eq.
    + by left.
    + intros b Hb Hne _. by apply Hfr.
    + intros b Hb. destruct (decide (b = tb)) as [-> | Hne]; [unfold m'; by rewrite lookup_insert_eq | by rewrite Hfr].
    + intros _. rewrite Sk. split_and!; [done | apply Haddr |]. intros b ->%Rz. by right.
    + exists nb, (MkP m' (kheap st1)), c'. simpl tabs. simpl kheap. split_and!; try done.
      * destruct Hok1 as [I1 U1]. split; [done |]. simpl. intros b Hb. apply U1. rewrite Etabs.
        destruct (decide (b = nb)) as [-> | Hne]; [by rewrite lookup_insert_eq |]. rewrite lookup_insert_ne by done.
        destruct (decide (b = tb)) as [-> | Hne2]; [by rewrite Et |]. unfold m' in Hb. by rewrite !lookup_insert_ne in Hb by done.
      * by apply rtc_once.
      * unfold m'. by rewrite lookup_insert_eq.
      * intros x. destruct (decide (cell_index l x = cell_index l va)) as [Ex | Hne]; [| by apply Tr].
        cbn [translate]. replace (m' !! tb) with (Some (<[cell_index l va:=c']> t)) by (unfold m'; by rewrite lookup_insert_eq).
        rewrite Et. cbn [mbind option_bind]. rewrite Ex, list_lookup_insert_eq by (by apply lookup_lt_Some in Ec).
        rewrite Ec. cbn [mbind option_bind]. rewrite (proj1 (proj1 (spec_excl (Level l) c') Sd)), Sd, Sk, Em, Ed. apply Tz.
      * intros lo hi _. by eapply mappable_zero.
Qed.

(** What a call of [map] on the tables of [ls] does (the induction
    hypothesis for the child tables). *)
Definition maps (over : bool) (ls : list level) (A : Z) (need : nat) (a k : Z)
    (child : pstate H -> Z -> Z -> Z -> Z -> res (pstate H)) : Prop :=
  forall st tb va pa size n, heap_ok st (need + n) -> wf vs ls (tabs st) tb -> 0 <= va -> 0 <= pa -> 0 < size ->
    (4096 | va) -> (4096 | pa) -> (4096 | size) -> va + size <= 2 ^ addr_w ->
    va / A = (va + size - 1) / A -> fits ls va pa size -> mappable over ls (tabs st) tb va (va + size) ->
    (exists st', child st tb va pa size = Ok st' /\ heap_ok st' n /\ rtc heap_step (kheap st) (kheap st') /\
       mapped over ls A st st' tb va (va + size) (va + size) (fun x => Some (pa + x - va, a, k))) \/
    (child st tb va pa size = Stop FPanic /\ oom (kheap st)).

Lemma cell_len_end l va rest : 12 <= Index_low l <= Index_hi l ->
  va + cell_len l va rest = Z.min (va + rest) (cell_start l va + Page_sz l).
Proof. intros Hg. unfold cell_len, cell_start. rewrite offset_mod by done. lia. Qed.

Lemma aligned_cell l va : 12 <= Index_low l <= Index_hi l -> (4096 | va) ->
  (4096 | cell_start l va) /\ (4096 | cell_start l va + Page_sz l).
Proof.
  intros Hg Hv. destruct (Page_sz_pos l Hg) as [_ Hd]. rewrite (proj2 (cell_start_spec l Hg va)).
  assert (4096 | Page_sz l * (va / Page_sz l)) by (by apply Z.divide_mul_l). split; [done |]. by apply Z.divide_add_r.
Qed.

(** The child call changed the tables below one directory record. *)
Lemma child_mapped over l ls st st1 st2 tb va va' hi t c' f :
  12 <= Index_low l <= Index_hi l -> 0 <= va -> va < va' -> va' = Z.min hi (cell_start l va + Page_sz l) ->
  va / Aspace_sz l = (hi - 1) / Aspace_sz l ->
  evolves vs (l :: ls) (tabs st) (tabs st1) tb -> tabs st !! tb = Some t -> (cell_index l va < length t)%nat ->
  tabs st1 !! tb = Some (<[cell_index l va := c']> t) -> mmu_is_dir (Level l) c' = true ->
  (forall x, translate vs (l :: ls) (tabs st1) tb x = translate vs (l :: ls) (tabs st) tb x) ->
  (forall j d, j <> cell_index l va -> dirs l t j d ->
     forall a, reach vs ls (tabs st) (kid vs l d) a -> tabs st1 !! a = tabs st !! a) ->
  (va' < hi -> mappable over (l :: ls) (tabs st) tb va hi) ->
  mapped over ls (Page_sz l) st1 st2 (kid vs l c') va va' va' f ->
  mapped over (l :: ls) (Aspace_sz l) st st2 tb va va' hi f.
Proof.
  intros Hg Hva Hlt Eva' Hb Ev1 Et Hi Et1 Ed' Tr1 Oth1 Hmp (Ev2 & Tr2 & _).
  pose proof Ev1 as (W1 & F1 & D1 & R1). pose proof Ev2 as (W2 & F2 & D2 & R2).
  set (t1 := <[cell_index l va:=c']> t) in *.
  assert (Ec1 : t1 !! cell_index l va = Some c') by (by apply list_lookup_insert_eq).
  pose proof W1 as (t0 & Et0 & _ & _ & Hk1 & _). rewrite Et1 in Et0. injection Et0 as <-.
  destruct (Hk1 (cell_index l va) c' (conj Ec1 Ed')) as (Wk & Hin & Hnr).
  assert (Et2 : tabs st2 !! tb = Some t1) by (rewrite F2; [done | by rewrite Et1 | done]).
  destruct (cell_update vs l ls (tabs st1) (tabs st2) tb t1 (cell_index l va) c' c') as (Ev & Tr & Oth); try done.
  { by rewrite list_insert_id. } { by left. } { intros b Hb1 Hne Hn. by apply F2; auto. }
  { intros _. split_and!; try done. intros b [Hr | Hn]%R2; [by left | by right]. }
  split_and!.
  - by eapply evolves_trans.
  - intros x Hx. rewrite <- Tr1. destruct (decide (cell_index l x = cell_index l va)) as [Ex | Hne].
    + assert (Hc : x / Page_sz l = va / Page_sz l) by (by apply cell_index_inj).
      cbn [translate]. rewrite Et2, Et1. cbn [mbind option_bind]. rewrite Ex, Ec1. cbn [mbind option_bind].
      rewrite (proj1 (proj1 (spec_excl (Level l) c') Ed')), Ed'. by apply Tr2.
    + rewrite Tr by done. destruct (Z.leb_spec va x), (Z.ltb_spec x va'); simpl; try done.
      exfalso. apply Hne. rewrite cell_index_inj, same_cell by done. destruct (cell_start_spec l Hg va). lia.
  - intros Hlt2. assert (va' = cell_start l va + Page_sz l) as -> by lia.
    eapply (mappable_rest over l ls (tabs st) (tabs st2)); try done; [| by apply Hmp].
    intros j d Hj Hd b Hr. rewrite (Oth j d Hj); [by apply (Oth1 j d) | |].
    + destruct Hd as [E1 E2]. split; [| done]. unfold t1. by rewrite list_lookup_insert_ne.
    + rewrite (reach_local vs ls (tabs st)); [done | by apply (Oth1 j)].
Qed.

(** An iteration that enters the child table. *)
Lemma map_partial over l l' ls child need st tb va hi t c paddr vaddr a k n :
  12 <= Index_low l <= Index_hi l -> 12 <= Index_low l' <= Index_hi l' -> Index_hi l' = Index_low l - 1 ->
  l' ∈ ptables -> has_dir (Level l) = true -> 0 < word_bytes ->
  maps over (l' :: ls) (Aspace_sz l') need a k child ->
  heap_ok st (S need + n) -> wf vs (l :: l' :: ls) (tabs st) tb -> 0 <= va < hi -> hi <= 2 ^ addr_w ->
  va / Aspace_sz l = (hi - 1) / Aspace_sz l -> (4096 | va) -> (4096 | hi) -> (4096 | paddr + va - vaddr) ->
  vaddr <= va -> 0 <= paddr -> fits (l' :: ls) va (paddr + va - vaddr) (hi - va) ->
  paddr + va - vaddr < 2 ^ 64 ->
  (va mod Page_sz l =? 0) && (Page_sz l <=? hi - va) = false ->
  tabs st !! tb = Some t -> t !! cell_index l va = Some c -> known l c ->
  mappable over (l :: l' :: ls) (tabs st) tb va hi ->
  let go := p ← child_table vs st l (l' :: ls) tb va c;
            child p.2 p.1 va (u64 (paddr + va - vaddr)) (cell_len l va (hi - va)) in
  (exists st', go = Ok st' /\ heap_ok st' n /\ rtc heap_step (kheap st) (kheap st') /\
     mapped over (l :: l' :: ls) (Aspace_sz l) st st' tb va (va + cell_len l va (hi - va)) hi
       (fun x => Some (paddr + x - vaddr, a, k))) \/
  (go = Stop FPanic /\ oom (kheap st)).
Proof.
  intros Hg Hg' Hch Hl' Hhd Hwb Hmaps Hok W Hva Hhi Hb Av Ah Ap Hvv Hpa Hfit H64 Hpart Et Ec Hkn Hmp go.
  destruct (cell_start_spec l Hg va) as [Hcs _]. pose proof (cell_len_end l va (hi - va) Hg) as Elen.
  replace (va + (hi - va)) with hi in Elen by lia. set (len := cell_len l va (hi - va)) in *.
  assert (HA : Aspace_sz l' = Page_sz l).
  { unfold Aspace_sz, Page_sz. rewrite Hch. f_equal. lia. }
  assert (Hw : whole l va hi va = false).
  { unfold whole, cell_start in *. apply andb_false_iff. apply andb_false_iff in Hpart as [E%Z.eqb_neq | E%Z.leb_gt].
    - left. apply Z.leb_gt. lia.
    - destruct (Z.eqb_spec (va mod Page_sz l) 0); [right; apply Z.leb_gt; lia | left; apply Z.leb_gt; lia]. }
  pose proof (Hmp va t c ltac:(lia) Et Ec) as Hc. rewrite Hw in Hc. destruct Hc as [Em Hc].
  rewrite Z.max_l, <- Elen in Hc by lia.
  destruct (child_table_ok over l l' ls st tb va t c (need + n) Hg' Hl' Hhd Hwb W Hok Et Ec Hkn Em)
    as [(kd & st1 & c' & E1 & Hok1 & Hs1 & Ev1 & Et1 & Ed' & Ek & Tr1 & Mp1 & Oth1) | [E1 Ho]];
    subst go; rewrite E1; cbn [mbind res_bind]; [| by right]. cbn [fst snd].
  rewrite (wrap_small 64) by (unfold in_range; lia). subst kd.
  assert (Wk : wf vs (l' :: ls) (tabs st1) (kid vs l c')).
  { destruct Ev1 as ((t0 & Et0 & _ & _ & Hk1 & _) & _). rewrite Et1 in Et0. injection Et0 as <-.
    apply (Hk1 (cell_index l va)). split; [| done]. apply list_lookup_insert_eq. by apply lookup_lt_Some in Ec. }
  assert (Hal : (4096 | len)).
  { replace len with (va + len - va) by lia. apply Z.divide_sub_r; [| done]. rewrite Elen.
    destruct (aligned_cell l va Hg Av). by destruct (Z.min_spec hi (cell_start l va + Page_sz l)) as [[_ ->] | [_ ->]]. }
  destruct (Hmaps st1 (kid vs l c') va (paddr + va - vaddr) len n) as [(st2 & E2 & Hok2 & Hs2 & Mp2) | [E2 Ho]]; try done; try lia.
  - rewrite HA. symmetry. apply same_cell; [done |]. lia.
  - replace (paddr + va - vaddr) with (paddr + va - vaddr + va - va) by lia. eapply fits_sub; [| | exact Hfit]; lia.
  - by apply Mp1.
  - left. exists st2. rewrite E2. split_and!; try done; [by transitivity (kheap st1) |]. rewrite HA in Mp2.
    eapply child_mapped; try done; [lia | lia | by apply lookup_lt_Some in Ec |].
    destruct Mp2 as (M1 & M2 & M3). split_and!; [done | | done]. intros x Hx. rewrite M2 by done.
    case_match; [do 3 f_equal; lia | reflexivity].
  - right. rewrite E2. split; [done |]. by apply (oom_step _ (kheap st1)).
Qed.

Definition ragged (l : level) (x : Z) : nat := if x mod Page_sz l =? 0 then 0 else 1.

(** Tables needed: one per partly covered cell, and those of the child calls. *)
Fixpoint map_need (ls : list level) : nat :=
  match ls with [] => 0 | _ :: ls' => match ls' with [] => 0 | _ => 2 * S (map_need ls') end end.

(** Either partial cells cannot occur (last level) or the child call is
    specified. *)
Definition child_ok over (l : level) (ls : list level) (need : nat) (a k : Z) child : Prop :=
  match ls with
  | [] => Page_sz l = 4096
  | l' :: _ => 12 <= Index_low l' <= Index_hi l' /\ Index_hi l' = Index_low l - 1 /\ l' ∈ ptables /\
               has_dir (Level l) = true /\ maps over ls (Aspace_sz l') need a k child
  end.

Section Loop.
Context (over : bool) (l : level) (ls : list level) (need : nat) (a k : Z)
  (child : pstate H -> Z -> Z -> Z -> Z -> res (pstate H)) (tb vaddr paddr hi : Z).
Hypothesis Hg : 12 <= Index_low l <= Index_hi l.
Hypothesis Hl : l ∈ ptables.
Hypothesis Hwb : 0 < word_bytes.
Hypothesis Hchild : child_ok over l ls need a k child.
Hypothesis Ha : 0 <= a <= acc_max.
Hypothesis Hk : 0 <= k <= 1.
Hypothesis Hv : 0 <= vaddr < hi.
Hypothesis Hhi : hi <= 2 ^ addr_w.
Hypothesis Hpa : 0 <= paddr.
Hypothesis Hpa64 : paddr + (hi - vaddr) <= 2 ^ 64.
Hypothesis Hb : vaddr / Aspace_sz l = (hi - 1) / Aspace_sz l.
Hypothesis Av : (4096 | vaddr).
Hypothesis Ah : (4096 | hi).
Hypothesis Ap : (4096 | paddr).
Hypothesis Hfit : fits (l :: ls) vaddr paddr (hi - vaddr).

Abbreviation run fuel st va rest := (map_loop vs child l ls fuel st tb vaddr paddr va rest a k over).

(** The step one iteration takes: [st] to [st'], [va] to [va']. *)
Lemma map_step st va n : heap_ok st ((ragged l va + ragged l hi) * S need + n) ->
  wf vs (l :: ls) (tabs st) tb -> vaddr <= va < hi -> (4096 | va) ->
  mappable over (l :: ls) (tabs st) tb va hi ->
  let va' := Z.min hi (cell_start l va + Page_sz l) in
  (exists st', (forall fuel, run (S fuel) st va (hi - va) = run fuel st' (wrap addr_w va') (hi - va')) /\
     heap_ok st' ((if va' =? hi then 0 else ragged l hi) * S need + n) /\ rtc heap_step (kheap st) (kheap st') /\
     mapped over (l :: ls) (Aspace_sz l) st st' tb va va' hi (fun x => Some (paddr + x - vaddr, a, k))) \/
  ((forall fuel, run (S fuel) st va (hi - va) = Stop FPanic) /\ oom (kheap st)).
Proof using All.
  intros Hok W Hva Hal Hmp va'. destruct (Page_sz_pos l Hg) as [HP HPd].
  destruct (cell_start_spec l Hg va) as [Hcs _].
  assert (HA : 0 < Aspace_sz l) by (rewrite Aspace_sz_mul by done; destruct (Table_sz_pow l Hg); nia).
  assert (Hbv : va / Aspace_sz l = (hi - 1) / Aspace_sz l).
  { rewrite <- Hb. apply (block_between _ vaddr va (hi - 1)); [done | lia | done]. }
  assert (Hfv : fits (l :: ls) va (paddr + va - vaddr) (hi - va)) by (eapply fits_sub; [| | exact Hfit]; lia).
  destruct (get_cell_wf l ls st tb va Hg W) as (t & c & Et & Ec & Egc & Hkn).
  assert (Hr : forall fuel, run (S fuel) st va (hi - va) =
    c ← get_cell st l tb va;
    if (va mod Page_sz l =? 0) && (Page_sz l <=? hi - va) then
      if negb over && mmu_is_map (Level l) c then Stop FPanic
      else if mmu_is_dir (Level l) c then Stop FPanic
      else st' ← set_cell st l tb va (mmu_set_map (Level l) c (u64 (paddr + va - vaddr)) a k);
        run fuel st' (wrap addr_w (va + Page_sz l)) (wrap addr_w (hi - va - Page_sz l))
    else st' ← (p ← child_table vs st l ls tb va c;
                child p.2 p.1 va (u64 (paddr + va - vaddr)) (cell_len l va (hi - va)));
        run fuel st' (wrap addr_w (va + cell_len l va (hi - va))) (wrap addr_w (hi - va - cell_len l va (hi - va)))).
  { intros fuel. cbn [map_loop]. destruct (Z.eqb_spec (hi - va) 0); [lia |]. rewrite offset_mod by done.
    destruct (get_cell st l tb va); cbn [mbind res_bind]; [| done]. destruct (_ && _); [done |].
    by destruct (child_table _ _ _ _ _ _ _). }
  rewrite Egc in Hr. cbn [mbind res_bind] in Hr.
  pose proof (cell_len_end l va (hi - va) Hg) as Elen. replace (va + (hi - va)) with hi in Elen by lia. fold va' in Elen.
  destruct (_ && _) eqn:Ew in Hr.
  - apply andb_prop in Ew as [E1%Z.eqb_eq E2%Z.leb_le]. left.
    assert (Ecs : cell_start l va = va) by (unfold cell_start; lia).
    assert (va' = va + Page_sz l) as Ev' by lia.
    pose proof (Hmp va t c ltac:(lia) Et Ec) as Hc. unfold whole in Hc. rewrite Ecs in Hc.
    rewrite (proj2 (Z.leb_le va va)), (proj2 (Z.leb_le (va + Page_sz l) hi)) in Hc by lia. destruct Hc as [Ed Hov].
    assert (negb over && mmu_is_map (Level l) c = false) as Eov by (destruct Hov as [-> | ->]; [done | apply andb_false_r]).
    destruct (map_whole over l ls st tb va hi t c paddr vaddr a k) as (st' & Es & Ehp & Hdom & Hm'); try done; try lia.
    exists st'. split_and!.
    + intros fuel. rewrite Hr, Eov, Ed, Es. cbn [mbind res_bind]. rewrite (wrap_small _ (hi - va - _)) by (unfold in_range; lia).
      rewrite Ev'. f_equal. lia.
    + destruct Hok as [I U]. split; [| intros b Hb'; rewrite Ehp; auto]. rewrite Ehp. eapply th_inv_le; [| exact I].
      destruct (va' =? hi); [lia |]. nia.
    + by rewrite Ehp.
    + by rewrite Ev'.
  - assert (Hlast : exists l' ls', ls = l' :: ls').
    { destruct ls as [|l' ls']; [| eauto]. exfalso. simpl in Hchild. rewrite Hchild in Ew.
      rewrite (proj2 (Z.mod_divide va 4096 ltac:(lia)) Hal) in Ew. simpl in Ew. apply Z.leb_gt in Ew.
      destruct Hal as [q Eq], Ah as [q' E]. lia. }
    destruct Hlast as (l' & ls' & Els).
    assert (Hrg : (1 <= ragged l va + (if (va' =? hi)%Z then ragged l hi else 0))%nat).
    { unfold ragged. destruct (Z.eqb_spec (va mod Page_sz l) 0) as [E|]; [| lia]. simpl in Ew. apply Z.leb_gt in Ew.
      assert (cell_start l va = va) by (unfold cell_start; lia). destruct (Z.eqb_spec va' hi); [| lia].
      destruct (Z.eqb_spec (hi mod Page_sz l) 0) as [E2|]; [| lia]. exfalso.
      apply Z.mod_divide in E as [q Eq], E2 as [q' Eq']; [| lia | lia].
      assert (q < q') by nia. assert (q' < q + 1) by nia. lia. }
    destruct (map_partial over l l' ls' child need st tb va hi t c paddr vaddr a k
                ((if va' =? hi then 0 else ragged l hi) * S need + n)) as [(st' & Eg & Hok' & Hs & Hm') | [Eg Ho]];
      rewrite ?Els in *; try done; try lia; try (destruct Hchild as (C1 & C2 & C3 & C4 & C5); done).
    + eapply heap_ok_le; [| exact Hok]. destruct (va' =? hi); nia.
    + apply Z.divide_sub_r; [by apply Z.divide_add_r | done].
    + by apply Forall_cons in Hfv as [_ Hfv].
    + left. exists st'. split_and!; try done; [| by rewrite Elen in Hm'].
      intros fuel. rewrite Hr, Eg. cbn [mbind res_bind]. rewrite (wrap_small _ (hi - va - _)) by (unfold in_range; lia).
      rewrite Elen. f_equal. lia.
    + right. split; [| done]. intros fuel. rewrite Hr, Eg. done.
Qed.

Lemma run_done fuel st va : run fuel st va 0 = Ok st.
Proof. by destruct fuel. Qed.

Lemma next_cell va : ragged l (cell_start l va + Page_sz l) = 0%nat /\
  cell_start l (cell_start l va + Page_sz l) = cell_start l va + Page_sz l.
Proof using Hg M.
  destruct (Page_sz_pos l Hg) as [HP _]. destruct (cell_start_spec l Hg va) as [_ Ecs].
  assert (Em : (cell_start l va + Page_sz l) mod Page_sz l = 0).
  { replace (cell_start l va + Page_sz l) with ((va / Page_sz l + 1) * Page_sz l) by lia. apply Z.mod_mul. lia. }
  unfold ragged. rewrite Em. split; [done |]. unfold cell_start at 1. rewrite Em. lia.
Qed.

Lemma map_loop_ok fuel : forall st va n, heap_ok st ((ragged l va + ragged l hi) * S need + n) ->
  wf vs (l :: ls) (tabs st) tb -> vaddr <= va < hi -> (4096 | va) ->
  mappable over (l :: ls) (tabs st) tb va hi -> hi - cell_start l va <= Z.of_nat fuel * Page_sz l ->
  (exists st', run fuel st va (hi - va) = Ok st' /\ heap_ok st' n /\ rtc heap_step (kheap st) (kheap st') /\
     mapped over (l :: ls) (Aspace_sz l) st st' tb va hi hi (fun x => Some (paddr + x - vaddr, a, k))) \/
  (run fuel st va (hi - va) = Stop FPanic /\ oom (kheap st)).
Proof using All.
  destruct (Page_sz_pos l Hg) as [HP _].
  assert (HA : 0 < Aspace_sz l) by (rewrite Aspace_sz_mul by done; destruct (Table_sz_pow l Hg); nia).
  induction fuel as [|fuel IH]; intros st va n Hok W Hva Hal Hmp Hfuel; destruct (cell_start_spec l Hg va) as [Hcs _]; [lia |].
  destruct (map_step st va n Hok W ltac:(lia) Hal Hmp) as [(st1 & Er & Hok1 & Hs1 & Hm1) | [Er Ho]];
    rewrite Er; [| by right]. pose proof Hm1 as (Ev1 & T1 & P1).
  destruct (Z.min_spec hi (cell_start l va + Page_sz l)) as [[Hlt E] | [Hge E]]; rewrite E in *.
  { left. exists st1. rewrite Z.sub_diag, run_done. by rewrite Z.eqb_refl in Hok1. }
  set (va' := cell_start l va + Page_sz l) in *. destruct (Z.eqb_spec va' hi) as [E' | Hne].
  { left. exists st1. by rewrite E', Z.sub_diag, run_done in *. }
  destruct (next_cell va) as [Hrg Hcs']. fold va' in Hrg, Hcs'. rewrite wrap_small by (unfold in_range; lia).
  destruct (IH st1 va' n) as [(st2 & E2 & Hok2 & Hs2 & Hm2) | [E2 Ho2]]; rewrite ?Hrg, ?Hcs'; try done; try lia.
  - apply Ev1.
  - by apply aligned_cell.
  - apply P1. lia.
  - left. exists st2. split_and!; [done | done | by transitivity (kheap st1) |].
    eapply mapped_trans; [| | exact Hm1 | exact Hm2]; [lia |].
    apply (block_between _ va va' (hi - 1)); [done | lia |]. rewrite <- Hb.
    apply (block_between _ vaddr va (hi - 1)); [done | lia | done].
  - right. split; [done |]. by apply (oom_step _ (kheap st1)).
Qed.

End Loop.

Lemma chain_last ls : forall h, chain has_dir h ls -> ls <> [] -> exists l, l ∈ ls /\ Page_sz l = 4096.
Proof.
  induction ls as [|l ls IH]; intros h Hch Hn; [done |]. destruct Hch as (_ & Hl & _ & Hch).
  destruct ls as [|l' ls].
  - exists l. split; [by apply list_elem_of_here |]. simpl in Hch. unfold Page_sz. by replace (Index_low l) with 12 by lia.
  - destruct (IH _ Hch) as (x & Hx & E); [done |]. exists x. split; [by right | done].
Qed.

Lemma fits_64 ls h va pa size : chain has_dir h ls -> ls <> [] -> fits ls va pa size -> 4096 <= size -> pa + size <= 2 ^ 64.
Proof.
  intros Hch Hn F Hs. destruct (chain_last ls h Hch Hn) as (l & Hl & E). unfold fits in F. rewrite Forall_forall in F.
  destruct (F l Hl) as (_ & _ & ?); [lia |]. pose proof (proj2 (proj2 spec_limit) (Level l)). lia.
Qed.

Lemma ragged_aligned l x : Page_sz l = 4096 -> (4096 | x) -> ragged l x = 0%nat.
Proof. intros E Hx. unfold ragged. rewrite E. by rewrite (proj2 (Z.mod_divide x 4096 ltac:(lia)) Hx). Qed.

Lemma ragged_le l x : (ragged l x <= 1)%nat.
Proof. unfold ragged. case_match; lia. Qed.

(** [map] on any suffix of the levels. *)
Lemma ptable_map_ok over a k ls : forall h, chain has_dir h ls -> Forall (fun l => l ∈ ptables) ls -> 0 < word_bytes ->
  0 <= a <= acc_max -> a < 8 -> 0 <= k <= 1 -> ls <> [] ->
  maps over ls (2 ^ (h + 1)) (map_need ls) a k (ptable_map vs ls a k over).
Proof.
  induction ls as [|l ls IH]; intros h Hch Hin Hwb Ha Ha8 Hk Hnil; [done |]. clear Hnil.
  destruct Hch as (Eh & Hlow & Hhd & Hch). apply Forall_cons in Hin as [Hl Hin]. rewrite <- Eh in *.
  intros st tb va pa size n Hok W Hva Hpa Hsz Av Ap As Hhi Hb Hfit Hmp.
  assert (EA : Aspace_sz l = 2 ^ (Index_hi l + 1)).
  { unfold Aspace_sz. rewrite Z.shiftl_mul_pow2 by lia. lia. }
  rewrite <- EA in *. destruct (Page_sz_pos l Hlow) as [HP _]. destruct (Table_sz_pow l Hlow) as [_ HT].
  pose proof (Aspace_sz_mul l Hlow) as EP.
  assert (HszA : size <= Aspace_sz l) by (apply (block_size _ va); [nia | done | done]).
  cbn [ptable_map]. rewrite !(proj2 (isalign_spec _)) by done. rewrite (proj2 (Z.leb_le _ _) HszA).
  rewrite (proj2 (Z.ltb_lt a 8)), (proj2 (Z.ltb_lt k 2)) by lia. cbn [wassert mbind res_bind].
  destruct (map_loop_ok over l ls (map_need ls) a k (ptable_map vs ls a k over) tb va pa (va + size)) with (fuel := loop_fuel l) (st := st) (va := va) (n := n)
    as [(st' & E & R) | R]; try done; try lia;
    try (replace (va + size - va) with size in * by lia).
  - unfold child_ok. destruct ls as [|l' ls'].
    + simpl in Hch. unfold Page_sz. by replace (Index_low l) with 12 by lia.
    + pose proof Hch as (Eh' & Hl' & _). pose proof Hin as [Hin' _]%Forall_cons. split_and!; try lia; try done.
      replace (Aspace_sz l') with (2 ^ (Index_low l - 1 + 1)); [by apply IH |].
      unfold Aspace_sz. rewrite Z.shiftl_mul_pow2, <- Eh' by lia. lia.
  - replace (va + size - va) with size by lia. eapply (fits_64 (l :: ls) (Index_hi l)); try done. destruct As as [q ->]. lia.
  - by apply Z.divide_add_r.
  - by replace (va + size - va) with size by lia.
  - eapply heap_ok_le; [| exact Hok]. destruct ls as [|l' ls'].
    + simpl in Hch. assert (Page_sz l = 4096) by (unfold Page_sz; by replace (Index_low l) with 12 by lia).
      rewrite !ragged_aligned by (done || by apply Z.divide_add_r). simpl. lia.
    + pose proof (ragged_le l va). pose proof (ragged_le l (va + size)). cbn [map_need]. nia.
  - unfold loop_fuel. rewrite Z2Nat.id by lia. destruct (cell_start_spec l Hlow va). nia.
  - left. by exists st'.
  - by right.
Qed.

(** A naturally aligned range smaller than a cell lies in one cell. *)
Lemma pow_in_cell l va s : 12 <= Index_low l <= Index_hi l -> 0 <= s -> (2 ^ s | va) -> 2 ^ s < Page_sz l ->
  va + 2 ^ s <= cell_start l va + Page_sz l.
Proof.
  intros Hg Hs [q ->] Hlt. destruct (cell_start_spec l Hg (q * 2 ^ s)) as [Hc Ec]. rewrite (Page_sz_pow l Hg) in *.
  assert (s < Index_low l).
  { destruct (Z.lt_ge_cases s (Index_low l)); [done |]. assert (2 ^ Index_low l <= 2 ^ s) by (apply Z.pow_le_mono_r; lia). lia. }
  assert (E : 2 ^ Index_low l = 2 ^ (Index_low l - s) * 2 ^ s) by (rewrite <- Z.pow_add_r by lia; f_equal; lia).
  assert (0 < 2 ^ s) by (apply Z.pow_pos_nonneg; lia). rewrite Ec in *. rewrite E in *.
  set (k := q * 2 ^ s / (2 ^ (Index_low l - s) * 2 ^ s)) in *. set (D := 2 ^ (Index_low l - s)) in *.
  set (S := 2 ^ s) in *. assert (q < D * k + D) by (apply (Zmult_gt_0_lt_reg_r _ _ S); lia).
  assert ((q + 1) * S <= (D * k + D) * S) by (apply Z.mul_le_mono_nonneg_r; lia). lia.
Qed.

(** ** unmap of a naturally aligned range (a flex page) *)

(** The range lies inside one large page. *)
Fixpoint inside_large (ls : list level) (m : store) (tb va size : Z) : bool :=
  match ls with
  | [] => false
  | l :: ls' =>
      match m !! tb ≫= (.!! cell_index l va) with
      | Some c => if Page_sz l <=? size then false
                  else if mmu_is_dir (Level l) c then inside_large ls' m (kid vs l c) va size
                  else mmu_is_map (Level l) c
      | None => false
      end
  end.

Definition unmapped (ls : list level) (A : Z) (st st' : pstate H) (tb lo hi : Z) : Prop :=
  kheap st' = kheap st /\ (forall b, is_Some (tabs st' !! b) -> is_Some (tabs st !! b)) /\
  mapped true ls A st st' tb lo hi hi (fun _ => None).

Definition unmaps (ls : list level) (A : Z) (child : pstate H -> Z -> Z -> Z -> res (pstate H)) : Prop :=
  forall st tb va s, wf vs ls (tabs st) tb -> 0 <= va -> 12 <= s -> (2 ^ s | va) -> va + 2 ^ s <= 2 ^ addr_w ->
    va / A = (va + 2 ^ s - 1) / A ->
    if inside_large ls (tabs st) tb va (2 ^ s) then child st tb va (2 ^ s) = Stop FPanic
    else exists st', child st tb va (2 ^ s) = Ok st' /\ unmapped ls A st st' tb va (va + 2 ^ s).

Section Unmap_loop.
Context (l : level) (ls : list level) (child : pstate H -> Z -> Z -> Z -> res (pstate H)) (tb : Z).
Hypothesis Hg : 12 <= Index_low l <= Index_hi l.
Hypothesis Hl : l ∈ ptables.
Hypothesis Hchild : unmaps ls (Page_sz l) child.
Hypothesis Hsub : forall m k va, inside_large ls m k va (Page_sz l) = false.

Abbreviation run fuel st va rest := (unmap_loop vs child l ls fuel st tb va rest).

(** The record of [va] is a directory: the child call. *)
Lemma unmap_dir st va s t c : wf vs (l :: ls) (tabs st) tb -> 0 <= va -> 12 <= s -> (2 ^ s | va) ->
  va + 2 ^ s <= 2 ^ addr_w -> cell_start l va <= va -> va + 2 ^ s <= cell_start l va + Page_sz l ->
  tabs st !! tb = Some t -> t !! cell_index l va = Some c -> mmu_is_dir (Level l) c = true ->
  if inside_large ls (tabs st) (kid vs l c) va (2 ^ s) then child st (kid vs l c) va (2 ^ s) = Stop FPanic
  else exists st', child st (kid vs l c) va (2 ^ s) = Ok st' /\
         unmapped (l :: ls) (Aspace_sz l) st st' tb va (va + 2 ^ s).
Proof using Hg Hchild MS.
  intros W Hva Hs Hal Hhi H1 H2 Et Ec Ed. assert (0 < 2 ^ s) by (apply Z.pow_pos_nonneg; lia).
  pose proof W as (t0 & Et0 & _ & _ & Hk & _). rewrite Et in Et0. injection Et0 as <-.
  destruct (Hk _ _ (conj Ec Ed)) as (Wk & _).
  assert (Hbk : va / Page_sz l = (va + 2 ^ s - 1) / Page_sz l) by (symmetry; apply same_cell; [done | lia]).
  pose proof (Hchild st (kid vs l c) va s Wk Hva Hs Hal Hhi Hbk) as Hc.
  destruct (inside_large ls (tabs st) (kid vs l c) va (2 ^ s)); [done |]. destruct Hc as (st' & E & Hh & Hdm & Hm).
  exists st'. split; [done |]. split; [done |]. split; [done |].
  eapply (child_mapped true l ls st st st' tb va (va + 2 ^ s) (va + 2 ^ s) t c); try done; try lia.
  - by apply cell_block.
  - by apply evolves_refl.
  - by apply lookup_lt_Some in Ec.
  - by rewrite list_insert_id.
Qed.

(** A large page that is unmapped as a whole. *)
Lemma unmap_page st va t c : wf vs (l :: ls) (tabs st) tb -> 0 <= va -> va mod Page_sz l = 0 ->
  tabs st !! tb = Some t -> t !! cell_index l va = Some c -> mmu_is_map (Level l) c = true ->
  exists st', set_cell st l tb va (mmu_set_inv (Level l) c) = Ok st' /\
    unmapped (l :: ls) (Aspace_sz l) st st' tb va (va + Page_sz l).
Proof using Hg Hl MS.
  intros W Hva Hal Et Ec Em. destruct (Page_sz_pos l Hg) as [HP _]. set (c' := mmu_set_inv (Level l) c).
  destruct (spec_inv l c Hl) as [Ei _]. fold c' in Ei. destruct (spec_excl (Level l) c') as [X1 X2].
  assert (Ed' : mmu_is_dir (Level l) c' = false) by (destruct (mmu_is_dir (Level l) c'); naive_solver congruence).
  assert (Em' : mmu_is_map (Level l) c' = false) by (destruct (mmu_is_map (Level l) c'); naive_solver congruence).
  assert (Ecs : cell_start l va = va) by (unfold cell_start; lia).
  unfold set_cell. rewrite Et. cbn [from_opt mbind res_bind]. rewrite Ec. cbn [from_opt mbind res_bind].
  eexists. split; [reflexivity |]. split; [done |]. split.
  { intros b. simpl. destruct (decide (b = tb)) as [-> | Hne]; [by rewrite Et | by rewrite lookup_insert_ne by done]. }
  destruct (cell_update vs l ls (tabs st) (<[tb:=<[cell_index l va:=c']> t]> (tabs st)) tb t (cell_index l va) c c')
    as (Ev & Tr & Oth); try done.
  - by rewrite lookup_insert_eq.
  - by right; right.
  - intros b Hb' Hne _. by rewrite lookup_insert_ne.
  - intros b Hb'. destruct (decide (b = tb)) as [-> | Hne]; [by rewrite lookup_insert_eq | by rewrite lookup_insert_ne].
  - congruence.
  - split_and!; [done | | lia]. intros x Hx. destruct (Z.leb_spec va x), (Z.ltb_spec x (va + Page_sz l)); simpl.
    2-4: apply Tr; rewrite cell_index_inj, same_cell by done; lia.
    assert (Ecell : cell_index l x = cell_index l va) by (rewrite cell_index_inj, same_cell by done; lia).
    rewrite lookup_insert_eq. simpl. rewrite Ecell, list_lookup_insert_eq by (by apply lookup_lt_Some in Ec).
    simpl. by rewrite Em', Ed'.
Qed.

(** An invalid record: nothing below it is mapped. *)
Lemma unmap_inv st va n t c : wf vs (l :: ls) (tabs st) tb -> 0 <= va -> 0 < n -> va + n <= cell_start l va + Page_sz l ->
  tabs st !! tb = Some t -> t !! cell_index l va = Some c -> mmu_is_inv (Level l) c = true ->
  unmapped (l :: ls) (Aspace_sz l) st st tb va (va + n).
Proof using Hg MS.
  intros W Hva Hn Hle Et Ec Ei. destruct (spec_excl (Level l) c) as [X1 X2]. split; [done |]. split; [done |].
  split_and!; [by apply evolves_refl | | lia]. intros x Hx.
  destruct (Z.leb_spec va x), (Z.ltb_spec x (va + n)); simpl; try done.
  assert (cell_index l x = cell_index l va) as ->.
  { rewrite cell_index_inj, same_cell by done. destruct (cell_start_spec l Hg va). lia. }
  rewrite Et. simpl. rewrite Ec. simpl.
  destruct (mmu_is_map (Level l) c); [naive_solver congruence |]. by destruct (mmu_is_dir (Level l) c); [naive_solver congruence |].
Qed.

Lemma unmap_iter fuel st va rest t c : rest <> 0 -> wf vs (l :: ls) (tabs st) tb -> tabs st !! tb = Some t ->
  t !! cell_index l va = Some c ->
  run (S fuel) st va rest =
    p ← (if mmu_is_dir (Level l) c then
           st' ← child st (kid vs l c) va (cell_len l va rest); Ok (cell_len l va rest, st')
         else if mmu_is_map (Level l) c then
           if rest <? Page_sz l then Stop FPanic
           else st' ← set_cell st l tb va (mmu_set_inv (Level l) c); Ok (Page_sz l, st')
         else Ok (Z.min rest (Page_sz l), st));
    run fuel p.2 (wrap addr_w (va + p.1)) (wrap addr_w (rest - p.1)).
Proof using MS.
  intros Hr W Et Ec. cbn [unmap_loop]. rewrite (proj2 (Z.eqb_neq rest 0)) by done. unfold get_cell. rewrite Et.
  cbn [from_opt mbind res_bind]. rewrite Ec. cbn [from_opt mbind res_bind].
  pose proof W as (t0 & Et0 & _ & Hkn & Hk & _). rewrite Et in Et0. injection Et0 as <-.
  pose proof (Forall_lookup_1 _ _ _ _ Hkn Ec) as Hc. destruct (mmu_is_dir (Level l) c) eqn:Ed.
  - unfold kmem_vaddr. fold (kid vs l c). destruct (Hk _ _ (conj Ec Ed)) as (_ & -> & _). done.
  - destruct (mmu_is_map (Level l) c) eqn:Em; [done |]. by destruct Hc as [? | [? | ->]]; [congruence | congruence |].
Qed.

Lemma run_unmap_done fuel st va : run fuel st va 0 = Ok st.
Proof. by destruct fuel. Qed.

(** The range lies in the cell of [va]. *)
Lemma unmap_small fuel st va s t c : wf vs (l :: ls) (tabs st) tb -> 0 <= va -> 12 <= s -> (2 ^ s | va) ->
  va + 2 ^ s <= 2 ^ addr_w -> 2 ^ s < Page_sz l -> va + 2 ^ s <= cell_start l va + Page_sz l ->
  tabs st !! tb = Some t -> t !! cell_index l va = Some c ->
  if inside_large (l :: ls) (tabs st) tb va (2 ^ s) then run (S fuel) st va (2 ^ s) = Stop FPanic
  else exists st', run (S fuel) st va (2 ^ s) = Ok st' /\ unmapped (l :: ls) (Aspace_sz l) st st' tb va (va + 2 ^ s).
Proof using Hg Hchild MS.
  intros W Hva Hs Hal Hhi Hlt Hend Et Ec. assert (0 < 2 ^ s) by (apply Z.pow_pos_nonneg; lia).
  destruct (cell_start_spec l Hg va) as [Hcs _].
  assert (Elen : cell_len l va (2 ^ s) = 2 ^ s) by (pose proof (cell_len_end l va (2 ^ s) Hg); lia).
  rewrite (unmap_iter fuel st va (2 ^ s) t c) by (lia || done). cbn [inside_large]. rewrite Et. cbn [mbind option_bind].
  rewrite Ec, (proj2 (Z.leb_gt (Page_sz l) (2 ^ s))), Elen, (proj2 (Z.ltb_lt (2 ^ s) (Page_sz l))) by lia.
  destruct (mmu_is_dir (Level l) c) eqn:Ed.
  - pose proof (unmap_dir st va s t c W Hva Hs Hal Hhi ltac:(lia) Hend Et Ec Ed) as Hc.
    destruct (inside_large ls (tabs st) (kid vs l c) va (2 ^ s)); [by rewrite Hc |]. destruct Hc as (st' & -> & Hu).
    exists st'. cbn [mbind res_bind fst snd]. rewrite Z.sub_diag. by rewrite run_unmap_done.
  - destruct (mmu_is_map (Level l) c) eqn:Em; [done |]. exists st. cbn [mbind res_bind fst snd].
    rewrite Z.min_l, Z.sub_diag, run_unmap_done by lia. split; [done |]. eapply unmap_inv; try done.
    destruct W as (t0 & Et0 & _ & Hkn & _). rewrite Et in Et0. injection Et0 as <-.
    by destruct (Forall_lookup_1 _ _ _ _ Hkn Ec) as [? | [? | ?]]; [congruence | congruence |].
Qed.

Lemma unmapped_trans st1 st2 st3 lo mid hi : lo <= mid <= hi -> mid / Aspace_sz l = lo / Aspace_sz l ->
  unmapped (l :: ls) (Aspace_sz l) st1 st2 tb lo mid -> unmapped (l :: ls) (Aspace_sz l) st2 st3 tb mid hi ->
  unmapped (l :: ls) (Aspace_sz l) st1 st3 tb lo hi.
Proof.
  intros Hm Hb (E1 & D1 & V1 & T1 & _) (E2 & D2 & V2 & T2 & _). split; [congruence |]. split; [auto |]. split_and!; [by eapply evolves_trans | | lia].
  intros x Hx. rewrite T2, T1 by congruence.
  destruct (Z.leb_spec lo x), (Z.ltb_spec x mid), (Z.leb_spec mid x), (Z.ltb_spec x hi); simpl; done || lia.
Qed.

(** The range is a row of whole cells. *)
Lemma unmap_cells fuel : forall st va n, wf vs (l :: ls) (tabs st) tb -> 0 <= va -> 0 < n <= Z.of_nat fuel -> (Page_sz l | va) ->
  va + n * Page_sz l <= 2 ^ addr_w -> va / Aspace_sz l = (va + n * Page_sz l - 1) / Aspace_sz l ->
  exists st', run fuel st va (n * Page_sz l) = Ok st' /\
    unmapped (l :: ls) (Aspace_sz l) st st' tb va (va + n * Page_sz l).
Proof using Hg Hl Hchild Hsub MS.
  destruct (Page_sz_pos l Hg) as [HP _].
  assert (HA : 0 < Aspace_sz l) by (rewrite Aspace_sz_mul by done; destruct (Table_sz_pow l Hg); nia).
  induction fuel as [|fuel IH]; intros st va n W Hva Hn Hal Hhi Hb; [lia |].
  pose proof (proj2 (Z.mod_divide va (Page_sz l) ltac:(lia)) Hal) as Hm0.
  assert (Ecs : cell_start l va = va) by (unfold cell_start; lia).
  destruct (get_cell_wf l ls st tb va Hg W) as (t & c & Et & Ec & _ & Hkn).
  rewrite (unmap_iter fuel st va (n * Page_sz l) t c) by (nia || done).
  assert (Elen : cell_len l va (n * Page_sz l) = Page_sz l) by (pose proof (cell_len_end l va (n * Page_sz l) Hg); nia).
  rewrite Elen, (proj2 (Z.ltb_ge (n * Page_sz l) (Page_sz l))), Z.min_r by nia.
  assert (Hstep : exists st1, (if mmu_is_dir (Level l) c then st' ← child st (kid vs l c) va (Page_sz l); Ok (Page_sz l, st')
      else if mmu_is_map (Level l) c then st' ← set_cell st l tb va (mmu_set_inv (Level l) c); Ok (Page_sz l, st')
      else Ok (Page_sz l, st)) = Ok (Page_sz l, st1) /\ unmapped (l :: ls) (Aspace_sz l) st st1 tb va (va + Page_sz l)).
  { destruct (mmu_is_dir (Level l) c) eqn:Ed; [| destruct (mmu_is_map (Level l) c) eqn:Em].
    - pose proof (unmap_dir st va (Index_low l) t c W Hva ltac:(lia)) as Hc. rewrite <- (Page_sz_pow l Hg), Hsub in Hc.
      destruct Hc as (st1 & -> & Hu); try done; try lia; [nia |]. by exists st1.
    - destruct (unmap_page st va t c W Hva Hm0 Et Ec Em) as (st1 & -> & Hu). by exists st1.
    - exists st. split; [done |]. eapply unmap_inv; try done; try lia.
      by destruct Hkn as [? | [? | ?]]; [congruence | congruence |]. }
  destruct Hstep as (st1 & -> & Hu). cbn [mbind res_bind fst snd].
  replace (n * Page_sz l - Page_sz l) with ((n - 1) * Page_sz l) by lia.
  rewrite (wrap_small _ ((n - 1) * Page_sz l)) by (unfold in_range; nia).
  destruct (Z.eq_dec n 1) as [-> | Hne].
  { exists st1. rewrite Z.sub_diag, Z.mul_0_l, Z.mul_1_l, run_unmap_done. done. }
  rewrite wrap_small by (unfold in_range; nia).
  assert (Hb2 : (va + Page_sz l) / Aspace_sz l = va / Aspace_sz l).
  { apply (block_between _ va _ (va + n * Page_sz l - 1)); [done | nia | done]. }
  destruct (IH st1 (va + Page_sz l) (n - 1)) as (st2 & E2 & Hu2); try lia; try nia.
  - destruct Hu as (_ & _ & (W1 & _) & _). done.
  - apply Z.divide_add_r; [done | apply Z.divide_refl].
  - rewrite Hb2, Hb. f_equal. lia.
  - exists st2. split; [done |]. replace (va + n * Page_sz l) with (va + Page_sz l + (n - 1) * Page_sz l) by lia.
    eapply unmapped_trans; [| | exact Hu | exact Hu2]; [nia | done].
Qed.

End Unmap_loop.

Lemma inside_large_child l' ls m k va size : Page_sz l' <= size -> inside_large (l' :: ls) m k va size = false.
Proof. intros Hs. cbn [inside_large]. rewrite (proj2 (Z.leb_le _ _) Hs). by case_match. Qed.

Lemma ptable_unmap_ok ls : forall h, chain has_dir h ls -> Forall (fun l => l ∈ ptables) ls ->
  unmaps ls (2 ^ (h + 1)) (ptable_unmap vs ls).
Proof.
  induction ls as [|l ls IH]; intros h Hch Hin; [by intros st tb va s [] |].
  destruct Hch as (Eh & Hlow & Hhd & Hch). apply Forall_cons in Hin as [Hl Hin]. rewrite <- Eh in *.
  intros st tb va s W Hva Hs Hal Hhi Hb. assert (Hp : 0 < 2 ^ s) by (apply Z.pow_pos_nonneg; lia).
  assert (EA : Aspace_sz l = 2 ^ (Index_hi l + 1)) by (unfold Aspace_sz; rewrite Z.shiftl_mul_pow2 by lia; lia).
  rewrite <- EA in *. destruct (Page_sz_pos l Hlow) as [HP HPd]. destruct (Table_sz_pow l Hlow) as [_ HT].
  pose proof (Aspace_sz_mul l Hlow) as EP.
  assert (HszA : 2 ^ s <= Aspace_sz l) by (apply (block_size _ va); [nia | done | done]).
  assert (A12 : (4096 | 2 ^ s)) by (exists (2 ^ (s - 12)); change 4096 with (2 ^ 12); rewrite <- Z.pow_add_r by lia; f_equal; lia).
  assert (Hc : unmaps ls (Page_sz l) (ptable_unmap vs ls)).
  { rewrite (Page_sz_pow l Hlow). replace (Index_low l) with (Index_low l - 1 + 1) by lia. by apply IH. }
  assert (Hsub : forall m k x, inside_large ls m k x (Page_sz l) = false).
  { intros m k x. destruct ls as [|l' ls']; [done |]. apply inside_large_child. destruct Hch as (E' & ? & _).
    unfold Page_sz. rewrite !Z.shiftl_mul_pow2 by lia. rewrite !Z.mul_1_l. apply Z.pow_le_mono_r; lia. }
  cbn [ptable_unmap]. rewrite !(proj2 (isalign_spec _)), (proj2 (Z.leb_le _ _) HszA)
    by (done || by apply (Z.divide_trans _ (2 ^ s))). cbn [wassert mbind res_bind].
  assert (Hf : (loop_fuel l = S (Z.to_nat (Table_sz l + 1)))%nat) by (unfold loop_fuel; lia). 
  destruct (Z.le_gt_cases (Page_sz l) (2 ^ s)) as [Hle | Hgt].
  - rewrite inside_large_child by done.
    assert (Hsl : Index_low l <= s).
    { rewrite (Page_sz_pow l Hlow) in Hle. destruct (Z.le_gt_cases (Index_low l) s); [done |].
      assert (2 ^ s < 2 ^ Index_low l) by (apply Z.pow_lt_mono_r; lia). lia. }
    assert (En : 2 ^ s = 2 ^ (s - Index_low l) * Page_sz l).
    { rewrite (Page_sz_pow l Hlow), <- Z.pow_add_r by lia. f_equal. lia. }
    assert (0 < 2 ^ (s - Index_low l)) by (apply Z.pow_pos_nonneg; lia).
    rewrite En in *. apply unmap_cells; try done.
    + unfold loop_fuel. rewrite Z2Nat.id by lia. nia.
    + apply Z.divide_trans with (2 ^ (s - Index_low l) * Page_sz l); [apply Z.divide_factor_r | done].
  - destruct (get_cell_wf l ls st tb va Hlow W) as (t & c & Et & Ec & _). rewrite Hf.
    eapply unmap_small; try done. apply pow_in_cell; try done. lia.
Qed.

(** ** walk *)

(** The mapped pages of the range have non-zero 64-bit physical addresses. *)
Definition nonzero (ls : list level) (m : store) (tb lo hi : Z) : Prop :=
  forall x p a k, lo <= x < hi -> translate vs ls m tb x = Some (p, a, k) -> 0 < p < 2 ^ 64.

(** [r] is the address of [lo] when the whole range is mapped, 0 when some
    part of it is not. *)
Definition walked (ls : list level) (m : store) (tb lo hi pa r : Z) : Prop :=
  (forall p a k, (forall x, lo <= x < hi -> is_Some (translate vs ls m tb x)) ->
     translate vs ls m tb lo = Some (p, a, k) -> r = if pa =? 0 then p else pa) /\
  (forall x, lo <= x < hi -> translate vs ls m tb x = None -> r = 0).

Definition walks (ls : list level) (A : Z) (st : pstate H) (child : Z -> Z -> Z -> res Z) : Prop :=
  forall tb va size, wf vs ls (tabs st) tb -> 0 <= va -> 0 < size -> (4096 | va) -> (4096 | size) ->
    va + size <= 2 ^ addr_w -> va / A = (va + size - 1) / A -> nonzero ls (tabs st) tb va (va + size) ->
    exists r, child tb va size = Ok r /\ walked ls (tabs st) tb va (va + size) 0 r.

Lemma range_mapped ls m tb lo hi : (forall x, lo <= x < hi -> is_Some (translate vs ls m tb x)) \/
  exists x, lo <= x < hi /\ translate vs ls m tb x = None.
Proof.
  destruct (Forall_Exists_dec (fun x => is_Some (translate vs ls m tb x)) (fun x => translate vs ls m tb x = None))
    with (l := seqZ lo (hi - lo)) as [F | E].
  - intros x. destruct (translate vs ls m tb x); [left; by eexists | by right].
  - left. intros x Hx. rewrite Forall_forall in F. apply F, elem_of_seqZ. lia.
  - right. apply Exists_exists in E as (x & Hx%elem_of_seqZ & E). exists x. split; [lia | done].
Qed.

Section Walk_loop.
Context (st : pstate H) (l : level) (ls : list level) (child : Z -> Z -> Z -> res Z) (tb hi : Z).
Hypothesis Hg : 12 <= Index_low l <= Index_hi l.
Hypothesis W : wf vs (l :: ls) (tabs st) tb.
Hypothesis Hchild : walks ls (Page_sz l) st child.
Hypothesis Hhi : hi <= 2 ^ addr_w.
Hypothesis Ah : (4096 | hi).

Abbreviation run fuel pa va rest := (walk_loop vs child l ls fuel st tb pa va rest).
Abbreviation tr x := (translate vs (l :: ls) (tabs st) tb x).

(** What the cell of [va] says about [va, va'). *)
Lemma walk_cell va : 0 <= va < hi -> (4096 | va) -> va / Aspace_sz l = (hi - 1) / Aspace_sz l ->
  nonzero (l :: ls) (tabs st) tb va hi ->
  let va' := Z.min hi (cell_start l va + Page_sz l) in
  (exists p a k, tr va = Some (p, a, k) /\ (forall x, va <= x < va' -> is_Some (tr x)) /\
     forall fuel pa, run (S fuel) pa va (hi - va) = run fuel (if pa =? 0 then p else pa) (wrap addr_w va') (hi - va')) \/
  ((forall fuel pa, run (S fuel) pa va (hi - va) = Ok 0) /\ exists x, va <= x < va' /\ tr x = None).
Proof using Hg W Hchild Hhi Ah MS.
  intros Hva Hal Hb Hnz va'. destruct (cell_start_spec l Hg va) as [Hcs _]. destruct (Page_sz_pos l Hg) as [HP _].
  destruct (get_cell_wf l ls st tb va Hg W) as (t & c & Et & Ec & Egc & Hkn).
  pose proof (cell_len_end l va (hi - va) Hg) as Elen. replace (va + (hi - va)) with hi in Elen by lia. fold va' in Elen.
  assert (HA : 0 < Aspace_sz l) by (rewrite Aspace_sz_mul by done; destruct (Table_sz_pow l Hg); nia).
  assert (Hx : forall x, va <= x < va' -> cell_index l x = cell_index l va).
  { intros x Hx. rewrite cell_index_inj, same_cell by (done || apply (block_between _ va x (hi - 1)); lia || done). lia. }
  assert (Htr : forall x, va <= x < va' -> tr x =
    if mmu_is_map (Level l) c then Some (mmu_get_map_pa (Level l) c + x mod Page_sz l, mmu_map_acc (Level l) c, mmu_get_map_cached (Level l) c)
    else if mmu_is_dir (Level l) c then translate vs ls (tabs st) (kid vs l c) x else None).
  { intros x Hxx. cbn [translate]. rewrite Et. cbn [mbind option_bind]. by rewrite Hx, Ec by done. }
  assert (Hrest : forall n, wrap addr_w (hi - va - n) = wrap addr_w (hi - (va + n))) by (intros; f_equal; lia).
  assert (Hin : mmu_is_dir (Level l) c = true -> wf vs ls (tabs st) (kid vs l c) /\ kmem_inside vs (kid vs l c) (child_bytes ls) = true).
  { destruct W as (t0 & Et0 & _ & _ & Hk & _). rewrite Et in Et0. injection Et0 as <-. intros Ed.
    by destruct (Hk _ _ (conj Ec Ed)) as (? & ? & _). }
  destruct (spec_excl (Level l) c) as [X1 X2].
  assert (Hr : forall fuel pa, run (S fuel) pa va (hi - va) =
    if mmu_is_inv (Level l) c then Ok 0
    else if mmu_is_dir (Level l) c then
      r ← child (kid vs l c) va (cell_len l va (hi - va));
      if r =? 0 then Ok 0 else run fuel (if pa =? 0 then r else pa) (wrap addr_w va') (hi - va')
    else run fuel (if pa =? 0 then u64 (mmu_get_map_pa (Level l) c + va mod Page_sz l) else pa) (wrap addr_w va') (hi - va')).
  { intros fuel pa. cbn [walk_loop]. rewrite (proj2 (Z.eqb_neq (hi - va) 0)), Egc by lia. cbn [mbind res_bind].
    rewrite Elen, offset_mod by done. rewrite (wrap_small _ (hi - va - _)) by (unfold in_range; lia).
    replace (hi - va - cell_len l va (hi - va)) with (hi - va') by lia.
    destruct (mmu_is_inv (Level l) c) eqn:Ei; [done |]. destruct (mmu_is_dir (Level l) c) eqn:Ed.
    - unfold kmem_vaddr. fold (kid vs l c). by rewrite (proj2 (Hin eq_refl)).
    - destruct Hkn as [? | [-> | ?]]; [congruence | done | congruence]. }
  destruct Hkn as [Ed | [Em | Ei]].
  - destruct (X1 Ed) as [Em Ei]. rewrite Ed, Em in Htr. rewrite Ei, Ed in Hr.
    destruct (Hchild (kid vs l c) va (cell_len l va (hi - va))) as (r & Er & Hw1 & Hw2); try lia; try done.
    + by apply Hin.
    + replace (cell_len l va (hi - va)) with (va' - va) by lia. apply Z.divide_sub_r; [| done].
      destruct (aligned_cell l va Hg Hal). unfold va'. by destruct (Z.min_spec hi (cell_start l va + Page_sz l)) as [[_ ->] | [_ ->]].
    + symmetry. apply same_cell; [done | lia].
    + rewrite Elen. intros x p a k Hxx Et'. apply (Hnz x p a k); [lia |]. by rewrite Htr.
    + rewrite Elen in *. rewrite Er in Hr. cbn [mbind res_bind] in Hr.
      destruct (range_mapped ls (tabs st) (kid vs l c) va va') as [Hall | (x & Hxx & Ex)].
      * left. destruct (Hall va ltac:(lia)) as [[[p a] k] Ep]. exists p, a, k. rewrite Htr by lia. split_and!; [done | |].
        { intros x Hxx. rewrite Htr by done. by apply Hall. }
        specialize (Hw1 p a k Hall Ep). simpl in Hw1. subst r. intros fuel pa. rewrite Hr.
        assert (0 < p) by (apply (Hnz va p a k); [lia |]; by rewrite Htr by lia).
        by rewrite (proj2 (Z.eqb_neq p 0)) by lia.
      * right. rewrite (Hw2 x Hxx Ex) in Hr. split; [done |]. exists x. split; [done |]. by rewrite Htr.
  - left. rewrite (X2 Em) in Hr. destruct (mmu_is_dir (Level l) c) eqn:Ed; [destruct (X1 eq_refl); congruence |].
    do 3 eexists. split_and!; [rewrite Htr, Em by lia; reflexivity | intros x Hxx; rewrite Htr, Em by done; by eexists |].
    intros fuel pa. rewrite Hr. rewrite (wrap_small 64); [done |].
    assert (E : tr va = Some (mmu_get_map_pa (Level l) c + va mod Page_sz l, mmu_map_acc (Level l) c, mmu_get_map_cached (Level l) c))
      by (rewrite Htr, Em by lia; done).
    apply Hnz in E; [unfold in_range; lia | lia].
  - right. rewrite Ei in Hr. split; [done |]. exists va. split; [lia |]. rewrite Htr by lia.
    destruct (mmu_is_map (Level l) c); [naive_solver congruence |]. by destruct (mmu_is_dir (Level l) c); [naive_solver congruence |].
Qed.

Lemma walk_loop_ok fuel : forall pa va, 0 <= va < hi -> (4096 | va) -> va / Aspace_sz l = (hi - 1) / Aspace_sz l ->
  nonzero (l :: ls) (tabs st) tb va hi -> hi - cell_start l va <= Z.of_nat fuel * Page_sz l ->
  exists r, run fuel pa va (hi - va) = Ok r /\ walked (l :: ls) (tabs st) tb va hi pa r.
Proof using Hg W Hchild Hhi Ah MS.
  destruct (Page_sz_pos l Hg) as [HP _].
  assert (HA : 0 < Aspace_sz l) by (rewrite Aspace_sz_mul by done; destruct (Table_sz_pow l Hg); nia).
  induction fuel as [|fuel IH]; intros pa va Hva Hal Hb Hnz Hf; destruct (cell_start_spec l Hg va) as [Hcs _]; [lia |].
  destruct (walk_cell va Hva Hal Hb Hnz) as [(p & a & k & Ep & Hall & Hr) | [Hr (x & Hx & Ex)]]; rewrite Hr.
  2: { exists 0. split; [done |]. split; [| done]. intros p a k Hall _. destruct (Hall x ltac:(lia)). congruence. }
  set (va' := Z.min hi (cell_start l va + Page_sz l)) in *. destruct (Z.eq_dec va' hi) as [E | Hne].
  { rewrite E, Z.sub_diag. exists (if pa =? 0 then p else pa). split; [by destruct fuel |]. split.
    - intros p' a' k' _ Ep'. by assert (p' = p) as -> by congruence.
    - intros x Hx Ex. destruct (Hall x ltac:(lia)). congruence. }
  assert (Ev : va' = cell_start l va + Page_sz l) by lia. rewrite wrap_small by (unfold in_range; lia).
  destruct (IH (if pa =? 0 then p else pa) va') as (r & Er & Hw1 & Hw2).
  - lia.
  - rewrite Ev. by apply aligned_cell.
  - rewrite <- Hb. apply (block_between _ va va' (hi - 1)); [done | lia | done].
  - intros x q a' k' Hx. apply Hnz. lia.
  - rewrite Ev, (proj2 (next_cell l Hg va)). lia.
  - exists r. split; [done |]. split.
    + intros p' a' k' Hall' Ep'. assert (p' = p) as -> by congruence.
      destruct (Hall' va' ltac:(lia)) as [[[q b] k2] Eq]. rewrite (Hw1 q b k2); [| intros; apply Hall'; lia | done].
      assert (0 < p) by (apply (Hnz va p a' k'); [lia | done]).
      destruct (Z.eqb_spec pa 0); [by rewrite (proj2 (Z.eqb_neq p 0)) by lia | by rewrite (proj2 (Z.eqb_neq pa 0))].
    + intros x Hx Ex. destruct (Z.lt_ge_cases x va'); [destruct (Hall x ltac:(lia)); congruence |]. apply (Hw2 x); [lia | done].
Qed.

End Walk_loop.

Lemma ptable_walk_ok st ls : forall h, chain has_dir h ls -> Forall (fun l => l ∈ ptables) ls ->
  walks ls (2 ^ (h + 1)) st (ptable_walk vs ls st).
Proof.
  induction ls as [|l ls IH]; intros h Hch Hin; [by intros tb va s [] |].
  destruct Hch as (Eh & Hlow & _ & Hch). apply Forall_cons in Hin as [Hl Hin]. rewrite <- Eh in *.
  intros tb va size W Hva Hsz Av As Hhi Hb Hnz.
  assert (EA : Aspace_sz l = 2 ^ (Index_hi l + 1)) by (unfold Aspace_sz; rewrite Z.shiftl_mul_pow2 by lia; lia).
  rewrite <- EA in *. destruct (Page_sz_pos l Hlow) as [HP _]. destruct (Table_sz_pow l Hlow) as [_ HT].
  pose proof (Aspace_sz_mul l Hlow) as EP.
  assert (HszA : size <= Aspace_sz l) by (apply (block_size _ va); [nia | done | done]).
  cbn [ptable_walk]. rewrite !(proj2 (isalign_spec _)), (proj2 (Z.leb_le _ _) HszA) by done. cbn [wassert mbind res_bind].
  assert (Hc : walks ls (Page_sz l) st (ptable_walk vs ls st)).
  { rewrite (Page_sz_pow l Hlow). replace (Index_low l) with (Index_low l - 1 + 1) by lia. by apply IH. }
  destruct (walk_loop_ok st l ls (ptable_walk vs ls st) tb (va + size) Hlow W Hc Hhi (Z.divide_add_r _ _ _ Av As)
              (loop_fuel l) 0 va) as (r & E & Hw); try done; try lia.
  - unfold loop_fuel. rewrite Z2Nat.id by lia. destruct (cell_start_spec l Hlow va). nia.
  - exists r. by replace (va + size - va) with size in E by lia.
Qed.
End Map.
