(* ===== verification/Aspace.v ===== *)
(** krn/kmem.h: class [Aspace], virtual address spaces.

    An address space keeps its user mappings twice: as a region list
    ([_uspace], AddressSpace.v) and in its page tables ([_pgtab], Ptable.v).
    The kernel's own regions ([_kspace]) and tables are shared by all address
    spaces.  The tables come from the kernel heap: Kmem.v discharges the
    interface [TableHeapSpec] of the page tables here. *)

From Stdlib Require Import ZArith Lia Bool.
From stdpp Require Import base gmap list numbers relations.
From S2P Require Import Prelude SysUtils ListSpec L4Types AddressSpace Kmem Mmu Ptable PtableSpec.

(** ** krn/access.h *)

Definition Acc_kr : Z := Z.shiftl 1 5.
Definition Acc_kw : Z := Z.shiftl 1 4.
Definition Acc_kx : Z := Z.shiftl 1 3.
Definition Acc_ur : Z := Z.shiftl 1 2.
Definition Acc_uw : Z := Z.shiftl 1 1.
Definition Acc_ux : Z := Z.shiftl 1 0.
Definition Acc_krx : Z := Z.lor Acc_kr Acc_kx.
Definition Acc_krw : Z := Z.lor Acc_kr Acc_kw.
Definition Acc_krwx : Z := Z.lor (Z.lor Acc_kr Acc_kw) Acc_kx.
Definition Acc_urx : Z := Z.lor Acc_ur Acc_ux.
Definition Acc_urw : Z := Z.lor Acc_ur Acc_uw.
Definition Acc_krw_urw : Z := Z.lor Acc_krw Acc_urw.
Definition Acc_kx_ux : Z := Z.lor Acc_kx Acc_ux.
Definition Acc_kw_ur : Z := Z.lor Acc_kw Acc_ur.
Definition Acc_kdata : Z := Acc_krw.
Definition Acc_kutcb : Z := Acc_krw.
Definition Acc_ktext : Z := Acc_krx.
Definition Acc_krodata : Z := Acc_kr.
Definition Acc_kio : Z := Acc_krw.
Definition Acc_kkip : Z := Acc_krw.
Definition Acc_ukip : Z := Acc_ur.
Definition Acc_utcb : Z := Acc_krw_urw.
Definition Acc_kutext : Z := Acc_kx_ux.

(** A switch over the access constants; any other value fails the assertion. *)
Definition acc_switch (t : list (Z * Z)) (acc : Z) : res Z :=
  match List.find (fun p => p.1 =? acc) t with Some p => Ok p.2 | None => Stop FAssert end.

(** krn/sparc/acc2mmuacc.h *)
Definition sparc_acc2mmuacc : Z -> res Z := acc_switch
  [(Acc_kr, 6); (Acc_kw, 7); (Acc_kx, 6); (Acc_ur, 0); (Acc_uw, 1); (Acc_ux, 4); (Acc_krx, 6); (Acc_krw, 7);
   (Acc_krwx, 7); (Acc_urx, 2); (Acc_urw, 1); (Acc_urwx, 3); (Acc_krw_urw, 3); (Acc_kx_ux, 4); (Acc_kw_ur, 5)].

(** krn/arm/acc2mmuacc.h *)
Definition arm_acc2mmuacc : Z -> res Z := acc_switch
  [(Acc_kr, 1); (Acc_kw, 1); (Acc_kx, 1); (Acc_ur, 2); (Acc_uw, 3); (Acc_ux, 2); (Acc_krx, 1); (Acc_krw, 1);
   (Acc_krwx, 1); (Acc_urx, 2); (Acc_urw, 3); (Acc_urwx, 3); (Acc_krw_urw, 3); (Acc_kx_ux, 2); (Acc_kw_ur, 2)].

(** krn/x86/acc2mmuacc.h, also for x86_64 *)
Definition x86_acc2mmuacc : Z -> res Z := acc_switch
  [(Acc_kr, 0); (Acc_kw, 1); (Acc_kx, 0); (Acc_ur, 2); (Acc_uw, 3); (Acc_ux, 2); (Acc_krx, 0); (Acc_krw, 1);
   (Acc_krwx, 1); (Acc_urx, 2); (Acc_urw, 3); (Acc_urwx, 3); (Acc_krw_urw, 3); (Acc_kx_ux, 2); (Acc_kw_ur, 3)].

(** The architecture the kernel is compiled for. *)
Class Arch := {
  arch_mmu :: Mmu;
  acc2mmuacc : Z -> res Z;
  is_sparc : bool }.

Definition sparc_arch : Arch := {| arch_mmu := sparc; acc2mmuacc := sparc_acc2mmuacc; is_sparc := true |}.
Definition arm_arch : Arch := {| arch_mmu := arm; acc2mmuacc := arm_acc2mmuacc; is_sparc := false |}.
Definition x86_arch : Arch := {| arch_mmu := x86 false; acc2mmuacc := x86_acc2mmuacc; is_sparc := false |}.

#[global] Instance kmem_heap : TableHeap kmem := {| th_alloc := kmem_alloc; th_free := kmem_free |}.

(** ** State *)

Record vregion := MkRegion { r_start : Z; r_sz : Z }.

Record ranges_t := MkRanges {
  rg_kmem : vregion; rg_kutcbs : vregion; rg_kstacks : vregion; rg_kheap : vregion;
  rg_kio : vregion; rg_usr : vregion }.

(** The static members: shared by all address spaces. *)
Record kspace := MkKs {
  pgs : pgtabs (H := kmem);
  _kspace : alist (desc vtype);
  _ranges : ranges_t;
  _cur_mmu_ctxid : Z }.

Record aspace := MkAs {
  _pgtab : pgtab;
  _uspace : alist (desc vtype);
  _id : Z }.

Definition with_pgs (k : kspace) (p : pgtabs (H := kmem)) : kspace :=
  MkKs p (_kspace k) (_ranges k) (_cur_mmu_ctxid k).
Definition with_kspace (k : kspace) (a : alist (desc vtype)) : kspace :=
  MkKs (pgs k) a (_ranges k) (_cur_mmu_ctxid k).
Definition with_uspace (s : aspace) (a : alist (desc vtype)) : aspace := MkAs (_pgtab s) a (_id s).

Section Aspace.
Context {AR : Arch} (kdiff Cfg_krn_vaddr : Z).

(** What the page tables see of the static members. *)
Definition vsp (k : kspace) : vspace :=
  MkVspace (r_start (rg_kmem (_ranges k))) (r_sz (rg_kmem (_ranges k))) kdiff
    (round_down Cfg_krn_vaddr (Aspace_sz ktab_level)).

(** ** Kernel address space *)

Definition Kcfg_Threads_max : Z := 128.
Definition Kstack_max : Z := 2 * Cfg_page_sz.

(** kinit: the layout of the virtual space; [io] is the size of the three
    device windows (from the configuration). *)
Definition kspace_ranges (kio_uart kio_intc kio_timer : Z) : ranges_t :=
  let Guard := Cfg_page_sz in
  let Usr_va := 0x10000000 in
  let Usr_sz := Cfg_krn_vaddr - Usr_va - Guard in
  let Kmem_va := Cfg_krn_vaddr in
  let Kmem_sz := 0x400000 in
  let Kio_va := Kmem_va + Kmem_sz + Guard in
  let Kio_sz := kio_uart + kio_intc + kio_timer + 2 * Guard in
  let Kutcbs_va := Kio_va + Kio_sz + Guard in
  let Kutcbs_sz := Kcfg_Threads_max * Cfg_page_sz in
  let Kstacks_va := Kutcbs_va + Kutcbs_sz + Guard in
  let Kstacks_sz := Kcfg_Threads_max * (Kstack_max + Guard) in
  let Kheap_va := Kstacks_va + Kstacks_sz + Guard in
  let Kheap_sz := 0x100000 in
  MkRanges (MkRegion Kmem_va Kmem_sz) (MkRegion Kutcbs_va Kutcbs_sz) (MkRegion Kstacks_va Kstacks_sz)
    (MkRegion Kheap_va Kheap_sz) (MkRegion Kio_va Kio_sz) (MkRegion Usr_va Usr_sz).

Definition kuart_pg_va (k : kspace) : Z := r_start (rg_kio (_ranges k)).
Definition kintc_pg_va (k : kspace) (kio_uart : Z) : Z := kuart_pg_va k + kio_uart + Cfg_page_sz.
Definition ktimer_pg_va (k : kspace) (kio_uart kio_intc : Z) : Z := kintc_pg_va k kio_uart + kio_intc + Cfg_page_sz.

(** The three alignment checks and the three non-zero checks of a mapping. *)
Definition check_range (va sz : Z) : res unit :=
  _ ← wassert (is_aligned va Cfg_page_sz);
  _ ← wassert (is_aligned sz Cfg_page_sz);
  _ ← wassert (negb (va =? 0));
  wassert (negb (sz =? 0)).
Definition check_pa (pa : Z) : res unit :=
  _ ← wassert (is_aligned pa Cfg_page_sz);
  wassert (negb (pa =? 0)).

(** Aspace::kmap *)
Definition aspace_kmap (k : kspace) (va pa sz acc cachable : Z) : res kspace :=
  _ ← check_range va sz; _ ← check_pa pa;
  a ← add (_kspace k) va sz (MkVtype acc (cachable =? 1)) Combine;
  m ← acc2mmuacc acc;
  p ← kmap (vsp k) (pgs k) va pa sz m cachable;
  Ok (with_pgs (with_kspace k a) p).

Definition aspace_kunmap (k : kspace) (va sz : Z) : res kspace :=
  _ ← check_range va sz;
  a ← free_piece (_kspace k) va sz;
  p ← kunmap (vsp k) (pgs k) va sz;
  Ok (with_pgs (with_kspace k a) p).

Definition kmap_utcb (k : kspace) (pa : Z) : res (Z * kspace) :=
  _ ← check_pa pa;
  r ← alloc (_kspace k) Cfg_page_sz Cfg_page_sz (MkVtype Acc_kutcb true) NotCombine
        (r_start (rg_kutcbs (_ranges k))) (r_sz (rg_kutcbs (_ranges k)));
  _ ← wassert (negb (r.1 =? 0));
  m ← acc2mmuacc Acc_kutcb;
  p ← kmap (vsp k) (pgs k) r.1 pa Cfg_page_sz m 1;
  Ok (r.1, with_pgs (with_kspace k r.2) p).

Definition kunmap_utcb (k : kspace) (va : Z) : res kspace := aspace_kunmap k va Cfg_page_sz.

(** Allocates [sz] and a guard page, maps one page. *)
Definition kmap_kstack (k : kspace) (pa sz : Z) : res (Z * kspace) :=
  _ ← wassert (is_aligned pa Cfg_page_sz);
  _ ← wassert (is_aligned sz Cfg_page_sz);
  _ ← wassert (sz <=? 0x2000);
  _ ← wassert (negb (sz =? 0));
  _ ← wassert (negb (pa =? 0));
  r ← alloc (_kspace k) (u32 (sz + 0x1000)) Cfg_page_sz (MkVtype Acc_kdata true) NotCombine
        (r_start (rg_kstacks (_ranges k))) (r_sz (rg_kstacks (_ranges k)));
  _ ← wassert (negb (r.1 =? 0));
  m ← acc2mmuacc Acc_kdata;
  p ← kmap (vsp k) (pgs k) r.1 pa Cfg_page_sz m 1;
  Ok (r.1, with_pgs (with_kspace k r.2) p).

Definition alloc_kspace (k : kspace) (sz : Z) : res (Z * kspace) :=
  _ ← wassert (is_aligned sz Cfg_page_sz);
  _ ← wassert (negb (sz =? 0));
  r ← alloc (_kspace k) sz Cfg_page_sz (MkVtype Acc_kdata true) NotCombine
        (r_start (rg_kheap (_ranges k))) (r_sz (rg_kheap (_ranges k)));
  _ ← wassert (negb (r.1 =? 0));
  Ok (r.1, with_kspace k r.2).

Definition free_kspace (k : kspace) (va sz : Z) : res kspace :=
  _ ← check_range va sz;
  a ← free_piece (_kspace k) va sz;
  Ok (with_kspace k a).

(** setup_kernel_map: the sections of the kernel image, from the linker
    variables ([(start, end, access)]), then the device windows whose
    physical address does not have its lowest bit set. *)
Fixpoint map_sections (k : kspace) (secs : list (Z * Z * Z)) : res kspace :=
  match secs with
  | [] => Ok k
  | (s, e, acc) :: t =>
      let sz := round_pg_up (u32 (e - s)) in
      pa ← kmem_paddr (vsp k) s sz;
      k' ← aspace_kmap k s pa sz acc 1;
      map_sections k' t
  end.

Definition map_device (k : kspace) (va pa sz : Z) : res kspace :=
  if Z.land pa 1 =? 0 then aspace_kmap k va (round_pg_down pa) sz Acc_kio 0 else Ok k.

Definition setup_kernel_map (k : kspace) (kip text utext rodata data bss : Z * Z)
    (uart_pa uart_sz intc_pa intc_sz timer_pa timer_sz : Z) : res kspace :=
  k1 ← map_sections k [(kip.1, kip.2, Acc_kkip); (text.1, text.2, Acc_ktext); (utext.1, utext.2, Acc_kutext);
                       (rodata.1, rodata.2, Acc_krodata); (data.1, data.2, Acc_kdata); (bss.1, bss.2, Acc_kdata)];
  k2 ← map_device k1 (kuart_pg_va k1) uart_pa uart_sz;
  k3 ← map_device k2 (kintc_pg_va k2 uart_sz) intc_pa intc_sz;
  map_device k3 (ktimer_pg_va k3 uart_sz intc_sz) timer_pa timer_sz.

(** ** One address space *)

(** The constructor and the destructor: only the page tables change. *)
Definition aspace_create (k : kspace) (id : Z) : res (aspace * kspace) :=
  r ← pgtab_create (vsp k) (pgs k) id;
  Ok (MkAs r.1 (MkA [] (map Z.of_nat (seq 1 512))) id, with_pgs k r.2).
Definition aspace_destroy (k : kspace) (s : aspace) : res kspace :=
  p ← pgtab_destroy (pgs k) (_pgtab s); Ok (with_pgs k p).

(** set_current returns the new current context and whether the MMU was
    switched. *)
Definition aspace_set_current (k : kspace) (s : aspace) (force : bool) : bool * kspace :=
  let need_set := negb (_id s =? 0) && negb (_id s =? _cur_mmu_ctxid k) in
  if force || need_set then (true, MkKs (pgs k) (_kspace k) (_ranges k) (_id s)) else (false, k).

Definition is_cur_aspace (k : kspace) (s : aspace) : bool := _cur_mmu_ctxid k =? _id s.

Definition find_free_uspace (k : kspace) (s : aspace) (sz align : Z) : res Z :=
  _ ← wassert (is_aligned sz Cfg_page_sz);
  _ ← wassert (is_aligned align Cfg_page_sz);
  _ ← wassert (negb (sz =? 0));
  _ ← wassert (negb (align =? 0));
  Ok (find_free (_uspace s) sz align (r_start (rg_usr (_ranges k))) (r_sz (rg_usr (_ranges k)))).

Definition aspace_map (k : kspace) (s : aspace) (va pa sz acc0 cachable : Z) : res (kspace * aspace) :=
  _ ← check_range va sz; _ ← check_pa pa;
  let a := if is_sparc && (acc0 =? Acc_uw) then Acc_urw else acc0 in
  r ← insert (_uspace s) va sz (MkVtype a (cachable =? 1)) Combine;
  m ← acc2mmuacc (acc r.1);
  p ← pgtab_map (vsp k) (pgs k) (_pgtab s) va pa sz m cachable;
  Ok (with_pgs k p, with_uspace s r.2).

Definition aspace_unmap (k : kspace) (s : aspace) (va sz : Z) : res (kspace * aspace) :=
  _ ← wassert (is_aligned va Cfg_page_sz);
  _ ← wassert (is_aligned sz Cfg_page_sz);
  _ ← wassert (negb (sz =? 0));
  u ← free_piece (_uspace s) va sz;
  p ← pgtab_unmap (vsp k) (pgs k) (_pgtab s) va sz;
  Ok (with_pgs k p, with_uspace s u).

Definition aspace_walk (k : kspace) (s : aspace) (va sz : Z) : res Z :=
  _ ← check_range va sz;
  pgtab_walk (vsp k) (pgs k) (_pgtab s) va sz.

End Aspace.

(** ** The kernel heap as a source of tables *)

(** Kernel memory as the page tables need it: below the top of the address
    space, at a fixed distance from its physical addresses, which fit into a
    directory record; tables are powers of two. *)
Class KmemLayout {M : Mmu} {MS : MmuSpec M} (vs : vspace) : Prop := {
  kl_width : addr_w = 32;
  kl_range : 0 < kmem_start vs /\ 0 <= kmem_size vs /\ kmem_start vs + kmem_size vs + 2 ^ 15 <= 2 ^ 32;
  kl_diff : _diff_kva_kpa vs <= kmem_start vs /\
            kmem_start vs + kmem_size vs - _diff_kva_kpa vs <= dir_limit /\ (dir_align | _diff_kva_kpa vs);
  kl_span : chain has_dir 31 ptables /\ 0 < word_bytes;
  kl_tables : Forall (fun l => exists k, 6 <= k <= 14 /\ Table_bytes l = 2 ^ k) ptables }.

Section Heap.
Context {M : Mmu} {MS : MmuSpec M} (vs : vspace) {KL : KmemLayout vs}.

Definition in_kmem (h : kmem) : Prop :=
  forall x, view (memory h) x <> None -> kmem_start vs <= x < kmem_start vs + kmem_size vs.

Lemma in_kmem_regions h : kinv h -> in_kmem h ->
  Forall (fun d => kmem_start vs <= d_addr d /\ d_addr d + d_sz d <= kmem_start vs + kmem_size vs) (vals (busy (memory h))).
Proof.
  intros [[_ Ho] _] Hk. apply Forall_forall. intros d Hd. apply list_elem_of_split in Hd as (ds1 & ds2 & E).
  assert (Hv : forall x, d_addr d <= x < d_addr d + d_sz d -> view (memory h) x = Some (d_type d)).
  { intros x Hx. unfold view. rewrite E in *. by apply lookup_covered. }
  rewrite E in Ho. apply ordered_app in Ho as [_ (? & ? & ? & _)].
  pose proof (Hk (d_addr d)) as K1. pose proof (Hk (d_addr d + d_sz d - 1)) as K2. rewrite Hv in K1, K2 by lia.
  specialize (K1 ltac:(done)). specialize (K2 ltac:(done)). lia.
Qed.

#[export] Program Instance kmem_heap_spec : TableHeapSpec vs kmem := {|
  th_inv h n := kinv h /\ in_kmem h /\ (2 * n <= length (free (memory h)))%nat;
  th_used h a := view (memory h) a = Some Busy |}.
Next Obligation. intros h n k Hk (? & ? & ?). split_and!; [done | done | lia]. Qed.
Next Obligation.
  intros h n l (I & Hin & Hf) Hl. destruct (kl_range (vs := vs)) as (R1 & R2 & R3). destruct (kl_diff (vs := vs)) as (D1 & D2 & D3).
  pose proof (kl_tables (vs := vs)) as Ht. rewrite Forall_forall in Ht. destruct (Ht l Hl) as (k & Hk & Ek). rewrite Ek.
  assert (H64 : 2 ^ 6 <= 2 ^ k <= 2 ^ 14) by (split; apply Z.pow_le_mono_r; lia).
  assert (Hround : round_up (2 ^ k) Alloc_min_sz = 2 ^ k).
  { destruct (round_up_least (2 ^ k) 6 ltac:(lia) ltac:(lia) ltac:(lia)) as (_ & K1 & K2). change (2 ^ 6) with Alloc_min_sz in *.
    assert (round_up (2 ^ k) Alloc_min_sz <= 2 ^ k); [| lia]. apply K2; [| lia].
    exists (2 ^ (k - 6)). change Alloc_min_sz with (2 ^ 6). rewrite <- Z.pow_add_r by lia. f_equal. lia. }
  cbn [th_alloc kmem_heap].
  destruct (kmem_alloc_spec h (2 ^ k) k I) as [(a & h' & E & Hal & _ & Hfr & Hv & _ & _ & I' & Hf') | [E _]];
    try lia; [| | by right].
  { rewrite Hround. eapply Forall_impl; [by apply in_kmem_regions |]. intros d [_ Hd]. cbn beta in *. lia. }
  rewrite Hround in *. left. exists a, h'.
  assert (Ha : kmem_start vs <= a /\ a + 2 ^ k <= kmem_start vs + kmem_size vs).
  { pose proof (Hin a) as K1. pose proof (Hin (a + 2 ^ k - 1)) as K2. rewrite Hfr in K1, K2 by lia.
    specialize (K1 ltac:(done)). specialize (K2 ltac:(done)). lia. }
  unfold table_addr. split_and!; try done.
  - intros x Hx. apply Hin. rewrite Hv in Hx. unfold upd in Hx. destruct (_ && _) eqn:Ec; [| done].
    apply andb_prop in Ec as [?%Z.leb_le ?%Z.ltb_lt]. by rewrite Hfr by lia.
  - lia.
  - rewrite Hfr by lia. done.
  - rewrite Hv. unfold upd. rewrite (proj2 (Z.leb_le a a)), (proj2 (Z.ltb_lt a (a + 2 ^ k))) by lia. done.
  - intros x Hx. rewrite Hv. unfold upd. destruct (_ && _) eqn:Ec; [done | done].
  - unfold kmem_inside. rewrite (kl_width (vs := vs)). rewrite !wrap_small by (unfold in_range; lia).
    by rewrite (proj2 (Z.leb_le _ _)), (proj2 (Z.leb_le _ _)) by lia.
  - lia.
  - rewrite (kl_width (vs := vs)). lia.
  - lia.
  - lia.
  - destruct spec_geometry as (hh & _ & _ & _ & Hg). rewrite Forall_forall in Hg. specialize (Hg l Hl). rewrite Ek in Hg.
    apply Z.divide_sub_r; [by apply (Z.divide_trans _ (2 ^ k)) | done].
Qed.
End Heap.

(** ** Region list and page tables agree *)

Section Agree.
Context {AR : Arch} {MS : MmuSpec arch_mmu} (kdiff Cfg_krn_vaddr : Z).
Abbreviation vs := (vsp kdiff Cfg_krn_vaddr).

Definition user_va (k : kspace) (x : Z) : Prop :=
  0 <= x < 2 ^ 32 /\ ~ (Kern_va (vs k) <= x < Kern_va (vs k) + Kspace_sz).

(** A byte's region and its page-table entry say the same. *)
Definition agree (v : option vtype) (t : option (Z * Z * Z)) : Prop :=
  match v, t with
  | None, None => True
  | Some ty, Some (_, m, c) => acc2mmuacc (acc ty) = Ok m /\ c = Z.b2z (cached ty)
  | _, _ => False
  end.

Abbreviation trans k s x := (translate (vs k) ptables (tabs (pg (pgs k))) (roottb (_pgtab s)) x).

Record aspace_ok (k : kspace) {KL : KmemLayout (vs k)} (s : aspace) (n : nat) : Prop := {
  ok_regions : inv (_uspace s);
  ok_heap : heap_ok (vs k) (pg (pgs k)) n;
  ok_tables : wf (vs k) ptables (tabs (pg (pgs k))) (roottb (_pgtab s));
  ok_agree : forall x, user_va k x -> agree (view (_uspace s) x) (trans k s x) }.

Lemma check_range_ok va sz : (4096 | va) -> (4096 | sz) -> va <> 0 -> sz <> 0 -> check_range va sz = Ok tt.
Proof.
  intros Hv Hz Nv Nz. unfold check_range, Cfg_page_sz. change 4096 with (2 ^ 12).
  rewrite !(proj2 (is_aligned_spec _ 12 ltac:(lia))) by (apply Z.mod_divide; done || lia).
  rewrite (proj2 (Z.eqb_neq va 0)), (proj2 (Z.eqb_neq sz 0)) by done. done.
Qed.

Lemma check_pa_ok pa : (4096 | pa) -> pa <> 0 -> check_pa pa = Ok tt.
Proof.
  intros Hp Np. unfold check_pa, Cfg_page_sz. change 4096 with (2 ^ 12).
  rewrite (proj2 (is_aligned_spec _ 12 ltac:(lia))) by (apply Z.mod_divide; done || lia).
  by rewrite (proj2 (Z.eqb_neq pa 0)).
Qed.

(** The type [insert] gives the range. *)
Definition new_type (s : aspace) (va sz : Z) (t ty : vtype) : Prop :=
  (ty = t /\ AddressSpace.unmapped (_uspace s) va sz) \/
  exists d, d ∈ vals (busy (_uspace s)) /\ contains d va sz /\ ty = rt_or t (d_type d).

Lemma insert_new_type s va sz t ty : inv (_uspace s) -> 0 <= va -> 0 < sz -> va + sz < 2 ^ 32 ->
  (2 <= length (free (_uspace s)))%nat -> new_type s va sz t ty ->
  exists u, insert (_uspace s) va sz t Combine = Ok (ty, u) /\ inv u /\
    forall x, view u x = upd (view (_uspace s)) va sz (Some ty) x.
Proof.
  intros I Hv Hz He Hf Ht. destruct (insert_spec (_uspace s) va sz t Combine I Hv Hz He Hf) as (S1 & S2 & _).
  destruct Ht as [[-> U] | (d & Hd & C & ->)]; [by apply S2 | by apply S1].
Qed.

Lemma block_zero x : 0 <= x < 2 ^ 32 -> x / 2 ^ (31 + 1) = 0.
Proof. intros. apply Z.div_small. done. Qed.

(** C16: mapping a page range into an address space gives the region list the
    new access type (united with the old one when a region contains the range)
    and the page tables the matching entries for exactly this range, so that
    region list and page tables keep agreeing on every user address; the only
    other outcome is a kernel out of memory for tables. *)
Theorem aspace_map_correct k {KL : KmemLayout (vs k)} s n va pa sz a c ty m :
  let t := MkVtype (if is_sparc && (a =? Acc_uw) then Acc_urw else a) (c =? 1) in
  aspace_ok k s (map_need ptables + n) -> (2 <= length (free (_uspace s)))%nat ->
  (4096 | va) -> (4096 | pa) -> (4096 | sz) -> 0 < va -> 0 < pa -> 0 < sz -> va + sz < 2 ^ 32 -> 0 <= c <= 1 ->
  new_type s va sz t ty -> acc2mmuacc (acc ty) = Ok m -> 0 <= m <= acc_max -> m < 8 ->
  fits ptables va pa sz -> mappable (vs k) true ptables (tabs (pg (pgs k))) (roottb (_pgtab s)) va (va + sz) ->
  (exists k' s', aspace_map kdiff Cfg_krn_vaddr k s va pa sz a c = Ok (k', s') /\
     vs k' = vs k /\ _pgtab s' = _pgtab s /\ (forall KL', aspace_ok k' (KL := KL') s' n) /\
     (forall x, view (_uspace s') x = upd (view (_uspace s)) va sz (Some ty) x) /\
     (forall x, 0 <= x < 2 ^ 32 -> trans k' s' x =
        if (va <=? x) && (x <? va + sz) then Some (pa + x - va, m, c) else trans k s x)) \/
  (aspace_map kdiff Cfg_krn_vaddr k s va pa sz a c = Stop FPanic /\ oom (kheap (pg (pgs k)))).
Proof.
  intros t [I Hh W Hag] Hfr Av Ap Az Hv Hp Hz He Hc Hty Hm Hmm Hm8 Hfit Hmap.
  unfold aspace_map. rewrite check_range_ok, check_pa_ok by (done || lia). cbn [mbind res_bind]. fold t.
  destruct (insert_new_type s va sz t ty I ltac:(lia) Hz He Hfr Hty) as (u & Ei & Iu & Vu). rewrite Ei.
  cbn [mbind res_bind fst snd]. rewrite Hm. cbn [mbind res_bind]. unfold pgtab_map.
  destruct (kl_span (vs := vs k)) as [Hch Hwb].
  assert (Hin : Forall (fun l => l ∈ ptables) ptables) by (by apply Forall_forall).
  assert (Hne : ptables <> []) by (intros E; rewrite E in Hch; simpl in Hch; lia).
  destruct (ptable_map_ok (vs k) true m c ptables 31 Hch Hin Hwb Hmm Hm8 Hc Hne (pg (pgs k)) (roottb (_pgtab s)) va pa sz n)
    as [(st' & E & Hh' & _ & Ev & Tr & _) | [E Ho]]; try done; try lia.
  - rewrite (kl_width (vs := vs k)). lia.
  - rewrite !block_zero by lia. done.
  - rewrite E. cbn [mbind res_bind]. left. eexists _, _. split; [reflexivity |]. cbn.
    assert (Tr' : forall x, 0 <= x < 2 ^ 32 -> translate (vs k) ptables (tabs st') (roottb (_pgtab s)) x =
      if (va <=? x) && (x <? va + sz) then Some (pa + x - va, m, c) else trans k s x).
    { intros x Hx. apply Tr. rewrite !block_zero by lia. done. }
    split_and!; try done. intros KL'. constructor; cbn; [done | | apply Ev |].
    + destruct Hh' as [Ih Uh]. by split.
    + intros x Hx. change (agree (view u x) (translate (vs k) ptables (tabs st') (roottb (_pgtab s)) x)).
      rewrite Vu, Tr' by apply Hx. unfold upd. destruct ((va <=? x) && (x <? va + sz)); [| by apply Hag]. simpl. split; [done |].
      assert (cached ty = (c =? 1)) as -> by (destruct Hty as [[-> _] | (d & _ & _ & ->)]; done).
      assert (c = 0 \/ c = 1) as [-> | ->] by lia; done.
  - right. by rewrite E.
Qed.

(** C17: unmapping a flex page that one region contains (or that is not mapped)
    removes exactly its bytes from the region list and from the page tables and
    keeps them in agreement; a flex page inside a larger mapped page makes the
    kernel panic. *)
Theorem aspace_unmap_correct k {KL : KmemLayout (vs k)} s n va b :
  aspace_ok k s n -> free (_uspace s) <> [] -> 12 <= b -> (2 ^ b | va) -> 0 <= va -> va + 2 ^ b < 2 ^ 32 ->
  Exists (fun d => contains d va (2 ^ b)) (vals (busy (_uspace s))) \/ AddressSpace.unmapped (_uspace s) va (2 ^ b) ->
  if inside_large (vs k) ptables (tabs (pg (pgs k))) (roottb (_pgtab s)) va (2 ^ b)
  then aspace_unmap kdiff Cfg_krn_vaddr k s va (2 ^ b) = Stop FPanic
  else exists k' s', aspace_unmap kdiff Cfg_krn_vaddr k s va (2 ^ b) = Ok (k', s') /\
     vs k' = vs k /\ _pgtab s' = _pgtab s /\ (forall KL', aspace_ok k' (KL := KL') s' n) /\
     (forall x, view (_uspace s') x = upd (view (_uspace s)) va (2 ^ b) None x) /\
     (forall x, 0 <= x < 2 ^ 32 -> trans k' s' x = if (va <=? x) && (x <? va + 2 ^ b) then None else trans k s x).
Proof.
  intros [I Hh W Hag] Hf Hb Hal Hva He Hreg. assert (Hp : 0 < 2 ^ b) by (apply Z.pow_pos_nonneg; lia).
  assert (A12 : (4096 | 2 ^ b)) by (exists (2 ^ (b - 12)); change 4096 with (2 ^ 12); rewrite <- Z.pow_add_r by lia; f_equal; lia).
  assert (A12v : (4096 | va)) by (by apply (Z.divide_trans _ (2 ^ b))).
  assert (Hu : exists u, free_piece (_uspace s) va (2 ^ b) = Ok u /\ inv u /\
    forall x, view u x = upd (view (_uspace s)) va (2 ^ b) None x).
  { destruct (free_piece_spec (_uspace s) va (2 ^ b) I Hva Hp He Hf) as [S1 S2]. destruct Hreg as [Hex | Hun]; [by apply S1 |].
    exists (_uspace s). split_and!; [apply S2 | done |].
    - intros Hex. apply Exists_exists in Hex as (d & Hd & [C1 C2]). apply list_elem_of_split in Hd as (ds1 & ds2 & E).
      specialize (Hun va ltac:(lia)). destruct I as [_ Ho]. unfold view in Hun. rewrite E in *.
      rewrite (lookup_covered ds1 d ds2 va) in Hun; [done | done | lia].
    - intros x. unfold upd. destruct ((va <=? x) && (x <? va + 2 ^ b)) eqn:Ec; [| done].
      apply andb_prop in Ec as [?%Z.leb_le ?%Z.ltb_lt]. apply Hun. lia. }
  destruct Hu as (u & Ef & Iu & Vu). unfold aspace_unmap, Cfg_page_sz.
  change 4096 with (2 ^ 12). rewrite !(proj2 (is_aligned_spec _ 12 ltac:(lia))) by (apply Z.mod_divide; done || lia).
  rewrite (proj2 (Z.eqb_neq (2 ^ b) 0)) by lia. cbn [negb wassert mbind res_bind]. rewrite Ef. cbn [mbind res_bind].
  destruct (kl_span (vs := vs k)) as [Hch Hwb]. unfold pgtab_unmap.
  pose proof (ptable_unmap_ok (vs k) ptables 31 Hch (proj2 (Forall_forall _ _) (fun l Hl => Hl)) (pg (pgs k)) (roottb (_pgtab s)) va b
    W Hva Hb Hal) as Hun.
  rewrite (kl_width (vs := vs k)), !block_zero in Hun by lia. specialize (Hun ltac:(lia) eq_refl).
  destruct (inside_large (vs k) ptables (tabs (pg (pgs k))) (roottb (_pgtab s)) va (2 ^ b)); [by rewrite Hun |].
  destruct Hun as (st' & E & Eh & Ed & Ev & Tr & _). rewrite E. cbn [mbind res_bind].
  eexists _, _. split; [reflexivity |]. cbn.
  assert (Tr' : forall x, 0 <= x < 2 ^ 32 -> translate (vs k) ptables (tabs st') (roottb (_pgtab s)) x =
    if (va <=? x) && (x <? va + 2 ^ b) then None else trans k s x).
  { intros x Hx. apply Tr. rewrite !block_zero by lia. done. }
  split_and!; try done. intros KL'. constructor; cbn; [done | | apply Ev |].
  - destruct Hh as [Ih Uh]. split; cbn; rewrite Eh; [done |]. intros a Ha. by apply Uh, Ed.
  - intros x Hx. change (agree (view u x) (translate (vs k) ptables (tabs st') (roottb (_pgtab s)) x)).
    rewrite Vu, Tr' by apply Hx. unfold upd. destruct ((va <=? x) && (x <? va + 2 ^ b)); [done | by apply Hag].
Qed.

End Agree.
