(* ===== verification/Paging.v ===== *)
(** Theorems on paging: the page tables as a partial map of addresses, for
    every MMU format, and their agreement with the region lists of the
    address spaces; with a SPARC kernel heap and root table as the sample
    they are applied to. *)

From Stdlib Require Import ZArith Lia Bool.
From stdpp Require Import base gmap list numbers relations.
From S2P Require Import Prelude SysUtils ListSpec L4Types AddressSpace Kmem Mmu Ptable PtableSpec Aspace.

(** ** A sample SPARC kernel *)

Definition sample_ranges : ranges_t := kspace_ranges 0xf0000000 0x1000 0x1000 0x1000.

(** 64 KiB of heap whose first KiB holds an empty root table. *)
Definition paging_heap : kmem :=
  MkKmem (MkA [(0x10, MkDesc 0xf0100000 0x400 Busy); (0x20, MkDesc 0xf0100400 0xfc00 Free)]
            (map Z.of_nat (seq 48 16))) 0xfc00.
Definition root_tb : Z := 0xf0100000.
Definition paging_st : pstate kmem := MkP {[ root_tb := replicate 256 0 ]} paging_heap.
Definition sample_k : kspace := MkKs (MkPg paging_st [] 0) (MkA [] []) sample_ranges 0.
Definition sample_as : aspace := MkAs (MkPgtab root_tb 1) (MkA [] [1; 2; 3; 4; 5; 6; 7; 8]) 1.
Abbreviation kdiff := 0xb0000000.
Abbreviation kva := 0xf0000000.

#[local] Existing Instance sparc_arch.
Definition sample_vs : vspace := vsp kdiff kva sample_k.

#[export] Instance sample_layout : KmemLayout sample_vs.
Proof.
  constructor.
  - reflexivity.
  - vm_compute. intuition congruence.
  - split_and!; [by vm_compute | by vm_compute |]. by exists 0x2c00000.
  - split; [cbn; repeat split; lia | reflexivity].
  - cbn [ptables arch_mmu sparc_arch sparc]. unfold sparc_ptables.
    apply Forall_cons_2; [by exists 10 |]. apply Forall_cons_2; [by exists 8 |]. apply Forall_cons_2; [by exists 8 |]. apply Forall_nil_2.
Qed.

Lemma paging_heap_inv : kinv paging_heap.
Proof.
  split; [| reflexivity]. split; [| vm_compute; intuition congruence]. split; [| repeat constructor; done].
  simpl. apply (bool_decide_unpack _). by vm_compute.
Qed.

Lemma paging_heap_ok : heap_ok sample_vs paging_st 8.
Proof.
  split.
  - split_and!; [apply paging_heap_inv | | simpl; lia].
    intros x Hx. unfold view in Hx. simpl in Hx.
    repeat case_match; try done; unfold covers in *; repeat match goal with
    | E : _ && _ = true |- _ => apply andb_prop in E as [?%Z.leb_le ?%Z.ltb_lt] end; simpl in *; lia.
  - intros a. simpl. rewrite lookup_singleton_is_Some. intros <-. reflexivity.
Qed.

Lemma root_empty : wf sample_vs ptables (tabs paging_st) root_tb /\
  (forall va, translate sample_vs ptables (tabs paging_st) root_tb va = None) /\
  (forall a, reach sample_vs ptables (tabs paging_st) root_tb a -> a = root_tb).
Proof.
  apply (zero_table sample_vs (MkLevel 1 31 24) _ (tabs paging_st) root_tb 256).
  - by apply list_elem_of_here.
  - simpl. by rewrite lookup_singleton_eq.
  - reflexivity.
Qed.

(** ** The page tables, for every MMU format *)

Section Tables.
Context {M : Mmu} {MS : MmuSpec M} (vs : vspace) {H : Type} {TH : TableHeap H} {THS : TableHeapSpec vs H}.
Context (h : Z) (Hch : chain has_dir h ptables) (Hwb : 0 < word_bytes).
Abbreviation same_block x y := (x / 2 ^ (h + 1) = y / 2 ^ (h + 1)).

Lemma levels_listed : Forall (fun l => l ∈ ptables) ptables /\ ptables <> [] \/ ptables = [].
Proof. destruct ptables eqn:E; [by right | left]. split; [by apply Forall_forall | done]. Qed.

(** C15: [map] on well-formed tables makes the hardware translate exactly the
    pages of the range to the given physical pages, with the given access and
    cacheability, and every other address of the table as before; it touches no
    table outside the tree of the root, keeps the tree well formed and only
    fails when the kernel heap has no memory for a new table. *)
Theorem ptable_map_correct over st root va pa size a k n :
  heap_ok vs st (map_need ptables + n) -> wf vs ptables (tabs st) root ->
  0 <= va -> 0 <= pa -> 0 < size -> (4096 | va) -> (4096 | pa) -> (4096 | size) -> va + size <= 2 ^ addr_w ->
  same_block va (va + size - 1) -> 0 <= a <= acc_max -> a < 8 -> 0 <= k <= 1 ->
  fits ptables va pa size -> mappable vs over ptables (tabs st) root va (va + size) ->
  (exists st', ptable_map vs ptables a k over st root va pa size = Ok st' /\
     wf vs ptables (tabs st') root /\ heap_ok vs st' n /\
     (forall x, same_block x va -> translate vs ptables (tabs st') root x =
        if (va <=? x) && (x <? va + size) then Some (pa + x - va, a, k) else translate vs ptables (tabs st) root x) /\
     (forall b, is_Some (tabs st !! b) -> ~ reach vs ptables (tabs st) root b -> tabs st' !! b = tabs st !! b)) \/
  (ptable_map vs ptables a k over st root va pa size = Stop FPanic /\ oom (kheap st)).
Proof using Hch Hwb.
  intros Hh W Hv Hp Hs Av Ap As He Hb Ha Ha8 Hk Hf Hm.
  destruct levels_listed as [[Hin Hne] | E]; [| by rewrite E in W].
  destruct (ptable_map_ok vs over a k ptables h Hch Hin Hwb Ha Ha8 Hk Hne st root va pa size n)
    as [(st' & E & Hh' & _ & (W' & F' & _) & Tr & _) | R]; try done; [left | by right].
  exists st'. by split_and!.
Qed.

(** [unmap] of a naturally aligned power-of-two range (every flex page is
    one) removes exactly the translations of that range, whatever mixture of
    page sizes maps it, and allocates nothing; it panics exactly when the
    range lies strictly inside one larger page. *)
Theorem ptable_unmap_correct (st : pstate H) root va s : wf vs ptables (tabs st) root -> 0 <= va -> 12 <= s -> (2 ^ s | va) ->
  va + 2 ^ s <= 2 ^ addr_w -> same_block va (va + 2 ^ s - 1) ->
  if inside_large vs ptables (tabs st) root va (2 ^ s) then ptable_unmap vs ptables st root va (2 ^ s) = Stop FPanic
  else exists st', ptable_unmap vs ptables st root va (2 ^ s) = Ok st' /\ wf vs ptables (tabs st') root /\
    kheap st' = kheap st /\
    forall x, same_block x va -> translate vs ptables (tabs st') root x =
      if (va <=? x) && (x <? va + 2 ^ s) then None else translate vs ptables (tabs st) root x.
Proof using Hch.
  intros W Hv Hs Hal He Hb. destruct levels_listed as [[Hin Hne] | E]; [| by rewrite E in W].
  pose proof (ptable_unmap_ok vs ptables h Hch Hin st root va s W Hv Hs Hal He Hb) as U.
  destruct (inside_large vs ptables (tabs st) root va (2 ^ s)); [done |].
  destruct U as (st' & E & Hh & _ & (W' & _) & Tr & _). exists st'. by split_and!.
Qed.

(** [walk] returns the physical address of the first page when every byte
    of the range is mapped and 0 when some byte is not, as long as no mapped
    page of the range has physical address 0. *)
Theorem ptable_walk_correct (st : pstate H) root va size : wf vs ptables (tabs st) root -> 0 <= va -> 0 < size ->
  (4096 | va) -> (4096 | size) -> va + size <= 2 ^ addr_w -> same_block va (va + size - 1) ->
  nonzero vs ptables (tabs st) root va (va + size) ->
  exists r, ptable_walk vs ptables st root va size = Ok r /\
    (forall p a k, (forall x, va <= x < va + size -> is_Some (translate vs ptables (tabs st) root x)) ->
       translate vs ptables (tabs st) root va = Some (p, a, k) -> r = p) /\
    (forall x, va <= x < va + size -> translate vs ptables (tabs st) root x = None -> r = 0).
Proof using Hch.
  intros W Hv Hs Av As He Hb Hnz. destruct levels_listed as [[Hin Hne] | E]; [| by rewrite E in W].
  destruct (ptable_walk_ok vs st ptables h Hch Hin root va size) as (r & E & H1 & H2); try done.
  exists r. by split_and!.
Qed.
End Tables.

(** ** The theorems on the sample *)

Lemma sample_fits va pa size : (4096 | pa - va) -> size < 0x40000 -> pa + size <= 2 ^ 32 -> fits ptables va pa size.
Proof.
  intros Hd Hs Hl. cbn [ptables arch_mmu sparc_arch sparc]. unfold sparc_ptables.
  repeat apply Forall_cons_2; try apply Forall_nil_2; unfold Page_sz; cbn [Index_low]; intros Hp; 
    rewrite Z.shiftl_mul_pow2 in Hp by lia; try (exfalso; lia).
  split_and!; [done | exact Hd | cbn; lia].
Qed.

Lemma sample_mappable lo hi : mappable sample_vs true ptables (tabs paging_st) root_tb lo hi.
Proof.
  eapply (mappable_zero sample_vs true (MkLevel 1 31 24) _ (tabs paging_st) root_tb 256).
  - by apply list_elem_of_here.
  - simpl. by rewrite lookup_singleton_eq.
Qed.

Lemma ptable_map_correct_witness : exists st',
  ptable_map sample_vs ptables 3 1 true paging_st root_tb 0x10001000 0x40002000 0x2000 = Ok st' /\
  wf sample_vs ptables (tabs st') root_tb /\
  translate sample_vs ptables (tabs st') root_tb 0x10002abc = Some (0x40003abc, 3, 1) /\
  translate sample_vs ptables (tabs st') root_tb 0x10000fff = None.
Proof.
  destruct (ptable_map_correct sample_vs 31 (proj1 kl_span) (proj2 kl_span) true paging_st root_tb 0x10001000 0x40002000 0x2000 3 1 2)
    as [(st' & E & W & _ & Tr & _) | [E _]];
    [apply paging_heap_ok | apply root_empty | lia | lia | lia | by exists 0x10001 | by exists 0x40002 | by exists 2
    | vm_compute; congruence | reflexivity | vm_compute; intuition congruence | lia | lia
    | apply sample_fits; [by exists 0x30001 | lia | lia] | apply sample_mappable | |].
  2: { exfalso. vm_compute in E. discriminate E. }
  exists st'. split_and!; [done | done | |]; rewrite Tr by reflexivity; [reflexivity |]. apply root_empty.
Defined.

Lemma ptable_unmap_correct_witness : exists st1 st2,
  ptable_map sample_vs ptables 3 1 true paging_st root_tb 0x10001000 0x40002000 0x2000 = Ok st1 /\
  ptable_unmap sample_vs ptables st1 root_tb 0x10000000 (2 ^ 24) = Ok st2 /\
  translate sample_vs ptables (tabs st2) root_tb 0x10002abc = None.
Proof.
  assert (Ha : 0 <= 3 <= acc_max) by (vm_compute; intuition congruence). assert (Hn : ptables <> []) by done.
  destruct (ptable_map_ok sample_vs true 3 1 ptables 31 (proj1 kl_span) (proj2 (Forall_forall _ _) (fun l Hl => Hl)) (proj2 kl_span)
    Ha ltac:(lia) ltac:(lia) Hn paging_st root_tb 0x10001000 0x40002000 0x2000 2%nat)
    as [(st1 & E & _ & _ & (W & _) & _) | [E _]];
    [apply paging_heap_ok | apply root_empty | lia | lia | lia | by exists 0x10001 | by exists 0x40002 | by exists 2
    | vm_compute; congruence | reflexivity
    | apply sample_fits; [by exists 0x30001 | lia | lia] | apply sample_mappable | |].
  2: { exfalso. vm_compute in E. discriminate E. }
  pose proof (ptable_unmap_correct sample_vs 31 (proj1 kl_span) st1 root_tb 0x10000000 24 W) as U.
    assert (Hi : inside_large sample_vs ptables (tabs st1) root_tb 0x10000000 (2 ^ 24) = false)
      by (apply (inside_large_child sample_vs (MkLevel 1 31 24)); vm_compute; congruence). rewrite Hi in U.
    destruct U as (st2 & E2 & _ & _ & Tr); [lia | lia | by exists 16 | vm_compute; congruence | reflexivity |].
    exists st1, st2. split_and!; [done | done |]. by rewrite Tr.
Defined.

Lemma ptable_walk_correct_witness : ptable_walk sample_vs ptables paging_st root_tb 0x10000000 0x2000 = Ok 0.
Proof.
  destruct (ptable_walk_correct sample_vs 31 (proj1 kl_span) paging_st root_tb 0x10000000 0x2000) as (r & E & _ & Hr);
    [apply root_empty | lia | lia | by exists 0x10000 | by exists 2 | vm_compute; congruence | reflexivity | |].
  - intros x p a k _ E. by rewrite (proj1 (proj2 root_empty)) in E.
  - rewrite E. f_equal. apply (Hr 0x10000000); [lia |]. apply root_empty.
Defined.

(** ** The address space of the sample *)

Lemma sample_as_ok : aspace_ok kdiff kva sample_k (KL := sample_layout) sample_as 8.
Proof.
  constructor.
  - split; [| done]. split; [| repeat constructor; done]. simpl. apply (bool_decide_unpack _). by vm_compute.
  - apply paging_heap_ok.
  - apply root_empty.
  - intros x _. change (agree None (translate sample_vs ptables (tabs paging_st) root_tb x)).
    by rewrite (proj1 (proj2 root_empty)).
Qed.

Lemma aspace_map_correct_witness : exists k' s',
  aspace_map kdiff kva sample_k sample_as 0x10001000 0x40002000 0x2000 Acc_uw 1 = Ok (k', s') /\
  view (_uspace s') 0x10001000 = Some (MkVtype Acc_urw true) /\
  translate sample_vs ptables (tabs (pg (pgs k'))) root_tb 0x10002abc = Some (0x40003abc, 1, 1).
Proof.
  destruct (aspace_map_correct kdiff kva sample_k (KL := sample_layout) sample_as 2 0x10001000 0x40002000 0x2000 Acc_uw 1
              (MkVtype Acc_urw true) 1) as [(k' & s' & E & Ev & Ep & _ & Hv & Ht) | [E _]];
    [apply sample_as_ok | simpl; lia | by exists 0x10001 | by exists 0x40002 | by exists 2 | lia | lia | lia | lia | lia
    | left; by split | reflexivity | vm_compute; intuition congruence | lia
    | apply sample_fits; [by exists 0x30001 | lia | lia] | apply sample_mappable | |].
  2: { exfalso. vm_compute in E. discriminate E. }
  exists k', s'. split_and!; [done | by rewrite Hv |].
  specialize (Ht 0x10002abc ltac:(lia)). rewrite Ev, Ep in Ht. exact Ht.
Defined.

Lemma aspace_unmap_correct_witness : exists k' s',
  aspace_unmap kdiff kva sample_k sample_as 0x10000000 (2 ^ 24) = Ok (k', s') /\
  view (_uspace s') 0x10000000 = None.
Proof.
  pose proof (aspace_unmap_correct kdiff kva sample_k (KL := sample_layout) sample_as 8 0x10000000 24) as U.
  assert (Hi : inside_large (vsp kdiff kva sample_k) ptables (tabs (pg (pgs sample_k))) (roottb (_pgtab sample_as)) 0x10000000 (2 ^ 24) = false)
    by (apply (inside_large_child sample_vs (MkLevel 1 31 24)); vm_compute; congruence). rewrite Hi in U.
  destruct U as (k' & s' & E & _ & _ & _ & Hv & _); [apply sample_as_ok | done | lia | by exists 16 | lia | lia | by right |].
  exists k', s'. split; [done |]. by rewrite Hv.
Defined.

(** ** What unmap does not do *)

Definition probe (st : pstate kmem) (va : Z) : option (Z * Z * Z) := translate sample_vs ptables (tabs st) root_tb va.

(** Map one page at 0x11000000, then unmap two pages from 0x10fff000 on. *)
Definition skip_run : res (option (Z * Z * Z)) :=
  st ← ptable_map sample_vs ptables 3 1 true paging_st root_tb 0x11000000 0x40000000 0x1000;
  st' ← ptable_unmap sample_vs ptables st root_tb 0x10fff000 0x2000;
  Ok (probe st' 0x11000000).

(** Map two adjacent pages with different rights, then unmap both at once. *)
Definition stale_run : res (option vtype * option (Z * Z * Z)) :=
  p ← aspace_map kdiff kva sample_k sample_as 0x10000000 0x40000000 0x1000 Acc_ur 1;
  q ← aspace_map kdiff kva p.1 p.2 0x10001000 0x40001000 0x1000 Acc_urw 1;
  r ← aspace_unmap kdiff kva q.1 q.2 0x10000000 0x2000;
  Ok (view (_uspace r.2) 0x10000000, probe (pg (pgs r.1)) 0x10000000).

(** ARM kernel tables of 1 MB each: map the first kernel page, then unmap two
    pages across the border of the first table. *)
Definition arm_vs : vspace := MkVspace 0xf0000000 0x400000 0xb0000000 0xf0000000.
Definition arm_pg : pgtabs (H := kmem) :=
  MkPg (MkP {[ 0xf0100000 := replicate 256 0; 0xf0100400 := replicate 256 0 ]} paging_heap) [0xf0100000; 0xf0100400] 0.
Definition border_run : res (Z * Z) :=
  p ← @kmap arm kmem _ arm_vs arm_pg 0xf0000000 0x40000000 0x1000 3 1;
  q ← @kunmap arm kmem arm_vs p 0xf00ff000 0x2000;
  r ← @kwalk arm kmem arm_vs p 0xf0000000 0x1000;
  r' ← @kwalk arm kmem arm_vs q 0xf0000000 0x1000;
  Ok (r, r').

(** unmapping a range that starts in the middle of an invalid cell skips
    the first pages of the next cell, so a page of the range stays mapped; an
    unmap over two regions clears the page tables and leaves the regions
    listed; a kernel unmap over the end of a kernel table unmaps the first
    pages of the same table instead; [empty] is true for full tables; and a
    mapping with no rights, or with write and execute rights only, fails an
    assertion of the kernel on every architecture. *)
Theorem paging_defects :
  skip_run = Ok (Some (0x40000000, 3, 1)) /\
  stale_run = Ok (Some (MkVtype Acc_ur true), None) /\
  border_run = Ok (0x40000000, 0) /\
  ptable_empty paging_st (MkLevel 1 31 24) root_tb = Ok false /\
  Forall (fun f : Z -> res Z => f 0 = Stop FAssert /\ f (Z.lor Acc_uw Acc_ux) = Stop FAssert)
    [sparc_acc2mmuacc; arm_acc2mmuacc; x86_acc2mmuacc].
Proof. split_and!; [vm_compute; reflexivity.. |]. repeat constructor. Qed.
