(* ===== verification/Task.v ===== *)
(** krn/task.h: tasks, their KIP and UTCB areas, and the list of tasks.

    A task pointer is the address of its item in [_tasks] (the contract
    [ListSpec] of list_t).  The operations that edit address spaces thread the
    shared part [kspace] of [Aspace].  Names are not modelled; the port rights
    of [Arch_task_t] are those of SPARC, where every access panics. *)

From Stdlib Require Import ZArith Lia Bool.
From stdpp Require Import base gmap list numbers.
From S2P Require Import Prelude SysUtils Bitmap ListSpec L4Types AddressSpace Kmem Mmu Ptable PtableSpec Aspace.

(** Constants of the build: the distance of kernel addresses, the kernel
    start, the address of the kernel interface page, the timer interrupt. *)
Class Config := {
  cfg_kdiff : Z; cfg_krn_vaddr : Z; get_kip : Z; cfg_timer_irq : Z; cfg_tick_usec : Z }.

Record task := MkTask {
  t_id : Z; _aspace : aspace; _kip_area : Z; _utcb_area : Z;
  _utcbs_bitmap : Bitmap.bitmap; _redirector : Z }.

(** Arch_task_t of krn/sparc/arch_data.h *)
Definition set_ioperm (port sz enable : Z) : res unit := Stop FPanic.
Definition is_ioperm (port sz enable : Z) : res Z := Stop FPanic.

Section Task.
Context {CF : Config} {AR : Arch}.
Implicit Types (k : kspace) (t : task).

Abbreviation vs := (vsp cfg_kdiff cfg_krn_vaddr).

Definition with_aspace t a := MkTask (t_id t) a (_kip_area t) (_utcb_area t) (_utcbs_bitmap t) (_redirector t).
Definition with_utcbs t b := MkTask (t_id t) (_aspace t) (_kip_area t) (_utcb_area t) b (_redirector t).
Definition with_areas t kip utcb := MkTask (t_id t) (_aspace t) kip utcb (_utcbs_bitmap t) (_redirector t).
Definition redirector t r := MkTask (t_id t) (_aspace t) (_kip_area t) (_utcb_area t) (_utcbs_bitmap t) r.

Definition task_map k t (va pa sz acc cachable : Z) : res (kspace * task) :=
  r ← aspace_map cfg_kdiff cfg_krn_vaddr k (_aspace t) va pa sz acc cachable; Ok (r.1, with_aspace t r.2).
Definition task_unmap k t (va sz : Z) : res (kspace * task) :=
  r ← aspace_unmap cfg_kdiff cfg_krn_vaddr k (_aspace t) va sz; Ok (r.1, with_aspace t r.2).
Definition task_walk k t (va sz : Z) : res Z := aspace_walk cfg_kdiff cfg_krn_vaddr k (_aspace t) va sz.

(** kmem_alloc for the kernel's own use *)
Definition kspace_alloc k (sz align : Z) : res (Z * kspace) :=
  r ← kmem_alloc (kheap (pg (pgs k))) sz align;
  Ok (r.1, with_pgs k (MkPg (MkP (tabs (pg (pgs k))) r.2) (kerntb (pgs k)) (ctxtb (pgs k)))).

(** The constructor; [counter] is the class's _counter before its increment.
    A page for the user-visible UTCB address is mapped at 0xff000000. *)
Definition task_ctor k (counter : Z) : res (kspace * task) :=
  a ← aspace_create cfg_kdiff cfg_krn_vaddr k counter;
  let t := MkTask counter a.1 Fpage_nil Fpage_nil (Bitmap.ctor 64) Thrid_nil in
  p ← kspace_alloc a.2 Cfg_page_sz Cfg_page_sz;
  pa ← kmem_paddr (vs p.2) p.1 Cfg_page_sz;
  task_map p.2 t 0xff000000 pa Cfg_page_sz Acc_kw_ur 1.

Definition map_kip k t : res (kspace * task) :=
  pa ← kmem_paddr (vs k) get_kip Cfg_page_sz;
  r ← aspace_map cfg_kdiff cfg_krn_vaddr k (_aspace t) (fpage_addr (_kip_area t)) pa Cfg_page_sz Acc_ukip 1;
  Ok (r.1, with_aspace t r.2).

Definition kip_area t (fpage : Z) : res task :=
  _ ← wassert (Bitmap.count (_utcbs_bitmap t) =? 0);
  _ ← wassert (negb (fpage_is_nil fpage));
  Ok (with_areas t fpage (_utcb_area t)).

(** The result of bitmap_t::init, which refuses more than 64 pages, is not
    looked at. *)
Definition utcb_area k t (fpage : Z) : res (kspace * task) :=
  _ ← wassert (Bitmap.count (_utcbs_bitmap t) =? 0);
  let t1 := with_areas t (_kip_area t) fpage in
  map_kip k (with_utcbs t1 (Bitmap.init 64 (_utcbs_bitmap t) (fpage_size fpage / Cfg_page_sz)).2).

Definition nonempty_fpage (f : Z) : bool := negb (fpage_addr f =? 0) && negb (fpage_size f =? 0).

Definition alloc_utcb_uspace t : res (Z * task) :=
  _ ← wassert (nonempty_fpage (_utcb_area t));
  r ← Bitmap.getfree (_utcbs_bitmap t);
  Ok (if r.1 <? 0 then 0 else u32 (fpage_addr (_utcb_area t) + r.1 * Cfg_page_sz), with_utcbs t r.2).

Definition free_utcb_uspace t (utcb : Z) : res task :=
  _ ← wassert (nonempty_fpage (_utcb_area t));
  _ ← wassert (fpage_addr (_utcb_area t) <=? utcb);
  let pos := (utcb - fpage_addr (_utcb_area t)) / Cfg_page_sz in
  r ← Bitmap.clear (_utcbs_bitmap t) pos;
  _ ← wassert (r.1 =? 0);
  Ok (with_utcbs t r.2).

Definition is_empty t : bool := Bitmap.count (_utcbs_bitmap t) =? 0.
Definition is_full t : bool := Bitmap.count (_utcbs_bitmap t) =? Bitmap.capacity (_utcbs_bitmap t).
Definition active_threads t : bool := negb (Bitmap.count (_utcbs_bitmap t) =? 0).
Definition user_kip t : Z := fpage_addr (_kip_area t).
Definition is_configured t : bool := nonempty_fpage (_kip_area t) && nonempty_fpage (_utcb_area t).

Definition task_is_inside_acc t (fp : Z) : res bool := is_inside_acc (_uspace (_aspace t)) fp.
Definition task_cached t (fp : Z) : res Z := aspace_cached (_uspace (_aspace t)) fp.
Definition task_attributes t (fp : Z) : res Z := attributes (_uspace (_aspace t)) fp.

(** ** Tasks_t: list_t<Task_t, 16>

    push_back() without a value runs the constructor in the new item; erase()
    runs no destructor, so the page tables of a removed task stay allocated. *)

Record tasks := MkTasks { _tasks : alist task; _counter : Z }.

Definition tasks_create k (ts : tasks) : res (Z * kspace * tasks) :=
  f ← take_free (_tasks ts);
  r ← task_ctor k (_counter ts);
  Ok (f.1, r.1, MkTasks (MkA (busy (_tasks ts) ++ [(f.1, r.2)]) f.2) (u32 (_counter ts + 1))).

Definition tasks_remove (ts : tasks) (p : Z) : res tasks :=
  match find_it p (busy (_tasks ts)) with
  | Some _ => r ← erase (_tasks ts) p; Ok (MkTasks r.2 (_counter ts))
  | None => Stop FPanic
  end.

End Task.
