(* ===== verification/Kernel.v ===== *)
(** The state of the running kernel, its effects, and the methods of Thread_t
    that touch more than the scheduler: krn/thread.h, krn/thrid.h and the
    entry frame of lib/sys/sparc/sys_eframe.h.

    A kernel handler runs on the kernel stack of its thread and may switch to
    another thread in the middle ([Sched_t::switch_to]); it continues when its
    thread is switched to again.  [proc] is the type of such runs: a result, a
    stop, or a switch with the rest of the handler as a function of the state
    in which the thread is resumed.

    The scheduler's part of a thread is [thread_t] of [Threads] (with the
    message tag, the sender and the error word of its UTCB); [xthread] holds
    the other fields of Thread_t, the rest of the UTCB and the entry frame.
    UTCB pages are not part of the physical memory [pmem]. *)

From Stdlib Require Import ZArith Lia Bool.
From stdpp Require Import base gmap list numbers.
From S2P Require Import Prelude SysUtils Bitmap ListSpec L4Types AddressSpace Kmem CString Threads Mmu Ptable PtableSpec Aspace Task.

(** ** State *)

Record efault_t := MkEf { ef_type : Z; ef_pfault : Z }.

Record xthread := MkX {
  x_mr : list Z;                 (* utcb.mr, without mr[0] *)
  x_br : list Z;                 (* utcb.br *)
  x_exc_handler : Z;             (* utcb._exc_handler *)
  x_user_handle : Z;             (* utcb._user_defined_handle *)
  x_global_id : Z;               (* utcb._global_id *)
  x_frame : list Z;              (* entry_frame(): 132 words *)
  x_stack : list Z;              (* words pushed by set_initial_stack_frame *)
  _utcb_kva : Z; _utcb_pa : Z;
  _sched : option nat; _pager : option nat;
  _flags : Z; _fpu_in_use : bool;
  _efault : efault_t; _signal_pending : bool; _entry_type : Z }.

Record int_thread := MkInt { _handler : Z; _pending : bool }.

(** The calls of the interrupt controller, in order. *)
Inductive intc_op := IMask (irq : Z) | IUnmask (irq : Z) | IClear (irq : Z) | IEoi (irq : Z).

Record kernel := MkK {
  ksp_ : kspace;                 (* static members of Aspace, Pgtab, Kmem *)
  tsks : tasks;                  (* Tasks_t *)
  ths : threads;                 (* Threads_t, Sched_t *)
  xthr : list xthread;
  ints : list int_thread;        (* Threads_t::_int_threads *)
  pmem : mem;                    (* physical memory *)
  now : Z;                       (* SystemClock_t::sys_clock() *)
  irqs : list Z;                 (* pending interrupts of the controller *)
  intc : list intc_op }.

Definition set_ks s v := MkK v (tsks s) (ths s) (xthr s) (ints s) (pmem s) (now s) (irqs s) (intc s).
Definition set_tsks s v := MkK (ksp_ s) v (ths s) (xthr s) (ints s) (pmem s) (now s) (irqs s) (intc s).
Definition set_ths s v := MkK (ksp_ s) (tsks s) v (xthr s) (ints s) (pmem s) (now s) (irqs s) (intc s).
Definition set_xthr s v := MkK (ksp_ s) (tsks s) (ths s) v (ints s) (pmem s) (now s) (irqs s) (intc s).
Definition set_ints s v := MkK (ksp_ s) (tsks s) (ths s) (xthr s) v (pmem s) (now s) (irqs s) (intc s).
Definition set_pmem s v := MkK (ksp_ s) (tsks s) (ths s) (xthr s) (ints s) v (now s) (irqs s) (intc s).
Definition set_intc s p l := MkK (ksp_ s) (tsks s) (ths s) (xthr s) (ints s) (pmem s) (now s) p l.
Definition set_now s v := MkK (ksp_ s) (tsks s) (ths s) (xthr s) (ints s) (pmem s) v (irqs s) (intc s).

(** ** Runs of a handler *)

Inductive proc (A : Type) :=
| Ret (a : A) (s : kernel)
| Halt (f : fault)
| Yield (s : kernel) (k : kernel -> proc A).
Arguments Ret {A}. Arguments Halt {A}. Arguments Yield {A}.

Definition K (A : Type) := kernel -> proc A.

Fixpoint pbind {A B} (p : proc A) (f : A -> K B) : proc B :=
  match p with
  | Ret a s => f a s
  | Halt e => Halt e
  | Yield s k => Yield s (fun s' => pbind (k s') f)
  end.

Definition ret {A} (a : A) : K A := Ret a.
Definition bind {A B} (m : K A) (f : A -> K B) : K B := fun s => pbind (m s) f.

Declare Scope kernel_scope.
Delimit Scope kernel_scope with K.
Notation "x <- m ;; n" := (bind m (fun x => n%K)) (at level 100, m at next level, right associativity) : kernel_scope.
Notation "m ;;; n" := (bind m (fun _ => n%K)) (at level 100, right associativity) : kernel_scope.

Definition halt {A} (f : fault) : K A := fun _ => Halt f.
Definition panic {A} : K A := halt FPanic.
Definition assert_ (b : bool) : K unit := if b then ret tt else halt FAssert.
Definition when (b : bool) (m : K unit) : K unit := if b then m else ret tt.

(** A computation on the state that may stop. *)
Definition run {A} (f : kernel -> res (A * kernel)) : K A :=
  fun s => match f s with Ok (a, s') => Ret a s' | Stop e => Halt e end.
Definition asks {A} (f : kernel -> res A) : K A := run (fun s => a ← f s; Ok (a, s)).
Definition modify (f : kernel -> kernel) : K unit := fun s => Ret tt (f s).

Open Scope kernel_scope.

(** ** Threads *)

(** Operations of [Threads] on the scheduler's part of the state. *)
Definition ask_ths {A} (f : threads -> res A) : K A := asks (fun s => f (ths s)).
Definition run_ths (f : threads -> res threads) : K unit :=
  run (fun s => t ← f (ths s); Ok (tt, set_ths s t)).

Definition thr_get (t : nat) : K thread_t := ask_ths (fun s => get s t).
Definition thr_mod (t : nat) (f : thread_t -> thread_t) : K unit :=
  run_ths (fun s => th ← get s t; Ok (put s t (f th))).
Definition x_get (t : nat) : K xthread := asks (fun s => from_opt FMem (xthr s !! t)).
Definition x_mod (t : nat) (f : xthread -> xthread) : K unit :=
  run (fun s => x ← from_opt FMem (xthr s !! t); Ok (tt, set_xthr s (<[t := f x]> (xthr s)))).

Definition cur_thr : K nat := asks (fun s => Ok (current (ths s))).
Definition clock : K Z := asks (fun s => Ok (now s)).

Definition state (t : nat) (st : state_t) : K unit := run_ths (fun s => set_state s t st).
Definition get_state (t : nat) : K state_t := th <- thr_get t ;; ret (_state th).
Definition get_prio_max (t : nat) : K Z := ask_ths (fun s => th ← get s t; prio_max th).
Definition find_thr (id : Z) : K (option nat) := ask_ths (fun s => find s id).

(** Sched_t::switch_to, switch_to_next *)
Definition switch_thr (nxt : nat) : K unit := fun s =>
  if Nat.eqb (current (ths s)) nxt then Ret tt s
  else match switch_to (ths s) nxt (now s) with
       | Ok t => Yield (set_ths s t) (Ret tt)
       | Stop e => Halt e
       end.
Definition switch_next : K unit := fun s =>
  match get_highest_prio_ready_thread (ths s) with
  | Ok (nxt, t) => switch_thr nxt (set_ths s t)
  | Stop e => Halt e
  end.

(** Setters of xthread *)
Definition with_mr x v := MkX v (x_br x) (x_exc_handler x) (x_user_handle x) (x_global_id x) (x_frame x) (x_stack x)
  (_utcb_kva x) (_utcb_pa x) (_sched x) (_pager x) (_flags x) (_fpu_in_use x) (_efault x) (_signal_pending x) (_entry_type x).
Definition with_user_handle x v := MkX (x_mr x) (x_br x) (x_exc_handler x) v (x_global_id x) (x_frame x) (x_stack x)
  (_utcb_kva x) (_utcb_pa x) (_sched x) (_pager x) (_flags x) (_fpu_in_use x) (_efault x) (_signal_pending x) (_entry_type x).
Definition with_global_id x v := MkX (x_mr x) (x_br x) (x_exc_handler x) (x_user_handle x) v (x_frame x) (x_stack x)
  (_utcb_kva x) (_utcb_pa x) (_sched x) (_pager x) (_flags x) (_fpu_in_use x) (_efault x) (_signal_pending x) (_entry_type x).
Definition with_frame x v := MkX (x_mr x) (x_br x) (x_exc_handler x) (x_user_handle x) (x_global_id x) v (x_stack x)
  (_utcb_kva x) (_utcb_pa x) (_sched x) (_pager x) (_flags x) (_fpu_in_use x) (_efault x) (_signal_pending x) (_entry_type x).
Definition with_stack x v := MkX (x_mr x) (x_br x) (x_exc_handler x) (x_user_handle x) (x_global_id x) (x_frame x) v
  (_utcb_kva x) (_utcb_pa x) (_sched x) (_pager x) (_flags x) (_fpu_in_use x) (_efault x) (_signal_pending x) (_entry_type x).
Definition with_location x kva pa := MkX (x_mr x) (x_br x) (x_exc_handler x) (x_user_handle x) (x_global_id x) (x_frame x)
  (x_stack x) kva pa (_sched x) (_pager x) (_flags x) (_fpu_in_use x) (_efault x) (_signal_pending x) (_entry_type x).
Definition with_partners x sc pg := MkX (x_mr x) (x_br x) (x_exc_handler x) (x_user_handle x) (x_global_id x) (x_frame x)
  (x_stack x) (_utcb_kva x) (_utcb_pa x) sc pg (_flags x) (_fpu_in_use x) (_efault x) (_signal_pending x) (_entry_type x).
Definition with_flags x f u := MkX (x_mr x) (x_br x) (x_exc_handler x) (x_user_handle x) (x_global_id x) (x_frame x)
  (x_stack x) (_utcb_kva x) (_utcb_pa x) (_sched x) (_pager x) f u (_efault x) (_signal_pending x) (_entry_type x).
Definition with_efault x v := MkX (x_mr x) (x_br x) (x_exc_handler x) (x_user_handle x) (x_global_id x) (x_frame x)
  (x_stack x) (_utcb_kva x) (_utcb_pa x) (_sched x) (_pager x) (_flags x) (_fpu_in_use x) v (_signal_pending x) (_entry_type x).
Definition with_signal x v := MkX (x_mr x) (x_br x) (x_exc_handler x) (x_user_handle x) (x_global_id x) (x_frame x)
  (x_stack x) (_utcb_kva x) (_utcb_pa x) (_sched x) (_pager x) (_flags x) (_fpu_in_use x) (_efault x) v (_entry_type x).
Definition with_entry_type x v := MkX (x_mr x) (x_br x) (x_exc_handler x) (x_user_handle x) (x_global_id x) (x_frame x)
  (x_stack x) (_utcb_kva x) (_utcb_pa x) (_sched x) (_pager x) (_flags x) (_fpu_in_use x) (_efault x) (_signal_pending x) v.

(** ** The UTCB: utcb()->mr[i], br[i], msgtag, error, sender

    The kernel reaches the UTCB by its user or its kernel address; both are
    the same page. *)
Definition Mr_words : Z := 256.
Definition with_sender (th : thread_t) v := let 'MkThread t u g sc pg k p s i f pr h he it up r m _ e := th in
  MkThread t u g sc pg k p s i f pr h he it up r m v e.

Definition get_mr (t : nat) (i : Z) : K Z :=
  if i =? 0 then th <- thr_get t ;; ret (utcb_msgtag th)
  else asks (fun s => x ← from_opt FMem (xthr s !! t); from_opt FMem (x_mr x !! Z.to_nat (i - 1))).
Definition set_mr (t : nat) (i v : Z) : K unit :=
  if i =? 0 then thr_mod t (fun th => with_utcb th v (utcb_error th))
  else run (fun s => x ← from_opt FMem (xthr s !! t); _ ← from_opt FMem (x_mr x !! Z.to_nat (i - 1));
                     Ok (tt, set_xthr s (<[t := with_mr x (<[Z.to_nat (i - 1) := v]> (x_mr x))]> (xthr s)))).
Definition get_br (t : nat) (i : Z) : K Z :=
  asks (fun s => x ← from_opt FMem (xthr s !! t); from_opt FMem (x_br x !! Z.to_nat i)).
Definition set_error (t : nat) (e : Z) : K unit := thr_mod t (fun th => with_utcb th (utcb_msgtag th) e).

(** ** Entry_frame_t of lib/sys/sparc/sys_eframe.h: 7 register windows of 16
    words, the globals (y, g1..g7), the registers i0..i7 of the system call
    and psr, wim, pc, npc. *)
Definition F_globals : nat := 112.
Definition F_syscall : nat := 120.
Definition F_psr : nat := 128.
Definition F_pc : nat := 130.
Definition F_npc : nat := 131.
Definition Frame_words : Z := 132.

Definition get_reg (t : nat) (i : nat) : K Z :=
  asks (fun s => x ← from_opt FMem (xthr s !! t); from_opt FMem (x_frame x !! i)).
Definition set_reg (t : nat) (i : nat) (v : Z) : K unit :=
  x_mod t (fun x => with_frame x (<[i := v]> (x_frame x))).
Definition get_i (t : nat) (n : nat) : K Z := get_reg t (F_syscall + n).
Definition set_i (t : nat) (n : nat) (v : Z) : K unit := set_reg t (F_syscall + n) v.
Definition get_g (t : nat) (n : nat) : K Z := get_reg t (F_globals + n).
Definition set_g (t : nat) (n : nat) (v : Z) : K unit := set_reg t (F_globals + n) v.

Definition scall_number (t : nat) : K Z := get_g t 1.
Definition scall_ipc_from (t : nat) (v : Z) : K unit := set_i t 0 v.

Definition Entry_type_syscall : Z := 1.
Definition Entry_type_pfault : Z := 2.
Definition Entry_type_kpfault : Z := 3.
Definition Entry_type_irq : Z := 4.
Definition Entry_type_exc : Z := 5.

Definition exit_pc (t : nat) (etype : Z) : K Z :=
  if etype =? Entry_type_syscall then get_reg t F_npc
  else if (etype =? Entry_type_pfault) || (etype =? Entry_type_irq) then get_reg t F_pc
  else ret 0.
Definition exit_pc2 (t : nat) (etype : Z) : K Z :=
  if etype =? Entry_type_syscall then v <- get_reg t F_npc ;; ret (u32 (v + 4))
  else if (etype =? Entry_type_pfault) || (etype =? Entry_type_irq) then get_reg t F_npc
  else ret 0.
Definition set_exit_pc (t : nat) (etype v1 v2 : Z) : K unit :=
  if etype =? Entry_type_syscall then
    when (negb (u32 (v1 + 4) =? v2)) (set_reg t F_npc 0 ;;; set_reg t F_pc 0) ;;;
    set_reg t F_npc (u32 (v2 - 4))
  else if (etype =? Entry_type_pfault) || (etype =? Entry_type_irq) || (etype =? Entry_type_exc) then
    set_reg t F_pc v1 ;;; set_reg t F_npc v2
  else set_reg t F_pc 0.

Definition enable_fpu (t : nat) : K unit := v <- get_reg t F_psr ;; set_reg t F_psr (Z.lor v 0x1000).
Definition disable_fpu (t : nat) : K unit := v <- get_reg t F_psr ;; set_reg t F_psr (Z.ldiff v 0x1000).

(** ** Tasks *)

Section Tasks.
Context {CF : Config}.
#[local] Existing Instance sparc_arch.

(** The task object behind a pointer; null and removed tasks are not mapped. *)
Definition task_get (p : Z) : K task := asks (fun s => deref (_tasks (tsks s)) p).
Definition run_task (p : Z) (f : kspace -> task -> res (kspace * task)) : K unit :=
  run (fun s => t ← deref (_tasks (tsks s)) p; r ← f (ksp_ s) t;
                Ok (tt, set_ks (set_tsks s (MkTasks (store (_tasks (tsks s)) p r.2) (_counter (tsks s)))) r.1)).
Definition ask_task {A} (p : Z) (f : kspace -> task -> res A) : K A :=
  asks (fun s => t ← deref (_tasks (tsks s)) p; f (ksp_ s) t).

Definition thr_task (t : nat) : K Z := th <- thr_get t ;; ret (_task th).

Definition t_map (p va pa sz acc cachable : Z) : K unit := run_task p (fun k t => task_map k t va pa sz acc cachable).
Definition t_unmap (p va sz : Z) : K unit := run_task p (fun k t => task_unmap k t va sz).
Definition t_walk (p va sz : Z) : K Z := ask_task p (fun k t => task_walk k t va sz).
Definition t_cached (p fp : Z) : K Z := ask_task p (fun _ t => task_cached t fp).
Definition t_is_inside_acc (p fp : Z) : K bool := ask_task p (fun _ t => task_is_inside_acc t fp).
Definition t_attributes (p fp : Z) : K Z := ask_task p (fun _ t => task_attributes t fp).
Definition t_set_ioperm (p port sz enable : Z) : K unit := asks (fun _ => set_ioperm port sz enable).
Definition t_is_ioperm (p port sz enable : Z) : K Z := asks (fun _ => is_ioperm port sz enable).

(** ** krn/thrid.h *)

Definition Kip_thrid_user_base : Z := Ints_max + Kthreads_max.
Definition Kip_thrid_number_max : Z := Z.shiftl 1 Thr_num_width - 1.
Definition thrid_sigma0 : Z := thrid_create_global (Kip_thrid_user_base + 0) Def_glob_ver.
Definition thrid_roottask : Z := thrid_create_global (Kip_thrid_user_base + 1) Def_glob_ver.
Definition thrid_is_int (id : Z) : bool :=
  thrid_is_global id && (thrid_number id <? Ints_max) && (thrid_version id =? 1).
Definition thrid_is_global_user (id : Z) : bool :=
  thrid_is_global id && (Kip_thrid_user_base <=? thrid_number id) && (thrid_number id <=? Kip_thrid_number_max).

(** ** Int_thread_t *)

Definition int_thr (irq : Z) : K (option int_thread) :=
  asks (fun s => if irq <? Ints_max then i ← from_opt FMem (ints s !! Z.to_nat irq); Ok (Some i) else Ok None).
Definition int_mod (irq : Z) (f : int_thread -> int_thread) : K unit :=
  run (fun s => i ← from_opt FMem (ints s !! Z.to_nat irq); Ok (tt, set_ints s (<[Z.to_nat irq := f i]> (ints s)))).
Definition intc_do (o : intc_op) : K unit :=
  modify (fun s => set_intc s (match o with IClear i => List.filter (fun j => negb (j =? i)) (irqs s) | _ => irqs s end)
                              (intc s ++ [o])).
Definition intc_is_pending (irq : Z) : K bool := asks (fun s => Ok (existsb (Z.eqb irq) (irqs s))).

Definition int_handler (irq h : Z) : K unit :=
  assert_ (thrid_is_nil h || thrid_is_global_user h) ;;;
  int_mod irq (fun _ => MkInt h false) ;;;
  when (thrid_is_nil h) (intc_do (IMask irq)).
Definition int_pending (irq : Z) (p : bool) : K unit := int_mod irq (fun i => MkInt (_handler i) p).

(** find_int_sender *)
Definition find_int_sender (rcv : nat) (from_spec : Z) : K bool :=
  assert_ (thrid_is_int from_spec) ;;;
  o <- int_thr (thrid_number from_spec) ;;
  match o with
  | None => halt FAssert
  | Some i => th <- thr_get rcv ;;
      ret (negb (thrid_is_nil (_handler i)) && _pending i && (_handler i =? _glob_id th))
  end.

(** ** Methods of Thread_t *)

Definition L4_flags_fpu : Z := 1.
Definition L4_flags_frcexc : Z := 2.

Definition flags (t : nat) (f : Z) : K unit :=
  x <- x_get t ;;
  when (negb (Z.land (_flags x) L4_flags_fpu =? 0) && (Z.land f L4_flags_fpu =? 0))
    (x_mod t (fun x => with_flags x (_flags x) false) ;;; disable_fpu t) ;;;
  x_mod t (fun x => with_flags x f (_fpu_in_use x)).

Definition pf_save (t : nat) (addr access inst : Z) : K unit := thr_mod t (fun th => with_pfault th (MkPf addr inst access)).
Definition exc_save (t : nat) (type pf : Z) : K unit := x_mod t (fun x => with_efault x (MkEf type pf)).
Definition set_ipc_to (t : nat) (id : Z) : K unit :=
  thr_mod t (fun th => with_ipc th (MkIpc (timeout (_ipc th)) id (ipc_from_spec (_ipc th)))).
Definition set_ipc_from_spec (t : nat) (id : Z) : K unit :=
  thr_mod t (fun th => with_ipc th (MkIpc (timeout (_ipc th)) (ipc_to (_ipc th)) id)).

Definition with_utcb_uva (th : thread_t) v := let 'MkThread t _ g sc pg k p s i f pr h he it up r m sd e := th in
  MkThread t v g sc pg k p s i f pr h he it up r m sd e.

Definition k_save_rcv_phase (t : nat) (tmo from_spec : Z) : K unit :=
  c <- clock ;; run_ths (fun s => save_rcv_phase s t c tmo from_spec).
Definition k_save_snd_phase (t : nat) (tmo to : Z) : K unit :=
  c <- clock ;; run_ths (fun s => save_snd_phase s t c tmo to).

(** utcb_location: the UTCB page is mapped into the kernel space. *)
Definition utcb_location (t : nat) (pa : Z) : K unit :=
  th <- thr_get t ;;
  assert_ (negb (is_active th)) ;;;
  kva <- run (fun s => r ← kmap_utcb cfg_kdiff cfg_krn_vaddr (ksp_ s) pa; Ok (r.1, set_ks s r.2)) ;;
  x_mod t (fun x => with_location x kva pa) ;;;
  assert_ (negb (kva =? 0)).

Definition free_utcb_kspace (t : nat) : K unit :=
  x <- x_get t ;;
  when (negb (_utcb_kva x =? 0))
    (run (fun s => r ← kunmap_utcb cfg_kdiff cfg_krn_vaddr (ksp_ s) (_utcb_kva x); Ok (tt, set_ks s r)) ;;;
     x_mod t (fun x => with_location x (u32 (-1)) (u64 (-1)))).

Definition activate (t : nat) : K unit :=
  th <- thr_get t ;; x <- x_get t ;;
  assert_ (negb (is_active th)) ;;;
  assert_ (negb (_utcb_pa x =? 0)) ;;;
  tsk <- task_get (_task th) ;;
  assert_ (is_configured tsk) ;;;
  uva <- run (fun s => t ← deref (_tasks (tsks s)) (_task th); r ← alloc_utcb_uspace t;
                       Ok (r.1, set_tsks s (MkTasks (store (_tasks (tsks s)) (_task th) r.2) (_counter (tsks s))))) ;;
  assert_ (negb (uva =? 0)) ;;;
  t_map (_task th) uva (_utcb_pa x) Cfg_page_sz Acc_utcb 1 ;;;
  thr_mod t (fun th => with_utcb_uva th uva) ;;;
  state t Active.

(** The words user_invoke() takes from the kernel stack; the address of
    user_invoke itself, pushed last, takes its place but is not recorded. *)
Definition set_initial_stack_frame (t : nat) (entry sp : Z) : K unit :=
  th <- thr_get t ;; x <- x_get t ;;
  assert_ (negb (_ksp th =? 0)) ;;;
  assert_ (negb (_utcb_uva th =? 0)) ;;;
  assert_ (negb (entry =? 0)) ;;;
  x_mod t (fun x => with_stack x (_utcb_uva th :: entry :: sp :: _flags x :: x_stack x)) ;;;
  thr_mod t (fun th => with_ksp th (u32 (_ksp th - 20))).

Definition start (t : nat) (entry_ip sp : Z) : K unit :=
  th <- thr_get t ;;
  assert_ (bool_decide (_state th = Active)) ;;;
  when (negb (Nat.eqb t 1))
    (assert_ (negb (thrid_is_nil (_pager_id th))) ;;;
     assert_ (negb (thrid_is_nil (_sched_id th))) ;;;
     pgr <- find_thr (_pager_id th) ;;
     sch <- find_thr (_sched_id th) ;;
     x_mod t (fun x => with_partners x sch pgr) ;;;
     assert_ (bool_decide (is_Some pgr) && bool_decide (is_Some sch)) ;;;
     x_mod t (fun x => with_global_id x (_glob_id th))) ;;;
  set_initial_stack_frame t entry_ip sp ;;;
  state t Ready.

End Tasks.
