(* ===== verification/Ipc.v ===== *)
(** krn/ipc.cpp: messages between threads.

    The functions below follow ipc.cpp in order: copying of strings between
    address spaces, the transfer of a message with its typed items, the page
    fault and exception protocols, and the system call with its send and
    receive phase.  A blocking call is a switch in the sense of [Kernel]. *)

From Stdlib Require Import ZArith Lia Bool.
From stdpp Require Import base gmap list numbers.
From S2P Require Import Prelude SysUtils Bitmap ListSpec L4Types AddressSpace Kmem CString Threads Mmu Ptable PtableSpec Aspace Task Kernel.

Open Scope kernel_scope.

Definition L4_ipc_no_partner : Z := 2.
Definition L4_ipc_overflow : Z := 4.

Section Ipc.
Context {CF : Config}.
#[local] Existing Instance sparc_arch.

(** ** Memory of the running thread

    Addresses are translated by the page tables of the current task; the
    kernel's rights are those of the SPARC access codes. *)

Definition kread_ok (acc : Z) : bool := negb (acc =? 4).
Definition kwrite_ok (acc : Z) : bool := (acc =? 1) || (acc =? 3) || (acc =? 5) || (acc =? 7).

Definition vtranslate (s : kernel) (ok : Z -> bool) (va : Z) : res Z :=
  th ← get (ths s) (current (ths s));
  t ← deref (_tasks (tsks s)) (_task th);
  r ← from_opt FMem (translate (vsp cfg_kdiff cfg_krn_vaddr (ksp_ s)) ptables (tabs (pg (pgs (ksp_ s))))
                       (roottb (_pgtab (_aspace t))) (u32 va));
  if ok r.1.2 then Ok r.1.1 else Stop FMem.

Fixpoint vload (s : kernel) (m : mem) (va : Z) (n : nat) : res (list Z) :=
  match n with
  | O => Ok []
  | S k => pa ← vtranslate s kread_ok va; b ← loadb m pa; l ← vload s m (va + 1) k; Ok (b :: l)
  end.
Fixpoint vstore (s : kernel) (m : mem) (va : Z) (l : list Z) : res mem :=
  match l with
  | [] => Ok m
  | b :: l' => pa ← vtranslate s kwrite_ok va; m1 ← storeb m pa b; vstore s m1 (va + 1) l'
  end.

(** memcpy of lib/wlibc/src/string.c on translated addresses *)
Fixpoint vcopy_loop (s : kernel) (w cnt : nat) (m : mem) (dst src : Z) : res mem :=
  match cnt with
  | O => Ok m
  | S k => l ← vload s m src w; m1 ← vstore s m dst l;
           vcopy_loop s w k m1 (dst + Z.of_nat w) (src + Z.of_nat w)
  end.
Definition vmemcpy (s : kernel) (m : mem) (dst src len : Z) : res mem :=
  _ ← wassert (len <? 0xf0000000);
  if (32 <=? len) && is_aligned3 dst src len 8 then vcopy_loop s 8 (Z.to_nat (len / 8)) m dst src
  else if (32 <=? len) && is_aligned3 dst src len 4 then vcopy_loop s 4 (Z.to_nat (len / 4)) m dst src
  else vcopy_loop s 1 (Z.to_nat len) m dst src.

(** Proc::load_phys_word, store_phys_word move one word past the MMU. *)
Definition store_phys_byte (m : mem) (val pa : Z) : res mem :=
  let aligned_pa := pa - pa mod 4 in
  w ← load_bytes m aligned_pa 4;
  store_bytes m aligned_pa (<[Z.to_nat (pa - aligned_pa) := val]> w).
Definition load_phys_byte (m : mem) (pa : Z) : res Z :=
  let aligned_pa := pa - pa mod 4 in
  w ← load_bytes m aligned_pa 4;
  from_opt FMem (w !! Z.to_nat (pa - aligned_pa)).

Fixpoint phys_dst_words (s : kernel) (n : nat) (m : mem) (src dst_pa : Z) : res mem :=
  match n with
  | O => Ok m
  | S k => w ← vload s m src 4; m1 ← store_bytes m dst_pa w; phys_dst_words s k m1 (src + 4) (dst_pa + 4)
  end.
Fixpoint phys_dst_bytes (s : kernel) (n : nat) (m : mem) (src dst_pa : Z) : res mem :=
  match n with
  | O => Ok m
  | S k => l ← vload s m src 1; m1 ← store_phys_byte m (hd 0 l) dst_pa; phys_dst_bytes s k m1 (src + 1) (dst_pa + 1)
  end.
Fixpoint phys_src_words (s : kernel) (n : nat) (m : mem) (src_pa dst : Z) : res mem :=
  match n with
  | O => Ok m
  | S k => w ← load_bytes m src_pa 4; m1 ← vstore s m dst w; phys_src_words s k m1 (src_pa + 4) (dst + 4)
  end.
Fixpoint phys_src_bytes (s : kernel) (n : nat) (m : mem) (src_pa dst : Z) : res mem :=
  match n with
  | O => Ok m
  | S k => b ← load_phys_byte m src_pa; m1 ← vstore s m dst [b]; phys_src_bytes s k m1 (src_pa + 1) (dst + 1)
  end.

(** The branch of a processor that copies physical memory (SPARC). *)
Definition memcpy_phys_dst (s : kernel) (src dst_pa len : Z) : res mem :=
  if is_aligned src 4 && is_aligned dst_pa 4 && is_aligned len 4
  then phys_dst_words s (Z.to_nat (len / 4)) (pmem s) src dst_pa
  else phys_dst_bytes s (Z.to_nat len) (pmem s) src dst_pa.
Definition memcpy_phys_src (s : kernel) (src_pa dst len : Z) : res mem :=
  if is_aligned src_pa 4 && is_aligned dst 4 && is_aligned len 4
  then phys_src_words s (Z.to_nat (len / 4)) (pmem s) src_pa dst
  else phys_src_bytes s (Z.to_nat len) (pmem s) src_pa dst.

Definition run_mem (f : kernel -> res mem) : K unit := run (fun s => m ← f s; Ok (tt, set_pmem s m)).

Definition copy_thread_buf (src dst len : Z) (snd rcv : nat) : K unit :=
  if len =? 0 then ret tt else
  stask <- thr_task snd ;; rtask <- thr_task rcv ;;
  cur <- cur_thr ;; ctask <- thr_task cur ;;
  if stask =? rtask then
    assert_ (stask =? ctask) ;;; run_mem (fun s => vmemcpy s (pmem s) dst src len)
  else if stask =? ctask then
    if negb (round_pg_down dst =? round_pg_down (u32 (dst + len - 1))) then panic
    else
      pa <- t_walk rtask (round_pg_down dst) (round_pg_up len) ;;
      assert_ (negb (pa =? 0)) ;;;
      run_mem (fun s => memcpy_phys_dst s src (u32 (pa + get_pg_offset dst)) len)
  else
    assert_ (rtask =? ctask) ;;;
    if negb (round_pg_down src =? round_pg_down (u32 (src + len - 1))) then panic
    else
      pa <- t_walk stask (round_pg_down src) (round_pg_up len) ;;
      assert_ (negb (pa =? 0)) ;;;
      run_mem (fun s => memcpy_phys_src s (u32 (pa + get_pg_offset src)) dst len).

(** ** Page faults and exceptions *)

Definition do_pfault_ipc (snd rcv : nat) (fault_addr fault_access fault_inst : Z) : K unit :=
  assert_ (negb (Nat.eqb snd rcv)) ;;;
  (if fault_access =? 8 then
     fp <- asks (fun _ => fpage_set_io 0 fault_addr 1) ;;
     set_mr rcv 0 (tag_set_proto_pf 0 Io_pagefault Acc_rw 2 0) ;;;
     set_mr rcv 1 fp ;;;
     set_mr rcv 2 fault_inst
   else
     set_mr rcv 0 (tag_set_proto_pf 0 Pagefault fault_access 2 0) ;;;
     set_mr rcv 1 fault_addr ;;;
     set_mr rcv 2 fault_inst) ;;;
  sth <- thr_get snd ;;
  scall_ipc_from rcv (_glob_id sth).

(** memcpy between a frame and message registers: [n] words from [mr[i]] on. *)
Fixpoint copy_to_mr (t : nat) (i : Z) (l : list Z) : K unit :=
  match l with
  | [] => ret tt
  | w :: l' => set_mr t i w ;;; copy_to_mr t (i + 1) l'
  end.
Fixpoint copy_from_mr (t : nat) (i : Z) (n : nat) : K (list Z) :=
  match n with
  | O => ret []
  | S k => w <- get_mr t i ;; l <- copy_from_mr t (i + 1) k ;; ret (w :: l)
  end.

Definition do_exc_ipc (snd rcv : nat) (exc_type pfault_addr_and_acc : Z) : K unit :=
  assert_ (negb (Nat.eqb snd rcv)) ;;;
  set_mr rcv 0 (tag_set_proto 0 exc_type (1 + Frame_words) 0) ;;;
  set_mr rcv 1 pfault_addr_and_acc ;;;
  x <- x_get snd ;;
  copy_to_mr rcv 2 (x_frame x) ;;;
  sth <- thr_get snd ;;
  scall_ipc_from rcv (_glob_id sth).

Definition process_pfault (fault_thr : nat) (fault_addr fault_access fault_inst : Z) : K unit :=
  x <- x_get fault_thr ;;
  match _pager x with
  | None => panic
  | Some pgr =>
      st <- get_state pgr ;;
      pth <- thr_get pgr ;;
      if bool_decide (st = Receive_ipc) then
        do_pfault_ipc fault_thr pgr fault_addr fault_access fault_inst ;;;
        state pgr Ready ;;;
        pf_save fault_thr fault_addr fault_access fault_inst ;;;
        set_ipc_from_spec fault_thr (_glob_id pth) ;;;
        state fault_thr Receive_pfault ;;;
        switch_thr pgr
      else
        pf_save fault_thr fault_addr fault_access fault_inst ;;;
        set_ipc_to fault_thr (_glob_id pth) ;;;
        state fault_thr Send_pfault ;;;
        switch_next
  end.

(** The exception handler: the one of the UTCB if it is active, else the root
    task. *)
Definition find_exc_handler (fault_thr : nat) : K nat :=
  x <- x_get fault_thr ;;
  o <- find_thr (x_exc_handler x) ;;
  active <- match o with
            | Some h => th <- thr_get h ;; ret (is_active th)
            | None => ret false
            end ;;
  match o, active with
  | Some h, true => ret h
  | _, _ => o' <- find_thr thrid_roottask ;; match o' with Some h => ret h | None => panic end
  end.

Definition process_exception (fault_thr : nat) (exc_type pfault_addr_and_acc : Z) : K unit :=
  exh <- find_exc_handler fault_thr ;;
  eth <- thr_get exh ;;
  if bool_decide (_state eth = Receive_ipc) then
    do_exc_ipc fault_thr exh exc_type pfault_addr_and_acc ;;;
    state exh Ready ;;;
    set_ipc_from_spec fault_thr (_glob_id eth) ;;;
    state fault_thr Receive_exception ;;;
    switch_thr exh
  else
    exc_save fault_thr exc_type pfault_addr_and_acc ;;;
    set_ipc_to fault_thr (_glob_id eth) ;;;
    state fault_thr Send_exception ;;;
    switch_next.

(** ** Message transfer *)

(** The page of the receiver a memory item goes to: (address, size, rights,
    the item the receiver sees). *)
Definition rcv_window (acceptor snd_fpage w0 : Z) : K (Z * Z * Z * (Z * Z)) :=
  if fpage_is_nil acceptor then panic
  else if fpage_is_complete acceptor then
    ret (fpage_addr snd_fpage, fpage_size snd_fpage, fpage_access snd_fpage, (w0, snd_fpage))
  else if negb (fpage_size acceptor =? fpage_size snd_fpage) then panic
  else
    fp <- asks (fun _ => fpage_set 0 (fpage_addr acceptor) (fpage_size acceptor) (fpage_access snd_fpage)) ;;
    ret (fpage_addr acceptor, fpage_size acceptor, fpage_access snd_fpage, mitem_set w0 fp false).

(** A page the sender does not have is asked from its pager once. *)
Definition snd_cached (snd : nat) (snd_fpage : Z) : K Z :=
  stask <- thr_task snd ;;
  c <- t_cached stask snd_fpage ;;
  if c <? 0 then
    process_pfault snd (fpage_addr snd_fpage) (fpage_access snd_fpage) (fpage_addr snd_fpage) ;;;
    stask <- thr_task snd ;;
    c <- t_cached stask snd_fpage ;;
    if c <? 0 then panic else ret c
  else ret c.

Definition mem_item (snd rcv : nat) (i w0 snd_fpage : Z) : K (Z * Z) :=
  cached <- snd_cached snd snd_fpage ;;
  stask <- thr_task snd ;;
  pa <- t_walk stask (fpage_addr snd_fpage) (fpage_size snd_fpage) ;;
  assert_ (negb (pa =? 0)) ;;;
  a <- get_br rcv 0 ;;
  w <- rcv_window (acceptor_fpage a) snd_fpage w0 ;;
  let '(dst_va, dst_sz, dst_acc, res_item) := w in
  rtask <- thr_task rcv ;;
  t_map rtask dst_va pa dst_sz (uacc2acc dst_acc) cached ;;;
  w0' <- get_mr snd i ;;
  when (mitem_is_grant w0') (t_unmap rtask (fpage_addr snd_fpage) (fpage_addr snd_fpage)) ;;;
  ret res_item.

Definition io_item (snd rcv : nat) (w0 snd_fpage : Z) : K (Z * Z) :=
  stask <- thr_task snd ;; rtask <- thr_task rcv ;;
  let port := fpage_io_port snd_fpage in
  let sz := fpage_io_size snd_fpage in
  p <- t_is_ioperm stask port sz 1 ;;
  if p =? 0 then panic else
  t_set_ioperm rtask port sz 1 ;;;
  q <- t_is_ioperm rtask port sz 1 ;;
  assert_ (negb (q =? 0)) ;;;
  when (titem_is_grant_item w0) (t_set_ioperm stask port sz 0) ;;;
  ret (w0, snd_fpage).

(** A map or grant item in the registers [i] and [i+1]. *)
Definition map_item (snd rcv : nat) (i : Z) : K unit :=
  w0 <- get_mr snd i ;; snd_fpage <- get_mr snd (i + 1) ;;
  r <- (if fpage_is_complete snd_fpage then panic
        else if fpage_is_io snd_fpage then io_item snd rcv w0 snd_fpage
        else if negb (fpage_is_nil snd_fpage) then mem_item snd rcv i w0 snd_fpage
        else ret (w0, snd_fpage)) ;;
  set_mr rcv i r.1 ;;;
  set_mr rcv (i + 1) r.2.

(** A string item in the registers from [i] on; [next_buf] is the register of
    the next buffer (-1: none), [copied] the bytes copied so far.  The result
    is None after an overflow, else the next register, buffer and count.
    Compound strings panic, so the loop over substrings runs once. *)
Definition string_item (snd rcv : nat) (tag i last next_buf copied : Z) : K (option (Z * Z * Z)) :=
  w0 <- get_mr snd i ;;
  a <- get_br rcv 0 ;;
  if negb (acceptor_string_accepted a) then panic
  else if next_buf =? -1 then panic else
  b0 <- get_br rcv next_buf ;; b1 <- get_br rcv (next_buf + 1) ;;
  let next_buf' := if sitem_is_last b0 then -1 else next_buf + (1 + sitem_substring_number b0) in
  set_mr rcv i w0 ;;;
  if last <? i then halt FAssert
  else if 1 <? sitem_substring_number w0 then panic
  else if 1 <? sitem_substring_number b0 then panic else
  let len := Z.min (sitem_length w0) (sitem_length b0) in
  ptr <- get_mr snd (i + 1) ;;
  copy_thread_buf ptr b1 len snd rcv ;;;
  set_mr rcv (i + 1) b1 ;;;
  let copied' := u32 (copied + len) in
  if len <? sitem_length w0 then
    set_error snd (ipcerr_create 0 L4_snd_phase L4_ipc_overflow copied') ;;;
    set_error rcv (ipcerr_create 0 L4_rcv_phase L4_ipc_overflow copied') ;;;
    set_mr snd 0 (tag_ipc_set_failed tag) ;;;
    set_mr rcv 0 (tag_ipc_set_failed tag) ;;;
    ret None
  else
    let i' := i + sitem_substring_number w0 + 1 in
    assert_ (negb (negb (titem_is_last w0) && (last <? i'))) ;;;
    assert_ (negb (titem_is_last w0 && negb (i' =? last + 1))) ;;;
    ret (Some (i', next_buf', copied')).

(** The loop over the typed words; every item has at least two words, and a
    tag counts at most 63. *)
Fixpoint typed_items (fuel : nat) (snd rcv : nat) (tag i last next_buf copied : Z) : K unit :=
  if last <? i then ret tt else
  match fuel with
  | O => halt FFuel
  | S f =>
      w0 <- get_mr snd i ;;
      if i =? last then halt FAssert
      else if titem_is_map_item w0 || titem_is_grant_item w0 then
        map_item snd rcv i ;;;
        typed_items f snd rcv tag (i + 2) last next_buf copied
      else if titem_is_string_item w0 then
        r <- string_item snd rcv tag i last next_buf copied ;;
        match r with
        | None => ret tt
        | Some (i', nb, c) => typed_items f snd rcv tag i' last nb c
        end
      else halt FAssert
  end.

(** The loop over the untyped words. *)
Fixpoint copy_untyped (snd rcv : nat) (i : Z) (n : nat) : K unit :=
  match n with
  | O => ret tt
  | S k => w <- get_mr snd i ;; set_mr rcv i w ;;; copy_untyped snd rcv (i + 1) k
  end.

(** The parse errors after which the C function would return a code are
    assertions in front of the return, so there is no result. *)
Definition do_normal_ipc (snd rcv : nat) (propagated use_local_id : bool) : K unit :=
  assert_ (negb (Nat.eqb snd rcv)) ;;;
  sth <- thr_get snd ;;
  let tag := utcb_msgtag sth in
  set_mr rcv 0 tag ;;;
  let real_sender := if use_local_id then localid sth else _glob_id sth in
  (if propagated then
     scall_ipc_from rcv (utcb_sender sth) ;;;
     thr_mod rcv (fun th => with_sender th real_sender)
   else scall_ipc_from rcv real_sender) ;;;
  copy_untyped snd rcv 1 (Z.to_nat (tag_untyped tag)) ;;;
  when (negb (tag_typed tag =? 0))
    (typed_items 64 snd rcv tag (tag_untyped tag + 1) (tag_untyped tag + tag_typed tag) 1 0).

(** ** The system call *)

Definition ipc_fail (cur : nat) (tag phase err : Z) : K unit :=
  set_error cur (ipcerr_create 0 phase err 0) ;;;
  set_mr cur 0 (tag_ipc_set_failed tag).

(** The message that enables an interrupt again; the result says whether the
    call goes on. *)
Definition ipc_unmask (cur : nat) (tag to : Z) : K bool :=
  fl <- get_mr cur 1 ;;
  let irq := thrid_number to in
  o <- int_thr irq ;;
  th <- thr_get cur ;;
  match o with
  | Some i =>
      if negb (_glob_id th =? _handler i) then ipc_fail cur tag L4_snd_phase L4_ipc_no_partner ;;; ret false
      else
        intc_do (IEoi irq) ;;;
        when (negb (Z.land fl 1 =? 0)) (intc_do (IClear irq)) ;;;
        p <- intc_is_pending irq ;;
        (if p : bool then intc_do (IClear irq) ;;; int_pending irq true
         else intc_do (IUnmask irq)) ;;;
        ret true
  | None => ipc_fail cur tag L4_snd_phase L4_ipc_no_partner ;;; ret false
  end.

Definition resume (dst : nat) : K (option nat) :=
  state dst Ready ;;;
  th <- thr_get dst ;;
  assert_ (thrid_is_nil (_prio_heir th)) ;;;
  ret (Some dst).

(** The reply of a pager: the message holds one map or grant item. *)
Definition pf_reply (cur dst : nat) : K (option nat) :=
  w0 <- get_mr cur 1 ;; fpage <- get_mr cur 2 ;;
  assert_ (titem_is_map_item w0 || titem_is_grant_item w0) ;;;
  dth <- thr_get dst ;;
  ctask <- thr_task cur ;; dtask <- thr_task dst ;;
  if fpage_is_complete fpage then
    process_exception dst Mmu_exception (Z.lor (pf_addr (_pfault dth)) (pf_access (_pfault dth))) ;;;
    ret None
  else if fpage_is_io fpage then
    let port := fpage_io_port fpage in
    let sz := fpage_io_size fpage in
    p <- t_is_ioperm ctask port sz 1 ;;
    if p =? 0 then panic else
    t_set_ioperm dtask port sz 1 ;;;
    when (mitem_is_grant w0) (t_set_ioperm ctask port sz 0) ;;;
    resume dst
  else if negb (fpage_is_nil fpage) then
    inside <- t_is_inside_acc ctask fpage ;;
    when (negb inside)
      (process_pfault cur (fpage_addr fpage) (fpage_access fpage) (fpage_addr fpage) ;;;
       ctask <- thr_task cur ;;
       again <- t_is_inside_acc ctask fpage ;;
       when (negb again) panic) ;;;
    ctask <- thr_task cur ;; dtask <- thr_task dst ;;
    pa <- t_walk ctask (fpage_addr fpage) (fpage_size fpage) ;;
    assert_ (negb (pa =? 0)) ;;;
    assert_ (negb (Nat.eqb cur 1) || (pa =? fpage_addr fpage)) ;;;
    dth <- thr_get dst ;;
    t_map dtask (round_down (pf_addr (_pfault dth)) Cfg_page_sz) pa (fpage_size fpage) (uacc2acc (fpage_access fpage)) 1 ;;;
    w0' <- get_mr cur 1 ;;
    when (mitem_is_grant w0') (t_unmap dtask (fpage_addr fpage) (fpage_size fpage)) ;;;
    resume dst
  else resume dst.

(** The receiver cannot take the message now: the sender lends its priority
    and waits. *)
Definition lend_prio (cur heir : nat) : K unit :=
  hth <- thr_get heir ;;
  p <- get_prio_max cur ;;
  when (prio hth <? p)
    (cth <- thr_get cur ;;
     run_ths (fun s => h ← get s heir; h' ← inherit_prio_add h (_glob_id cth) p; Ok (put s heir h')) ;;;
     thr_mod cur (fun th => with_heir th (_glob_id hth))).

(** A normal message: [None] ends the system call, else the partner. *)
Definition send_normal (cur dst : nat) (to snd_tmo tag : Z) : K (option (option nat)) :=
  cth <- thr_get cur ;; dth <- thr_get dst ;;
  sp <- (if tag_propagated tag then
           v <- find_thr (utcb_sender cth) ;;
           match v with
           | Some v =>
               vth <- thr_get v ;;
               if (_task cth =? _task vth) || (_task cth =? _task dth) then ret (v, true) else halt FAssert
           | None => halt FAssert
           end
         else ret (cur, false)) ;;
  sth <- thr_get sp.1 ;;
  good <- (if bool_decide (_state dth = Receive_ipc) then asks (fun _ => is_good_sender dth sth) else ret (false, false)) ;;
  if good.1 : bool then
    do_normal_ipc cur dst sp.2 good.2 ;;;
    st <- get_state dst ;;
    when (negb (bool_decide (st = Ready))) (state dst Ready) ;;;
    ret (Some (Some dst))
  else if time_is_zero snd_tmo then
    ipc_fail cur tag L4_snd_phase L4_ipc_timeout ;;; ret None
  else
    when (negb (Nat.eqb dst cur)) (lend_prio cur dst) ;;;
    k_save_snd_phase cur snd_tmo to ;;;
    switch_next ;;;
    ret (Some None).

Definition ipc_send (cur : nat) (to snd_tmo tag : Z) : K (option (option nat)) :=
  if thrid_is_int to && (tag_untyped tag =? 1) then
    go <- ipc_unmask cur tag to ;;
    ret (if go : bool then Some None else None)
  else
    o <- find_thr to ;;
    match o with
    | None => ipc_fail cur tag L4_snd_phase L4_ipc_no_partner ;;; ret None
    | Some dst =>
        dth <- thr_get dst ;;
        if negb (is_active dth) then ipc_fail cur tag L4_snd_phase L4_ipc_no_partner ;;; ret None
        else if bool_decide (_state dth = Active) && tag_is_thread_start tag then
          ip <- get_mr cur 1 ;; sp <- get_mr cur 2 ;;
          start dst ip sp ;;;
          ret (Some (Some dst))
        else if tag_is_pf_request tag || tag_is_io_pf_request tag then panic
        else if bool_decide (_state dth = Receive_pfault) && (tag_is_pf_reply tag || tag_is_io_pf_reply tag) then
          p <- pf_reply cur dst ;; ret (Some p)
        else if bool_decide (_state dth = Receive_exception) && tag_is_exc_reply tag then
          l <- copy_from_mr cur 2 (Z.to_nat Frame_words) ;;
          x_mod dst (fun x => with_frame x l) ;;;
          p <- resume dst ;; ret (Some p)
        else if tag_ipc_label tag =? 0x202 then
          assert_ (negb (Nat.eqb cur dst)) ;;;
          if bool_decide (_state dth = Receive_ipc) && (ipc_from_spec (_ipc dth) =? _glob_id dth) then
            scall_ipc_from dst (_glob_id dth) ;;;
            state dst Ready ;;;
            ret (Some (Some dst))
          else x_mod dst (fun x => with_signal x true) ;;; ret (Some None)
        else send_normal cur dst to snd_tmo tag
    end.

(** Waiting for a message: the thread has no partner when it goes on. *)
Definition wait_rcv (cur : nat) (rcv_tmo from_spec : Z) : K (option nat * option nat) :=
  k_save_rcv_phase cur rcv_tmo from_spec ;;;
  switch_next ;;;
  ret (None, None).

(** The receive phase; the result is the partners of the send and of the
    receive phase. *)
Definition ipc_receive (cur : nat) (from_spec rcv_tmo tag : Z) (sp : option nat) : K (option nat * option nat) :=
  cth <- thr_get cur ;;
  if (from_spec =? _glob_id cth) && (tag_ipc_label tag =? 0x202) then
    x <- x_get cur ;;
    if _signal_pending x then
      scall_ipc_from cur (_glob_id cth) ;;; x_mod cur (fun x => with_signal x false) ;;; ret (sp, None)
    else if time_is_zero rcv_tmo then ipc_fail cur tag L4_rcv_phase L4_ipc_timeout ;;; ret (sp, None)
    else wait_rcv cur rcv_tmo from_spec
  else if thrid_is_int from_spec then
    p <- find_int_sender cur from_spec ;;
    if p : bool then
      set_mr cur 0 (tag_set_typed (tag_set_untyped (tag_proto_nulls (tag_set_proto_label tag Interrupt)) 0) 0) ;;;
      scall_ipc_from cur (thrid_create_irq (thrid_number from_spec)) ;;;
      int_pending (thrid_number from_spec) false ;;;
      ret (sp, None)
    else wait_rcv cur rcv_tmo from_spec
  else
    r <- ask_ths (fun s => find_sender s cur from_spec) ;;
    match r.1 with
    | Some snd =>
        sth <- thr_get snd ;;
        match _state sth with
        | Send_pfault =>
            do_pfault_ipc snd cur (pf_addr (_pfault sth)) (pf_access (_pfault sth)) (pf_inst (_pfault sth)) ;;;
            state snd Receive_pfault ;;;
            ret (sp, Some snd)
        | Send_exception =>
            x <- x_get snd ;;
            do_exc_ipc snd cur (ef_type (_efault x)) (ef_pfault (_efault x)) ;;;
            state snd Receive_exception ;;;
            ret (sp, Some snd)
        | Send_ipc =>
            do_normal_ipc snd cur (propagated r.2) (use_local_id r.2) ;;;
            st <- get_state snd ;;
            when (negb (bool_decide (st = Ready))) (state snd Ready) ;;;
            ret (sp, Some snd)
        | _ => halt FAssert
        end
    | None =>
        if time_is_zero rcv_tmo then ipc_fail cur tag L4_rcv_phase L4_ipc_timeout ;;; ret (sp, None)
        else
          when (thrid_is_single from_spec && negb (from_spec =? _glob_id cth))
            (o <- find_thr from_spec ;;
             match o with Some sender => lend_prio cur sender | None => halt FAssert end) ;;;
          wait_rcv cur rcv_tmo from_spec
    end.

(** "switch to snd or rcv partner if need" *)
Definition partner_prio (p : option nat) : K Z := match p with Some t => get_prio_max t | None => ret 0 end.
Definition ipc_switch (cur : nat) (sp rp : option nat) : K unit :=
  th <- thr_get cur ;;
  assert_ (bool_decide (_state th = Ready)) ;;;
  cp <- get_prio_max cur ;;
  assert_ (prio th =? cp) ;;;
  sprio <- partner_prio sp ;; rprio <- partner_prio rp ;;
  when (cp <? cmax sprio rprio)
    match (if rprio <=? sprio then sp else rp) with
    | Some p => switch_thr p
    | None => halt FMem
    end.

Definition do_ipc (cur : nat) : K unit :=
  to <- get_i cur 0 ;; from_spec <- get_i cur 1 ;; tmo <- get_i cur 2 ;;
  th <- thr_get cur ;;
  let timeouts := timeouts_of_raw tmo in
  let tag := tag_ipc_set_ok (utcb_msgtag th) in
  set_mr cur 0 tag ;;;
  r <- (if negb (thrid_is_nil to) then ipc_send cur to (timeouts_snd timeouts) tag else ret (Some None)) ;;
  match r with
  | None => ret tt
  | Some sp =>
      th <- thr_get cur ;;
      p <- (if negb (thrid_is_nil from_spec) && negb (tag_ipc_is_failed (utcb_msgtag th))
            then ipc_receive cur from_spec (timeouts_rcv timeouts) tag sp
            else ret (sp, None)) ;;
      ipc_switch cur p.1 p.2
  end.

End Ipc.
