(* ===== verification/Syscalls.v ===== *)
(** krn/syscalls.cpp and krn/kentry.cpp: the system calls and the entry points
    of the kernel (system call, page fault, interrupt), with the trap entry of
    krn/sparc/entry.cpp.

    Results and errors go to the entry frame and to the UTCB of the caller as
    in the code.  Time accounting, the kernel debugger and its output are not
    modelled: the debugger call only sets its result. *)

From Stdlib Require Import ZArith Lia Bool.
From stdpp Require Import base gmap list numbers.
From S2P Require Import Prelude SysUtils Bitmap ListSpec L4Types AddressSpace Kmem CString Threads Mmu Ptable PtableSpec Aspace Task Kernel Ipc.

Open Scope kernel_scope.

(** L4_exreg_ctl_* of lib/l4/inc/l4_syscalls.h *)
Definition Ctl_d : Z := 512.
Definition Ctl_h : Z := 256.
Definition Ctl_p : Z := 128.
Definition Ctl_u : Z := 64.
Definition Ctl_f : Z := 32.
Definition Ctl_i : Z := 16.
Definition Ctl_s : Z := 8.
Definition Ctl_S : Z := 4.
Definition Ctl_R : Z := 2.
Definition Ctl_H : Z := 1.
Definition ctl (control bit : Z) : bool := negb (Z.land control bit =? 0).

Definition Word_max : Z := u32 (-1).
Definition Acc_rx : Z := Z.lor Acc_r Acc_x.

Section Syscalls.
Context {CF : Config}.
#[local] Existing Instance sparc_arch.

(** ** exchange_registers *)

Definition syscall_exchange_registers (cur : nat) : K unit :=
  dst <- get_i cur 0 ;; control <- get_i cur 1 ;; ip <- get_i cur 3 ;; ip2 <- get_g cur 5 ;;
  pager <- get_i cur 4 ;; uhandle <- get_i cur 5 ;; fl <- get_g cur 4 ;;
  set_i cur 0 Thrid_nil ;;;
  o <- find_thr dst ;;
  ctask <- thr_task cur ;;
  same <- match o with Some d => t <- thr_task d ;; ret (t =? ctask) | None => ret false end ;;
  match o, same with
  | Some d, true =>
      x <- x_get d ;;
      let etype := _entry_type x in
      when (ctl control Ctl_d)
        (pc <- exit_pc d etype ;; set_i cur 3 pc ;;;
         pc2 <- exit_pc2 d etype ;; set_g cur 5 pc2 ;;;
         x <- x_get d ;; set_g cur 4 (_flags x) ;;; set_i cur 5 (x_user_handle x)) ;;;
      when (ctl control Ctl_h) panic ;;;
      go <- (if ctl control Ctl_p then
               p <- find_thr pager ;;
               match p with
               | None => set_error cur 2 ;;; ret false
               | Some p =>
                   thr_mod d (fun th => with_ids th (_task th) (_glob_id th) (_sched_id th) pager) ;;;
                   x_mod d (fun x => with_partners x (_sched x) (Some p)) ;;; ret true
               end
             else ret true) ;;
      when go
        (when (ctl control Ctl_u) (x_mod d (fun x => with_user_handle x uhandle)) ;;;
         when (ctl control Ctl_f) (flags d fl) ;;;
         when (ctl control Ctl_i)
           (set_exit_pc d etype ip ip2 ;;;
            assert_ ((etype =? Entry_type_syscall) || (etype =? Entry_type_pfault) ||
                     (etype =? Entry_type_irq) || (etype =? Entry_type_exc))) ;;;
         when (ctl control Ctl_s) panic ;;;
         when (ctl control Ctl_S) panic ;;;
         when (ctl control Ctl_R) panic ;;;
         when (ctl control Ctl_H) panic ;;;
         dth <- thr_get d ;;
         set_i cur 0 (if thrid_is_local dst then _glob_id dth else localid dth))
  | _, _ => set_error cur 2
  end.

(** ** thread_control *)

Definition is_privileged (th : thread_t) : bool :=
  (_glob_id th =? thrid_sigma0) || (_glob_id th =? thrid_roottask).

Definition with_task (th : thread_t) (v : Z) : thread_t := with_ids th v (_glob_id th) (_sched_id th) (_pager_id th).

Definition opt_task (o : option nat) : K Z := match o with Some t => thr_task t | None => ret 0 end.
Definition task_ready (tsk : Z) (full : bool) : K bool :=
  if tsk =? 0 then ret false
  else t <- task_get tsk ;; ret (is_configured t && negb (full && is_full t)).

Definition set_utcb (cur dst : nat) (utcb : Z) : K unit :=
  when (negb (utcb =? Word_max))
    (ctask <- thr_task cur ;;
     pa <- t_walk ctask utcb Cfg_page_sz ;;
     assert_ (negb (pa =? 0)) ;;;
     utcb_location dst pa).

(** The task of a new thread: None after an error. *)
Definition new_thread_task (cur : nat) (dst space pager : Z) : K (option Z) :=
  if dst =? space then
    p <- run (fun s => r ← tasks_create (ksp_ s) (tsks s); Ok (r.1.1, set_ks (set_tsks s r.2) r.1.2)) ;;
    ret (Some p)
  else
    o <- find_thr space ;;
    tsk <- opt_task o ;;
    ok <- task_ready tsk true ;;
    if negb (thrid_is_nil pager) && negb ok then set_error cur 3 ;;; ret None else ret (Some tsk).

Definition thread_creation (cur : nat) (dst space sched pager utcb : Z) : K bool :=
  if thrid_is_nil sched then set_error cur 4 ;;; ret false
  else if (dst =? space) && negb (thrid_is_nil pager) then set_error cur 3 ;;; ret false
  else
    o <- new_thread_task cur dst space pager ;;
    match o with
    | None => ret false
    | Some tsk =>
        cth <- thr_get cur ;;
        d <- run (fun s => r ← create (ths s) dst sched pager tsk (prio cth); Ok (r.1, set_ths s r.2)) ;;
        set_utcb cur d utcb ;;;
        when (negb (thrid_is_nil pager)) (activate d) ;;;
        ret true
    end.

Definition thread_modification (cur d : nat) (dst space sched pager utcb : Z) : K bool :=
  o <- find_thr space ;;
  tsk <- opt_task o ;;
  ok <- task_ready tsk false ;;
  dth <- thr_get d ;;
  if negb (thrid_is_nil pager) && negb (is_active dth) && negb ok then set_error cur 3 ;;; ret false
  else if negb (utcb =? Word_max) && is_active dth then set_error cur 6 ;;; ret false
  else
    thr_mod d (fun th => with_ids th (_task th) dst (_sched_id th) (_pager_id th)) ;;;
    when (negb (thrid_is_nil sched))
      (thr_mod d (fun th => with_ids th (_task th) (_glob_id th) sched (_pager_id th))) ;;;
    set_utcb cur d utcb ;;;
    thr_mod d (fun th => with_task th tsk) ;;;
    when (negb (thrid_is_nil pager))
      (thr_mod d (fun th => with_ids th (_task th) (_glob_id th) (_sched_id th) pager) ;;;
       dth <- thr_get d ;;
       when (negb (is_active dth)) (activate d)) ;;;
    ret true.

Definition thread_deletion (d : nat) (dst : Z) : K unit :=
  free_utcb_kspace d ;;;
  th <- thr_get d ;;
  let tsk := _task th in
  run_task tsk (fun k t => t' ← free_utcb_uspace t (_utcb_uva th); Ok (k, t')) ;;;
  run_ths (fun s => remove s dst) ;;;
  t <- task_get tsk ;;
  when (is_empty t) (run (fun s => r ← tasks_remove (tsks s) tsk; Ok (tt, set_tsks s r))).

Definition syscall_thread_control (cur : nat) : K unit :=
  dst <- get_i cur 0 ;; space <- get_i cur 1 ;; sched <- get_i cur 2 ;; pager <- get_i cur 3 ;; utcb <- get_i cur 4 ;;
  set_i cur 0 0 ;;;
  cth <- thr_get cur ;;
  if negb (is_privileged cth) then set_error cur 1
  else if thrid_is_int dst && negb (thrid_number dst =? cfg_timer_irq) then
    o <- int_thr (thrid_number dst) ;;
    assert_ (bool_decide (is_Some o)) ;;;
    int_handler (thrid_number dst) pager ;;;
    set_i cur 0 1
  else if negb (thrid_is_global_user dst) then set_error cur 2
  else
    o <- ask_ths (fun s => Ok (find_num s (thrid_number dst))) ;;
    match thrid_is_nil space, o with
    | false, None => ok <- thread_creation cur dst space sched pager utcb ;; when ok (set_i cur 0 1)
    | false, Some d => ok <- thread_modification cur d dst space sched pager utcb ;; when ok (set_i cur 0 1)
    | true, Some d => thread_deletion d dst ;;; set_i cur 0 1
    | true, None => set_error cur 2
    end.

(** ** thread_switch, schedule *)

Definition syscall_thread_switch (cur : nat) : K unit :=
  dst <- get_i cur 0 ;;
  if thrid_is_nil dst then switch_next
  else
    o <- find_thr dst ;;
    match o with None => switch_next | Some _ => panic end.

Definition sched_result (st : state_t) : K Z :=
  match st with
  | Idle => panic
  | Inactive => ret 2
  | Active | Ready => ret 3
  | Send_ipc | Send_pfault | Send_exception => ret 4
  | Receive_ipc | Receive_pfault | Receive_exception => ret 6
  end.

Definition syscall_schedule (cur : nat) : K unit :=
  dst <- get_i cur 0 ;; time_ctl <- get_i cur 1 ;; proc_ctl <- get_i cur 2 ;;
  pr <- get_i cur 3 ;; preempt_ctl <- get_i cur 4 ;;
  set_i cur 0 0 ;;;
  o <- find_thr dst ;;
  match o with
  | None => set_error cur 2
  | Some d =>
      dth <- thr_get d ;; cth <- thr_get cur ;;
      if negb (_sched_id dth =? _glob_id cth) then set_error cur 1
      else if prio cth <? pr then set_error cur 5
      else
        when (negb (time_ctl =? Word_max)) panic ;;;
        when (negb (proc_ctl =? Word_max)) panic ;;;
        when (negb (pr =? Word_max)) (run_ths (fun s => set_prio s d pr)) ;;;
        when (negb (preempt_ctl =? Word_max)) panic ;;;
        st <- get_state d ;;
        r <- sched_result st ;;
        set_i cur 0 r ;;;
        set_i cur 1 Word_max
  end.

(** ** unmap, space_control, memory_control *)

(** Threads_t::remap_user_utcb over all thread objects *)
Fixpoint remap_user_utcb (tsk : Z) (l : list nat) : K unit :=
  match l with
  | [] => ret tt
  | t :: l' =>
      th <- thr_get t ;;
      when (_task th =? tsk)
        (x <- x_get t ;;
         pa <- t_walk tsk (_utcb_kva x) Cfg_page_sz ;;
         t_map tsk (_utcb_uva th) pa Cfg_page_sz Acc_utcb 1) ;;;
      remap_user_utcb tsk l'
  end.

Fixpoint unmap_fpages (cur : nat) (i : Z) (n : nat) : K unit :=
  match n with
  | O => ret tt
  | S k =>
      fpage <- get_mr cur i ;;
      ctask <- thr_task cur ;;
      (if fpage_is_io fpage then panic
       else if fpage_is_complete fpage then
         t_unmap ctask 0 0xf0000000 ;;;
         remap_user_utcb ctask (seq 0 (Z.to_nat Threads_max))
       else if negb (fpage_is_nil fpage) then t_unmap ctask (fpage_addr fpage) (fpage_size fpage)
       else ret tt) ;;;
      unmap_fpages cur (i + 1) k
  end.

Definition syscall_unmap (cur : nat) : K unit :=
  control <- get_i cur 0 ;;
  unmap_fpages cur 0 (Z.to_nat (Z.land control 0xff + 1)).

Definition utcb_area_ok (a : Z) : bool :=
  is_aligned (fpage_addr a) Cfg_page_sz && is_aligned (fpage_size a) Cfg_page_sz &&
  (Z.land (fpage_access a) Acc_rw =? Acc_rw).
Definition kip_area_ok (kip utcb : Z) : bool :=
  is_aligned (fpage_addr kip) Cfg_page_sz && (fpage_size kip =? Cfg_page_sz) &&
  (fpage_access kip =? Acc_rx) && negb (fpage_is_cross kip utcb).

Definition syscall_space_control (cur : nat) : K unit :=
  space <- get_i cur 0 ;; kip <- get_i cur 2 ;; utcb <- get_i cur 3 ;; redir <- get_i cur 4 ;;
  set_i cur 0 0 ;;;
  cth <- thr_get cur ;;
  if negb (is_privileged cth) then set_error cur 1
  else
    o <- (if thrid_is_global_user space then find_thr space
          else ret (if thrid_is_local space then Some cur else None)) ;;
    tsk <- opt_task o ;;
    if tsk =? 0 then set_error cur 3
    else
      t <- task_get tsk ;;
      go <- (if negb (active_threads t) then
               if negb (utcb_area_ok utcb) then set_error cur 6 ;;; ret false
               else if negb (kip_area_ok kip utcb) then set_error cur 7 ;;; ret false
               else
                 run_task tsk (fun k t => t' ← kip_area t kip; Ok (k, t')) ;;;
                 run_task tsk (fun k t => utcb_area k t utcb) ;;;
                 ret true
             else ret true) ;;
      when go
        (when (negb (thrid_is_nil redir)) (run_task tsk (fun k t => Ok (k, redirector t redir))) ;;;
         set_i cur 0 1).

Definition Fpages_max : Z := 64.

Fixpoint set_attribs (cur : nat) (attr : list Z) (i : Z) (n : nat) : K bool :=
  match n with
  | O => ret true
  | S k =>
      fp <- get_mr cur i ;;
      a <- asks (fun _ => from_opt FMem (attr !! Z.to_nat (Z.land fp 3))) ;;
      let cached := if a =? 1 then 0 else 1 in
      assert_ (negb (fpage_is_io fp)) ;;;
      if negb (fpage_is_complete fp) && negb (fpage_is_nil fp) then
        ctask <- thr_task cur ;;
        cur_attr <- t_attributes ctask fp ;;
        if cur_attr <? 0 then set_error cur 5 ;;; ret false
        else
          t_map ctask (fpage_addr fp) (fpage_addr fp) (fpage_size fp) (uacc2acc 0) cached ;;;
          set_attribs cur attr (i + 1) k
      else panic
  end.

(** The number of pages is computed as in the code, from the upper bits of the
    control word. *)
Definition syscall_memory_control (cur : nat) : K unit :=
  control <- get_i cur 0 ;; a0 <- get_i cur 1 ;; a1 <- get_i cur 2 ;; a2 <- get_i cur 3 ;; a3 <- get_i cur 4 ;;
  set_i cur 0 0 ;;;
  cth <- thr_get cur ;;
  if negb (is_privileged cth) then set_error cur 1
  else
    let num := u32 (Z.ldiff control 0x3f + 1) in
    if (Fpages_max <? num) || (1 <? a0) || (1 <? a1) || (1 <? a2) || (1 <? a3) then set_error cur 5
    else
      ok <- set_attribs cur [a0; a1; a2; a3] 0 (Z.to_nat num) ;;
      when ok (set_i cur 0 1).

(** print, console and threads of the debugger are output *)
Definition syscall_kdb (cur : nat) : K unit :=
  opcode <- get_i cur 0 ;;
  set_i cur 0 0 ;;;
  when (negb ((opcode =? 1) || (opcode =? 2) || (opcode =? 3))) (set_i cur 0 Word_max).

End Syscalls.
