(* ===== verification/Entry.v ===== *)
(** krn/kentry.cpp and krn/sparc/entry.cpp: the entry points of the kernel for
    system calls, page faults, interrupts and traps.

    [now] of the state is what SystemClock_t::sys_clock() returns, so the
    timer tick itself changes nothing.  The loop of check_force_exception
    sends an exception in every round and may go on as long as other threads
    set the flag again; it takes fuel. *)

From Stdlib Require Import ZArith Lia Bool.
From stdpp Require Import base gmap list numbers.
From S2P Require Import Prelude SysUtils ListSpec L4Types Threads Aspace Task Kernel Ipc Syscalls.

Open Scope kernel_scope.

Section Entry.
Context {CF : Config}.

(** ** kentry.cpp *)

Definition kern_timer_tick : K unit :=
  cur <- cur_thr ;;
  c <- clock ;;
  thr_mod cur (fun th => timeslice_update th c) ;;;
  next1 <- run (fun s => r ← check_ipc_timeouts (ths s) c; Ok (r.1, set_ths s r.2)) ;;
  th <- thr_get cur ;;
  next2 <- (if _remaning_timeslice th =? 0 then
              run (fun s => r ← timeslice_expired (ths s) cur None; t ← deref_it r.2 r.1; Ok (Some t, set_ths s r.2))
            else ret None) ;;
  hi <- match next1 with
        | Some n => p <- get_prio_max n ;; q <- get_prio_max cur ;; ret (q <? p)
        | None => ret false
        end ;;
  match next1, hi, next2 with
  | Some n, true, _ => switch_thr n
  | _, _, Some n => switch_thr n
  | _, _, None => ret tt
  end.

Fixpoint check_force_exception (fuel : nat) (cur : nat) : K unit :=
  x <- x_get cur ;;
  if Z.land (_flags x) L4_flags_frcexc =? 0 then ret tt else
  match fuel with
  | O => halt FFuel
  | S f =>
      flags cur (Z.ldiff (_flags x) L4_flags_frcexc) ;;;
      process_exception cur Force_exception 0 ;;;
      check_force_exception f cur
  end.

Definition kentry_pagefault (fuel : nat) (fault_addr fault_access fault_inst : Z) : K unit :=
  cur <- cur_thr ;;
  process_pfault cur fault_addr fault_access fault_inst ;;;
  cur <- cur_thr ;;
  check_force_exception fuel cur.

Definition kernel_interface (cur : nat) : K unit :=
  tsk <- thr_task cur ;; t <- task_get tsk ;; set_i cur 0 (user_kip t).

Definition system_clock (cur : nat) : K unit :=
  c <- clock ;; set_i cur 0 (u32 c) ;;; set_i cur 1 (u32 (Z.shiftr c 32)).

Definition unknown_syscall (cur : nat) : K unit :=
  x <- x_get cur ;;
  if negb (thrid_is_nil (x_exc_handler x)) then process_exception cur System_exception 0 else panic.

Definition dispatch (cur : nat) (n : Z) : K unit :=
  match n with
  | 1 => kernel_interface cur
  | 2 => syscall_exchange_registers cur
  | 3 => syscall_thread_control cur
  | 4 => system_clock cur
  | 5 => syscall_thread_switch cur
  | 6 => syscall_schedule cur
  | 7 => do_ipc cur
  | 8 => panic
  | 9 => syscall_unmap cur
  | 10 => syscall_space_control cur
  | 11 => panic
  | 12 => syscall_memory_control cur
  | 13 => c <- clock ;; thr_mod cur (fun th => timeslice_update th c) ;;; syscall_kdb cur
  | _ => unknown_syscall cur
  end.

Definition kentry_syscall (fuel : nat) : K unit :=
  cur <- cur_thr ;;
  n <- scall_number cur ;;
  dispatch cur n ;;;
  cur <- cur_thr ;;
  check_force_exception fuel cur.

(** The tag of an interrupt message is changed in a copy of the tag, so the
    receiver's mr[0] stays as it is. *)
Definition deliver_irq (irq h : Z) : K unit :=
  o <- find_thr h ;;
  match o with
  | None => halt FAssert
  | Some dst =>
      dth <- thr_get dst ;;
      acc <- (if bool_decide (_state dth = Receive_ipc) then asks (fun _ => is_irq_acceptable dth irq) else ret false) ;;
      if acc : bool then
        assert_ (irq <? Ints_max) ;;;
        scall_ipc_from dst (thrid_create_irq irq) ;;;
        state dst Ready ;;;
        p <- get_prio_max dst ;;
        cur <- cur_thr ;;
        q <- get_prio_max cur ;;
        when (q <? p) (switch_thr dst)
      else int_pending irq true
  end.

Definition kentry_irq (fuel : nat) (irq : Z) : K unit :=
  intc_do (IClear irq) ;;;
  (if irq =? cfg_timer_irq then
     intc_do (IEoi irq) ;;; kern_timer_tick
   else
     intc_do (IMask irq) ;;;
     o <- int_thr irq ;;
     match o with
     | None => halt FAssert
     | Some i =>
         assert_ (negb (thrid_is_nil (_handler i))) ;;;
         deliver_irq irq (_handler i)
     end) ;;;
  cur <- cur_thr ;;
  check_force_exception fuel cur.

(** ** krn/sparc/entry.cpp *)

Definition entry_type (t : nat) (v : Z) : K unit := x_mod t (fun x => with_entry_type x v).

(** The access type field of the MMU fault status. *)
Definition arch_get_access (mmu_fsr : Z) : Z :=
  match Z.land (Z.shiftr mmu_fsr 5) 7 with
  | 0 | 1 => Acc_r
  | 2 | 3 => Acc_x
  | _ => Acc_w
  end.

Definition sparc_entry_irq (fuel : nat) (irq : Z) : K unit :=
  cur <- cur_thr ;; entry_type cur Entry_type_irq ;;; kentry_irq fuel irq.

Definition sparc_entry_syscall (fuel : nat) : K unit :=
  cur <- cur_thr ;;
  entry_type cur Entry_type_syscall ;;;
  kentry_syscall fuel ;;;
  cur <- cur_thr ;;
  npc <- get_reg cur F_npc ;;
  set_reg cur F_pc npc ;;;
  set_reg cur F_npc (u32 (npc + 4)).

(** A fault in user mode; faults of the kernel itself panic. *)
Definition sparc_entry_pagefault (fuel : nat) (krn_mode : bool) (fault_addr fault_status fault_inst : Z) : K unit :=
  if krn_mode then panic else
  cur <- cur_thr ;;
  entry_type cur Entry_type_pfault ;;;
  kentry_pagefault fuel fault_addr (arch_get_access fault_status) fault_inst.

(** What is not handled enters the debugger: the run stops there (for a trap
    in user mode the operator may leave the debugger and repeat the trap). *)
Definition sparc_entry_bad_trap (krn_mode : bool) (ttype : Z) : K unit :=
  cur <- cur_thr ;;
  entry_type cur 99 ;;;
  if krn_mode then panic
  else if ttype =? 4 then
    x <- x_get cur ;;
    if _flags x =? 1 then enable_fpu cur ;;; x_mod cur (fun x => with_flags x (_flags x) true) else panic
  else if 0x80 <=? ttype then
    x <- x_get cur ;;
    if negb (thrid_is_nil (x_exc_handler x)) then
      entry_type cur Entry_type_exc ;;;
      process_exception cur System_exception 0
    else panic
  else panic.

End Entry.
