(* ===== verification/KernelInv.v ===== *)
(** The invariant of the running kernel, on the threads.

    Between two switches every handler of [Ipc], [Syscalls] and [Entry] keeps
    the scheduler consistent ([Sched.inv]) and the idle thread ready: [tinv].
    Here this is shown for the operations of [Threads], each one for any result
    it may have, with no condition on inherited priorities: what the code
    asserts is not assumed.  [KernelSafe] lifts it to the handlers. *)

From Stdlib Require Import ZArith Lia Bool.
From stdpp Require Import base gmap list numbers sets sorting relations.
From S2P Require Import Prelude SysUtils ListSpec L4Types Threads Sched.

(** ** The invariant on the threads *)

Record tinv (s : threads) : Prop := MkTinv {
  j_inv : inv s;
  j_idle : forall th, thr s !! 0%nat = Some th -> _state th = Ready }.

(** Blocked in a normal message: the states whose list depends on the
    timeout of the thread. *)
Definition in_ipc (st : state_t) : Prop := st = Send_ipc \/ st = Receive_ipc.

Lemma get_Ok s t th : get s t = Ok th -> thr s !! t = Some th.
Proof. unfold get, from_opt. destruct (thr s !! t); congruence. Qed.

(** A change of one thread that does not concern its list. *)
Definition inert (f : thread_t -> thread_t) : Prop := forall th,
  _state (f th) = _state th /\ _prio (f th) = _prio th /\ _iter (f th) = _iter th /\
  timeout (_ipc (f th)) = timeout (_ipc th).

Lemma inert_queue f th : inert f -> queue_of (f th) = queue_of th.
Proof.
  intros H. destruct (H th) as (E1 & E2 & _ & E3). unfold queue_of, prio, waits. by rewrite E1, E2, E3.
Qed.

Lemma inert_put x s t th f : inv_x x s -> thr s !! t = Some th -> inert f -> inv_x x (put s t (f th)).
Proof.
  intros I Ht Hf. destruct (Hf th) as (_ & _ & E3 & E4). eapply put_same; [done | done | by apply inert_queue | done | done].
Qed.

Lemma tinv_put s t th th' : tinv s -> thr s !! t = Some th -> inv (put s t th') ->
  (t = 0%nat -> _state th' = Ready) -> tinv (put s t th').
Proof.
  intros J Ht I H0. assert (Hl : (t < length (thr s))%nat) by (by eapply lookup_lt_Some). split; [done |]. simpl.
  intros th0. destruct (decide (t = 0%nat)) as [-> |].
  - rewrite list_lookup_insert_eq by done. intros [= <-]. by apply H0.
  - rewrite list_lookup_insert_ne by done. apply J.
Qed.

Lemma tinv_inert s t th f : tinv s -> thr s !! t = Some th -> inert f -> tinv (put s t (f th)).
Proof.
  intros J Ht Hf. eapply tinv_put; [done | done | apply inert_put; [apply J | done | done] |].
  intros ->. rewrite (proj1 (Hf th)). by apply (j_idle s J).
Qed.

(** A change of the timeout of a thread whose list does not depend on it. *)
Lemma put_untimed x s t th th' : inv_x x s -> thr s !! t = Some th -> queue_of th' = queue_of th ->
  _iter th' = _iter th -> (forall q, queue_of th = Some q -> ~ timed q) -> inv_x x (put s t th').
Proof.
  intros I Ht Hq Hi Hnt. assert (Hl : (t < length (thr s))%nat) by (by eapply lookup_lt_Some). split; try apply I.
  - simpl. rewrite length_insert. apply I.
  - simpl. intros u uth q Hu Hx Hqu. destruct (decide (u = t)) as [-> |].
    + rewrite list_lookup_insert_eq in Hu by done. injection Hu as <-. rewrite Hi. rewrite Hq in Hqu.
      by eapply (i_in _ s I).
    + rewrite list_lookup_insert_ne in Hu by done. by eapply (i_in _ s I).
  - simpl. intros q a u Hin. destruct (i_out _ s I q a u Hin) as (Hx & uth & H1 & H2 & H3). split; [done |].
    destruct (decide (u = t)) as [-> |].
    + exists th'. rewrite list_lookup_insert_eq by done. rewrite Ht in H1. injection H1 as <-. by rewrite Hq, Hi.
    + exists uth. by rewrite list_lookup_insert_ne by done.
  - intros q Hqt. pose proof (i_sorted _ s I q Hqt) as Hs. rewrite (list_fmap_ext _ (tmo s)); [done |].
    intros i u Hu. unfold tmo. simpl. rewrite list_lookup_insert_ne; [done |]. intros <-.
    apply list_elem_of_lookup_2, elem_of_vals in Hu as (a & Hin). destruct (i_out _ s I q a t Hin) as (_ & uth & H1 & H2 & _).
    rewrite Ht in H1. injection H1 as <-. by destruct (Hnt q H2).
Qed.

(** ** State changes *)

(** What leaving its list does to the thread. *)
Definition detaches (s : threads) (t : nat) (th : thread_t) : Prop := forall s1, leave_list s t th = Ok s1 ->
  inv_x (Some t) s1 /\ current s1 = current s /\ exists it, thr s1 = <[t := with_iter th it]> (thr s).

Lemma leave_detaches s t th : inv s -> thr s !! t = Some th -> detaches s t th.
Proof.
  intros I Ht s1 E. destruct (leave_ok s t th I Ht) as (s1' & E' & I1 & _ & T1 & C1). rewrite E in E'. by injection E' as <-.
Qed.

(** The timeout of a sender that leaves its list may have changed before: if
    the list of the new timeout is another one, the assertion of the deletion
    stops the kernel. *)
Lemma retimed_detaches s t th i : inv s -> thr s !! t = Some th -> _state th = Send_ipc ->
  detaches (put s t (with_ipc th i)) t (with_ipc th i).
Proof.
  intros I Ht Hs s1. set (th' := with_ipc th i). assert (Hl : (t < length (thr s))%nat) by (by eapply lookup_lt_Some).
  assert (Hq : queue_of th = Some (if waits th then QTmoSnd else QSend)) by (unfold queue_of; by rewrite Hs).
  destruct (own_item s t th _ I Ht Hq) as (a & l1 & l2 & A & Ed & Ex & Ee & Ei & Eb & Ea & Ef & HwA).
  set (q := if waits th then QTmoSnd else QSend) in *.
  assert (Hs' : _state th' = Send_ipc) by (unfold th'; by destruct th).
  assert (Hi' : _iter th' = Some (q, a)) by (unfold th'; rewrite <- Ei; by destruct th).
  assert (Ht' : thr (put s t th') !! t = Some th') by (simpl; by rewrite list_lookup_insert_eq).
  assert (Hfin : forall q', assign_iter t (A0 ← (_ ← wassert (is_exist_it (put s t th') q' (Some (q, a)));
      erase_it (put s t th') q' (Some (q, a))); Ok (None, set_queue (put s t th') q' A0)) = Ok s1 ->
    inv_x (Some t) s1 /\ current s1 = current s /\ exists it, thr s1 = <[t := with_iter th' it]> (thr s)).
  { intros q' E. unfold assign_iter in E. apply bind_Ok in E as ([it s2] & E & E2). apply bind_Ok in E as (A0 & E & E').
    injection E' as <- <-. apply bind_Ok in E as (? & E1 & E). apply wassert_Ok in E1. unfold is_exist_it in E1.
    apply andb_true_iff in E1 as [E1%bool_decide_eq_true_1 _]. subst q'. unfold erase_it in E. cbn [from_opt mbind res_bind] in E.
    rewrite Ei in Ee. unfold erase_it in Ee. cbn [from_opt mbind res_bind] in Ee.
    change (queues (put s t th') q) with (queues s q) in E. rewrite Ee in E. injection E as <-.
    rewrite (get_ok _ t th') in E2 by done. injection E2 as <-. split_and!; [| done |].
    - eapply (inv_ext _ (put (put (set_bits (set_queue s q A) (ready_bits s)) t (with_iter th None)) t (with_iter th' None)));
        [simpl; by rewrite !list_insert_insert_eq | done | done |].
      apply put_detached. apply (detach_inv s t th q a A (ready_bits s) l1 l2); try done.
      apply bits_other; [apply I | intros p; unfold q; by destruct (waits th)].
    - exists None. simpl. by rewrite list_insert_insert_eq. }
  unfold leave_list. rewrite Hs', Hi'. intros E.
  assert (X : inv_x (Some t) s1 /\ current s1 = current s /\ exists it, thr s1 = <[t := with_iter th' it]> (thr s)).
  { destruct (waits th').
    - unfold assign_iter in E. apply bind_Ok in E as ([it s2] & E & E2). unfold del_snd_timeout_waiting in E.
      apply bind_Ok in E as (? & _ & E). apply bind_Ok in E as (? & _ & E). unfold del_timeout_waiting in E.
      apply (Hfin QTmoSnd). unfold assign_iter. apply bind_Ok in E as (? & E1 & E). rewrite E1. cbn [mbind res_bind].
      apply bind_Ok in E as (A0 & E3 & E). rewrite E3. cbn [mbind res_bind]. injection E as <- <-. exact E2.
    - apply (Hfin QSend). unfold del_send in E. unfold assign_iter in *. apply bind_Ok in E as ([it s2] & E & E2).
      apply bind_Ok in E as (? & E1 & E). rewrite E1. cbn [mbind res_bind].
      apply bind_Ok in E as (A0 & E3 & E). rewrite E3. cbn [mbind res_bind]. injection E as <- <-. exact E2. }
  destruct X as (X1 & X2 & it & X3). split_and!; [done | done | exists it]. simpl. by rewrite list_insert_insert_eq.
Qed.

(** The thread changes its list, then takes back a lent priority. *)
Lemma set_state_relist s t th st s' : thr s !! t = Some th -> detaches s t th -> set_state s t st = Ok s' ->
  exists s2 it, inv s2 /\ current s2 = current s /\ _state th <> st /\
    thr s2 = <[t := with_iter (entered (with_state th st)) it]> (thr s) /\ drop_heir s2 t = Ok s'.
Proof.
  intros Ht D. assert (Hl : (t < length (thr s))%nat) by (by eapply lookup_lt_Some).
  unfold set_state. rewrite (get_ok s t th Ht). cbn [mbind res_bind].
  destruct (decide (_state th = st)) as [| Hne]; [by rewrite bool_decide_eq_true_2 | rewrite bool_decide_eq_false_2 by done].
  cbn [negb wassert mbind res_bind]. intros E. apply bind_Ok in E as (s1 & E1 & E).
  destruct (D s1 E1) as (I1 & C1 & it1 & T1).
  assert (Ht1 : thr s1 !! t = Some (with_iter th it1)) by (rewrite T1; by rewrite list_lookup_insert_eq).
  rewrite (get_ok s1 t _ Ht1) in E. cbn [mbind res_bind] in E.
  set (th2 := with_state (with_iter th it1) st) in E. set (s1' := put s1 t th2) in E.
  assert (Ht2 : thr s1' !! t = Some th2).
  { unfold s1'. simpl. rewrite T1, list_insert_insert_eq. by rewrite list_lookup_insert_eq. }
  destruct (enter_ok s1' t th2 (put_detached t s1 th2 I1) Ht2) as (s2 & Ee & I2 & (it2 & T2) & C2 & J2).
  rewrite Ee in E. cbn [mbind res_bind] in E. exists s2, it2. split_and!; [done | by rewrite C2 | done | | done].
  rewrite T2. unfold s1'. simpl. rewrite T1, !list_insert_insert_eq. f_equal. unfold th2. by destruct th, st.
Qed.

(** Without a lent priority the other threads stay as they are. *)
Lemma set_state_others s t th st s' u : inv s -> thr s !! t = Some th -> _prio_heir th = Thrid_nil ->
  set_state s t st = Ok s' -> u <> t -> thr s' !! u = thr s !! u.
Proof.
  intros I Ht Hh E Hu. destruct (set_state_relist s t th st s' Ht (leave_detaches s t th I Ht) E) as (s2 & it & _ & _ & _ & T & Ed).
  assert (Ht2 : thr s2 !! t = Some (with_iter (entered (with_state th st)) it)).
  { rewrite T. rewrite list_lookup_insert_eq; [done |]. by eapply lookup_lt_Some. }
  unfold drop_heir in Ed. rewrite (get_ok _ _ _ Ht2) in Ed. cbn [mbind res_bind] in Ed.
  replace (_prio_heir _) with Thrid_nil in Ed by (rewrite <- Hh; by destruct th, st). injection Ed as <-.
  rewrite T. by rewrite list_lookup_insert_ne.
Qed.

(** Taking back a lent priority changes no state and no list. *)
Definition same_states (s s' : threads) : Prop :=
  current s' = current s /\
  forall u uth, thr s !! u = Some uth -> exists uth', thr s' !! u = Some uth' /\ _state uth' = _state uth.

Lemma same_states_put s t th th' : thr s !! t = Some th -> _state th' = _state th -> same_states s (put s t th').
Proof.
  intros Ht Hs. split; [done |]. intros u uth Hu. simpl. destruct (decide (u = t)) as [-> |].
  - rewrite list_lookup_insert_eq by (by eapply lookup_lt_Some). exists th'. split; [done | congruence].
  - rewrite list_lookup_insert_ne by done. eauto.
Qed.

Lemma drop_heir_inv s t s' : inv s -> drop_heir s t = Ok s' -> inv s' /\ same_states s s'.
Proof.
  intros I E. unfold drop_heir in E. apply bind_Ok in E as (th & Ht & E). apply get_Ok in Ht.
  destruct (negb (thrid_is_nil (_prio_heir th))); [| injection E as <-; split; [done | split; [done | eauto]]].
  apply bind_Ok in E as (o & _ & E). apply bind_Ok in E as (h & _ & E). apply bind_Ok in E as (hth & Hh & E).
  apply get_Ok in Hh. apply bind_Ok in E as (p & _ & E). apply bind_Ok in E as (hth' & Ed & E).
  destruct (inherit_prio_del_shape _ _ _ _ Ed) as (l & ->). cbn zeta in E. apply bind_Ok in E as (th1 & H1 & E). apply get_Ok in H1.
  injection E as <-. split.
  - eapply put_same; [eapply (put_same _ s h hth); [done | done | by destruct hth..] | done | by destruct th1..].
  - destruct (same_states_put s h hth (with_inherited hth l) Hh) as [C1 S1]; [by destruct hth |].
    destruct (same_states_put _ t th1 (with_heir th1 Thrid_nil) H1) as [C2 S2]; [by destruct th1 |].
    split; [done |]. intros u uth Hu. destruct (S1 u uth Hu) as (x & Hx & Ex). destruct (S2 u x Hx) as (y & Hy & Ey). exists y.
    split; [done | congruence].
Qed.

Lemma entered_state th st it : _state (with_iter (entered (with_state th st)) it) = st.
Proof. by destruct th, st. Qed.

(** The state of a thread changes, the states of the others stay. *)
Definition becomes (s : threads) (t : nat) (st : state_t) (s' : threads) : Prop :=
  tinv s' /\ current s' = current s /\
  (forall u uth, u <> t -> thr s !! u = Some uth -> exists uth', thr s' !! u = Some uth' /\ _state uth' = _state uth) /\
  exists th', thr s' !! t = Some th' /\ _state th' = st.

Lemma set_state_becomes s t th st s' : thr s !! t = Some th -> detaches s t th ->
  (t <> 0%nat -> forall th0, thr s !! 0%nat = Some th0 -> _state th0 = Ready) -> (st = Ready \/ t <> 0%nat) ->
  set_state s t st = Ok s' -> becomes s t st s'.
Proof.
  intros Ht D Hi Hc E. assert (Hl : (t < length (thr s))%nat) by (by eapply lookup_lt_Some).
  destruct (set_state_relist s t th st s' Ht D E) as (s2 & it & I2 & C2 & Hne & T2 & Ed).
  destruct (drop_heir_inv s2 t s' I2 Ed) as (I' & C' & S').
  assert (Hoth : forall u uth, u <> t -> thr s !! u = Some uth -> exists uth', thr s' !! u = Some uth' /\ _state uth' = _state uth).
  { intros u uth Hu Hut. apply S'. rewrite T2. by rewrite list_lookup_insert_ne. }
  destruct (S' t (with_iter (entered (with_state th st)) it)) as (th' & Ht' & Es'); [rewrite T2; by rewrite list_lookup_insert_eq |].
  rewrite entered_state in Es'. split_and!; [split; [done |] | by rewrite C' | done | eauto].
  intros th0 H0. destruct (decide (t = 0%nat)) as [-> | Hn].
  - rewrite Ht' in H0. injection H0 as <-. by destruct Hc as [-> |].
  - destruct (lookup_lt_is_Some_2 (thr s) 0) as (x & Hx); [lia |]. destruct (Hoth 0%nat x) as (y & Hy & Ey); [done | done |].
    rewrite H0 in Hy. injection Hy as ->. rewrite Ey. by apply (Hi Hn).
Qed.

Lemma tinv_set_state s t st s' : tinv s -> (st = Ready \/ t <> 0%nat) -> set_state s t st = Ok s' -> becomes s t st s'.
Proof.
  intros J Hc E. destruct (thr s !! t) as [th|] eqn:Ht; [| unfold set_state, get in E; by rewrite Ht in E].
  eapply set_state_becomes; [done | apply leave_detaches; [apply J | done] | intros _; apply J | done | done].
Qed.

Lemma tinv_set_prio s t v s' : tinv s -> set_prio s t v = Ok s' -> tinv s' /\ same_states s s'.
Proof.
  intros J E. destruct (thr s !! t) as [th|] eqn:Ht; [| unfold set_prio, get in E; by rewrite Ht in E].
  destruct (set_prio_ok s t th v (j_inv s J) Ht) as (s1 & E1 & I1 & C1 & _ & it & T). rewrite E in E1. injection E1 as <-.
  assert (S : same_states s s').
  { split; [done |]. intros u uth Hu. rewrite T. destruct (decide (u = t)) as [-> |].
    - rewrite list_lookup_insert_eq by (by eapply lookup_lt_Some). eexists. split; [done |]. rewrite Ht in Hu.
      injection Hu as <-. by destruct th.
    - rewrite list_lookup_insert_ne by done. eauto. }
  split; [split; [done |] | done]. intros th0 H0. destruct (lookup_lt_is_Some_2 (thr s) 0) as (x & Hx).
  { rewrite (i_len _ s (j_inv s J)). lia. }
  destruct (proj2 S 0%nat x Hx) as (y & Hy & Ey). rewrite H0 in Hy. injection Hy as ->. rewrite Ey. by apply (j_idle s J).
Qed.

(** ** Waiting *)

Lemma untimed_ipc x s t th i : inv_x x s -> thr s !! t = Some th -> ~ in_ipc (_state th) -> inv_x x (put s t (with_ipc th i)).
Proof.
  intros I Ht Hs. eapply put_untimed; [done | done | | by destruct th |].
  - destruct th; cbn in *. unfold queue_of, in_ipc in *; cbn in *. destruct _state; try done; destruct Hs; eauto.
  - intros q Hq [-> | ->]; apply Hs; unfold queue_of in Hq; destruct (_state th), (waits th); try discriminate Hq; by (left + right).
Qed.

(** The thread waits: [i] holds the timeout and the partner. *)
Lemma tinv_wait s t th i st s' : tinv s -> thr s !! t = Some th -> t <> 0%nat -> (_state th <> Receive_ipc \/ st = Receive_ipc) ->
  set_state (put s t (with_ipc th i)) t st = Ok s' -> becomes s t st s'.
Proof.
  intros J Ht H0 Hs E. assert (Hl : (t < length (thr s))%nat) by (by eapply lookup_lt_Some).
  assert (Ht' : thr (put s t (with_ipc th i)) !! t = Some (with_ipc th i)) by (simpl; by rewrite list_lookup_insert_eq).
  assert (Hr : _state th <> Receive_ipc).
  { destruct Hs as [Hs | ->]; [done |]. intros Hr. unfold set_state in E. rewrite (get_ok _ t _ Ht') in E. cbn [mbind res_bind] in E.
    rewrite bool_decide_eq_true_2 in E by (by destruct th). discriminate E. }
  assert (D : detaches (put s t (with_ipc th i)) t (with_ipc th i)).
  { destruct (decide (_state th = Send_ipc)) as [Hsi | Hsi]; [apply retimed_detaches; [apply J | done | done] |].
    apply leave_detaches; [| done]. apply untimed_ipc; [apply J | done |]. by intros [? | ?]. }
  eapply set_state_becomes in E as (J' & C & O & X); [| done | done | | by right].
  - split_and!; [done | done | | done]. intros u uth Hu Hut. apply O; [done |]. simpl. by rewrite list_lookup_insert_ne.
  - intros _ th0. simpl. rewrite list_lookup_insert_ne by done. apply J.
Qed.

Lemma tinv_save_rcv s t now tm from s' : tinv s -> t <> 0%nat ->
  save_rcv_phase s t now tm from = Ok s' -> becomes s t Receive_ipc s'.
Proof.
  intros J H0 E. apply bind_Ok in E as (? & _ & E). apply bind_Ok in E as (th & Ht%get_Ok & E). eapply tinv_wait; eauto.
Qed.

Lemma tinv_save_snd s t th now tm to s' : tinv s -> thr s !! t = Some th -> t <> 0%nat -> _state th <> Receive_ipc ->
  save_snd_phase s t now tm to = Ok s' -> becomes s t Send_ipc s'.
Proof.
  intros J Ht H0 Hs E. apply bind_Ok in E as (? & _ & E). rewrite (get_ok s t th Ht) in E. eapply tinv_wait; eauto.
Qed.

(** ** The scheduler *)

Lemma same_states_refl s : same_states s s.
Proof. split; eauto. Qed.

Lemma tinv_same s s' : tinv s -> inv s' -> same_states s s' -> tinv s'.
Proof.
  intros J I [_ S]. split; [done |]. intros th0 H0. destruct (lookup_lt_is_Some_2 (thr s) 0) as (x & Hx).
  { rewrite (i_len _ s (j_inv s J)). lia. }
  destruct (S 0%nat x Hx) as (y & Hy & Ey). rewrite H0 in Hy. injection Hy as ->. rewrite Ey. by apply (j_idle s J).
Qed.

(** The ready bits do not change when a list keeps an item. *)
Lemma bits_kept s q A : bits_ok (ready_bits s) (queues s) -> empty A = false -> empty (queues s q) = false ->
  bits_ok (ready_bits s) (queues (set_queue s q A)).
Proof.
  intros (B1 & B2 & B3) HA Hs. split_and!; [done | done |]. intros p' Hp'. destruct (B3 p' Hp') as (w & Hw & E).
  exists w. split; [done |]. cbn [set_queue queues]. destruct (decide (QReady p' = q)) as [Eq |]; [| done].
  by rewrite E, HA, Eq, Hs.
Qed.

(** A new item for [t] at the end of its ready list, then the old one goes. *)
Lemma requeue_inv s t th p a f fs A : inv s -> thr s !! t = Some th -> queue_of th = Some (QReady p) ->
  (1 < length (busy (queues s (QReady p))))%nat ->
  (a, t) ∈ busy (queues s (QReady p)) -> free (queues s (QReady p)) = f :: fs ->
  forall n th1, erase (MkA (busy (queues s (QReady p)) ++ [(f, t)]) fs) a = Ok (n, A) -> queue_of th1 = queue_of th ->
  inv (put (set_queue s (QReady p) A) t (with_iter th1 (Some (QReady p, f)))).
Proof.
  intros I Ht Hq Hsz Hin Ef n th1 Ee Hq1. set (q := QReady p) in *. set (A1 := MkA _ fs) in Ee.
  assert (Hl : (t < length (thr s))%nat) by (by eapply lookup_lt_Some).
  assert (W1 : wf A1).
  { apply (wf_perm (queues s q)); [| apply I]. rewrite Ef. unfold A1. simpl. rewrite items_app. simpl. solve_Permutation. }
  assert (Hin1 : (a, t) ∈ busy A1) by (unfold A1; simpl; set_solver).
  destruct (erase_at A1 a t W1 Hin1) as (l1 & l2 & n' & A' & Ee' & E1 & E2 & E3 & _ & _). rewrite Ee in Ee'. injection Ee' as <- <-.
  assert (Hfa : f <> a).
  { intros ->. destruct (i_wf _ s I q) as [Hn _]. rewrite Ef in Hn. apply NoDup_app in Hn as (_ & Hn & _).
    apply (Hn a); [| left]. unfold items. apply list_elem_of_fmap. by exists (a, t). }
  destruct l2 as [|x l2' _] using rev_ind.
  { simpl in E1. apply app_inj_tail in E1 as [_ E1]. by injection E1. }
  unfold A1 in E1. cbn [busy] in E1. change (l1 ++ (a, t) :: l2' ++ [x]) with (l1 ++ ((a, t) :: l2') ++ [x]) in E1.
  rewrite app_assoc in E1. apply app_inj_tail in E1 as [E1 <-]. rewrite app_assoc in E2.
  set (A0 := MkA (l1 ++ l2') (a :: f :: fs)).
  assert (Hne : empty (queues s q) = false) by (unfold empty, size; destruct (busy (queues s q)); [simpl in Hsz; lia | done]).
  assert (Hb : bits_ok (ready_bits s) (queues (set_queue s q A))).
  { apply bits_kept; [apply I | | done]. unfold empty, size. rewrite E2, length_app. simpl. apply Nat.eqb_neq. lia. }
  assert (En : l1 ++ l2' <> []).
  { intros En. rewrite E1, length_app in Hsz. simpl in Hsz. apply app_eq_nil in En as [-> ->]. simpl in Hsz. lia. }
  assert (I0 : inv_x (Some t) (put (set_bits (set_queue s q A0) (ready_bits s)) t (with_iter th None))).
  { apply (detach_inv s t th q a A0 (ready_bits s) l1 l2'); try done; [by rewrite Ef | |].
    - apply (wf_perm (queues s q)); [| apply I]. rewrite E1, Ef. unfold A0. simpl. rewrite !items_app. simpl. solve_Permutation.
    - apply bits_kept; [apply I | | done]. unfold A0, empty, size. simpl. by destruct (l1 ++ l2'). }
  pose proof (put_detached t _ th1 I0) as I1. set (s1 := put _ t th1) in I1.
  assert (Eth : thr s1 = <[t := th1]> (thr s)) by (unfold s1; cbn; by rewrite list_insert_insert_eq).
  eapply (inv_ext _ (put (set_bits (set_queue s1 q A) (ready_bits s1)) t (with_iter th1 (Some (q, f))))).
  - cbn [put set_bits set_queue thr]. rewrite Eth. by rewrite !list_insert_insert_eq.
  - done.
  - intros q'. cbn [put set_bits set_queue queues s1]. destruct (decide (q' = q)); [done | done].
  - apply (attach_inv s1 t th1 q f A (ready_bits s1) (l1 ++ l2') []).
    + done.
    + rewrite Eth. by rewrite list_lookup_insert_eq.
    + by rewrite Hq1.
    + unfold s1. cbn [put set_bits set_queue queues]. rewrite decide_True by done. by rewrite app_nil_r.
    + done.
    + unfold s1. cbn [put set_bits set_queue queues]. rewrite decide_True by done. rewrite E3. unfold A0, A1. simpl. solve_Permutation.
    + destruct Hb as (B1 & B2 & B3). split_and!; [done | done |]. intros p' Hp'. destruct (B3 p' Hp') as (w & Hw & E).
      exists w. split; [done |]. rewrite E. unfold s1. cbn [put set_bits set_queue queues]. by destruct (decide _).
    + intros [? | ?]; done.
Qed.

Lemma tinv_expired s t th que it s' : tinv s -> thr s !! t = Some th -> (que = None \/ que = Some (QReady (prio th))) ->
  timeslice_expired s t que = Ok (it, s') -> tinv s' /\ same_states s s'.
Proof.
  intros J Ht Hque E. pose proof (j_inv s J) as I. assert (Hl : (t < length (thr s))%nat) by (by eapply lookup_lt_Some).
  unfold timeslice_expired in E. rewrite (get_ok s t th Ht) in E. cbn [mbind res_bind] in E.
  apply bind_Ok in E as (? & _ & E). apply bind_Ok in E as (? & Hs & E). apply wassert_Ok, bool_decide_eq_true_1 in Hs.
  apply bind_Ok in E as (q & Hq & E). assert (q = QReady (prio th)) as ->.
  { destruct Hque as [-> | ->]; [rewrite ready_threads_ok in Hq |]; congruence. }
  assert (Hfin : forall r th1, _state th1 = _state th -> inv r -> current r = current s -> thr r = <[t := th1]> (thr s) ->
    tinv r /\ same_states s r).
  { intros r th1 H1 I' C T. assert (S : same_states s r).
    { destruct (same_states_put s t th th1 Ht H1) as [_ S]. split; [done |]. intros u uth Hu. rewrite T. by apply S. }
    split; [by eapply tinv_same | done]. }
  destruct (Nat.ltb_spec 1 (size (queues s (QReady (prio th))))) as [Hsz | _].
  - apply bind_Ok in E as (v & Ev & E). apply bind_Ok in E as (A & EA & E). apply bind_Ok in E as (A2 & E2 & E).
    injection E as <- <-. destruct (own_item s t th _ I Ht (proj2 (ready_queue th) Hs)) as (a & l1 & l2 & A' & Ed & _ & _ & Ei & Eb & _).
    assert (Hin : (a, t) ∈ busy (queues s (QReady (prio th)))) by (rewrite Eb; set_solver).
    unfold deref_it in Ev, Ed. cbn [put queues] in Ev. rewrite Ed in Ev. injection Ev as <-.
    cbn [put queues] in EA. assert (Hf : free (queues s (QReady (prio th))) <> []).
    { intros Hf. unfold push_back, take_free in EA. by rewrite Hf in EA. }
    destruct (push_back_ok (queues s (QReady (prio th))) t Hf) as (f & fs & Ef & Ep & El). rewrite Ep in EA. injection EA as <-.
    unfold erase_it in E2. rewrite Ei in E2. cbn [from_opt mbind res_bind] in E2. apply bind_Ok in E2 as ([n A2'] & Ee & E2).
    injection E2 as <-. cbn [put set_queue queues] in Ee. rewrite decide_True in Ee by done. rewrite El.
    apply (Hfin _ (with_iter (timeslice_set th Timeslice_usec) (Some (QReady (prio th), f)))).
    + by destruct th.
    + eapply (inv_ext _ (put (set_queue s (QReady (prio th)) A2') t
        (with_iter (timeslice_set th Timeslice_usec) (Some (QReady (prio th), f))))).
      * simpl. by rewrite list_insert_insert_eq.
      * done.
      * intros q'. simpl. by destruct (decide _).
      * eapply requeue_inv; [done | done | by apply ready_queue | done | done | done | done | by destruct th].
    + done.
    + simpl. by rewrite list_insert_insert_eq.
  - injection E as <- <-. eapply Hfin; [| | done | done]; [by destruct th |]. eapply put_same; [done | done | by destruct th..].
Qed.

Lemma tinv_highest s n s' : tinv s -> get_highest_prio_ready_thread s = Ok (n, s') -> tinv s' /\ same_states s s'.
Proof.
  intros J E. destruct (hi_prio_head s (j_inv s J)) as (o & Eo & Ho). unfold get_highest_prio_ready_thread in E.
  rewrite Eo in E. cbn [mbind res_bind] in E. destruct o as [p|]; [| discriminate E]. cbn [from_opt mbind res_bind] in E.
  destruct Ho as (Hr & a & h & hth & l & Eb & Hh & _ & Hp & _). rewrite Hr in E. cbn [mbind res_bind] in E. apply bind_Ok in E as (? & _ & E).
  apply bind_Ok in E as (t & Et & E). assert (t = h) as ->.
  { unfold deref_it, begin, deref in Et. cbn [from_opt mbind res_bind] in Et. rewrite Eb in Et. cbn [first_it find_it] in Et.
    rewrite Z.eqb_refl in Et. by injection Et. }
  rewrite (get_ok s h hth Hh) in E. cbn [mbind res_bind] in E. destruct (_remaning_timeslice hth =? 0).
  - apply bind_Ok in E as ([it s1] & E1 & E). apply bind_Ok in E as (t2 & _ & E). injection E as <- <-.
    eapply tinv_expired; [done | done | right; by rewrite Hp | done].
  - injection E as <- <-. split; [done | apply same_states_refl].
Qed.

Lemma same_states_trans s1 s2 s3 : same_states s1 s2 -> same_states s2 s3 -> same_states s1 s3.
Proof.
  intros [C1 S1] [C2 S2]. split; [by rewrite C2 |]. intros u uth Hu. destruct (S1 u uth Hu) as (x & Hx & Ex).
  destruct (S2 u x Hx) as (y & Hy & Ey). exists y. split; [done | congruence].
Qed.

Lemma tinv_switch s n now s' : tinv s -> current s <> n -> switch_to s n now = Ok s' ->
  tinv s' /\ current s' = n /\ forall u uth, thr s !! u = Some uth -> exists uth', thr s' !! u = Some uth' /\ _state uth' = _state uth.
Proof.
  intros J Hn E. unfold switch_to in E. destruct (Nat.eqb_spec (current s) n); [done |].
  apply bind_Ok in E as (cth & Hc%get_Ok & E). cbn zeta in E. apply bind_Ok in E as (nth & Hx%get_Ok & E). injection E as <-.
  set (s1 := put s (current s) (timeslice_stop cth now)) in *.
  assert (J1 : tinv s1).
  { apply (tinv_inert s (current s) cth (fun th => timeslice_stop th now)); [done | done |]. intros th. by destruct th. }
  assert (J2 : tinv (put s1 n (timeslice_start nth now))).
  { apply (tinv_inert s1 n nth (fun th => timeslice_start th now)); [done | done |]. intros th. by destruct th. }
  destruct (same_states_put s (current s) cth (timeslice_stop cth now) Hc) as [_ S1]; [by destruct cth |].
  destruct (same_states_put s1 n nth (timeslice_start nth now) Hx) as [_ S2]; [by destruct nth |].
  split_and!; [| done |].
  - split; [| apply J2]. eapply inv_ext; [| | | apply J2]; done.
  - intros u uth Hu. destruct (S1 u uth Hu) as (x & Hx' & Ex). destruct (S2 u x Hx') as (y & Hy & Ey). exists y.
    split; [done | congruence].
Qed.

(** ** Waiting in a receive phase

    No operation makes another thread wait in Receive_ipc. *)

Definition rcv (s : threads) (u : nat) : Prop := exists th, thr s !! u = Some th /\ _state th = Receive_ipc.
Definition calm (s s' : threads) : Prop := current s' = current s /\ forall u, rcv s' u -> rcv s u.

Lemma calm_refl s : calm s s.
Proof. by split. Qed.

Lemma calm_trans s1 s2 s3 : calm s1 s2 -> calm s2 s3 -> calm s1 s3.
Proof. intros [C1 H1] [C2 H2]. split; [congruence | eauto]. Qed.

Lemma states_rcv s s' : length (thr s) = length (thr s') ->
  (forall u uth, thr s !! u = Some uth -> exists uth', thr s' !! u = Some uth' /\ _state uth' = _state uth) ->
  forall u, rcv s' u <-> rcv s u.
Proof.
  intros Hl S u. split; intros (th & Hu & Es).
  - destruct (lookup_lt_is_Some_2 (thr s) u) as (x & Hx); [rewrite Hl; by eapply lookup_lt_Some |].
    destruct (S u x Hx) as (y & Hy & Ey). exists x. split; [done | congruence].
  - destruct (S u th Hu) as (y & Hy & Ey). exists y. split; [done | congruence].
Qed.

Lemma same_calm s s' : tinv s -> tinv s' -> same_states s s' -> calm s s'.
Proof.
  intros J J' [C S]. split; [done |]. intros u. refine (proj1 (states_rcv s s' _ S u)).
  by rewrite (i_len _ s (j_inv s J)), (i_len _ s' (j_inv s' J')).
Qed.

Lemma becomes_rcv s t st s' u : tinv s -> becomes s t st s' -> rcv s' u -> rcv s u \/ (u = t /\ st = Receive_ipc).
Proof.
  intros J (J' & C & O & th' & Ht' & Es) (uth & Hu & Eu). destruct (decide (u = t)) as [-> | Hn].
  - right. split; [done | congruence].
  - left. destruct (lookup_lt_is_Some_2 (thr s) u) as (x & Hx).
    { rewrite (i_len _ s (j_inv s J)), <- (i_len _ s' (j_inv s' J')). by eapply lookup_lt_Some. }
    destruct (O u x Hn Hx) as (y & Hy & Ey). exists x. split; [done | congruence].
Qed.

Lemma becomes_calm s t st s' : tinv s -> st <> Receive_ipc -> becomes s t st s' -> calm s s'.
Proof. intros J Hn B. split; [apply B |]. intros u Hu. by destruct (becomes_rcv _ _ _ _ _ J B Hu) as [? | [_ ?]]. Qed.

Lemma tinv_drop_heir s t s' : tinv s -> drop_heir s t = Ok s' -> tinv s' /\ calm s s'.
Proof.
  intros J E. destruct (drop_heir_inv s t s' (j_inv s J) E) as [I S]. pose proof (tinv_same s s' J I S) as J'.
  split; [done | by apply same_calm].
Qed.

(** ** Expired timeouts *)

Lemma tinv_expire fuel : forall s now q it nxt n s', tinv s -> expire_loop fuel s now q it nxt = Ok (n, s') ->
  tinv s' /\ calm s s'.
Proof.
  induction fuel as [|f IH]; intros s now q it nxt n s' J E; cbn [expire_loop] in E.
  { destruct (it =? 0); [injection E as <- <-; split; [done | apply calm_refl] | discriminate E]. }
  destruct (it =? 0); [injection E as <- <-; split; [done | apply calm_refl] |].
  apply bind_Ok in E as (t & _ & E). apply bind_Ok in E as (th & Ht%get_Ok & E). apply bind_Ok in E as (? & _ & E).
  destruct (now <? timeout (_ipc th)); [injection E as <- <-; split; [done | apply calm_refl] |].
  cbn zeta in E. set (s1 := put s t _) in E. apply bind_Ok in E as (it' & _ & E). apply bind_Ok in E as (s2 & E2 & E).
  apply bind_Ok in E as (s3 & E3 & E).
  assert (J1 : tinv s1 /\ calm s s1).
  { assert (J1 : tinv s1) by (eapply (tinv_inert s t th (fun th => with_utcb th _ _)); [done | done | intros y; by destruct y]).
    split; [done |]. apply same_calm; [done | done |]. eapply same_states_put; [done | by destruct th]. }
  destruct J1 as [J1 C1]. pose proof (tinv_set_state s1 t Ready s2 J1 (or_introl eq_refl) E2) as B.
  pose proof (becomes_calm s1 t Ready s2 J1 ltac:(done) B) as C2. destruct (tinv_drop_heir s2 t s3 (proj1 B) E3) as [J3 C3].
  destruct (IH _ _ _ _ _ _ _ J3 E) as [J' C']. split; [done |]. eauto using calm_trans.
Qed.

Lemma tinv_timeouts s now n s' : tinv s -> check_ipc_timeouts s now = Ok (n, s') -> tinv s' /\ calm s s'.
Proof.
  intros J E. unfold check_ipc_timeouts in E. apply bind_Ok in E as ([n1 s1] & E1 & E). apply bind_Ok in E as ([n2 s2] & E2 & E).
  destruct (tinv_expire _ _ _ _ _ _ _ _ J E1) as [J1 C1]. destruct (tinv_expire _ _ _ _ _ _ _ _ J1 E2) as [J2 C2].
  assert (s' = s2) as ->; [| split; [done | by eapply calm_trans]].
  destruct n1 as [t1|], n2 as [t2|]; try congruence. do 4 apply bind_Ok in E as (? & _ & E). congruence.
Qed.

(** ** Creation and removal *)

Lemma tinv_put_inert s t th th' : tinv s -> thr s !! t = Some th -> (exists f, inert f /\ th' = f th) ->
  tinv (put s t th') /\ calm s (put s t th').
Proof.
  intros J Ht (f & Hf & ->). pose proof (tinv_inert s t th f J Ht Hf) as J'. split; [done |].
  apply same_calm; [done | done |]. eapply same_states_put; [done | apply (Hf th)].
Qed.

Lemma tinv_create s id sched pager task pr t s' : tinv s -> Thread_number_min < thrid_number id ->
  create s id sched pager task pr = Ok (t, s') -> tinv s' /\ calm s s' /\ t <> 0%nat.
Proof.
  intros J Hn E. unfold create in E. cbn zeta in E. apply bind_Ok in E as (? & _ & E).
  set (u := Z.to_nat _) in E. assert (Hu : u <> 0%nat) by (unfold u, Thread_number_min in *; lia).
  apply bind_Ok in E as (th & Ht%get_Ok & E). apply bind_Ok in E as (? & _ & E). apply bind_Ok in E as (s1 & E1 & E).
  apply bind_Ok in E as (s2 & E2 & E). apply bind_Ok in E as (th2 & Ht2%get_Ok & E). apply bind_Ok in E as (? & _ & E).
  injection E as <- <-. destruct (tinv_put_inert s u th (with_ids th task id sched pager) J Ht) as [J0 C0].
  { exists (fun th => with_ids th task id sched pager). split; [intros y; by destruct y | done]. }
  destruct (tinv_set_prio _ _ _ _ J0 E1) as [J1 S1]. pose proof (same_calm _ _ J0 J1 S1) as C1.
  pose proof (tinv_set_state s1 u Inactive s2 J1 (or_intror Hu) E2) as B.
  pose proof (becomes_calm s1 u Inactive s2 J1 ltac:(done) B) as C2.
  destruct (tinv_put_inert s2 u th2 (with_ksp th2 (u32 (_kstack_area th2 + 4096))) (proj1 B) Ht2) as [J3 C3].
  { exists (fun th => with_ksp th (u32 (_kstack_area th2 + 4096))). split; [intros y; by destruct y | done]. }
  split_and!; [done | eauto using calm_trans | done].
Qed.

Lemma tinv_remove s id s' : tinv s -> Thread_number_min < thrid_number id -> remove s id = Ok s' -> tinv s' /\ calm s s'.
Proof.
  intros J Hn E. unfold remove in E. cbn zeta in E. apply bind_Ok in E as (? & _ & E).
  assert (B : becomes s (Z.to_nat (thrid_number id - Thread_number_min)) Idle s').
  { apply (tinv_set_state s); [done | right; unfold Thread_number_min in *; lia | done]. }
  split; [apply B | eapply becomes_calm, B; done].
Qed.
