(* ===== verification/KernelSafe.v ===== *)
(** Proof rules for the runs of kernel handlers, and every handler of [Ipc],
    [Syscalls] and [Entry] shown to keep the invariant of [KernelInv].

    [safe t s0 Q p]: the run [p] of the thread [t], begun in [s0], leaves the
    threads consistent at every switch, makes no other thread wait in
    Receive_ipc, and establishes [Q] when it returns; at a switch it may be
    resumed in any consistent state in which [t] is current and waits in
    Receive_ipc only if it did so at the switch.  A handler [keeps] when it
    does not make its own thread wait either. *)

From Stdlib Require Import ZArith Lia Bool.
From stdpp Require Import base gmap list numbers.
From S2P Require Import Prelude SysUtils Bitmap ListSpec L4Types AddressSpace Kmem CString Threads Sched Mmu Ptable PtableSpec Aspace Task Kernel Ipc Syscalls Entry KernelInv.

Open Scope kernel_scope.

(** No exception is forced on the idle thread. *)
Definition idle_calm (s : kernel) : Prop :=
  forall x, xthr s !! 0%nat = Some x -> Z.land (_flags x) L4_flags_frcexc = 0.

(** The arrays of the UTCBs and the entry frames have their sizes (L4_utcb_t,
    Entry_frame_t); mr[0] is kept with the thread. *)
Definition xtyped (x : xthread) : Prop :=
  Z.of_nat (length (x_mr x)) = Mr_words - 1 /\ length (x_br x) = 33%nat /\ Z.of_nat (length (x_frame x)) = Frame_words.
Definition typed (s : kernel) : Prop := length (xthr s) = 128%nat /\ Forall xtyped (xthr s).

Section Safe.
Context (t : nat).

Definition quiet (s s' : kernel) : Prop := forall u, u <> t -> rcv (ths s') u -> rcv (ths s) u.

(** What the thread relies on when it runs. *)
Definition xbase (s : kernel) : Prop := typed s /\ (t = 0%nat -> idle_calm s).
Definition base (s : kernel) : Prop := tinv (ths s) /\ current (ths s) = t /\ xbase s.

Fixpoint safe {A} (s0 : kernel) (Q : A -> kernel -> Prop) (p : proc A) : Prop :=
  match p with
  | Ret a s => quiet s0 s /\ Q a s
  | Halt _ => True
  | Yield s k => tinv (ths s) /\ typed s /\ quiet s0 s /\
      forall s', base s' -> (rcv (ths s') t -> rcv (ths s) t) -> safe s' Q (k s')
  end.

Definition hoare {A} (P : kernel -> Prop) (m : K A) (Q : A -> kernel -> Prop) : Prop :=
  forall s, base s -> P s -> safe s (fun a s' => base s' /\ Q a s') (m s).

Definition keeps {A} (m : K A) (Phi : A -> Prop) : Prop :=
  forall s, base s -> safe s (fun a s' => base s' /\ (rcv (ths s') t -> rcv (ths s) t) /\ Phi a) (m s).

Lemma safe_quiet {A} s0 s1 (Q : A -> kernel -> Prop) p : quiet s0 s1 -> safe s1 Q p -> safe s0 Q p.
Proof.
  intros H. destruct p as [a s | e | s k]; simpl; [| done |].
  - intros [H1 H2]. split; [intros u Hu Hr; apply H, H1; done | done].
  - intros (H1 & H1' & H2 & H3). split_and!; [done | done | intros u Hu Hr; apply H, H2; done | done].
Qed.

Lemma safe_bind {A B} (p : proc A) : forall s0 (Q : A -> kernel -> Prop) (R : B -> kernel -> Prop) f, safe s0 Q p ->
  (forall a s, Q a s -> safe s R (f a s)) -> safe s0 R (pbind p f).
Proof.
  induction p as [a s | e | s k IH]; intros s0 Q R f H Hf; cbn [pbind].
  - destruct H as [H1 H2]. eapply safe_quiet; [done | by apply Hf].
  - done.
  - destruct H as (H1 & H1' & H2 & H3). split_and!; [done | done | done |]. intros s' Hb Hr. eapply IH; [by apply H3 | done].
Qed.

Lemma safe_mono {A} (p : proc A) : forall s0 (Q R : A -> kernel -> Prop), (forall a s, Q a s -> R a s) -> safe s0 Q p -> safe s0 R p.
Proof.
  induction p as [a s | e | s k IH]; intros s0 Q R HQ; cbn [safe]; [| done |].
  - intros [H1 H2]. auto.
  - intros (H1 & H1' & H2 & H3). split_and!; [done | done | done |]. intros s' Hb Hr. eapply IH; [done | by apply H3].
Qed.

(** ** Rules *)

Lemma hoare_bind {A B} P Q R (m : K A) (f : A -> K B) : hoare P m Q -> (forall a, hoare (Q a) (f a) R) -> hoare P (bind m f) R.
Proof. intros Hm Hf s Hb HP. eapply safe_bind; [by apply Hm |]. intros a s1 [Hb1 HQ]. by apply Hf. Qed.

Lemma hoare_conseq {A} (P P' : kernel -> Prop) (Q Q' : A -> kernel -> Prop) (m : K A) : hoare P m Q -> (forall s, P' s -> P s) ->
  (forall a s, Q a s -> Q' a s) -> hoare P' m Q'.
Proof. intros H HP HQ s Hb H'. eapply safe_mono; [| apply H; auto]. intros a s' [? ?]. auto. Qed.

Lemma keeps_bind {A B} (m : K A) (f : A -> K B) (Phi : A -> Prop) (Psi : B -> Prop) :
  keeps m Phi -> (forall a, Phi a -> keeps (f a) Psi) -> keeps (bind m f) Psi.
Proof.
  intros Hm Hf s Hb. eapply safe_bind; [by apply Hm |]. intros a s1 (Hb1 & Hr & Ha). eapply safe_mono; [| by apply Hf].
  intros b s2 (H1 & H2 & H3). auto.
Qed.

Lemma keeps_weaken {A} (m : K A) (Phi Psi : A -> Prop) : keeps m Phi -> (forall a, Phi a -> Psi a) -> keeps m Psi.
Proof. intros H HP s Hb. eapply safe_mono; [| by apply H]. intros a s' (H1 & H2 & H3). auto. Qed.

Lemma keeps_true {A} (m : K A) (Phi : A -> Prop) : keeps m Phi -> keeps m (fun _ => True).
Proof. intros H. by eapply keeps_weaken. Qed.

Lemma keeps_ret {A} (a : A) (Phi : A -> Prop) : Phi a -> keeps (ret a) Phi.
Proof. intros H s Hb. split; [by intros u |]. auto. Qed.

Lemma keeps_halt {A} e (Phi : A -> Prop) : keeps (halt e) Phi.
Proof. by intros s _. Qed.

Lemma keeps_when b m : keeps m (fun _ => True) -> keeps (when b m) (fun _ => True).
Proof. intros H. destruct b; [done | by apply keeps_ret]. Qed.

Lemma keeps_assert b (Phi : unit -> Prop) : (b = true -> Phi tt) -> keeps (assert_ b) Phi.
Proof. intros H. destruct b; [by apply keeps_ret, H | apply keeps_halt]. Qed.

Lemma keeps_run {A} f (Phi : A -> Prop) :
  (forall s a s', base s -> f s = Ok (a, s') -> tinv (ths s') /\ calm (ths s) (ths s') /\ xbase s' /\ Phi a) ->
  keeps (run f) Phi.
Proof.
  intros H s Hb. unfold run. destruct (f s) as [[a s'] | e] eqn:E; [| done].
  destruct (H s a s' Hb E) as (J & [C R] & Hc & Ha). split; [intros u _; apply R |].
  split_and!; [split_and!; [done | by rewrite C; apply Hb | done] | apply R | done].
Qed.

(** What does not touch the threads. *)
Lemma keeps_run_other {A} f (Phi : A -> Prop) :
  (forall s a s', base s -> f s = Ok (a, s') -> ths s' = ths s /\ xbase s' /\ Phi a) -> keeps (run f) Phi.
Proof.
  intros H. apply keeps_run. intros s a s' Hb E. destruct (H s a s' Hb E) as (-> & Hc & Ha).
  split_and!; [apply Hb | apply calm_refl | done | done].
Qed.

Lemma keeps_asks {A} f (Phi : A -> Prop) : (forall s a, base s -> f s = Ok a -> Phi a) -> keeps (asks f) Phi.
Proof.
  intros H. apply keeps_run_other. intros s a s' Hb E. apply bind_Ok in E as (x & E1 & E). injection E as <- <-.
  split_and!; [done | apply Hb | eauto].
Qed.

Lemma keeps_asks_true {A} (f : kernel -> res A) : keeps (asks f) (fun _ => True).
Proof. by apply keeps_asks. Qed.

Lemma keeps_run_ths f : (forall s s', tinv s -> f s = Ok s' -> tinv s' /\ calm s s') -> keeps (run_ths f) (fun _ => True).
Proof.
  intros H. apply keeps_run. intros s a s' Hb E. apply bind_Ok in E as (x & E1 & E). injection E as <- <-.
  destruct (H (ths s) x (proj1 Hb) E1) as [J C]. split_and!; [done | done | apply Hb | done].
Qed.

Lemma keeps_modify f : (forall s, ths (f s) = ths s) -> (forall s, xthr (f s) = xthr s) -> keeps (modify f) (fun _ => True).
Proof.
  intros H1 H2 s Hb. assert (base (f s)).
  { destruct Hb as (B1 & B2 & B3). unfold base, xbase, typed, idle_calm. by rewrite H1, H2. } split; [intros u _; by rewrite H1 |]. split_and!; [done | by rewrite H1 | done].
Qed.

(** ** Threads *)

Lemma keeps_thr_get u : keeps (thr_get u) (fun th => u = 0%nat -> _state th = Ready).
Proof. apply keeps_asks. intros s th Hb E. apply get_Ok in E. intros ->. eapply j_idle; [apply Hb | done]. Qed.

Lemma keeps_get_state u : keeps (get_state u) (fun st => u = 0%nat -> st = Ready).
Proof. eapply keeps_bind; [apply keeps_thr_get |]. intros th H. by apply keeps_ret. Qed.

Lemma keeps_cur_thr : keeps cur_thr (fun c => c = t).
Proof. apply keeps_asks. intros s c Hb E. injection E as <-. apply Hb. Qed.

Lemma keeps_thr_mod u f : inert f -> keeps (thr_mod u f) (fun _ => True).
Proof.
  intros Hf. apply keeps_run_ths. intros s s' J E. apply bind_Ok in E as (th & Ht%get_Ok & E). injection E as <-.
  eapply tinv_put_inert; [done | done |]. by exists f.
Qed.

Lemma keeps_state u st : st <> Receive_ipc -> (st = Ready \/ u <> 0%nat) -> keeps (state u st) (fun _ => True).
Proof.
  intros Hst Hu. apply keeps_run_ths. intros s s' J E. pose proof (tinv_set_state s u st s' J Hu E) as B.
  split; [apply B | by eapply becomes_calm].
Qed.

(** A change of one element of xthr. *)
Lemma xbase_insert s u x y : xbase s -> xthr s !! u = Some x -> (xtyped x -> xtyped y) ->
  (_flags y = _flags x \/ t <> 0%nat) -> xbase (set_xthr s (<[u := y]> (xthr s))).
Proof.
  intros [[Hl Hf] Hc] Hu Ht Hfl. split; [split|]; cbn [set_xthr xthr].
  - by rewrite length_insert.
  - apply Forall_insert; [done |]. apply Ht. by eapply Forall_lookup_1.
  - intros H0 z. cbn [set_xthr xthr]. destruct (decide (u = 0%nat)) as [-> | Hn].
    + rewrite list_lookup_insert_eq by (by eapply lookup_lt_Some). intros [= <-].
      destruct Hfl as [-> |]; [by apply (Hc H0) | done].
    + rewrite list_lookup_insert_ne by done. by apply (Hc H0).
Qed.

Lemma keeps_x_mod u f : (forall x, xtyped x -> xtyped (f x)) -> (forall x, _flags (f x) = _flags x) \/ t <> 0%nat ->
  keeps (x_mod u f) (fun _ => True).
Proof.
  intros Ht Hf. apply keeps_run_other. intros s a s' Hb E. apply bind_Ok in E as (x & Ex & E). injection E as <- <-.
  split_and!; [done | | done]. destruct (xthr s !! u) as [x0|] eqn:E0; [| discriminate Ex]. injection Ex as ->.
  eapply xbase_insert; [apply Hb | done | apply Ht |]. by destruct Hf; [left | right].
Qed.

(** ** Switches *)

Lemma keeps_switch_thr n : keeps (switch_thr n) (fun _ => True).
Proof.
  intros s Hb. unfold switch_thr. destruct (Nat.eqb_spec (current (ths s)) n) as [|Hn]; [by apply (keeps_ret tt) |].
  destruct (switch_to (ths s) n (now s)) as [s1|e] eqn:E; [| done].
  destruct (tinv_switch (ths s) n (now s) s1 (proj1 Hb) Hn E) as (J1 & C1 & S1).
  assert (HR : forall u, rcv s1 u <-> rcv (ths s) u).
  { apply states_rcv; [| done]. destruct Hb as ([I _] & _). by rewrite (i_len _ _ I), (i_len _ _ (j_inv _ J1)). }
  cbn [safe]. split_and!; [done | apply Hb | intros u _; apply HR |]. intros s' Hb' Hr'. split; [by intros u |].
  split_and!; [done | | done]. intros H. by apply HR, Hr'.
Qed.

Lemma keeps_switch_next : keeps switch_next (fun _ => True).
Proof.
  intros s Hb. unfold switch_next. destruct (get_highest_prio_ready_thread (ths s)) as [[n s1]|e] eqn:E; [| done].
  destruct (tinv_highest (ths s) n s1 (proj1 Hb) E) as [J1 S1]. pose proof (same_calm _ _ (proj1 Hb) J1 S1) as [C R].
  apply (safe_quiet s (set_ths s s1)); [intros u _; apply R |]. eapply safe_mono; [| apply (keeps_switch_thr n)].
  - intros a s' (H1 & H2 & H3). split_and!; [done | auto | done].
  - destruct Hb as (B1 & B2 & B3). split_and!; [done | by rewrite <- B2 | done].
Qed.

(** ** Waiting *)

Definition nr (s : kernel) : Prop := ~ rcv (ths s) t.

Lemma keeps_nr {A} (m : K A) Phi : keeps m Phi -> hoare nr m (fun a s => nr s /\ Phi a).
Proof.
  intros H s Hb Hn. eapply safe_mono; [| by apply H]. intros a s' (H1 & H2 & H3). split; [done |]. split; [| done].
  intros Hr. by apply Hn, H2.
Qed.

Lemma keeps_hoare {A} (m : K A) Phi : keeps m Phi -> hoare (fun _ => True) m (fun a _ => Phi a).
Proof. intros H s Hb _. eapply safe_mono; [| by apply H]. intros a s' (H1 & H2 & H3). auto. Qed.

Lemma hoare_save f : (forall s s', tinv (ths s) -> nr s -> f (ths s) = Ok s' -> exists st, becomes (ths s) t st s') ->
  hoare nr (run_ths f) (fun _ _ => True).
Proof.
  intros H s Hb Hn. unfold run_ths, run. destruct (f (ths s)) as [s'|e] eqn:E; [| done]. cbn [mbind res_bind].
  destruct (H s s' (proj1 Hb) Hn E) as (st & B). split.
  - intros u Hu Hr. destruct (becomes_rcv _ _ _ _ _ (proj1 Hb) B Hr) as [? | [? _]]; done.
  - destruct Hb as (B1 & B2 & B3). destruct B as (B & C & _). split_and!; [split_and!; [done | by rewrite <- B2 | done] | done].
Qed.

Lemma hoare_save_rcv tm from : t <> 0%nat -> hoare (fun _ => True) (k_save_rcv_phase t tm from) (fun _ _ => True).
Proof.
  intros H0. eapply hoare_bind; [apply keeps_hoare, keeps_asks_true |]. intros c s Hb _. unfold run_ths, run.
  destruct (save_rcv_phase (ths s) t c tm from) as [s'|e] eqn:E; [| done]. cbn [mbind res_bind].
  pose proof (tinv_save_rcv _ _ _ _ _ _ (proj1 Hb) H0 E) as B. split.
  - intros u Hu Hr. destruct (becomes_rcv _ _ _ _ _ (proj1 Hb) B Hr) as [? | [? _]]; done.
  - destruct Hb as (B1 & B2 & B3). destruct B as (B & C & _). split_and!; [split_and!; [done | by rewrite <- B2 | done] | done].
Qed.

Lemma hoare_save_snd tm to : t <> 0%nat -> hoare nr (k_save_snd_phase t tm to) (fun _ _ => True).
Proof.
  intros H0. eapply hoare_bind; [apply keeps_nr, keeps_asks_true |]. intros c.
  eapply hoare_conseq; [| by intros s [? _] | done]. apply hoare_save. intros s s' J Hn E. exists Send_ipc.
  pose proof E as E'. apply bind_Ok in E' as (? & _ & E'). apply bind_Ok in E' as (th & Ht%get_Ok & _).
  eapply tinv_save_snd; [done | done | done | | done]. intros Hs. apply Hn. by exists th.
Qed.
End Safe.

(** ** Automation *)

Create HintDb keeps discriminated.
#[export] Hint Constants Opaque : keeps.

Ltac keep_leaf := solve [eauto with keeps].
Ltac keep_step :=
  lazymatch goal with
  | |- keeps _ (bind (thr_get _) _) _ => eapply keeps_bind; [apply keeps_thr_get | intros ? ?]
  | |- keeps _ (bind (get_state _) _) _ => eapply keeps_bind; [apply keeps_get_state | intros ? ?]
  | |- keeps _ (bind cur_thr _) _ => eapply keeps_bind; [apply keeps_cur_thr | intros ? ->]
  | |- keeps ?t (bind ?m ?f) _ => apply (keeps_bind t m f (fun _ => True)); [| intros ? _]
  | |- keeps _ (ret _) _ => apply keeps_ret; try done
  | |- keeps _ (halt _) _ => apply keeps_halt
  | |- keeps _ panic _ => apply keeps_halt
  | |- keeps _ (when _ _) _ => apply keeps_when
  | |- keeps _ (assert_ _) _ => apply keeps_assert; try done
  | |- keeps _ (asks _) _ => apply keeps_asks_true
  | |- keeps _ (let '(_, _) := ?x in _) _ => destruct x
  | |- keeps _ (let _ := _ in _) _ => cbv zeta
  | |- keeps _ (if ?b then _ else _) _ => destruct b eqn:?
  | |- keeps _ (match ?x with _ => _ end) _ => destruct x eqn:?
  | |- _ => keep_leaf
  end.
Ltac keep := cbv zeta; repeat keep_step.
(** As far as a goal on which [stop] succeeds. *)
Ltac keep_to stop := cbv zeta; repeat (tryif stop then fail else keep_step).

Ltac inert_tac := let y := fresh in intros y; by destruct y.

#[export] Hint Resolve keeps_switch_thr keeps_switch_next : keeps.
#[export] Hint Extern 1 (keeps _ (state _ _) _) => apply keeps_state; [done | by (left + right; eauto)] : keeps.
#[export] Hint Extern 1 (keeps _ (thr_mod _ _) _) => apply keeps_thr_mod; inert_tac : keeps.
Ltac typed_tac := by (let y := fresh in intros y; unfold xtyped; destruct y; cbn; rewrite ?length_insert;
  try match goal with H : (fun l => length l = _) ?l |- _ => rewrite (H : length l = _) end; intuition).
#[export] Hint Extern 1 (keeps _ (x_mod _ _) _) => apply keeps_x_mod; [typed_tac | (left; inert_tac) || (right; assumption)] : keeps.
#[export] Hint Extern 1 (keeps _ (ask_ths _) _) => apply keeps_asks_true : keeps.
#[export] Hint Extern 1 (keeps _ (x_get _) _) => apply keeps_asks_true : keeps.
#[export] Hint Extern 1 (keeps _ (get_br _ _) _) => apply keeps_asks_true : keeps.
#[export] Hint Extern 1 (keeps _ (get_reg _ _) _) => apply keeps_asks_true : keeps.
#[export] Hint Extern 1 (keeps _ (get_i _ _) _) => apply keeps_asks_true : keeps.
#[export] Hint Extern 1 (keeps _ (get_g _ _) _) => apply keeps_asks_true : keeps.
#[export] Hint Extern 1 (keeps _ (scall_number _) _) => apply keeps_asks_true : keeps.
#[export] Hint Extern 1 (keeps _ (find_thr _) _) => apply keeps_asks_true : keeps.
#[export] Hint Extern 1 (keeps _ (get_prio_max _) _) => apply keeps_asks_true : keeps.
#[export] Hint Extern 1 (keeps _ (task_get _) _) => apply keeps_asks_true : keeps.
#[export] Hint Extern 1 (keeps _ (ask_task _ _) _) => apply keeps_asks_true : keeps.
#[export] Hint Extern 1 (keeps _ (t_walk _ _ _) _) => apply keeps_asks_true : keeps.
#[export] Hint Extern 1 (keeps _ (t_cached _ _) _) => apply keeps_asks_true : keeps.
#[export] Hint Extern 1 (keeps _ (t_is_inside_acc _ _) _) => apply keeps_asks_true : keeps.
#[export] Hint Extern 1 (keeps _ (t_attributes _ _) _) => apply keeps_asks_true : keeps.
#[export] Hint Extern 1 (keeps _ (t_set_ioperm _ _ _ _) _) => apply keeps_asks_true : keeps.
#[export] Hint Extern 1 (keeps _ (t_is_ioperm _ _ _ _) _) => apply keeps_asks_true : keeps.
#[export] Hint Extern 1 (keeps _ (int_thr _) _) => apply keeps_asks_true : keeps.
#[export] Hint Extern 1 (keeps _ (intc_is_pending _) _) => apply keeps_asks_true : keeps.
#[export] Hint Extern 1 (keeps _ clock _) => apply keeps_asks_true : keeps.

Section Methods.
Context {CF : Config} (t : nat).
Implicit Types u : nat.

Lemma keeps_thr_task u : keeps t (thr_task u) (fun _ => True).
Proof. unfold thr_task. keep. Qed.

Lemma keeps_get_mr u i : keeps t (get_mr u i) (fun _ => True).
Proof. unfold get_mr. keep. Qed.

Lemma keeps_set_mr u i v : keeps t (set_mr u i v) (fun _ => True).
Proof.
  unfold set_mr. keep. apply keeps_run_other. intros s a s' Hb E. apply bind_Ok in E as (x & Ex & E).
  apply bind_Ok in E as (? & _ & E). injection E as <- <-. split_and!; [done | | done].
  destruct (xthr s !! u) as [x1|] eqn:E0; [| discriminate Ex]. injection Ex as ->.
  eapply xbase_insert; [apply Hb | done | | by left]. unfold xtyped. cbn [with_mr x_mr x_br x_frame]. by rewrite length_insert.
Qed.

Lemma keeps_set_error u e : keeps t (set_error u e) (fun _ => True).
Proof. unfold set_error. keep. Qed.

Lemma keeps_set_reg u i v : keeps t (set_reg u i v) (fun _ => True).
Proof. unfold set_reg. keep. Qed.

Lemma keeps_run_task p f : keeps t (run_task p f) (fun _ => True).
Proof.
  apply keeps_run_other. intros s a s' Hb E. apply bind_Ok in E as (x & _ & E). apply bind_Ok in E as (r & _ & E).
  injection E as <- <-. split_and!; [done | apply Hb | done].
Qed.

Lemma keeps_run_mem f : keeps t (run_mem f) (fun _ => True).
Proof.
  apply keeps_run_other. intros s a s' Hb E. apply bind_Ok in E as (x & _ & E). injection E as <- <-.
  split_and!; [done | apply Hb | done].
Qed.

Lemma keeps_int_mod irq f : keeps t (int_mod irq f) (fun _ => True).
Proof.
  apply keeps_run_other. intros s a s' Hb E. apply bind_Ok in E as (x & _ & E). injection E as <- <-.
  split_and!; [done | apply Hb | done].
Qed.

Lemma keeps_intc_do o : keeps t (intc_do o) (fun _ => True).
Proof. by apply keeps_modify. Qed.
End Methods.

#[export] Hint Resolve keeps_thr_task keeps_get_mr keeps_set_mr keeps_set_error keeps_set_reg keeps_run_task
  keeps_run_mem keeps_int_mod keeps_intc_do : keeps.
#[export] Hint Extern 1 (keeps _ (t_map _ _ _ _ _ _) _) => apply keeps_run_task : keeps.
#[export] Hint Extern 1 (keeps _ (t_unmap _ _ _) _) => apply keeps_run_task : keeps.
#[export] Hint Extern 1 (keeps _ (set_i _ _ _) _) => apply keeps_set_reg : keeps.
#[export] Hint Extern 1 (keeps _ (set_g _ _ _) _) => apply keeps_set_reg : keeps.
#[export] Hint Extern 1 (keeps _ (scall_ipc_from _ _) _) => apply keeps_set_reg : keeps.
#[export] Hint Extern 1 (keeps _ (int_pending _ _) _) => apply keeps_int_mod : keeps.

Section Methods2.
Context {CF : Config} (t : nat).

Lemma keeps_exit_pc u e : keeps t (exit_pc u e) (fun _ => True).
Proof. unfold exit_pc. keep. Qed.
Lemma keeps_exit_pc2 u e : keeps t (exit_pc2 u e) (fun _ => True).
Proof. unfold exit_pc2. keep. Qed.
Lemma keeps_set_exit_pc u e v1 v2 : keeps t (set_exit_pc u e v1 v2) (fun _ => True).
Proof. unfold set_exit_pc. keep. Qed.
Lemma keeps_enable_fpu u : keeps t (enable_fpu u) (fun _ => True).
Proof. unfold enable_fpu. keep. Qed.
Lemma keeps_disable_fpu u : keeps t (disable_fpu u) (fun _ => True).
Proof. unfold disable_fpu. keep. Qed.
Lemma keeps_int_handler irq h : keeps t (int_handler irq h) (fun _ => True).
Proof. unfold int_handler. keep. Qed.
Lemma keeps_find_int_sender u f : keeps t (find_int_sender u f) (fun _ => True).
Proof. unfold find_int_sender. keep. Qed.
Lemma keeps_pf_save u a b c : keeps t (pf_save u a b c) (fun _ => True).
Proof. unfold pf_save. keep. Qed.
Lemma keeps_exc_save u a b : keeps t (exc_save u a b) (fun _ => True).
Proof. unfold exc_save. keep. Qed.
Lemma keeps_set_ipc_to u v : keeps t (set_ipc_to u v) (fun _ => True).
Proof. unfold set_ipc_to. keep. Qed.
Lemma keeps_set_ipc_from u v : keeps t (set_ipc_from_spec u v) (fun _ => True).
Proof. unfold set_ipc_from_spec. keep. Qed.

End Methods2.
#[export] Hint Resolve keeps_exit_pc keeps_exit_pc2 keeps_set_exit_pc keeps_enable_fpu keeps_disable_fpu keeps_int_handler
  keeps_find_int_sender keeps_pf_save keeps_exc_save keeps_set_ipc_to keeps_set_ipc_from : keeps.

(** ** Methods of Thread_t and messages *)

Section Messages.
Context {CF : Config} (t : nat).

Lemma keeps_flags u f : t <> 0%nat -> keeps t (flags u f) (fun _ => True).
Proof. intros H0. unfold flags. keep. Qed.

(** Steps that change the kernel space or the tasks. *)
Lemma keeps_run_space {A} (f : kernel -> res (A * kernel)) :
  (forall s a s', f s = Ok (a, s') -> ths s' = ths s /\ xthr s' = xthr s) -> keeps t (run f) (fun _ => True).
Proof.
  intros H. apply keeps_run_other. intros s a s' Hb E. destruct (H s a s' E) as [H1 H2]. split_and!; [done | | done].
  destruct Hb as (_ & _ & Hx). unfold xbase, typed, idle_calm. by rewrite H2.
Qed.

Lemma keeps_utcb_location u pa : keeps t (utcb_location u pa) (fun _ => True).
Proof.
  unfold utcb_location. keep. apply keeps_run_space. intros s b s' E. apply bind_Ok in E as (r & _ & E). by injection E as <- <-.
Qed.

Lemma keeps_free_utcb u : keeps t (free_utcb_kspace u) (fun _ => True).
Proof.
  unfold free_utcb_kspace. keep. apply keeps_run_space. intros s a' s' E. apply bind_Ok in E as (r & _ & E). by injection E as <- <-.
Qed.

Lemma keeps_activate u : u <> 0%nat -> keeps t (activate u) (fun _ => True).
Proof.
  intros Hu. unfold activate. keep. apply keeps_run_space. intros s x s' E. apply bind_Ok in E as (r & _ & E).
  apply bind_Ok in E as (r' & _ & E). by injection E as <- <-.
Qed.

Lemma keeps_set_initial u e sp : keeps t (set_initial_stack_frame u e sp) (fun _ => True).
Proof. unfold set_initial_stack_frame. keep. Qed.
#[local] Hint Resolve keeps_set_initial : keeps.

Lemma keeps_start u e sp : keeps t (start u e sp) (fun _ => True).
Proof. unfold start. keep. Qed.

Lemma keeps_copy_thread_buf a b l u v : keeps t (copy_thread_buf a b l u v) (fun _ => True).
Proof. unfold copy_thread_buf. keep. Qed.
#[local] Hint Resolve keeps_copy_thread_buf : keeps.

Lemma keeps_do_pfault u v a b c : keeps t (do_pfault_ipc u v a b c) (fun _ => True).
Proof. unfold do_pfault_ipc. keep. Qed.

Lemma keeps_copy_to_mr u l : forall i, keeps t (copy_to_mr u i l) (fun _ => True).
Proof. induction l as [|w l IH]; intros i; cbn [copy_to_mr]; keep. Qed.

Lemma keeps_copy_from_mr u n : forall i, keeps t (copy_from_mr u i n) (fun l => length l = n).
Proof.
  induction n as [|n IH]; intros i; cbn [copy_from_mr]; [by apply keeps_ret |]. keep_step; [keep |].
  eapply keeps_bind; [apply IH |]. intros l Hl. apply keeps_ret. simpl. by rewrite Hl.
Qed.
#[local] Hint Resolve keeps_do_pfault keeps_copy_to_mr : keeps.

Lemma keeps_do_exc u v a b : keeps t (do_exc_ipc u v a b) (fun _ => True).
Proof. unfold do_exc_ipc. keep. Qed.
#[local] Hint Resolve keeps_do_exc : keeps.

Lemma keeps_process_pfault u a b c : u <> 0%nat -> keeps t (process_pfault u a b c) (fun _ => True).
Proof. intros Hu. unfold process_pfault. keep. Qed.

Lemma keeps_find_exc_handler u : keeps t (find_exc_handler u) (fun _ => True).
Proof. unfold find_exc_handler. keep. Qed.
#[local] Hint Resolve keeps_process_pfault keeps_find_exc_handler : keeps.

Lemma keeps_process_exception u a b : u <> 0%nat -> keeps t (process_exception u a b) (fun _ => True).
Proof. intros Hu. unfold process_exception. keep. Qed.
#[local] Hint Resolve keeps_process_exception : keeps.

Lemma keeps_rcv_window a f w : keeps t (rcv_window a f w) (fun _ => True).
Proof. unfold rcv_window. keep. Qed.

Lemma keeps_snd_cached u f : u <> 0%nat -> keeps t (snd_cached u f) (fun _ => True).
Proof. intros Hu. unfold snd_cached. keep. Qed.
#[local] Hint Resolve keeps_rcv_window keeps_snd_cached : keeps.

Lemma keeps_map_item u v i : u <> 0%nat -> keeps t (map_item u v i) (fun _ => True).
Proof. intros Hu. unfold map_item, io_item, mem_item. keep. Qed.

Lemma keeps_string_item u v a b c d e : keeps t (string_item u v a b c d e) (fun _ => True).
Proof. unfold string_item. keep. Qed.
#[local] Hint Resolve keeps_map_item keeps_string_item : keeps.

Lemma keeps_typed_items u v fuel : u <> 0%nat -> forall tag i l nb c, keeps t (typed_items fuel u v tag i l nb c) (fun _ => True).
Proof. intros Hu. induction fuel as [|f IH]; intros tag i l nb c; cbn [typed_items]; keep; apply IH. Qed.

Lemma keeps_copy_untyped u v n : forall i, keeps t (copy_untyped u v i n) (fun _ => True).
Proof. induction n as [|n IH]; intros i; cbn [copy_untyped]; keep. Qed.
#[local] Hint Resolve keeps_typed_items keeps_copy_untyped : keeps.

Lemma keeps_do_normal u v a b : u <> 0%nat -> keeps t (do_normal_ipc u v a b) (fun _ => True).
Proof. intros Hu. unfold do_normal_ipc. keep. Qed.

Lemma keeps_ipc_fail u a b c : keeps t (ipc_fail u a b c) (fun _ => True).
Proof. unfold ipc_fail. keep. Qed.
#[local] Hint Resolve keeps_do_normal keeps_ipc_fail : keeps.

Lemma keeps_ipc_unmask u a b : keeps t (ipc_unmask u a b) (fun _ => True).
Proof. unfold ipc_unmask. keep. Qed.

Lemma keeps_resume u : keeps t (resume u) (fun _ => True).
Proof. unfold resume. keep. Qed.
#[local] Hint Resolve keeps_ipc_unmask keeps_resume : keeps.

Lemma keeps_pf_reply u v : u <> 0%nat -> v <> 0%nat -> keeps t (pf_reply u v) (fun _ => True).
Proof. intros Hu Hv. unfold pf_reply. keep. Qed.

Lemma inherit_prio_add_shape th o p th' : inherit_prio_add th o p = Ok th' -> exists l, th' = with_inherited th l.
Proof.
  unfold inherit_prio_add. intros E. do 2 apply bind_Ok in E as (? & _ & E). apply bind_Ok in E as ([n l] & _ & E).
  injection E as <-. eauto.
Qed.

Lemma keeps_lend_prio u v : keeps t (lend_prio u v) (fun _ => True).
Proof.
  unfold lend_prio. keep. apply keeps_run_ths. intros s s' J E. apply bind_Ok in E as (h & Hh%get_Ok & E).
  apply bind_Ok in E as (h' & (l & ->)%inherit_prio_add_shape & E). injection E as <-. eapply tinv_put_inert; [done | done |].
  exists (fun th => with_inherited th l). split; [inert_tac | done].
Qed.
End Messages.

#[export] Hint Resolve keeps_flags keeps_utcb_location keeps_free_utcb keeps_activate keeps_start keeps_do_pfault keeps_do_exc
  keeps_process_pfault keeps_process_exception keeps_do_normal keeps_ipc_fail keeps_ipc_unmask keeps_resume keeps_pf_reply
  keeps_lend_prio : keeps.

(** ** The system call do_ipc *)

(** The assertions a handler that keeps preserves. *)
Definition stable (t : nat) (P : kernel -> Prop) : Prop :=
  forall A (m : K A) Phi, keeps t m Phi -> hoare t P m (fun a s => P s /\ Phi a).

Lemma stable_nr t : stable t (nr t).
Proof. intros A m Phi H. by apply keeps_nr. Qed.
Lemma stable_true t : stable t (fun _ => True).
Proof. intros A m Phi H. eapply hoare_conseq; [by apply keeps_hoare | done | auto]. Qed.
#[export] Hint Resolve stable_nr stable_true : keeps.

Lemma hoare_keeps_bind {A B} t P (m : K A) (f : A -> K B) Phi Q : stable t P -> keeps t m Phi ->
  (forall a, Phi a -> hoare t P (f a) Q) -> hoare t P (bind m f) Q.
Proof.
  intros HP Hm Hf. eapply hoare_bind; [by apply HP |]. intros a s Hb [H1 H2]. by apply Hf.
Qed.

Lemma hoare_keeps {A} t P (m : K A) : stable t P -> keeps t m (fun _ => True) -> hoare t P m (fun _ => P).
Proof. intros HP Hm. eapply hoare_conseq; [by apply HP | done | by intros a s [? _]]. Qed.

Lemma hoare_keeps_post {A} t P (m : K A) (Q : A -> kernel -> Prop) : stable t P -> keeps t m (fun _ => True) ->
  (forall a s, P s -> Q a s) -> hoare t P m Q.
Proof. intros HP Hm HQ. eapply hoare_conseq; [by apply hoare_keeps | done | auto]. Qed.

Ltac hoare_step :=
  lazymatch goal with
  | |- hoare _ _ (bind (thr_get _) _) _ => eapply hoare_keeps_bind; [auto with keeps | apply keeps_thr_get | intros ? ?]
  | |- hoare _ _ (bind (get_state _) _) _ => eapply hoare_keeps_bind; [auto with keeps | apply keeps_get_state | intros ? ?]
  | |- hoare _ _ (bind (copy_from_mr _ _ _) _) _ => eapply hoare_keeps_bind; [auto with keeps | apply keeps_copy_from_mr | intros ? ?]
  | |- hoare _ _ (bind ?m ?f) _ =>
      eapply (hoare_keeps_bind _ _ _ _ (fun _ => True)); [auto with keeps | solve [keep] | intros ? _]
  | |- hoare _ _ (if ?b then _ else _) _ => destruct b eqn:?
  | |- hoare _ _ (match ?x with _ => _ end) _ => destruct x eqn:?
  end.
Ltac by_keeps := apply hoare_keeps_post; [auto with keeps | solve [keep] | intros; hnf; auto].
Ltac hoare_tac := cbv zeta; repeat first [hoare_step | by_keeps].

Section DoIpc.
Context {CF : Config} (t : nat).
Hypothesis Ht : t <> 0%nat.

(** Once the thread waits it goes on when it is switched to again. *)
Lemma wait_rcv_safe tm from : hoare t (fun _ => True) (wait_rcv t tm from) (fun _ _ => True).
Proof.
  unfold wait_rcv. eapply hoare_bind; [by apply hoare_save_rcv |]. intros ?. by_keeps.
Qed.

(** A call that ends in the send phase does not wait. *)
Definition ended (r : option (option nat)) (s : kernel) : Prop := r = None -> nr t s.

Lemma not_idle u th : (u = 0%nat -> _state th = Ready) -> _state th <> Ready -> u <> 0%nat.
Proof. intros H Hn ->. auto. Qed.

Lemma send_normal_safe dst to tm tag : hoare t (nr t) (send_normal t dst to tm tag) ended.
Proof.
  unfold send_normal. hoare_tac. eapply hoare_bind; [by apply hoare_save_snd |]. intros ?.
  apply (hoare_keeps_bind _ _ _ _ (fun _ => True)); [auto with keeps | keep |]. intros ? _.
  eapply hoare_conseq; [apply keeps_hoare, (keeps_ret t (Some None) (fun r => r <> None)); done | done | intros r s Hr Hn; by destruct (Hr Hn)].
Qed.

Lemma ipc_send_safe to tm tag : hoare t (nr t) (ipc_send t to tm tag) ended.
Proof.
  unfold ipc_send. hoare_tac; [| apply send_normal_safe].
  match goal with H : (fun th => ?u = 0%nat -> _) ?x, E : bool_decide (_state ?x = Receive_pfault) && _ = true |- _ =>
    apply andb_true_iff in E as [E%bool_decide_eq_true_1 _];
    assert (u <> 0%nat) by (apply (not_idle u x H); congruence) end. by_keeps.
Qed.

Lemma ipc_receive_safe from tm tag sp : hoare t (fun _ => True) (ipc_receive t from tm tag sp) (fun _ _ => True).
Proof.
  unfold ipc_receive. hoare_tac; lazymatch goal with
    | |- hoare _ _ (wait_rcv _ _ _) _ => apply wait_rcv_safe
    | H : (fun th => ?u = 0%nat -> _) ?x, E : _state ?x = _ |- _ =>
      assert (u <> 0%nat) by (apply (not_idle u x H); congruence); by_keeps
    end.
Qed.

(** A thread found ready does not wait. *)
Lemma hoare_check_ready {A} (f : thread_t -> K A) Q : (forall th, hoare t (nr t) (f th) Q) ->
  hoare t (fun _ => True) (th <- thr_get t ;; assert_ (bool_decide (_state th = Ready)) ;;; f th) Q.
Proof.
  intros Hf s Hb _. unfold bind at 1, thr_get, ask_ths, asks, run. destruct (get (ths s) t) as [th|] eqn:E; [| done].
  apply get_Ok in E. cbn [mbind res_bind pbind]. unfold bind, assert_.
  destruct (decide (_state th = Ready)) as [Hr | Hr]; [rewrite bool_decide_eq_true_2 by done | by rewrite bool_decide_eq_false_2].
  apply Hf; [done |]. intros (x & Hx & Ex). congruence.
Qed.

Lemma ipc_switch_safe sp rp : hoare t (fun _ => True) (ipc_switch t sp rp) (fun _ => nr t).
Proof.
  unfold ipc_switch. apply hoare_check_ready. intros th. apply hoare_keeps; [auto with keeps |]. unfold partner_prio. keep.
Qed.

Lemma do_ipc_safe : hoare t (nr t) (do_ipc t) (fun _ => nr t).
Proof.
  unfold do_ipc. do 5 hoare_step. eapply (hoare_bind _ _ ended).
  - destruct (negb _); [apply ipc_send_safe | by_keeps].
  - intros [sp|]; [| eapply hoare_conseq; [apply hoare_keeps; [apply stable_nr | keep] | intros s Hs; by apply Hs | done]].
    apply (hoare_conseq t (fun _ => True) _ (fun _ => nr t) (fun _ => nr t)); [| done | done].
    hoare_step. eapply (hoare_bind _ _ (fun _ _ => True)).
    + destruct (_ && _); [apply ipc_receive_safe | by_keeps].
    + intros p. apply ipc_switch_safe.
Qed.
End DoIpc.

(** ** System calls *)

Section SyscallsSafe.
Context {CF : Config} (t : nat).
Hypothesis Ht : t <> 0%nat.

Lemma keeps_exchange_registers : keeps t (syscall_exchange_registers t) (fun _ => True).
Proof. unfold syscall_exchange_registers. keep. Qed.

Lemma keeps_opt_task o : keeps t (opt_task o) (fun _ => True).
Proof. unfold opt_task. keep. Qed.
Lemma keeps_task_ready p b : keeps t (task_ready p b) (fun _ => True).
Proof. unfold task_ready. keep. Qed.
Lemma keeps_set_utcb u v p : keeps t (set_utcb u v p) (fun _ => True).
Proof. unfold set_utcb. keep. Qed.
#[local] Hint Resolve keeps_opt_task keeps_task_ready keeps_set_utcb : keeps.

Lemma keeps_new_thread_task u a b c : keeps t (new_thread_task u a b c) (fun _ => True).
Proof.
  unfold new_thread_task. keep. apply keeps_run_space. intros s x s' E. apply bind_Ok in E as ([[p k] ts] & _ & E).
  by injection E as <- <-.
Qed.
#[local] Hint Resolve keeps_new_thread_task : keeps.

Lemma global_user_number id : thrid_is_global_user id = true -> Thread_number_min < thrid_number id.
Proof.
  unfold thrid_is_global_user. intros H. apply andb_true_iff in H as [H _]. apply andb_true_iff in H as [_ H].
  apply Z.leb_le in H. unfold Kip_thrid_user_base, Thread_number_min, Kthreads_max in *. lia.
Qed.

Lemma keeps_create dst sched pager tsk p : Thread_number_min < thrid_number dst ->
  keeps t (run (fun s => r ← create (ths s) dst sched pager tsk p; Ok (r.1, set_ths s r.2))) (fun d => d <> 0%nat).
Proof.
  intros Hd. apply keeps_run. intros s d s' Hb E. apply bind_Ok in E as ([d' s1] & E1 & E). injection E as <- <-.
  destruct (tinv_create _ _ _ _ _ _ _ _ (proj1 Hb) Hd E1) as (J & C & Hn). split_and!; [done | done | apply Hb | done].
Qed.

Lemma keeps_thread_creation dst space sched pager utcb : Thread_number_min < thrid_number dst ->
  keeps t (thread_creation t dst space sched pager utcb) (fun _ => True).
Proof.
  intros Hd. unfold thread_creation.
  keep_to ltac:(idtac; lazymatch goal with |- keeps _ (bind (run _) _) _ => idtac end). eapply keeps_bind; [by apply keeps_create |]. intros d Hn. keep.
Qed.

Lemma keeps_thread_modification d dst space sched pager utcb : d <> 0%nat ->
  keeps t (thread_modification t d dst space sched pager utcb) (fun _ => True).
Proof. intros Hd. unfold thread_modification. keep. Qed.

Lemma keeps_thread_deletion d dst : Thread_number_min < thrid_number dst -> keeps t (thread_deletion d dst) (fun _ => True).
Proof.
  intros Hd. unfold thread_deletion. keep.
  - apply keeps_run_ths. intros s s' J E. by eapply tinv_remove.
  - apply keeps_run_space. intros s x s' E. apply bind_Ok in E as (r & _ & E). by injection E as <- <-.
Qed.
#[local] Hint Resolve keeps_thread_creation keeps_thread_modification keeps_thread_deletion : keeps.

Lemma find_num_pos s n d : Thread_number_min < n -> find_num s n = Some d -> d <> 0%nat.
Proof. unfold find_num. intros Hn E. repeat case_match; simplify_eq. unfold Thread_number_min in *. lia. Qed.

Lemma keeps_find_num n : Thread_number_min < n ->
  keeps t (ask_ths (fun s => Ok (find_num s n))) (fun o => forall d, o = Some d -> d <> 0%nat).
Proof. intros Hn. apply keeps_asks. intros s o Hb E. injection E as <-. intros d. by apply find_num_pos. Qed.

Lemma keeps_thread_control : keeps t (syscall_thread_control t) (fun _ => True).
Proof.
  unfold syscall_thread_control. keep_to ltac:(idtac; lazymatch goal with |- keeps _ (bind (ask_ths _) _) _ => idtac end).
  match goal with E : negb (thrid_is_global_user ?d) = false |- _ =>
    apply negb_false_iff in E; pose proof (global_user_number d E) end.
  eapply keeps_bind; [by apply keeps_find_num |]. intros o Ho. keep. 
Qed.

Lemma keeps_thread_switch : keeps t (syscall_thread_switch t) (fun _ => True).
Proof. unfold syscall_thread_switch. keep. Qed.

Lemma keeps_schedule : keeps t (syscall_schedule t) (fun _ => True).
Proof.
  unfold syscall_schedule, sched_result. keep. apply keeps_run_ths. intros s s' J E. destruct (tinv_set_prio _ _ _ _ J E) as [J' S].
  split; [done | by apply same_calm].
Qed.

Lemma keeps_remap tsk l : keeps t (remap_user_utcb tsk l) (fun _ => True).
Proof. induction l as [|u l IH]; cbn [remap_user_utcb]; keep. Qed.
#[local] Hint Resolve keeps_remap : keeps.

Lemma keeps_unmap_fpages u n : forall i, keeps t (unmap_fpages u i n) (fun _ => True).
Proof. induction n as [|n IH]; intros i; cbn [unmap_fpages]; keep. Qed.
#[local] Hint Resolve keeps_unmap_fpages : keeps.

Lemma keeps_unmap : keeps t (syscall_unmap t) (fun _ => True).
Proof. unfold syscall_unmap. keep. Qed.

Lemma keeps_space_control : keeps t (syscall_space_control t) (fun _ => True).
Proof. unfold syscall_space_control. keep. Qed.

Lemma keeps_set_attribs u a n : forall i, keeps t (set_attribs u a i n) (fun _ => True).
Proof. induction n as [|n IH]; intros i; cbn [set_attribs]; keep. Qed.
#[local] Hint Resolve keeps_set_attribs : keeps.

Lemma keeps_memory_control : keeps t (syscall_memory_control t) (fun _ => True).
Proof. unfold syscall_memory_control. keep. Qed.

Lemma keeps_kdb : keeps t (syscall_kdb t) (fun _ => True).
Proof. unfold syscall_kdb. keep. Qed.
End SyscallsSafe.

(** ** Entry points *)

Section EntrySafe.
Context {CF : Config} (t : nat).

Lemma keeps_own_flags : keeps t (x_get t) (fun x => t = 0%nat -> Z.land (_flags x) L4_flags_frcexc = 0).
Proof.
  apply keeps_asks. intros s x (_ & _ & _ & Hc) E H0. apply (Hc H0). rewrite H0 in E. destruct (xthr s !! 0%nat); [| discriminate E].
  by injection E as ->.
Qed.

Lemma keeps_check_force fuel : keeps t (check_force_exception fuel t) (fun _ => True).
Proof.
  induction fuel as [|f IH]; cbn [check_force_exception]; (eapply keeps_bind; [apply keeps_own_flags |]); intros x Hx;
    (destruct (Z.eqb_spec (Z.land (_flags x) L4_flags_frcexc) 0) as [E | E]; [by apply keeps_ret |]); [apply keeps_halt |].
  assert (t <> 0%nat) by (intros H0; by apply E, Hx). keep.
Qed.

Lemma keeps_timer_tick : keeps t kern_timer_tick (fun _ => True).
Proof.
  unfold kern_timer_tick. keep.
  - apply keeps_run. intros s x s' Hb E. apply bind_Ok in E as ([n s1] & E1 & E). injection E as <- <-.
    destruct (tinv_timeouts _ _ _ _ (proj1 Hb) E1) as [J C]. split_and!; [done | done | apply Hb | done].
  - apply keeps_run. intros s x s' Hb E. apply bind_Ok in E as ([it s1] & E1 & E). apply bind_Ok in E as (u & _ & E).
    injection E as <- <-. pose proof E1 as E2. apply bind_Ok in E2 as (th & Ht%get_Ok & _).
    destruct (tinv_expired _ _ th _ _ _ (proj1 Hb) Ht (or_introl eq_refl) E1) as [J S].
    split_and!; [done | apply same_calm; [apply Hb | done | done] | apply Hb | done].
Qed.

Lemma keeps_deliver_irq irq h : keeps t (deliver_irq irq h) (fun _ => True).
Proof. unfold deliver_irq. keep. Qed.
#[local] Hint Resolve keeps_check_force keeps_timer_tick keeps_deliver_irq : keeps.

Lemma keeps_kentry_irq fuel irq : keeps t (kentry_irq fuel irq) (fun _ => True).
Proof. unfold kentry_irq. keep. Qed.
#[local] Hint Resolve keeps_kentry_irq : keeps.

Lemma keeps_entry_irq fuel irq : keeps t (sparc_entry_irq fuel irq) (fun _ => True).
Proof. unfold sparc_entry_irq, entry_type. keep. Qed.

Section User.
Hypothesis Ht : t <> 0%nat.

Lemma keeps_entry_pagefault fuel kr a b c : keeps t (sparc_entry_pagefault fuel kr a b c) (fun _ => True).
Proof. unfold sparc_entry_pagefault, entry_type, kentry_pagefault. keep. Qed.

Lemma keeps_entry_bad_trap kr ty : keeps t (sparc_entry_bad_trap kr ty) (fun _ => True).
Proof. unfold sparc_entry_bad_trap, entry_type. keep. Qed.

Lemma keeps_kernel_interface : keeps t (kernel_interface t) (fun _ => True).
Proof. unfold kernel_interface. keep. Qed.
Lemma keeps_system_clock : keeps t (system_clock t) (fun _ => True).
Proof. unfold system_clock. keep. Qed.
Lemma keeps_unknown_syscall : keeps t (unknown_syscall t) (fun _ => True).
Proof. unfold unknown_syscall. keep. Qed.
#[local] Hint Resolve keeps_kernel_interface keeps_system_clock keeps_unknown_syscall keeps_exchange_registers
  keeps_thread_control keeps_thread_switch keeps_schedule keeps_unmap keeps_space_control keeps_memory_control keeps_kdb : keeps.

Lemma dispatch_safe n : hoare t (nr t) (dispatch t n) (fun _ => nr t).
Proof.
  destruct (Z.eqb_spec n 7) as [-> | Hn]; [change (dispatch t 7) with (do_ipc t); by apply do_ipc_safe |].
  apply hoare_keeps; [auto with keeps |].
  unfold dispatch. keep. by subst.
Qed.

Lemma entry_syscall_safe fuel : hoare t (nr t) (sparc_entry_syscall fuel) (fun _ => nr t).
Proof.
  unfold sparc_entry_syscall, entry_type. eapply hoare_keeps_bind; [auto with keeps | apply keeps_cur_thr | intros ? ->].
  hoare_step. eapply (hoare_bind _ _ (fun _ => nr t)).
  - unfold kentry_syscall. eapply hoare_keeps_bind; [auto with keeps | apply keeps_cur_thr | intros ? ->]. hoare_step.
    eapply hoare_bind; [apply dispatch_safe |]. intros ?. apply hoare_keeps; [auto with keeps | keep].
  - intros ?. apply hoare_keeps; [auto with keeps | keep].
Qed.
End User.
End EntrySafe.
