(* ===== verification/System.v ===== *)
(** The running system: threads in user mode, kernel entries and switches, as
    a step relation, and the invariant of every reachable state.

    A thread that switched away inside a handler has a continuation (the rest
    of its handler); the thread switched to goes on with its own, or enters
    user mode for the first time.  In user mode a thread changes its registers,
    its UTCB and memory; the idle thread only takes interrupts.  The stack of a
    thread that is Idle, Inactive or Active is set up anew before it runs
    again, so its continuation is gone. *)

From Stdlib Require Import ZArith Lia Bool.
From stdpp Require Import base gmap list numbers relations.
From S2P Require Import Prelude SysUtils Bitmap ListSpec L4Types AddressSpace Kmem CString Threads Sched Mmu Ptable PtableSpec Aspace Paging Task Kernel Ipc Syscalls Entry KernelInv KernelSafe.

Open Scope kernel_scope.

(** ** Steps *)

Inductive event :=
| ESyscall
| EPagefault (krn_mode : bool) (addr status inst : Z)
| ETrap (krn_mode : bool) (ttype : Z)
| EIrq (irq : Z).

Inductive phase := User | Switched.

Record config := MkC { krn : kernel; conts : nat -> option (K unit); mode : phase }.

(** A continuation is kept as long as the thread has been started. *)
Definition started (s : kernel) (u : nat) : bool :=
  match thr (ths s) !! u with
  | Some th => match _state th with Idle | Inactive | Active => false | _ => true end
  | None => false
  end.
Definition live (s : kernel) (c : nat -> option (K unit)) : nat -> option (K unit) :=
  fun u => if started s u then c u else None.
Definition with_cont (c : nat -> option (K unit)) (t : nat) (o : option (K unit)) : nat -> option (K unit) :=
  fun u => if Nat.eqb u t then o else c u.

(** The state after a run of the thread [t] up to its end or the next switch;
    a stop of the kernel has no successor. *)
Definition settle (t : nat) (c : nat -> option (K unit)) (p : proc unit) : option config :=
  match p with
  | Ret _ s => Some (MkC s (live s (with_cont c t None)) User)
  | Halt _ => None
  | Yield s k => Some (MkC s (live s (with_cont c t (Some k))) Switched)
  end.

(** What user mode can change. *)
Definition utcb_changed (th th' : thread_t) : Prop := exists m e sd, th' = with_sender (with_utcb th m e) sd.
Definition user_threads (s s' : threads) : Prop :=
  current s' = current s /\ ready_bits s' = ready_bits s /\ queues s' = queues s /\ Forall2 utcb_changed (thr s) (thr s').
Definition user_x (x x' : xthread) : Prop := exists mr br eh uh gid fr,
  x' = MkX mr br eh uh gid fr (x_stack x) (_utcb_kva x) (_utcb_pa x) (_sched x) (_pager x) (_flags x) (_fpu_in_use x)
         (_efault x) (_signal_pending x) (_entry_type x).
Definition user_change (s s' : kernel) : Prop :=
  ksp_ s' = ksp_ s /\ tsks s' = tsks s /\ ints s' = ints s /\ intc s' = intc s /\
  user_threads (ths s) (ths s') /\ Forall2 user_x (xthr s) (xthr s') /\ Forall xtyped (xthr s').

Section System.
Context {CF : Config}.

Definition handler (fuel : nat) (e : event) : K unit :=
  match e with
  | ESyscall => sparc_entry_syscall fuel
  | EPagefault krn_mode a st i => sparc_entry_pagefault fuel krn_mode a st i
  | ETrap krn_mode ty => sparc_entry_bad_trap krn_mode ty
  | EIrq irq => sparc_entry_irq fuel irq
  end.

(** The idle thread runs with no forced exception (its flags are those of its
    creation as long as no thread of its own task changes them). *)
Definition idle_ok (s : kernel) : Prop := current (ths s) = 0%nat -> idle_calm s.

Inductive step : config -> config -> Prop :=
| S_user s s' c : user_change s s' -> step (MkC s c User) (MkC s' c User)
| S_event fuel e s c c' : idle_ok s -> (current (ths s) = 0%nat -> exists irq, e = EIrq irq) ->
    settle (current (ths s)) c (handler fuel e s) = Some c' -> step (MkC s c User) c'
| S_resume s c k c' : idle_ok s -> c (current (ths s)) = Some k ->
    settle (current (ths s)) c (k s) = Some c' -> step (MkC s c Switched) c'
| S_first s c : c (current (ths s)) = None -> step (MkC s c Switched) (MkC s c User).

(** Before the first thread runs: consistent lists, the idle thread ready, no
    thread waiting for a message. *)
Definition initial (c : config) : Prop :=
  tinv (ths (krn c)) /\ typed (krn c) /\ (forall u, ~ rcv (ths (krn c)) u) /\ (forall u, conts c u = None) /\ mode c = User.

(** ** The invariant *)

Definition good (u : nat) (s : kernel) (o : option (K unit)) : Prop :=
  match o with
  | Some k => forall s', base u s' -> (rcv (ths s') u -> rcv (ths s) u) ->
      safe u s' (fun _ s'' => base u s'' /\ nr u s'') (k s')
  | None => nr u s
  end.

Definition sys_inv (c : config) : Prop :=
  tinv (ths (krn c)) /\ typed (krn c) /\ (forall u, good u (krn c) (conts c u)) /\
  (mode c = User -> conts c (current (ths (krn c))) = None).

Lemma not_started_nr s u : started s u = false -> nr u s.
Proof. intros H (th & Ht & Es). unfold started in H. by rewrite Ht, Es in H. Qed.

Lemma good_live u s c : good u s (c u) -> good u s (live s c u).
Proof. unfold live. destruct (started s u) eqn:E; [done |]. intros _. by apply not_started_nr. Qed.

(** A run of another thread does not disturb a continuation. *)
Lemma good_quiet t u s s' o : u <> t -> quiet t s s' -> good u s o -> good u s' o.
Proof.
  intros Hu Hq. destruct o as [k|]; simpl.
  - intros H s2 Hb Hr. apply H; [done |]. intros H2. apply (Hq u Hu), Hr, H2.
  - intros H Hr. by apply H, (Hq u Hu).
Qed.

Lemma settle_inv t s c p c' : (forall u, u <> t -> good u s (c u)) ->
  safe t s (fun _ s' => base t s' /\ nr t s') p -> settle t c p = Some c' -> sys_inv c'.
Proof.
  intros Hg Hp E. destruct p as [a s1 | e | s1 k]; simpl in Hp, E; [| discriminate E |]; injection E as <-.
  - destruct Hp as (Hq & (J & C & Hx & Hi) & Hn). split_and!; simpl; [done | done | |].
    + intros u. apply good_live. unfold with_cont. destruct (Nat.eqb_spec u t) as [-> |]; [done |]. eapply good_quiet; eauto.
    + intros _. unfold live, with_cont. rewrite C, Nat.eqb_refl. by destruct (started s1 t).
  - destruct Hp as (J & Hx & Hq & Hk). split_and!; simpl; [done | done | | done].
    intros u. apply good_live. unfold with_cont. destruct (Nat.eqb_spec u t) as [-> |]; [done |]. eapply good_quiet; eauto.
Qed.

Lemma handler_safe t fuel e s : base t s -> nr t s -> (t = 0%nat -> exists irq, e = EIrq irq) ->
  safe t s (fun _ s' => base t s' /\ nr t s') (handler fuel e s).
Proof.
  intros Hb Hn H0. destruct (decide (t = 0%nat)) as [Ez | Ht].
  - destruct (H0 Ez) as (irq & ->). apply (hoare_keeps t (nr t)); [apply stable_nr | apply keeps_entry_irq | done | done].
  - destruct e; simpl.
    + by apply entry_syscall_safe.
    + apply (hoare_keeps t (nr t)); [apply stable_nr | by apply keeps_entry_pagefault | done | done].
    + apply (hoare_keeps t (nr t)); [apply stable_nr | by apply keeps_entry_bad_trap | done | done].
    + apply (hoare_keeps t (nr t)); [apply stable_nr | apply keeps_entry_irq | done | done].
Qed.

(** User mode changes no state and no list. *)
Lemma user_states s s' : user_threads s s' ->
  length (thr s) = length (thr s') /\
  forall u uth, thr s !! u = Some uth -> exists m e sd, thr s' !! u = Some (with_sender (with_utcb uth m e) sd).
Proof.
  intros (_ & _ & _ & F). split; [by eapply Forall2_length |]. intros u uth Hu.
  destruct (Forall2_lookup_l _ _ _ _ _ F Hu) as (y & Hy & m & e & sd & ->). eauto.
Qed.

Lemma tinv_user s s' : tinv s -> user_threads s s' -> tinv s' /\ (forall u, rcv s' u <-> rcv s u).
Proof.
  intros J U. pose proof U as (C & B & Q & _). destruct (user_states s s' U) as [Hl Hs].
  assert (HR : forall u, rcv s' u <-> rcv s u).
  { apply states_rcv; [done |]. intros u uth Hu. destruct (Hs u uth Hu) as (m & e & sd & H). eexists. split; [done |]. by destruct uth. }
  assert (Hb : forall u uth', thr s' !! u = Some uth' -> exists uth m e sd, thr s !! u = Some uth /\ uth' = with_sender (with_utcb uth m e) sd).
  { intros u uth' Hu. destruct (lookup_lt_is_Some_2 (thr s) u) as (x & Hx); [rewrite Hl; by eapply lookup_lt_Some |].
    destruct (Hs u x Hx) as (m & e & sd & H). exists x, m, e, sd. split; [done | congruence]. }
  pose proof (j_inv s J) as I. split; [| done]. split.
  - split.
    + rewrite <- Hl. apply I.
    + rewrite B, Q. apply I.
    + intros q. rewrite Q. apply I.
    + intros q. rewrite Q. apply I.
    + intros u uth' q Hu _ Hq. destruct (Hb u uth' Hu) as (x & m & e & sd & Hx & ->). rewrite Q.
      destruct (i_in _ s I u x q Hx ltac:(done)) as (a & H1 & H2); [rewrite <- Hq; by destruct x |]. exists a. split; [| done].
      rewrite <- H1. by destruct x.
    + intros q a u. rewrite Q. intros Hin. split; [done |]. destruct (i_out _ s I q a u Hin) as (_ & x & H1 & H2 & H3).
      destruct (Hs u x H1) as (m & e & sd & H). eexists. split; [done |]. rewrite <- H2, <- H3. by destruct x.
    + intros q Hq. unfold q_threads. rewrite Q. pose proof (i_sorted _ s I q Hq) as Hso. unfold q_threads in Hso.
      rewrite (list_fmap_ext _ (tmo s)); [done |]. intros i u _. unfold tmo. destruct (thr s !! u) as [x|] eqn:Hx.
      * destruct (Hs u x Hx) as (m & e & sd & ->). by destruct x.
      * apply lookup_ge_None in Hx. rewrite Hl in Hx. by rewrite (proj2 (lookup_ge_None _ _) Hx).
  - intros th H0. destruct (Hb 0%nat th H0) as (x & m & e & sd & Hx & ->). rewrite <- (j_idle s J x Hx). by destruct x.
Qed.

Lemma step_inv c c' : sys_inv c -> step c c' -> sys_inv c'.
Proof.
  intros I St. destruct St as [s s' cs (_ & _ & _ & _ & Hu & Hx & Hx') | fuel e s cs c1 Hi H0 E | s cs k c1 Hi Ek E | s cs En];
    destruct I as (J & X & G & U); cbn [krn conts mode] in J, X, G, U.
  - destruct (tinv_user _ _ J Hu) as [J' R]. split_and!; cbn [krn conts mode]; [done | | | intros _; destruct Hu as (-> & _); auto].
    + split; [| done]. rewrite <- (Forall2_length _ _ _ Hx). apply X.
    + intros u. specialize (G u). destruct (cs u) as [k|]; simpl in *.
      * intros s2 Hb Hr. apply G; [done |]. intros H. by apply R, Hr.
      * intros H. by apply G, R.
  - specialize (U eq_refl). assert (Hn : nr (current (ths s)) s) by (specialize (G (current (ths s))); by rewrite U in G).
    eapply settle_inv; [| | done]; [intros u _; apply G |]. by apply handler_safe.
  - eapply settle_inv; [| | done]; [intros u _; apply G |]. specialize (G (current (ths s))). rewrite Ek in G. apply G; [| done].
    by split_and!.
  - by split_and!.
Qed.

Lemma initial_inv c : initial c -> sys_inv c.
Proof. intros (J & X & R & N & M). split_and!; [done | done | | by intros _]. intros u. rewrite N. apply R. Qed.

Lemma reachable_inv c c' : initial c -> rtc step c c' -> sys_inv c'.
Proof.
  intros H R. apply initial_inv in H. induction R as [c | c c1 c2 S _ IH]; [done |]. apply IH. by eapply step_inv.
Qed.

(** C1: the kernel never corrupts its scheduler: in every state reachable by
    any sequence of system calls, page faults, traps and interrupts of any
    threads, with switches in the middle of the handlers and any user code in
    between, every thread is in exactly the list of its state, with consistent
    items, ready bits and timeout order, the idle thread is ready, and the
    ready bits lead the scheduler to a thread of the highest priority of all
    ready threads (there always is one). *)
Theorem kernel_invariant c c' : initial c -> rtc step c c' ->
  let s := ths (krn c') in
  inv s /\ (forall th, thr s !! 0%nat = Some th -> _state th = Ready) /\
  exists p h hth l, hi_prio 8 (ready_bits s) = Ok (Some p) /\ q_threads s (QReady p) = h :: l /\
    thr s !! h = Some hth /\ _state hth = Ready /\ prio hth = p /\
    forall u uth, thr s !! u = Some uth -> _state uth = Ready -> prio uth <= p.
Proof.
  intros Hi R s. destruct (reachable_inv c c' Hi R) as (J & _). pose proof (j_inv _ J) as I.
  split_and!; [done | apply J |]. destruct (hi_prio_head s I) as (o & E & Ho). destruct o as [p|].
  - destruct Ho as (_ & a & h & hth & l & Eb & H1 & H2 & H3 & _ & H4). exists p, h, hth, (vals l).
    split_and!; try done. unfold q_threads. by rewrite Eb.
  - destruct (lookup_lt_is_Some_2 (thr s) 0) as (x & Hx); [rewrite (i_len _ s I); lia |].
    destruct (Ho 0%nat x Hx). by apply (j_idle _ J).
Qed.

End System.
