(* ===== verification/IpcSpec.v ===== *)
(** What the message transfer of [Ipc] does: the state after a run, as an
    equation on the whole kernel state, and the errors of the system call. *)

From Stdlib Require Import ZArith Lia Bool FunctionalExtensionality.
From stdpp Require Import base gmap list numbers.
From S2P Require Import Prelude SysUtils Bitmap ListSpec L4Types AddressSpace Kmem CString Threads Sched Mmu Ptable PtableSpec Aspace Task Kernel Ipc Syscalls Entry KernelInv KernelSafe.

Open Scope kernel_scope.

(** ** Runs without a switch *)

Lemma bind_ret {A B} (m : K A) (f : A -> K B) s a s1 : m s = Ret a s1 -> bind m f s = f a s1.
Proof. intros E. unfold bind. by rewrite E. Qed.

Lemma bind_assoc {A B C} (m : K A) (f : A -> K B) (g : B -> K C) s : bind (bind m f) g s = bind m (fun a => bind (f a) g) s.
Proof.
  unfold bind. generalize (m s). intros p. induction p as [a s1 | e | s1 k IH]; simpl; [done | done |]. f_equal.
  apply functional_extensionality. intros s'. apply IH.
Qed.

Lemma bind_ext {A B} (m : K A) (f g : A -> K B) s : (forall a s1, f a s1 = g a s1) -> bind m f s = bind m g s.
Proof.
  intros H. unfold bind. generalize (m s). intros p. induction p as [a s1 | e | s1 k IH]; simpl; [apply H | done |].
  f_equal. apply functional_extensionality. intros s'. apply IH.
Qed.

Section Prim.
Implicit Types (s : kernel) (t : nat).

Lemma run_Ok {A} (f : kernel -> res (A * kernel)) s a s1 : f s = Ok (a, s1) -> run f s = Ret a s1.
Proof. intros E. unfold run. by rewrite E. Qed.

Lemma asks_Ok {A} (f : kernel -> res A) s a : f s = Ok a -> asks f s = Ret a s.
Proof. intros E. apply run_Ok. by rewrite E. Qed.

Lemma ask_ths_Ok {A} (f : threads -> res A) s a : f (ths s) = Ok a -> ask_ths f s = Ret a s.
Proof. intros E. by apply (asks_Ok (fun r => f (ths r))). Qed.

Lemma run_ths_Ok f s (s1 : threads) : f (ths s) = Ok s1 -> run_ths f s = Ret tt (set_ths s s1).
Proof. intros E. apply run_Ok. by rewrite E. Qed.

Lemma thr_get_Ok s t th : thr (ths s) !! t = Some th -> thr_get t s = Ret th s.
Proof. intros E. apply ask_ths_Ok, get_ok, E. Qed.

Lemma thr_mod_Ok s t th f : thr (ths s) !! t = Some th -> thr_mod t f s = Ret tt (set_ths s (put (ths s) t (f th))).
Proof. intros E. apply run_ths_Ok. by rewrite (get_ok _ t th E). Qed.

Lemma x_get_Ok s t x : xthr s !! t = Some x -> x_get t s = Ret x s.
Proof. intros E. apply asks_Ok. by rewrite E. Qed.

Lemma x_mod_Ok s t x f : xthr s !! t = Some x -> x_mod t f s = Ret tt (set_xthr s (<[t := f x]> (xthr s))).
Proof. intros E. apply run_Ok. by rewrite E. Qed.

Lemma get_mr0_Ok s t th : thr (ths s) !! t = Some th -> get_mr t 0 s = Ret (utcb_msgtag th) s.
Proof. intros E. unfold get_mr. simpl. by rewrite (bind_ret _ _ _ _ _ (thr_get_Ok s t th E)). Qed.

Lemma set_mr0_Ok s t th v : thr (ths s) !! t = Some th ->
  set_mr t 0 v s = Ret tt (set_ths s (put (ths s) t (with_utcb th v (utcb_error th)))).
Proof. intros E. unfold set_mr. simpl. by rewrite (thr_mod_Ok s t th _ E). Qed.

Lemma get_mr_Ok s t x i v : i <> 0 -> xthr s !! t = Some x -> x_mr x !! Z.to_nat (i - 1) = Some v -> get_mr t i s = Ret v s.
Proof. intros Hi E Ev. unfold get_mr. rewrite (proj2 (Z.eqb_neq i 0) Hi). apply asks_Ok. by rewrite E; simpl; rewrite Ev. Qed.

Lemma set_mr_Ok s t x i v : i <> 0 -> xthr s !! t = Some x -> (Z.to_nat (i - 1) < length (x_mr x))%nat ->
  set_mr t i v s = Ret tt (set_xthr s (<[t := with_mr x (<[Z.to_nat (i - 1) := v]> (x_mr x))]> (xthr s))).
Proof.
  intros Hi E Hl. unfold set_mr. rewrite (proj2 (Z.eqb_neq i 0) Hi). apply run_Ok. rewrite E. simpl.
  destruct (lookup_lt_is_Some_2 _ _ Hl) as (w & ->). done.
Qed.

Lemma set_reg_Ok s t x i v : xthr s !! t = Some x ->
  set_reg t i v s = Ret tt (set_xthr s (<[t := with_frame x (<[i := v]> (x_frame x))]> (xthr s))).
Proof. intros E. unfold set_reg. by rewrite (x_mod_Ok s t x _ E). Qed.

Lemma get_reg_Ok s t x i v : xthr s !! t = Some x -> x_frame x !! i = Some v -> get_reg t i s = Ret v s.
Proof. intros E Ev. apply asks_Ok. by rewrite E; simpl; rewrite Ev. Qed.

Lemma set_error_Ok s t th e : thr (ths s) !! t = Some th ->
  set_error t e s = Ret tt (set_ths s (put (ths s) t (with_utcb th (utcb_msgtag th) e))).
Proof. intros E. unfold set_error. by rewrite (thr_mod_Ok s t th _ E). Qed.

Lemma state_Ok s t st (s1 : threads) : set_state (ths s) t st = Ok s1 -> state t st s = Ret tt (set_ths s s1).
Proof. intros E. by apply (run_ths_Ok (fun r : threads => set_state r t st)). Qed.

Lemma set_ths_id s : set_ths s (ths s) = s.
Proof. by destruct s. Qed.
Lemma set_xthr_id s : set_xthr s (xthr s) = s.
Proof. by destruct s. Qed.
End Prim.

(** One step of a run, by a rule for its first command. *)
Ltac ksimpl := cbn [set_xthr set_ths set_ks set_tsks set_ints set_intc set_pmem xthr ths tsks ints pmem now irqs intc ksp_
  put thr current ready_bits queues].
Tactic Notation "kdo" open_constr(rule) := cbv beta iota; erewrite bind_ret; [| eapply rule; try eassumption; try done].

(** ** Untyped words *)

Section Transfer.
Context {CF : Config}.
Implicit Types (s : kernel) (snd rcv : nat).

Lemma insert_take_drop {A} (l l' : list A) k v : l !! k = Some v -> (k < length l')%nat ->
  <[k := v]> (take k l ++ drop k l') = take (S k) l ++ drop (S k) l'.
Proof.
  intros Hl Hk. assert (Hlen : length (take k l) = k).
  { rewrite length_take. apply lookup_lt_Some in Hl. lia. }
  rewrite insert_app_r_alt by lia. rewrite Hlen, Nat.sub_diag. destruct (drop k l') as [|y r] eqn:Ed.
  { apply (f_equal length) in Ed. rewrite length_drop in Ed. simpl in Ed. lia. }
  simpl. rewrite (take_S_r l k v Hl), <- app_assoc. simpl. f_equal. f_equal.
  assert (Eq : drop 1 (drop k l') = r) by (by rewrite Ed). rewrite drop_drop in Eq. rewrite <- Eq. f_equal. lia.
Qed.

(** The words 1..k of the sender replace those of the receiver. *)
Definition words (k : nat) (sx rx : xthread) : xthread := with_mr rx (take k (x_mr sx) ++ drop k (x_mr rx)).

Lemma copy_untyped_Ok snd rcv sx rx n : snd <> rcv -> xtyped sx -> xtyped rx -> forall k s,
  (k + n <= 255)%nat -> xthr s !! snd = Some sx -> xthr s !! rcv = Some (words k sx rx) ->
  copy_untyped snd rcv (1 + Z.of_nat k) n s = Ret tt (set_xthr s (<[rcv := words (k + n) sx rx]> (xthr s))).
Proof.
  intros Hne [Hs _] [Hr _]. unfold Mr_words in *. induction n as [|n IH]; intros k s Hk Hxs Hxr; cbn [copy_untyped].
  { rewrite Nat.add_0_r, list_insert_id by done. by rewrite set_xthr_id. }
  assert (Ek : Z.to_nat (1 + Z.of_nat k - 1) = k) by lia.
  destruct (lookup_lt_is_Some_2 (x_mr sx) k) as (v & Hv); [lia |].
  kdo get_mr_Ok; [| lia | by rewrite Ek].
  assert (Hlr : (k < length (x_mr (words k sx rx)))%nat).
  { unfold words. cbn [with_mr x_mr]. rewrite length_app, length_take, length_drop. lia. }
  kdo set_mr_Ok; [| lia | by rewrite Ek]. rewrite Ek.
  assert (Ew : with_mr (words k sx rx) (<[k := v]> (x_mr (words k sx rx))) = words (S k) sx rx).
  { unfold words. cbn [with_mr x_mr]. rewrite (insert_take_drop (x_mr sx) (x_mr rx) k v Hv) by lia. done. }
  rewrite Ew. replace (1 + Z.of_nat k + 1) with (1 + Z.of_nat (S k)) by lia.
  set (s1 := set_xthr s (<[rcv := words (S k) sx rx]> (xthr s))).
  assert (Hl : (rcv < length (xthr s))%nat) by (by eapply lookup_lt_Some).
  rewrite (IH (S k) s1).
  - unfold s1. cbn [set_xthr xthr]. rewrite list_insert_insert_eq. by rewrite Nat.add_succ_comm.
  - lia.
  - unfold s1. cbn [set_xthr xthr]. by rewrite list_lookup_insert_ne.
  - unfold s1. cbn [set_xthr xthr]. by rewrite list_lookup_insert_eq.
Qed.

Lemma words_0 sx rx : words 0 sx rx = rx.
Proof. unfold words. rewrite take_0, drop_0. by destruct rx. Qed.

Lemma tag_untyped_range tag : 0 <= tag_untyped tag < 256.
Proof. unfold tag_untyped. by apply (bf_get_range 0 8 tag). Qed.

(** The receiver after a message without typed items: the tag and the untyped
    words of the sender, the sender's id in the result register. *)
Definition got_thread (sth rth : thread_t) (propagated use_local : bool) : thread_t :=
  let rth1 := with_utcb rth (utcb_msgtag sth) (utcb_error rth) in
  if propagated then with_sender rth1 (if use_local then localid sth else _glob_id sth) else rth1.
Definition got_words (sth : thread_t) (sx rx : xthread) (propagated use_local : bool) : xthread :=
  words (Z.to_nat (tag_untyped (utcb_msgtag sth))) sx
    (with_frame rx (<[F_syscall := if propagated then utcb_sender sth else if use_local then localid sth else _glob_id sth]>
                      (x_frame rx))).
Definition delivered (s : kernel) (rcv : nat) (sth rth : thread_t) (sx rx : xthread) (propagated use_local : bool) : kernel :=
  set_xthr (set_ths s (put (ths s) rcv (got_thread sth rth propagated use_local)))
    (<[rcv := got_words sth sx rx propagated use_local]> (xthr s)).

Lemma xtyped_frame x fr : xtyped x -> length fr = length (x_frame x) -> xtyped (with_frame x fr).
Proof. unfold xtyped. destruct x; cbn. intros (? & ? & ?) ->. done. Qed.

Lemma do_normal_untyped s snd rcv sth rth sx rx prop use_local : snd <> rcv ->
  thr (ths s) !! snd = Some sth -> thr (ths s) !! rcv = Some rth -> xthr s !! snd = Some sx -> xthr s !! rcv = Some rx ->
  xtyped sx -> xtyped rx -> tag_typed (utcb_msgtag sth) = 0 ->
  do_normal_ipc snd rcv prop use_local s = Ret tt (delivered s rcv sth rth sx rx prop use_local).
Proof.
  intros Hne Hs Hr Hxs Hxr Ts Tr Ht. set (tag := utcb_msgtag sth) in *. unfold do_normal_ipc. pose proof (tag_untyped_range tag).
  assert (Hlr : (rcv < length (thr (ths s)))%nat) by (by eapply lookup_lt_Some).
  assert (Hlx : (rcv < length (xthr s))%nat) by (by eapply lookup_lt_Some).
  rewrite (proj2 (Nat.eqb_neq snd rcv) Hne). cbn [negb assert_]. kdo (eq_refl : ret tt s = Ret tt s). kdo thr_get_Ok. cbv zeta.
  fold tag. kdo set_mr0_Ok. set (s1 := set_ths s _).
  set (from := if prop then utcb_sender sth else if use_local then localid sth else _glob_id sth).
  set (rx1 := with_frame rx (<[F_syscall := from]> (x_frame rx))).
  set (s2 := set_xthr (set_ths s (put (ths s) rcv (got_thread sth rth prop use_local))) (<[rcv := rx1]> (xthr s))).
  assert (E : (if prop then scall_ipc_from rcv (utcb_sender sth) ;;;
      thr_mod rcv (fun th => with_sender th (if use_local then localid sth else _glob_id sth))
    else scall_ipc_from rcv (if use_local then localid sth else _glob_id sth)) s1 = Ret tt s2).
  { unfold scall_ipc_from, set_i. destruct prop.
    - kdo set_reg_Ok. rewrite (thr_mod_Ok _ rcv (with_utcb rth tag (utcb_error rth))).
      + unfold s2, s1, rx1. unfold put. ksimpl. by rewrite list_insert_insert_eq.
      + unfold s1; ksimpl. by rewrite list_lookup_insert_eq.
    - by rewrite (set_reg_Ok _ rcv rx). }
  rewrite (bind_ret _ _ _ _ _ E).
  assert (Tr1 : xtyped rx1) by (apply xtyped_frame; [done | by rewrite length_insert]).
  rewrite (bind_ret _ _ _ _ _ (copy_untyped_Ok snd rcv sx rx1 (Z.to_nat (tag_untyped tag)) Hne Ts Tr1 0 s2 ltac:(lia)
    ltac:(unfold s2; ksimpl; by rewrite list_lookup_insert_ne) ltac:(unfold s2; ksimpl; by rewrite list_lookup_insert_eq, words_0))).
  rewrite Ht. cbn [Z.eqb negb when ret]. unfold delivered, s2. ksimpl. by rewrite list_insert_insert_eq.
Qed.
End Transfer.

(** ** A send to a waiting receiver *)

Lemma find_num_put s u th th' n : thr s !! u = Some th -> _state th' = _state th -> find_num (put s u th') n = find_num s n.
Proof.
  intros Hu Hs. unfold find_num. destruct (_ && _); [| done]. cbn [put thr]. destruct (decide (Z.to_nat (n - Thread_number_min) = u)) as [-> | Hne].
  - rewrite list_lookup_insert_eq by (by eapply lookup_lt_Some). rewrite Hu, Hs. done.
  - by rewrite list_lookup_insert_ne by done.
Qed.

Lemma find_global s id t : thrid_is_global id = true -> find_num s (thrid_number id) = Some t -> find s id = Ok (Some t).
Proof. intros Hg Hf. unfold find. by rewrite Hg, Hf. Qed.

Lemma is_global_not_nil id : thrid_is_global id = true -> thrid_is_nil id = false.
Proof.
  unfold thrid_is_global, thrid_is_single, thrid_is_nil. destruct (Z.eqb_spec id Thrid_nil) as [-> |]; [| done]. done.
Qed.

(** A tag that is an ordinary message without typed items. *)
Record plain_tag (tag : Z) : Prop := {
  pl_typed : tag_typed tag = 0;
  pl_propagated : tag_propagated tag = false;
  pl_signal : tag_ipc_label tag <> 0x202 }.

Lemma plain_not_pf tag : plain_tag tag -> tag_is_pf_request tag || tag_is_io_pf_request tag = false.
Proof.
  intros [Ht _ _]. unfold tag_is_pf_request, tag_is_io_pf_request. rewrite Ht. change (0 =? 2) with false.
  by rewrite !andb_false_r.
Qed.

Section Send.
Context {CF : Config}.
Variables (s : kernel) (cur dst : nat) (cth dth : thread_t) (cx dx : xthread) (to tmo : Z).
Hypothesis Hne : cur <> dst.
Hypotheses (Hc : thr (ths s) !! cur = Some cth) (Hd : thr (ths s) !! dst = Some dth).
Hypotheses (Hcx : xthr s !! cur = Some cx) (Hdx : xthr s !! dst = Some dx) (Tc : xtyped cx) (Td : xtyped dx).
Hypotheses (Hg : thrid_is_global to = true) (Hf : find_num (ths s) (thrid_number to) = Some dst).
Hypothesis Hint : thrid_is_int to && (tag_untyped (utcb_msgtag cth) =? 1) = false.
Hypothesis Hpl : plain_tag (utcb_msgtag cth).

(** The receiver waits for this sender: the message is delivered and the
    receiver becomes ready. *)
Lemma ipc_send_good b r : _state dth = Receive_ipc -> is_good_sender dth cth = Ok (true, b) ->
  set_state (ths (delivered s dst cth dth cx dx false b)) dst Ready = Ok r ->
  ipc_send cur to tmo (utcb_msgtag cth) s = Ret (Some (Some dst)) (set_ths (delivered s dst cth dth cx dx false b) r).
Proof.
  intros Hs Hgood Er. set (tag := utcb_msgtag cth) in *. set (s1 := delivered s dst cth dth cx dx false b) in *.
  assert (Hld : (dst < length (thr (ths s)))%nat) by (by eapply lookup_lt_Some).
  unfold ipc_send. rewrite Hint. kdo ask_ths_Ok; [| by apply find_global]. kdo thr_get_Ok.
  unfold is_active. rewrite Hs. rewrite bool_decide_eq_false_2 by done. cbn [negb].
  rewrite (bool_decide_eq_false_2 (Receive_ipc = Active)) by done. cbn [andb]. rewrite plain_not_pf by done.
  rewrite (bool_decide_eq_false_2 (Receive_ipc = Receive_pfault)) by done.
  rewrite (bool_decide_eq_false_2 (Receive_ipc = Receive_exception)) by done. cbn [andb].
  rewrite (proj2 (Z.eqb_neq _ _) (pl_signal _ Hpl)). unfold send_normal. kdo thr_get_Ok. kdo thr_get_Ok.
  rewrite (pl_propagated _ Hpl). kdo (eq_refl : ret (cur, false) s = Ret (cur, false) s). cbn [fst snd]. kdo thr_get_Ok.
  rewrite Hs, bool_decide_eq_true_2 by done. kdo asks_Ok. cbn [fst snd].
  rewrite (bind_ret _ _ _ _ _ (do_normal_untyped s cur dst cth dth cx dx false b Hne Hc Hd Hcx Hdx Tc Td (pl_typed _ Hpl))).
  fold s1. unfold get_state. rewrite bind_assoc.
  assert (Hd1 : thr (ths s1) !! dst = Some (got_thread cth dth false b)).
  { unfold s1, delivered. ksimpl. by rewrite list_lookup_insert_eq. }
  kdo thr_get_Ok. kdo (eq_refl : ret (_state (got_thread cth dth false b)) s1 = _).
  assert (Hs1 : _state (got_thread cth dth false b) = Receive_ipc) by (rewrite <- Hs; by destruct dth).
  rewrite Hs1, bool_decide_eq_false_2 by done. cbn [negb when]. kdo state_Ok. done.
Qed.

(** No receiver: the error of the send phase. *)
Definition failed (phase err : Z) : kernel :=
  set_ths s (put (ths s) cur (with_utcb cth (tag_ipc_set_failed (utcb_msgtag cth)) (ipcerr_create 0 phase err 0))).

Lemma ipc_fail_Ok phase err : ipc_fail cur (utcb_msgtag cth) phase err s = Ret tt (failed phase err).
Proof using Hc.
  assert (Hlc : (cur < length (thr (ths s)))%nat) by (by eapply lookup_lt_Some).
  unfold ipc_fail. kdo set_error_Ok. erewrite set_mr0_Ok by (ksimpl; by rewrite list_lookup_insert_eq).
  unfold failed, put. ksimpl. rewrite list_insert_insert_eq. clear Hpl Hint. by destruct cth.
Qed.

(** The receiver does not wait for this sender and the sender does not wait. *)
Lemma ipc_send_busy : time_is_zero tmo = true ->
  (_state dth = Ready \/ _state dth = Receive_ipc /\ exists b, is_good_sender dth cth = Ok (false, b)) ->
  ipc_send cur to tmo (utcb_msgtag cth) s = Ret None (failed L4_snd_phase L4_ipc_timeout).
Proof.
  intros Hz Hs. set (tag := utcb_msgtag cth) in *.
  unfold ipc_send. rewrite Hint. kdo ask_ths_Ok; [| by apply find_global]. kdo thr_get_Ok.
  assert (Hst : _state dth = Ready \/ _state dth = Receive_ipc) by tauto.
  unfold is_active. rewrite bool_decide_eq_false_2 by (by destruct Hst as [-> | ->]). cbn [negb].
  rewrite (bool_decide_eq_false_2 (_state dth = Active)) by (by destruct Hst as [-> | ->]). cbn [andb]. rewrite plain_not_pf by done.
  rewrite (bool_decide_eq_false_2 (_state dth = Receive_pfault)) by (by destruct Hst as [-> | ->]).
  rewrite (bool_decide_eq_false_2 (_state dth = Receive_exception)) by (by destruct Hst as [-> | ->]). cbn [andb].
  rewrite (proj2 (Z.eqb_neq _ _) (pl_signal _ Hpl)). unfold send_normal. kdo thr_get_Ok. kdo thr_get_Ok.
  rewrite (pl_propagated _ Hpl). kdo (eq_refl : ret (cur, false) s = Ret (cur, false) s). cbn [fst snd]. kdo thr_get_Ok.
  destruct Hs as [Hs | [Hs (b & Hb)]].
  - rewrite Hs, bool_decide_eq_false_2 by done. kdo (eq_refl : ret (false, false) s = _). cbn [fst]. rewrite Hz.
    kdo ipc_fail_Ok. done.
  - rewrite Hs, bool_decide_eq_true_2 by done. kdo asks_Ok. cbn [fst]. rewrite Hz. kdo ipc_fail_Ok. done.
Qed.
End Send.

(** ** The system call *)

Section DoIpcSpec.
Context {CF : Config}.

(** The sender's tag with the error flag of an earlier call cleared. *)
Definition cleared (cth : thread_t) : thread_t := with_utcb cth (tag_ipc_set_ok (utcb_msgtag cth)) (utcb_error cth).
Definition begun (s : kernel) (cur : nat) (cth : thread_t) : kernel := set_ths s (put (ths s) cur (cleared cth)).

(** The registers of the call: a send to [to], no receive phase. *)
Record send_call (cx : xthread) (to tmo : Z) : Prop := {
  sc_to : x_frame cx !! F_syscall = Some to;
  sc_from : x_frame cx !! S F_syscall = Some Thrid_nil;
  sc_tmo : x_frame cx !! S (S F_syscall) = Some tmo }.

Lemma do_ipc_begin s cur cth cx to tmo : thr (ths s) !! cur = Some cth -> xthr s !! cur = Some cx ->
  send_call cx to tmo -> thrid_is_nil to = false ->
  do_ipc cur s = (r <- ipc_send cur to (timeouts_snd (timeouts_of_raw tmo)) (utcb_msgtag (cleared cth)) ;;
    match r with
    | None => ret tt
    | Some sp => th <- thr_get cur ;; ipc_switch cur sp None
    end) (begun s cur cth).
Proof.
  intros Hc Hx [H1 H2 H3] Hn. unfold do_ipc. kdo get_reg_Ok. kdo get_reg_Ok. kdo get_reg_Ok. kdo thr_get_Ok. cbv zeta.
  kdo set_mr0_Ok. rewrite Hn. cbn [negb].
  replace (utcb_msgtag (cleared cth)) with (tag_ipc_set_ok (utcb_msgtag cth)) by (by destruct cth).
  apply bind_ext. intros [sp|] s1; [| done]. by apply bind_ext.
Qed.

(** The end of the call after a send: the partner runs if its priority is higher. *)
Lemma ipc_switch_Ok s cur dst cth dth pmax : thr (ths s) !! cur = Some cth -> thr (ths s) !! dst = Some dth ->
  _state cth = Ready -> prio_max cth = Ok (prio cth) -> prio_max dth = Ok pmax -> 0 <= pmax ->
  ipc_switch cur (Some dst) None s = (if prio cth <? pmax then switch_thr dst s else Ret tt s).
Proof.
  intros Hc Hd Hs Hp Hpd H0. unfold ipc_switch. kdo thr_get_Ok. rewrite Hs, bool_decide_eq_true_2 by done.
  kdo (eq_refl : ret tt s = _). kdo ask_ths_Ok; [| by rewrite (get_ok _ _ _ Hc)]. rewrite Z.eqb_refl.
  kdo (eq_refl : ret tt s = _). unfold partner_prio. kdo ask_ths_Ok; [| by rewrite (get_ok _ _ _ Hd)].
  kdo (eq_refl : ret 0 s = _). rewrite (proj2 (Z.leb_le 0 pmax) H0).
  assert (Em : cmax pmax 0 = pmax) by (unfold cmax; destruct (Z.ltb_spec 0 pmax); lia). rewrite Em.
  by destruct (prio cth <? pmax).
Qed.

(** C2: a message without typed items to a receiver that waits for it: the
    tag, the untyped words and the sender's id are delivered to the receiver
    and nothing else of any thread, task or memory changes; the receiver
    becomes ready at the end of its ready list; if its priority (inherited
    ones included) is higher than the sender's the processor is switched to it
    at once, else the sender goes on. *)
Theorem ipc_rendezvous s cur dst cth dth cx dx to tmo pmax : inv (ths s) -> typed s -> cur <> dst ->
  thr (ths s) !! cur = Some cth -> thr (ths s) !! dst = Some dth -> xthr s !! cur = Some cx -> xthr s !! dst = Some dx ->
  send_call cx to tmo -> thrid_is_global to = true -> find_num (ths s) (thrid_number to) = Some dst ->
  thrid_is_int to = false -> plain_tag (utcb_msgtag (cleared cth)) ->
  _state cth = Ready -> prio_max cth = Ok (prio cth) ->
  _state dth = Receive_ipc -> is_good_sender dth cth = Ok (true, false) -> _prio_heir dth = Thrid_nil ->
  prio_max dth = Ok pmax -> 0 <= pmax ->
  let s1 := delivered (begun s cur cth) dst (cleared cth) dth cx dx false false in
  exists r it, set_state (ths s1) dst Ready = Ok r /\ inv r /\ moved (ths s1) dst (Some (QReady (prio dth))) r /\
    thr r !! dst = Some (with_heir (with_iter (entered (with_state (got_thread (cleared cth) dth false false) Ready)) it) Thrid_nil) /\
    do_ipc cur s = if prio cth <? pmax then switch_thr dst (set_ths s1 r) else Ret tt (set_ths s1 r).
Proof.
  intros I [_ T] Hne Hc Hd Hcx Hdx Hcall Hg Hf Hint Hpl Hsc Hpc Hsd Hgood Hheir Hpd Hp0 s1.
  assert (Hlc : (cur < length (thr (ths s)))%nat) by (by eapply lookup_lt_Some).
  assert (Hld : (dst < length (thr (ths s)))%nat) by (by eapply lookup_lt_Some).
  assert (Tc : xtyped cx) by (by eapply Forall_lookup_1). assert (Td : xtyped dx) by (by eapply Forall_lookup_1).
  set (s0 := begun s cur cth) in *. set (c0 := cleared cth) in *. set (d1 := got_thread c0 dth false false) in *.
  assert (Hc0 : thr (ths s0) !! cur = Some c0) by (unfold s0, begun; ksimpl; by rewrite list_lookup_insert_eq).
  assert (Hd0 : thr (ths s0) !! dst = Some dth) by (unfold s0, begun; ksimpl; by rewrite list_lookup_insert_ne).
  assert (Hc1 : thr (ths s1) !! cur = Some c0) by (unfold s1, delivered; ksimpl; by rewrite list_lookup_insert_ne).
  assert (Hd1 : thr (ths s1) !! dst = Some d1).
  { unfold s1, delivered. ksimpl. rewrite list_lookup_insert_eq; [done |]. unfold s0, begun. ksimpl. by rewrite length_insert. }
  assert (I1 : inv (ths s1)).
  { eapply put_same; [eapply put_same; [exact I | exact Hc | by destruct cth..] | exact Hd0 | by destruct dth..]. }
  assert (Hs1 : _state d1 = Receive_ipc) by (rewrite <- Hsd; unfold d1; by destruct dth).
  destruct (set_state_ok (ths s1) dst d1 Ready I1 Hd1) as (r & it & Er & Ir & Cr & Mr & Tr'); [congruence | rewrite <- Hheir; unfold d1; by destruct dth |].
  assert (Tr : thr r !! dst = Some (with_heir (with_iter (entered (with_state d1 Ready)) it) Thrid_nil)) by (rewrite Tr'; apply list_lookup_insert_eq; by eapply lookup_lt_Some).
  assert (Hq : queue_of (with_state d1 Ready) = Some (QReady (prio dth))) by (unfold d1; by destruct dth).
  exists r, it. split_and!; [done | done | by rewrite <- Hq | done |].
  rewrite (do_ipc_begin s cur cth cx to tmo Hc Hcx Hcall (is_global_not_nil to Hg)). fold s0 c0.
  assert (Hgood0 : is_good_sender dth c0 = Ok (true, false)) by (rewrite <- Hgood; unfold c0; by destruct cth).
  rewrite (bind_ret _ _ _ _ _ (ipc_send_good s0 cur dst c0 dth cx dx to _ Hne Hc0 Hd0 Hcx Hdx Tc Td Hg
    ltac:(unfold s0, begun; ksimpl; rewrite (find_num_put _ _ cth) by (done || by destruct cth); done)
    ltac:(by rewrite Hint) Hpl false r Hsd Hgood0 Er)).
  fold s1. set (s2 := set_ths s1 r). cbv beta iota.
  assert (Hc2 : thr (ths s2) !! cur = Some c0).
  { unfold s2. ksimpl. rewrite <- Hc1. eapply set_state_others; [exact I1 | exact Hd1 | | exact Er | done].
    rewrite <- Hheir. unfold d1. by destruct dth. }
  kdo thr_get_Ok. rewrite (ipc_switch_Ok s2 cur dst c0 _ pmax Hc2 Tr).
  - replace (prio c0) with (prio cth) by (unfold c0; by destruct cth). by destruct (prio cth <? pmax).
  - rewrite <- Hsc. unfold c0. by destruct cth.
  - unfold c0. by destruct cth.
  - rewrite <- Hpd. unfold d1. by destruct dth.
  - done.
Qed.

(** A send phase that fails ends the call, whatever the receive phase is. *)
Lemma do_ipc_ended s cur cth cx to from tmo s1 : thr (ths s) !! cur = Some cth -> xthr s !! cur = Some cx ->
  x_frame cx !! F_syscall = Some to -> x_frame cx !! S F_syscall = Some from -> x_frame cx !! S (S F_syscall) = Some tmo ->
  thrid_is_nil to = false ->
  ipc_send cur to (timeouts_snd (timeouts_of_raw tmo)) (utcb_msgtag (cleared cth)) (begun s cur cth) = Ret None s1 ->
  do_ipc cur s = Ret tt s1.
Proof.
  intros Hc Hx H1 H2 H3 Hn E. unfold do_ipc. kdo get_reg_Ok. kdo get_reg_Ok. kdo get_reg_Ok. kdo thr_get_Ok. cbv zeta.
  kdo set_mr0_Ok. rewrite Hn. cbn [negb].
  replace (utcb_msgtag (cleared cth)) with (tag_ipc_set_ok (utcb_msgtag cth)) in E by (by destruct cth). by kdo E.
Qed.

End DoIpcSpec.

(** ** Exceptions *)

Section Exceptions.
Context {CF : Config}.

Lemma copy_to_mr_Ok t l : forall i s x, 0 < i -> xthr s !! t = Some x -> (Z.to_nat (i - 1) + length l <= length (x_mr x))%nat ->
  copy_to_mr t i l s = Ret tt (set_xthr s (<[t := with_mr x (list_inserts (Z.to_nat (i - 1)) l (x_mr x))]> (xthr s))).
Proof.
  induction l as [|w l IH]; intros i s x Hi Hx Hl; cbn [copy_to_mr].
  { cbn [list_inserts]. rewrite list_insert_id; [by rewrite set_xthr_id |]. rewrite Hx. by destruct x. }
  cbn [length] in Hl. kdo set_mr_Ok; [| lia | lia]. set (x1 := with_mr x _).
  assert (Hlt : (t < length (xthr s))%nat) by (by eapply lookup_lt_Some).
  rewrite (IH (i + 1) _ x1); [| lia | ksimpl; by rewrite list_lookup_insert_eq | unfold x1; cbn [with_mr x_mr]; rewrite length_insert; lia].
  ksimpl. rewrite list_insert_insert_eq. replace (Z.to_nat (i + 1 - 1)) with (S (Z.to_nat (i - 1))) by lia.
  unfold x1. cbn [with_mr x_mr list_inserts]. rewrite list_insert_inserts_lt by lia. done.
Qed.

Lemma copy_from_mr_Ok t x s l : forall i, 0 < i -> xthr s !! t = Some x ->
  (forall j w, l !! j = Some w -> x_mr x !! (Z.to_nat (i - 1) + j)%nat = Some w) ->
  copy_from_mr t i (length l) s = Ret l s.
Proof.
  induction l as [|w l IH]; intros i Hi Hx Hl; cbn [length copy_from_mr]; [done |].
  kdo get_mr_Ok; [| lia | specialize (Hl 0%nat w eq_refl); by rewrite Nat.add_0_r in Hl]. kdo IH; [| lia |]; [done |].
  intros j v Hj. specialize (Hl (S j) v Hj). rewrite <- Hl. f_equal. lia.
Qed.

End Exceptions.

(** ** Page faults *)

Section Pagefaults.
Context {CF : Config}.

(** The pager's registers and UTCB after the message. *)
Definition pf_words (px : xthread) (id addr inst : Z) : xthread :=
  with_frame (with_mr px (addr :: inst :: drop 2 (x_mr px))) (<[F_syscall := id]> (x_frame px)).
Definition pf_delivered (s : kernel) (p : nat) (pth : thread_t) (px : xthread) (id addr acc inst : Z) : kernel :=
  set_xthr (set_ths s (put (ths s) p (with_utcb pth (tag_set_proto_pf 0 Pagefault acc 2 0) (utcb_error pth))))
    (<[p := pf_words px id addr inst]> (xthr s)).

Lemma do_pfault_Ok s t p th pth px addr acc inst : t <> p -> thr (ths s) !! t = Some th -> thr (ths s) !! p = Some pth ->
  xthr s !! p = Some px -> xtyped px -> acc <> 8 ->
  do_pfault_ipc t p addr acc inst s = Ret tt (pf_delivered s p pth px (_glob_id th) addr acc inst).
Proof.
  intros Hne Ht Hp Hx (Tp & _) Ha. unfold Mr_words in Tp.
  assert (Hl : (p < length (xthr s))%nat) by (by eapply lookup_lt_Some).
  destruct (x_mr px) as [|w0 [|w1 m]] eqn:Em; [simpl in Tp; lia.. |].
  unfold do_pfault_ipc. rewrite (proj2 (Nat.eqb_neq t p) Hne). cbn [negb assert_]. kdo (eq_refl : ret tt s = _).
  rewrite (proj2 (Z.eqb_neq acc 8) Ha). rewrite bind_assoc. kdo set_mr0_Ok. rewrite bind_assoc.
  kdo set_mr_Ok; [| rewrite Em; simpl; lia].
  kdo set_mr_Ok; [| ksimpl; by rewrite list_lookup_insert_eq | cbn [with_mr x_mr]; rewrite Em; simpl; lia].
  kdo thr_get_Ok; [| ksimpl; by rewrite list_lookup_insert_ne].
  unfold scall_ipc_from, set_i. erewrite set_reg_Ok by (ksimpl; rewrite list_insert_insert_eq; by rewrite list_lookup_insert_eq).
  unfold pf_delivered, pf_words. ksimpl. rewrite !list_insert_insert_eq. cbn [with_mr x_mr x_frame]. by rewrite Em.
Qed.

(** The faulting thread, with the data of its fault, before it waits. *)
Definition pf_waiting (th : thread_t) (pager addr acc inst : Z) : thread_t :=
  let th1 := with_pfault th (MkPf addr inst acc) in
  with_ipc th1 (MkIpc (timeout (_ipc th1)) (ipc_to (_ipc th1)) pager).

(** C4: a page fault of a ready thread whose pager waits for a message: the
    pager receives the fault address, the instruction, the access in the tag
    and the id of the thread and becomes ready; the thread records the fault
    and waits in Receive_pfault for its pager, in no list; no other thread,
    register or list changes; then the processor is switched to the pager. *)
Theorem pagefault_delivered s t p th pth x px addr acc inst : inv (ths s) -> typed s -> t <> p ->
  thr (ths s) !! t = Some th -> thr (ths s) !! p = Some pth -> xthr s !! t = Some x -> xthr s !! p = Some px ->
  _pager x = Some p -> _state th = Ready -> _state pth = Receive_ipc ->
  _prio_heir th = Thrid_nil -> _prio_heir pth = Thrid_nil -> acc <> 8 ->
  let s1 := pf_delivered s p pth px (_glob_id th) addr acc inst in
  exists r1 r2 it1 it2,
    set_state (ths s1) p Ready = Ok r1 /\
    set_state (put r1 t (pf_waiting th (_glob_id pth) addr acc inst)) t Receive_pfault = Ok r2 /\ inv r2 /\
    thr r2 !! p = Some (with_heir (with_iter (entered (with_state
      (with_utcb pth (tag_set_proto_pf 0 Pagefault acc 2 0) (utcb_error pth)) Ready)) it1) Thrid_nil) /\
    thr r2 !! t = Some (with_heir (with_iter (with_state (pf_waiting th (_glob_id pth) addr acc inst) Receive_pfault) it2) Thrid_nil) /\
    (forall u, u <> t -> u <> p -> thr r2 !! u = thr (ths s) !! u) /\
    process_pfault t addr acc inst s = switch_thr p (set_ths s1 r2).
Proof.
  intros I [_ T] Hne Ht Hp Hx Hpx Hpg Hst Hsp Hht Hhp Ha s1.
  assert (Tp : xtyped px) by (by eapply Forall_lookup_1).
  assert (Hlt : (t < length (thr (ths s)))%nat) by (by eapply lookup_lt_Some).
  assert (Hlp : (p < length (thr (ths s)))%nat) by (by eapply lookup_lt_Some).
  set (pth1 := with_utcb pth (tag_set_proto_pf 0 Pagefault acc 2 0) (utcb_error pth)).
  assert (I1 : inv (ths s1)) by (eapply put_same; [done | done | by destruct pth..]).
  assert (Hp1 : thr (ths s1) !! p = Some pth1) by (unfold s1, pf_delivered; ksimpl; by rewrite list_lookup_insert_eq).
  assert (Hh1 : _prio_heir pth1 = Thrid_nil) by (rewrite <- Hhp; by destruct pth).
  destruct (set_state_ok (ths s1) p pth1 Ready I1 Hp1) as (r1 & it1 & E1 & Ir1 & _ & _ & T1');
    [unfold pth1; destruct pth; cbn in *; congruence | done |].
  assert (Tp1 : thr r1 !! p = Some (with_heir (with_iter (entered (with_state pth1 Ready)) it1) Thrid_nil)) by (rewrite T1'; apply list_lookup_insert_eq; by eapply lookup_lt_Some).
  assert (O1 : forall u, u <> p -> thr r1 !! u = thr (ths s) !! u).
  { intros u Hu. rewrite (set_state_others _ p pth1 Ready r1 u I1 Hp1 Hh1 E1 Hu). unfold s1, pf_delivered. ksimpl.
    by rewrite list_lookup_insert_ne. }
  set (w := pf_waiting th (_glob_id pth) addr acc inst). assert (Ht1 : thr r1 !! t = Some th) by (by rewrite O1).
  assert (Hltr : (t < length (thr r1))%nat) by (by eapply lookup_lt_Some).
  assert (I2 : inv (put r1 t w)) by (eapply put_same; [done | done | by destruct th..]).
  assert (Hw : thr (put r1 t w) !! t = Some w) by (simpl; by rewrite list_lookup_insert_eq).
  assert (Hhw : _prio_heir w = Thrid_nil) by (rewrite <- Hht; by destruct th).
  destruct (set_state_ok (put r1 t w) t w Receive_pfault I2 Hw) as (r2 & it2 & E2 & Ir2 & _ & _ & T2');
    [unfold w; destruct th; cbn in *; congruence | done |].
  assert (Tt2 : thr r2 !! t = Some (with_heir (with_iter (entered (with_state w Receive_pfault)) it2) Thrid_nil)) by (rewrite T2'; apply list_lookup_insert_eq; by eapply lookup_lt_Some).
  assert (O2 : forall u, u <> t -> thr r2 !! u = thr r1 !! u).
  { intros u Hu. rewrite (set_state_others _ t w Receive_pfault r2 u I2 Hw Hhw E2 Hu). simpl. by rewrite list_lookup_insert_ne. }
  exists r1, r2, it1, it2. split_and!; [done | done | done | by rewrite O2 | | intros u Hu1 Hu2; rewrite O2, O1; done |].
  { rewrite Tt2. unfold w. by destruct th. }
  unfold process_pfault. kdo x_get_Ok. rewrite Hpg. unfold get_state. rewrite bind_assoc. kdo thr_get_Ok.
  kdo (eq_refl : ret (_state pth) s = _). kdo thr_get_Ok. rewrite Hsp, bool_decide_eq_true_2 by done.
  rewrite (bind_ret _ _ _ _ _ (do_pfault_Ok s t p th pth px addr acc inst Hne Ht Hp Hpx Tp Ha)). fold s1.
  kdo state_Ok. kdo thr_mod_Ok. kdo thr_mod_Ok; [| ksimpl; by rewrite list_lookup_insert_eq].
  cbv beta iota. match goal with |- bind _ _ ?st = _ =>
    replace st with (set_ths s1 (put r1 t w)) by (unfold put; ksimpl; by rewrite list_insert_insert_eq) end.
  by kdo state_Ok.
Qed.
End Pagefaults.

(** ** The loop over the typed items *)

(** Every result of a run, after any switches, satisfies [Phi]. *)
Fixpoint results {A} (Phi : A -> Prop) (p : proc A) : Prop :=
  match p with
  | Ret a _ => Phi a
  | Halt _ => True
  | Yield _ k => forall s, results Phi (k s)
  end.
Definition returns {A} (m : K A) (Phi : A -> Prop) : Prop := forall s, results Phi (m s).

Lemma results_bind {A B} (p : proc A) (f : A -> K B) Phi Psi : results Phi p -> (forall a, Phi a -> returns (f a) Psi) -> results Psi (pbind p f).
Proof. intros H Hf. induction p as [a s | e | s k IH]; simpl in *; [by apply Hf | done | auto]. Qed.

Lemma returns_bind {A B} (m : K A) (f : A -> K B) Phi Psi : returns m Phi -> (forall a, Phi a -> returns (f a) Psi) -> returns (bind m f) Psi.
Proof. intros H Hf s. eapply results_bind; [apply H | done]. Qed.

Lemma returns_any {A} (m : K A) : returns m (fun _ => True).
Proof. intros s. by induction (m s). Qed.

Lemma returns_ret {A} (a : A) (Phi : A -> Prop) : Phi a -> returns (ret a) Phi.
Proof. by intros H s. Qed.

Lemma returns_halt {A} e (Phi : A -> Prop) : returns (halt e) Phi.
Proof. by intros s. Qed.

(** Two continuations that agree on the results give the same run. *)
Lemma bind_ext_on {A B} (m : K A) (f g : A -> K B) Phi s : returns m Phi -> (forall a s1, Phi a -> f a s1 = g a s1) -> bind m f s = bind m g s.
Proof.
  intros H Hfg. unfold bind. specialize (H s). induction (m s) as [a s1 | e | s1 k IH]; simpl in *; [by apply Hfg | done |].
  f_equal. apply functional_extensionality. intros s'. by apply IH.
Qed.

Section TypedItems.
Context {CF : Config}.

Lemma string_item_advances snd rcv tag i last nb c :
  returns (string_item snd rcv tag i last nb c) (fun r => forall i' nb' c', r = Some (i', nb', c') -> i + 2 <= i').
Proof.
  unfold string_item. cbv zeta. repeat lazymatch goal with
    | |- returns (bind _ _) _ => eapply returns_bind; [apply returns_any | intros ? _]
    | |- returns (if ?b then _ else _) _ => destruct b eqn:?
    | |- returns panic _ => apply returns_halt
    | |- returns (halt _) _ => apply returns_halt
    | |- returns (ret _) _ => apply returns_ret
    end; intros i' nb' c' [= <- _ _].
  match goal with |- context [sitem_substring_number ?w] => assert (0 <= bf_get 4 5 w) by (by apply (bf_get_range 4 5 w)) end.
  unfold sitem_substring_number. lia.
Qed.

Lemma typed_items_fuel fuel snd rcv tag : forall i last nb c s, last < i + 2 * Z.of_nat fuel ->
  forall more, typed_items (fuel + more) snd rcv tag i last nb c s = typed_items fuel snd rcv tag i last nb c s.
Proof.
  induction fuel as [|f IH]; intros i last nb c s Hl more.
  { cbn [Nat.add]. destruct more; cbn [typed_items]; by rewrite (proj2 (Z.ltb_lt last i)) by lia. }
  cbn [Nat.add typed_items]. destruct (last <? i); [done |]. apply bind_ext. intros w0 s0.
  destruct (i =? last); [done |]. destruct (_ || _).
  - apply bind_ext. intros _ s1. apply IH. lia.
  - destruct (titem_is_string_item w0); [| done]. eapply bind_ext_on; [apply string_item_advances |].
    intros [[[i' nb'] c'] |] s1 Hr; [| done]. apply IH. specialize (Hr i' nb' c' eq_refl). lia.
Qed.

End TypedItems.
