(* ===== verification/SyscallSpec.v ===== *)
(** Authority and results of the system calls of [Syscalls]: what a refused
    call changes, who may schedule whom, and which pages a memory control call
    handles. *)

From Stdlib Require Import ZArith Lia Bool.
From stdpp Require Import base gmap list numbers.
From S2P Require Import Prelude SysUtils Bitmap ListSpec L4Types AddressSpace Kmem CString Threads Sched Mmu Ptable PtableSpec Aspace Task Kernel Ipc Syscalls Entry KernelInv KernelSafe IpcSpec.

Open Scope kernel_scope.

Section Calls.
Context {CF : Config}.
Variables (s : kernel) (cur : nat) (cth : thread_t) (cx : xthread).
Hypotheses (Hc : thr (ths s) !! cur = Some cth) (Hx : xthr s !! cur = Some cx) (Tx : xtyped cx).

(** The register of a call's first result. *)
Definition result (v : Z) : kernel :=
  set_xthr s (<[cur := with_frame cx (<[F_syscall := v]> (x_frame cx))]> (xthr s)).

(** A refused call: result 0 and an error code. *)
Definition refused (e : Z) : kernel := set_ths (result 0) (put (ths s) cur (with_utcb cth (utcb_msgtag cth) e)).

Lemma reg_Ok n : (n < 132)%nat -> exists v, get_reg cur n s = Ret v s /\ x_frame cx !! n = Some v.
Proof.
  intros Hn. destruct Tx as (_ & _ & Tf). unfold Frame_words in Tf. destruct (lookup_lt_is_Some_2 (x_frame cx) n) as (v & Hv); [lia |].
  exists v. split; [by eapply get_reg_Ok | done].
Qed.

Lemma set_i_Ok v : set_i cur 0 v s = Ret tt (result v).
Proof. by apply set_reg_Ok. Qed.

Lemma refuse_Ok e : set_error cur e (result 0) = Ret tt (refused e).
Proof. exact (set_error_Ok (result 0) cur cth e Hc). Qed.

(** C3: the privileged calls: thread_control, space_control and
    memory_control of a thread that is neither sigma0 nor the root task, with
    any arguments, return 0 with the error "no privilege" and change nothing
    else; exchange_registers on a thread that does not exist or belongs to
    another task is refused in the same way. *)
Theorem calls_refused : 
  (is_privileged cth = false ->
     syscall_thread_control cur s = Ret tt (refused 1) /\ syscall_space_control cur s = Ret tt (refused 1) /\
     syscall_memory_control cur s = Ret tt (refused 1)) /\
  (forall dst, x_frame cx !! F_syscall = Some dst ->
     (find (ths s) dst = Ok None \/
      exists d dth, find (ths s) dst = Ok (Some d) /\ thr (ths s) !! d = Some dth /\ _task dth <> _task cth) ->
     syscall_exchange_registers cur s = Ret tt (refused 2)).
Proof.
  assert (R : forall n, (n < 8)%nat -> exists v, get_i cur n s = Ret v s /\ x_frame cx !! (F_syscall + n)%nat = Some v)
    by (intros n Hn; apply (reg_Ok (F_syscall + n)); unfold F_syscall; lia).
  assert (G : forall n, (n < 8)%nat -> exists v, get_g cur n s = Ret v s /\ x_frame cx !! (F_globals + n)%nat = Some v)
    by (intros n Hn; apply (reg_Ok (F_globals + n)); unfold F_globals; lia).
  destruct (R 0%nat) as (v0 & R0 & F0), (R 1%nat) as (v1 & R1 & _), (R 2%nat) as (v2 & R2 & _), (R 3%nat) as (v3 & R3 & _),
    (R 4%nat) as (v4 & R4 & _), (R 5%nat) as (v5 & R5 & _), (G 4%nat) as (w4 & G4 & _), (G 5%nat) as (w5 & G5 & _); try lia.
  assert (Hc1 : thr (ths (result 0)) !! cur = Some cth) by done.
  split.
  - intros Hp. split_and!.
    + unfold syscall_thread_control. kdo R0. kdo R1. kdo R2. kdo R3. kdo R4. kdo set_i_Ok. kdo thr_get_Ok. rewrite Hp. apply refuse_Ok.
    + unfold syscall_space_control. kdo R0. kdo R2. kdo R3. kdo R4. kdo set_i_Ok. kdo thr_get_Ok. rewrite Hp. apply refuse_Ok.
    + unfold syscall_memory_control. kdo R0. kdo R1. kdo R2. kdo R3. kdo R4. kdo set_i_Ok. kdo thr_get_Ok. rewrite Hp. apply refuse_Ok.
  - intros dst Hdst Hf. rewrite Nat.add_0_r in F0. rewrite F0 in Hdst. injection Hdst as ->.
    unfold syscall_exchange_registers. kdo R0. kdo R1. kdo R3. kdo G5. kdo R4. kdo R5. kdo G4. kdo set_i_Ok.
    destruct Hf as [Hf | (d & dth & Hf & Hd & Hne)].
    + kdo ask_ths_Ok. unfold thr_task. rewrite bind_assoc. kdo thr_get_Ok. kdo (eq_refl : ret (_task cth) _ = Ret _ _).
      kdo (eq_refl : ret false _ = Ret _ _). apply refuse_Ok.
    + kdo ask_ths_Ok. unfold thr_task. rewrite bind_assoc. kdo thr_get_Ok. kdo (eq_refl : ret (_task cth) _ = Ret _ _).
      rewrite !bind_assoc. kdo thr_get_Ok. rewrite ?bind_assoc. kdo (eq_refl : ret (_task dth) _ = Ret _ _).
      rewrite (proj2 (Z.eqb_neq _ _) Hne). kdo (eq_refl : ret false _ = Ret _ _). apply refuse_Ok.
Qed.

(** ** schedule *)

Definition sched_code (st : state_t) : option Z :=
  match st with
  | Idle => None
  | Inactive => Some 2
  | Active | Ready => Some 3
  | Send_ipc | Send_pfault | Send_exception => Some 4
  | Receive_ipc | Receive_pfault | Receive_exception => Some 6
  end.

Lemma sched_result_Ok st r s1 : sched_code st = Some r -> sched_result st s1 = Ret r s1.
Proof. destruct st; simpl; intros [= <-]; done. Qed.

(** The results of a successful call. *)
Definition scheduled (r : threads) (code : Z) : kernel :=
  set_xthr (set_ths s r) (<[cur := with_frame cx (<[S F_syscall := Word_max]> (<[F_syscall := code]> (x_frame cx)))]> (xthr s)).

(** C11: schedule: only the scheduler of a thread may use it, only with a
    priority up to its own, and the error says which condition failed; a
    permitted call (nothing but a priority given) sets the priority, moves a
    ready thread to the end of the list of the new priority and keeps the
    lists consistent, and returns the code of the thread's state; the value -1
    that stands for "leave the priority as it is" is refused like any too high
    priority. *)
Theorem schedule_spec dst tc pc pr ec : x_frame cx !! F_syscall = Some dst -> x_frame cx !! S F_syscall = Some tc ->
  x_frame cx !! S (S F_syscall) = Some pc -> x_frame cx !! S (S (S F_syscall)) = Some pr ->
  x_frame cx !! S (S (S (S F_syscall))) = Some ec ->
  (find (ths s) dst = Ok None -> syscall_schedule cur s = Ret tt (refused 2)) /\
  (forall d dth, find (ths s) dst = Ok (Some d) -> thr (ths s) !! d = Some dth ->
     (_sched_id dth <> _glob_id cth -> syscall_schedule cur s = Ret tt (refused 1)) /\
     (_sched_id dth = _glob_id cth -> prio cth < pr -> syscall_schedule cur s = Ret tt (refused 5)) /\
     (_sched_id dth = _glob_id cth -> pr = Word_max -> syscall_schedule cur s = Ret tt (refused 5)) /\
     (_sched_id dth = _glob_id cth -> 0 <= pr <= prio cth -> tc = Word_max -> pc = Word_max -> ec = Word_max -> inv (ths s) ->
      forall code, sched_code (_state dth) = Some code -> exists r it,
        set_prio (ths s) d pr = Ok r /\ inv r /\ thr r = <[d := with_iter (with_prio dth pr) it]> (thr (ths s)) /\
        (if decide (_state dth = Ready) then moved (ths s) d (Some (QReady pr)) r else forall q, q_threads r q = q_threads (ths s) q) /\
        syscall_schedule cur s = Ret tt (scheduled r code))).
Proof.
  intros F0 F1 F2 F3 F4. pose proof (prio_range cth) as Hpr.
  assert (Hw : Word_max = 4294967295) by done.
  assert (St : forall o, find (ths s) dst = Ok o -> syscall_schedule cur s =
    match o with
    | None => set_error cur 2
    | Some d => dth <- thr_get d ;; cth <- thr_get cur ;;
      if negb (_sched_id dth =? _glob_id cth) then set_error cur 1
      else if prio cth <? pr then set_error cur 5
      else
        when (negb (tc =? Word_max)) panic ;;; when (negb (pc =? Word_max)) panic ;;;
        when (negb (pr =? Word_max)) (run_ths (fun s => set_prio s d pr)) ;;;
        when (negb (ec =? Word_max)) panic ;;;
        st <- get_state d ;; r <- sched_result st ;; set_i cur 0 r ;;; set_i cur 1 Word_max
    end (result 0)).
  { intros o Ho. unfold syscall_schedule. kdo get_reg_Ok. kdo get_reg_Ok. kdo get_reg_Ok. kdo get_reg_Ok. kdo get_reg_Ok.
    kdo set_i_Ok. by kdo ask_ths_Ok. }
  split; [intros Hf; rewrite (St None Hf); apply refuse_Ok |]. intros d dth Hf Hd. rewrite (St _ Hf). cbv iota.
  assert (Hd0 : thr (ths (result 0)) !! d = Some dth) by done. assert (Hc0 : thr (ths (result 0)) !! cur = Some cth) by done.
  rewrite (bind_ret _ _ _ _ _ (thr_get_Ok _ _ _ Hd0)). cbv beta. rewrite (bind_ret _ _ _ _ _ (thr_get_Ok _ _ _ Hc0)). cbv beta.
  assert (Hhi : prio cth < pr -> prio cth <? pr = true) by (apply Z.ltb_lt).
  split_and!.
  - intros Hne. rewrite (proj2 (Z.eqb_neq _ _) Hne). apply refuse_Ok.
  - intros -> Hlt. rewrite Z.eqb_refl. cbn [negb]. rewrite Hhi by done. apply refuse_Ok.
  - intros -> ->. rewrite Z.eqb_refl. cbn [negb]. rewrite Hhi by lia. apply refuse_Ok.
  - intros -> Hle -> -> -> I code Hcode. destruct (set_prio_ok (ths s) d dth pr I Hd) as (r & Er & Ir & _ & Mr & it & Tr).
    assert (Ep : u8 pr = pr) by (apply wrap_small; unfold in_range; lia). rewrite Ep in *.
    exists r, it. split_and!; [done | done | done | done |].
    rewrite Z.eqb_refl. cbn [negb]. rewrite (proj2 (Z.ltb_ge _ _)) by lia. rewrite Z.eqb_refl. cbn [negb when].
    kdo (eq_refl : ret tt _ = Ret _ _). kdo (eq_refl : ret tt _ = Ret _ _).
    rewrite (proj2 (Z.eqb_neq pr Word_max)) by lia. cbn [negb].
    kdo run_ths_Ok. kdo (eq_refl : ret tt _ = Ret _ _). unfold get_state. rewrite bind_assoc.
    kdo thr_get_Ok; [| ksimpl; rewrite Tr; by rewrite list_lookup_insert_eq by (by eapply lookup_lt_Some)].
    kdo (eq_refl : ret _ _ = Ret _ _). replace (_state (with_iter (with_prio dth pr) it)) with (_state dth) by (by destruct dth).
    kdo sched_result_Ok. assert (Hlx : (cur < length (xthr s))%nat) by (by eapply lookup_lt_Some).
    unfold set_i. kdo set_reg_Ok; [| unfold result; ksimpl; by rewrite list_lookup_insert_eq].
    erewrite set_reg_Ok by (unfold result; ksimpl; rewrite list_insert_insert_eq; by rewrite list_lookup_insert_eq).
    unfold scheduled, result. ksimpl. rewrite !list_insert_insert_eq. rewrite Nat.add_0_r.
    replace (F_syscall + 1)%nat with (S F_syscall) by lia. cbn [with_frame x_frame]. by rewrite list_insert_insert_eq.
Qed.

(** ** memory_control *)

Lemma control_pages control : in_range 32 control -> u32 (Z.ldiff control 0x3f + 1) =
  if control <? 64 then 1 else u32 (control - control mod 64 + 1).
Proof.
  intros [H0 H1]. change 0x3f with (Z.ones 6). rewrite Z.ldiff_ones_r by lia. rewrite Z.shiftr_div_pow2, Z.shiftl_mul_pow2 by lia.
  change (2 ^ 6) with 64. pose proof (Z.div_mod control 64 ltac:(lia)). destruct (Z.ltb_spec control 64) as [Hl | Hl].
  - by rewrite Z.div_small by lia.
  - f_equal. lia.
Qed.

(** C13: memory_control handles exactly one page: the code takes the number of
    pages from the upper bits of the control word, so with a count of 0 to 63
    in the low six bits only the first page of the message is looked at, and
    every control word from 64 on is refused as a bad parameter. *)
Theorem memory_control_one_page control a0 a1 a2 a3 : is_privileged cth = true -> in_range 32 control ->
  x_frame cx !! F_syscall = Some control -> x_frame cx !! S F_syscall = Some a0 -> x_frame cx !! S (S F_syscall) = Some a1 ->
  x_frame cx !! S (S (S F_syscall)) = Some a2 -> x_frame cx !! S (S (S (S F_syscall))) = Some a3 ->
  a0 <= 1 -> a1 <= 1 -> a2 <= 1 -> a3 <= 1 ->
  syscall_memory_control cur s =
    (if control <? 64 then ok <- set_attribs cur [a0; a1; a2; a3] 0 1 ;; when ok (set_i cur 0 1)
     else set_error cur 5) (result 0).
Proof.
  intros Hp Hr F0 F1 F2 F3 F4 H0 H1 H2 H3. unfold syscall_memory_control.
  kdo get_reg_Ok. kdo get_reg_Ok. kdo get_reg_Ok. kdo get_reg_Ok. kdo get_reg_Ok. kdo set_i_Ok. kdo thr_get_Ok.
  rewrite Hp. cbn [negb]. cbv zeta. rewrite control_pages by done.
  rewrite (proj2 (Z.ltb_ge 1 a0)), (proj2 (Z.ltb_ge 1 a1)), (proj2 (Z.ltb_ge 1 a2)), (proj2 (Z.ltb_ge 1 a3)) by done.
  rewrite !orb_false_r. destruct (Z.ltb_spec control 64) as [Hl | Hl]; [done |].
  assert (Hn : Fpages_max <? u32 (control - control mod 64 + 1) = true); [| by rewrite Hn].
  apply Z.ltb_lt. pose proof (Z.div_mod control 64 ltac:(lia)). pose proof (Z.mod_pos_bound control 64 ltac:(lia)).
  destruct Hr as [_ Hr]. rewrite wrap_small; unfold Fpages_max, in_range; [|]; assert (1 <= control / 64) by (apply Z.div_le_lower_bound; lia); lia.
Qed.
End Calls.
