(* ===== verification/TaskSpec.v ===== *)
(** The UTCB pages of a task: the abstract contents of the UTCB area, and the
    allocation and release of pages by [Task]. *)

From Stdlib Require Import ZArith Lia Bool.
From stdpp Require Import base gmap list numbers.
From S2P Require Import Prelude SysUtils Bitmap ListSpec L4Types AddressSpace Kmem Mmu Ptable PtableSpec Aspace Task.

(** The pages of the UTCB area in use. *)
Definition utcb_page (t : task) (a : Z) : Prop :=
  exists i, 0 <= i < Bitmap.capacity (_utcbs_bitmap t) /\ a = fpage_addr (_utcb_area t) + i * Cfg_page_sz /\
    Bitmap.bit (_utcbs_bitmap t) i = true.

(** A configured area of at most 64 pages below the end of memory. *)
Record utcb_wf (t : task) : Prop := {
  u_bitmap : Bitmap.wf 64 (_utcbs_bitmap t);
  u_area : 0 < fpage_addr (_utcb_area t) /\ 0 < fpage_size (_utcb_area t);
  u_size : Bitmap.capacity (_utcbs_bitmap t) * Cfg_page_sz = fpage_size (_utcb_area t);
  u_end : fpage_addr (_utcb_area t) + fpage_size (_utcb_area t) <= 2 ^ 32 }.

Lemma utcb_nonempty t : utcb_wf t -> nonempty_fpage (_utcb_area t) = true.
Proof.
  intros [_ [H1 H2] _ _]. unfold nonempty_fpage. by rewrite (proj2 (Z.eqb_neq _ 0)), (proj2 (Z.eqb_neq _ 0)) by lia.
Qed.

Lemma utcb_wf_with t b : utcb_wf t -> Bitmap.wf 64 b -> Bitmap.capacity b = Bitmap.capacity (_utcbs_bitmap t) -> utcb_wf (with_utcbs t b).
Proof. intros [H1 H2 H3 H4] W E. split; simpl; [done | done | by rewrite E | done]. Qed.

Lemma count_all f n : count_upto f n = Z.of_nat n -> forall q, 0 <= q < Z.of_nat n -> f q = true.
Proof.
  induction n as [|n IH]; intros E q Hq; [lia |]. cbn [count_upto] in E. pose proof (count_upto_bounds f n) as Hb.
  destruct (Z.eq_dec q (Z.of_nat n)) as [-> | Hn].
  - destruct (f (Z.of_nat n)); [done | simpl in E; lia].
  - apply IH; [destruct (f (Z.of_nat n)); simpl in E; lia | lia].
Qed.

(** A full area has every page in use. *)
Lemma full_pages t i : utcb_wf t -> is_full t = true -> 0 <= i < Bitmap.capacity (_utcbs_bitmap t) ->
  utcb_page t (fpage_addr (_utcb_area t) + i * Cfg_page_sz).
Proof.
  intros W Hf Hi. exists i. split_and!; [lia | lia | done |]. apply Z.eqb_eq in Hf.
  apply (count_all _ (Z.to_nat (Bitmap.capacity (_utcbs_bitmap t)))); [| lia].
  rewrite <- (Bitmap.wf_count 64 _ (u_bitmap t W)), Hf. lia.
Qed.

Lemma alloc_utcb t : utcb_wf t ->
  (exists a t', alloc_utcb_uspace t = Ok (a, t') /\ a <> 0 /\ ~ utcb_page t a /\ utcb_wf t' /\
     fpage_addr (_utcb_area t) <= a /\ a + Cfg_page_sz <= fpage_addr (_utcb_area t) + fpage_size (_utcb_area t) /\
     (Cfg_page_sz | a - fpage_addr (_utcb_area t)) /\
     (forall x, utcb_page t' x <-> x = a \/ utcb_page t x) /\ t' = with_utcbs t (_utcbs_bitmap t')) \/
  (alloc_utcb_uspace t = Ok (0, t) /\ is_full t = true).
Proof.
  intros W. pose proof W as [B [A1 A2] S E]. unfold alloc_utcb_uspace. rewrite utcb_nonempty by done. cbn [wassert mbind res_bind].
  assert (Hp : Cfg_page_sz = 4096) by done.
  destruct (Bitmap.getfree_spec 64 _ B) as [(p & b' & -> & Hpc & Hf & _ & B' & Hc & Hn & Hb) | (-> & Hn & _)]; cbn [mbind res_bind fst snd].
  - left. destruct (Z.ltb_spec p 0); [lia |].
    assert (Hr : u32 (fpage_addr (_utcb_area t) + p * Cfg_page_sz) = fpage_addr (_utcb_area t) + p * Cfg_page_sz).
    { apply wrap_small. unfold in_range. nia. }
    rewrite Hr. eexists _, _. split; [done |]. split_and!.
    + nia.
    + intros (i & Hi & Ei & Hbi). assert (i = p) by nia. congruence.
    + by apply utcb_wf_with.
    + nia.
    + nia.
    + exists p. lia.
    + intros x. unfold utcb_page. simpl. rewrite Hc. split.
      * intros (i & Hi & -> & Hbi). rewrite Hb in Hbi by lia. destruct (Z.eqb_spec i p) as [-> |]; [by left |]. right. eauto.
      * intros [-> | (i & Hi & -> & Hbi)]; [exists p | exists i]; (split_and!; [lia | lia | done |]); rewrite Hb by lia.
        -- by rewrite Z.eqb_refl.
        -- rewrite Hbi. apply orb_true_r.
    + done.
  - right. split; [by destruct t |]. unfold is_full. rewrite Hn. apply Z.eqb_refl.
Qed.

Lemma free_utcb t a : utcb_wf t -> utcb_page t a -> exists t', free_utcb_uspace t a = Ok t' /\ utcb_wf t' /\
  (forall x, utcb_page t' x <-> utcb_page t x /\ x <> a) /\ t' = with_utcbs t (_utcbs_bitmap t').
Proof.
  intros W (i & Hi & -> & Hb). pose proof W as [B [A1 A2] S E]. unfold free_utcb_uspace. rewrite utcb_nonempty by done.
  cbn [wassert mbind res_bind]. assert (Hp : Cfg_page_sz = 4096) by done.
  rewrite (proj2 (Z.leb_le _ _)) by nia. cbn [wassert mbind res_bind]. cbv zeta.
  replace ((fpage_addr (_utcb_area t) + i * Cfg_page_sz - fpage_addr (_utcb_area t)) / Cfg_page_sz) with i
    by (rewrite Z.add_simpl_l; symmetry; apply Z.div_mul; lia).
  destruct (Bitmap.clear_spec 64 _ i B Hi) as (b' & -> & B' & Hc & _ & Hb'). cbn [mbind res_bind fst snd wassert Z.eqb].
  eexists. split; [done |]. split_and!; [by apply utcb_wf_with | | done]. intros x. unfold utcb_page. simpl. rewrite Hc. split.
  - intros (j & Hj & -> & Hbj). rewrite Hb' in Hbj by lia. apply andb_true_iff in Hbj as [H1%negb_true_iff%Z.eqb_neq H2].
    split; [eauto | nia].
  - intros [(j & Hj & -> & Hbj) Hne]. exists j. split_and!; [lia | lia | done |]. rewrite Hb' by lia. rewrite Hbj, andb_true_r.
    apply negb_true_iff, Z.eqb_neq. intros ->. done.
Qed.

(** C12: the UTCB pages of a task: allocation in a configured area either
    returns the address of a page of the area that was not in use, which is
    then in use and all other pages as before, or, exactly when the area is
    full, 0 with no change; a page in use can be given back, and then exactly
    it is free; giving back the page just allocated restores the set of pages
    in use; and the area stays well formed. *)
Theorem utcb_pages_correct t : utcb_wf t ->
  match alloc_utcb_uspace t with
  | Stop _ => False
  | Ok (a, t') =>
      utcb_wf t' /\
      (if is_full t then a = 0 /\ t' = t
       else a <> 0 /\ ~ utcb_page t a /\ fpage_addr (_utcb_area t) <= a /\
         a + Cfg_page_sz <= fpage_addr (_utcb_area t) + fpage_size (_utcb_area t) /\
         (Cfg_page_sz | a - fpage_addr (_utcb_area t)) /\
         (forall x, utcb_page t' x <-> x = a \/ utcb_page t x) /\
         exists t2, free_utcb_uspace t' a = Ok t2 /\ utcb_wf t2 /\ forall x, utcb_page t2 x <-> utcb_page t x)
  end /\
  (forall a, utcb_page t a -> exists t', free_utcb_uspace t a = Ok t' /\ utcb_wf t' /\ is_full t' = false /\
     forall x, utcb_page t' x <-> utcb_page t x /\ x <> a).
Proof.
  intros W. split.
  - destruct (alloc_utcb t W) as [(a & t' & -> & Ha & Hn & W' & H1 & H2 & H3 & Hp & Et) | [-> Hf]].
    + assert (Hnf : is_full t = false).
      { apply not_true_iff_false. intros Hf. apply Hn. destruct H3 as (i & Hi). pose proof (u_size t W) as S.
        assert (Cfg_page_sz = 4096) by done. replace a with (fpage_addr (_utcb_area t) + i * Cfg_page_sz) by lia.
        apply full_pages; [done | done | nia]. }
      rewrite Hnf. split; [done |]. split_and!; try done. destruct (free_utcb t' a W') as (t2 & E & W2 & P2 & _); [by apply Hp; left |].
      exists t2. split_and!; [done | done |]. intros x. rewrite P2, Hp. split.
      * intros [[-> | ?] ?]; done.
      * intros Hx. split; [by right |]. intros ->. done.
    + rewrite Hf. done.
  - intros a Ha. destruct (free_utcb t a W Ha) as (t' & E & W' & P & Et). exists t'. split_and!; try done.
    apply not_true_iff_false. intros Hf. destruct Ha as (i & Hi & -> & Hb).
    assert (Hno : ~ utcb_page t' (fpage_addr (_utcb_area t) + i * Cfg_page_sz)) by (rewrite P; tauto).
    apply Hno. rewrite <- (f_equal _utcb_area Et : _utcb_area t' = _utcb_area t). apply full_pages; [done | done |].
    destruct W as [_ _ S _], W' as [_ _ S' _]. rewrite Et in S'. simpl in S'. assert (Cfg_page_sz = 4096) by done. nia.
Qed.
