(* ===== verification/CopySpec.v ===== *)
(** The copying of strings between address spaces: on every alignment
    memcpy_phys_dst and memcpy_phys_src of krn/ipc.cpp do what a plain copy
    byte by byte does. *)

From Stdlib Require Import ZArith Lia Bool.
From stdpp Require Import base gmap list numbers.
From S2P Require Import Prelude SysUtils Bitmap ListSpec L4Types AddressSpace Kmem CString Threads Mmu Ptable PtableSpec Aspace Task Kernel Ipc.

(** The reference: bytes written one after the other. *)
Fixpoint write (m : mem) (a : Z) (l : list Z) : mem :=
  match l with
  | [] => m
  | b :: l' => write (<[a := b]> m) (a + 1) l'
  end.

Definition mapped_range (m : mem) (lo hi : Z) : Prop := forall x, lo <= x < hi -> is_Some (m !! x).

Lemma write_lookup l : forall m a x, write m a l !! x =
  if bool_decide (a <= x < a + Z.of_nat (length l)) then l !! Z.to_nat (x - a) else m !! x.
Proof.
  induction l as [|b l IH]; intros m a x; cbn [write length].
  { rewrite bool_decide_eq_false_2 by lia. done. }
  rewrite IH. destruct (decide (x = a)) as [-> | Hx].
  - rewrite bool_decide_eq_false_2 by lia. rewrite bool_decide_eq_true_2 by lia. by rewrite lookup_insert_eq, Z.sub_diag.
  - rewrite lookup_insert_ne by done. destruct (decide (a + 1 <= x < a + 1 + Z.of_nat (length l))) as [H | H].
    + rewrite !bool_decide_eq_true_2 by lia. replace (Z.to_nat (x - a)) with (S (Z.to_nat (x - (a + 1)))) by lia. done.
    + rewrite !bool_decide_eq_false_2 by lia. done.
Qed.

Lemma write_mapped m a l lo hi : mapped_range m lo hi -> mapped_range (write m a l) lo hi.
Proof.
  intros H x Hx. rewrite write_lookup. destruct (decide (a <= x < a + Z.of_nat (length l))) as [H1 | H1].
  - rewrite bool_decide_eq_true_2 by done. apply lookup_lt_is_Some_2. lia.
  - rewrite bool_decide_eq_false_2 by done. by apply H.
Qed.

Lemma write_app l1 : forall l2 m a, write m a (l1 ++ l2) = write (write m a l1) (a + Z.of_nat (length l1)) l2.
Proof.
  induction l1 as [|b l1 IH]; intros l2 m a; cbn [app write length]; [by rewrite Z.add_0_r |]. rewrite IH. f_equal. lia.
Qed.

Lemma store_bytes_write l : forall m a, mapped_range m a (a + Z.of_nat (length l)) -> store_bytes m a l = Ok (write m a l).
Proof.
  induction l as [|b l IH]; intros m a H; cbn [store_bytes write length] in *; [done |]. unfold storeb, loadb.
  destruct (H a ltac:(lia)) as (v & ->). cbn [from_opt mbind res_bind]. apply IH. intros x Hx.
  destruct (decide (x = a)) as [-> |]; [by rewrite lookup_insert_eq | rewrite lookup_insert_ne by done; apply H; lia].
Qed.

Lemma load_bytes_range m n : forall a l, load_bytes m a n = Ok l -> length l = n /\ forall i, (i < n)%nat -> m !! (a + Z.of_nat i) = l !! i.
Proof.
  induction n as [|n IH]; intros a l E; cbn [load_bytes] in E; [injection E as <-; split; [done | lia] |].
  apply bind_Ok in E as (b & Eb & E). apply bind_Ok in E as (t & Et & E). injection E as <-.
  destruct (IH _ _ Et) as [Hl Hi]. split; [simpl; lia |]. intros [|i] Hn.
  - unfold loadb in Eb. rewrite Z.add_0_r. destruct (m !! a); [| discriminate Eb]. by injection Eb as ->.
  - simpl. rewrite <- Hi by lia. f_equal. lia.
Qed.

Lemma load_bytes_mapped m n : forall a, mapped_range m a (a + Z.of_nat n) -> exists l, load_bytes m a n = Ok l.
Proof.
  induction n as [|n IH]; intros a H; cbn [load_bytes]; [eauto |]. unfold loadb. destruct (H a ltac:(lia)) as (v & ->).
  cbn [from_opt mbind res_bind]. destruct (IH (a + 1)) as (l & ->); [intros x Hx; apply H; lia |]. eauto.
Qed.

(** A byte changed in its word: the other bytes are stored as they were. *)
Lemma store_phys_byte_Ok m v a : mapped_range m (a - a mod 4) (a - a mod 4 + 4) -> store_phys_byte m v a = Ok (<[a := v]> m).
Proof.
  intros H. pose proof (Z.mod_pos_bound a 4 ltac:(lia)). unfold store_phys_byte. cbv zeta. set (base := a - a mod 4) in *.
  destruct (load_bytes_mapped m 4 base H) as (w & E). rewrite E. cbn [mbind res_bind].
  destruct (load_bytes_range m 4 base w E) as [Hl Hi].
  rewrite store_bytes_write by (rewrite length_insert, Hl; exact H). f_equal. apply map_eq. intros x. rewrite write_lookup, length_insert, Hl.
  destruct (decide (base <= x < base + Z.of_nat 4)) as [Hx | Hx].
  - rewrite bool_decide_eq_true_2 by done. destruct (decide (x = a)) as [-> | Hn].
    + rewrite lookup_insert_eq. apply list_lookup_insert_eq. lia.
    + rewrite lookup_insert_ne by done. rewrite list_lookup_insert_ne by lia. rewrite <- Hi by lia. f_equal. lia.
  - rewrite bool_decide_eq_false_2 by done. rewrite lookup_insert_ne; [done |]. unfold base in Hx. lia.
Qed.

Lemma load_phys_byte_Ok m a : mapped_range m (a - a mod 4) (a - a mod 4 + 4) -> load_phys_byte m a = loadb m a.
Proof.
  intros H. pose proof (Z.mod_pos_bound a 4 ltac:(lia)). unfold load_phys_byte. cbv zeta. set (base := a - a mod 4) in *.
  destruct (load_bytes_mapped m 4 base H) as (w & E). rewrite E. cbn [mbind res_bind].
  destruct (load_bytes_range m 4 base w E) as [Hl Hi]. unfold loadb. rewrite <- Hi by lia. do 2 f_equal. unfold base. lia.
Qed.

(** ** The loops *)

Section Copy.
Context {CF : Config} (s : kernel).

(** No byte of [n] bytes at the address [va], as translated for [ok], is in the range. *)
Definition apart (ok : Z -> bool) (va : Z) (n : nat) (lo hi : Z) : Prop :=
  forall i pa, (i < n)%nat -> vtranslate s ok (va + Z.of_nat i) = Ok pa -> ~ (lo <= pa < hi).

Lemma apart_tail ok va n k lo hi lo' hi' : apart ok va (k + n) lo hi -> lo <= lo' -> hi' <= hi ->
  apart ok (va + Z.of_nat k) n lo' hi'.
Proof.
  intros H H1 H2 i pa Hi E Hr. apply (H (k + i)%nat pa); [lia | | lia]. rewrite <- E. f_equal. lia.
Qed.

Lemma apart_le ok va n k lo hi lo' hi' : apart ok va (k + n) lo hi -> lo <= lo' -> hi' <= hi -> apart ok va k lo' hi'.
Proof. intros H H1 H2 i pa Hi E Hr. apply (H i pa); [lia | done | lia]. Qed.

Lemma vload_write n : forall m va a l, apart kread_ok va n a (a + Z.of_nat (length l)) -> vload s (write m a l) va n = vload s m va n.
Proof.
  induction n as [|n IH]; intros m va a l H; cbn [vload]; [done |].
  destruct (vtranslate s kread_ok va) as [pa|] eqn:E; cbn [mbind res_bind]; [| done].
  assert (Hpa : ~ (a <= pa < a + Z.of_nat (length l))) by (apply (H 0%nat pa); [lia | by rewrite Z.add_0_r]).
  unfold loadb. rewrite write_lookup, bool_decide_eq_false_2 by done. destruct (m !! pa); cbn [from_opt mbind res_bind]; [| done].
  rewrite IH; [done |]. apply (apart_tail kread_ok va n 1 a (a + Z.of_nat (length l))); [done | lia | lia].
Qed.

Lemma vload_app n1 : forall n2 m va, vload s m va (n1 + n2) =
  l1 ← vload s m va n1; l2 ← vload s m (va + Z.of_nat n1) n2; Ok (l1 ++ l2).
Proof.
  induction n1 as [|n1 IH]; intros n2 m va; cbn [Nat.add vload].
  { cbn [mbind res_bind]. rewrite Z.add_0_r. by destruct (vload s m va n2). }
  destruct (vtranslate s kread_ok va); cbn [mbind res_bind]; [| done]. destruct (loadb m a); cbn [mbind res_bind]; [| done].
  rewrite IH. replace (va + 1 + Z.of_nat n1) with (va + Z.of_nat (S n1)) by lia.
  destruct (vload s m (va + 1) n1); cbn [mbind res_bind]; [| done]. by destruct (vload s m (va + Z.of_nat (S n1)) n2).
Qed.

Lemma vload_length n : forall m va l, vload s m va n = Ok l -> length l = n.
Proof.
  induction n as [|n IH]; intros m va l E; cbn [vload] in E; [by injection E as <- |].
  do 2 apply bind_Ok in E as (? & _ & E). apply bind_Ok in E as (l' & E' & E). injection E as <-. simpl. by rewrite (IH _ _ _ E').
Qed.

Lemma vstore_app l1 : forall l2 m va, vstore s m va (l1 ++ l2) =
  m1 ← vstore s m va l1; vstore s m1 (va + Z.of_nat (length l1)) l2.
Proof.
  induction l1 as [|b l1 IH]; intros l2 m va; cbn [app vstore length]; [cbn [mbind res_bind]; by rewrite Z.add_0_r |].
  destruct (vtranslate s kwrite_ok va); cbn [mbind res_bind]; [| done]. destruct (storeb m a b); cbn [mbind res_bind]; [| done].
  rewrite IH. by replace (va + 1 + Z.of_nat (length l1)) with (va + Z.of_nat (S (length l1))) by lia.
Qed.

(** *** To a physical destination *)

Lemma phys_dst_words_Ok n : forall m src dst l, vload s m src (4 * n) = Ok l ->
  apart kread_ok src (4 * n) dst (dst + 4 * Z.of_nat n) -> mapped_range m dst (dst + 4 * Z.of_nat n) ->
  phys_dst_words s n m src dst = Ok (write m dst l).
Proof.
  induction n as [|n IH]; intros m src dst l E Ha Hm; cbn [phys_dst_words]; [by injection E as <- |].
  replace (4 * S n)%nat with (4 + 4 * n)%nat in E, Ha by lia. rewrite vload_app in E. apply bind_Ok in E as (l1 & E1 & E).
  apply bind_Ok in E as (l2 & E2 & E). injection E as <-. rewrite E1. cbn [mbind res_bind]. pose proof (vload_length _ _ _ _ E1) as L1.
  rewrite store_bytes_write by (rewrite L1; intros x Hx; apply Hm; lia). cbn [mbind res_bind].
  change (Z.of_nat 4) with 4 in E2. rewrite write_app, L1. apply IH.
  - rewrite vload_write; [done |]. rewrite L1. apply (apart_tail _ src (4 * n) 4 dst (dst + 4 * Z.of_nat (S n))); [done | lia | lia].
  - apply (apart_tail _ src (4 * n) 4 dst (dst + 4 * Z.of_nat (S n))); [done | lia | lia].
  - apply write_mapped. intros x Hx. apply Hm. lia.
Qed.

(** The words that hold the bytes of a range are mapped. *)
Definition mapped_words (m : mem) (lo hi : Z) : Prop := mapped_range m (lo - lo mod 4) (hi + 3 - (hi + 3) mod 4).

Lemma phys_dst_bytes_Ok n : forall m src dst l, vload s m src n = Ok l ->
  apart kread_ok src n dst (dst + Z.of_nat n) -> mapped_words m dst (dst + Z.of_nat n) ->
  phys_dst_bytes s n m src dst = Ok (write m dst l).
Proof.
  induction n as [|n IH]; intros m src dst l E Ha Hm; cbn [phys_dst_bytes]; [by injection E as <- |].
  change (S n) with (1 + n)%nat in E, Ha. rewrite vload_app in E. apply bind_Ok in E as (l1 & E1 & E).
  apply bind_Ok in E as (l2 & E2 & E). injection E as <-. rewrite E1. cbn [mbind res_bind]. pose proof (vload_length _ _ _ _ E1) as L1.
  destruct l1 as [|b [|? ?]]; [done | | done]. cbn [hd]. unfold mapped_words in Hm.
  rewrite store_phys_byte_Ok by (intros x Hx; apply Hm; Z.to_euclidean_division_equations; lia). cbn [mbind res_bind app write].
  change (<[dst := b]> m) with (write m dst [b]). apply IH.
  - change (Z.of_nat 1) with 1 in E2. rewrite vload_write; [done |].
    apply (apart_tail _ src n 1 dst (dst + Z.of_nat (S n))); [done | lia | simpl; lia].
  - apply (apart_tail _ src n 1 dst (dst + Z.of_nat (S n))); [done | lia | lia].
  - apply write_mapped. intros x Hx. apply Hm. replace (dst + 1 + Z.of_nat n) with (dst + Z.of_nat (S n)) in Hx by lia.
    Z.to_euclidean_division_equations. lia.
Qed.

(** *** From a physical source *)

Lemma vstore_frame l : forall m va lo hi m', apart kwrite_ok va (length l) lo hi -> vstore s m va l = Ok m' ->
  forall x, lo <= x < hi -> m' !! x = m !! x.
Proof.
  induction l as [|b l IH]; intros m va lo hi m' Ha E x Hx; cbn [vstore length] in *; [by injection E as <- |].
  apply bind_Ok in E as (pa & Ep & E). apply bind_Ok in E as (m1 & E1 & E).
  unfold storeb in E1. apply bind_Ok in E1 as (? & _ & E1). injection E1 as <-.
  rewrite (IH (<[pa := b]> m) (va + 1) lo hi m'); [| | done | done].
  - rewrite lookup_insert_ne; [done |]. intros ->. apply (Ha 0%nat x); [lia | by rewrite Z.add_0_r | done].
  - apply (apart_tail kwrite_ok va (length l) 1 lo hi); [done | lia | lia].
Qed.

Lemma vstore_mapped l : forall m va m', vstore s m va l = Ok m' -> forall x, is_Some (m !! x) -> is_Some (m' !! x).
Proof.
  induction l as [|b l IH]; intros m va m' E x Hx; cbn [vstore] in E; [by injection E as <- |].
  apply bind_Ok in E as (pa & _ & E). apply bind_Ok in E as (m1 & E1 & E). unfold storeb in E1.
  apply bind_Ok in E1 as (? & _ & E1). injection E1 as <-. apply (IH _ _ _ E). apply lookup_insert_is_Some'. by right.
Qed.

Lemma load_bytes_app n1 : forall n2 m a, load_bytes m a (n1 + n2) =
  l1 ← load_bytes m a n1; l2 ← load_bytes m (a + Z.of_nat n1) n2; Ok (l1 ++ l2).
Proof.
  induction n1 as [|n1 IH]; intros n2 m a; cbn [Nat.add load_bytes].
  { cbn [mbind res_bind]. rewrite Z.add_0_r. by destruct (load_bytes m a n2). }
  destruct (loadb m a); cbn [mbind res_bind]; [| done]. rewrite IH.
  replace (a + 1 + Z.of_nat n1) with (a + Z.of_nat (S n1)) by lia.
  destruct (load_bytes m (a + 1) n1); cbn [mbind res_bind]; [| done]. by destruct (load_bytes m (a + Z.of_nat (S n1)) n2).
Qed.

Lemma load_bytes_ext n : forall m m' a, (forall x, a <= x < a + Z.of_nat n -> m' !! x = m !! x) -> load_bytes m' a n = load_bytes m a n.
Proof.
  induction n as [|n IH]; intros m m' a H; cbn [load_bytes]; [done |]. unfold loadb. rewrite H by lia.
  destruct (m !! a); cbn [from_opt mbind res_bind]; [| done]. rewrite (IH m m'); [done |]. intros x Hx. apply H. lia.
Qed.

(** A copy loop that moves [w] bytes in every round. *)
Lemma src_round w n (loop : mem -> Z -> Z -> res mem) m src dst l1 l2 :
  load_bytes m src w = Ok l1 -> load_bytes m (src + Z.of_nat w) n = Ok l2 ->
  apart kwrite_ok dst (w + n) src (src + Z.of_nat (w + n)) ->
  (forall m1, vstore s m dst l1 = Ok m1 -> load_bytes m1 (src + Z.of_nat w) n = Ok l2 -> loop m1 (src + Z.of_nat w) (dst + Z.of_nat w) = vstore s m1 (dst + Z.of_nat w) l2) ->
  (m1 ← vstore s m dst l1; loop m1 (src + Z.of_nat w) (dst + Z.of_nat w)) = vstore s m dst (l1 ++ l2).
Proof.
  intros E1 E2 Ha Hloop. destruct (load_bytes_range _ _ _ _ E1) as [L1 _]. rewrite vstore_app, L1.
  destruct (vstore s m dst l1) as [m1|] eqn:E; cbn [mbind res_bind]; [| done].
  assert (Hf : forall x, src <= x < src + Z.of_nat (w + n) -> m1 !! x = m !! x).
  { apply (vstore_frame l1 m dst src (src + Z.of_nat (w + n)) m1); [| done]. rewrite L1. by eapply apart_le. }
  apply Hloop; [done |]. rewrite <- E2. apply load_bytes_ext. intros x Hx. apply Hf. lia.
Qed.

Lemma phys_src_words_Ok n : forall m src dst l, load_bytes m src (4 * n) = Ok l ->
  apart kwrite_ok dst (4 * n) src (src + 4 * Z.of_nat n) -> phys_src_words s n m src dst = vstore s m dst l.
Proof.
  induction n as [|n IH]; intros m src dst l E Ha; cbn [phys_src_words]; [by injection E as <- |].
  replace (4 * S n)%nat with (4 + 4 * n)%nat in E, Ha by lia. rewrite load_bytes_app in E. apply bind_Ok in E as (l1 & E1 & E).
  apply bind_Ok in E as (l2 & E2 & E). injection E as <-. rewrite E1. cbn [mbind res_bind].
  apply (src_round 4 (4 * n) (phys_src_words s n) m src dst l1 l2 E1 E2).
  - by replace (src + Z.of_nat (4 + 4 * n)) with (src + 4 * Z.of_nat (S n)) by lia.
  - intros m1 _ El. apply IH; [done |]. apply (apart_tail _ dst (4 * n) 4 src (src + 4 * Z.of_nat (S n))); [done | lia | lia].
Qed.

Lemma phys_src_bytes_Ok n : forall m src dst l, load_bytes m src n = Ok l ->
  apart kwrite_ok dst n src (src + Z.of_nat n) -> mapped_words m src (src + Z.of_nat n) ->
  phys_src_bytes s n m src dst = vstore s m dst l.
Proof.
  induction n as [|n IH]; intros m src dst l E Ha Hm; cbn [phys_src_bytes]; [by injection E as <- |].
  change (S n) with (1 + n)%nat in E, Ha. rewrite load_bytes_app in E. apply bind_Ok in E as (l1 & E1 & E).
  apply bind_Ok in E as (l2 & E2 & E). injection E as <-. destruct (load_bytes_range _ _ _ _ E1) as [L1 _].
  destruct l1 as [|b [|? ?]]; [done | | done]. unfold mapped_words in Hm.
  rewrite load_phys_byte_Ok by (intros x Hx; apply Hm; Z.to_euclidean_division_equations; lia).
  cbn [load_bytes] in E1. apply bind_Ok in E1 as (b' & Eb & E1). injection E1 as ->. rewrite Eb. cbn [mbind res_bind].
  apply (src_round 1 n (phys_src_bytes s n) m src dst [b] l2); [cbn; by rewrite Eb | done | done |].
  intros m1 Ev El. apply IH; [done | apply (apart_tail _ dst n 1 src (src + Z.of_nat (S n))); [done | lia | lia] |].
  intros x Hx. apply (vstore_mapped _ _ _ _ Ev), Hm. replace (src + Z.of_nat 1 + Z.of_nat n) with (src + Z.of_nat (S n)) in Hx by lia.
  Z.to_euclidean_division_equations. lia.
Qed.

(** ** The theorem *)

Lemma aligned4 n : 0 <= n -> is_aligned n 4 = true -> n = 4 * (n / 4).
Proof.
  intros H E. pose proof (aligned_div n 2 ltac:(lia) H E) as X. change (2 ^ 2) with 4 in X.
  pose proof (Z.div_pos n 4 H ltac:(lia)). lia.
Qed.

(** C10: string copies between address spaces: copying into physical memory
    and out of it, by words when all is aligned and by bytes inside words
    otherwise, does what a copy byte by byte does, for every alignment and
    length, provided the source and the destination do not overlap and the
    words that hold them exist: exactly the destination bytes change, and they
    get the source bytes in order. *)
Theorem phys_copy_equiv src dst len : 0 <= len ->
  (forall l, vload s (pmem s) src (Z.to_nat len) = Ok l -> apart kread_ok src (Z.to_nat len) dst (dst + len) ->
     mapped_words (pmem s) dst (dst + len) -> memcpy_phys_dst s src dst len = Ok (write (pmem s) dst l)) /\
  (forall l, load_bytes (pmem s) src (Z.to_nat len) = Ok l -> apart kwrite_ok dst (Z.to_nat len) src (src + len) ->
     mapped_words (pmem s) src (src + len) -> memcpy_phys_src s src dst len = vstore s (pmem s) dst l).
Proof.
  intros Hlen. assert (Hw : is_aligned len 4 = true -> Z.to_nat len = (4 * Z.to_nat (len / 4))%nat).
  { intros E. apply aligned4 in E; [| done]. lia. }
  assert (Hr : forall a m, mapped_words m a (a + len) -> mapped_range m a (a + len)).
  { intros a m H x Hx. apply H. Z.to_euclidean_division_equations. lia. }
  split; intros l.
  - intros E Ha Hm. unfold memcpy_phys_dst. destruct (is_aligned src 4 && is_aligned dst 4 && is_aligned len 4) eqn:Eal.
    + apply andb_true_iff in Eal as [_ Eal]. pose proof (aligned4 len Hlen Eal). rewrite Hw in E, Ha by done.
      apply phys_dst_words_Ok; [done | |]; replace (dst + 4 * Z.of_nat (Z.to_nat (len / 4))) with (dst + len) by lia; auto.
    + apply phys_dst_bytes_Ok; [done | |]; rewrite Z2Nat.id by done; done.
  - intros E Ha Hm. unfold memcpy_phys_src. destruct (is_aligned src 4 && is_aligned dst 4 && is_aligned len 4) eqn:Eal.
    + apply andb_true_iff in Eal as [_ Eal]. pose proof (aligned4 len Hlen Eal). rewrite Hw in E, Ha by done.
      apply phys_src_words_Ok; [done |]. by replace (src + 4 * Z.of_nat (Z.to_nat (len / 4))) with (src + len) by lia.
    + apply phys_src_bytes_Ok; [done | |]; rewrite Z2Nat.id by done; done.
Qed.
End Copy.
