(* ===== verification/Fair.v ===== *)
(** Round robin: the ready threads of the running priority take turns.

    [turn] is what the timer tick (kern_timer_tick, Sched_t::switch_to) does
    when the running thread has used up its time slice and no timeout
    expires. *)

From Stdlib Require Import ZArith Lia Bool.
From stdpp Require Import base list numbers sets sorting.
From S2P Require Import Prelude SysUtils ListSpec L4Types Threads Sched.

Definition turn (now : Z) (s : threads) : res threads :=
  th ← get s (current s);
  '(it, s1) ← timeslice_expired (put s (current s) (timeslice_set th 0)) (current s) None;
  n ← deref_it s1 it;
  switch_to s1 n now.

(** One turn at each of the given times. *)
Fixpoint turns (times : list Z) (s : threads) : res threads :=
  match times with
  | [] => Ok s
  | now :: l => s1 ← turn now s; turns l s1
  end.

Lemma expired_que s t th : thr s !! t = Some th ->
  timeslice_expired s t None = timeslice_expired s t (Some (QReady (prio th))).
Proof. intros H. unfold timeslice_expired. rewrite (get_ok s t th H). cbn [mbind res_bind]. by rewrite ready_threads_ok. Qed.

Lemma slice_prio th v : prio (timeslice_set th v) = prio th /\ _state (timeslice_set th v) = _state th /\
  queue_of (timeslice_set th v) = queue_of th.
Proof. by destruct th. Qed.

Lemma expired_current s t que it s' : timeslice_expired s t que = Ok (it, s') -> current s' = current s.
Proof.
  unfold timeslice_expired. intros E. apply bind_Ok in E as (th & _ & E). do 2 apply bind_Ok in E as (? & _ & E).
  apply bind_Ok in E as (q & _ & E). cbv zeta in E. destruct (Nat.ltb _ _); [| by injection E as <- <-].
  do 3 apply bind_Ok in E as (? & _ & E). by injection E as <- <-.
Qed.

(** The rotation of the list when the slice of its head is used up. *)
Lemma expired_ok s h hth l : inv s -> thr s !! h = Some hth -> _remaning_timeslice hth = 0 ->
  q_threads s (QReady (prio hth)) = h :: l -> (length (h :: l) < 128)%nat ->
  exists it s' n, timeslice_expired s h None = Ok (it, s') /\ deref_it s' it = Ok n /\ head (l ++ [h]) = Some n /\
    inv s' /\ q_threads s' (QReady (prio hth)) = l ++ [h] /\ current s' = current s /\
    forall u uth, thr s !! u = Some uth -> exists uth', thr s' !! u = Some uth' /\ prio uth' = prio uth.
Proof.
  intros I Hh Hz Hq Hlen. rewrite (expired_que s h hth Hh). set (q := QReady (prio hth)) in *.
  unfold q_threads, vals in Hq. destruct (busy (queues s q)) as [|[a h'] r] eqn:Eb; [discriminate Hq |].
  cbn in Hq. injection Hq as -> Hr.
  destruct (i_out _ s I q a h) as (_ & th0 & H1 & Hqh & Hi); [rewrite Eb; left |]. rewrite Hh in H1. injection H1 as <-.
  assert (Hst : _state hth = Ready) by (by eapply queue_ready).
  assert (K : forall s' th', thr s' = <[h := th']> (thr s) -> prio th' = prio hth ->
    forall u uth, thr s !! u = Some uth -> exists uth', thr s' !! u = Some uth' /\ prio uth' = prio uth).
  { intros s' th' Et Ep u uth Hu. rewrite Et. destruct (decide (u = h)) as [-> |].
    - rewrite list_lookup_insert_eq by (by eapply lookup_lt_Some). exists th'. split; [done | congruence].
    - rewrite list_lookup_insert_ne by done. eauto. }
  destruct r as [|[b u] r].
  - subst l. cbn. unfold timeslice_expired. rewrite (get_ok s h hth Hh). cbn [mbind res_bind]. rewrite Hz.
    cbn [Z.eqb wassert mbind res_bind]. rewrite bool_decide_eq_true_2 by done. cbn [wassert mbind res_bind].
    unfold size. rewrite Eb. cbn [length Nat.ltb Nat.leb]. unfold begin. rewrite Eb. cbn [first_it].
    eexists _, _, h. split_and!; [done | | done | | | done |].
    + unfold deref_it, deref. cbn [from_opt mbind res_bind put queues]. rewrite Eb. cbn [find_it]. by rewrite Z.eqb_refl.
    + eapply put_same; [done | done | by destruct hth..].
    + unfold q_threads. cbn [put queues]. by rewrite Eb.
    + eapply K; [done | by destruct hth].
  - destruct (free (queues s q)) as [|f fs] eqn:Ef.
    { pose proof (i_cap _ s I q) as Hc. rewrite Eb, Ef in Hc. subst l. simpl in Hc, Hlen. rewrite length_fmap in Hlen. lia. }
    destruct (rotate_ok s (prio hth) a h hth b u r f fs I Eb Ef Hh Hz) as (s' & E & I' & Eb' & Eo & Et). fold q in E, Eb', Eo, Et.
    exists (Some (q, b)), s', u. split_and!; [done | | by subst l | done | | |].
    + unfold deref_it, deref. cbn [from_opt mbind res_bind]. rewrite Eb'. cbn [find_it]. by rewrite Z.eqb_refl.
    + unfold q_threads. rewrite Eb'. subst l. change ((b, u) :: r ++ [(f, h)]) with (((b, u) :: r) ++ [(f, h)]). by rewrite vals_app.
    + by eapply expired_current.
    + eapply K; [done | by destruct hth].
Qed.

(** One turn: the next thread of the list runs, the list is rotated. *)
Lemma turn_ok now s h hth l : inv s -> current s = h -> thr s !! h = Some hth ->
  q_threads s (QReady (prio hth)) = h :: l -> (length (h :: l) < 128)%nat ->
  exists s' n nth, turn now s = Ok s' /\ inv s' /\ current s' = n /\ head (l ++ [h]) = Some n /\
    thr s' !! n = Some nth /\ prio nth = prio hth /\ q_threads s' (QReady (prio hth)) = l ++ [h].
Proof.
  intros I Hc Hh Hq Hlen. unfold turn. rewrite Hc. rewrite (get_ok s h hth Hh). cbn [mbind res_bind].
  destruct (slice_prio hth 0) as (P1 & P2 & P3). set (s0 := put s h (timeslice_set hth 0)).
  assert (Hl : (h < length (thr s))%nat) by (by eapply lookup_lt_Some).
  assert (I0 : inv s0) by (eapply put_same; [done | done | by destruct hth..]).
  assert (Hh0 : thr s0 !! h = Some (timeslice_set hth 0)) by (unfold s0; simpl; by rewrite list_lookup_insert_eq).
  destruct (expired_ok s0 h _ l I0 Hh0) as (it & s1 & n & -> & Ed & Hn & I1 & Hq1 & Hc1 & Hp1); [by destruct hth | by rewrite P1 | done |].
  rewrite P1 in Hq1. cbn [mbind res_bind]. rewrite Ed. cbn [mbind res_bind].
  assert (Hin : n ∈ q_threads s1 (QReady (prio hth))).
  { rewrite Hq1. destruct (l ++ [h]) as [|x y] eqn:E; [discriminate Hn |]. injection Hn as ->. left. }
  apply elem_of_vals in Hin as (a & Hin). destruct (i_out _ s1 I1 _ a n Hin) as (_ & nth & Hnt & Hnq & _).
  apply queue_ready in Hnq as [_ Hnp]. unfold switch_to. rewrite Hc1. change (current s0) with (current s). rewrite Hc.
  destruct (Nat.eqb_spec h n) as [-> | Hne].
  - exists s1, n, nth. split_and!; [done | done | by rewrite Hc1 | done | done | done | done].
  - destruct (Hp1 h _ Hh0) as (x & Hx & _). rewrite (get_ok s1 h x Hx). cbn [mbind res_bind]. cbv zeta.
    rewrite (get_ok _ n nth) by (simpl; by rewrite list_lookup_insert_ne). cbn [mbind res_bind].
    eexists _, n, (timeslice_start nth now). split_and!; [done | | done | done | | by destruct nth | done].
    + eapply inv_ext; [| | | eapply (put_same _ (put s1 h (timeslice_stop x now)) n nth (timeslice_start nth now));
        [eapply (put_same _ s1 h x); [exact I1 | exact Hx | by destruct x..] | simpl; by rewrite list_lookup_insert_ne | by destruct nth..]]; done.
    + simpl. rewrite list_lookup_insert_eq; [done |]. rewrite length_insert. by eapply lookup_lt_Some.
Qed.

Lemma turns_ok times : forall s h hth l1 u l2, inv s -> current s = h -> thr s !! h = Some hth ->
  q_threads s (QReady (prio hth)) = h :: l1 ++ u :: l2 -> (length (h :: l1 ++ u :: l2) < 128)%nat -> length times = S (length l1) ->
  exists s', turns times s = Ok s' /\ inv s' /\ current s' = u.
Proof.
  induction times as [|now times IH]; intros s h hth l1 u l2 I Hc Hh Hq Hlen Ht; [done |]. cbn [turns].
  destruct (turn_ok now s h hth _ I Hc Hh Hq Hlen) as (s1 & n & nth & -> & I1 & C1 & Hn & Hnt & Hp & Hq1). cbn [mbind res_bind].
  destruct l1 as [|x l1].
  - destruct times; [| done]. simpl in Hn. injection Hn as <-. by exists s1.
  - simpl in Hn. injection Hn as <-. apply (IH s1 x nth l1 u (l2 ++ [h])); [done | done | done | | | by injection Ht].
    + rewrite Hp, Hq1. simpl. by rewrite <- app_assoc.
    + simpl in *. rewrite length_app in *. simpl in *. rewrite length_app. simpl. lia.
Qed.

