(* ===== verification/Scenario.v ===== *)
(** A sample system and its runs: the witnesses of the theorems on the system
    and on the handlers, and the behaviours of the code that differ from what
    it means to do, each as the result of a concrete run. *)

From Stdlib Require Import ZArith Lia Bool.
From stdpp Require Import base gmap list numbers relations.
From S2P Require Import Prelude SysUtils Bitmap ListSpec L4Types AddressSpace Kmem CString Threads Sched Mmu Ptable PtableSpec Aspace Paging Task Kernel Ipc Syscalls Entry KernelInv KernelSafe System.

(** ** The sample kernel

    Thread 0 is the idle thread, 1 is sigma0, 2 the root task (both not
    started); 3 (priority 50) and 4 (priority 60) are ready.  Timer interrupts
    have the number 8. *)

#[export] Instance sample_config : Config := {|
  cfg_kdiff := 0xb0000000; cfg_krn_vaddr := 0xf0000000; get_kip := 0xf0001000; cfg_timer_irq := 8; cfg_tick_usec := 1000 |}.

Definition get_Ok_or {A} (d : A) (r : res A) : A := match r with Ok a => a | Stop _ => d end.
Definition is_Ok {A} (r : res A) : bool := match r with Ok _ => true | Stop _ => false end.

Lemma is_Ok_eq {A} (d : A) r : is_Ok r = true -> r = Ok (get_Ok_or d r).
Proof. by destruct r. Qed.

Definition gid (n : Z) : Z := thrid_create_global (128 + n) Def_glob_ver.

(** A thread object before its first state change. *)
Definition raw_thread (n task uva pr : Z) : thread_t :=
  MkThread task uva (gid n) thrid_roottask thrid_sigma0 0x10000000 0x10001000 Idle ipc_clear pfault_clear pr (MkA [] [1; 2])
    Thrid_nil None 0 0 0 0 0.

Definition raw_threads : list thread_t :=
  [raw_thread 0 10 0 0; raw_thread 1 11 0x1000 100; raw_thread 2 12 0x1000 100; raw_thread 3 13 0x10000000 50;
   raw_thread 4 14 0x10000000 60] ++ replicate 123 idle_thread.

Definition idle_lists (l : list thread_t) : threads := MkS l (replicate 8 0) (fun _ => MkA [] (seqZ 1 128)) 0.

(** Threads that are in no list, with empty lists. *)
Lemma idle_lists_inv l : length l = 128%nat -> Forall (fun th => queue_of th = None) l -> inv (idle_lists l).
Proof.
  intros Hl F. pose proof init_inv as I. split.
  - done.
  - apply (i_bits _ _ I).
  - apply (i_wf _ _ I).
  - apply (i_cap _ _ I).
  - intros t th q Ht _ Hq. by rewrite (Forall_lookup_1 _ _ _ _ F Ht) in Hq.
  - intros q a t Hin. by apply elem_of_nil in Hin.
  - intros q _. constructor.
Qed.

Definition ready_loop (s : threads) (l : list (nat * state_t)) : threads :=
  foldl (fun s p => get_Ok_or s (set_state s p.1 p.2)) s l.

Definition run_on (s : threads) (t : nat) : threads := MkS (thr s) (ready_bits s) (queues s) t.

(** The threads [l] with the idle thread ready, then in the given states. *)
Definition build (l : list thread_t) (sts : list (nat * state_t)) (cur : nat) : threads :=
  run_on (ready_loop (idle_lists l) ((0%nat, Ready) :: sts)) cur.

Lemma ready_loop_tinv l : forall s, tinv s -> Forall (fun p => p.1 <> 0%nat) l -> tinv (ready_loop s l).
Proof.
  induction l as [|[t st] l IH]; intros s J F; [done |]. apply Forall_cons in F as [H0 F]. cbn [ready_loop foldl]. apply IH; [| done].
  cbn [fst snd]. destruct (set_state s t st) as [s'|e] eqn:E; [| done]. simpl.
  apply (tinv_set_state s t st s' J (or_intror H0) E).
Qed.

Lemma build_tinv l sts cur : length l = 128%nat -> Forall (fun th => queue_of th = None) l -> Forall (fun p => p.1 <> 0%nat) sts ->
  is_Ok (set_state (idle_lists l) 0 Ready) = true -> tinv (build l sts cur).
Proof.
  intros Hl F Hs E. assert (I0 := idle_lists_inv l Hl F). set (s0 := idle_lists l) in *.
  assert (J : tinv (ready_loop s0 ((0%nat, Ready) :: sts))).
  { change (ready_loop s0 ((0%nat, Ready) :: sts)) with (ready_loop (get_Ok_or s0 (set_state s0 0 Ready)) sts).
    apply ready_loop_tinv; [| done]. destruct (lookup_lt_is_Some_2 l 0) as (th & H0); [lia |].
    apply (set_state_becomes s0 0 th Ready _ H0 (leave_detaches s0 0 _ I0 H0) ltac:(done) (or_introl eq_refl)).
    by apply is_Ok_eq. }
  split; [| apply J]. eapply inv_ext; [| | | apply J]; done.
Qed.

Definition sample_ths : threads := build raw_threads [(1, Inactive); (2, Inactive); (3, Ready); (4, Ready)]%nat 4.

Lemma sample_tinv : tinv sample_ths.
Proof.
  apply build_tinv; [done | | repeat constructor; done | by vm_compute].
  unfold raw_threads. apply Forall_app. split; [repeat constructor | by apply Forall_replicate].
Qed.

(** Registers of a system call: g1 is the number, i0.. the arguments. *)
Definition call_frame (n : Z) (args : list Z) : list Z :=
  replicate 113 0 ++ [n] ++ replicate 6 0 ++ args ++ replicate (8 - length args) 0 ++ [0; 0; 0x1000; 0x1004].
Definition sample_x (fr mr : list Z) : xthread :=
  MkX (mr ++ replicate (255 - length mr) 0) (replicate 33 0) Thrid_nil 0 0 fr [] 0 0 (Some 2%nat) (Some 1%nat) 0 false
    (MkEf 0 0) false Entry_type_syscall.

Definition sample_task (n : Z) : task :=
  MkTask n (MkAs (MkPgtab root_tb n) (MkA [] [1; 2; 3; 4; 5; 6; 7; 8]) n) 0 0 (Bitmap.ctor 64) Thrid_nil.
Definition sample_tasks : tasks :=
  MkTasks (MkA [(10, sample_task 1); (11, sample_task 2); (12, sample_task 3); (13, sample_task 4); (14, sample_task 5)] [15; 16]) 6.

(** The sample with the registers of the threads 3 and 4. *)
Definition sample_kernel (fr3 mr3 fr4 mr4 : list Z) : kernel :=
  MkK sample_k sample_tasks sample_ths
    (replicate 3 (sample_x (call_frame 0 []) []) ++ [sample_x fr3 mr3; sample_x fr4 mr4] ++
     replicate 123 (sample_x (call_frame 0 []) []))
    (replicate 128 (MkInt Thrid_nil false)) ∅ 1000 [] [].

Lemma sample_typed fr3 mr3 fr4 mr4 : length fr3 = 132%nat -> length fr4 = 132%nat -> (length mr3 <= 255)%nat -> (length mr4 <= 255)%nat ->
  typed (sample_kernel fr3 mr3 fr4 mr4).
Proof.
  intros H3 H4 M3 M4. assert (X : forall fr mr, length fr = 132%nat -> (length mr <= 255)%nat -> xtyped (sample_x fr mr)).
  { intros fr mr Hf Hm. unfold xtyped, sample_x, Mr_words, Frame_words. cbn [x_mr x_br x_frame]. rewrite length_app, !length_replicate. lia. }
  assert (X0 : xtyped (sample_x (call_frame 0 []) [])) by (apply X; [done | simpl; lia]).
  split; [unfold sample_kernel; cbn [xthr]; rewrite !length_app, !length_replicate; done |]. unfold sample_kernel. cbn [xthr].
  repeat (apply Forall_app; split); [by apply Forall_replicate | repeat constructor; by apply X | by apply Forall_replicate].
Qed.

(** ** Runs *)

(** The next step of a configuration: an entry of the running thread in user
    mode, else the switch. *)
Definition next_config (fuel : nat) (e : event) (c : config) : option config :=
  match mode c with
  | User => settle (current (ths (krn c))) (conts c) (handler fuel e (krn c))
  | Switched =>
      match conts c (current (ths (krn c))) with
      | Some k => settle (current (ths (krn c))) (conts c) (k (krn c))
      | None => Some (MkC (krn c) (conts c) User)
      end
  end.

Lemma next_config_step fuel e c c' : current (ths (krn c)) <> 0%nat -> next_config fuel e c = Some c' -> step c c'.
Proof.
  intros H0 E. destruct c as [s cs m]. unfold next_config in E. cbn [krn conts mode] in *. destruct m.
  - eapply S_event; [by intros ? | by intros ? | exact E].
  - destruct (cs (current (ths s))) as [k|] eqn:Ek; [eapply S_resume; [by intros ? | done | exact E] |].
    injection E as <-. by constructor.
Qed.

Fixpoint run_configs (fuel : nat) (es : list event) (c : config) : option config :=
  match es with
  | [] => Some c
  | e :: es' => match next_config fuel e c with
                | Some c' => if Nat.eqb (current (ths (krn c))) 0 then None else run_configs fuel es' c'
                | None => None
                end
  end.

Lemma run_configs_reach fuel es : forall c c', run_configs fuel es c = Some c' -> rtc step c c'.
Proof.
  induction es as [|e es IH]; intros c c' E; cbn [run_configs] in E; [injection E as <-; done |].
  destruct (next_config fuel e c) as [c1|] eqn:E1; [| discriminate E].
  destruct (Nat.eqb_spec (current (ths (krn c))) 0); [discriminate E |].
  eapply rtc_l; [by eapply next_config_step | by apply IH].
Qed.

Definition start_config (s : kernel) : config := MkC s (fun _ => None) User.

(** *** Thread 4 waits for a message from anyone, thread 3 sends it two words. *)
Definition msg_tag : Z := tag_set_ipc 5 2 0.
Definition with_tag (s : kernel) (t : nat) (tag : Z) : kernel :=
  match thr (ths s) !! t with Some th => set_ths s (put (ths s) t (with_utcb th tag 0)) | None => s end.
Definition msg_kernel : kernel :=
  with_tag (sample_kernel (call_frame 7 [gid 4; Thrid_nil; 0]) [0x11; 0x22] (call_frame 7 [Thrid_nil; Thrid_any; 0]) []) 3 msg_tag.

Definition observe (c : config) (t : nat) : option (state_t * Z * list Z * Z) :=
  match thr (ths (krn c)) !! t, xthr (krn c) !! t with
  | Some th, Some x => Some (_state th, utcb_msgtag th, take 3 (x_mr x), nth F_syscall (x_frame x) 0)
  | _, _ => None
  end.

Lemma with_tag_tinv s t tag : tinv (ths s) -> tinv (ths (with_tag s t tag)).
Proof.
  intros J. unfold with_tag. destruct (thr (ths s) !! t) as [th|] eqn:E; [| done].
  apply (tinv_put_inert (ths s) t th); [done | done |]. exists (fun th => with_utcb th tag 0). split; [inert_tac | done].
Qed.

Lemma with_tag_typed s t tag : typed s -> typed (with_tag s t tag).
Proof. intros T. unfold with_tag. by destruct (thr (ths s) !! t). Qed.

(** No thread waits for a message. *)
Definition none_waits (s : kernel) : bool := forallb (fun th => negb (bool_decide (_state th = Receive_ipc))) (thr (ths s)).

Lemma none_waits_rcv s : none_waits s = true -> forall u, ~ rcv (ths s) u.
Proof.
  intros H u (th & Ht & Es). unfold none_waits in H. rewrite forallb_forall in H.
  specialize (H th (proj1 (list_elem_of_In _ _) (list_elem_of_lookup_2 _ _ _ Ht))). by rewrite bool_decide_eq_true_2 in H.
Qed.

Lemma sample_initial fr3 mr3 fr4 mr4 t tag : length fr3 = 132%nat -> length fr4 = 132%nat ->
  (length mr3 <= 255)%nat -> (length mr4 <= 255)%nat -> none_waits (with_tag (sample_kernel fr3 mr3 fr4 mr4) t tag) = true ->
  initial (start_config (with_tag (sample_kernel fr3 mr3 fr4 mr4) t tag)).
Proof.
  intros H1 H2 H3 H4 N. split_and!; [apply with_tag_tinv, sample_tinv | by apply with_tag_typed, sample_typed
    | by apply none_waits_rcv | done | done].
Qed.

Lemma msg_initial : initial (start_config msg_kernel).
Proof. apply sample_initial; [done | done | simpl; lia | simpl; lia |]. by vm_compute. Qed.

Lemma run_observed {A} fuel es c0 (f : config -> option A) v :
  match run_configs fuel es c0 with Some c => f c | None => None end = Some v -> exists c, rtc step c0 c /\ f c = Some v.
Proof.
  destruct (run_configs fuel es c0) as [c|] eqn:E; [| discriminate]. intros H. exists c. split; [by eapply run_configs_reach | done].
Qed.

(** Four entries of the sample: the message is with thread 4, which runs again. *)
Lemma msg_reached : exists c, rtc step (start_config msg_kernel) c /\
  (if Nat.eqb (current (ths (krn c))) 4 then observe c 4 else None) = Some (Ready, msg_tag, [0x11; 0x22; 0], gid 3).
Proof. apply (run_observed 1 [ESyscall; ESyscall; ESyscall; ESyscall]). vm_compute. reflexivity. Qed.

Lemma kernel_invariant_witness : exists c h hth, rtc step (start_config msg_kernel) c /\
  (if Nat.eqb (current (ths (krn c))) 4 then observe c 4 else None) = Some (Ready, msg_tag, [0x11; 0x22; 0], gid 3) /\
  inv (ths (krn c)) /\ thr (ths (krn c)) !! h = Some hth /\ _state hth = Ready.
Proof.
  destruct msg_reached as (c & R & O). destruct (kernel_invariant _ c msg_initial R) as (I & _ & p & h & hth & l & _ & _ & H1 & H2 & _).
  exists c, h, hth. split; [exact R | split; [exact O | split; [exact I | split; [exact H1 | exact H2]]]].
Defined.

