(* ===== verification/KernelRuns.v ===== *)
(** Runs of the sample kernel of [Scenario]: the theorems of [IpcSpec],
    [SyscallSpec], [TaskSpec], [CopySpec] and [Fair] on concrete states, and
    runs in which the code does not do what it means to do. *)

From Stdlib Require Import ZArith Lia Bool.
From stdpp Require Import base gmap list numbers relations.
From S2P Require Import Prelude SysUtils Bitmap ListSpec L4Types AddressSpace Kmem CString Threads Sched Mmu Ptable PtableSpec Aspace Paging Task Kernel Ipc Syscalls Entry KernelInv KernelSafe System Scenario IpcSpec SyscallSpec TaskSpec CopySpec Fair.

Open Scope kernel_scope.

(** ** Parts of a state *)

Definition nth_thr (s : kernel) (t : nat) : thread_t := nth t (thr (ths s)) idle_thread.
Definition nth_x (s : kernel) (t : nat) : xthread := nth t (xthr s) (sample_x [] []).

Lemma nth_thr_lookup s t : (t < length (thr (ths s)))%nat -> thr (ths s) !! t = Some (nth_thr s t).
Proof. intros H. unfold nth_thr. rewrite nth_lookup. by destruct (lookup_lt_is_Some_2 _ _ H) as (x & ->). Qed.

Lemma nth_x_lookup s t : (t < length (xthr s))%nat -> xthr s !! t = Some (nth_x s t).
Proof. intros H. unfold nth_x. rewrite nth_lookup. by destruct (lookup_lt_is_Some_2 _ _ H) as (x & ->). Qed.

(** Thread 3 runs and is the scheduler of thread 4, which waits for a message
    from anyone. *)
Definition wait_threads : list thread_t :=
  <[4%nat := with_ids (with_ipc (raw_thread 4 14 0x10000000 60) (MkIpc Never_timeout Thrid_nil Thrid_any))
               14 (gid 4) (gid 3) thrid_sigma0]> raw_threads.
Definition wait_ths (st : state_t) : threads := build wait_threads [(1, Receive_ipc); (2, Inactive); (3, Ready); (4, st)]%nat 3.
Definition wait_kernel (st : state_t) (fr3 : list Z) (tag : Z) : kernel :=
  with_tag (set_ths (sample_kernel fr3 [0x11; 0x22] (call_frame 0 []) []) (wait_ths st)) 3 tag.

Lemma wait_tinv st fr3 tag : tinv (ths (wait_kernel st fr3 tag)).
Proof.
  apply with_tag_tinv. simpl. apply build_tinv; [done | | repeat constructor; done | by vm_compute].
  apply Forall_insert; [| done]. unfold raw_threads. apply Forall_app. split; [repeat constructor | by apply Forall_replicate].
Qed.

Lemma wait_typed st fr3 tag : length fr3 = 132%nat -> typed (wait_kernel st fr3 tag).
Proof. intros H. apply with_tag_typed. apply (sample_typed fr3 [0x11; 0x22] (call_frame 0 []) []); simpl; (done || lia). Qed.

(** A call of thread 3: a message of two words to thread 4. *)
Definition send_kernel (st : state_t) (tmo : Z) : kernel := wait_kernel st (call_frame 7 [gid 4; Thrid_nil; tmo]) msg_tag.

Lemma send_kernel_ok st tmo : tinv (ths (send_kernel st tmo)) /\ typed (send_kernel st tmo).
Proof. unfold send_kernel. split; [apply wait_tinv | apply wait_typed; reflexivity]. Qed.

(** A premise that holds by computation; the goal itself is left alone. *)
Ltac computed := try lazymatch goal with |- exists _, _ => fail | |- _ => vm_compute; reflexivity end.
Ltac lookups := first [apply nth_thr_lookup | apply nth_x_lookup]; vm_compute; lia.

Lemma ipc_rendezvous_witness : exists r,
  let s := send_kernel Receive_ipc 0 in
  let s1 := delivered (begun s 3 (nth_thr s 3)) 4 (cleared (nth_thr s 3)) (nth_thr s 4) (nth_x s 3) (nth_x s 4) false false in
  inv r /\ do_ipc 3 s = switch_thr 4 (set_ths s1 r).
Proof.
  destruct (send_kernel_ok Receive_ipc 0) as [J T]. set (s := send_kernel Receive_ipc 0) in *.
  destruct (ipc_rendezvous s 3 4 (nth_thr s 3) (nth_thr s 4) (nth_x s 3) (nth_x s 4) (gid 4) 0 60) as (r & it & _ & I & _ & _ & E);
    [apply J | exact T | lia | lookups | lookups | lookups | lookups | split; computed | computed ..].
  - split; vm_compute; (reflexivity || discriminate).
  - lia.
  - exists r. split; [exact I |]. rewrite E. replace (prio (nth_thr s 3)) with 50 by (vm_compute; reflexivity). reflexivity.
Defined.

(** A send to a thread that does not exist, and one with a zero timeout to a
    thread that does not wait. *)
Definition lost_kernel : kernel := wait_kernel Ready (call_frame 7 [gid 9; Thrid_nil; 0]) msg_tag.
Definition zero_kernel : kernel := send_kernel Ready (Z.shiftl Time_zero 16).



Lemma pagefault_delivered_witness : let s := send_kernel Receive_ipc 0 in exists r,
  inv r /\ process_pfault 3 0x5000 Acc_w 0x1000 s =
    switch_thr 1 (set_ths (pf_delivered s 1 (nth_thr s 1) (nth_x s 1) (gid 3) 0x5000 Acc_w 0x1000) r).
Proof.
  destruct (send_kernel_ok Receive_ipc 0) as [J T]. set (s := send_kernel Receive_ipc 0) in *. cbv zeta.
  destruct (pagefault_delivered s 3 1 (nth_thr s 3) (nth_thr s 1) (nth_x s 3) (nth_x s 1) 0x5000 Acc_w 0x1000)
    as (r1 & r2 & it1 & it2 & _ & _ & I & _ & _ & _ & E);
    [apply J | exact T | lia | lookups | lookups | lookups | lookups | computed .. | | ]; [vm_compute; discriminate |].
  exists r2. split; [exact I |]. rewrite E. replace (_glob_id (nth_thr s 3)) with (gid 3) by (vm_compute; reflexivity). reflexivity.
Defined.

Lemma typed_lookup s t : typed s -> (t < 128)%nat -> xthr s !! t = Some (nth_x s t) /\ xtyped (nth_x s t).
Proof.
  intros [Hl F] Ht. assert (H : xthr s !! t = Some (nth_x s t)) by (apply nth_x_lookup; lia). split; [done |].
  by eapply Forall_lookup_1.
Qed.

Lemma calls_refused_witness :
  syscall_thread_control 3 lost_kernel = Ret tt (refused lost_kernel 3 (nth_thr lost_kernel 3) (nth_x lost_kernel 3) 1) /\
  syscall_exchange_registers 3 lost_kernel = Ret tt (refused lost_kernel 3 (nth_thr lost_kernel 3) (nth_x lost_kernel 3) 2).
Proof.
  assert (T : typed lost_kernel) by (apply wait_typed; reflexivity). destruct (typed_lookup lost_kernel 3 T) as [Hx Tx]; [lia |].
  destruct (calls_refused lost_kernel 3 (nth_thr lost_kernel 3) (nth_x lost_kernel 3)) as [H1 H2];
    [lookups | exact Hx | exact Tx |]. split.
  - destruct H1 as [H1 _]; [vm_compute; reflexivity | exact H1].
  - apply (H2 (gid 9)); [vm_compute; reflexivity | left; vm_compute; reflexivity].
Defined.

(** Thread 3 gives thread 4 the priority 40. *)
Definition sched_kernel : kernel := wait_kernel Ready (call_frame 6 [gid 4; Word_max; Word_max; 40; Word_max]) 0.

Lemma schedule_spec_witness : exists r, inv r /\
  syscall_schedule 3 sched_kernel = Ret tt (scheduled sched_kernel 3 (nth_x sched_kernel 3) r 3).
Proof.
  assert (T : typed sched_kernel) by (apply wait_typed; reflexivity). destruct (typed_lookup sched_kernel 3 T) as [Hx Tx]; [lia |].
  assert (J : tinv (ths sched_kernel)) by (apply wait_tinv).
  destruct (schedule_spec sched_kernel 3 (nth_thr sched_kernel 3) (nth_x sched_kernel 3)
    ltac:(lookups) Hx (gid 4) Word_max Word_max 40 Word_max) as [_ H]; [vm_compute; reflexivity .. |].
  destruct (H 4%nat (nth_thr sched_kernel 4)) as (_ & _ & _ & H4); [vm_compute; reflexivity | lookups |].
  destruct (H4 ltac:(vm_compute; reflexivity) ltac:(vm_compute; split; discriminate) eq_refl eq_refl eq_refl (j_inv _ J) 3) as (r & it & _ & I & _ & _ & E);
    [vm_compute; reflexivity |].
  exists r. split; [exact I | exact E].
Defined.

Lemma memory_control_one_page_witness :
  let s := lost_kernel in
  syscall_memory_control 2 s = (ok <- set_attribs 2 [0; 0; 0; 0] 0 1 ;; when ok (set_i 2 0 1)) (result s 2 (nth_x s 2) 0).
Proof.
  cbv zeta. assert (T : typed lost_kernel) by (apply wait_typed; reflexivity).
  destruct (typed_lookup lost_kernel 2 T) as [Hx Tx]; [lia |].
  rewrite (memory_control_one_page lost_kernel 2 (nth_thr lost_kernel 2) (nth_x lost_kernel 2) ltac:(lookups) Hx 0 0 0 0 0);
    [reflexivity | vm_compute; reflexivity | unfold in_range; lia | vm_compute; reflexivity .. | lia | lia | lia | lia].
Defined.

(** A task with a UTCB area of 16 pages. *)
Definition utcb_task : task :=
  MkTask 9 (MkAs (MkPgtab root_tb 9) (MkA [] [1]) 9) 0 (get_Ok_or 0 (fpage_set 0 0x100000 0x10000 Acc_rw))
    (Bitmap.init 64 (Bitmap.ctor 64) 16).2 Thrid_nil.

Lemma utcb_task_wf : utcb_wf utcb_task.
Proof.
  destruct (Bitmap.init_wf 64 (Bitmap.ctor 64) 16) as (b & Eb & W & Hc); [apply Bitmap.ctor_wf; lia | reflexivity | lia |].
  assert (Ea : fpage_addr (_utcb_area utcb_task) = 0x100000) by (by vm_compute).
  assert (Es : fpage_size (_utcb_area utcb_task) = 0x10000) by (by vm_compute).
  split.
  - unfold utcb_task. cbn [_utcbs_bitmap]. by rewrite Eb.
  - rewrite Ea, Es. lia.
  - rewrite Es. by vm_compute.
  - rewrite Ea, Es. lia.
Qed.

Lemma utcb_pages_correct_witness : exists a t', alloc_utcb_uspace utcb_task = Ok (a, t') /\ a = 0x100000 /\ utcb_page t' a.
Proof.
  destruct (utcb_pages_correct utcb_task utcb_task_wf) as [H _].
  destruct (alloc_utcb_uspace utcb_task) as [[a t']|] eqn:E; [| destruct H]. exists a, t'. split; [reflexivity |].
  assert (Hf : is_full utcb_task = false) by (by vm_compute). rewrite Hf in H. destruct H as (_ & _ & _ & _ & _ & _ & Hp & _).
  split; [| apply Hp; left; reflexivity]. vm_compute in E. injection E as <- _. reflexivity.
Defined.

(** Two threads of one priority. *)
Definition fair_ths : threads := build (<[4%nat := raw_thread 4 14 0 50]> raw_threads) [(3, Ready); (4, Ready)]%nat 3.

Lemma fair_tinv : tinv fair_ths.
Proof.
  apply build_tinv; [done | | repeat constructor; done | by vm_compute].
  apply Forall_insert; [| done]. unfold raw_threads. apply Forall_app. split; [repeat constructor | by apply Forall_replicate].
Qed.


(** *** Copies *)

(** The task of thread 3 has a page at 0x10001000 on the frame 0x40002000; the
    sample memory holds 8 bytes there and 16 bytes from 0x40010000 on. *)
Definition copy_space : kspace * aspace :=
  get_Ok_or (sample_k, sample_as) (aspace_map (AR := sparc_arch) kdiff kva sample_k sample_as 0x10001000 0x40002000 0x1000 Acc_urw 1).
Definition copy_mem : mem :=
  write (write ∅ 0x40002000 [1; 2; 3; 4; 5; 6; 7; 8]) 0x40010000 (replicate 16 0).
Definition copy_kernel : kernel :=
  let s := wait_kernel Ready (call_frame 0 []) 0 in
  set_pmem (set_ks (set_tsks s (MkTasks (store (_tasks (tsks s)) 13 (with_aspace (sample_task 4) copy_space.2)) 6)) copy_space.1) copy_mem.

Lemma phys_copy_equiv_witness :
  memcpy_phys_dst copy_kernel 0x10001001 0x40010002 5 = Ok (write (pmem copy_kernel) 0x40010002 [2; 3; 4; 5; 6]).
Proof.
  destruct (phys_copy_equiv copy_kernel 0x10001001 0x40010002 5 ltac:(lia)) as [H _]. apply H; [vm_compute; reflexivity | |].
  - intros i pa Hi E Hr. change (Z.to_nat 5) with 5%nat in Hi.
    destruct i as [|[|[|[|[|i]]]]]; [vm_compute in E; injection E as <-; lia .. | lia].
  - intros x Hx. change (0x40010000 <= x < 0x40010008) in Hx. change (pmem copy_kernel) with copy_mem. unfold copy_mem.
    rewrite write_lookup. rewrite bool_decide_eq_true_2 by (rewrite length_replicate; lia).
    apply lookup_lt_is_Some_2. rewrite length_replicate. lia.
Defined.

(** ** What the code does not do *)

(** *** Priority inheritance: thread 4 (priority 60) waits for thread 3 (50). *)
Definition after {A B} (f : kernel -> B) (p : proc A) : option B :=
  match p with Ret _ s => Some (f s) | Yield s _ => Some (f s) | Halt _ => None end.

Definition lend_kernel : kernel :=
  with_tag (sample_kernel (call_frame 0 []) [] (call_frame 7 [gid 3; Thrid_nil; 0]) [0x11]) 4 (tag_set_ipc 5 1 0).
Definition lend_run : option (state_t * bool * res Z * nat) :=
  after (fun s => (_state (nth_thr s 4), thrid_is_nil (_prio_heir (nth_thr s 4)), prio_max (nth_thr s 3), current (ths s))) (do_ipc 4 lend_kernel).

(** *** Interrupts: the handler (thread 4) waits, interrupt 5 arrives. *)
Definition irq_kernel : kernel :=
  let s := wait_kernel Receive_ipc (call_frame 0 []) 0 in set_ints s (<[5%nat := MkInt (gid 4) false]> (ints s)).
Definition irq_run : option (state_t * Z * Z) :=
  after (fun s => (_state (nth_thr s 4), utcb_msgtag (nth_thr s 4), nth F_syscall (x_frame (nth_x s 4)) 0)) (sparc_entry_irq 1 5 irq_kernel).

(** *** A pager (thread 3, priority 50) receives a pending fault of thread 4
    (priority 60). *)
Definition pager_kernel : kernel :=
  let s := sample_kernel (call_frame 7 [Thrid_nil; Thrid_any; 0]) [] (call_frame 0 []) [] in
  set_xthr s (<[4%nat := with_partners (nth_x s 4) (Some 2%nat) (Some 3%nat)]> (xthr s)).
Definition pager_run : option (nat * state_t * state_t) :=
  match run_configs 1 [EPagefault false 0x5000 0 0x1000; ESyscall; ESyscall] (start_config pager_kernel) with
  | Some c => Some (current (ths (krn c)), _state (nth_thr (krn c) 4), _state (nth_thr (krn c) 3))
  | None => None
  end.

(** *** Map items: two tasks with root tables of their own. *)
Definition root_tb2 : Z := 0xf0100400.
Definition two_st : pstate kmem :=
  MkP {[ root_tb := replicate 256 0; root_tb2 := replicate 256 0 ]}
    (MkKmem (MkA [(0x10, MkDesc 0xf0100000 0x800 Busy); (0x20, MkDesc 0xf0100800 0xf800 Free)] (map Z.of_nat (seq 48 16))) 0xf800).
Definition two_k : kspace := MkKs (MkPg two_st [] 0) (MkA [] []) sample_ranges 0.
Definition map_in (k : kspace) (a : aspace) (va pa sz : Z) : kspace * aspace :=
  get_Ok_or (k, a) (aspace_map (AR := sparc_arch) kdiff kva k a va pa sz Acc_urw 1).
(** The sender's pages at 0x10000000 and 0x10001000 are on the frames
    0x40000000 and 0x40800000. *)
Definition snd_space : kspace * aspace :=
  let p := map_in two_k (MkAs (MkPgtab root_tb 4) (MkA [] [1; 2; 3; 4; 5; 6; 7; 8]) 4) 0x10000000 0x40000000 0x1000 in
  map_in p.1 p.2 0x10001000 0x40800000 0x1000.
Definition snd_task : task := with_aspace (sample_task 4) snd_space.2.
Definition rcv_task : task := with_aspace (sample_task 5) (MkAs (MkPgtab root_tb2 5) (MkA [] [1; 2; 3; 4; 5; 6; 7; 8]) 5).

(** Thread 3 sends [item] (map or grant) with [size] bytes from 0x10000000 to
    thread 4, which accepts the complete address space. *)
Definition item_kernel (size : Z) (grant : bool) : kernel :=
  let fp := get_Ok_or 0 (fpage_set 0 0x10000000 size Acc_rw) in
  let w := mitem_set 0 fp false in
  let w0 := if grant then mitem_set_grant w.1 else w.1 in
  let s := wait_kernel Receive_ipc (call_frame 7 [gid 4; Thrid_nil; 0]) (tag_set_ipc 5 0 2) in
  let x3 := with_mr (nth_x s 3) (w0 :: w.2 :: drop 2 (x_mr (nth_x s 3))) in
  let x4 := MkX (x_mr (nth_x s 4)) (0x10 :: drop 1 (x_br (nth_x s 4))) 0 0 0 (x_frame (nth_x s 4)) [] 0 0
              (Some 2%nat) (Some 1%nat) 0 false (MkEf 0 0) false 0 in
  set_ks (set_tsks (set_xthr s (<[3%nat := x3]> (<[4%nat := x4]> (xthr s))))
    (MkTasks (store (store (_tasks (tsks s)) 13 snd_task) 14 rcv_task) 6)) snd_space.1.

#[local] Existing Instance sparc_arch.
Definition seen (s : kernel) (root va : Z) : option Z :=
  match translate (vsp kdiff kva (ksp_ s)) ptables (tabs (pg (pgs (ksp_ s)))) root va with
  | Some (pa, _, _) => Some pa
  | None => None
  end.

(** What the two tasks see at 0x10000000 and 0x10001000 after the call. *)
Definition item_run (size : Z) (grant : bool) : option (list (option Z)) :=
  after (fun s => [seen s root_tb 0x10000000; seen s root_tb 0x10001000; seen s root_tb2 0x10000000; seen s root_tb2 0x10001000])
    (do_ipc 3 (item_kernel size grant)).

(** map and grant items of a message, on sample runs of the whole call: a
    map item of one page gives the receiver the sender's frame; a map item of
    two pages whose frames are not adjacent gives the receiver, as its second
    page, the frame after the first one, which the sender never had; and a
    grant item takes the page from the receiver again and leaves it with the
    sender. *)
Theorem map_item_runs :
  item_run 0x1000 false = Some [Some 0x40000000; Some 0x40800000; Some 0x40000000; None] /\
  item_run 0x2000 false = Some [Some 0x40000000; Some 0x40800000; Some 0x40000000; Some 0x40001000] /\
  item_run 0x1000 true = Some [Some 0x40000000; Some 0x40800000; None; None].
Proof. split_and!; vm_compute; reflexivity. Qed.

(** behaviours of the IPC code, on sample runs: a thread of priority 60
    that waits for one of priority 50 does not lend it its priority (the loan
    is taken back when the thread is put into its waiting state); an interrupt
    wakes its handler with the interrupt's id but leaves its message tag as it
    was; a pager that receives a pending page fault of a thread with a higher
    priority is left at once for that thread, which is not ready but waits for
    the pager's reply; and the page fault message of the kernel itself is not
    a page fault request in the sense of the check against forged ones. *)
Theorem ipc_defect_runs :
  lend_run = Some (Send_ipc, true, Ok 50, 3%nat) /\
  irq_run = Some (Ready, 0, thrid_create_irq 5) /\
  pager_run = Some (4%nat, Receive_pfault, Ready) /\
  tag_is_pf_request (tag_set_proto_pf 0 Pagefault Acc_r 2 0) = false.
Proof. split_and!; vm_compute; reflexivity. Qed.
