(* ===== verification/Sem.v ===== *)
(** lib/wrmos: spinlocks (slock.cpp), semaphores (sem.cpp) and mutexes
    (wrm_mtx.h), and the threads of a program that share one semaphore.

    The critical sections of sem.cpp are functions on the semaphore.  A
    configuration holds the semaphore and the control point of every thread;
    [act] is one atomic action of a thread: one round of the spinlock loop,
    one critical section with its unlock, the start or the end of a wait in
    the kernel, or the sending of a wake-up signal.  That a critical section
    is one action is justified by [lock_excl] of [SemSpec]: while a thread is
    in one, no other thread is.

    The kernel's part is the software interrupt of ipc.cpp (label 0x202): a
    signal to a thread is kept in its flag [_signal_pending] until the thread
    waits for it; a wait ends with the signal or, if it is limited, with a
    timeout. *)

From Stdlib Require Import ZArith Lia Bool.
From stdpp Require Import base gmap list numbers relations.
From S2P Require Import Prelude L4Types.

(** ** slock.cpp *)

(** ldstub reads and sets the byte at the address of the word, its most
    significant byte. *)
Definition test_and_set (lock : Z) : Z * Z := (Z.shiftr lock 24, Z.lor lock 0xff000000).
Definition wrm_spinlock_init : Z := 0.
Definition wrm_spinlock_unlock : Z := 0.

(** One round of the loop of wrm_spinlock_lock: whether the lock is taken, the
    lock word and the counter of failed rounds (50 rounds with a thread
    switch, then one with a sleep). *)
Definition spin_round (lock cnt : Z) : bool * Z * Z :=
  let '(old, lock') := test_and_set lock in
  if old =? 0 then (true, lock', cnt)
  else (false, lock', if cnt <? 50 then cnt + 1 else 0).

(** ** wrm_sem.h *)

Definition Wrm_sem_binary : Z := 1.
Definition Wrm_sem_recursive : Z := 2.
Definition Wrm_sem_timeout_infinite : Z := -1.
Definition Wrm_sem_err_timeout : Z := 99.
Definition Wrm_sem_queue_length : nat := 8.
Definition Wrm_sem_value_max : Z := 256.

Record sem := MkSem {
  lock : Z; value : Z; owner : Z; wait_queue : list Z; rp : nat; wp : nat; mode : Z }.

Definition with_lock s v := MkSem v (value s) (owner s) (wait_queue s) (rp s) (wp s) (mode s).
Definition with_value s v o := MkSem (lock s) v o (wait_queue s) (rp s) (wp s) (mode s).
Definition with_queue s q r w := MkSem (lock s) (value s) (owner s) q r w (mode s).

Definition is_binary (m : Z) : bool := negb (Z.land m Wrm_sem_binary =? 0).
Definition is_recursive (m : Z) : bool := negb (Z.land m Wrm_sem_recursive =? 0).

(** ** sem.cpp *)

Definition zero_sem : sem := MkSem 0 0 Thrid_nil (replicate Wrm_sem_queue_length Thrid_nil) 0 0 0.

Definition wrm_sem_init (s : sem) (m v : Z) : Z * sem :=
  if is_recursive m && negb (is_binary m) then (1, s)
  else if Wrm_sem_value_max <? v then (2, s)
  else (0, MkSem wrm_spinlock_init (if is_binary m && negb (v =? 0) then 1 else v) Thrid_nil
             (wait_queue zero_sem) 0 0 m).

Definition wrm_sem_destroy (s : sem) : Z * sem := (0, zero_sem).

(** The critical section of wrm_sem_setvalue. *)
Definition setvalue_section (s : sem) (v : Z) : sem :=
  with_value s (if is_binary (mode s) && negb (v =? 0) then 1 else v) (owner s).
Definition wrm_sem_setvalue (s : sem) (v : Z) : Z * sem :=
  if Wrm_sem_value_max <? v then (2, s) else (0, setvalue_section s v).
Definition wrm_sem_getvalue (s : sem) : Z := value s.

Definition next_pos (p : nat) : nat := if Nat.eqb (p + 1) Wrm_sem_queue_length then 0%nat else (p + 1)%nat.

(** The loop of dequeue, from position [p] with the flag [found]. *)
Fixpoint dequeue_loop (fuel : nat) (q : list Z) (w : nat) (thr : Z) (p : nat) (found : bool) : res (bool * list Z) :=
  if Nat.eqb p w then Ok (found, q) else
  match fuel with
  | O => Stop FFuel
  | S f =>
      x ← from_opt FMem (q !! p);
      let found' := found || (x =? thr) in
      y ← from_opt FMem (q !! next_pos p);
      dequeue_loop f (if found' then <[p := y]> q else q) w thr (next_pos p) found'
  end.
Definition dequeue (s : sem) (thr : Z) : res (bool * sem) :=
  r ← dequeue_loop Wrm_sem_queue_length (wait_queue s) (wp s) thr (rp s) false;
  Ok (r.1 : bool, with_queue s r.2 (rp s)
             (if r.1 then (if Nat.eqb (wp s) 0 then Wrm_sem_queue_length - 1 else wp s - 1)%nat else wp s)).

Fixpoint exist_loop (fuel : nat) (q : list Z) (w : nat) (thr : Z) (p : nat) : res bool :=
  if Nat.eqb p w then Ok false else
  match fuel with
  | O => Stop FFuel
  | S f => x ← from_opt FMem (q !! p);
           if x =? thr then Ok true else exist_loop f q w thr (next_pos p)
  end.
Definition exist_in_queue (s : sem) (thr : Z) : res bool :=
  exist_loop Wrm_sem_queue_length (wait_queue s) (wp s) thr (rp s).

(** The first critical section of wrm_sem_wait: [Some rc] if the call returns,
    None if the thread is now in the queue. *)
Definition wait_section (s : sem) (self tmo : Z) : res (option Z * sem) :=
  if is_recursive (mode s) && (owner s =? self) then Ok (Some 0, s)
  else if negb (value s =? 0) then
    Ok (Some 0, with_value s (value s - 1) (if is_binary (mode s) then self else owner s))
  else if tmo =? 0 then Ok (Some Wrm_sem_err_timeout, s)
  else
    let next_wp := next_pos (wp s) in
    if Nat.eqb next_wp (rp s) then Ok (Some 2, s)
    else
      _ ← from_opt FMem (wait_queue s !! wp s);
      Ok (None, with_queue s (<[wp s := self]> (wait_queue s)) (rp s) next_wp).

(** The critical section of wrm_sem_post: return code, the thread to wake (or
    nil) and the semaphore. *)
Definition post_section (s : sem) (self : Z) : res (Z * Z * sem) :=
  if value s =? Wrm_sem_value_max then Ok (1, Thrid_nil, s)
  else
    r ← (if negb (Nat.eqb (wp s) (rp s)) then
           _ ← wassert (value s =? 0);
           thr ← from_opt FMem (wait_queue s !! rp s);
           _ ← wassert (negb (thr =? self));
           Ok (thr, with_queue s (wait_queue s) (next_pos (rp s)) (wp s))
         else
           Ok (Thrid_nil, with_value s (if is_binary (mode s) then 1 else value s + 1) (owner s)));
    Ok (0, r.1, if is_binary (mode s) then with_value r.2 (value r.2) r.1 else r.2).

(** wrm_mtx.h *)
Definition wrm_mtx_init (s : sem) : Z * sem := wrm_sem_init s Wrm_sem_binary 1.
Definition wrm_mtx_init_recursive (s : sem) : Z * sem := wrm_sem_init s (Z.lor Wrm_sem_binary Wrm_sem_recursive) 1.

(** ** Threads that share the semaphore *)

(** Control points.  [Out rc]: no call is running, the last one returned [rc];
    [Hold]: the last call was a successful wait. *)
Inductive pc :=
| Out (rc : Z)
| Hold
| WaitSpin (tmo cnt : Z)       (* wrm_sem_wait: first lock *)
| WaitIn (tmo : Z)
| Suspended (tmo : Z)          (* in suspend() *)
| CheckSpin (tmo cnt : Z)      (* woken: is the thread still in the queue? *)
| CheckIn (tmo : Z)
| QuitSpin (cnt : Z)           (* timeout: leave the queue *)
| QuitIn
| PostSpin (cnt : Z)           (* wrm_sem_post *)
| PostIn
| Resume (thr : Z).            (* in resume(): the signal is to be sent *)

Record tstate := MkT { pos : pc; pending : bool }.

(** [posts] and [grants] count the posts done and the units given to waiting
    or arriving threads; the code has no such counters. *)
Record config := MkCfg { sm : sem; thrs : gmap Z tstate; posts : Z; grants : Z }.

Inductive ev := EWait (tmo : Z) | EPost | ERun | ETimeout.

Definition goes (c : config) (t : Z) (s : sem) (th : tstate) (p : pc) : config :=
  MkCfg s (<[t := MkT p (pending th)]> (thrs c)) (posts c) (grants c).
Definition granted (c : config) : config := MkCfg (sm c) (thrs c) (posts c) (grants c + 1).
Definition posted (c : config) : config := MkCfg (sm c) (thrs c) (posts c + 1) (grants c).
Definition unlocked (s : sem) : sem := with_lock s wrm_spinlock_unlock.
Definition returned (rc : Z) : pc := if rc =? 0 then Hold else Out rc.

(** The action of a spinlock loop: on to [next] or another round. *)
Definition spin (c : config) (t : Z) (th : tstate) (cnt : Z) (again : Z -> pc) (next : pc) : config :=
  let '(taken, l, cnt') := spin_round (lock (sm c)) cnt in
  goes c t (with_lock (sm c) l) th (if taken then next else again cnt').

Definition run_act (c : config) (t : Z) (th : tstate) : option (res config) :=
  match pos th with
  | Out _ | Hold => None
  | WaitSpin tmo cnt => Some (Ok (spin c t th cnt (WaitSpin tmo) (WaitIn tmo)))
  | WaitIn tmo => Some (
      r ← wait_section (sm c) t tmo;
      Ok match r.1 with
         | Some rc => let c' := goes c t (unlocked r.2) th (returned rc) in
                      if (rc =? 0) && negb (is_recursive (mode (sm c)) && (owner (sm c) =? t)) then granted c' else c'
         | None => goes c t (unlocked r.2) th (Suspended tmo)
         end)
  | Suspended tmo =>
      if pending th then Some (Ok (goes c t (sm c) (MkT (pos th) false) (CheckSpin tmo 0))) else None
  | CheckSpin tmo cnt => Some (Ok (spin c t th cnt (CheckSpin tmo) (CheckIn tmo)))
  | CheckIn tmo => Some (
      e ← exist_in_queue (sm c) t;
      Ok (goes c t (unlocked (sm c)) th (if e : bool then Suspended tmo else Hold)))
  | QuitSpin cnt => Some (Ok (spin c t th cnt QuitSpin QuitIn))
  | QuitIn => Some (
      r ← dequeue (sm c) t;
      Ok (goes c t (unlocked r.2) th (if r.1 : bool then Out Wrm_sem_err_timeout else Hold)))
  | PostSpin cnt => Some (Ok (spin c t th cnt PostSpin PostIn))
  | PostIn => Some (
      r ← post_section (sm c) t;
      let '(rc, thr, s) := r in
      let c' := goes c t (unlocked s) th (if thrid_is_nil thr then Out rc else Resume thr) in
      let c'' := if rc =? 0 then posted c' else c' in
      Ok (if thrid_is_nil thr then c'' else granted c''))
  | Resume thr => Some (
      u ← from_opt FAssert (thrs c !! thr);
      Ok (goes (MkCfg (sm c) (<[thr := MkT (pos u) true]> (thrs c)) (posts c) (grants c)) t (sm c)
            (if thr =? t then MkT (pos th) true else th) (Out 0)))
  end.

(** Where the threads of a program call wrm_sem_wait and wrm_sem_post. *)
Record client := MkClient { may_wait : pc -> bool; may_post : pc -> bool }.

Definition act (D : client) (c : config) (t : Z) (e : ev) : option (res config) :=
  match thrs c !! t with
  | None => None
  | Some th =>
      match e, pos th with
      | EWait tmo, (Out _ | Hold) =>
          if negb (may_wait D (pos th)) then None
          else if (tmo <? 0) && negb (tmo =? Wrm_sem_timeout_infinite) then Some (Ok (goes c t (sm c) th (Out 1)))
          else Some (Ok (goes c t (sm c) th (WaitSpin tmo 0)))
      | EPost, (Out _ | Hold) => if may_post D (pos th) then Some (Ok (goes c t (sm c) th (PostSpin 0))) else None
      | ERun, _ => run_act c t th
      | ETimeout, Suspended tmo =>
          if negb (tmo =? Wrm_sem_timeout_infinite) && negb (pending th) then Some (Ok (goes c t (sm c) th (QuitSpin 0)))
          else None
      | _, _ => None
      end
  end.

Definition step (D : client) (c c' : config) : Prop := exists t e, act D c t e = Some (Ok c').

(** Mutex clients lock when they do not hold the mutex and unlock when they
    do; semaphore clients wait and post at any time. *)
Definition is_hold (p : pc) : bool := match p with Hold => true | _ => false end.
Definition mutex_client : client := MkClient (fun p => negb (is_hold p)) is_hold.
Definition any_client : client := MkClient (fun _ => true) (fun _ => true).

Definition sem_start (s : sem) (ids : list Z) : config :=
  MkCfg s (list_to_map ((fun t => (t, MkT (Out 0) false)) <$> ids)) 0 0.

(** A run of actions, for examples. *)
Fixpoint acts (D : client) (c : config) (l : list (Z * ev)) : option (res config) :=
  match l with
  | [] => Some (Ok c)
  | (t, e) :: l' => match act D c t e with
                    | Some (Ok c') => acts D c' l'
                    | r => r
                    end
  end.
