(* ===== verification/SemSpec.v ===== *)
(** What the semaphores of [Sem] guarantee: the ring buffer of waiting threads
    is a FIFO queue, the spinlock admits one thread at a time, no permit is
    created or lost, a mutex has at most one holder, and a thread that has
    been given the semaphore can always return. *)

From Stdlib Require Import ZArith Lia Bool.
From stdpp Require Import base gmap list numbers relations.
From S2P Require Import Prelude L4Types Sem.

(** ** The ring of waiting threads *)

(** [l] from position [p] on *)
Definition held (q : list Z) (p : nat) (l : list Z) : Prop :=
  forall i x, l !! i = Some x -> q !! ((p + i) mod 8)%nat = Some x.

Record ring (s : sem) (l : list Z) : Prop := {
  ring_len : length (wait_queue s) = 8%nat;
  ring_rp : (rp s < 8)%nat;
  ring_wp : wp s = ((rp s + length l) mod 8)%nat;
  ring_cap : (length l <= 7)%nat;
  ring_held : held (wait_queue s) (rp s) l }.

Ltac nmod := repeat match goal with
  | H : context [(?a mod 8)%nat] |- _ => lazymatch goal with
      | _ : (a = 8 * (a / 8) + a mod 8)%nat |- _ => fail
      | _ => pose proof (Nat.div_mod a 8 ltac:(lia)); pose proof (Nat.mod_upper_bound a 8 ltac:(lia)) end
  | |- context [(?a mod 8)%nat] => lazymatch goal with
      | _ : (a = 8 * (a / 8) + a mod 8)%nat |- _ => fail
      | _ => pose proof (Nat.div_mod a 8 ltac:(lia)); pose proof (Nat.mod_upper_bound a 8 ltac:(lia)) end
  end.
Ltac ring_lia := nmod; lia.

#[local] Arguments Nat.modulo : simpl never.

Lemma next_pos_mod p : (p < 8)%nat -> next_pos p = ((p + 1) mod 8)%nat.
Proof.
  intros. unfold next_pos, Wrm_sem_queue_length. destruct (Nat.eqb_spec (p + 1) 8) as [->|]; [done |].
  rewrite Nat.mod_small by lia. done.
Qed.

Lemma mod_step p i : (((p + 1) mod 8 + i) mod 8 = (p + S i) mod 8)%nat.
Proof. rewrite Nat.Div0.add_mod_idemp_l. f_equal. lia. Qed.

Lemma held_tail q p x l : held q p (x :: l) -> held q ((p + 1) mod 8) l.
Proof. intros H i y Hi. rewrite mod_step. by apply H. Qed.

Lemma held_head q p x l : (p < 8)%nat -> held q p (x :: l) -> q !! p = Some x.
Proof. intros Hp H. specialize (H 0%nat x eq_refl). rewrite Nat.add_0_r, Nat.mod_small in H by lia. done. Qed.

Lemma held_insert q p l j v : (p < 8)%nat -> (length l <= 7)%nat -> (forall i, (i < length l)%nat -> ((p + i) mod 8)%nat <> j) ->
  held q p l -> held (<[j := v]> q) p l.
Proof.
  intros Hp Hl Hj H i x Hi. rewrite list_lookup_insert_ne; [by apply H |].
  apply not_eq_sym, Hj. by eapply lookup_lt_Some.
Qed.

(** *** The walks over the ring *)

Lemma exist_loop_ok q w thr l p fuel : (p < 8)%nat -> w = ((p + length l) mod 8)%nat -> (length l <= 7)%nat ->
  (length l <= fuel)%nat -> held q p l -> exist_loop fuel q w thr p = Ok (bool_decide (thr ∈ l)).
Proof.
  revert p fuel. induction l as [|x l IH]; intros p fuel Hp Hw Hl Hf H; cbn [length] in *.
  - rewrite Nat.add_0_r, Nat.mod_small in Hw by lia. subst w. destruct fuel; simpl; by rewrite Nat.eqb_refl.
  - destruct fuel as [|f]; [lia |]. simpl. rewrite (proj2 (Nat.eqb_neq p w)) by ring_lia.
    rewrite (held_head q p x l) by done. simpl. destruct (Z.eqb_spec x thr) as [->|Hx].
    + rewrite bool_decide_eq_true_2 by set_solver. done.
    + rewrite next_pos_mod by done. rewrite IH; [| ring_lia | | lia | lia | by eapply held_tail].
      * f_equal. apply bool_decide_ext. set_solver.
      * rewrite mod_step. done.
Qed.

(** The list without the first occurrence of [thr]. *)
Fixpoint remove1 (thr : Z) (l : list Z) : list Z :=
  match l with [] => [] | x :: l' => if x =? thr then l' else x :: remove1 thr l' end.

(** Once the thread has been found, the rest of the ring moves down by one:
    [d] is in place, the free place before [p] has the next value already. *)
Lemma dequeue_found w thr l p q d r fuel : (r < 8)%nat -> length q = 8%nat ->
  p = ((r + S (length d)) mod 8)%nat -> w = ((p + length l) mod 8)%nat -> (length d + length l <= 6)%nat -> (length l <= fuel)%nat ->
  held q r d -> held q p l -> (forall x, head l = Some x -> q !! ((r + length d) mod 8)%nat = Some x) ->
  exists q', dequeue_loop fuel q w thr p true = Ok (true, q') /\ length q' = 8%nat /\ held q' r (d ++ l).
Proof.
  intros Hr. revert p q d fuel. induction l as [|x l IH]; intros p q d fuel Hq Hp Hw Hl Hf Hd Hh Hx; cbn [length] in *.
  - rewrite Nat.add_0_r, Nat.mod_small in Hw by ring_lia. subst w. exists q.
    destruct fuel; simpl; rewrite Nat.eqb_refl, app_nil_r; done.
  - destruct fuel as [|f]; [lia |]. simpl. rewrite (proj2 (Nat.eqb_neq p w)) by ring_lia.
    assert (Hp8 : (p < 8)%nat) by ring_lia.
    rewrite (held_head q p x l Hp8 Hh). simpl. rewrite next_pos_mod by done.
    assert (exists y, q !! ((p + 1) mod 8)%nat = Some y) as [y Hy] by (apply lookup_lt_is_Some; rewrite Hq; ring_lia).
    rewrite Hy. simpl.
    destruct (IH ((p + 1) mod 8)%nat (<[p := y]> q) (d ++ [x]) f) as (q' & E & L & R).
    + by rewrite length_insert.
    + rewrite length_app. cbn [length]. ring_lia.
    + rewrite mod_step. done.
    + rewrite length_app. cbn [length]. lia.
    + lia.
    + intros i z Hi. destruct (Nat.lt_ge_cases i (length d)) as [Hlt|Hge].
      * rewrite lookup_app_l in Hi by done. rewrite list_lookup_insert_ne by ring_lia. by apply Hd.
      * rewrite lookup_app_r in Hi by done. destruct (i - length d)%nat eqn:Ei; [| done]. injection Hi as <-.
        replace i with (length d) by lia. rewrite list_lookup_insert_ne by ring_lia. by apply Hx.
    + apply held_insert; [ring_lia | lia | intros; ring_lia | by eapply held_tail].
    + intros z Hz. rewrite length_app. cbn [length]. replace ((r + (length d + 1)) mod 8)%nat with p by ring_lia.
      rewrite list_lookup_insert_eq by lia. destruct l; [done |]. injection Hz as ->.
      rewrite (held_head q _ z l) in Hy; [done | ring_lia | by eapply held_tail].
    + exists q'. rewrite <- app_assoc in R. done.
Qed.

Lemma dequeue_loop_ok w thr l p q d r fuel : (r < 8)%nat -> length q = 8%nat ->
  p = ((r + length d) mod 8)%nat -> w = ((p + length l) mod 8)%nat -> (length d + length l <= 7)%nat -> (length l <= fuel)%nat ->
  held q r (d ++ l) -> exists q', dequeue_loop fuel q w thr p false = Ok (bool_decide (thr ∈ l), q') /\ length q' = 8%nat /\
    held q' r (d ++ remove1 thr l).
Proof.
  intros Hr. revert p q d fuel. induction l as [|x l IH]; intros p q d fuel Hq Hp Hw Hl Hf Hh; cbn [length] in *.
  - rewrite Nat.add_0_r, Nat.mod_small in Hw by ring_lia. subst w. exists q.
    destruct fuel; simpl; by rewrite Nat.eqb_refl.
  - destruct fuel as [|f]; [lia |]. simpl. rewrite (proj2 (Nat.eqb_neq p w)) by ring_lia.
    assert (Hp8 : (p < 8)%nat) by ring_lia.
    assert (Hx : q !! p = Some x).
    { rewrite Hp. apply Hh. rewrite lookup_app_r, Nat.sub_diag by lia. done. }
    rewrite Hx. simpl. rewrite next_pos_mod by done.
    assert (exists y, q !! ((p + 1) mod 8)%nat = Some y) as [y Hy] by (apply lookup_lt_is_Some; rewrite Hq; ring_lia).
    rewrite Hy. simpl. destruct (Z.eqb_spec x thr) as [->|Hne].
    + rewrite bool_decide_eq_true_2 by set_solver.
      assert (Hd : forall i z, (d ++ thr :: l) !! i = Some z -> i <> length d -> (<[p := y]> q) !! ((r + i) mod 8)%nat = Some z).
      { intros i z Hi Hn. rewrite list_lookup_insert_ne; [by apply Hh |].
        apply lookup_lt_Some in Hi. rewrite length_app in Hi. cbn [length] in Hi. ring_lia. }
      destruct (dequeue_found w thr l ((p + 1) mod 8) (<[p := y]> q) d r f) as (q' & E & L & R);
        [done | by rewrite length_insert | ring_lia | by rewrite mod_step | lia | lia | | | | by exists q'].
      * intros i z Hi. pose proof (lookup_lt_Some _ _ _ Hi). apply Hd; [by rewrite lookup_app_l | lia].
      * intros i z Hi. replace ((((p + 1) mod 8) + i) mod 8)%nat with ((r + (length d + S i)) mod 8)%nat by ring_lia.
        apply Hd; [| lia]. rewrite lookup_app_r by lia. by replace (length d + S i - length d)%nat with (S i) by lia.
      * intros z Hz. rewrite <- Hp, list_lookup_insert_eq by lia. destruct l as [|z' l]; [done |]. injection Hz as ->.
        rewrite <- Hy. replace ((p + 1) mod 8)%nat with ((r + (length d + 1)) mod 8)%nat by ring_lia.
        apply Hh. rewrite lookup_app_r by lia. by replace (length d + 1 - length d)%nat with 1%nat by lia.
    + replace (bool_decide (thr ∈ x :: l)) with (bool_decide (thr ∈ l)) by (apply bool_decide_ext; set_solver).
      destruct (IH ((p + 1) mod 8)%nat q (d ++ [x]) f) as (q' & E & L & R).
      * done.
      * rewrite length_app. cbn [length]. ring_lia.
      * by rewrite mod_step.
      * rewrite length_app. cbn [length]. lia.
      * lia.
      * by rewrite <- app_assoc.
      * exists q'. rewrite <- app_assoc in R. done.
Qed.

(** ** The contract: a semaphore with a FIFO queue of waiting threads *)

Record asem := MkAsem { a_value : Z; a_owner : Z; a_queue : list Z; a_mode : Z }.

Definition abs_wait (a : asem) (self tmo : Z) : option Z * asem :=
  if is_recursive (a_mode a) && (a_owner a =? self) then (Some 0, a)
  else if negb (a_value a =? 0) then
    (Some 0, MkAsem (a_value a - 1) (if is_binary (a_mode a) then self else a_owner a) (a_queue a) (a_mode a))
  else if tmo =? 0 then (Some Wrm_sem_err_timeout, a)
  else if Nat.eqb (length (a_queue a)) 7 then (Some 2, a)
  else (None, MkAsem (a_value a) (a_owner a) (a_queue a ++ [self]) (a_mode a)).

Definition abs_post (a : asem) : Z * Z * asem :=
  if a_value a =? Wrm_sem_value_max then (1, Thrid_nil, a)
  else match a_queue a with
       | thr :: l => (0, thr, MkAsem (a_value a) (if is_binary (a_mode a) then thr else a_owner a) l (a_mode a))
       | [] => (0, Thrid_nil, MkAsem (if is_binary (a_mode a) then 1 else a_value a + 1)
                                (if is_binary (a_mode a) then Thrid_nil else a_owner a) [] (a_mode a))
       end.

Definition abs_dequeue (a : asem) (thr : Z) : bool * asem :=
  (bool_decide (thr ∈ a_queue a), MkAsem (a_value a) (a_owner a) (remove1 thr (a_queue a)) (a_mode a)).

Definition refines (s : sem) (a : asem) : Prop :=
  ring s (a_queue a) /\ value s = a_value a /\ owner s = a_owner a /\ mode s = a_mode a.

Lemma ring_full s l : ring s l -> Nat.eqb (next_pos (wp s)) (rp s) = Nat.eqb (length l) 7.
Proof.
  intros [L R W C H]. rewrite next_pos_mod by ring_lia. rewrite W.
  destruct (Nat.eqb_spec (length l) 7) as [E|E]; [rewrite E; apply Nat.eqb_eq; ring_lia | apply Nat.eqb_neq; ring_lia].
Qed.

Lemma ring_empty s l : ring s l -> Nat.eqb (wp s) (rp s) = match l with [] => true | _ => false end.
Proof.
  intros [L R W C H]. rewrite W. destruct l; [apply Nat.eqb_eq | apply Nat.eqb_neq]; cbn [length] in *; ring_lia.
Qed.

Lemma ring_enqueue s l t : ring s l -> (length l < 7)%nat ->
  ring (with_queue s (<[wp s := t]> (wait_queue s)) (rp s) (next_pos (wp s))) (l ++ [t]).
Proof.
  intros [L R W C H] Hl. assert (Hw : (wp s < 8)%nat) by ring_lia. split; simpl.
  - by rewrite length_insert.
  - done.
  - rewrite next_pos_mod, W by done. rewrite length_app, Nat.Div0.add_mod_idemp_l. f_equal. cbn [length]. lia.
  - rewrite length_app. cbn [length]. lia.
  - intros i x Hi. destruct (Nat.lt_ge_cases i (length l)) as [Hlt|Hge].
    + rewrite lookup_app_l in Hi by done. rewrite list_lookup_insert_ne by ring_lia. by apply H.
    + rewrite lookup_app_r in Hi by done. destruct (i - length l)%nat eqn:Ei; [| done]. injection Hi as <-.
      replace ((rp s + i) mod 8)%nat with (wp s) by (rewrite W; f_equal; lia).
      rewrite list_lookup_insert_eq by lia. done.
Qed.

Lemma ring_pop s x l : ring s (x :: l) ->
  wait_queue s !! rp s = Some x /\ ring (with_queue s (wait_queue s) (next_pos (rp s)) (wp s)) l.
Proof.
  intros [L R W C H]. split; [by apply (held_head _ _ _ l) |]. cbn [length] in *. split; simpl.
  - done.
  - rewrite next_pos_mod by done. ring_lia.
  - rewrite next_pos_mod by done. rewrite mod_step. done.
  - lia.
  - rewrite next_pos_mod by done. by eapply held_tail.
Qed.

Lemma length_remove1 thr l : length (remove1 thr l) = (if bool_decide (thr ∈ l) then length l - 1 else length l)%nat.
Proof.
  induction l as [|x l IH]; simpl; [done |]. destruct (Z.eqb_spec x thr) as [->|Hx].
  - rewrite bool_decide_eq_true_2 by set_solver. lia.
  - cbn [length]. rewrite IH. destruct (bool_decide_reflect (thr ∈ l)) as [Hi|Hi].
    + rewrite bool_decide_eq_true_2 by set_solver. destruct l; [by apply not_elem_of_nil in Hi |]. cbn [length]. lia.
    + rewrite bool_decide_eq_false_2 by set_solver. done.
Qed.

Lemma exist_ok s l t : ring s l -> exist_in_queue s t = Ok (bool_decide (t ∈ l)).
Proof. intros [L R W C H]. apply exist_loop_ok; try done. unfold Wrm_sem_queue_length. lia. Qed.

Lemma dequeue_ok s l t : ring s l -> exists s', dequeue s t = Ok (bool_decide (t ∈ l), s') /\ ring s' (remove1 t l) /\
  lock s' = lock s /\ value s' = value s /\ owner s' = owner s /\ mode s' = mode s.
Proof.
  intros [L R W C H]. unfold dequeue.
  destruct (dequeue_loop_ok (wp s) t l (rp s) (wait_queue s) [] (rp s) Wrm_sem_queue_length) as (q' & E & Lq & Hq); try done.
  - cbn [length]. ring_lia.
  - unfold Wrm_sem_queue_length. lia.
  - rewrite E. simpl. eexists. split; [done |]. split; [| done]. split; simpl; try done.
    + rewrite length_remove1. unfold Wrm_sem_queue_length. case_bool_decide as Hi; [| done].
      destruct l; [by apply not_elem_of_nil in Hi |]. cbn [length] in *. destruct (Nat.eqb_spec (wp s) 0); ring_lia.
    + rewrite length_remove1. destruct (bool_decide (t ∈ l)); lia.
Qed.

Lemma wait_ok s a self tmo : refines s a -> exists s', wait_section s self tmo = Ok ((abs_wait a self tmo).1, s') /\
  refines s' (abs_wait a self tmo).2 /\ lock s' = lock s.
Proof.
  intros (R & V & O & M). unfold wait_section, abs_wait. rewrite V, O, M, (ring_full s _ R).
  repeat case_match; simplify_eq/=; try (by eexists; repeat split; try apply R).
  destruct R as [L R W C Hh]. assert (Hw : (wp s < 8)%nat) by ring_lia.
  destruct (lookup_lt_is_Some_2 (wait_queue s) (wp s)) as [x Hx]; [lia |]. rewrite Hx. simpl. eexists. split; [done |].
  split; [| done]. split; [| done]. apply ring_enqueue; [done |].
  match goal with E : Nat.eqb _ 7 = false |- _ => apply Nat.eqb_neq in E end. simpl. lia.
Qed.

Lemma post_ok s a self : refines s a -> (a_queue a <> [] -> a_value a = 0) -> self ∉ a_queue a ->
  exists s', post_section s self = Ok ((abs_post a).1, s') /\ refines s' (abs_post a).2 /\ lock s' = lock s.
Proof.
  intros (R & V & O & M) Hz Hs. unfold post_section, abs_post. rewrite V, M, (ring_empty s _ R).
  destruct (a_value a =? Wrm_sem_value_max); [by eexists |]. destruct (a_queue a) as [|x l] eqn:Eq; simpl.
  - rewrite O. eexists. split; [done |]. destruct (is_binary (a_mode a)); repeat split; try apply R; done.
  - rewrite (Hz ltac:(done)). simpl. destruct (ring_pop s x l R) as [-> R']. simpl.
    rewrite (proj2 (Z.eqb_neq x self)) by set_solver. simpl. eexists. split; [done |]. rewrite (Hz ltac:(done)) in V.
    destruct (is_binary (a_mode a)); simpl; (split; [split; [destruct R'; by split | done] | done]).
Qed.

Lemma init_refines s m v : (wrm_sem_init s m v).1 = 0 ->
  refines (wrm_sem_init s m v).2 (MkAsem (if is_binary m && negb (v =? 0) then 1 else v) Thrid_nil [] m) /\ v <= Wrm_sem_value_max.
Proof.
  unfold wrm_sem_init. destruct (is_recursive m && negb (is_binary m)); [done |].
  destruct (Z.ltb_spec Wrm_sem_value_max v); [done |]. intros _. split; [| lia]. split; [| done].
  split; simpl; try done; lia.
Qed.

(** C22: the critical sections of the semaphore, which keep the waiting threads
    in a ring of eight places with a read and a write position, do exactly
    what a semaphore with a FIFO queue does: wait takes a unit, or fails, or
    appends the thread (and refuses when seven threads wait), post hands the
    unit to the longest waiting thread or increments the value, a thread that
    gives up is taken out of the queue wherever it stands, the others keep
    their order, and no access leaves the ring. *)
Theorem sem_sections_refine s a self : refines s a ->
  (forall tmo, exists s', wait_section s self tmo = Ok ((abs_wait a self tmo).1, s') /\ refines s' (abs_wait a self tmo).2) /\
  ((a_queue a <> [] -> a_value a = 0) -> self ∉ a_queue a ->
   exists s', post_section s self = Ok ((abs_post a).1, s') /\ refines s' (abs_post a).2) /\
  exist_in_queue s self = Ok (bool_decide (self ∈ a_queue a)) /\
  (exists s', dequeue s self = Ok ((abs_dequeue a self).1, s') /\ refines s' (abs_dequeue a self).2).
Proof.
  intros R. split_and!.
  - intros tmo. destruct (wait_ok s a self tmo R) as (s' & ? & ? & _). eauto.
  - intros Hz Hs. destruct (post_ok s a self R Hz Hs) as (s' & ? & ? & _). eauto.
  - apply exist_ok, R.
  - destruct R as (R & V & O & M). destruct (dequeue_ok s _ self R) as (s' & E & R' & _ & Ev & Eo & Em).
    exists s'. split; [done |]. split; [done |]. simpl. by rewrite Ev, Eo, Em.
Qed.

(** ** The threads

    What an action of a thread does, in terms of the list [l] of waiting
    threads and of the thread [k] that is in a critical section. *)

Definition in_wait (p : pc) : bool :=
  match p with Suspended _ | CheckSpin _ _ | CheckIn _ | QuitSpin _ | QuitIn => true | _ => false end.
Definition in_crit (p : pc) : bool :=
  match p with WaitIn _ | CheckIn _ | QuitIn | PostIn => true | _ => false end.
Definition lock_word (k : option Z) : Z := match k with Some _ => 0xff000000 | None => 0 end.
Definition view (s : sem) (l : list Z) : asem := MkAsem (value s) (owner s) l (mode s).

(** Control points of a spinlock loop and the critical section behind it. *)
Definition spins (p : pc) : option pc :=
  match p with
  | WaitSpin tmo _ => Some (WaitIn tmo)
  | CheckSpin tmo _ => Some (CheckIn tmo)
  | QuitSpin _ => Some QuitIn
  | PostSpin _ => Some PostIn
  | _ => None
  end.

(** The invariant of the shared state: the ring holds the waiting threads, the
    lock word is set exactly while one thread is in a critical section, a
    thread that is suspended and no longer in the queue has its signal, or
    some thread is about to send it. *)
Record base (s : sem) (m : gmap Z tstate) (l : list Z) (k : option Z) : Prop := {
  b_ring : ring s l;
  b_nodup : NoDup l;
  b_wait : forall t, t ∈ l -> exists th, m !! t = Some th /\ in_wait (pos th) = true;
  b_lock : lock s = lock_word k;
  b_crit : forall t th, m !! t = Some th -> in_crit (pos th) = true <-> k = Some t;
  b_crit_in : forall t, k = Some t -> is_Some (m !! t);
  b_zero : l <> [] -> value s = 0;
  b_value : 0 <= value s <= Wrm_sem_value_max;
  b_nil : m !! Thrid_nil = None;
  b_signal : forall t th tmo, m !! t = Some th -> pos th = Suspended tmo -> t ∉ l ->
    pending th = true \/ exists p ph, m !! p = Some ph /\ pos ph = Resume t;
  b_resume : forall p ph t, m !! p = Some ph -> pos ph = Resume t -> p <> t /\ is_Some (m !! t) }.

Inductive move (D : client) (c : config) (t : Z) (th : tstate) (l : list Z) (k : option Z) :
  config -> list Z -> option Z -> Prop :=
| mv_call p : match pos th with Out _ => True | Hold => True | _ => False end ->
    match p with Out rc => rc <> 0 /\ may_wait D (pos th) = true | WaitSpin _ _ => may_wait D (pos th) = true
               | PostSpin _ => may_post D (pos th) = true | _ => False end ->
    move D c t th l k (goes c t (sm c) th p) l k
| mv_again p q u : spins (pos th) = Some q -> spins p = Some q -> k = Some u ->
    move D c t th l k (goes c t (with_lock (sm c) (lock_word k)) th p) l k
| mv_lock q : spins (pos th) = Some q -> k = None ->
    move D c t th l k (goes c t (with_lock (sm c) (lock_word (Some t))) th q) l (Some t)
| mv_enter tmo rc s' a : pos th = WaitIn tmo -> abs_wait (view (sm c) l) t tmo = (rc, a) -> refines s' a -> lock s' = 0 ->
    let c' := goes c t s' th match rc with Some v => returned v | None => Suspended tmo end in
    move D c t th l k
      match rc with Some v => if (v =? 0) && negb (is_recursive (mode (sm c)) && (owner (sm c) =? t)) then granted c' else c' | None => c' end
      (a_queue a) None
| mv_wake tmo : pos th = Suspended tmo -> pending th = true ->
    move D c t th l k (goes c t (sm c) (MkT (pos th) false) (CheckSpin tmo 0)) l k
| mv_check tmo : pos th = CheckIn tmo ->
    move D c t th l k (goes c t (unlocked (sm c)) th (if bool_decide (t ∈ l) then Suspended tmo else Hold)) l None
| mv_timeout tmo : pos th = Suspended tmo -> tmo <> Wrm_sem_timeout_infinite ->
    move D c t th l k (goes c t (sm c) th (QuitSpin 0)) l k
| mv_quit s' : pos th = QuitIn -> refines s' (abs_dequeue (view (sm c) l) t).2 -> lock s' = 0 ->
    move D c t th l k (goes c t s' th (if bool_decide (t ∈ l) then Out Wrm_sem_err_timeout else Hold)) (remove1 t l) None
| mv_post rc thr a s' : pos th = PostIn -> abs_post (view (sm c) l) = (rc, thr, a) -> refines s' a -> lock s' = 0 ->
    let c' := goes c t s' th (if thrid_is_nil thr then Out rc else Resume thr) in
    let c'' := if rc =? 0 then posted c' else c' in
    move D c t th l k (if thrid_is_nil thr then c'' else granted c'') (a_queue a) None
| mv_resume u uth : pos th = Resume u -> thrs c !! u = Some uth ->
    move D c t th l k
      (MkCfg (sm c) (<[t := MkT (Out 0) (pending th)]> (<[u := MkT (pos uth) true]> (thrs c))) (posts c) (grants c)) l k.

Lemma refines_unlocked s a : refines s a -> refines (unlocked s) a.
Proof. intros ([] & ?). by split. Qed.

Lemma spin_move D c t th l k cnt again next : base (sm c) (thrs c) l k -> spins (pos th) = Some next ->
  (forall n, spins (again n) = Some next) -> exists k', move D c t th l k (spin c t th cnt again next) l k'.
Proof.
  intros B Hs Hq. unfold spin, spin_round, test_and_set. rewrite (b_lock _ _ _ _ B).
  destruct k as [u|]; simpl; eexists; [by eapply (mv_again _ _ _ _ _ (Some u)) | by apply mv_lock].
Qed.

(** Every action is one of these moves; in particular no assertion fails, no
    access leaves the ring and no loop runs out of fuel. *)
Lemma act_move D c t e r l k : base (sm c) (thrs c) l k -> act D c t e = Some r ->
  exists th c' l' k', r = Ok c' /\ thrs c !! t = Some th /\ move D c t th l k c' l' k'.
Proof.
  intros B H. unfold act in H. destruct (thrs c !! t) as [th|] eqn:Et; [| done].
  assert (R : refines (sm c) (view (sm c) l)) by (split; [apply B | done]).
  assert (Hspin : forall cnt again next, spins (pos th) = Some next -> (forall n, spins (again n) = Some next) ->
    Some (Ok (spin c t th cnt again next)) = Some r ->
    exists th' c' l' k', r = Ok c' /\ Some th = Some th' /\ move D c t th' l k c' l' k').
  { intros cnt again next H1 H2 [= <-]. destruct (spin_move D c t th l k cnt again next B H1 H2) as [k' M]. eauto 10. }
  destruct e as [tmo| | |].
  - destruct (pos th) as [rc|?|?|?|?|?|?|?|?|?|?|?] eqn:Ep; try done.
    all: destruct (may_wait D _) eqn:Ed; [| done]; simpl in H.
    all: destruct ((tmo <? 0) && negb (tmo =? Wrm_sem_timeout_infinite)); injection H as <-; do 4 eexists; (split_and!; [done | done |]);
      apply mv_call; rewrite Ep; eauto.
  - destruct (pos th) eqn:Ep; try done; destruct (may_post D _) eqn:Ed; try done; injection H as <-; do 4 eexists; (split_and!; [done | done |]);
      apply mv_call; rewrite ?Ep; eauto.
  - unfold run_act in H. destruct (pos th) as [rc| |tmo cnt|tmo|tmo|tmo cnt|tmo|cnt| |cnt| |u] eqn:Ep; try done;
      try (eapply Hspin; [reflexivity | | exact H]; by intros).
    + destruct (wait_ok (sm c) (view (sm c) l) t tmo R) as (s' & E & R' & L). rewrite E in H. simpl in H. injection H as <-.
      destruct (abs_wait (view (sm c) l) t tmo) as [rc a] eqn:Ea. simpl in *. clear Hspin.
      exists th. eexists _, (a_queue a), None. split_and!; [done | done |].
      pose proof (mv_enter D c t th l k tmo rc (unlocked s') a Ep Ea (refines_unlocked s' a R') eq_refl) as M. by destruct rc.
    + destruct (pending th) eqn:Eg; [| done]. injection H as <-. do 4 eexists. split_and!; [done | done |]. rewrite <- Ep.
      by eapply mv_wake.
    + rewrite (exist_ok _ l t (b_ring _ _ _ _ B)) in H. simpl in H. injection H as <-. do 4 eexists. split_and!; [done | done |].
      by apply mv_check.
    + destruct (dequeue_ok (sm c) l t (b_ring _ _ _ _ B)) as (s' & E & R' & L & V & O & Mo). rewrite E in H. simpl in H.
      injection H as <-. do 4 eexists. split_and!; [done | done |]. apply mv_quit; try done.
      apply refines_unlocked. split; [done |]. simpl. by rewrite V, O, Mo.
    + destruct (post_ok (sm c) (view (sm c) l) t R) as (s' & E & R' & L).
      * apply (b_zero _ _ _ _ B).
      * simpl. intros Hi. destruct (b_wait _ _ _ _ B t Hi) as (th' & E' & W). simplify_eq. by rewrite Ep in W.
      * destruct (abs_post (view (sm c) l)) as [[rc thr] a] eqn:Ea. simpl in *. rewrite E in H. simpl in H. injection H as <-.
        do 4 eexists. split_and!; [done | done |]. by apply (mv_post D c t th l k rc thr a (unlocked s')); try apply refines_unlocked.
    + destruct (b_resume _ _ _ _ B t th u Et Ep) as [Hn [uth Hu]]. rewrite Hu in H. simpl in H.
      rewrite (proj2 (Z.eqb_neq u t)) in H by done. injection H as <-. do 4 eexists. split_and!; [done | done |].
      unfold goes. simpl. by apply mv_resume.
  - destruct (pos th) as [rc| |? ?|?|tmo|? ?|?|?| |?| |?] eqn:Ep; try done.
    destruct (Z.eqb_spec tmo Wrm_sem_timeout_infinite); [done |]. destruct (pending th); [done |]. simpl in H. injection H as <-.
    do 4 eexists. split_and!; [done | done |]. by eapply mv_timeout.
Qed.

(** *** The invariant is kept *)

(** Thread [t] moves on to [p']; the other waiting threads stay, except one
    that [t] is going to wake. *)
Lemma base_put s m l k t th s' p' b' l' k' : base s m l k -> m !! t = Some th ->
  ring s' l' -> NoDup l' -> lock s' = lock_word k' -> (l' <> [] -> value s' = 0) -> 0 <= value s' <= Wrm_sem_value_max ->
  (forall u, u <> t -> u ∈ l' -> u ∈ l) -> (t ∈ l' -> in_wait p' = true) ->
  (in_crit p' = true <-> k' = Some t) -> (forall u, u <> t -> k' = Some u <-> k = Some u) ->
  (forall u, u <> t -> u ∈ l -> u ∉ l' -> p' = Resume u) -> (forall tmo, p' = Suspended tmo -> t ∈ l') ->
  (forall u, pos th <> Resume u) -> (forall u, p' = Resume u -> u <> t /\ u ∈ l) ->
  base s' (<[t := MkT p' b']> m) l' k'.
Proof.
  intros B Ht Hr Hn Hl Hz Hv Hsub Hw Hc Hk Hlost Hs Hnr Hres. split; try done.
  - intros u Hu. destruct (decide (u = t)) as [->|Hne].
    + rewrite lookup_insert_eq. eexists. split; [done |]. by apply Hw.
    + rewrite lookup_insert_ne by done. apply (b_wait _ _ _ _ B). by apply Hsub.
  - intros u uth Hu. destruct (decide (u = t)) as [->|Hne].
    + rewrite lookup_insert_eq in Hu. by injection Hu as <-.
    + rewrite lookup_insert_ne in Hu by done. rewrite (b_crit _ _ _ _ B u uth Hu), Hk; done.
  - intros u Hu. destruct (decide (u = t)) as [->|Hne]; [by rewrite lookup_insert_eq |].
    rewrite lookup_insert_ne by done. by apply (b_crit_in _ _ _ _ B), (Hk u Hne).
  - rewrite lookup_insert_ne; [apply (b_nil _ _ _ _ B) |]. intros ->. by rewrite (b_nil _ _ _ _ B) in Ht.
  - intros u uth tmo Hu Ep Hi. destruct (decide (u = t)) as [->|Hne].
    + rewrite lookup_insert_eq in Hu. injection Hu as <-. by destruct (Hi (Hs tmo Ep)).
    + rewrite lookup_insert_ne in Hu by done. destruct (decide (u ∈ l)) as [Hl1|Hl1].
      * right. exists t, (MkT p' b'). rewrite lookup_insert_eq. split; [done |]. by apply Hlost.
      * destruct (b_signal _ _ _ _ B u uth tmo Hu Ep Hl1) as [?|(p & ph & Hp & Er)]; [by left | right].
        exists p, ph. split; [| done]. rewrite lookup_insert_ne; [done |]. intros ->. simplify_eq. by destruct (Hnr u).
  - intros p ph u Hp Er. destruct (decide (p = t)) as [->|Hne].
    + rewrite lookup_insert_eq in Hp. injection Hp as <-. destruct (Hres u Er) as [Hu Hi]. split; [done |].
      rewrite lookup_insert_ne by done. destruct (b_wait _ _ _ _ B u Hi) as (? & -> & _). done.
    + rewrite lookup_insert_ne in Hp by done. destruct (b_resume _ _ _ _ B p ph u Hp Er) as [? [uth Hu]]. split; [done |].
      destruct (decide (u = t)) as [->|]; [by rewrite lookup_insert_eq | by rewrite lookup_insert_ne].
Qed.

Lemma elem_remove1 u t l : u <> t -> u ∈ remove1 t l <-> u ∈ l.
Proof.
  intros Hu. induction l as [|x l IH]; simpl; [done |]. destruct (Z.eqb_spec x t) as [->|]; set_solver.
Qed.
Lemma nodup_remove1 t l : NoDup l -> NoDup (remove1 t l) /\ t ∉ remove1 t l.
Proof.
  induction 1 as [|x l Hx Hn IH]; simpl; [split; [constructor | set_solver] |].
  destruct (Z.eqb_spec x t) as [->|Hne]; [done |]. destruct IH as [H1 H2]. split; [| set_solver].
  constructor; [| done]. by rewrite elem_remove1.
Qed.

Lemma abs_wait_facts a t tmo rc a' : abs_wait a t tmo = (rc, a') -> t ∉ a_queue a -> NoDup (a_queue a) ->
  (a_queue a <> [] -> a_value a = 0) -> 0 <= a_value a <= Wrm_sem_value_max ->
  a_queue a' = (if rc then a_queue a else a_queue a ++ [t]) /\ (a_queue a' <> [] -> a_value a' = 0) /\ 0 <= a_value a' <= Wrm_sem_value_max.
Proof.
  intros E Ht Hn Hz Hv. unfold abs_wait in E. destruct (is_recursive (a_mode a) && (a_owner a =? t)); [by simplify_eq/= |].
  destruct (Z.eqb_spec (a_value a) 0) as [Ev|Ev]; simpl in E.
  - destruct (tmo =? 0); [by simplify_eq/= |]. destruct (Nat.eqb _ 7); by simplify_eq/=.
  - simplify_eq/=. split_and!; try done; [intros; by destruct Ev; apply Hz | lia | lia].
Qed.

Lemma base_ring_lock s l v : ring s l -> ring (with_lock s v) l.
Proof. intros []. by split. Qed.

(** [p] is not a point at which the thread waits for a signal or is to send
    one. *)
Definition plain (p : pc) : Prop := (forall u, p <> Resume u) /\ (forall tmo, p <> Suspended tmo).

Lemma base_quiet s m l k t th p' b' k' : base s m l k -> m !! t = Some th -> (forall u, pos th <> Resume u) ->
  (t ∈ l -> in_wait p' = true) -> (in_crit p' = true <-> k' = Some t) -> (forall u, u <> t -> k' = Some u <-> k = Some u) ->
  (plain p' \/ (t ∈ l /\ exists tmo, p' = Suspended tmo)) ->
  base (with_lock s (lock_word k')) (<[t := MkT p' b']> m) l k'.
Proof.
  intros B Ht Hr Hw Hc Hk Hp.
  apply (base_put s m l k t th); try done; try apply B; [by apply base_ring_lock, B | |].
  - intros tmo ->. destruct Hp as [[_ Hp]|[? _]]; [by destruct (Hp tmo) | done].
  - intros u ->. destruct Hp as [[Hp _]|(_ & ? & ?)]; [by destruct (Hp u) | done].
Qed.

Lemma with_lock_same s m l k : base s m l k -> with_lock s (lock_word k) = s.
Proof. intros B. rewrite <- (b_lock _ _ _ _ B). by destruct s. Qed.

Section Moves.
Context (c : config) (t : Z) (th : tstate) (l : list Z) (k : option Z).
Context (B : base (sm c) (thrs c) l k) (Ht : thrs c !! t = Some th).

Lemma wait_point : t ∈ l -> in_wait (pos th) = true.
Proof. intros Hi. destruct (b_wait _ _ _ _ B t Hi) as (th' & E & ?). by simplify_eq. Qed.

Lemma crit_point : in_crit (pos th) = true <-> k = Some t.
Proof. exact (b_crit _ _ _ _ B t th Ht). Qed.

(** The control point changes outside critical sections; the lock stays. *)
Lemma same_move p b : in_crit (pos th) = false -> in_crit p = false -> (in_wait (pos th) = true -> in_wait p = true) ->
  (forall u, pos th <> Resume u) -> plain p -> base (sm c) (<[t := MkT p b]> (thrs c)) l k.
Proof.
  intros C1 C2 W R P. rewrite <- (with_lock_same _ _ _ _ B). pose proof crit_point as Hc. rewrite C1 in Hc.
  eapply base_quiet; eauto; [intros; by apply W, wait_point | naive_solver].
Qed.

Lemma lock_move p : k = None -> spins (pos th) = Some p ->
  base (with_lock (sm c) (lock_word (Some t))) (<[t := MkT p (pending th)]> (thrs c)) l (Some t).
Proof.
  intros Hk Hs. apply (base_quiet (sm c) (thrs c) l k t th); try done.
  - intros u E. by rewrite E in Hs.
  - intros Hi. apply wait_point in Hi. destruct (pos th); naive_solver.
  - destruct (pos th); naive_solver.
  - intros u Hu. split; intros; simplify_eq.
  - left. split; intros ? ->; destruct (pos th); naive_solver.
Qed.

Lemma unlock_k u : in_crit (pos th) = true -> u <> t -> None = Some u <-> k = Some u.
Proof. intros Hc Hu. apply crit_point in Hc. split; intros; simplify_eq. Qed.

Lemma enter_move tmo rc s' a : pos th = WaitIn tmo -> abs_wait (view (sm c) l) t tmo = (rc, a) -> refines s' a -> lock s' = 0 ->
  base s' (<[t := MkT match rc with Some v => returned v | None => Suspended tmo end (pending th)]> (thrs c)) (a_queue a) None.
Proof.
  intros Hp Ha (R & V & _) L. pose proof wait_point as Hin. pose proof unlock_k as Hk. rewrite Hp in Hin, Hk.
  assert (Hnl : t ∉ l) by (intros H; by apply Hin in H).
  destruct (abs_wait_facts (view (sm c) l) t tmo rc a Ha) as (Eq & Ez & Ev); [done | apply B.. |]. simpl in Eq.
  assert (Er : forall v, in_crit (returned v) = false /\ plain (returned v)) by (intros v; unfold returned; by destruct (v =? 0)).
  apply (base_put (sm c) (thrs c) l k t th); try done; rewrite ?Eq, ?V; try done; try (by rewrite Hp).
  - destruct rc; [apply B |]. apply NoDup_app. split_and!; [apply B | set_solver | apply NoDup_singleton].
  - rewrite <- Eq. done.
  - destruct rc; set_solver.
  - destruct rc; [done |]. done.
  - destruct rc as [v|]; [destruct (Er v) as [-> _] |]; done.
  - intros u Hu. by apply Hk.
  - destruct rc; set_solver.
  - intros z E. destruct rc as [v|]; [| set_solver]. destruct (Er v) as [_ [_ Hn]]. by destruct (Hn z).
  - intros u E. destruct rc as [v|]; [| done]. destruct (Er v) as [_ [Hn _]]. by destruct (Hn u).
Qed.

Lemma quit_move s' : pos th = QuitIn -> refines s' (abs_dequeue (view (sm c) l) t).2 -> lock s' = 0 ->
  base s' (<[t := MkT (if bool_decide (t ∈ l) then Out Wrm_sem_err_timeout else Hold) (pending th)]> (thrs c)) (remove1 t l) None.
Proof.
  intros Hp (R & V & _) L. pose proof unlock_k as Hk. rewrite Hp in Hk. simpl in R, V.
  destruct (nodup_remove1 t l (b_nodup _ _ _ _ B)) as [N1 N2].
  apply (base_put (sm c) (thrs c) l k t th); try done; rewrite ?V, ?Hp; try done.
  - intros H1. apply (b_zero _ _ _ _ B). by intros ->.
  - apply B.
  - intros u Hu. by rewrite elem_remove1.
  - by case_bool_decide.
  - intros u Hu. by apply Hk.
  - intros u Hu H1 H2. by rewrite elem_remove1 in H2.
  - intros z. by case_bool_decide.
  - intros u. by case_bool_decide.
Qed.

Lemma post_move rc thr a s' : pos th = PostIn -> abs_post (view (sm c) l) = (rc, thr, a) -> refines s' a -> lock s' = 0 ->
  base s' (<[t := MkT (if thrid_is_nil thr then Out rc else Resume thr) (pending th)]> (thrs c)) (a_queue a) None.
Proof.
  intros Hp Ha (R & V & _) L. pose proof wait_point as Hin. pose proof unlock_k as Hk. rewrite Hp in Hin, Hk.
  assert (Hnl : t ∉ l) by (intros H; by apply Hin in H).
  pose proof (b_value _ _ _ _ B) as Bv. pose proof (b_zero _ _ _ _ B) as Bz. pose proof (b_nodup _ _ _ _ B) as Bn.
  unfold abs_post in Ha. simpl in Ha. destruct (Z.eqb_spec (value (sm c)) Wrm_sem_value_max) as [Em|Em];
    [simplify_eq/= | destruct l as [|x l0]; simplify_eq/=].
  - apply (base_put (sm c) (thrs c) l k t th); try done; rewrite ?V, ?Hp; try done. intros u Hu. by apply Hk.
  - apply (base_put (sm c) (thrs c) [] k t th); try done; rewrite ?V, ?Hp; try done; [| intros u Hu; by apply Hk].
    destruct (is_binary (mode (sm c))); unfold Wrm_sem_value_max in *; lia.
  - assert (Hx : thr <> Thrid_nil).
    { intros ->. destruct (b_wait _ _ _ _ B Thrid_nil) as (? & E & _); [set_solver |]. by rewrite (b_nil _ _ _ _ B) in E. }
    unfold thrid_is_nil. rewrite (proj2 (Z.eqb_neq thr Thrid_nil) Hx). apply NoDup_cons in Bn as [Bn1 Bn2].
    apply (base_put (sm c) (thrs c) (thr :: l0) k t th); try done; rewrite ?V, ?Hp; try done.
    + intros _. by apply Bz.
    + set_solver.
    + set_solver.
    + intros u Hu. by apply Hk.
    + intros u Hu H1 H2. f_equal. set_solver.
    + intros u [= ->]. set_solver.
Qed.

(** Sending a signal changes only the flag of the other thread. *)
Lemma resume_move u uth : pos th = Resume u -> thrs c !! u = Some uth ->
  base (sm c) (<[t := MkT (Out 0) (pending th)]> (<[u := MkT (pos uth) true]> (thrs c))) l k.
Proof.
  intros Hp Hu. destruct (b_resume _ _ _ _ B t th u Ht Hp) as [Hne _]. pose proof crit_point as Hc. rewrite Hp in Hc.
  set (m' := <[t := _]> _).
  assert (Hl : forall v vth, m' !! v = Some vth -> v = t /\ vth = MkT (Out 0) (pending th) \/
    v <> t /\ exists vth0, thrs c !! v = Some vth0 /\ pos vth = pos vth0 /\ (pending vth0 = true \/ v = u -> pending vth = true)).
  { intros v vth Hv. unfold m' in Hv. destruct (decide (v = t)) as [->|]; simplify_map_eq; [by left | right].
    split; [done |]. destruct (decide (v = u)) as [->|]; simplify_map_eq; naive_solver. }
  assert (Hr : forall v vth0, thrs c !! v = Some vth0 -> v <> t -> exists vth, m' !! v = Some vth /\ pos vth = pos vth0).
  { intros v vth0 Hv Hn. unfold m'. rewrite lookup_insert_ne by done. destruct (decide (v = u)) as [->|]; simplify_map_eq; eauto. }
  assert (Hd : forall v, is_Some (thrs c !! v) -> is_Some (m' !! v)).
  { intros v [vth0 E]. destruct (decide (v = t)) as [->|]; [unfold m'; by simplify_map_eq |]. by destruct (Hr v vth0 E) as (? & -> & _). }
  destruct B as [B1 B2 B3 B4 B5 B6 B7 B8 B9 B10 B11]. split; try done.
  - intros v Hv. destruct (B3 v Hv) as (vth0 & E & W). assert (v <> t) by (intros ->; simplify_eq; by rewrite Hp in W).
    destruct (Hr v vth0 E) as (vth & E' & Ep); [done |]. exists vth. by rewrite Ep.
  - intros v vth Hv. destruct (Hl v vth Hv) as [[-> ->]|(Hn & vth0 & E & -> & _)]; [done | by apply B5].
  - intros v Hv. by apply Hd, B6.
  - destruct (m' !! Thrid_nil) eqn:E; [| done]. destruct (Hl _ _ E) as [[<- _]|(_ & ? & E' & _)]; congruence.
  - intros v vth tmo Hv Ep Hi. destruct (Hl v vth Hv) as [[-> ->]|(Hn & vth0 & E & Ep0 & Hpe)]; [done |].
    rewrite Ep0 in Ep. destruct (B10 v vth0 tmo E Ep Hi) as [?|(p & ph & E' & Er)]; [left; auto |].
    destruct (decide (p = t)) as [->|Hpt]; [left; apply Hpe; right; congruence | right].
    destruct (Hr p ph E' Hpt) as (ph' & ? & Eq). exists p, ph'. by rewrite Eq.
  - intros p ph v Hv Er. destruct (Hl p ph Hv) as [[-> ->]|(Hn & ph0 & E & Ep0 & _)]; [done |]. rewrite Ep0 in Er.
    destruct (B11 p ph0 v E Er) as [? ?]. auto.
Qed.

End Moves.

Lemma move_base D c t th l k c' l' k' : base (sm c) (thrs c) l k -> thrs c !! t = Some th ->
  move D c t th l k c' l' k' -> base (sm c') (thrs c') l' k'.
Proof.
  intros B Ht M. pose proof (crit_point c t th l k B Ht) as Hc. pose proof (wait_point c t th l k B Ht) as Hw.
  pose proof (unlock_k c t th l k B Ht) as Hk.
  inversion M as [p Hp Hq | p q u Hp Hq Ek | q Hp Ek | tmo rc s' a Hp Ha R L c1 | tmo Hp Hg | tmo Hp | tmo Hp Hi
                 | s' Hp R L | rc thr a s' Hp Ha R L c1 c2 | u uth Hp Hu]; subst; cbn [goes sm thrs].
  - apply same_move with th; try done; clear Hc Hw Hk M; destruct (pos th), p; simplify_eq/=; done.
  - rewrite (with_lock_same _ _ _ _ B).
    apply same_move with th; try done; clear Hc Hw Hk M; destruct (pos th), p; simplify_eq/=; done.
  - by apply (lock_move c t th _ _ B Ht).
  - pose proof (enter_move c t th _ _ B Ht tmo rc s' a Hp Ha R L). destruct rc as [v|]; [| done]. by destruct (_ && _).
  - apply same_move with th; by rewrite ?Hp.
  - change (unlocked (sm c)) with (with_lock (sm c) (lock_word None)).
    apply (base_quiet (sm c) (thrs c) _ k t th); try done; try by rewrite Hp.
    + intros Hi. by rewrite bool_decide_eq_true_2.
    + by case_bool_decide.
    + intros v Hv. apply Hk; [by rewrite Hp | done].
    + case_bool_decide; [right; eauto | by left].
  - apply same_move with th; by rewrite ?Hp.
  - by apply (quit_move c t th _ _ B Ht).
  - pose proof (post_move c t th _ _ B Ht rc thr a s' Hp Ha R L). destruct (thrid_is_nil thr), (rc =? 0); done.
  - by apply (resume_move c t th _ _ B Ht).
Qed.

(** ** Mutexes *)

(** A thread has the mutex from the moment it is given to it (by the fast path
    of lock, or by the unlock of the holder before, which takes it out of the
    queue) to the end of the critical section of its own unlock. *)
Definition holds (l : list Z) (t : Z) (p : pc) : bool :=
  match p with Hold | PostSpin _ | PostIn => true | _ => in_wait p && bool_decide (t ∉ l) end.

Record minv (s : sem) (m : gmap Z tstate) (l : list Z) (h : option Z) : Prop := {
  m_mode : mode s = Wrm_sem_binary;
  m_value : value s = if h then 0 else 1;
  m_owner : owner s = default Thrid_nil h;
  m_holds : forall t th, m !! t = Some th -> holds l t (pos th) = true <-> h = Some t;
  m_in : forall t, h = Some t -> is_Some (m !! t) }.

Lemma holds_ext l l' t p : (t ∈ l' <-> t ∈ l) -> holds l' t p = holds l t p.
Proof.
  intros H. unfold holds. destruct p; try done; f_equal; apply bool_decide_ext; by rewrite H.
Qed.

Lemma minv_put s m l h t th s' p' b' l' (h' : option Z) : minv s m l h -> m !! t = Some th ->
  mode s' = Wrm_sem_binary -> value s' = (if h' then 0 else 1) -> owner s' = default Thrid_nil h' ->
  (holds l' t p' = true <-> h' = Some t) ->
  (forall u uth, u <> t -> m !! u = Some uth -> holds l' u (pos uth) = true <-> h' = Some u) ->
  (forall u, h' = Some u -> is_Some (m !! u)) ->
  minv s' (<[t := MkT p' b']> m) l' h'.
Proof.
  intros I Ht Hm Hv Ho Hp Hu Hi. split; try done.
  - intros u uth E. destruct (decide (u = t)) as [->|Hn]; simplify_map_eq; [done | by apply Hu].
  - intros u E. destruct (decide (u = t)) as [->|Hn]; simplify_map_eq; eauto.
Qed.

(** The holder stays. *)
Lemma minv_same s m l h t th s' p' b' l' : minv s m l h -> m !! t = Some th ->
  mode s' = mode s -> value s' = value s -> owner s' = owner s -> holds l' t p' = holds l t (pos th) ->
  (forall u, u <> t -> u ∈ l' <-> u ∈ l) -> minv s' (<[t := MkT p' b']> m) l' h.
Proof.
  intros I Ht Hm Hv Ho Hp Hl. destruct I as [I1 I2 I3 I4 I5].
  apply (minv_put s m l h t th); try done; try congruence.
  - rewrite Hp. by apply I4.
  - intros u uth Hn Hu. rewrite (holds_ext l) by auto. by apply I4.
Qed.

Section MutexMoves.
Context (c : config) (t : Z) (th : tstate) (l : list Z) (k h : option Z).
Context (B : base (sm c) (thrs c) l k) (I : minv (sm c) (thrs c) l h) (Ht : thrs c !! t = Some th).

(** The thread takes the free mutex. *)
Lemma take_mutex s' : h = None -> holds l t (pos th) = false -> mode s' = Wrm_sem_binary -> value s' = 0 -> owner s' = t ->
  minv s' (<[t := MkT Hold (pending th)]> (thrs c)) l (Some t).
Proof.
  intros -> Hf Hm Hv Ho. apply (minv_put (sm c) (thrs c) l None t th); try done.
  - intros u uth Hn Hu. rewrite (m_holds _ _ _ _ I u uth Hu). split; intros; simplify_eq.
  - intros u [= <-]. by rewrite Ht.
Qed.

Lemma mutex_enter tmo rc s' a : pos th = WaitIn tmo -> abs_wait (view (sm c) l) t tmo = (rc, a) -> refines s' a -> exists h',
  minv s' (<[t := MkT match rc with Some v => returned v | None => Suspended tmo end (pending th)]> (thrs c)) (a_queue a) h'.
Proof.
  intros Hp Ha (_ & V & O & M). pose proof (m_mode _ _ _ _ I) as Im. pose proof (m_value _ _ _ _ I) as Iv.
  unfold abs_wait in Ha. simpl in Ha. rewrite Im in Ha. simpl in Ha.
  destruct (Z.eqb_spec (value (sm c)) 0) as [Ev|Ev]; simpl in Ha.
  - exists h. destruct (tmo =? 0) eqn:Et; [| destruct (Nat.eqb (length l) 7)]; injection Ha as <- <-; simpl in V, O, M |- *;
      eapply minv_same; eauto; try (rewrite Hp; done); try congruence.
    + rewrite Hp. simpl. rewrite bool_decide_eq_false_2 by set_solver. done.
    + set_solver.
  - injection Ha as <- <-. simpl in V, O, M. exists (Some t). assert (Eh : h = None) by (by destruct h).
    rewrite Eh in Iv. apply take_mutex; try done; try congruence; [by rewrite Hp |]. by rewrite V, Iv.
Qed.

Lemma mutex_post rc thr a s' : pos th = PostIn -> abs_post (view (sm c) l) = (rc, thr, a) -> refines s' a -> exists h',
  minv s' (<[t := MkT (if thrid_is_nil thr then Out rc else Resume thr) (pending th)]> (thrs c)) (a_queue a) h'.
Proof.
  intros Hp Ha (_ & V & O & M). destruct I as [I1 I2 I3 I4 I5].
  assert (Hh : h = Some t) by (apply (I4 t th Ht); by rewrite Hp). subst h. simpl in I2.
  unfold abs_post in Ha. simpl in Ha. rewrite I2, I1 in Ha. simpl in Ha.
  assert (Hno : forall u uth, u <> t -> thrs c !! u = Some uth -> holds l u (pos uth) = false).
  { intros u uth Hn Hu. apply not_true_is_false. intros E. apply (I4 u uth Hu) in E. by simplify_eq. }
  destruct l as [|x l0]; injection Ha as <- <- <-; simpl in V, O, M |- *.
  - exists None. apply (minv_put (sm c) (thrs c) [] (Some t) t th); try done; try congruence.
    intros u uth Hn Hu. by rewrite (Hno u uth).
  - assert (Hx : exists xth, thrs c !! x = Some xth /\ in_wait (pos xth) = true) by (apply (b_wait _ _ _ _ B); set_solver).
    destruct Hx as (xth & Hx & Wx).
    assert (x <> t) by (intros ->; simplify_eq; by rewrite Hp in Wx).
    assert (Hnil : x <> Thrid_nil) by (intros ->; by rewrite (b_nil _ _ _ _ B) in Hx).
    unfold thrid_is_nil. rewrite (proj2 (Z.eqb_neq x Thrid_nil) Hnil).
    pose proof (b_nodup _ _ _ _ B) as Bn. apply NoDup_cons in Bn as [Bn _].
    exists (Some x). apply (minv_put (sm c) (thrs c) (x :: l0) (Some t) t th); try done; try congruence.
    + simpl. split; [done |]. congruence.
    + intros u uth Hn Hu. destruct (decide (u = x)) as [->|Hut].
      * assert (uth = xth) as -> by congruence. split; [done |]. intros _. unfold holds.
        rewrite bool_decide_eq_true_2 by done. by destruct (pos xth).
      * rewrite (holds_ext (x :: l0)) by set_solver. rewrite (Hno u uth Hn Hu). naive_solver.
    + intros u [= <-]. by rewrite Hx.
Qed.

Lemma mutex_resume u uth : pos th = Resume u -> thrs c !! u = Some uth ->
  minv (sm c) (<[t := MkT (Out 0) (pending th)]> (<[u := MkT (pos uth) true]> (thrs c))) l h.
Proof.
  intros Hp Hu. destruct (b_resume _ _ _ _ B t th u Ht Hp) as [Hne _].
  assert (minv (sm c) (<[u := MkT (pos uth) true]> (thrs c)) l h) by (eapply minv_same; eauto).
  eapply minv_same; eauto; [by simplify_map_eq | by rewrite Hp].
Qed.

End MutexMoves.

Lemma move_minv c t th l k h c' l' k' : base (sm c) (thrs c) l k -> minv (sm c) (thrs c) l h -> thrs c !! t = Some th ->
  move mutex_client c t th l k c' l' k' -> exists h', minv (sm c') (thrs c') l' h'.
Proof.
  intros B I Ht M.
  inversion M as [p Hp Hq | p q u Hp Hq Ek | q Hp Ek | tmo rc s' a Hp Ha R L c1 | tmo Hp Hg | tmo Hp | tmo Hp Hi
                 | s' Hp R L | rc thr a s' Hp Ha R L c1 c2 | u uth Hp Hu]; subst; cbn [goes sm thrs].
  - exists h. eapply minv_same; eauto. clear M. unfold mutex_client in Hq. destruct (pos th), p; simpl in Hq; naive_solver.
  - exists h. eapply minv_same; eauto. clear M. destruct (pos th), p; simplify_eq/=; done.
  - exists h. eapply minv_same; eauto. clear M. destruct (pos th), q; simplify_eq/=; done.
  - destruct (mutex_enter c t th _ _ h B I Ht tmo rc s' a Hp Ha R) as [h' Hm]. exists h'. destruct rc as [v|]; [| done]. by destruct (_ && _).
  - exists h. eapply minv_same; eauto. by rewrite Hp.
  - exists h. eapply minv_same; eauto. rewrite Hp. case_bool_decide as Hd; simpl; [done | by rewrite bool_decide_eq_true_2].
  - exists h. eapply minv_same; eauto. by rewrite Hp.
  - destruct R as (_ & V & O & Mo). exists h. eapply minv_same; eauto; [| intros; by apply elem_remove1].
    rewrite Hp. case_bool_decide as Hd; simpl; [by rewrite bool_decide_eq_false_2 by naive_solver | by rewrite bool_decide_eq_true_2].
  - destruct (mutex_post c t th _ _ h B I Ht rc thr a s' Hp Ha R) as [h' Hm]. exists h'. destruct (thrid_is_nil thr), (rc =? 0); done.
  - exists h. by apply (mutex_resume c t th _ _ h B I Ht).
Qed.

(** ** Reachable states *)

Lemma start_lookup s ids t th : thrs (sem_start s ids) !! t = Some th -> th = MkT (Out 0) false /\ t ∈ ids.
Proof.
  simpl. intros H%elem_of_list_to_map_2. apply list_elem_of_fmap in H as (u & [= -> ->] & Hu). done.
Qed.

Lemma start_base s ids m v : Thrid_nil ∉ ids -> (wrm_sem_init s m v).1 = 0 -> 0 <= v ->
  let s' := (wrm_sem_init s m v).2 in base s' (thrs (sem_start s' ids)) [] None /\ mode s' = m /\ owner s' = Thrid_nil /\
  value s' = if is_binary m && negb (v =? 0) then 1 else v.
Proof.
  intros Hn Hi Hv s'. destruct (init_refines s m v Hi) as [(R & V & O & M) Hmax].
  assert (L : lock s' = 0). { unfold s', wrm_sem_init in *. by do 2 (case_match; [done |]). }
  split_and!; try done. split; try done; try (by constructor); try exact R.
  - intros t E. set_solver.
  - intros t th E. apply start_lookup in E as [-> _]. done.
  - change (0 <= value s' <= Wrm_sem_value_max). unfold s'. rewrite V. simpl. unfold Wrm_sem_value_max in *. destruct (_ && _); lia.
  - destruct (thrs (sem_start s' ids) !! Thrid_nil) eqn:E; [| done]. apply start_lookup in E as [_ ?]. done.
  - intros t th tmo E. apply start_lookup in E as [-> _]. done.
  - intros p ph t E. apply start_lookup in E as [-> _]. done.
Qed.

Lemma reach_base D c c' l k : base (sm c) (thrs c) l k -> rtc (step D) c c' -> exists l' k', base (sm c') (thrs c') l' k'.
Proof.
  intros B H. revert l k B. induction H as [c|c c1 c2 (t & e & Ha) _ IH]; intros l k B; [eauto |].
  destruct (act_move D c t e _ l k B Ha) as (th & c' & l' & k' & [= <-] & Ht & M). eapply IH, move_base; eauto.
Qed.

Lemma lock_excl s m l k t u th uth : base s m l k -> m !! t = Some th -> m !! u = Some uth ->
  in_crit (pos th) = true -> in_crit (pos uth) = true -> t = u.
Proof. intros B Ht Hu H1 H2. apply (b_crit _ _ _ _ B _ _ Ht) in H1. apply (b_crit _ _ _ _ B _ _ Hu) in H2. congruence. Qed.

Lemma reach_mutex c c' l k h : base (sm c) (thrs c) l k -> minv (sm c) (thrs c) l h -> rtc (step mutex_client) c c' ->
  exists l' k' h', base (sm c') (thrs c') l' k' /\ minv (sm c') (thrs c') l' h'.
Proof.
  intros B I H. revert l k h B I. induction H as [c|c c1 c2 (t & e & Ha) _ IH]; intros l k h B I; [eauto 10 |].
  destruct (act_move mutex_client c t e _ l k B Ha) as (th & c' & l' & k' & [= <-] & Ht & M).
  destruct (move_minv c t th l k h _ _ _ B I Ht M) as [h' I']. eapply IH; [eapply move_base; eauto | done].
Qed.

Lemma mutex_start s ids : Thrid_nil ∉ ids ->
  let c := sem_start (wrm_mtx_init s).2 ids in base (sm c) (thrs c) [] None /\ minv (sm c) (thrs c) [] None.
Proof.
  intros Hn. destruct (start_base s ids Wrm_sem_binary 1) as (B & M & O & V); try done. split; [done |]. split; try done.
  intros t th E. apply start_lookup in E as [-> _]. done.
Qed.

(** C19: a mutex excludes: whatever threads of a program lock it (with and
    without timeouts) and unlock it after a successful lock, in any
    interleaving of their actions, with wake-up signals that come late, too
    early or after a timeout: at most one thread holds the mutex, the field
    [owner] names it and the value is 0 exactly while it is held; at most one
    thread is in a critical section of the code; and no action of any thread
    fails an assertion, leaves the ring of waiting threads or loops for ever. *)
Theorem mutex_exclusion s ids c : Thrid_nil ∉ ids -> rtc (step mutex_client) (sem_start (wrm_mtx_init s).2 ids) c ->
  (exists h : option Z, value (sm c) = (if h then 0 else 1) /\ owner (sm c) = default Thrid_nil h /\
     forall t th, thrs c !! t = Some th -> pos th = Hold -> h = Some t) /\
  (forall t u th uth, thrs c !! t = Some th -> thrs c !! u = Some uth -> in_crit (pos th) = true -> in_crit (pos uth) = true -> t = u) /\
  (forall t e r, act mutex_client c t e = Some r -> exists c', r = Ok c').
Proof.
  intros Hn H. destruct (mutex_start s ids Hn) as [B0 I0].
  destruct (reach_mutex _ c _ _ _ B0 I0 H) as (l & k & h & B & I). split_and!.
  - exists h. split_and!; [apply I | apply I |]. intros t th Ht Ep. apply (m_holds _ _ _ _ I t th Ht). by rewrite Ep.
  - intros t u th uth. by apply (lock_excl _ _ _ _ _ _ _ _ B).
  - intros t e r Ha. destruct (act_move _ _ _ _ _ _ _ B Ha) as (? & c' & ? & ? & -> & _). eauto.
Qed.

Lemma waiting_not_nil s m x l k : base s m (x :: l) k -> thrid_is_nil x = false.
Proof.
  intros B. apply Z.eqb_neq. intros ->. destruct (b_wait _ _ _ _ B Thrid_nil) as (? & E & _); [set_solver |].
  by rewrite (b_nil _ _ _ _ B) in E.
Qed.

(** ** Counting semaphores *)

Lemma move_count D c t th l k c' l' k' : base (sm c) (thrs c) l k -> is_binary (mode (sm c)) = false -> is_recursive (mode (sm c)) = false ->
  move D c t th l k c' l' k' ->
  mode (sm c') = mode (sm c) /\ value (sm c') + grants c' - posts c' = value (sm c) + grants c - posts c.
Proof.
  intros B Hb Hr M.
  inversion M as [p Hp Hq | p q u Hp Hq Ek | q Hp Ek | tmo rc s' a Hp Ha (_ & V & O & Mo) L c1 | tmo Hp Hg | tmo Hp | tmo Hp Hi
                 | s' Hp (_ & V & O & Mo) L | rc thr a s' Hp Ha (_ & V & O & Mo) L c1 c2 | u uth Hp Hu]; subst; simpl; try (split; [done | lia]).
  - unfold abs_wait in Ha. simpl in Ha. rewrite Hr, Hb in Ha. simpl in Ha. rewrite Hr. simpl.
    destruct (Z.eqb_spec (value (sm c)) 0); [destruct (tmo =? 0); [| destruct (Nat.eqb _ 7)] |];
      injection Ha as <- <-; simpl in *; (split; [done | lia]).
  - simpl in V, Mo. split; [done | lia].
  - unfold abs_post in Ha. simpl in Ha. rewrite Hb in Ha. destruct (value (sm c) =? Wrm_sem_value_max); [| destruct l as [|x l0]];
      injection Ha as <- <- <-; simpl in *; try (split; [done | lia]). rewrite (waiting_not_nil _ _ _ _ _ B). simpl. split; [done | lia].
Qed.

Lemma reach_count D c c' l k : base (sm c) (thrs c) l k -> is_binary (mode (sm c)) = false -> is_recursive (mode (sm c)) = false ->
  rtc (step D) c c' -> exists l' k', base (sm c') (thrs c') l' k' /\ mode (sm c') = mode (sm c) /\
  value (sm c') + grants c' - posts c' = value (sm c) + grants c - posts c.
Proof.
  intros B Hb Hr H. revert l k B. induction H as [c|c c1 c2 (t & e & Ha) _ IH]; intros l k B; [eauto 10 |].
  destruct (act_move D c t e _ l k B Ha) as (th & c' & l' & k' & [= <-] & Ht & M).
  destruct (move_count _ _ _ _ _ _ _ _ _ B Hb Hr M) as [Em Ec]. pose proof (move_base _ _ _ _ _ _ _ _ _ B Ht M) as B'.
  destruct (IH ltac:(by rewrite Em) ltac:(by rewrite Em) _ _ B') as (l2 & k2 & ? & E2 & ?). exists l2, k2. split_and!; [done | congruence | lia].
Qed.

(** C20: a counting semaphore neither creates nor loses units: in every state
    that threads reach from a semaphore initialised with [v] by waiting and
    posting in any order and interleaving, the value plus the units handed to
    threads is [v] plus the posts that returned success; so never more units
    are handed out than there were, the value stays between 0 and 256, threads
    wait only when no unit is free, and no action fails. *)
Theorem sem_conservation D s ids m v c : Thrid_nil ∉ ids -> 0 <= v -> (wrm_sem_init s m v).1 = 0 ->
  is_binary m = false -> rtc (step D) (sem_start (wrm_sem_init s m v).2 ids) c ->
  value (sm c) + grants c = v + posts c /\ 0 <= value (sm c) <= Wrm_sem_value_max /\
  (forall t, exist_in_queue (sm c) t = Ok true -> value (sm c) = 0) /\
  (forall t e r, act D c t e = Some r -> exists c', r = Ok c').
Proof.
  intros Hn Hv Hi Hb H. destruct (start_base s ids m v Hn Hi Hv) as (B0 & Em & _ & Ev).
  assert (Hr : is_recursive m = false).
  { unfold wrm_sem_init in Hi. rewrite Hb in Hi. by destruct (is_recursive m). }
  rewrite Hb in Ev. simpl in Ev.
  destruct (reach_count D (sem_start (wrm_sem_init s m v).2 ids) c [] None B0) as (l & k & B & _ & E); try done; try (simpl; by rewrite Em).
  simpl in E. split_and!.
  - rewrite Ev in E. lia.
  - apply (b_value _ _ _ _ B).
  - apply (b_value _ _ _ _ B).
  - intros t. rewrite (exist_ok _ l t (b_ring _ _ _ _ B)). intros [= Ht%bool_decide_eq_true]. apply (b_zero _ _ _ _ B). intros ->. set_solver.
  - intros t e r Ha. destruct (act_move _ _ _ _ _ _ _ B Ha) as (? & c' & ? & ? & -> & _). eauto.
Qed.

(** ** A thread that has been given the semaphore returns *)

Definition run (c c' : config) : Prop := exists t, act any_client c t ERun = Some (Ok c').

Definition runnable (th : tstate) : bool :=
  match pos th with Out _ | Hold => false | Suspended _ => pending th | _ => true end.

Lemma run_move c t th l k : base (sm c) (thrs c) l k -> thrs c !! t = Some th -> runnable th = true ->
  exists c' l' k', run c c' /\ move any_client c t th l k c' l' k' /\ base (sm c') (thrs c') l' k'.
Proof.
  intros B Ht Hr. assert (exists r, act any_client c t ERun = Some r) as [r Ha].
  { unfold act, run_act. rewrite Ht. unfold runnable in Hr. destruct (pos th); try done; eauto. rewrite Hr. eauto. }
  destruct (act_move any_client c t ERun r l k B Ha) as (th' & c' & l' & k' & -> & Ht' & M). simplify_eq.
  exists c', l', k'. split_and!; [by exists t | done | by eapply move_base].
Qed.

Definition done_waiting (c : config) (t : Z) : Prop := exists th, thrs c !! t = Some th /\ pos th = Hold.

(** The thread itself is in a critical section: it returns. *)
Lemma run_own c l k t th : base (sm c) (thrs c) l k -> thrs c !! t = Some th -> t ∉ l -> in_wait (pos th) = true ->
  in_crit (pos th) = true -> exists c', run c c' /\ done_waiting c' t.
Proof.
  intros B Ht Hl Hw Hc. destruct (run_move c t th l k B Ht) as (c' & l' & k' & Hrun & M & _).
  { unfold runnable. by destruct (pos th). }
  exists c'. split; [done |]. unfold done_waiting. destruct M as [| | | | | | | | |]; destruct (pos th); simplify_eq/=; try done;
    rewrite bool_decide_eq_false_2 by done; (eexists; split; [apply lookup_insert_eq | done]).
Qed.

(** Another thread is in a critical section: it leaves it. *)
Lemma run_unlock c l u t th : base (sm c) (thrs c) l (Some u) -> thrs c !! t = Some th -> t ∉ l -> t <> u ->
  exists c' l', run c c' /\ base (sm c') (thrs c') l' None /\ t ∉ l' /\ thrs c' !! t = Some th.
Proof.
  intros B Ht Hl Hut.
  destruct (b_crit_in _ _ _ _ B u eq_refl) as [uth Hu]. pose proof (proj2 (b_crit _ _ _ _ B u uth Hu) eq_refl) as Hc.
  destruct (run_move c u uth l (Some u) B Hu) as (c' & l' & k' & Hrun & M & B').
  { unfold runnable. by destruct (pos uth). }
  exists c', l'. cut (k' = None /\ t ∉ l' /\ thrs c' !! t = Some th); [by intros (-> & ? & ?) |]. clear B' Hrun.
  inversion M as [p Hp Hq | p q v Hp Hq Ek | q Hp Ek | tmo rc s' a Hp Ha R L c1 | tmo Hp Hg | tmo Hp | tmo Hp Hi
                 | s' Hp R L | rc thr a s' Hp Ha R L c1 c2 | v vth Hp Hv]; subst; clear M;
    try (by destruct (pos uth)); (split_and!; [done | try done |]).
  - unfold abs_wait in Ha. simpl in Ha. repeat case_match; simplify_eq/=; set_solver.
  - destruct rc; [case_match |]; simpl; by rewrite lookup_insert_ne.
  - simpl. by rewrite lookup_insert_ne.
  - by rewrite elem_remove1.
  - simpl. by rewrite lookup_insert_ne.
  - unfold abs_post in Ha. simpl in Ha. repeat case_match; simplify_eq/=; set_solver.
  - destruct (thrid_is_nil thr), (rc =? 0); simpl; by rewrite lookup_insert_ne.
Qed.

(** From a spinlock loop, with the lock free, to the end of the wait. *)
Lemma run_spin c l t th : base (sm c) (thrs c) l None -> thrs c !! t = Some th -> t ∉ l -> in_wait (pos th) = true ->
  is_Some (spins (pos th)) -> exists c', rtc run c c' /\ done_waiting c' t.
Proof.
  intros B Ht Hl Hw [q Hs]. destruct (run_move c t th l None B Ht) as (c' & l' & k' & Hrun & M & B').
  { unfold runnable. by destruct (pos th). }
  inversion M as [p Hp Hq | p q' u Hp Hq Ek | q' Hp Ek | tmo rc s' a Hp Ha R L c1 | tmo Hp Hg | tmo Hp | tmo Hp Hi
                 | s' Hp R L | rc thr a s' Hp Ha R L c1 c2 | u uth' Hp Hu']; subst; clear M; try (by destruct (pos th)).
  simplify_eq. destruct (run_own _ _ _ t (MkT q (pending th)) B') as (c2 & Hr2 & Hd); simpl.
  - apply lookup_insert_eq.
  - done.
  - by destruct (pos th); simplify_eq/=.
  - by destruct (pos th); simplify_eq/=.
  - exists c2. split; [| done]. by eapply rtc_l, rtc_once.
Qed.

(** From the wait in the kernel, with the signal there. *)
Lemma run_wake c l t th tmo : base (sm c) (thrs c) l None -> thrs c !! t = Some th -> t ∉ l -> pos th = Suspended tmo ->
  pending th = true -> exists c', rtc run c c' /\ done_waiting c' t.
Proof.
  intros B Ht Hl Hp Hg. destruct (run_move c t th l None B Ht) as (c' & l' & k' & Hrun & M & B').
  { unfold runnable. by rewrite Hp. }
  assert (Hc : l' = l /\ k' = None /\ exists th', thrs c' !! t = Some th' /\ in_wait (pos th') = true /\ is_Some (spins (pos th'))).
  { destruct M; rewrite Hp in *; simplify_eq/=; try done; (split_and!; [done | done |]); eexists; (split; [apply lookup_insert_eq |]); done. }
  destruct Hc as (-> & -> & th' & Ht' & Hw & Hs). destruct (run_spin c' l t th' B' Ht' Hl Hw Hs) as (c2 & ? & ?).
  exists c2. split; [by eapply rtc_l | done].
Qed.

Lemma run_resume c l p ph t th tmo : base (sm c) (thrs c) l None -> thrs c !! t = Some th -> t ∉ l -> pos th = Suspended tmo ->
  thrs c !! p = Some ph -> pos ph = Resume t -> exists c', rtc run c c' /\ done_waiting c' t.
Proof.
  intros B Ht Hl Hp Hph Er. destruct (run_move c p ph l None B Hph) as (c' & l' & k' & Hrun & M & B').
  { unfold runnable. by rewrite Er. }
  assert (Hpt : p <> t) by (intros ->; simplify_eq; by rewrite Er in Hp).
  assert (Hc : l' = l /\ k' = None /\ thrs c' !! t = Some (MkT (pos th) true)).
  { destruct M; rewrite Er in *; simplify_eq/=; try done. by rewrite lookup_insert_ne, lookup_insert_eq. }
  destruct Hc as (-> & -> & Ht'). destruct (run_wake c' l t _ tmo B' Ht' Hl Hp eq_refl) as (c2 & ? & ?).
  exists c2. split; [by eapply rtc_l | done].
Qed.

Lemma run_free c l t th : base (sm c) (thrs c) l None -> thrs c !! t = Some th -> t ∉ l -> in_wait (pos th) = true ->
  in_crit (pos th) = false -> exists c', rtc run c c' /\ done_waiting c' t.
Proof.
  intros B Ht Hl Hw Hc. destruct (pos th) eqn:Ep; try done.
  2,3: eapply run_spin; eauto; by rewrite Ep.
  destruct (b_signal _ _ _ _ B t th _ Ht Ep Hl) as [?|(p & ph & ? & ?)]; [by eapply run_wake | by eapply run_resume].
Qed.

Lemma run_given c l k t th : base (sm c) (thrs c) l k -> thrs c !! t = Some th -> t ∉ l -> in_wait (pos th) = true ->
  exists c', rtc run c c' /\ done_waiting c' t.
Proof.
  intros B Ht Hl Hw. destruct (in_crit (pos th)) eqn:Hc.
  { destruct (run_own c l k t th) as (c' & ? & ?); try done. exists c'. split; [by apply rtc_once | done]. }
  destruct k as [u|]; [| by eapply run_free].
  destruct (run_unlock c l u t th) as (c' & l' & Hr & B' & Hl' & Ht'); try done.
  { intros ->. pose proof (proj2 (b_crit _ _ _ _ B u th Ht) eq_refl). congruence. }
  destruct (run_free c' l' t th B' Ht' Hl' Hw Hc) as (c2 & ? & ?). exists c2. split; [by eapply rtc_l | done].
Qed.

(** C21: a thread that was given the semaphore is never stuck: in every state
    that threads reach by waiting and posting, if a thread is inside
    wrm_sem_wait and is no longer in the queue (a post took it out), then the
    threads that are inside a call only have to go on (nobody has to start a
    new call, no timeout has to expire) for its wait to return with success:
    the spinlock is released, the signal is sent and is not lost, also if it
    comes before the thread waits for it or after its timeout. *)
Theorem handover_progress D s ids m v c t th : Thrid_nil ∉ ids -> 0 <= v -> (wrm_sem_init s m v).1 = 0 ->
  rtc (step D) (sem_start (wrm_sem_init s m v).2 ids) c ->
  thrs c !! t = Some th -> in_wait (pos th) = true -> exist_in_queue (sm c) t = Ok false ->
  exists c' th', rtc run c c' /\ thrs c' !! t = Some th' /\ pos th' = Hold.
Proof.
  intros Hn Hv Hi H Ht Hw He. destruct (start_base s ids m v Hn Hi Hv) as (B0 & _).
  destruct (reach_base D (sem_start (wrm_sem_init s m v).2 ids) c [] None B0 H) as (l & k & B).
  rewrite (exist_ok _ l t (b_ring _ _ _ _ B)) in He. injection He as He%bool_decide_eq_false.
  destruct (run_given c l k t th B Ht He Hw) as (c' & ? & th' & ? & ?). eauto.
Qed.

(** ** Runs *)

Lemma acts_step D l c c' : acts D c l = Some (Ok c') -> rtc (step D) c c'.
Proof.
  revert c. induction l as [|[t e] l IH]; intros c H; simpl in H; [by injection H as -> |].
  destruct (act D c t e) as [[c1|]|] eqn:E; try done. eapply rtc_l; [by exists t, e | by apply IH].
Qed.

Definition positions (r : option (res config)) : option (res (list (Z * pc))) :=
  match r with
  | Some (Ok c) => Some (Ok ((fun '(t, th) => (t, pos th)) <$> map_to_list (thrs c)))
  | Some (Stop f) => Some (Stop f)
  | None => None
  end.

(** Thread 9 waits for the mutex that thread 5 holds; its timeout expires
    while thread 5 hands the mutex over. *)
Definition late_timeout : list (Z * ev) :=
  [(5, EWait (-1)); (5, ERun); (5, ERun); (9, EWait 10); (9, ERun); (9, ERun); (5, EPost); (9, ETimeout); (5, ERun); (5, ERun);
   (9, ERun); (5, ERun); (9, ERun)].

Example late_timeout_run :
  positions (acts mutex_client (sem_start (wrm_mtx_init zero_sem).2 [5; 9]) late_timeout) = Some (Ok [(9, Hold); (5, Out 0)]).
Proof. vm_compute. reflexivity. Qed.

(** A recursive mutex does not exclude: the code keeps no count of the
    locks of the owner, so after two locks the first unlock releases the
    mutex; another thread then takes it while the owner is between its two
    unlocks, still in its outer section. *)
Theorem recursive_mutex_released_early :
  exists c, acts any_client (sem_start (wrm_mtx_init_recursive zero_sem).2 [5; 9])
    [(5, EWait (-1)); (5, ERun); (5, ERun); (5, EWait (-1)); (5, ERun); (5, ERun);
     (5, EPost); (5, ERun); (5, ERun); (9, EWait 0); (9, ERun); (9, ERun)] = Some (Ok c) /\
  posts c = 1 /\ owner (sm c) = 9 /\ (pos <$> thrs c !! 5) = Some (Out 0) /\ (pos <$> thrs c !! 9) = Some Hold.
Proof. eexists. split; [vm_compute; reflexivity |]. vm_compute. done. Qed.

(** wrm_sem_setvalue while a thread waits: the value is not 0 with a thread in
    the queue, and the next post fails its assertion. *)
Example setvalue_breaks_post :
  exists s1, wait_section (wrm_sem_init zero_sem 0 0).2 5 (-1) = Ok (None, s1) /\ (wrm_sem_setvalue s1 3).1 = 0 /\
  post_section (wrm_sem_setvalue s1 3).2 9 = Stop FAssert.
Proof. eexists. split; [vm_compute; reflexivity |]. vm_compute. done. Qed.

(** ** Witnesses *)

Definition one_waits : sem := MkSem 0 0 5 [Thrid_nil; Thrid_nil; Thrid_nil; Thrid_nil; Thrid_nil; Thrid_nil; Thrid_nil; 9] 7 0 1.

Lemma one_waits_refines : refines one_waits (MkAsem 0 5 [9] 1).
Proof. split; [| done]. split; simpl; try done; try lia. intros [|i] x H; by simplify_eq/=. Qed.

(** The queue wraps around the end of the ring. *)
Lemma sem_sections_refine_witness :
  (exists s', wait_section one_waits 4 10 = Ok (None, s') /\ refines s' (MkAsem 0 5 [9; 4] 1)) /\
  (exists s', post_section one_waits 5 = Ok (0, 9, s') /\ refines s' (MkAsem 0 9 [] 1)).
Proof.
  split.
  - exact (proj1 (sem_sections_refine one_waits _ 4 one_waits_refines) 10).
  - apply (proj1 (proj2 (sem_sections_refine one_waits _ 5 one_waits_refines))); [done | simpl; set_solver].
Defined.

Definition handed_over : config :=
  match acts mutex_client (sem_start (wrm_mtx_init zero_sem).2 [5; 9]) late_timeout with Some (Ok c) => c | _ => sem_start zero_sem [] end.

Lemma mutex_exclusion_witness :
  exists h : option Z, value (sm handed_over) = (if h then 0 else 1) /\ owner (sm handed_over) = default Thrid_nil h /\ h = Some 9.
Proof.
  destruct (mutex_exclusion zero_sem [5; 9] handed_over) as [(h & V & O & H) _].
  - set_solver.
  - apply (acts_step _ late_timeout). vm_compute. reflexivity.
  - exists h. split_and!; [done | done |]. apply (H 9 (MkT Hold true)); vm_compute; reflexivity.
Defined.

Definition consumer_run : list (Z * ev) :=
  [(5, EWait 0); (5, ERun); (5, ERun); (5, EWait (-1)); (5, ERun); (5, ERun); (5, EWait (-1)); (5, ERun); (5, ERun); (9, EPost); (9, ERun); (9, ERun)].
Definition consumed : config :=
  match acts any_client (sem_start (wrm_sem_init zero_sem 0 2).2 [5; 9]) consumer_run with Some (Ok c) => c | _ => sem_start zero_sem [] end.

Lemma sem_conservation_witness : value (sm consumed) = 0 /\ value (sm consumed) + grants consumed = 2 + posts consumed.
Proof.
  split; [vm_compute; reflexivity |]. apply (sem_conservation any_client zero_sem [5; 9] 0 2 consumed); try done.
  - set_solver.
  - apply (acts_step _ consumer_run). vm_compute. reflexivity.
Defined.

Lemma handover_progress_witness : exists c' th', rtc run consumed c' /\ thrs c' !! 5 = Some th' /\ pos th' = Hold.
Proof.
  apply (handover_progress any_client zero_sem [5; 9] 0 2 consumed 5 (MkT (Suspended (-1)) false)); try done.
  - set_solver.
  - apply (acts_step _ consumer_run). vm_compute. reflexivity.
Defined.
