(* ===== verification/MemPool.v ===== *)
(** lib/containers/memory_pool.h: Memory_pool_t, the buddy allocator behind
    malloc.  A block of 2^lgsz bytes starts with its descriptor; descriptors
    are linked by address ([region_prev], [region_next]) and the free ones by
    size ([block_prev], [block_next], one list head per size).

    The heap of the model holds the descriptors only, by address; 0 is the
    null pointer.  A read of an address without a descriptor is a memory
    fault; [dinit] makes a descriptor, since the memory of a block is mapped. *)

From Stdlib Require Import ZArith Lia Bool.
From stdpp Require Import base gmap list numbers.
From S2P Require Import Prelude SysUtils.

Definition Lgsz_min : Z := 5.
Definition Lgsz_max : Z := 31.
Definition Sizes_num : Z := Lgsz_max - Lgsz_min + 1.

Record descr := MkDescr {
  region_prev : Z; region_next : Z; block_prev : Z; block_next : Z; lgsz : Z; busy : bool }.
Definition sizeof_descr : Z := 24.

#[global] Instance descr_eq_dec : EqDecision descr.
Proof. solve_decision. Defined.

Record mpool := MkPool { dheap : gmap Z descr; regions : Z; blocks : list Z; pool_sz_bytes : Z }.

Definition size_of (d : descr) : Z := get_size (lgsz d).
Definition end_of (a : Z) (d : descr) : Z := u32 (a + size_of d).

Definition set_region_prev v d := MkDescr v (region_next d) (block_prev d) (block_next d) (lgsz d) (busy d).
Definition set_region_next v d := MkDescr (region_prev d) v (block_prev d) (block_next d) (lgsz d) (busy d).
Definition set_block_prev v d := MkDescr (region_prev d) (region_next d) v (block_next d) (lgsz d) (busy d).
Definition set_block_next v d := MkDescr (region_prev d) (region_next d) (block_prev d) v (lgsz d) (busy d).
Definition set_lgsz v d := MkDescr (region_prev d) (region_next d) (block_prev d) (block_next d) v (busy d).
Definition set_busy v d := MkDescr (region_prev d) (region_next d) (block_prev d) (block_next d) (lgsz d) v.

Definition rd (st : mpool) (a : Z) : res descr := from_opt FMem (dheap st !! a).
Definition upd (st : mpool) (a : Z) (f : descr -> descr) : res mpool :=
  d ← rd st a; Ok (MkPool (<[a := f d]> (dheap st)) (regions st) (blocks st) (pool_sz_bytes st)).
Definition dinit (st : mpool) (a lg : Z) : mpool :=
  MkPool (<[a := MkDescr 0 0 0 0 lg false]> (dheap st)) (regions st) (blocks st) (pool_sz_bytes st).
Definition set_regions (st : mpool) (v : Z) : mpool := MkPool (dheap st) v (blocks st) (pool_sz_bytes st).
Definition set_pool_sz (st : mpool) (v : Z) : mpool := MkPool (dheap st) (regions st) (blocks st) v.

(** The list head of a size: [_blocks[lg - Lgsz_min]]. *)
Definition head_ix (lg : Z) : nat := Z.to_nat (lg - Lgsz_min).
Definition get_head (st : mpool) (lg : Z) : res Z :=
  if lg <? Lgsz_min then Stop FMem else from_opt FMem (blocks st !! head_ix lg).
Definition set_head (st : mpool) (lg v : Z) : mpool :=
  MkPool (dheap st) (regions st) (<[head_ix lg := v]> (blocks st)) (pool_sz_bytes st).

(** ** class descr_t *)

Definition insert_region_before (st : mpool) (this base : Z) : res mpool :=
  b ← rd st base;
  st ← upd st this (set_region_prev (region_prev b));
  st ← upd st this (set_region_next base);
  st ← upd st base (set_region_prev this);
  Ok (if base =? regions st then set_regions st this else st).

Definition insert_region_after (st : mpool) (this base : Z) : res mpool :=
  b ← rd st base;
  st ← upd st this (set_region_next (region_next b));
  st ← upd st this (set_region_prev base);
  upd st base (set_region_next this).

Definition remove_region (st : mpool) (this : Z) : res mpool :=
  d ← rd st this;
  st ← (if negb (region_prev d =? 0) then upd st (region_prev d) (set_region_next (region_next d))
        else Ok (set_regions st (region_next d)));
  d ← rd st this;
  st ← (if negb (region_next d =? 0) then upd st (region_next d) (set_region_prev (region_prev d)) else Ok st);
  st ← upd st this (set_region_prev 0);
  upd st this (set_region_next 0).

Definition add_block (st : mpool) (this lg : Z) : res mpool :=
  h ← get_head st lg;
  st ← (if negb (h =? 0) then st ← upd st this (set_block_next h); upd st h (set_block_prev this) else Ok st);
  Ok (set_head st lg this).

Definition remove_block (st : mpool) (this lg : Z) : res mpool :=
  d ← rd st this;
  st ← (if negb (block_prev d =? 0) then upd st (block_prev d) (set_block_next (block_next d))
        else h ← get_head st lg; hd ← rd st h; Ok (set_head st lg (block_next hd)));
  d ← rd st this;
  st ← (if negb (block_next d =? 0) then upd st (block_next d) (set_block_prev (block_prev d)) else Ok st);
  st ← upd st this (set_block_prev 0);
  upd st this (set_block_next 0).

(** ** class Memory_pool_t *)

(** Lists and size are not initialised by the constructor, except the counter;
    the object is static, so its memory is zero before. *)
Definition mp_ctor (st : mpool) : mpool := set_pool_sz st 0.
Definition static_pool : mpool := MkPool ∅ 0 (replicate (Z.to_nat Sizes_num) 0) 0.

(** split: the first block [d1] of the list of size [lg] becomes two. *)
Definition split_block (st : mpool) (d1 lg : Z) : res mpool :=
  d ← rd st d1;
  _ ← wassert (negb (busy d));
  st ← remove_block st d1 lg;
  d ← rd st d1;
  let new_lgsz := lgsz d - 1 in
  let d2 := u32 (d1 + get_size new_lgsz) in
  st ← upd st d1 (set_lgsz new_lgsz);
  let st := dinit st d2 new_lgsz in
  st ← add_block st d1 new_lgsz;
  st ← add_block st d2 new_lgsz;
  insert_region_after st d2 d1.

Fixpoint split (fuel : nat) (st : mpool) (lg : Z) : res (bool * mpool) :=
  if (lg <=? Lgsz_min) || (Lgsz_max <? lg) then Ok (false, st) else
  match fuel with
  | O => Stop FFuel
  | S f =>
      h ← get_head st lg;
      st ← (if h =? 0 then r ← split f st (lg + 1); Ok r.2 else Ok st);
      d1 ← get_head st lg;
      if d1 =? 0 then Ok (false, st) else
      st ← split_block st d1 lg;
      Ok (true, st)
  end.

(** combine: the blocks [d1] and [d2], in this order, become one. *)
Definition merge_blocks (st : mpool) (d1 d2 lg : Z) : res mpool :=
  st ← upd st d1 (set_lgsz (lg + 1));
  st ← remove_region st d2;
  st ← remove_block st d1 lg;
  st ← remove_block st d2 lg;
  add_block st d1 (lg + 1).

Fixpoint combine (fuel : nat) (st : mpool) (d1 : Z) : res mpool :=
  match fuel with
  | O => Stop FFuel
  | S f =>
      d ← rd st d1;
      let d2 := if is_aligned d1 (u32 (size_of d * 2)) then region_next d else region_prev d in
      if d2 =? 0 then Ok st else
      e ← rd st d2;
      if negb (lgsz d =? lgsz e) || busy e then Ok st else
      let lg := lgsz d in
      let '(d1, d2) := if d2 <? d1 then (d2, d1) else (d1, d2) in
      st ← merge_blocks st d1 d2 lg;
      combine f st d1
  end.

(** The loop of find_max_block over the sizes 2^(4+n), ..., 2^5. *)
Fixpoint max_block_loop (n : nat) (addr sz : Z) : Z :=
  match n with
  | O => 0
  | S n' =>
      let i := Z.of_nat n' + Lgsz_min in
      let s := get_size i in
      if (s <=? sz) && is_aligned addr s && (u32 (addr + s) <=? u32 (addr + sz)) then i
      else max_block_loop n' addr sz
  end.
Definition find_max_block (addr sz : Z) : Z := max_block_loop (Z.to_nat Sizes_num) addr sz.

(** The place in the region list: the last block that ends before [start] and
    whose successor begins behind [fin]; the head if there is none. *)
Fixpoint find_prev (fuel : nat) (st : mpool) (p start fin : Z) : res Z :=
  if p =? 0 then Ok (regions st) else
  match fuel with
  | O => Stop FFuel
  | S f =>
      d ← rd st p;
      if (end_of p d <=? start) && ((region_next d =? 0) || (fin <=? region_next d)) then Ok p
      else find_prev f st (region_next d) start fin
  end.

Fixpoint add_loop (fuel : nat) (st : mpool) (prev start fin : Z) : res mpool :=
  let lg := find_max_block start (u32 (fin - start)) in
  if lg =? 0 then Ok st else
  match fuel with
  | O => Stop FFuel
  | S f =>
      let d := start in
      let st := dinit st d lg in
      st ← (if regions st =? 0 then Ok (set_regions st d) else insert_region_after st d prev);
      h ← get_head st lg;
      st ← (if h =? 0 then Ok (set_head st lg d) else add_block st d lg);
      let sz := get_size lg in
      add_loop f (set_pool_sz st (u32 (pool_sz_bytes st + sz))) d (u32 (start + sz)) fin
  end.

Definition add (st : mpool) (buf sz : Z) : res (Z * mpool) :=
  let start := round_up buf (2 ^ Lgsz_min) in
  let fin := round_down (u32 (buf + sz)) (2 ^ Lgsz_min) in
  if fin <=? start then Ok (-1, st) else
  prev ← find_prev (S (size (dheap st))) st (regions st) start fin;
  st ← add_loop (S (Z.to_nat ((fin - start) / 2 ^ Lgsz_min))) st prev start fin;
  Ok (0, st).

Definition alloc_block (st : mpool) (lg : Z) : res (Z * mpool) :=
  if Lgsz_max <? lg then Ok (0, st) else
  let lg := if lg <? Lgsz_min then Lgsz_min else lg in
  if pool_sz_bytes st <? get_size lg then Ok (0, st) else
  h ← get_head st lg;
  st ← (if h =? 0 then r ← split (Z.to_nat Sizes_num) st (lg + 1); Ok r.2 else Ok st);
  d ← get_head st lg;
  if d =? 0 then Ok (0, st) else
  st ← remove_block st d lg;
  st ← upd st d (set_busy true);
  dd ← rd st d;
  Ok (d, set_pool_sz st (u32 (pool_sz_bytes st - size_of dd))).

Definition alloc (st : mpool) (sz : Z) : res (Z * mpool) :=
  if sz =? 0 then Ok (0, st) else
  r ← alloc_block st (get_log2sz_top_range (u32 (sz + sizeof_descr)));
  Ok (if r.1 =? 0 then 0 else u32 (r.1 + sizeof_descr), r.2).

Definition free_block (st : mpool) (a : Z) : res (Z * mpool) :=
  d ← rd st a;
  _ ← wassert (busy d);
  if (lgsz d <? Lgsz_min) || (Lgsz_max <? lgsz d) then Ok (0, st) else
  st ← add_block st a (lgsz d);
  st ← upd st a (set_busy false);
  d ← rd st a;
  let free_sz := size_of d in
  st ← combine (Z.to_nat Sizes_num) st a;
  Ok (free_sz, set_pool_sz st (u32 (pool_sz_bytes st + free_sz))).

Definition free (st : mpool) (p : Z) : res (Z * mpool) :=
  if p =? 0 then Ok (0, st) else free_block st (u32 (p - sizeof_descr)).

(** Memory_pool_t::check, without its output: whether the dump is printed and
    the assertion fails. *)
Fixpoint check_regions (fuel : nat) (st : mpool) (prev p : Z) : res bool :=
  if p =? 0 then Ok false else
  match fuel with
  | O => Stop FFuel
  | S f =>
      d ← rd st p;
      e ← (if prev =? 0 then Ok false else pd ← rd st prev; Ok (p <? end_of prev pd));
      r ← check_regions f st p (region_next d);
      Ok (e || r)
  end.
Fixpoint check_list (fuel : nat) (st : mpool) (lg p : Z) : res bool :=
  if p =? 0 then Ok false else
  match fuel with
  | O => Stop FFuel
  | S f =>
      d ← rd st p;
      r ← check_list f st lg (block_next d);
      Ok (busy d || negb (size_of d =? get_size lg) || r)
  end.
Fixpoint check_lists (n : nat) (st : mpool) : res bool :=
  match n with
  | O => Ok false
  | S i =>
      h ← get_head st (Z.of_nat i + Lgsz_min);
      e ← check_list (S (size (dheap st))) st (Z.of_nat i + Lgsz_min) h;
      r ← check_lists i st;
      Ok (e || r)
  end.
Definition check (st : mpool) : res unit :=
  e1 ← check_regions (S (size (dheap st))) st 0 (regions st);
  e2 ← check_lists (Z.to_nat Sizes_num) st;
  wassert (negb (e1 || e2)).

(** The blocks, for examples: address, logarithm of the size, busy. *)
Fixpoint dump_regions (fuel : nat) (st : mpool) (p : Z) : list (Z * Z * bool) :=
  match fuel with
  | O => []
  | S f => if p =? 0 then [] else
      match dheap st !! p with
      | Some d => (p, lgsz d, busy d) :: dump_regions f st (region_next d)
      | None => []
      end
  end.
