(* ===== verification/MemPoolSpec.v ===== *)
(** What the buddy allocator of [MemPool] guarantees for a pool of one memory
    area: the blocks tile the area, allocation returns a fresh block that is
    large enough or fails only when there is none, release merges buddies, and
    live blocks never overlap. *)

From Stdlib Require Import ZArith Lia Bool Znumtheory.
From stdpp Require Import base gmap list numbers relations.
From S2P Require Import Prelude SysUtils MemPool.

(** ** Blocks that tile an area *)

Record leaf := Leaf { l_addr : Z; l_lg : Z; l_busy : bool }.
Definition l_end (l : leaf) : Z := l_addr l + 2 ^ l_lg l.

Fixpoint tiles (a : Z) (L : list leaf) (b : Z) : Prop :=
  match L with
  | [] => a = b
  | l :: L' => l_addr l = a /\ Lgsz_min <= l_lg l <= Lgsz_max /\ (2 ^ l_lg l | a) /\ tiles (l_end l) L' b
  end.

Lemma pow_pos k : 0 <= k -> 0 < 2 ^ k.
Proof. intros. apply Z.pow_pos_nonneg; lia. Qed.

Lemma tiles_app a L1 L2 b : tiles a (L1 ++ L2) b <-> exists m, tiles a L1 m /\ tiles m L2 b.
Proof.
  revert a. induction L1 as [|l L1 IH]; intros a; simpl; [naive_solver |]. rewrite IH. naive_solver.
Qed.

Lemma tiles_le a L b : tiles a L b -> a <= b.
Proof.
  revert a. induction L as [|l L IH]; intros a; simpl; [lia |]. intros (<- & Hl & _ & H). apply IH in H.
  unfold l_end, Lgsz_min in *. pose proof (pow_pos (l_lg l)). lia.
Qed.

Lemma tiles_in a L b l : tiles a L b -> l ∈ L ->
  a <= l_addr l /\ l_end l <= b /\ Lgsz_min <= l_lg l <= Lgsz_max /\ (2 ^ l_lg l | l_addr l).
Proof.
  intros H (L1 & L2 & ->)%list_elem_of_split. apply tiles_app in H as (m & H1 & <- & Hl & Hd & H2).
  pose proof (tiles_le _ _ _ H1). pose proof (tiles_le _ _ _ H2). done.
Qed.

Lemma l_end_gt l : Lgsz_min <= l_lg l -> l_addr l + 32 <= l_end l.
Proof. unfold l_end, Lgsz_min. intros. pose proof (Z.pow_le_mono_r 2 5 (l_lg l)). lia. Qed.

(** Blocks before and behind a block. *)
Lemma tiles_mid a L1 l L2 b : tiles a (L1 ++ l :: L2) b ->
  (forall x, x ∈ L1 -> l_end x <= l_addr l) /\ (forall x, x ∈ L2 -> l_end l <= l_addr x) /\
  Lgsz_min <= l_lg l <= Lgsz_max /\ (2 ^ l_lg l | l_addr l) /\ a <= l_addr l /\ l_end l <= b.
Proof.
  intros H. pose proof H as (m & H1 & <- & Hl & Hd & H2)%tiles_app.
  pose proof (tiles_le _ _ _ H1). pose proof (tiles_le _ _ _ H2). split_and!; try done; try lia.
  - intros x Hx. by apply (tiles_in _ _ _ x H1).
  - intros x Hx. by apply (tiles_in _ _ _ x H2).
Qed.

Lemma tiles_disjoint a L b x y : tiles a L b -> x ∈ L -> y ∈ L -> x = y \/ l_end x <= l_addr y \/ l_end y <= l_addr x.
Proof.
  intros H (L1 & L2 & ->)%list_elem_of_split Hy. destruct (tiles_mid _ _ _ _ _ H) as (H1 & H2 & _).
  apply elem_of_app in Hy as [Hy|[->|Hy]%elem_of_cons]; auto.
Qed.

Lemma tiles_addr_inj a L b x y : tiles a L b -> x ∈ L -> y ∈ L -> l_addr x = l_addr y -> x = y.
Proof.
  intros H Hx Hy E. destruct (tiles_disjoint _ _ _ _ _ H Hx Hy) as [?|Hd]; [done |].
  destruct (tiles_in _ _ _ _ H Hx) as (_ & _ & Lx & _), (tiles_in _ _ _ _ H Hy) as (_ & _ & Ly & _).
  apply proj1 in Lx, Ly. apply l_end_gt in Lx, Ly. lia.
Qed.

Lemma tiles_nodup a L b : tiles a L b -> NoDup L.
Proof.
  revert a. induction L as [|l L IH]; intros a H; [constructor |].
  destruct (tiles_mid a [] l L b H) as (_ & H2 & [Hl _] & _). apply l_end_gt in Hl. constructor.
  - intros Hi. apply H2 in Hi. lia.
  - destruct H as (_ & _ & _ & H). eauto.
Qed.

(** *** Divisibility of addresses *)

Lemma pow2_divide i j : 0 <= i <= j -> (2 ^ i | 2 ^ j).
Proof. intros. exists (2 ^ (j - i)). rewrite <- Z.pow_add_r by lia. f_equal. lia. Qed.

Lemma divide_lower i j a : 0 <= i <= j -> (2 ^ j | a) -> (2 ^ i | a).
Proof. intros. eapply Z.divide_trans; [by apply pow2_divide | done]. Qed.

(** An odd multiple of a block size, and the buddy below it. *)
Lemma odd_multiple k a : 0 <= k -> (2 ^ k | a) -> ~ (2 ^ (k + 1) | a) -> (2 ^ (k + 1) | a - 2 ^ k).
Proof.
  intros Hk [q ->] Hn. destruct (Z.Even_or_Odd q) as [[r ->]|[r ->]].
  - destruct Hn. exists r. rewrite Z.pow_add_r by lia. lia.
  - exists r. rewrite Z.pow_add_r by lia. lia.
Qed.

Lemma even_multiple k a : 0 <= k -> (2 ^ (k + 1) | a) -> ~ (2 ^ (k + 1) | a + 2 ^ k).
Proof.
  intros Hk Ha Hn. pose proof (pow_pos k Hk). assert (H2 : (2 ^ (k + 1) | 2 ^ k)).
  { replace (2 ^ k) with ((a + 2 ^ k) - a) by lia. by apply Z.divide_sub_r. }
  apply Z.divide_pos_le in H2; [| lia]. rewrite Z.pow_add_r in H2 by lia. lia.
Qed.

Lemma multiple_add i k a : 0 <= k -> (2 ^ k | a) -> ~ (2 ^ (i + 1) | a + 2 ^ k) -> 0 <= i -> k <= i.
Proof.
  intros Hk Ha Hn Hi. destruct (Z.le_gt_cases k i); [done |]. destruct Hn.
  apply (divide_lower _ k); [lia |]. apply Z.divide_add_r; [done | apply Z.divide_refl].
Qed.

(** The address of the left neighbour that a block remembers: [e] is some
    power of two below [a] and a multiple of it. *)
Definition below (e a : Z) : Prop := exists k, 0 <= k /\ a = e + 2 ^ k /\ (2 ^ k | e).

(** ** The fields of the descriptors *)

Definition Nf (h : gmap Z descr) (a : Z) : option (Z * Z * bool) := (fun d => (region_next d, lgsz d, busy d)) <$> h !! a.
Definition Pf (h : gmap Z descr) (a : Z) : option Z := region_prev <$> h !! a.
Definition Bf (h : gmap Z descr) (a : Z) : option (Z * Z) := (fun d => (block_prev d, block_next d)) <$> h !! a.

Definition same_region (st st' : mpool) : Prop :=
  (forall x, Nf (dheap st') x = Nf (dheap st) x) /\ (forall x, Pf (dheap st') x = Pf (dheap st) x) /\
  regions st' = regions st /\ pool_sz_bytes st' = pool_sz_bytes st.

Lemma same_region_trans s1 s2 s3 : same_region s1 s2 -> same_region s2 s3 -> same_region s1 s3.
Proof. intros (A & B & C & D) (A' & B' & C' & D'). split_and!; intros; congruence. Qed.

Lemma upd_ok st a f d : dheap st !! a = Some d ->
  upd st a f = Ok (MkPool (<[a := f d]> (dheap st)) (regions st) (blocks st) (pool_sz_bytes st)).
Proof. intros H. unfold upd, rd. by rewrite H. Qed.

Lemma rd_ok st a d : dheap st !! a = Some d -> rd st a = Ok d.
Proof. intros H. unfold rd. by rewrite H. Qed.

Lemma Nf_insert h a d x : Nf (<[a := d]> h) x = if decide (x = a) then Some (region_next d, lgsz d, busy d) else Nf h x.
Proof. unfold Nf. destruct (decide (x = a)) as [->|]; by simplify_map_eq. Qed.
Lemma Pf_insert h a d x : Pf (<[a := d]> h) x = if decide (x = a) then Some (region_prev d) else Pf h x.
Proof. unfold Pf. destruct (decide (x = a)) as [->|]; by simplify_map_eq. Qed.
Lemma Bf_insert h a d x : Bf (<[a := d]> h) x = if decide (x = a) then Some (block_prev d, block_next d) else Bf h x.
Proof. unfold Bf. destruct (decide (x = a)) as [->|]; by simplify_map_eq. Qed.

Lemma fields_of h a d : h !! a = Some d ->
  Nf h a = Some (region_next d, lgsz d, busy d) /\ Pf h a = Some (region_prev d) /\ Bf h a = Some (block_prev d, block_next d).
Proof. intros H. unfold Nf, Pf, Bf. by rewrite H. Qed.

Lemma Bf_lookup h a p n : Bf h a = Some (p, n) -> exists d, h !! a = Some d /\ block_prev d = p /\ block_next d = n.
Proof. unfold Bf. intros (d & ? & ?)%fmap_Some. exists d. naive_solver. Qed.
Lemma Nf_lookup h a n g b : Nf h a = Some (n, g, b) -> exists d, h !! a = Some d /\ region_next d = n /\ lgsz d = g /\ busy d = b.
Proof. unfold Nf. intros (d & ? & ?)%fmap_Some. exists d. naive_solver. Qed.

(** Writing the links of one kind keeps the fields of the other kind. *)
Ltac fields := repeat (rewrite ?Nf_insert, ?Pf_insert, ?Bf_insert; simpl);
  repeat match goal with |- context [decide (?x = ?y)] => destruct (decide (x = y)); subst end; simpl.

(** ** The lists of free blocks *)

Definition hd0 (n : Z) (l : list Z) : Z := match l with [] => n | a :: _ => a end.
Definition last0 (p : Z) (l : list Z) : Z := default p (last l).

Fixpoint dseg (h : gmap Z descr) (p : Z) (l : list Z) (n : Z) : Prop :=
  match l with
  | [] => True
  | a :: l' => Bf h a = Some (p, hd0 n l') /\ dseg h a l' n
  end.

Lemma mseg_frame h h' p l n : (forall x, x ∈ l -> Bf h' x = Bf h x) -> dseg h p l n -> dseg h' p l n.
Proof.
  revert p. induction l as [|a l IH]; intros p H; simpl; [done |]. intros [E D]. split.
  - rewrite H by set_solver. done.
  - apply IH; [set_solver | done].
Qed.

Lemma mseg_app h p l1 l2 n : dseg h p (l1 ++ l2) n <-> dseg h p l1 (hd0 n l2) /\ dseg h (last0 p l1) l2 n.
Proof.
  revert p. induction l1 as [|a l1 IH]; intros p; simpl; [naive_solver |]. rewrite IH.
  assert (E : last0 a l1 = last0 p (a :: l1)). { unfold last0. rewrite (last_cons a). by destruct (last l1). }
  rewrite E. destruct l1; simpl; naive_solver.
Qed.

(** The last item of a segment gets another successor. *)
Lemma dseg_set_next h h' p l b n n' q : dseg h p (l ++ [b]) n -> b ∉ l -> Bf h b = Some (q, n) ->
  Bf h' b = Some (q, n') -> (forall x, x ∈ l -> Bf h' x = Bf h x) -> dseg h' p (l ++ [b]) n'.
Proof.
  intros (D1 & D2)%mseg_app Hb Eb Eb' Hl. apply mseg_app. split; [by eapply mseg_frame |].
  simpl in *. destruct D2 as [E _]. split; [| done]. rewrite E in Eb. naive_solver.
Qed.

Lemma hd0_app n l1 l2 : hd0 n (l1 ++ l2) = hd0 (hd0 n l2) l1.
Proof. by destruct l1. Qed.

(** [bl] gives the list of the free blocks of every size. *)
Definition in_sizes (lg : Z) : Prop := Lgsz_min <= lg <= Lgsz_max.

Record lists (st : mpool) (bl : Z -> list Z) : Prop := {
  ls_len : length (blocks st) = Z.to_nat Sizes_num;
  ls_head : forall lg, in_sizes lg -> blocks st !! head_ix lg = Some (hd0 0 (bl lg));
  ls_seg : forall lg, in_sizes lg -> dseg (dheap st) 0 (bl lg) 0;
  ls_nodup : forall lg, NoDup (bl lg);
  ls_disj : forall i j a, a ∈ bl i -> a ∈ bl j -> i = j;
  ls_null : forall lg a, a ∈ bl lg -> a <> 0 }.

Definition bl_set (bl : Z -> list Z) (lg : Z) (l : list Z) : Z -> list Z := fun i => if i =? lg then l else bl i.

Lemma bl_set_eq bl lg l : bl_set bl lg l lg = l.
Proof. unfold bl_set. by rewrite Z.eqb_refl. Qed.
Lemma bl_set_ne bl lg l i : i <> lg -> bl_set bl lg l i = bl i.
Proof. intros. unfold bl_set. by rewrite (proj2 (Z.eqb_neq i lg)). Qed.

Lemma head_ix_inj i j : in_sizes i -> in_sizes j -> head_ix i = head_ix j -> i = j.
Proof. unfold in_sizes, head_ix, Lgsz_min, Lgsz_max. lia. Qed.
Lemma head_ix_lt lg : in_sizes lg -> (head_ix lg < Z.to_nat Sizes_num)%nat.
Proof. unfold in_sizes, head_ix, Sizes_num, Lgsz_min, Lgsz_max. lia. Qed.

Lemma get_head_ok st bl lg : lists st bl -> in_sizes lg -> get_head st lg = Ok (hd0 0 (bl lg)).
Proof.
  intros H Hl. unfold get_head. rewrite (proj2 (Z.ltb_ge lg Lgsz_min)) by apply Hl. by rewrite (ls_head _ _ H lg Hl).
Qed.

(** The list of one size changes; the other lists are not touched. *)
Lemma lists_put st st' bl lg l : lists st bl -> in_sizes lg ->
  blocks st' = <[head_ix lg := hd0 0 l]> (blocks st) -> dseg (dheap st') 0 l 0 -> NoDup l ->
  (forall i x, i <> lg -> x ∈ bl i -> x ∉ l /\ Bf (dheap st') x = Bf (dheap st) x) -> (0 ∉ l) ->
  lists st' (bl_set bl lg l).
Proof.
  intros [H1 H2 H3 H4 H5 H6] Hl Hb Hd Hn Ho H0. split.
  - rewrite Hb, length_insert. done.
  - intros i Hi. rewrite Hb. destruct (decide (i = lg)) as [->|Hne].
    + rewrite list_lookup_insert_eq by (rewrite H1; by apply head_ix_lt). by rewrite bl_set_eq.
    + rewrite list_lookup_insert_ne by (intros E; by apply head_ix_inj in E). rewrite bl_set_ne by done. by apply H2.
  - intros i Hi. destruct (decide (i = lg)) as [->|Hne]; [by rewrite bl_set_eq |]. rewrite bl_set_ne by done.
    eapply mseg_frame; [| by apply H3]. intros x Hx. by apply (Ho i x).
  - intros i. destruct (decide (i = lg)) as [->|Hne]; [by rewrite bl_set_eq | by rewrite bl_set_ne].
  - intros i j a. destruct (decide (i = lg)) as [->|Hi], (decide (j = lg)) as [->|Hj]; rewrite ?bl_set_eq, ?bl_set_ne by done; auto.
    + intros ? Ha. by apply (Ho j a Hj) in Ha as [? _].
    + intros Ha ?. by apply (Ho i a Hi) in Ha as [? _].
    + apply H5.
  - intros i a. destruct (decide (i = lg)) as [->|Hi]; rewrite ?bl_set_eq, ?bl_set_ne by done; [| apply H6]. intros Ha ->. done.
Qed.

Definition nowhere (bl : Z -> list Z) (a : Z) : Prop := forall lg, a ∉ bl lg.

Lemma add_block_ok st bl a lg : lists st bl -> in_sizes lg -> a <> 0 -> nowhere bl a -> Bf (dheap st) a = Some (0, 0) ->
  exists st', add_block st a lg = Ok st' /\ lists st' (bl_set bl lg (a :: bl lg)) /\ same_region st st' /\
  (forall x, x <> a -> nowhere bl x -> Bf (dheap st') x = Bf (dheap st) x) /\ (forall x, is_Some (dheap st !! x) -> is_Some (dheap st' !! x)).
Proof.
  intros H Hl Ha Hn Hb. unfold add_block. rewrite (get_head_ok st bl lg H Hl). simpl.
  pose proof (ls_seg _ _ H lg Hl) as Hs. pose proof (ls_nodup _ _ H lg) as Hd.
  destruct (bl lg) as [|b l] eqn:El; simpl.
  - eexists. split; [done |]. split_and!; try done. apply (lists_put st); try done.
    + repeat constructor. set_solver.
    + intros i x Hi Hx. split; [| done]. intros ->%list_elem_of_singleton. by apply (Hn i).
    + set_solver.
  - assert (Hb0 : b <> 0) by (apply (ls_null _ _ H lg); rewrite El; set_solver).
    assert (Hab : b <> a) by (intros ->; apply (Hn lg); rewrite El; set_solver).
    rewrite (proj2 (Z.eqb_neq b 0) Hb0). simpl. destruct (Bf_lookup _ _ _ _ Hb) as (da & Ea & Pa & Na).
    destruct Hs as [Eb Hs]. destruct (Bf_lookup _ _ _ _ Eb) as (db & Edb & Pb & Nb).
    rewrite (upd_ok _ _ _ da Ea). simpl. rewrite (upd_ok _ _ _ db) by (simpl; by rewrite lookup_insert_ne).
    simpl. eexists. split; [done |]. pose proof (fields_of _ _ _ Ea) as (Fa1 & Fa2 & _). pose proof (fields_of _ _ _ Edb) as (Fb1 & Fb2 & _).
    apply NoDup_cons in Hd as [Hbl Hd].
    split_and!; simpl.
    + apply (lists_put st); try done.
      * simpl. fields; try done. rewrite Pa. split; [done |]. rewrite Nb. split; [done |].
        eapply mseg_frame; [| exact Hs]. intros x Hx. fields; try done. destruct (Hn lg). rewrite El. set_solver.
      * apply NoDup_cons. split; [| by constructor]. intros Hi. apply (Hn lg). by rewrite El.
      * intros i x Hi Hx. assert (x <> a) by (intros ->; by apply (Hn i)).
        assert (x ∉ b :: l). { intros Hx2. rewrite <- El in Hx2. by apply Hi, (ls_disj _ _ H i lg x). }
        split; [set_solver |]. simpl. fields; set_solver.
      * rewrite elem_of_cons. intros [?|Hi]; [done |]. apply (ls_null _ _ H lg 0); [by rewrite El | done].
    + split_and!; try done; intros x; simpl; fields; congruence.
    + intros x Hx Hw. fields; try done. destruct (Hw lg). rewrite El. set_solver.
    + intros x Hx. destruct (decide (x = b)) as [->|]; [by rewrite lookup_insert_eq |]. rewrite lookup_insert_ne by done.
      destruct (decide (x = a)) as [->|]; [by rewrite lookup_insert_eq |]. by rewrite lookup_insert_ne.
Qed.

Lemma dom_upd (h : gmap Z descr) a d x : is_Some (h !! x) -> is_Some (<[a := d]> h !! x).
Proof. intros Hx. destruct (decide (x = a)) as [->|]; [by rewrite lookup_insert_eq | by rewrite lookup_insert_ne]. Qed.

(** First half of remove_block: the predecessor, or the list head, skips the block. *)
Lemma unlink_prev st bl lg l1 a l2 d : lists st bl -> in_sizes lg -> bl lg = l1 ++ a :: l2 -> dheap st !! a = Some d ->
  exists st', (if negb (block_prev d =? 0) then upd st (block_prev d) (set_block_next (block_next d))
               else h ← get_head st lg; hd ← rd st h; Ok (set_head st lg (block_next hd))) = Ok st' /\
  same_region st st' /\ blocks st' = <[head_ix lg := hd0 0 (l1 ++ l2)]> (blocks st) /\ dseg (dheap st') 0 l1 (hd0 0 l2) /\
  (forall x, x ∉ l1 -> Bf (dheap st') x = Bf (dheap st) x) /\ (forall x, is_Some (dheap st !! x) -> is_Some (dheap st' !! x)).
Proof.
  intros H Hl El Ed. pose proof (ls_seg _ _ H lg Hl) as Hs. rewrite El in Hs. apply mseg_app in Hs as [S1 [Sa S2]]. simpl in S1.
  destruct (fields_of _ _ _ Ed) as (_ & _ & Fb). rewrite Sa in Fb. injection Fb as Ep En.
  pose proof (ls_nodup _ _ H lg) as Hd. rewrite El in Hd.
  destruct (decide (l1 = [])) as [->|Hne].
  - unfold last0 in Ep. simpl in Ep. rewrite <- Ep. simpl. rewrite (get_head_ok st bl lg H Hl), El. simpl.
    unfold rd. rewrite Ed. simpl. rewrite <- En. eexists. split; [done |]. by split_and!.
  - destruct (exists_last Hne) as (l & b & ->). clear Hne. rename l into l1. unfold last0 in Ep. rewrite last_snoc in Ep. simpl in Ep. rewrite <- Ep.
    assert (Hb0 : b <> 0) by (apply (ls_null _ _ H lg); rewrite El; set_solver).
    rewrite (proj2 (Z.eqb_neq b 0) Hb0). simpl.
    pose proof S1 as (_ & [Sb _])%mseg_app. simpl in Sb. destruct (Bf_lookup _ _ _ _ Sb) as (db & Edb & Pb & Nb).
    rewrite (upd_ok _ _ _ db Edb). eexists. split; [done |]. simpl.
    pose proof (fields_of _ _ _ Edb) as (Fb1 & Fb2 & _).
    assert (Hbl : b ∉ l1). { rewrite <- app_assoc in Hd. apply NoDup_app in Hd as (_ & Hd & _). intros Hi. apply (Hd b Hi). set_solver. }
    split_and!.
    + split_and!; try done; intros x; simpl; fields; congruence.
    + rewrite list_insert_id; [done |]. rewrite (ls_head _ _ H lg Hl), El. by rewrite <- !app_assoc, !hd0_app.
    + eapply (dseg_set_next (dheap st)); [exact S1 | exact Hbl | exact Sb | |].
      * fields; [| done]. by rewrite Pb, <- En.
      * intros x Hx. fields; [by destruct Hbl | done].
    + intros x Hx. fields; [| done]. destruct Hx. set_solver.
    + intros x. apply dom_upd.
Qed.

(** Second half: the successor gets the predecessor, the links of the block are cleared. *)
Lemma unlink_next st p l2 a d : dheap st !! a = Some d -> block_prev d = p -> block_next d = hd0 0 l2 -> dseg (dheap st) a l2 0 ->
  NoDup l2 -> 0 ∉ l2 -> a ∉ l2 ->
  exists st', (st1 ← (if negb (block_next d =? 0) then upd st (block_next d) (set_block_prev (block_prev d)) else Ok st);
               st2 ← upd st1 a (set_block_prev 0); upd st2 a (set_block_next 0)) = Ok st' /\
  same_region st st' /\ blocks st' = blocks st /\ dseg (dheap st') p l2 0 /\ Bf (dheap st') a = Some (0, 0) /\
  (forall x, x <> a -> x ∉ l2 -> Bf (dheap st') x = Bf (dheap st) x) /\ (forall x, is_Some (dheap st !! x) -> is_Some (dheap st' !! x)).
Proof.
  intros Ed Ep En Hs Hd H0 Ha. pose proof (fields_of _ _ _ Ed) as (Fa1 & Fa2 & _). rewrite En. destruct l2 as [|c l2]; simpl.
  - rewrite (upd_ok _ _ _ d Ed). simpl. rewrite (upd_ok _ _ _ (set_block_prev 0 d)) by (simpl; apply lookup_insert_eq).
    simpl. eexists. split; [done |]. simpl. split_and!; try done.
    + split_and!; try done; intros x; simpl; fields; congruence.
    + fields; done.
    + intros x Hx _. fields; done.
    + intros x Hx. by do 2 apply dom_upd.
  - assert (Hc : c <> 0) by set_solver. rewrite (proj2 (Z.eqb_neq c 0) Hc). simpl. destruct Hs as [Sc Hs].
    destruct (Bf_lookup _ _ _ _ Sc) as (dc & Edc & Pc & Nc). pose proof (fields_of _ _ _ Edc) as (Fc1 & Fc2 & _).
    apply NoDup_cons in Hd as [Hcl Hd]. assert (Hac : c <> a) by set_solver.
    rewrite (upd_ok _ _ _ dc Edc). simpl. rewrite (upd_ok _ _ _ d) by (simpl; by rewrite lookup_insert_ne). simpl.
    rewrite (upd_ok _ _ _ (set_block_prev 0 d)) by (simpl; apply lookup_insert_eq). simpl. eexists. split; [done |]. simpl. split_and!; try done.
    + split_and!; try done; intros x; simpl; fields; congruence.
    + fields; try done. by rewrite Nc.
    + eapply mseg_frame; [| exact Hs]. intros x Hx. fields; set_solver.
    + fields; done.
    + intros x Hx Hx2. fields; set_solver.
    + intros x Hx. by do 3 apply dom_upd.
Qed.

Lemma remove_block_ok st bl lg a : lists st bl -> in_sizes lg -> a ∈ bl lg ->
  exists st' l, remove_block st a lg = Ok st' /\ lists st' (bl_set bl lg l) /\ same_region st st' /\ Bf (dheap st') a = Some (0, 0) /\
  (forall x, x ∈ l <-> x ∈ bl lg /\ x <> a) /\ (forall x, nowhere bl x -> Bf (dheap st') x = Bf (dheap st) x) /\
  (forall x, is_Some (dheap st !! x) -> is_Some (dheap st' !! x)).
Proof.
  intros H Hl Ha. pose proof Ha as (l1 & l2 & El)%list_elem_of_split.
  pose proof (ls_seg _ _ H lg Hl) as Hs. rewrite El in Hs. apply mseg_app in Hs as [S1 [Sa S2]].
  pose proof (ls_nodup _ _ H lg) as Hd. rewrite El in Hd. apply NoDup_app in Hd as (Hd1 & Hd12 & [Hal Hd2]%NoDup_cons).
  destruct (Bf_lookup _ _ _ _ Sa) as (d & Ed & Ep & En).
  assert (Hal1 : a ∉ l1) by (intros Hi; apply (Hd12 a Hi); set_solver).
  destruct (unlink_prev st bl lg l1 a l2 d H Hl El Ed) as (st1 & E1 & R1 & B1 & D1 & F1 & I1).
  assert (S1a : Bf (dheap st1) a = Some (last0 0 l1, hd0 0 l2)) by (rewrite F1 by done; done).
  destruct (Bf_lookup _ _ _ _ S1a) as (d1 & Ed1 & Ep1 & En1).
  destruct (unlink_next st1 (last0 0 l1) l2 a d1 Ed1 Ep1 En1) as (st2 & E2 & R2 & B2 & D2 & Z2 & F2 & I2); try done.
  { eapply mseg_frame; [| exact S2]. intros x Hx. apply F1. intros Hi. apply (Hd12 x Hi). set_solver. }
  { intros Hi. apply (ls_null _ _ H lg 0); [rewrite El; set_solver | done]. }
  exists st2, (l1 ++ l2). unfold remove_block. rewrite (rd_ok _ _ _ Ed). simpl. rewrite E1. simpl. rewrite (rd_ok _ _ _ Ed1). simpl.
  split; [exact E2 |]. split_and!; try done.
  - apply (lists_put st); try done.
    + by rewrite B2, B1.
    + apply mseg_app. split; [| done]. eapply mseg_frame; [| exact D1]. intros x Hx. apply F2; [by intros -> |].
      intros Hi. apply (Hd12 x Hx). set_solver.
    + apply NoDup_app. split_and!; try done. intros x Hx Hi. apply (Hd12 x Hx). set_solver.
    + intros i x Hi Hx. assert (Hx2 : x ∉ bl lg) by (intros Hx2; by apply Hi, (ls_disj _ _ H i lg x)). rewrite El in Hx2.
      split; [set_solver |]. rewrite F2, F1; set_solver.
    + intros Hi. apply (ls_null _ _ H lg 0); [rewrite El; set_solver | done].
  - by eapply same_region_trans.
  - intros x. rewrite El, !elem_of_app, elem_of_cons. split.
    + intros Hx. split; [naive_solver |]. intros ->. naive_solver.
    + naive_solver.
  - intros x Hx. specialize (Hx lg). rewrite El in Hx. rewrite F2, F1; set_solver.
  - intros x Hx. by apply I2, I1.
Qed.

(** ** The list of all blocks, by address *)

Definition hda (y : Z) (L : list leaf) : Z := match L with [] => y | l :: _ => l_addr l end.

Fixpoint rseg (h : gmap Z descr) (L : list leaf) (y : Z) : Prop :=
  match L with
  | [] => True
  | l :: L' => Nf h (l_addr l) = Some (hda y L', l_lg l, l_busy l) /\ rseg h L' y
  end.

Lemma rseg_app h L1 L2 y : rseg h (L1 ++ L2) y <-> rseg h L1 (hda y L2) /\ rseg h L2 y.
Proof.
  induction L1 as [|l L1 IH]; simpl; [naive_solver |]. rewrite IH.
  assert (E : hda y (L1 ++ L2) = hda (hda y L2) L1) by (by destruct L1). rewrite E. naive_solver.
Qed.

Lemma rseg_frame h h' L y : (forall l, l ∈ L -> Nf h' (l_addr l) = Nf h (l_addr l)) -> rseg h L y -> rseg h' L y.
Proof.
  induction L as [|l L IH]; intros H; simpl; [done |]. intros [E R]. split.
  - rewrite H by set_solver. done.
  - apply IH; [set_solver | done].
Qed.

(** The left neighbour that the descriptor of a block names. *)
Definition prev_ok (h : gmap Z descr) (A : Z) (L : list leaf) (l : leaf) : Prop :=
  exists e, Pf h (l_addr l) = Some e /\ if l_addr l =? A then e = 0 else below e (l_addr l) /\ exists x, x ∈ L /\ l_addr x = e.

Record regs (st : mpool) (A B : Z) (L : list leaf) : Prop := {
  rg_pos : 0 < A;
  rg_end : B < 2 ^ 32;
  rg_tiles : tiles A L B;
  rg_first : regions st = hda 0 L;
  rg_seg : rseg (dheap st) L 0;
  rg_prev : forall l, l ∈ L -> prev_ok (dheap st) A L l }.

Lemma regs_same st st' A B L : regs st A B L -> same_region st st' -> regs st' A B L.
Proof.
  intros [R1 R2 R3 R4 R5 R6] (N & P & E & _). split; try done.
  - congruence.
  - eapply rseg_frame; [| done]. intros l _. apply N.
  - intros l Hl. destruct (R6 l Hl) as (e & He & Hp). exists e. by rewrite P.
Qed.

Lemma regs_leaf st A B L l : regs st A B L -> l ∈ L -> exists n d, dheap st !! l_addr l = Some d /\
  region_next d = n /\ lgsz d = l_lg l /\ busy d = l_busy l.
Proof.
  intros R (L1 & L2 & ->)%list_elem_of_split. pose proof (rg_seg _ _ _ _ R) as [_ [E _]]%rseg_app.
  destruct (Nf_lookup _ _ _ _ _ E) as (d & ? & ? & ? & ?). eauto 10.
Qed.

Lemma regs_range st A B L l : regs st A B L -> l ∈ L ->
  0 < A <= l_addr l /\ l_addr l + 32 <= l_end l <= B /\ B < 2 ^ 32 /\ in_sizes (l_lg l) /\ (2 ^ l_lg l | l_addr l).
Proof.
  intros [R1 R2 R3 _ _ _] Hl. destruct (tiles_in _ _ _ _ R3 Hl) as (H1 & H2 & H3 & H4).
  pose proof (l_end_gt l (proj1 H3)). split_and!; try done; try lia; apply H3.
Qed.

Lemma prev_mono h h' A L L' l : prev_ok h A L l -> Pf h' (l_addr l) = Pf h (l_addr l) ->
  (forall x, x ∈ L -> exists y, y ∈ L' /\ l_addr y = l_addr x) -> prev_ok h' A L' l.
Proof.
  intros (e & He & Hp) E Hs. exists e. rewrite E. split; [done |]. destruct (l_addr l =? A); [done |].
  destruct Hp as (Hb & x & Hx & Ex). split; [done |]. destruct (Hs x Hx) as (y & Hy & Ey). exists y. split; [done | congruence].
Qed.

(** A block is marked busy or free. *)
Lemma regs_busy st st' A B L1 l L2 v : regs st A B (L1 ++ l :: L2) ->
  (forall x, x <> l_addr l -> Nf (dheap st') x = Nf (dheap st) x) -> (forall x, Pf (dheap st') x = Pf (dheap st) x) ->
  Nf (dheap st') (l_addr l) = Some (hda 0 L2, l_lg l, v) -> regions st' = regions st ->
  regs st' A B (L1 ++ Leaf (l_addr l) (l_lg l) v :: L2).
Proof.
  intros R HN HP Hl Hr. pose proof (tiles_nodup _ _ _ (rg_tiles _ _ _ _ R)) as Hd.
  assert (Hne : forall x, x ∈ L1 \/ x ∈ L2 -> l_addr x <> l_addr l).
  { intros x Hx E. assert (x = l) as -> by (eapply tiles_addr_inj; [apply R | set_solver | set_solver | done]).
    apply NoDup_app in Hd as (_ & Hd & [Hd2 _]%NoDup_cons). destruct Hx as [Hx|Hx]; [| done]. apply (Hd l Hx). set_solver. }
  destruct R as [R1 R2 R3 R4 R5 R6]. split; try done.
  - apply tiles_app. by apply tiles_app in R3.
  - rewrite Hr, R4. by destruct L1.
  - apply rseg_app. apply rseg_app in R5 as [S1 [_ S2]]. simpl. split_and!; try done.
    + eapply rseg_frame; [| done]. intros x Hx. apply HN. auto.
    + eapply rseg_frame; [| done]. intros x Hx. apply HN. auto.
  - assert (Hsub : forall x, x ∈ L1 ++ l :: L2 -> exists y, y ∈ L1 ++ Leaf (l_addr l) (l_lg l) v :: L2 /\ l_addr y = l_addr x).
    { intros x [Hx|[->|Hx]%elem_of_cons]%elem_of_app; [exists x | eexists (Leaf (l_addr l) (l_lg l) v) | exists x]; (split; [set_solver | done]). }
    intros x [Hx|[->|Hx]%elem_of_cons]%elem_of_app.
    + eapply prev_mono; [apply R6; set_solver | apply HP | exact Hsub].
    + change (prev_ok (dheap st') A (L1 ++ Leaf (l_addr l) (l_lg l) v :: L2) l).
      assert (Hl' : l ∈ L1 ++ l :: L2) by set_solver. eapply prev_mono; [exact (R6 l Hl') | apply HP | exact Hsub].
    + eapply prev_mono; [apply R6; set_solver | apply HP | exact Hsub].
Qed.

(** A block is split in two. *)
Definition left_half (l : leaf) : leaf := Leaf (l_addr l) (l_lg l - 1) (l_busy l).
Definition right_half (l : leaf) : leaf := Leaf (l_addr l + 2 ^ (l_lg l - 1)) (l_lg l - 1) false.

Lemma tiles_split a L1 l L2 b : tiles a (L1 ++ l :: L2) b -> Lgsz_min < l_lg l -> tiles a (L1 ++ left_half l :: right_half l :: L2) b.
Proof.
  rewrite !tiles_app. intros (m & H1 & E & Hl & Hd & H2) Hk. exists m. split; [done |]. simpl. unfold l_end in *. simpl.
  pose proof (Z.pow_succ_r 2 (l_lg l - 1)) as Ep. replace (Z.succ (l_lg l - 1)) with (l_lg l) in Ep by lia. unfold Lgsz_min, Lgsz_max in *.
  assert (Hm : (2 ^ (l_lg l - 1) | m)) by (apply (divide_lower _ (l_lg l)); [lia | done]).
  split_and!; try done; try lia.
  - rewrite E. apply Z.divide_add_r; [done | apply Z.divide_refl].
  - replace (l_addr l + 2 ^ (l_lg l - 1) + 2 ^ (l_lg l - 1)) with (l_addr l + 2 ^ l_lg l) by lia. done.
Qed.

Lemma regs_split st st' A B L1 l L2 : regs st A B (L1 ++ l :: L2) -> Lgsz_min < l_lg l ->
  (forall x, x <> l_addr l -> x <> l_addr (right_half l) -> Nf (dheap st') x = Nf (dheap st) x) ->
  (forall x, x <> l_addr (right_half l) -> Pf (dheap st') x = Pf (dheap st) x) ->
  Nf (dheap st') (l_addr l) = Some (l_addr (right_half l), l_lg l - 1, l_busy l) ->
  Nf (dheap st') (l_addr (right_half l)) = Some (hda 0 L2, l_lg l - 1, false) ->
  Pf (dheap st') (l_addr (right_half l)) = Some (l_addr l) -> regions st' = regions st ->
  regs st' A B (L1 ++ left_half l :: right_half l :: L2).
Proof.
  intros R Hk HN HP Nl Nr Pr Hr. pose proof (rg_tiles _ _ _ _ R) as Ht. pose proof (tiles_split _ _ _ _ _ Ht Hk) as Ht'.
  destruct (tiles_mid _ _ _ _ _ Ht) as (M1 & M2 & Hl & Hd & Ha & Hb).
  assert (Hh : 0 < 2 ^ (l_lg l - 1)) by (unfold Lgsz_min in *; apply pow_pos; lia).
  assert (Hend : l_addr l < l_addr (right_half l) < l_end l).
  { unfold l_end. simpl. pose proof (Z.pow_succ_r 2 (l_lg l - 1)) as Ep. replace (Z.succ (l_lg l - 1)) with (l_lg l) in Ep by lia.
    unfold Lgsz_min in *. lia. }
  assert (Hne : forall x, x ∈ L1 \/ x ∈ L2 -> l_addr x <> l_addr l /\ l_addr x <> l_addr (right_half l)).
  { intros x [Hx|Hx]; [| apply M2 in Hx; lia]. pose proof (M1 x Hx). assert (x ∈ L1 ++ l :: L2) as Hi by set_solver.
    destruct (regs_range _ _ _ _ _ R Hi) as (_ & ? & _). lia. }
  destruct R as [R1 R2 R3 R4 R5 R6]. split; try done.
  - rewrite Hr, R4. by destruct L1.
  - apply rseg_app. apply rseg_app in R5 as [S1 [_ S2]]. simpl. split_and!; try done.
    + eapply rseg_frame; [| done]. intros x Hx. apply HN; apply Hne; auto.
    + eapply rseg_frame; [| done]. intros x Hx. apply HN; apply Hne; auto.
  - assert (Hsub : forall x, x ∈ L1 ++ l :: L2 -> exists y, y ∈ L1 ++ left_half l :: right_half l :: L2 /\ l_addr y = l_addr x).
    { intros x [Hx|[->|Hx]%elem_of_cons]%elem_of_app; [exists x | exists (left_half l) | exists x]; (split; [set_solver | done]). }
    intros x [Hx|[->|[->|Hx]%elem_of_cons]%elem_of_cons]%elem_of_app.
    + eapply prev_mono; [apply R6; set_solver | apply HP, Hne; auto | exact Hsub].
    + assert (Hl' : l ∈ L1 ++ l :: L2) by set_solver. pose proof (R6 l Hl') as Hp.
      change (prev_ok (dheap st') A (L1 ++ left_half l :: right_half l :: L2) l).
      eapply prev_mono; [exact Hp | apply HP; lia | exact Hsub].
    + exists (l_addr l). split; [done |]. rewrite (proj2 (Z.eqb_neq _ A)) by lia. split.
      * exists (l_lg l - 1). unfold Lgsz_min in *. split_and!; [lia | done |]. apply (divide_lower _ (l_lg l)); [lia | done].
      * exists (left_half l). split; [set_solver | done].
    + eapply prev_mono; [apply R6; set_solver | apply HP, Hne; auto | exact Hsub].
Qed.

(** Two buddies are merged. *)
Definition buddies (x y : leaf) : Prop :=
  l_lg y = l_lg x /\ l_addr y = l_addr x + 2 ^ l_lg x /\ (2 ^ (l_lg x + 1) | l_addr x).
Definition merged (x : leaf) : leaf := Leaf (l_addr x) (l_lg x + 1) (l_busy x).

Lemma buddies_odd x y : 0 <= l_lg x -> buddies x y -> ~ (2 ^ (l_lg x + 1) | l_addr y).
Proof. intros H (_ & E & D). rewrite E. by apply even_multiple. Qed.

Lemma buddy_prev st A B L1 x y L2 : regs st A B (L1 ++ x :: y :: L2) -> buddies x y -> Pf (dheap st) (l_addr y) = Some (l_addr x).
Proof.
  intros R Hb. pose proof (rg_tiles _ _ _ _ R) as Ht. destruct (tiles_mid _ _ _ _ _ Ht) as (M1 & M2 & Hk & Hd & Ha & He).
  assert (Hx : x ∈ L1 ++ x :: y :: L2) by set_solver. assert (Hy : y ∈ L1 ++ x :: y :: L2) by set_solver.
  unfold Lgsz_min in Hk. pose proof (buddies_odd x y ltac:(lia) Hb) as Hodd. destruct Hb as (Hg & Ey & Hdx).
  pose proof (pow_pos (l_lg x) ltac:(lia)) as Hp.
  destruct (rg_prev _ _ _ _ R y Hy) as (e & Pe & He'). rewrite (proj2 (Z.eqb_neq (l_addr y) A)) in He' by lia.
  destruct He' as ((j & Hj & Ej & Dj) & w & Hw & Ew). rewrite Ej in Hodd.
  pose proof (multiple_add (l_lg x) j e Hj Dj Hodd ltac:(lia)) as Hjk. pose proof (Z.pow_le_mono_r 2 j (l_lg x) ltac:(lia) ltac:(lia)).
  pose proof (pow_pos j Hj). destruct (regs_range _ _ _ _ _ R Hw) as (_ & Hwe & _).
  destruct (tiles_disjoint _ _ _ _ _ Ht Hx Hw) as [->|[Hc|Hc]]; [by rewrite Pe, Ew | unfold l_end in *; lia | lia].
Qed.

Lemma tiles_merge a L1 x y L2 b : tiles a (L1 ++ x :: y :: L2) b -> buddies x y -> l_lg x < Lgsz_max -> tiles a (L1 ++ merged x :: L2) b.
Proof.
  rewrite !tiles_app. intros (m & H1 & E & Hl & Hd & E2 & _ & _ & H2) (Hg & Ey & Hdx) Hk. exists m. split; [done |]. simpl.
  unfold l_end, Lgsz_min, Lgsz_max in *. simpl. split_and!; try done; try lia; [congruence |].
  rewrite Z.pow_add_r by lia. rewrite Hg, Ey in H2. by replace (l_addr x + 2 ^ l_lg x * 2 ^ 1) with (l_addr x + 2 ^ l_lg x + 2 ^ l_lg x) by lia.
Qed.

(** Only the right neighbour may name the right buddy. *)
Lemma prev_is_right st A B L1 x y L2 z : regs st A B (L1 ++ x :: y :: L2) -> buddies x y -> z ∈ L1 ++ x :: y :: L2 ->
  Pf (dheap st) (l_addr z) = Some (l_addr y) -> l_addr z = l_end y.
Proof.
  intros R Hb Hz Pz. pose proof (rg_tiles _ _ _ _ R) as Ht. assert (Hy : y ∈ L1 ++ x :: y :: L2) by set_solver.
  destruct (regs_range _ _ _ _ _ R Hy) as ((HA0 & HAy) & Hey & _ & Hky & _). unfold in_sizes, Lgsz_min in Hky.
  pose proof Hb as (Hg & _). pose proof (buddies_odd x y ltac:(lia) Hb) as Hodd.
  destruct (rg_prev _ _ _ _ R z Hz) as (e & Pe & He). rewrite Pz in Pe. injection Pe as <-.
  destruct (l_addr z =? A); [lia |]. destruct He as ((j & Hj & Ej & Dj) & _).
  assert (Hjk : j <= l_lg y).
  { destruct (Z.le_gt_cases j (l_lg y)); [done |]. destruct Hodd. rewrite <- Hg. apply (divide_lower _ j); [lia | done]. }
  pose proof (Z.pow_le_mono_r 2 j (l_lg y) ltac:(lia) ltac:(lia)). pose proof (pow_pos j Hj).
  destruct (regs_range _ _ _ _ _ R Hz) as (_ & Hez & _).
  destruct (tiles_disjoint _ _ _ _ _ Ht Hy Hz) as [->|[Hc|Hc]]; [lia | unfold l_end in *; lia | lia].
Qed.

Lemma regs_merge st st' A B L1 x y L2 : regs st A B (L1 ++ x :: y :: L2) -> buddies x y -> l_lg x < Lgsz_max ->
  (forall u, u <> l_addr x -> u <> l_addr y -> Nf (dheap st') u = Nf (dheap st) u) ->
  (forall u, u <> l_addr y -> u <> hda 0 L2 -> Pf (dheap st') u = Pf (dheap st) u) ->
  Nf (dheap st') (l_addr x) = Some (hda 0 L2, l_lg x + 1, l_busy x) ->
  (L2 <> [] -> Pf (dheap st') (hda 0 L2) = Some (l_addr x)) -> regions st' = regions st ->
  regs st' A B (L1 ++ merged x :: L2).
Proof.
  intros R Hb Hk HN HP Nx Ph Hr. pose proof (rg_tiles _ _ _ _ R) as Ht. pose proof (tiles_merge _ _ _ _ _ _ Ht Hb Hk) as Ht'.
  destruct (tiles_mid _ _ _ _ _ Ht) as (M1 & M2 & Hl & Hd & Ha & He).
  assert (Ht2 : tiles A ((L1 ++ [x]) ++ y :: L2) B) by (by rewrite <- app_assoc).
  destruct (tiles_mid _ _ _ _ _ Ht2) as (M3 & M4 & Hly & _ & _ & Hey). pose proof (l_end_gt x (proj1 Hl)). pose proof (l_end_gt y (proj1 Hly)).
  pose proof (M2 y ltac:(set_solver)).
  assert (Hpos : 0 < A) by apply R.
  assert (Hlo : forall z, z ∈ L1 -> l_addr z < l_addr x).
  { intros z Hz. pose proof (M1 z Hz). assert (z ∈ L1 ++ x :: y :: L2) as Hi by set_solver. destruct (regs_range _ _ _ _ _ R Hi) as (_ & ? & _). lia. }
  assert (Hhi : forall z, z ∈ L2 -> l_end y <= l_addr z) by auto.
  assert (Hhd : L2 <> [] -> hda 0 L2 = l_end y).
  { intros Hne. apply tiles_app in Ht as (m & _ & _ & _ & _ & _ & _ & _ & T2). destruct L2; [done |]. apply T2. }
  assert (Hsub : forall z, z ∈ L1 ++ x :: y :: L2 -> z <> y -> exists w, w ∈ L1 ++ merged x :: L2 /\ l_addr w = l_addr z).
  { intros z [Hz|[->|[->|Hz]%elem_of_cons]%elem_of_cons]%elem_of_app Hn; [exists z | exists (merged x) | done | exists z]; (split; [set_solver | done]). }
  assert (Hsame : forall z, z ∈ L1 ++ x :: y :: L2 -> l_addr z <> l_addr y -> l_addr z <> hda 0 L2 -> prev_ok (dheap st') A (L1 ++ merged x :: L2) z).
  { intros z Hz Hn Hn2. destruct (rg_prev _ _ _ _ R z Hz) as (e & Pe & Hp). exists e. rewrite HP by done. split; [done |].
    destruct (l_addr z =? A); [done |]. destruct Hp as (Hbl & w & Hw & Ew). split; [done |].
    destruct (Hsub w Hw) as (v & Hv & Ev); [| exists v; split; [done | congruence]]. intros ->. rewrite <- Ew in Pe.
    pose proof (prev_is_right _ _ _ _ _ _ _ _ R Hb Hz Pe) as E. destruct L2 as [|z2 L2]; [| rewrite Hhd in Hn2; [lia | done]].
    apply elem_of_app in Hz as [Hz|Hz]; [apply Hlo in Hz; lia |]. set_unfold. destruct Hz as [->|[->|[]]]; [| lia]. lia. }
  destruct R as [R1 R2 R3 R4 R5 R6]. split; try done.
  - rewrite Hr, R4. by destruct L1.
  - apply rseg_app. apply rseg_app in R5 as [S1 [_ [_ S2]]]. simpl. split_and!; try done.
    + eapply rseg_frame; [| done]. intros z Hz. specialize (Hlo z Hz). apply HN; lia.
    + eapply rseg_frame; [| done]. intros z Hz. specialize (Hhi z Hz). apply HN; lia.
  - assert (Hh0 : L2 = [] -> hda 0 L2 = 0) by (by intros ->). assert (Hcase : L2 = [] \/ L2 <> []) by (destruct L2; auto).
    intros z [Hz|[->|Hz]%elem_of_cons]%elem_of_app.
    + specialize (Hlo z Hz). apply Hsame; [set_solver | lia |]. assert (A <= l_addr z) by (by apply (tiles_in _ _ _ z R3); set_solver).
      destruct Hcase as [Hc|Hc]; [rewrite Hh0 by done; lia | rewrite Hhd by done; lia].
    + change (prev_ok (dheap st') A (L1 ++ merged x :: L2) x). apply Hsame; [set_solver | lia |].
      destruct Hcase as [Hc|Hc]; [rewrite Hh0 by done; lia | rewrite Hhd by done; lia].
    + destruct (decide (l_addr z = hda 0 L2)) as [E|E]; [| specialize (Hhi z Hz); apply Hsame; [set_solver | lia | done]].
      assert (Hne : L2 <> []) by (by intros ->; apply not_elem_of_nil in Hz). exists (l_addr x). rewrite E, (Ph Hne). split; [done |].
      rewrite (proj2 (Z.eqb_neq _ A)) by (rewrite Hhd by done; lia). split; [| exists (merged x); split; [set_solver | done]].
      unfold Lgsz_min in *. destruct Hb as (Hg & Ey & Hdx). exists (l_lg x + 1). split_and!; [lia | | done].
      rewrite (Hhd Hne). unfold l_end. rewrite Hg, Ey, Z.pow_add_r by lia. lia.
Qed.

(** ** The invariant of the pool *)

Definition free_bytes (L : list leaf) : Z := foldr (fun l n => (if l_busy l then 0 else 2 ^ l_lg l) + n) 0 L.
Definition live (L : list leaf) : list leaf := filter (fun l => l_busy l = true) L.

(** [u] bytes of free blocks are not counted yet. *)
Record pinvu (u : Z) (st : mpool) (A B : Z) (L : list leaf) (bl : Z -> list Z) : Prop := {
  pi_regs : regs st A B L;
  pi_lists : lists st bl;
  pi_link : forall lg a, a ∈ bl lg <-> Leaf a lg false ∈ L;
  pi_loose : forall l, l ∈ L -> l_busy l = true -> Bf (dheap st) (l_addr l) = Some (0, 0);
  pi_size : pool_sz_bytes st = free_bytes L - u }.
Arguments pi_regs {u}.
Arguments pi_lists {u}.
Arguments pi_link {u}.
Arguments pi_loose {u}.
Arguments pi_size {u}.
Notation pinv := (pinvu 0).

Lemma free_bytes_app L1 L2 : free_bytes (L1 ++ L2) = free_bytes L1 + free_bytes L2.
Proof. induction L1 as [|l L1 IH]; simpl; [done |]. rewrite IH. lia. Qed.

Lemma free_bytes_bound a L b : tiles a L b -> 0 <= free_bytes L <= b - a.
Proof.
  revert a. induction L as [|l L IH]; intros a; simpl; [lia |]. intros (<- & Hl & _ & H). specialize (IH _ H).
  unfold l_end, Lgsz_min in *. pose proof (pow_pos (l_lg l)). destruct (l_busy l); lia.
Qed.

Lemma elem_bl_set bl lg l i x : x ∈ bl_set bl lg l i <-> (i = lg /\ x ∈ l) \/ (i <> lg /\ x ∈ bl i).
Proof.
  destruct (decide (i = lg)) as [->|Hn]; [rewrite bl_set_eq; naive_solver | rewrite bl_set_ne by done; naive_solver].
Qed.

(** The other blocks. *)
Lemma others_elem a L1 l L2 b y : tiles a (L1 ++ l :: L2) b -> (y ∈ L1 \/ y ∈ L2) <-> (y ∈ L1 ++ l :: L2 /\ l_addr y <> l_addr l).
Proof.
  intros H. pose proof (tiles_nodup _ _ _ H) as Hd. apply NoDup_app in Hd as (_ & Hd & [Hd2 _]%NoDup_cons). split.
  - intros Hy. split; [set_solver |]. intros E. assert (y = l) as -> by (eapply tiles_addr_inj; [exact H | set_solver | set_solver | done]).
    destruct Hy as [Hy|Hy]; [| done]. apply (Hd l Hy). set_solver.
  - intros [[Hy|[->|Hy]%elem_of_cons]%elem_of_app Hn]; auto. done.
Qed.

Lemma lists_same st st' bl : lists st bl -> (forall lg x, x ∈ bl lg -> Bf (dheap st') x = Bf (dheap st) x) -> blocks st' = blocks st -> lists st' bl.
Proof.
  intros [H1 H2 H3 H4 H5 H6] HB E. split; try done; rewrite ?E; try done.
  intros lg Hl. eapply mseg_frame; [| by apply H3]. intros x Hx. by apply (HB lg).
Qed.

(** Every free block is in its list, and only there. *)
Lemma pinv_nowhere u st A B L bl a : pinvu u st A B L bl -> (forall l, l ∈ L -> l_addr l = a -> l_busy l = true) -> nowhere bl a.
Proof. intros H Ha lg Hi. apply (pi_link _ _ _ _ _ H) in Hi. by apply Ha in Hi. Qed.

Lemma insert_region_after_ok st this base t b : dheap st !! this = Some t -> dheap st !! base = Some b -> this <> base ->
  exists st', insert_region_after st this base = Ok st' /\ (forall x, Bf (dheap st') x = Bf (dheap st) x) /\
  blocks st' = blocks st /\ regions st' = regions st /\ pool_sz_bytes st' = pool_sz_bytes st /\
  Nf (dheap st') this = Some (region_next b, lgsz t, busy t) /\ Nf (dheap st') base = Some (this, lgsz b, busy b) /\
  Pf (dheap st') this = Some base /\ (forall x, x <> this -> Pf (dheap st') x = Pf (dheap st) x) /\
  (forall x, x <> this -> x <> base -> Nf (dheap st') x = Nf (dheap st) x).
Proof.
  intros Et Eb Hn. unfold insert_region_after. rewrite (rd_ok _ _ _ Eb). simpl. rewrite (upd_ok _ _ _ t Et). simpl.
  rewrite (upd_ok _ _ _ (set_region_next (region_next b) t)) by (simpl; apply lookup_insert_eq). simpl.
  rewrite (upd_ok _ _ _ b) by (simpl; by rewrite !lookup_insert_ne). eexists. split; [done |].
  destruct (fields_of _ _ _ Et) as (Ft1 & Ft2 & Ft3), (fields_of _ _ _ Eb) as (Fb1 & Fb2 & Fb3).
  simpl. split_and!; try done; intros; fields; congruence.
Qed.

Section Split.
Context (st : mpool) (A B : Z) (L1 : list leaf) (a lg : Z) (L2 : list leaf) (bl : Z -> list Z).
Let l := Leaf a lg false.
Context (H : pinv st A B (L1 ++ l :: L2) bl) (Hk : Lgsz_min < lg).

(** The effect of the body of split on the first free block of a size. *)
Lemma split_block_ok : exists st' bl', split_block st a lg = Ok st' /\
  pinv st' A B (L1 ++ left_half l :: right_half l :: L2) bl' /\ head (bl' (lg - 1)) = Some (l_addr (right_half l)).
Proof.
  pose proof (pi_regs _ _ _ _ _ H) as R. pose proof (rg_tiles _ _ _ _ R) as Ht.
  assert (Hl : l ∈ L1 ++ l :: L2) by set_solver.
  destruct (regs_range _ _ _ _ _ R Hl) as (Ha & He & HB & Hs & Hd). simpl in *.
  pose proof (tiles_split _ _ _ _ _ Ht Hk) as Ht'.
  assert (Hs1 : in_sizes (lg - 1)) by (unfold in_sizes, Lgsz_min, Lgsz_max in *; lia).
  assert (Hpow : 2 ^ lg = 2 * 2 ^ (lg - 1)).
  { rewrite <- Z.pow_succ_r by (unfold Lgsz_min in *; lia). f_equal. lia. }
  unfold l_end in He. simpl in He. set (d2 := a + 2 ^ (lg - 1)) in *. pose proof (pow_pos (lg - 1) ltac:(unfold Lgsz_min in *; lia)) as Hpp.
  assert (Hd2 : forall x, x ∈ L1 ++ l :: L2 -> l_addr x <> d2).
  { intros x Hx E. destruct (regs_range _ _ _ _ _ R Hx) as (_ & Hx2 & _).
    destruct (tiles_disjoint _ _ _ _ _ Ht Hl Hx) as [<-|[Hc|Hc]]; unfold l_end in *; simpl in *; lia. }
  assert (Hin : a ∈ bl lg) by (by apply (pi_link _ _ _ _ _ H)).
  destruct (remove_block_ok st bl lg a (pi_lists _ _ _ _ _ H) Hs Hin) as (st1 & l1 & E1 & Ls1 & Sr1 & Z1 & M1 & F1 & I1).
  destruct (regs_leaf _ _ _ _ _ R Hl) as (n0 & d0 & Ed0 & _ & _ & Db0). simpl in Ed0, Db0. unfold split_block. rewrite (rd_ok _ _ _ Ed0). simpl. rewrite Db0. simpl.
  rewrite E1. simpl. destruct Sr1 as (N1 & P1 & Rg1 & Sz1). clear Ed0 Db0 d0 n0.
  assert (Nl : Nf (dheap st) a = Some (hda 0 L2, lg, false)) by (pose proof (rg_seg _ _ _ _ R) as [_ [E _]]%rseg_app; exact E).
  pose proof Nl as Nl1. rewrite <- N1 in Nl1. destruct (Nf_lookup _ _ _ _ _ Nl1) as (d & Ed & Dn & Dg & Db).
  rewrite (rd_ok _ _ _ Ed). simpl. rewrite Dg, get_size_pow2 by (unfold in_sizes, Lgsz_min, Lgsz_max in *; lia).
  rewrite (wrap_small 32 (a + 2 ^ (lg - 1))) by (unfold in_range, d2 in *; lia). fold d2.
  rewrite (upd_ok _ _ _ d Ed). simpl. set (st3 := dinit _ d2 (lg - 1)).
  destruct (fields_of _ _ _ Ed) as (Fd1 & Fd2 & Fd3). rewrite Fd3 in Z1.
  assert (Had2 : a <> d2) by lia.
  assert (Hno : nowhere bl d2) by (intros i Hi; apply (pi_link _ _ _ _ _ H) in Hi; by apply Hd2 in Hi).
  set (b1 := bl_set bl lg l1) in *.
  assert (B3 : forall x, x <> d2 -> Bf (dheap st3) x = Bf (dheap st1) x) by (intros x Hx; simpl; fields; congruence).
  assert (Hb1 : forall i x, x ∈ b1 i -> x ∈ bl i).
  { intros i x. unfold b1. rewrite elem_bl_set, M1. naive_solver. }
  assert (Ls3 : lists st3 b1).
  { apply (lists_same st1); try done. intros i x Hx. apply B3. intros ->. by apply (Hno i), Hb1. }
  assert (Ha1 : nowhere b1 a).
  { intros i. unfold b1. rewrite elem_bl_set, M1. intros [[-> [_ ?]]|[Hi Hx]]; [done |]. by apply Hi, (ls_disj _ _ (pi_lists _ _ _ _ _ H) i lg a). }
  destruct (add_block_ok st3 b1 a (lg - 1) Ls3 Hs1) as (st4 & E4 & Ls4 & (N4 & P4 & Rg4 & Sz4) & F4 & I4); [lia | done | |].
  { simpl. rewrite Bf_insert, decide_False, Bf_insert, decide_True by done. exact Z1. }
  rewrite E4. simpl. set (b2 := bl_set b1 (lg - 1) (a :: b1 (lg - 1))) in *.
  assert (Hd24 : nowhere b2 d2).
  { intros i. unfold b2. rewrite elem_bl_set, elem_of_cons. intros [[-> [?|Hx]]|[_ Hx]]; [done | by apply (Hno (lg - 1)), Hb1 | by apply (Hno i), Hb1]. }
  destruct (add_block_ok st4 b2 d2 (lg - 1) Ls4 Hs1) as (st5 & E5 & Ls5 & (N5 & P5 & Rg5 & Sz5) & F5 & I5); [lia | done | |].
  { rewrite F4; [simpl; fields; done | done |]. intros i Hi. by apply (Hno i), Hb1. }
  rewrite E5. simpl. set (b3 := bl_set b2 (lg - 1) (d2 :: b2 (lg - 1))) in *.
  assert (Na : Nf (dheap st5) a = Some (hda 0 L2, lg - 1, false)) by (rewrite N5, N4; simpl; rewrite Nf_insert, decide_False, Nf_insert, decide_True by done; simpl; by rewrite Dn, Db).
  assert (Nd : Nf (dheap st5) d2 = Some (0, lg - 1, false)) by (rewrite N5, N4; simpl; fields; done).
  destruct (Nf_lookup _ _ _ _ _ Na) as (da & Eda & An & Ag & Ab), (Nf_lookup _ _ _ _ _ Nd) as (dd & Edd & Dn' & Dg' & Db').
  destruct (insert_region_after_ok st5 d2 a dd da Edd Eda) as (st6 & E6 & B6 & Bk6 & Rg6 & Sz6 & Nd6 & Na6 & Pd6 & P6 & N6); [lia |].
  rewrite E6. simpl. exists st6, b3. split; [done |]. rewrite An, Dg', Db' in Nd6. rewrite Ag, Ab in Na6. split.
  - split.
    + apply (regs_split st); try done; simpl; fold d2; try done.
      * intros x Hx1 Hx2. rewrite N6, N5, N4 by done. simpl. rewrite !Nf_insert, !decide_False by done. apply N1.
      * intros x Hx. rewrite P6, P5, P4 by done. simpl. rewrite Pf_insert, decide_False, Pf_insert by done.
        destruct (decide (x = a)) as [->|]; [simpl; by rewrite <- Fd2, P1 | apply P1].
      * by rewrite Rg6, Rg5, Rg4.
    + apply (lists_same st5); try done.
    + intros i x. pose proof (others_elem _ _ _ _ _ (Leaf x i false) Ht) as Ho. simpl in Ho.
      assert (Hlg : Leaf x i false ∈ L1 ++ l :: L2 -> x = a -> i = lg).
      { intros Hi ->. assert (Leaf a i false = Leaf a lg false) as [= ->] by (eapply tiles_addr_inj; [exact Ht | done | done | done]). done. }
      assert (E1' : Leaf x i false = left_half l <-> x = a /\ i = lg - 1) by (unfold left_half; simpl; naive_solver).
      assert (E2' : Leaf x i false = right_half l <-> x = d2 /\ i = lg - 1) by (unfold right_half; simpl; naive_solver).
      rewrite elem_of_app, !elem_of_cons, E1', E2'. unfold b3, b2, b1. pose proof (pi_link _ _ _ _ _ H i x) as Hlk. clear - Ho Hlg Hlk M1 Hk.
      destruct (decide (i = lg - 1)) as [->|Hi]; [rewrite !bl_set_eq, (bl_set_ne _ lg) by lia; rewrite !elem_of_cons |
        rewrite !(bl_set_ne _ (lg - 1)) by done; destruct (decide (i = lg)) as [->|Hi2]; [rewrite bl_set_eq, M1 | rewrite bl_set_ne by done]].
      * rewrite Hlk. assert (lg - 1 <> lg) by lia. tauto.
      * rewrite Hlk. tauto.
      * rewrite Hlk. tauto.
    + intros x Hx Hbusy. assert (Hx' : x ∈ L1 ++ l :: L2 /\ l_addr x <> a).
      { apply (others_elem _ _ _ _ _ x Ht). apply elem_of_app in Hx as [Hx|[->|[->|Hx]%elem_of_cons]%elem_of_cons]; [by left | done | done | by right]. }
      destruct Hx' as [Hx1 Hx2]. pose proof (Hd2 x Hx1). rewrite B6.
      assert (Hnx : nowhere bl (l_addr x)).
      { apply (pinv_nowhere _ _ _ _ _ _ _ H). intros y Hy Ey. by rewrite (tiles_addr_inj _ _ _ _ _ Ht Hy Hx1 Ey). }
      rewrite F5; [rewrite F4; [rewrite B3, F1 by done; by apply (pi_loose _ _ _ _ _ H) | done |] | done |].
      * intros i Hi. by apply (Hnx i), Hb1.
      * intros i. unfold b2. rewrite elem_bl_set, elem_of_cons. intros [[-> [?|Hi]]|[_ Hi]]; [done | by apply (Hnx (lg - 1)), Hb1 | by apply (Hnx i), Hb1].
    + rewrite Sz6, Sz5, Sz4. simpl. rewrite Sz1, (pi_size _ _ _ _ _ H), !free_bytes_app. simpl. lia.
  - unfold b3. by rewrite bl_set_eq.
Qed.

End Split.

(** *** Free buddies

    Between calls no two free blocks are buddies; inside a call the block at
    [a] may be one of such a pair. *)

Definition coal_but (L : list leaf) (a : Z) : Prop :=
  forall x y, x ∈ L -> y ∈ L -> buddies x y -> l_busy x = false -> l_busy y = false -> l_addr x = a \/ l_addr y = a.
Definition coal (L : list leaf) : Prop :=
  forall x y, x ∈ L -> y ∈ L -> buddies x y -> l_busy x = false -> l_busy y = false -> False.

Lemma coal_any L a : coal L -> coal_but L a.
Proof. intros H x y ? ? ? ? ?. by destruct (H x y). Qed.

Lemma coal_split A B L1 l L2 : tiles A (L1 ++ l :: L2) B -> Lgsz_min < l_lg l -> l_busy l = false -> coal_but (L1 ++ l :: L2) (l_addr l) ->
  coal_but (L1 ++ left_half l :: right_half l :: L2) (l_addr (right_half l)).
Proof.
  intros Ht Hk Hl Hc x y Hx Hy Hb Fx Fy. pose proof (tiles_split _ _ _ _ _ Ht Hk) as Ht'.
  destruct (tiles_mid _ _ _ _ _ Ht) as (_ & _ & _ & Hd & _).
  assert (Hcase : forall z, z ∈ L1 ++ left_half l :: right_half l :: L2 -> z = left_half l \/ z = right_half l \/ (z ∈ L1 ++ l :: L2 /\ l_addr z <> l_addr l)).
  { intros z [Hz|[->|[->|Hz]%elem_of_cons]%elem_of_cons]%elem_of_app; auto; do 2 right; apply (others_elem _ _ _ _ _ z Ht); auto. }
  destruct (Hcase x Hx) as [->|[->|[Hx1 Hx2]]]; [| by left |].
  - right. destruct Hb as (_ & E & _). exact E.
  - destruct (Hcase y Hy) as [->|[->|[Hy1 Hy2]]]; [| by right |].
    + destruct Hb as (E1 & E2 & E3). simpl in E1, E2. exfalso. rewrite <- E1 in *. replace (l_lg l - 1 + 1) with (l_lg l) in E3 by lia.
      apply (even_multiple (l_lg l - 1) (l_addr x)); [unfold Lgsz_min in *; lia | by replace (l_lg l - 1 + 1) with (l_lg l) by lia |].
      rewrite <- E2. by replace (l_lg l - 1 + 1) with (l_lg l) by lia.
    + destruct (Hc x y); done.
Qed.

(** The exceptional block becomes busy, or a block becomes free. *)
Lemma coal_take A B L1 a k L2 : tiles A (L1 ++ Leaf a k false :: L2) B -> coal_but (L1 ++ Leaf a k false :: L2) a -> coal (L1 ++ Leaf a k true :: L2).
Proof.
  intros Ht Hc x y Hx Hy Hb Fx Fy.
  assert (Hcase : forall z, z ∈ L1 ++ Leaf a k true :: L2 -> l_busy z = false -> z ∈ L1 ++ Leaf a k false :: L2 /\ l_addr z <> a).
  { intros z [Hz|[->|Hz]%elem_of_cons]%elem_of_app; try done; intros _; apply (others_elem _ _ _ _ _ z Ht); auto. }
  destruct (Hcase x Hx Fx), (Hcase y Hy Fy), (Hc x y); done.
Qed.

Lemma coal_free A B L1 a k L2 : tiles A (L1 ++ Leaf a k true :: L2) B -> coal (L1 ++ Leaf a k true :: L2) -> coal_but (L1 ++ Leaf a k false :: L2) a.
Proof.
  intros Ht Hc x y Hx Hy Hb Fx Fy.
  assert (Hcase : forall z, z ∈ L1 ++ Leaf a k false :: L2 -> l_addr z = a \/ z ∈ L1 ++ Leaf a k true :: L2).
  { intros z [Hz|[->|Hz]%elem_of_cons]%elem_of_app; [right; set_solver | by left | right; set_solver]. }
  destruct (Hcase x Hx); [by left |]. destruct (Hcase y Hy); [by right |]. by destruct (Hc x y).
Qed.

Lemma coal_merge A B L1 x y L2 a : tiles A (L1 ++ x :: y :: L2) B -> a = l_addr x \/ a = l_addr y -> coal_but (L1 ++ x :: y :: L2) a ->
  coal_but (L1 ++ merged x :: L2) (l_addr x).
Proof.
  intros Ht Ha Hc u v Hu Hv Hb Fu Fv.
  assert (Ht2 : tiles A ((L1 ++ [x]) ++ y :: L2) B) by (by rewrite <- app_assoc).
  assert (Hcase : forall z, z ∈ L1 ++ merged x :: L2 -> l_addr z = l_addr x \/ (z ∈ L1 ++ x :: y :: L2 /\ l_addr z <> a)).
  { intros z Hz. assert (Hz' : z = merged x \/ z ∈ L1 \/ z ∈ L2) by set_solver. destruct Hz' as [->|Hz']; [by left | right].
    assert (H1 : z ∈ L1 \/ z ∈ y :: L2) by set_solver. assert (H2 : z ∈ L1 ++ [x] \/ z ∈ L2) by set_solver.
    apply (others_elem _ _ _ _ _ z Ht) in H1 as [? ?]. apply (others_elem _ _ _ _ _ z Ht2) in H2 as [? ?]. split; [done |]. by destruct Ha as [->| ->]. }
  destruct (Hcase u Hu) as [?|[? ?]]; [by left |]. destruct (Hcase v Hv) as [?|[? ?]]; [by right |]. by destruct (Hc u v).
Qed.


Lemma live_split L1 l L2 : l_busy l = false -> live (L1 ++ left_half l :: right_half l :: L2) = live (L1 ++ l :: L2).
Proof.
  intros Hb. unfold live. rewrite !filter_app, !filter_cons. unfold left_half. simpl. rewrite Hb.
  rewrite !decide_False by done. done.
Qed.

Lemma pinv_head st A B L bl lg : pinv st A B L bl -> bl lg <> [] -> exists a l L1 L2, bl lg = a :: l /\ a <> 0 /\ in_sizes lg /\
  L = L1 ++ Leaf a lg false :: L2 /\ exists d, dheap st !! a = Some d /\ lgsz d = lg /\ busy d = false.
Proof.
  intros H Hn. destruct (bl lg) as [|a l] eqn:E; [done |]. assert (Ha : a ∈ bl lg) by (rewrite E; set_solver).
  pose proof Ha as Hi. apply (pi_link _ _ _ _ _ H) in Hi. pose proof Hi as (L1 & L2 & EL)%list_elem_of_split.
  destruct (regs_leaf _ _ _ _ _ (pi_regs _ _ _ _ _ H) Hi) as (n & d & Ed & _ & Dg & Db).
  destruct (regs_range _ _ _ _ _ (pi_regs _ _ _ _ _ H) Hi) as (_ & _ & _ & Hs & _).
  exists a, l, L1, L2. split_and!; try done; eauto. by apply (ls_null _ _ (pi_lists _ _ _ _ _ H) lg).
Qed.

Lemma split_eq f st lg : Lgsz_min < lg <= Lgsz_max -> split (S f) st lg =
  (h ← get_head st lg;
   st ← (if h =? 0 then r ← split f st (lg + 1); Ok r.2 else Ok st);
   d1 ← get_head st lg;
   if d1 =? 0 then Ok (false, st) else st ← split_block st d1 lg; Ok (true, st)).
Proof.
  intros Hl. cbn [split]. rewrite (proj2 (Z.leb_gt lg Lgsz_min)) by lia. rewrite (proj2 (Z.ltb_ge Lgsz_max lg)) by lia. done.
Qed.

Definition free_ge (L : list leaf) (lg : Z) : Prop := exists l, l ∈ L /\ l_busy l = false /\ lg <= l_lg l.

Lemma free_ge_up st A B L bl lg : pinv st A B L bl -> bl lg = [] -> free_ge L lg <-> free_ge L (lg + 1).
Proof.
  intros H El. split; intros (x & Hx & Hb & Hg); exists x; (split_and!; [done | done |]); [| lia].
  destruct (decide (l_lg x = lg)) as [E|]; [| lia]. exfalso. cut (l_addr x ∈ bl lg); [rewrite El; set_solver |].
  apply (pi_link _ _ _ _ _ H). rewrite <- E. destruct x; simpl in *; congruence.
Qed.

Lemma free_ge_here st A B L bl lg a l : pinv st A B L bl -> bl lg = a :: l -> free_ge L lg.
Proof.
  intros H El. exists (Leaf a lg false). split_and!; [| done | simpl; lia]. apply (pi_link _ _ _ _ _ H). rewrite El. set_solver.
Qed.

Lemma split_ok fuel st A B L bl lg : pinv st A B L bl -> coal L -> Lgsz_min < lg -> Lgsz_max + 1 - lg <= Z.of_nat fuel ->
  (free_ge L lg -> exists st' L' bl' a, split fuel st lg = Ok (true, st') /\ pinv st' A B L' bl' /\ live L' = live L /\
     head (bl' (lg - 1)) = Some a /\ coal_but L' a) /\
  (~ free_ge L lg -> split fuel st lg = Ok (false, st)).
Proof.
  revert st L bl lg. induction fuel as [|f IH]; intros st L bl lg H Hco Hlo Hf; destruct (Z.le_gt_cases lg Lgsz_max) as [Hl|Hl]; try lia.
  1, 3: split; [intros (l & Hi & _ & Hg) | intros _; simpl; rewrite (proj2 (Z.ltb_lt Lgsz_max lg)) by lia; by rewrite orb_true_r];
    destruct (regs_range _ _ _ _ _ (pi_regs _ _ _ _ _ H) Hi) as (_ & _ & _ & [_ ?] & _); lia.
  rewrite split_eq by lia. assert (Hs : in_sizes lg) by (unfold in_sizes, Lgsz_min, Lgsz_max in *; lia).
  rewrite (get_head_ok st bl lg (pi_lists _ _ _ _ _ H) Hs). simpl.
  destruct (IH st L bl (lg + 1) H Hco ltac:(lia) ltac:(lia)) as [IH1 IH2]. clear IH.
  assert (Htail : forall st1 L1 bl1, pinv st1 A B L1 bl1 -> live L1 = live L -> (exists a, head (bl1 lg) = Some a /\ coal_but L1 a) ->
    exists st' L' bl' a', (d1 ← get_head st1 lg; if d1 =? 0 then Ok (false, st1) else s ← split_block st1 d1 lg; Ok (true, s)) = Ok (true, st') /\
      pinv st' A B L' bl' /\ live L' = live L /\ head (bl' (lg - 1)) = Some a' /\ coal_but L' a').
  { intros st1 L1 bl1 H1 Hlv (a0 & Hd & Hc1). destruct (pinv_head _ _ _ _ _ lg H1 ltac:(by destruct (bl1 lg))) as (a & l & M1 & M2 & El & Ha & _ & -> & d & Ed & _ & Db).
    rewrite El in Hd. injection Hd as <-.
    rewrite (get_head_ok st1 bl1 lg (pi_lists _ _ _ _ _ H1) Hs), El. simpl. rewrite (proj2 (Z.eqb_neq a 0) Ha).
    destruct (split_block_ok st1 A B M1 a lg M2 bl1 H1 Hlo) as (st' & bl' & E & H' & Hn'). rewrite E. eexists st', _, bl', _.
    split_and!; [done | exact H' | by rewrite live_split | exact Hn' |].
    exact (coal_split A B M1 (Leaf a lg false) M2 (rg_tiles _ _ _ _ (pi_regs _ _ _ _ _ H1)) Hlo eq_refl Hc1). }
  destruct (bl lg) as [|a l] eqn:El; simpl.
  - pose proof (free_ge_up _ _ _ _ _ lg H El) as Hup.
    split; intros Hg.
    + destruct (IH1 ltac:(tauto)) as (st1 & L1 & bl1 & a1 & E1 & H1 & Hlv & Hne & Hc1). rewrite E1. simpl.
      replace (lg + 1 - 1) with lg in Hne by lia. apply (Htail st1 L1 bl1); eauto.
    + rewrite IH2 by tauto. simpl. rewrite (get_head_ok st bl lg (pi_lists _ _ _ _ _ H) Hs), El. done.
  - assert (Ha : a <> 0) by (apply (ls_null _ _ (pi_lists _ _ _ _ _ H) lg); rewrite El; set_solver).
    rewrite (proj2 (Z.eqb_neq a 0) Ha). simpl. split; intros Hg.
    + apply (Htail st L bl H eq_refl). exists a. rewrite El. split; [done | by apply coal_any].
    + destruct Hg. by apply (free_ge_here _ _ _ _ _ lg a l H).
Qed.

(** ** Allocation *)

#[local] Arguments split : simpl never.
#[local] Arguments combine : simpl never.

Lemma live_busy L1 a lg L2 : live (L1 ++ Leaf a lg true :: L2) = live L1 ++ Leaf a lg true :: live L2.
Proof. unfold live. rewrite filter_app, filter_cons. rewrite decide_True by done. done. Qed.
Lemma live_free L1 a lg L2 : live (L1 ++ Leaf a lg false :: L2) = live L1 ++ live L2.
Proof. unfold live. rewrite filter_app, filter_cons. rewrite decide_False by done. done. Qed.

(** A free block is taken out of its list and marked busy. *)
Lemma take_ok st A B L1 a lg L2 bl : pinv st A B (L1 ++ Leaf a lg false :: L2) bl ->
  exists st' bl', (st1 ← remove_block st a lg; st2 ← upd st1 a (set_busy true); dd ← rd st2 a;
                   Ok (a, set_pool_sz st2 (u32 (pool_sz_bytes st2 - size_of dd)))) = Ok (a, st') /\
  pinv st' A B (L1 ++ Leaf a lg true :: L2) bl'.
Proof.
  intros H. pose proof (pi_regs _ _ _ _ _ H) as R. pose proof (rg_tiles _ _ _ _ R) as Ht. set (l := Leaf a lg false) in *.
  assert (Hl : l ∈ L1 ++ l :: L2) by set_solver. destruct (regs_range _ _ _ _ _ R Hl) as (Ha & He & HB & Hs & Hd). simpl in *.
  assert (Hin : a ∈ bl lg) by (by apply (pi_link _ _ _ _ _ H)).
  destruct (remove_block_ok st bl lg a (pi_lists _ _ _ _ _ H) Hs Hin) as (st1 & l1 & E1 & Ls1 & (N1 & P1 & Rg1 & Sz1) & Z1 & M1 & F1 & I1).
  assert (Nl : Nf (dheap st) a = Some (hda 0 L2, lg, false)) by (pose proof (rg_seg _ _ _ _ R) as [_ [E _]]%rseg_app; exact E).
  pose proof Nl as Nl1. rewrite <- N1 in Nl1. destruct (Nf_lookup _ _ _ _ _ Nl1) as (d & Ed & Dn & Dg & Db).
  destruct (fields_of _ _ _ Ed) as (Fd1 & Fd2 & Fd3).
  rewrite E1. simpl. rewrite (upd_ok _ _ _ d Ed). simpl. erewrite rd_ok by (simpl; apply lookup_insert_eq). simpl.
  unfold size_of. simpl. rewrite Dg, get_size_pow2 by (unfold in_sizes, Lgsz_min, Lgsz_max in Hs; lia).
  eexists _, (bl_set bl lg l1). split; [done |].
  assert (HBf : forall x, Bf (<[a := set_busy true d]> (dheap st1)) x = Bf (dheap st1) x) by (intros x; fields; congruence).
  split.
  - apply (regs_busy st _ A B L1 l L2 true R); simpl.
    + intros x Hx. rewrite Nf_insert, decide_False by done. apply N1.
    + intros x. rewrite Pf_insert. destruct (decide (x = a)) as [->|]; [simpl; by rewrite <- Fd2, P1 | apply P1].
    + rewrite Nf_insert, decide_True by done. simpl. by rewrite Dn, Dg.
    + done.
  - apply (lists_same st1); [done | | done]. intros i x Hx. apply HBf.
  - intros i x. rewrite elem_bl_set, M1, !(pi_link _ _ _ _ _ H).
    pose proof (others_elem _ _ _ _ _ (Leaf x i false) Ht) as Ho. simpl in Ho.
    assert (Hlg : Leaf x i false ∈ L1 ++ l :: L2 -> x = a -> i = lg).
    { intros Hi ->. assert (Leaf a i false = Leaf a lg false) as [= ->] by (eapply tiles_addr_inj; [exact Ht | done | done | done]). done. }
    rewrite (elem_of_app L1 (Leaf a lg true :: L2)), elem_of_cons.
    assert (Hne : Leaf x i false <> Leaf a lg true) by done. clear - Ho Hlg Hne. destruct (decide (i = lg)) as [->|]; tauto.
  - intros x Hx Hbusy. simpl. rewrite HBf. apply elem_of_app in Hx as [Hx|[->|Hx]%elem_of_cons]; [| done |].
    all: assert (Hx2 : x ∈ L1 ++ l :: L2) by set_solver.
    all: rewrite F1; [by apply (pi_loose _ _ _ _ _ H) |]; apply (pinv_nowhere _ _ _ _ _ _ _ H); intros y Hy Ey;
      by rewrite (tiles_addr_inj _ _ _ _ _ Ht Hy Hx2 Ey).
  - simpl. rewrite Sz1, (pi_size _ _ _ _ _ H). pose proof (free_bytes_bound _ _ _ Ht) as Hfb. rewrite !free_bytes_app in *. simpl in *.
    apply tiles_app in Ht as (m & T1 & _ & _ & _ & T2). pose proof (free_bytes_bound _ _ _ T1). pose proof (free_bytes_bound _ _ _ T2).
    rewrite wrap_small; [lia |]. unfold in_range. lia.
Qed.

Lemma free_ge_bytes a L b lg : tiles a L b -> free_ge L lg -> 0 <= lg -> 2 ^ lg <= free_bytes L.
Proof.
  intros H (l & (L1 & L2 & ->)%list_elem_of_split & Hb & Hg) H0. rewrite free_bytes_app. simpl. rewrite Hb.
  apply tiles_app in H as (m & T1 & _ & _ & _ & T2). pose proof (free_bytes_bound _ _ _ T1). pose proof (free_bytes_bound _ _ _ T2).
  pose proof (Z.pow_le_mono_r 2 lg (l_lg l)). lia.
Qed.

(** The size class a request is served from. *)
Definition class_of (lg : Z) : Z := if lg <? Lgsz_min then Lgsz_min else lg.

Lemma alloc_block_ok st A B L bl lg : pinv st A B L bl -> coal L -> 0 <= lg ->
  (free_ge L (class_of lg) -> exists a st' L1 L2 bl', alloc_block st lg = Ok (a, st') /\ a <> 0 /\
     pinv st' A B (L1 ++ Leaf a (class_of lg) true :: L2) bl' /\ coal (L1 ++ Leaf a (class_of lg) true :: L2) /\ live L1 ++ live L2 = live L) /\
  (~ free_ge L (class_of lg) -> alloc_block st lg = Ok (0, st)).
Proof.
  intros H Hco Hlg. pose proof (pi_regs _ _ _ _ _ H) as R. unfold alloc_block. fold (class_of lg).
  assert (Hc : lg <= class_of lg /\ Lgsz_min <= class_of lg) by (unfold class_of; destruct (Z.ltb_spec lg Lgsz_min); lia).
  destruct (Z.ltb_spec Lgsz_max lg) as [Hbig|Hsm].
  { split; [| done]. intros (l & Hl & _ & Hg). destruct (regs_range _ _ _ _ _ R Hl) as (_ & _ & _ & [_ ?] & _). lia. }
  assert (Hs : in_sizes (class_of lg)) by (unfold in_sizes, class_of; destruct (Z.ltb_spec lg Lgsz_min); unfold Lgsz_min, Lgsz_max in *; lia).
  set (k := class_of lg) in *. clearbody k. rewrite get_size_pow2 by (unfold in_sizes, Lgsz_min, Lgsz_max in *; lia).
  destruct (Z.ltb_spec (pool_sz_bytes st) (2 ^ k)) as [Hp|_].
  { split; [| done]. intros Hg. apply (free_ge_bytes _ _ _ _ (rg_tiles _ _ _ _ R)) in Hg; [| unfold Lgsz_min in *; lia]. rewrite (pi_size _ _ _ _ _ H) in Hp. clear - Hg Hp. lia. }
  rewrite (get_head_ok st bl k (pi_lists _ _ _ _ _ H) Hs). simpl.
  assert (Htake : forall st1 L1 bl1, pinv st1 A B L1 bl1 -> live L1 = live L -> (exists a, head (bl1 k) = Some a /\ coal_but L1 a) -> exists a st' M1 M2 bl',
    (d ← get_head st1 k; if d =? 0 then Ok (0, st1) else s ← remove_block st1 d k; s ← upd s d (set_busy true); dd ← rd s d;
      Ok (d, set_pool_sz s (u32 (pool_sz_bytes s - size_of dd)))) = Ok (a, st') /\ a <> 0 /\
    pinv st' A B (M1 ++ Leaf a k true :: M2) bl' /\ coal (M1 ++ Leaf a k true :: M2) /\ live M1 ++ live M2 = live L).
  { intros st1 L1 bl1 H1 Hlv (a0 & Hd & Hc1). destruct (pinv_head _ _ _ _ _ k H1 ltac:(by destruct (bl1 k))) as (a & l & M1 & M2 & El & Ha & _ & -> & _).
    rewrite El in Hd. injection Hd as <-.
    rewrite (get_head_ok st1 bl1 k (pi_lists _ _ _ _ _ H1) Hs), El. simpl. rewrite (proj2 (Z.eqb_neq a 0) Ha).
    destruct (take_ok st1 A B M1 a k M2 bl1 H1) as (st' & bl' & E & H'). exists a, st', M1, M2, bl'.
    split_and!; try done; [| by rewrite <- Hlv, live_free]. exact (coal_take A B M1 a k M2 (rg_tiles _ _ _ _ (pi_regs _ _ _ _ _ H1)) Hc1). }
  destruct (split_ok (Z.to_nat Sizes_num) st A B L bl (k + 1) H Hco ltac:(lia)) as [S1 S2]; [unfold Sizes_num, Lgsz_min, Lgsz_max in *; lia |].
  destruct (bl k) as [|a l] eqn:El; simpl.
  - pose proof (free_ge_up _ _ _ _ _ k H El) as Hup.
    split; intros Hg.
    + destruct (S1 ltac:(tauto)) as (st1 & L1 & bl1 & a1 & E1 & H1 & Hlv & Hne & Hc1). rewrite E1. simpl. replace (k + 1 - 1) with k in Hne by lia.
      apply (Htake st1 L1 bl1); eauto.
    + rewrite S2 by tauto. simpl. by rewrite (get_head_ok st bl k (pi_lists _ _ _ _ _ H) Hs), El.
  - assert (Ha : a <> 0) by (apply (ls_null _ _ (pi_lists _ _ _ _ _ H) k); rewrite El; set_solver).
    rewrite (proj2 (Z.eqb_neq a 0) Ha). simpl. split; intros Hg.
    + apply (Htake st L bl H eq_refl). exists a. rewrite El. split; [done | by apply coal_any].
    + destruct Hg. by apply (free_ge_here _ _ _ _ _ k a l H).
Qed.

(** ** Release *)

Lemma remove_region_ok st y x dx dy : dheap st !! y = Some dy -> region_prev dy = x -> x <> 0 -> dheap st !! x = Some dx ->
  x <> y -> region_next dy <> y -> region_next dy <> x -> (region_next dy <> 0 -> is_Some (dheap st !! region_next dy)) ->
  exists st', remove_region st y = Ok st' /\ (forall u, Bf (dheap st') u = Bf (dheap st) u) /\
  blocks st' = blocks st /\ regions st' = regions st /\ pool_sz_bytes st' = pool_sz_bytes st /\
  Nf (dheap st') x = Some (region_next dy, lgsz dx, busy dx) /\
  (forall u, u <> x -> u <> y -> Nf (dheap st') u = Nf (dheap st) u) /\
  (region_next dy <> 0 -> Pf (dheap st') (region_next dy) = Some x) /\
  (forall u, u <> y -> u <> region_next dy -> Pf (dheap st') u = Pf (dheap st) u).
Proof.
  intros Ey Ep Hx0 Ex Hxy Hny Hnx Hn. unfold remove_region. rewrite (rd_ok _ _ _ Ey). simpl.
  rewrite Ep, (proj2 (Z.eqb_neq x 0) Hx0). simpl. rewrite (upd_ok _ _ _ dx Ex). simpl.
  rewrite (rd_ok _ _ dy) by (simpl; by rewrite lookup_insert_ne). simpl.
  destruct (fields_of _ _ _ Ex) as (Fx1 & Fx2 & Fx3), (fields_of _ _ _ Ey) as (Fy1 & Fy2 & Fy3).
  destruct (Z.eqb_spec (region_next dy) 0) as [E0|E0]; simpl.
  - rewrite (upd_ok _ _ _ dy) by (simpl; by rewrite lookup_insert_ne). simpl.
    rewrite (upd_ok _ _ _ (set_region_prev 0 dy)) by (simpl; apply lookup_insert_eq). simpl. eexists. split; [done |].
    simpl. split_and!; try done; intros; fields; congruence.
  - destruct (Hn E0) as [dn En]. destruct (fields_of _ _ _ En) as (Fn1 & Fn2 & Fn3). rewrite Ep.
    rewrite (upd_ok _ _ _ dn) by (simpl; by rewrite lookup_insert_ne). simpl.
    rewrite (upd_ok _ _ _ dy) by (simpl; by rewrite !lookup_insert_ne). simpl.
    rewrite (upd_ok _ _ _ (set_region_prev 0 dy)) by (simpl; apply lookup_insert_eq). simpl. eexists. split; [done |].
    simpl. split_and!; try done; intros.
    + rewrite !Bf_insert. repeat destruct (decide _); subst; simpl; congruence.
    + rewrite Nf_insert, decide_False, Nf_insert, decide_False, Nf_insert, decide_False, Nf_insert, decide_True by congruence. done.
    + rewrite !Nf_insert, (decide_False (P := u = y)), (decide_False (P := u = y)) by done.
      destruct (decide (u = region_next dy)) as [->|]; [simpl; congruence |]. by rewrite decide_False.
    + rewrite !Pf_insert, (decide_False (P := region_next dy = y)), (decide_False (P := region_next dy = y)) by done. by rewrite decide_True.
    + rewrite !Pf_insert. repeat destruct (decide _); subst; simpl; congruence.
Qed.

Lemma live_merge L1 x y L2 : l_busy x = false -> l_busy y = false -> live (L1 ++ merged x :: L2) = live (L1 ++ x :: y :: L2).
Proof.
  intros Hx Hy. unfold live. rewrite !filter_app, !filter_cons. unfold merged. simpl. rewrite Hx, Hy. rewrite !decide_False by done. done.
Qed.

Lemma tiles_adjacent a L b w l : tiles a L b -> w ∈ L -> l ∈ L -> l_end w = l_addr l -> exists L1 L2, L = L1 ++ w :: l :: L2.
Proof.
  intros H (L1 & R & ->)%list_elem_of_split Hl E. destruct (tiles_mid _ _ _ _ _ H) as (M1 & _ & Hw & _). apply proj1, l_end_gt in Hw.
  assert (HR : l ∈ R).
  { apply elem_of_app in Hl as [Hl|[->|Hl]%elem_of_cons]; [| lia | done]. pose proof (M1 l Hl).
    assert (l ∈ L1 ++ w :: R) as Hl' by set_solver. destruct (tiles_in _ _ _ _ H Hl') as (_ & _ & [Hg _] & _). apply l_end_gt in Hg. lia. }
  destruct R as [|r R]; [by apply not_elem_of_nil in HR |]. exists L1, R. repeat f_equal.
  assert (Er : l_addr r = l_end w) by (apply tiles_app in H as (m & _ & _ & _ & _ & Hr & _); done).
  eapply tiles_addr_inj; [exact H | set_solver | set_solver | congruence].
Qed.

Lemma buddies_size st A B L x y : regs st A B L -> x ∈ L -> y ∈ L -> buddies x y -> l_lg x < Lgsz_max.
Proof.
  intros R Hx Hy (Hg & Ey & Hd). destruct (regs_range _ _ _ _ _ R Hx) as (Ha & He & HB & [Hk1 Hk2] & _).
  destruct (regs_range _ _ _ _ _ R Hy) as (_ & Hey & _). unfold Lgsz_min, Lgsz_max in *. destruct (decide (l_lg x = 31)) as [E|]; [| lia].
  apply Z.divide_pos_le in Hd; [| lia]. rewrite E in Hd. simpl in Hd. lia.
Qed.

Lemma regs_in st A B L l : regs st A B L -> l ∈ L -> is_Some (dheap st !! l_addr l).
Proof. intros R Hl. destruct (regs_leaf _ _ _ _ _ R Hl) as (n & d & Ed & _). by rewrite Ed. Qed.

(** Two free buddies of the region list become one block. *)
Lemma merge_regions st A B L1 a b k L2 : regs st A B (L1 ++ Leaf a k false :: Leaf b k false :: L2) -> buddies (Leaf a k false) (Leaf b k false) ->
  exists st2, (st1 ← upd st a (set_lgsz (k + 1)); remove_region st1 b) = Ok st2 /\ (forall u, Bf (dheap st2) u = Bf (dheap st) u) /\
  blocks st2 = blocks st /\ pool_sz_bytes st2 = pool_sz_bytes st /\ regs st2 A B (L1 ++ Leaf a (k + 1) false :: L2).
Proof.
  intros R Hb. set (x := Leaf a k false) in *. set (y := Leaf b k false) in *.
  pose proof (buddy_prev _ _ _ _ _ _ _ R Hb) as Py. simpl in Py.
  assert (Hx : x ∈ L1 ++ x :: y :: L2) by set_solver. assert (Hy : y ∈ L1 ++ x :: y :: L2) by set_solver.
  pose proof (buddies_size _ _ _ _ _ _ R Hx Hy Hb) as Hk. destruct (regs_range _ _ _ _ _ R Hx) as (Ha & Hea & _). destruct (regs_range _ _ _ _ _ R Hy) as (Hbb & Heb & HB & _). simpl in *.
  pose proof (rg_seg _ _ _ _ R) as [_ [Sx [Sy _]]]%rseg_app. simpl in Sx, Sy.
  destruct (Nf_lookup _ _ _ _ _ Sx) as (dx & Edx & Xn & Xg & Xb), (Nf_lookup _ _ _ _ _ Sy) as (dy & Edy & Yn & Yg & Yb).
  destruct (fields_of _ _ _ Edx) as (Fx1 & Fx2 & Fx3), (fields_of _ _ _ Edy) as (Fy1 & Fy2 & Fy3).
  assert (Hab : a < b). { destruct Hb as (_ & Eb & _). simpl in Eb. unfold l_end in Hea. simpl in Hea. lia. }
  assert (HL2 : hda 0 L2 = 0 /\ L2 = [] \/ b < hda 0 L2 /\ exists z, z ∈ L1 ++ x :: y :: L2 /\ l_addr z = hda 0 L2).
  { destruct L2 as [|z L2]; [by left | right]. simpl. pose proof (rg_tiles _ _ _ _ R) as Ht.
    apply tiles_app in Ht as (m & _ & _ & _ & _ & _ & _ & _ & Ez & _). split; [unfold l_end in *; simpl in *; lia |]. exists z. split; [set_solver | done]. }
  rewrite (upd_ok _ _ _ dx Edx). simpl.
  destruct (remove_region_ok (MkPool (<[a := set_lgsz (k + 1) dx]> (dheap st)) (regions st) (blocks st) (pool_sz_bytes st)) b a (set_lgsz (k + 1) dx) dy)
    as (st2 & E2 & B2 & Bk2 & Rg2 & Sz2 & Nx2 & N2 & Pn2 & P2); simpl; try done; try lia.
  - rewrite lookup_insert_ne by lia. done.
  - congruence.
  - apply lookup_insert_eq.
  - rewrite Yn. intros Hne. destruct HL2 as [[? _]|[? (z & Hz & Ez)]]; [lia |]. rewrite <- Ez. apply dom_upd. by apply (regs_in _ _ _ _ _ R).
  - exists st2. split; [done |]. simpl in *. rewrite Yn in *. split_and!; try done.
    + intros u. rewrite B2, Bf_insert. destruct (decide (u = a)) as [->|]; [simpl; congruence | done].
    + apply (regs_merge st st2 A B L1 x y L2 R Hb Hk).
      * intros u Hu1 Hu2. simpl in Hu1, Hu2. rewrite N2, Nf_insert, decide_False by done. done.
      * intros u Hu1 Hu2. simpl in Hu1. rewrite P2, Pf_insert by done. destruct (decide (u = a)) as [->|]; [simpl; congruence | done].
      * simpl. rewrite Nx2, Xb. done.
      * intros Hne. apply Pn2. destruct HL2 as [[_ ?]|[? _]]; [done | lia].
      * done.
Qed.

Lemma merge_ok n st A B L1 a b k L2 bl : pinvu n st A B (L1 ++ Leaf a k false :: Leaf b k false :: L2) bl -> buddies (Leaf a k false) (Leaf b k false) ->
  exists st' bl', merge_blocks st a b k = Ok st' /\ pinvu n st' A B (L1 ++ Leaf a (k + 1) false :: L2) bl'.
Proof.
  intros H Hb. pose proof (pi_regs _ _ _ _ _ H) as R. pose proof (rg_tiles _ _ _ _ R) as Ht.
  set (L := L1 ++ Leaf a k false :: Leaf b k false :: L2) in *.
  assert (Hx : Leaf a k false ∈ L) by set_solver. assert (Hy : Leaf b k false ∈ L) by set_solver.
  destruct (regs_range _ _ _ _ _ R Hx) as (Ha & Hea & _ & Hs & _). pose proof (buddies_size _ _ _ _ _ _ R Hx Hy Hb) as Hk. simpl in *.
  assert (Hs1 : in_sizes (k + 1)) by (unfold in_sizes in *; lia).
  assert (Hab : b <> a). { destruct Hb as (_ & Eb & _). simpl in Eb. unfold l_end in Hea. simpl in Hea. lia. }
  destruct (merge_regions st A B L1 a b k L2 R Hb) as (st2 & E2 & B2 & Bk2 & Sz2 & R2).
  assert (Ls2 : lists st2 bl) by (apply (lists_same st); [apply H | done | done]).
  assert (Hina : a ∈ bl k) by (by apply (pi_link _ _ _ _ _ H)). assert (Hinb : b ∈ bl k) by (by apply (pi_link _ _ _ _ _ H)).
  destruct (remove_block_ok st2 bl k a Ls2 Hs Hina) as (st3 & l1 & E3 & Ls3 & Sr3 & Z3 & M3 & F3 & I3).
  assert (Hinb1 : b ∈ bl_set bl k l1 k) by (rewrite bl_set_eq; by apply M3).
  destruct (remove_block_ok st3 _ k b Ls3 Hs Hinb1) as (st4 & l2 & E4 & Ls4 & Sr4 & Z4 & M4 & F4 & I4).
  set (b2 := bl_set (bl_set bl k l1) k l2) in *.
  assert (Hb2 : forall i u, u ∈ b2 i <-> u ∈ bl i /\ u <> a /\ u <> b).
  { intros i u. unfold b2. rewrite !elem_bl_set, M4, bl_set_eq, M3.
    assert (Hd : forall v, v ∈ bl k -> v ∈ bl i -> i = k) by (intros; by apply (ls_disj _ _ Ls2 i k v)).
    assert (Hua : u = a -> u ∈ bl i -> i = k) by (intros ->; by apply Hd). assert (Hub : u = b -> u ∈ bl i -> i = k) by (intros ->; by apply Hd).
    clear - Hua Hub. destruct (decide (i = k)) as [->|]; tauto. }
  assert (Hna : nowhere (bl_set bl k l1) a).
  { intros i. rewrite elem_bl_set, M3. intros [[_ [_ ?]]|[Hi Hu]]; [done |]. by apply Hi, (ls_disj _ _ Ls2 i k a). }
  destruct (add_block_ok st4 b2 a (k + 1) Ls4 Hs1) as (st5 & E5 & Ls5 & Sr5 & F5 & I5); [lia | | |].
  { intros i. rewrite Hb2. tauto. }
  { rewrite F4 by done. done. }
  pose proof (same_region_trans _ _ _ (same_region_trans _ _ _ Sr3 Sr4) Sr5) as Sr.
  exists st5, (bl_set b2 (k + 1) (a :: b2 (k + 1))). split.
  { unfold merge_blocks. apply bind_Ok in E2 as (st1 & E1 & E2). rewrite E1. simpl. rewrite E2. simpl. rewrite E3. simpl. rewrite E4. simpl. done. }
  assert (Ho : forall z, z ∈ L1 \/ z ∈ L2 <-> z ∈ L /\ l_addr z <> a /\ l_addr z <> b).
  { intros z. pose proof (others_elem _ L1 _ _ _ z Ht) as O1. assert (Ht2 : tiles A ((L1 ++ [Leaf a k false]) ++ Leaf b k false :: L2) B) by (by rewrite <- app_assoc).
    pose proof (others_elem _ _ _ _ _ z Ht2) as O2. rewrite <- (app_assoc L1) in O2. rewrite elem_of_cons in O1. rewrite elem_of_app, list_elem_of_singleton in O2. simpl in *.
    fold L in O1, O2. assert (Hza : z = Leaf a k false -> l_addr z = a) by (by intros ->).
    assert (Hzb : z = Leaf b k false -> l_addr z = b) by (by intros ->). clear - O1 O2 Hza Hzb. tauto. }
  split.
  - by eapply regs_same.
  - done.
  - intros i u. pose proof (Ho (Leaf u i false)) as Hou. simpl in Hou. rewrite elem_of_app, elem_of_cons, elem_bl_set, elem_of_cons, !Hb2.
    assert (E : Leaf u i false = Leaf a (k + 1) false <-> u = a /\ i = k + 1) by naive_solver. rewrite E, !(pi_link _ _ _ _ _ H). fold L.
    clear - Hou. destruct (decide (i = k + 1)) as [->|]; tauto.
  - intros z Hz Hbusy. assert (Hz' : z ∈ L1 \/ z ∈ L2).
    { apply elem_of_app in Hz as [Hz|[->|Hz]%elem_of_cons]; [by left | done | by right]. }
    apply Ho in Hz' as (Hz1 & Hz2 & Hz3).
    assert (Hnz : nowhere bl (l_addr z)). { apply (pinv_nowhere _ _ _ _ _ _ _ H). intros w Hw Ew. by rewrite (tiles_addr_inj _ _ _ _ _ Ht Hw Hz1 Ew). }
    assert (Hnz2 : nowhere b2 (l_addr z)) by (intros i; rewrite Hb2; specialize (Hnz i); tauto).
    assert (Hnz1 : nowhere (bl_set bl k l1) (l_addr z)) by (intros i; rewrite elem_bl_set, M3; pose proof (Hnz i); pose proof (Hnz k); tauto).
    rewrite F5, F4, F3, B2 by done. by apply (pi_loose _ _ _ _ _ H).
  - destruct Sr as (_ & _ & _ & Sz). rewrite Sz, Sz2, (pi_size _ _ _ _ _ H). unfold L. rewrite !free_bytes_app. simpl.
    rewrite Z.pow_add_r by (unfold in_sizes, Lgsz_min in Hs; lia). lia.
Qed.

Lemma aligned_double n lg : in_sizes lg -> is_aligned n (u32 (get_size lg * 2)) = true <-> (2 ^ (lg + 1) | n).
Proof.
  intros Hs. unfold in_sizes, Lgsz_min, Lgsz_max in Hs. rewrite get_size_pow2 by lia.
  assert (E : is_aligned n (u32 (2 ^ lg * 2)) = is_aligned n (2 ^ (lg + 1))).
  { unfold is_aligned, get_offset, mask_of. rewrite Z.pow_add_r by lia. do 2 f_equal. unfold wrap. by rewrite Zminus_mod_idemp_l. }
  rewrite E, is_aligned_spec by lia. apply Z.mod_divide. pose proof (pow_pos (lg + 1)). lia.
Qed.

(** The block that combine looks at, and what it finds there. *)
Lemma combine_partner u st A B L bl a lg d : pinvu u st A B L bl -> Leaf a lg false ∈ L -> dheap st !! a = Some d -> lgsz d = lg ->
  forall d2, d2 = (if is_aligned a (u32 (size_of d * 2)) then region_next d else region_prev d) ->
  (d2 = 0 \/ exists e, e ∈ L /\ l_addr e = d2) /\
  (forall e, e ∈ L -> l_addr e = d2 -> l_lg e = lg -> l_busy e = false ->
     (a < d2 /\ buddies (Leaf a lg false) e) \/ (d2 < a /\ buddies e (Leaf a lg false))) /\
  (forall e, e ∈ L -> buddies (Leaf a lg false) e \/ buddies e (Leaf a lg false) -> l_addr e = d2).
Proof.
  intros H Hl Ed Hg d2 Ed2. unfold size_of in Ed2. rewrite Hg in Ed2. pose proof (pi_regs _ _ _ _ _ H) as R. pose proof (rg_tiles _ _ _ _ R) as Ht.
  destruct (regs_range _ _ _ _ _ R Hl) as (Ha & He & HB & Hs & Hd). simpl in *.
  pose proof (aligned_double a lg Hs) as Hal. assert (H0 : 0 <= lg) by (unfold in_sizes, Lgsz_min in Hs; lia). pose proof (pow_pos lg H0) as Hp.
  destruct (is_aligned a (u32 (get_size lg * 2))) eqn:Ea.
  - assert (Hev : (2 ^ (lg + 1) | a)) by tauto. pose proof Hl as (L1 & L2 & EL)%list_elem_of_split. subst L.
    pose proof (rg_seg _ _ _ _ R) as [_ [S _]]%rseg_app. simpl in S. destruct (fields_of _ _ _ Ed) as (F & _). rewrite F in S. injection S as S _ _.
    assert (Hn : d2 = hda 0 L2) by congruence. clear Ed2. subst d2.
    apply tiles_app in Ht as (m & _ & Em & _ & _ & Ht2). simpl in Em. subst m.
    assert (Hhd : L2 <> [] -> hda 0 L2 = a + 2 ^ lg) by (destruct L2 as [|z L2]; [done |]; destruct Ht2 as (E & _); intros _; exact E).
    split_and!.
    + destruct L2 as [|z L2]; [by left | right]. exists z. split; [set_solver | done].
    + intros e Hin Ee Eg _. left. assert (Hne : L2 <> []).
      { intros ->. simpl in Ee. destruct (regs_range _ _ _ _ _ R Hin) as (? & _). lia. }
      rewrite (Hhd Hne) in *. split; [lia |]. by split_and!.
    + intros e Hin [Hb|Hb].
      * destruct Hb as (Eg & Ee & _). simpl in *. rewrite Ee. symmetry. apply Hhd. intros ->.
        simpl in Ht2. unfold l_end in Ht2. simpl in Ht2. destruct (regs_range _ _ _ _ _ R Hin) as (_ & ? & _). lia.
      * apply buddies_odd in Hb as Hodd; [| destruct Hb as (Eg & _); simpl in Eg; lia]. destruct Hb as (Eg & _). simpl in *. by rewrite <- Eg in Hodd.
  - assert (Hodd : ~ (2 ^ (lg + 1) | a)) by (intros Hc; apply Hal in Hc; done).
    destruct (fields_of _ _ _ Ed) as (_ & F & _). destruct (rg_prev _ _ _ _ R _ Hl) as (e & Pe & Hpe). simpl in Pe, Hpe. rewrite F in Pe. injection Pe as Pe.
    assert (Hn : d2 = e) by congruence. clear Ed2. subst d2.
    destruct (Z.eqb_spec a A) as [EA|EA].
    + subst e. split_and!; [by left | |].
      * intros e Hin Ee. destruct (regs_range _ _ _ _ _ R Hin) as (? & _). lia.
      * intros e Hin [Hb|Hb]; [by destruct Hb as (_ & _ & Hc) |]. destruct Hb as (Eg & Ee & _). simpl in *.
        destruct (regs_range _ _ _ _ _ R Hin) as (? & _). rewrite <- Eg in Ee. lia.
    + destruct Hpe as ((j & Hj & Ej & Dj) & w & Hw & Ew). pose proof Hodd as Hodd'. rewrite Ej in Hodd'.
      pose proof (multiple_add lg j e Hj Dj Hodd' H0) as Hjk. pose proof (pow_pos j Hj). pose proof (Z.pow_le_mono_r 2 j lg ltac:(lia) Hjk) as Hpw.
      split_and!; [right; eauto | |].
      * intros e' Hin Ee Eg _. right. split; [lia |]. rewrite (tiles_addr_inj _ _ _ _ _ Ht Hin Hw ltac:(congruence)) in *. clear e' Hin Ee.
        assert (Hdj : l_end w <= a).
        { destruct (tiles_disjoint _ _ _ _ _ Ht Hw Hl) as [E|[Hc|Hc]]; [rewrite E in Ew; simpl in Ew; lia | exact Hc | unfold l_end in Hc; simpl in Hc; lia]. }
        unfold l_end in Hdj. rewrite Eg in Hdj. assert (Ew2 : a = l_addr w + 2 ^ lg) by lia.
        split_and!; simpl; rewrite ?Eg; [done | done |]. replace (l_addr w) with (a - 2 ^ lg) by lia. by apply odd_multiple.
      * intros x Hin [Hb|Hb]; [by destruct Hb as (_ & _ & Hc) |]. destruct Hb as (Eg & Ee & _). simpl in *. rewrite <- Eg in Ee.
        destruct (regs_range _ _ _ _ _ R Hw) as (_ & Hwe & _).
        destruct (tiles_disjoint _ _ _ _ _ Ht Hin Hw) as [->|[Hc|Hc]]; [done | unfold l_end in Hc; rewrite <- Eg in Hc; lia | lia].
Qed.

Lemma combine_eq f st a : combine (S f) st a =
  (d ← rd st a;
   let d2 := if is_aligned a (u32 (size_of d * 2)) then region_next d else region_prev d in
   if d2 =? 0 then Ok st else
   e ← rd st d2;
   if negb (lgsz d =? lgsz e) || busy e then Ok st else
   let '(x, y) := if d2 <? a then (d2, a) else (a, d2) in
   st ← merge_blocks st x y (lgsz d); combine f st x).
Proof. done. Qed.

Lemma combine_ok u fuel st A B L bl a lg : pinvu u st A B L bl -> Leaf a lg false ∈ L -> coal_but L a -> Lgsz_max + 1 - lg <= Z.of_nat fuel ->
  exists st' L' bl', combine fuel st a = Ok st' /\ pinvu u st' A B L' bl' /\ coal L' /\ live L' = live L.
Proof.
  revert st L bl a lg. induction fuel as [|f IH]; intros st L bl a lg H Hl Hc Hf; pose proof (pi_regs _ _ _ _ _ H) as R;
    pose proof (rg_tiles _ _ _ _ R) as Ht; destruct (regs_range _ _ _ _ _ R Hl) as (Ha & _ & _ & [Hs1 Hs2] & _); simpl in *; [lia |].
  rewrite combine_eq. destruct (regs_leaf _ _ _ _ _ R Hl) as (n & d & Ed & _ & Dg & Db). simpl in Ed, Dg. rewrite (rd_ok _ _ _ Ed). simpl.
  destruct (combine_partner u st A B L bl a lg d H Hl Ed Dg _ eq_refl) as (C1 & C2 & C3).
  set (d2 := if is_aligned a _ then _ else _) in *. clearbody d2.
  (* no buddy to merge with *)
  assert (Hstay : (forall e, e ∈ L -> l_addr e = d2 -> l_busy e = false -> l_lg e <> lg) -> coal L).
  { intros Hno x y Hx Hy Hb Fx Fy. destruct (Hc x y Hx Hy Hb Fx Fy) as [E|E].
    - assert (x = Leaf a lg false) as -> by (by eapply tiles_addr_inj). apply (Hno y); [done | by apply C3; auto | done |]. by destruct Hb as (? & _).
    - assert (y = Leaf a lg false) as -> by (by eapply tiles_addr_inj). apply (Hno x); [done | by apply C3; auto | done |]. by destruct Hb as (? & _). }
  destruct (Z.eqb_spec d2 0) as [E0|E0].
  { exists st, L, bl. split_and!; try done. apply Hstay. intros e He Ee. destruct (regs_range _ _ _ _ _ R He) as (? & _). lia. }
  destruct C1 as [?|(e & He & Ee)]; [done |]. destruct (regs_leaf _ _ _ _ _ R He) as (n' & de & Ede & _ & Eg & Eb). rewrite Ee in Ede.
  rewrite (rd_ok _ _ _ Ede). simpl. rewrite Dg, Eg, Eb.
  destruct (negb (lg =? l_lg e) || l_busy e) eqn:Ebad.
  { exists st, L, bl. split_and!; try done. apply Hstay. intros e' He' Ee' Fe'. rewrite (tiles_addr_inj _ _ _ _ _ Ht He' He) in * by congruence.
    intros Elg. rewrite Fe', Elg, Z.eqb_refl in Ebad. done. }
  apply orb_false_elim in Ebad as [Elg%negb_false_iff%Z.eqb_eq Fe]. symmetry in Elg.
  assert (Hmerge : forall x y L1 L2, L = L1 ++ Leaf x lg false :: Leaf y lg false :: L2 -> buddies (Leaf x lg false) (Leaf y lg false) -> a = x \/ a = y ->
    exists st' L' bl', (s ← merge_blocks st x y lg; combine f s x) = Ok st' /\ pinvu u st' A B L' bl' /\ coal L' /\ live L' = live L).
  { intros x y L1 L2 -> Hb Hxy. destruct (merge_ok u st A B L1 x y lg L2 bl H Hb) as (st1 & bl1 & E1 & H1). rewrite E1. simpl.
    pose proof (live_merge L1 (Leaf x lg false) (Leaf y lg false) L2 eq_refl eq_refl) as Hlv. unfold merged in Hlv. simpl in Hlv.
    destruct (IH st1 _ bl1 x (lg + 1) H1) as (st' & L' & bl' & E' & H' & Hc' & Hl').
    - set_solver.
    - exact (coal_merge A B L1 (Leaf x lg false) (Leaf y lg false) L2 a Ht Hxy Hc).
    - lia.
    - exists st', L', bl'. split_and!; try done. congruence. }
  assert (Ee2 : e = Leaf d2 lg false) by (destruct e; simpl in *; congruence).
  destruct (C2 e He Ee Elg Fe) as [[Hlt Hb]|[Hlt Hb]].
  - rewrite (proj2 (Z.ltb_ge d2 a)) by lia. destruct (tiles_adjacent A L B (Leaf a lg false) e Ht Hl He) as (L1 & L2 & EL).
    { destruct Hb as (_ & E & _). symmetry. exact E. }
    rewrite Ee2 in EL, Hb. eapply Hmerge; eauto.
  - rewrite (proj2 (Z.ltb_lt d2 a)) by lia. destruct (tiles_adjacent A L B e (Leaf a lg false) Ht He Hl) as (L1 & L2 & EL).
    { destruct Hb as (_ & E & _). symmetry. exact E. }
    rewrite Ee2 in EL, Hb. eapply Hmerge; eauto.
Qed.

Lemma give_ok st A B L1 a lg L2 bl : pinv st A B (L1 ++ Leaf a lg true :: L2) bl ->
  exists st' bl', (st1 ← add_block st a lg; upd st1 a (set_busy false)) = Ok st' /\
  pinvu (2 ^ lg) st' A B (L1 ++ Leaf a lg false :: L2) bl'.
Proof.
  intros H. pose proof (pi_regs _ _ _ _ _ H) as R. pose proof (rg_tiles _ _ _ _ R) as Ht. set (l := Leaf a lg true) in *.
  assert (Hl : l ∈ L1 ++ l :: L2) by set_solver. destruct (regs_range _ _ _ _ _ R Hl) as (Ha & He & HB & Hs & Hd). simpl in *.
  assert (Hno : nowhere bl a).
  { apply (pinv_nowhere _ _ _ _ _ _ _ H). intros y Hy Ey. by rewrite (tiles_addr_inj _ _ _ _ _ Ht Hy Hl Ey). }
  destruct (add_block_ok st bl a lg (pi_lists _ _ _ _ _ H) Hs) as (st1 & E1 & Ls1 & (N1 & P1 & Rg1 & Sz1) & F1 & I1); [lia | done | |].
  { by apply (pi_loose _ _ _ _ _ H l). }
  assert (Nl : Nf (dheap st) a = Some (hda 0 L2, lg, true)) by (pose proof (rg_seg _ _ _ _ R) as [_ [E _]]%rseg_app; exact E).
  pose proof Nl as Nl1. rewrite <- N1 in Nl1. destruct (Nf_lookup _ _ _ _ _ Nl1) as (d & Ed & Dn & Dg & Db).
  destruct (fields_of _ _ _ Ed) as (Fd1 & Fd2 & Fd3). rewrite E1. simpl. rewrite (upd_ok _ _ _ d Ed). simpl. eexists _, _. split; [done |].
  assert (HBf : forall x, Bf (<[a := set_busy false d]> (dheap st1)) x = Bf (dheap st1) x) by (intros x; fields; congruence).
  split.
  - apply (regs_busy st _ A B L1 l L2 false R); simpl.
    + intros x Hx. rewrite Nf_insert, decide_False by done. apply N1.
    + intros x. rewrite Pf_insert. destruct (decide (x = a)) as [->|]; [simpl; by rewrite <- Fd2, P1 | apply P1].
    + rewrite Nf_insert, decide_True by done. simpl. by rewrite Dn, Dg.
    + done.
  - apply (lists_same st1); [exact Ls1 | | done]. intros i x Hx. apply HBf.
  - intros i x. rewrite elem_bl_set, elem_of_cons, !(pi_link _ _ _ _ _ H). pose proof (others_elem _ _ _ _ _ (Leaf x i false) Ht) as Ho. simpl in Ho.
    assert (Hna : Leaf x i false ∈ L1 ++ l :: L2 -> x <> a).
    { intros Hi ->. assert (Leaf a i false = Leaf a lg true) by (eapply tiles_addr_inj; [exact Ht | done | done | done]). done. }
    rewrite (elem_of_app L1 (Leaf a lg false :: L2)), elem_of_cons. assert (E : Leaf x i false = Leaf a lg false <-> x = a /\ i = lg) by naive_solver.
    rewrite E. clear - Ho Hna. destruct (decide (i = lg)) as [->|]; tauto.
  - intros x Hx Hbusy. simpl. rewrite HBf. assert (Hx2 : x ∈ L1 ++ l :: L2 /\ l_addr x <> a).
    { apply (others_elem _ _ _ _ _ x Ht). apply elem_of_app in Hx as [Hx|[->|Hx]%elem_of_cons]; [by left | done | by right]. }
    destruct Hx2 as [Hx2 Hx3]. rewrite F1; [by apply (pi_loose _ _ _ _ _ H) | done |].
    apply (pinv_nowhere _ _ _ _ _ _ _ H). intros y Hy Ey. by rewrite (tiles_addr_inj _ _ _ _ _ Ht Hy Hx2 Ey).
  - simpl. rewrite Sz1, (pi_size _ _ _ _ _ H), !free_bytes_app. simpl. lia.
Qed.

(** ** The operations of the pool *)

Definition pool_ok (st : mpool) (A B : Z) (L : list leaf) : Prop := exists bl, pinv st A B L bl /\ coal L.

(** The buffer of a block. *)
Definition buf_of (l : leaf) : Z := l_addr l + sizeof_descr.

Lemma live_elem L x : x ∈ live L <-> x ∈ L /\ l_busy x = true.
Proof. unfold live. rewrite list_elem_of_filter. tauto. Qed.

Lemma size_class sz : 0 < sz -> sz + sizeof_descr < 2 ^ 32 ->
  let k := class_of (get_log2sz_top_range (u32 (sz + sizeof_descr))) in
  0 <= get_log2sz_top_range (u32 (sz + sizeof_descr)) /\ sz + sizeof_descr <= 2 ^ k /\ forall lg, 2 ^ lg < sz + sizeof_descr -> Lgsz_min <= lg -> lg < k.
Proof.
  unfold sizeof_descr. intros H1 H2. simpl. rewrite wrap_small by (unfold in_range; lia).
  destruct (get_log2sz_ranges (sz + 24)) as [_ E]; [lia |]. rewrite E. pose proof (Z.log2_up_spec (sz + 24) ltac:(lia)) as [S1 S2].
  pose proof (Z.log2_up_nonneg (sz + 24)). unfold class_of, Lgsz_min. split_and!; [done | |].
  - destruct (Z.ltb_spec (Z.log2_up (sz + 24)) 5); [| lia]. pose proof (Z.pow_le_mono_r 2 (Z.log2_up (sz + 24)) 5). lia.
  - intros lg Hlg H5. assert (lg < Z.log2_up (sz + 24)).
    { apply (Z.pow_lt_mono_r_iff 2); lia. }
    destruct (Z.ltb_spec (Z.log2_up (sz + 24)) 5); lia.
Qed.

Lemma alloc_ok st A B L sz : pool_ok st A B L -> 0 < sz -> sz + sizeof_descr < 2 ^ 32 ->
  (alloc st sz = Ok (0, st) /\ forall l, l ∈ L -> l_busy l = false -> 2 ^ l_lg l < sz + sizeof_descr) \/
  (exists l st' L', alloc st sz = Ok (buf_of l, st') /\ pool_ok st' A B L' /\ l_busy l = true /\ sz + sizeof_descr <= 2 ^ l_lg l /\
     live L' ≡ₚ l :: live L /\ exists x, x ∈ L /\ l_busy x = false /\ sz + sizeof_descr <= 2 ^ l_lg x).
Proof.
  intros (bl & H & Hco) Hsz Hmax. destruct (size_class sz Hsz Hmax) as (Hg0 & Hfit & Hlow). set (g := get_log2sz_top_range _) in *.
  destruct (alloc_block_ok st A B L bl g H Hco Hg0) as [Hyes Hno]. unfold alloc. rewrite (proj2 (Z.eqb_neq sz 0)) by lia. fold g.
  assert (Hdec : free_ge L (class_of g) \/ ~ free_ge L (class_of g)).
  { destruct (decide (Exists (fun l => l_busy l = false /\ class_of g <= l_lg l) L)) as [He|He]; [left | right].
    - apply Exists_exists in He as (x & ? & ? & ?). by exists x.
    - intros (x & ? & ? & ?). apply He, Exists_exists. eauto. }
  assert (Hc5 : Lgsz_min <= class_of g) by (unfold class_of; destruct (Z.ltb_spec g Lgsz_min); lia).
  destruct Hdec as [Hf|Hf].
  - right. destruct (Hyes Hf) as (a & st' & L1 & L2 & bl' & E & Ha & H' & Hc' & Hlv). rewrite E. simpl. rewrite (proj2 (Z.eqb_neq a 0) Ha).
    exists (Leaf a (class_of g) true), st', (L1 ++ Leaf a (class_of g) true :: L2). split_and!; try done.
    + do 2 f_equal. assert (Hl : Leaf a (class_of g) true ∈ L1 ++ Leaf a (class_of g) true :: L2) by set_solver.
      destruct (regs_range _ _ _ _ _ (pi_regs _ _ _ _ _ H') Hl) as (? & ? & ? & _). simpl in *. unfold buf_of, sizeof_descr. simpl.
      apply wrap_small. unfold in_range, l_end in *. simpl in *. lia.
    + by exists bl'.
    + rewrite live_busy, <- Hlv. by rewrite Permutation_middle.
    + destruct Hf as (x & Hx & Hb & Hg). exists x. split_and!; try done. pose proof (Z.pow_le_mono_r 2 (class_of g) (l_lg x)). lia.
  - left. rewrite (Hno Hf). simpl. split; [done |]. intros l Hl Hb. destruct (Z.lt_ge_cases (2 ^ l_lg l) (sz + sizeof_descr)); [done |]. exfalso. apply Hf.
    exists l. split_and!; try done. destruct (Z.le_gt_cases (class_of g) (l_lg l)) as [|Hlt]; [done |]. exfalso.
    destruct (regs_range _ _ _ _ _ (pi_regs _ _ _ _ _ H) Hl) as (_ & _ & _ & [Hl5 Hl31] & _).
    assert (Hup : Z.log2_up (sz + 24) <= l_lg l).
    { rewrite <- (Z.log2_up_pow2 (l_lg l)) by (unfold Lgsz_min in *; lia). apply Z.log2_up_le_mono. unfold sizeof_descr in *. lia. }
    destruct (get_log2sz_ranges (sz + 24)) as [_ Eg]; [unfold sizeof_descr in *; lia |].
    unfold g, sizeof_descr in Hlt. rewrite wrap_small, Eg in Hlt by (unfold in_range, sizeof_descr in *; lia).
    unfold class_of in Hlt. destruct (Z.ltb_spec (Z.log2_up (sz + 24)) Lgsz_min); lia.
Qed.

Lemma free_ok st A B L l : pool_ok st A B L -> l ∈ live L ->
  exists st' L', free st (buf_of l) = Ok (2 ^ l_lg l, st') /\ pool_ok st' A B L' /\ l :: live L' ≡ₚ live L.
Proof.
  intros (bl & H & Hco) [Hl Hb]%live_elem. pose proof (pi_regs _ _ _ _ _ H) as R. destruct (regs_range _ _ _ _ _ R Hl) as (Ha & He & HB & Hs & _).
  pose proof Hl as (L1 & L2 & EL)%list_elem_of_split. destruct l as [a lg b]. simpl in *. subst b.
  unfold free, buf_of, sizeof_descr. simpl. rewrite (proj2 (Z.eqb_neq (a + 24) 0)) by lia.
  replace (a + 24 - 24) with a by lia. rewrite wrap_small by (unfold in_range, l_end in *; simpl in *; lia).
  destruct (regs_leaf _ _ _ _ _ R Hl) as (n & d & Ed & _ & Dg & Db). simpl in *. unfold free_block. rewrite (rd_ok _ _ _ Ed). simpl. rewrite Db, Dg. simpl.
  rewrite (proj2 (Z.ltb_ge lg Lgsz_min)), (proj2 (Z.ltb_ge Lgsz_max lg)) by apply Hs. simpl. subst L.
  destruct (give_ok st A B L1 a lg L2 bl H) as (st1 & bl1 & E1 & H1). apply bind_Ok in E1 as (st0 & E0 & E1). rewrite E0. simpl. rewrite E1. simpl.
  assert (Hl1 : Leaf a lg false ∈ L1 ++ Leaf a lg false :: L2) by set_solver.
  destruct (regs_leaf _ _ _ _ _ (pi_regs _ _ _ _ _ H1) Hl1) as (n1 & d1 & Ed1 & _ & Dg1 & _). simpl in Ed1, Dg1. rewrite (rd_ok _ _ _ Ed1). simpl.
  destruct (combine_ok (2 ^ lg) (Z.to_nat Sizes_num) st1 A B _ bl1 a lg H1 Hl1) as (st2 & L' & bl2 & E2 & H2 & Hc2 & Hlv).
  { by apply (coal_free A B L1 a lg L2 (rg_tiles _ _ _ _ R)). }
  { unfold in_sizes, Sizes_num, Lgsz_min, Lgsz_max in *. lia. }
  rewrite E2. simpl. unfold size_of. rewrite Dg1, get_size_pow2 by (unfold in_sizes, Lgsz_min, Lgsz_max in Hs; lia).
  eexists _, L'. split_and!; [done | |].
  - exists bl2. split; [| done]. destruct H2 as [X1 X2 X3 X4 X5]. split; simpl; try done.
    + destruct X1. by split.
    + destruct X2. by split.
    + rewrite X5. pose proof (free_bytes_bound _ _ _ (rg_tiles _ _ _ _ X1)). rewrite wrap_small; [lia |]. unfold in_range. lia.
  - rewrite Hlv, live_free, live_busy. by rewrite Permutation_middle.
Qed.

(** ** Adding the area *)

Lemma tiles_snoc a L b lg : tiles a L b -> in_sizes lg -> (2 ^ lg | b) -> tiles a (L ++ [Leaf b lg false]) (b + 2 ^ lg).
Proof. intros H Hs Hd. apply tiles_app. exists b. split; [done |]. simpl. unfold l_end. simpl. split_and!; try done; apply Hs. Qed.

Lemma tiles_last a L p b : tiles a (L ++ [p]) b -> b = l_end p.
Proof. intros (m & _ & _ & _ & _ & E)%tiles_app. done. Qed.

(** The block behind the last one; [hda] of the empty pool is 0. *)
Lemma regs_append st st' A S L lg : regs st A S L -> in_sizes lg -> (2 ^ lg | S) -> S + 2 ^ lg < 2 ^ 32 ->
  match last L with
  | None => regions st' = S /\ Pf (dheap st') S = Some 0 /\ (forall x, x <> S -> Nf (dheap st') x = Nf (dheap st) x)
  | Some p => regions st' = regions st /\ Pf (dheap st') S = Some (l_addr p) /\ Nf (dheap st') (l_addr p) = Some (S, l_lg p, l_busy p) /\
              (forall x, x <> S -> x <> l_addr p -> Nf (dheap st') x = Nf (dheap st) x)
  end ->
  Nf (dheap st') S = Some (0, lg, false) -> (forall x, x <> S -> Pf (dheap st') x = Pf (dheap st) x) ->
  regs st' A (S + 2 ^ lg) (L ++ [Leaf S lg false]).
Proof.
  intros R Hs Hd HS Hlast HN HP. pose proof (rg_tiles _ _ _ _ R) as Ht.
  assert (Hlo : forall x, x ∈ L -> l_addr x < S). { intros x Hx. destruct (regs_range _ _ _ _ _ R Hx) as (_ & ? & _). lia. }
  assert (Hold : forall x, x ∈ L -> prev_ok (dheap st') A (L ++ [Leaf S lg false]) x).
  { intros x Hx. specialize (Hlo x Hx). apply (prev_mono (dheap st) _ _ L); [by apply R | apply HP; lia |]. intros y Hy. exists y. set_solver. }
  destruct R as [R1 R2 R3 R4 R5 R6]. split; try done; try by apply tiles_snoc.
  - destruct (last L) as [p|] eqn:El; [| apply last_None in El as ->; apply Hlast]. destruct Hlast as (E & _). rewrite E, R4. by destruct L.
  - destruct (last L) as [p|] eqn:El.
    + apply last_Some in El as [L0 ->]. destruct Hlast as (_ & _ & Np & Ho). rewrite <- app_assoc. simpl.
      apply rseg_app in R5 as [S1 _]. apply rseg_app. simpl. split_and!; try done. eapply rseg_frame; [| exact S1].
      intros x Hx. destruct (tiles_mid _ L0 p [] _ Ht) as (M1 & _). specialize (M1 x Hx).
      destruct (tiles_in _ _ _ x Ht) as (_ & _ & [Hg _] & _); [set_solver |]. apply l_end_gt in Hg. pose proof (Hlo p ltac:(set_solver)). apply Ho; lia.
    + apply last_None in El as ->. done.
  - intros x [Hx|Hx]%elem_of_app; [by apply Hold |]. apply list_elem_of_singleton in Hx as ->. unfold prev_ok. simpl.
    destruct (last L) as [p|] eqn:El.
    + apply last_Some in El as [L0 ->]. destruct Hlast as (_ & Pp & _). exists (l_addr p). split; [done |].
      assert (Hp : p ∈ L0 ++ [p]) by set_solver. pose proof (Hlo p Hp). destruct (tiles_in _ _ _ p Ht Hp) as (? & ? & [Hp5 _] & Hdp).
      rewrite (proj2 (Z.eqb_neq S A)) by lia. split; [| exists p; split; [set_solver | done]].
      exists (l_lg p). split_and!; [unfold Lgsz_min in *; lia | exact (tiles_last _ _ _ _ Ht) | done].
    + apply last_None in El as ->. simpl in R3. subst S. exists 0. rewrite Z.eqb_refl. split; [apply Hlast | done].
Qed.

Lemma last_addr (L : list leaf) : L <> [] -> exists p, last L = Some p /\ p ∈ L.
Proof.
  intros Hn. destruct (last L) as [p|] eqn:E; [| by apply last_None in E]. exists p. split; [done |]. apply last_Some in E as [L0 ->]. set_solver.
Qed.

(** One round of the loop of add. *)
Lemma append_ok st A S L bl lg prev : pinv st A S L bl -> in_sizes lg -> (2 ^ lg | S) -> S + 2 ^ lg < 2 ^ 32 ->
  (forall p, last L = Some p -> prev = l_addr p) ->
  exists st' bl', (let s0 := dinit st S lg in
    s1 ← (if regions s0 =? 0 then Ok (set_regions s0 S) else insert_region_after s0 S prev);
    h ← get_head s1 lg;
    s2 ← (if h =? 0 then Ok (set_head s1 lg S) else add_block s1 S lg);
    Ok (set_pool_sz s2 (u32 (pool_sz_bytes s2 + get_size lg)))) = Ok st' /\ pinv st' A (S + 2 ^ lg) (L ++ [Leaf S lg false]) bl'.
Proof.
  intros H Hs Hd HS Hprev. pose proof (pi_regs _ _ _ _ _ H) as R. pose proof (rg_tiles _ _ _ _ R) as Ht. pose proof (rg_pos _ _ _ _ R) as HA.
  pose proof (tiles_le _ _ _ Ht) as HAS.
  assert (Hlo : forall x, x ∈ L -> l_addr x < S). { intros x Hx. destruct (regs_range _ _ _ _ _ R Hx) as (_ & ? & _). lia. }
  assert (HnoS : nowhere bl S). { intros i Hi. apply (pi_link _ _ _ _ _ H) in Hi. apply Hlo in Hi. simpl in Hi. lia. }
  assert (Hlink : exists s1, (if regions (dinit st S lg) =? 0 then Ok (set_regions (dinit st S lg) S) else insert_region_after (dinit st S lg) S prev) = Ok s1 /\
    regs s1 A (S + 2 ^ lg) (L ++ [Leaf S lg false]) /\ (forall x, x <> S -> Bf (dheap s1) x = Bf (dheap st) x) /\ Bf (dheap s1) S = Some (0, 0) /\
    blocks s1 = blocks st /\ pool_sz_bytes s1 = pool_sz_bytes st).
  { simpl. rewrite (rg_first _ _ _ _ R). destruct (decide (L = [])) as [->|Hne].
    - simpl. eexists. split; [done |]. split_and!; try done; simpl; [apply (regs_append st _ A S [] lg); try done | |].
      + simpl. split_and!; [done | |]; intros; fields; done.
      + simpl. fields; done.
      + intros x Hx. simpl. fields; done.
      + intros x Hx. fields; done.
      + fields; done.
    - destruct (last_addr L Hne) as (p & El & Hp). rewrite (Hprev p El). pose proof (Hlo p Hp) as Hps.
      assert (E0 : hda 0 L <> 0). { destruct L as [|z L]; [done |]. simpl. destruct (regs_range _ _ _ _ z R ltac:(set_solver)) as (? & _). lia. }
      rewrite (proj2 (Z.eqb_neq _ _) E0). pose proof El as El'. apply last_Some in El' as [L0 EL].
      pose proof (rg_seg _ _ _ _ R) as Sg. rewrite EL in Sg. apply rseg_app in Sg as [_ [Sp _]]. simpl in Sp.
      destruct (Nf_lookup _ _ _ _ _ Sp) as (dp & Edp & Pn & Pg & Pb).
      destruct (insert_region_after_ok (dinit st S lg) S (l_addr p) (MkDescr 0 0 0 0 lg false) dp)
        as (s1 & E1 & B1 & Bk1 & Rg1 & Sz1 & NS & Np & PS & Po & No); simpl; [apply lookup_insert_eq | by rewrite lookup_insert_ne by lia | lia |].
      exists s1. split; [done |]. simpl in *. rewrite Pn in NS. rewrite Pg, Pb in Np. split_and!; try done.
      + apply (regs_append st); try done.
        * rewrite El. split_and!; try done. intros x Hx1 Hx2. rewrite No by done. fields; done.
        * intros x Hx. rewrite Po by done. fields; done.
      + intros x Hx. rewrite B1. fields; done.
      + rewrite B1. fields; done. }
  destruct Hlink as (s1 & E1 & R1 & B1 & BS & Bk1 & Sz1).
  assert (Ls1 : lists s1 bl). { apply (lists_same st); [apply H | | done]. intros i x Hx. apply B1. intros ->. by apply (HnoS i). }
  destruct (add_block_ok s1 bl S lg Ls1 Hs ltac:(lia) HnoS BS) as (s2 & E2 & Ls2 & Sr2 & F2 & _).
  exists (set_pool_sz s2 (u32 (pool_sz_bytes s2 + get_size lg))), (bl_set bl lg (S :: bl lg)). cbv zeta. rewrite E1. simpl.
  rewrite (get_head_ok s1 bl lg Ls1 Hs). simpl. split.
  { assert (E2' : (if hd0 0 (bl lg) =? 0 then Ok (set_head s1 lg S) else add_block s1 S lg) = Ok s2).
    { destruct (Z.eqb_spec (hd0 0 (bl lg)) 0) as [E|]; [| done]. rewrite <- E2. unfold add_block. rewrite (get_head_ok s1 bl lg Ls1 Hs). simpl. by rewrite E. }
    rewrite E2'. done. }
  destruct (regs_same _ _ _ _ _ R1 Sr2) as [X1 X2 X3 X4 X5 X6]. destruct Ls2 as [Y1 Y2 Y3 Y4 Y5 Y6]. split; try (by split).
  - intros i x. rewrite elem_bl_set, elem_of_cons, !(pi_link _ _ _ _ _ H), elem_of_app, list_elem_of_singleton.
    assert (E : Leaf x i false = Leaf S lg false <-> x = S /\ i = lg) by naive_solver. rewrite E. clear. destruct (decide (i = lg)) as [->|]; tauto.
  - intros x [Hx|Hx]%elem_of_app Hbusy; [| by apply list_elem_of_singleton in Hx as ->]. simpl. pose proof (Hlo x Hx).
    rewrite F2; [rewrite B1 by lia; by apply (pi_loose _ _ _ _ _ H) | lia |].
    apply (pinv_nowhere _ _ _ _ _ _ _ H). intros y Hy Ey. by rewrite (tiles_addr_inj _ _ _ _ _ Ht Hy Hx Ey).
  - simpl. destruct Sr2 as (_ & _ & _ & Sz2). rewrite Sz2, Sz1, (pi_size _ _ _ _ _ H), free_bytes_app. simpl.
    rewrite get_size_pow2 by (unfold in_sizes, Lgsz_min, Lgsz_max in Hs; lia). pose proof (free_bytes_bound _ _ _ Ht). pose proof (pow_pos lg).
    unfold in_sizes, Lgsz_min in Hs. rewrite wrap_small; [lia |]. unfold in_range. lia.
Qed.

(** *** The decomposition of the area *)

(** A block that could not be larger: the sizes above it are not aligned or
    leave the area. *)
Definition maximal (B : Z) (l : leaf) : Prop :=
  forall k, l_lg l < k <= Lgsz_max -> (2 ^ k | l_addr l) -> l_addr l + 2 ^ k <= B -> False.
Definition greedy (B : Z) (L : list leaf) : Prop := forall l, l ∈ L -> maximal B l.

Lemma max_block_ok n addr sz : (n <= 27)%nat -> 0 <= addr -> 0 <= sz -> addr + sz < 2 ^ 32 ->
  let r := max_block_loop n addr sz in
  let fits k := (2 ^ k | addr) /\ 2 ^ k <= sz in
  (r = 0 /\ forall k, Lgsz_min <= k < Lgsz_min + Z.of_nat n -> ~ fits k) \/
  (Lgsz_min <= r < Lgsz_min + Z.of_nat n /\ fits r /\ forall k, r < k < Lgsz_min + Z.of_nat n -> ~ fits k).
Proof.
  intros Hn Ha Hs Hb. simpl. unfold Lgsz_min. induction n as [|n IH]; simpl; [left; split; [done | lia] |].
  set (i := Z.of_nat n + Lgsz_min). assert (Ei : i = Z.of_nat n + 5) by done. rewrite get_size_pow2 by lia.
  pose proof (is_aligned_spec addr i ltac:(lia)) as Hal. rewrite (Z.mod_divide addr (2 ^ i)) in Hal by (pose proof (pow_pos i); lia).
  assert (Hfit : (2 ^ i <=? sz) && is_aligned addr (2 ^ i) && (u32 (addr + 2 ^ i) <=? u32 (addr + sz)) = true <-> (2 ^ i | addr) /\ 2 ^ i <= sz).
  { rewrite !andb_true_iff, Hal, Z.leb_le. split; [tauto |]. intros [Hd Hle]. split_and!; try done. pose proof (pow_pos i ltac:(lia)).
    rewrite !wrap_small by (unfold in_range; lia). apply Z.leb_le. lia. }
  destruct ((2 ^ i <=? sz) && _ && _) eqn:E.
  - right. split_and!; try lia; by apply Hfit.
  - assert (Hnot : ~ ((2 ^ i | addr) /\ 2 ^ i <= sz)) by (intros Hc; apply Hfit in Hc; done).
    destruct (IH ltac:(lia)) as [[E0 Hno]|(Hr & Hf & Hno)]; [left | right].
    + split; [done |]. intros k Hk. destruct (decide (k = i)) as [->|]; [done |]. apply Hno. lia.
    + split_and!; try lia; try (by apply Hf). intros k Hk. destruct (decide (k = i)) as [->|]; [done |]. apply Hno. lia.
Qed.

Lemma live_nil_free L l : live L = [] -> l ∈ L -> l_busy l = false.
Proof. intros H Hl. destruct (l_busy l) eqn:E; [| done]. assert (Hi : l ∈ live L) by (by apply live_elem). rewrite H in Hi. by apply not_elem_of_nil in Hi. Qed.

Lemma add_loop_ok fuel st A S F L bl prev : pinv st A S L bl -> live L = [] -> greedy F L -> S <= F < 2 ^ 32 -> (2 ^ Lgsz_min | S) -> (2 ^ Lgsz_min | F) ->
  (F - S) / 2 ^ Lgsz_min < Z.of_nat fuel -> (forall p, last L = Some p -> prev = l_addr p) ->
  exists st' L' bl', add_loop fuel st prev S F = Ok st' /\ pinv st' A F L' bl' /\ live L' = [] /\ greedy F L'.
Proof.
  revert st S L bl prev. induction fuel as [|f IH]; intros st S L bl prev H Hlv Hgr HSF HdS HdF Hf Hprev.
  { pose proof (Z.div_pos (F - S) (2 ^ Lgsz_min)). unfold Lgsz_min in *. lia. }
  pose proof (pi_regs _ _ _ _ _ H) as R. pose proof (tiles_le _ _ _ (rg_tiles _ _ _ _ R)) as HAS. pose proof (rg_pos _ _ _ _ R) as HA.
  cbn [add_loop]. rewrite (wrap_small 32 (F - S)) by (unfold in_range; lia). unfold find_max_block.
  destruct (max_block_ok (Z.to_nat Sizes_num) S (F - S)) as [[E0 Hno]|(Hr & [Hd Hle] & Hno)]; try (unfold Sizes_num, Lgsz_min, Lgsz_max; lia).
  - rewrite E0. simpl. assert (F = S) as ->; [| by exists st, L, bl]. destruct (decide (F = S)) as [|Hne]; [done |]. destruct (Hno Lgsz_min).
    + unfold Sizes_num, Lgsz_min, Lgsz_max. lia.
    + split; [done |]. apply Z.divide_pos_le; [lia | by apply Z.divide_sub_r].
  - set (lg := max_block_loop (Z.to_nat Sizes_num) S (F - S)) in *. assert (Hs : in_sizes lg) by (unfold in_sizes, Sizes_num, Lgsz_min, Lgsz_max in *; lia).
    rewrite (proj2 (Z.eqb_neq lg 0)) by (unfold Lgsz_min in *; lia).
    destruct (append_ok st A S L bl lg prev H Hs Hd ltac:(lia) Hprev) as (st' & bl' & E & H').
    cbv zeta in E. destruct (if regions (dinit st S lg) =? 0 then _ else _) as [s1|]; [| done]. simpl in E |- *.
    destruct (get_head s1 lg) as [h|]; [| done]. simpl in E |- *. destruct (if h =? 0 then _ else _) as [s2|]; [| done]. simpl in E |- *. injection E as E. rewrite E.
    assert (H5 : 2 ^ Lgsz_min <= 2 ^ lg) by (apply Z.pow_le_mono_r; [lia | apply Hs]).
    assert (Hdl : (2 ^ Lgsz_min | 2 ^ lg)) by (apply pow2_divide; unfold Lgsz_min in *; lia).
    rewrite get_size_pow2 by (unfold in_sizes, Lgsz_min, Lgsz_max in Hs; lia). rewrite (wrap_small 32 (S + 2 ^ lg)) by (unfold in_range, Lgsz_min in *; lia).
    apply (IH st' (S + 2 ^ lg) (L ++ [Leaf S lg false]) bl'); try done; try lia.
    + unfold live. rewrite filter_app. fold (live L). by rewrite Hlv.
    + intros l [Hl|Hl]%elem_of_app; [by apply Hgr |]. apply list_elem_of_singleton in Hl as ->. intros k Hk Hdk Hek. simpl in *. apply (Hno k).
      * unfold Sizes_num, Lgsz_min, Lgsz_max in *. lia.
      * split; [done | lia].
    + by apply Z.divide_add_r.
    + assert (Ed : (F - S) / 2 ^ Lgsz_min = (F - (S + 2 ^ lg)) / 2 ^ Lgsz_min + 2 ^ lg / 2 ^ Lgsz_min).
      { destruct Hdl as [q Eq]. rewrite Eq, Z.div_mul by done. rewrite <- Z.div_add by done. f_equal. lia. }
      assert (1 <= 2 ^ lg / 2 ^ Lgsz_min) by (apply Z.div_le_lower_bound; [done | lia]). lia.
    + intros p. rewrite last_snoc. by intros [= <-].
Qed.
