(* ===== verification/MemPoolSafe.v ===== *)
(** The contract of the heap of [MemPool] towards its clients: a pool of one
    area, allocations and releases in any order, and clients that write to
    their buffers. *)

From Stdlib Require Import ZArith Lia Bool.
From stdpp Require Import base gmap list numbers relations sorting.
From S2P Require Import Prelude SysUtils MemPool MemPoolSpec.

(** ** The blocks of a pool without live blocks *)

Lemma greedy_coal A L B : 0 < A -> B < 2 ^ 32 -> tiles A L B -> greedy B L -> coal L.
Proof.
  intros HA HB Ht Hg x y Hx Hy (Eg & Ey & Hd) _ _. destruct (tiles_in _ _ _ _ Ht Hx) as (Hax & _ & [Hl5 Hl31] & _).
  destruct (tiles_in _ _ _ _ Ht Hy) as (_ & Hey & _). unfold l_end in Hey. rewrite Eg, Ey in Hey.
  assert (Ep : 2 ^ (l_lg x + 1) = 2 ^ l_lg x + 2 ^ l_lg x) by (rewrite Z.pow_add_r by (unfold Lgsz_min in *; lia); lia).
  apply (Hg x Hx (l_lg x + 1)); [| done | lia]. split; [lia |]. destruct (decide (l_lg x = Lgsz_max)) as [E|]; [| lia].
  apply Z.divide_pos_le in Hd; [| lia]. pose proof (pow_pos (l_lg x) ltac:(unfold Lgsz_min in *; lia)).
  rewrite E in Hd. change (2 ^ (Lgsz_max + 1)) with (2 ^ 32) in Hd. lia.
Qed.

(** The block behind another one. *)
Lemma tiles_next A L B l : tiles A L B -> l ∈ L -> l_end l < B -> exists y, y ∈ L /\ l_addr y = l_end l.
Proof.
  intros H (L1 & L2 & ->)%list_elem_of_split Hlt. apply tiles_app in H as (m & _ & _ & _ & _ & T2).
  destruct L2 as [|y L2]; [simpl in T2; lia |]. exists y. split; [set_solver | apply T2].
Qed.

(** Without live blocks and free buddies every block is maximal. *)
Lemma coal_greedy A L B : tiles A L B -> live L = [] -> coal L -> greedy B L.
Proof.
  intros Ht Hlv Hc.
  assert (Hk : forall n l, l ∈ L -> (2 ^ (Lgsz_min + Z.of_nat n) | l_addr l) -> l_addr l + 2 ^ (Lgsz_min + Z.of_nat n) <= B -> Lgsz_min + Z.of_nat n <= l_lg l).
  { induction n as [|n IH]; intros l Hl Hd He; [destruct (tiles_in _ _ _ _ Ht Hl) as (_ & _ & [? _] & _); lia |].
    replace (Lgsz_min + Z.of_nat (S n)) with (Lgsz_min + Z.of_nat n + 1) in * by lia. set (k := Lgsz_min + Z.of_nat n) in *.
    assert (Hk0 : 0 <= k) by (unfold k, Lgsz_min; lia). pose proof (pow_pos k Hk0) as Hp.
    assert (Ep : 2 ^ (k + 1) = 2 ^ k + 2 ^ k) by (rewrite Z.pow_add_r by lia; lia).
    assert (Hlk : k <= l_lg l) by (apply IH; [done | apply (divide_lower _ (k + 1)); [lia | done] | lia]).
    destruct (decide (l_lg l = k)) as [E|]; [exfalso | lia].
    destruct (tiles_next A L B l Ht Hl) as (y & Hy & Ey); [unfold l_end; rewrite E; lia |]. unfold l_end in Ey. rewrite E in Ey.
    assert (Hyk : k <= l_lg y).
    { apply IH; [done | rewrite Ey | lia]. apply Z.divide_add_r; [| apply Z.divide_refl]. apply (divide_lower _ (k + 1)); [lia | done]. }
    destruct (tiles_in _ _ _ _ Ht Hy) as (_ & _ & _ & Hdy). rewrite Ey in Hdy.
    assert (Hy2 : l_lg y = k).
    { destruct (decide (l_lg y = k)); [done |]. exfalso. apply (even_multiple k (l_addr l)); [done | done |]. apply (divide_lower _ (l_lg y)); [lia | done]. }
    apply (Hc l y Hl Hy); [| by apply (live_nil_free L) | by apply (live_nil_free L)]. split_and!; [congruence | by rewrite E | by rewrite E]. }
  intros l Hl k Hkk Hd He. destruct (tiles_in _ _ _ _ Ht Hl) as (_ & _ & [Hl5 _] & _).
  specialize (Hk (Z.to_nat (k - Lgsz_min)) l Hl). replace (Lgsz_min + Z.of_nat (Z.to_nat (k - Lgsz_min))) with k in Hk by lia. specialize (Hk Hd He). lia.
Qed.

Lemma greedy_unique A L L' B : tiles A L B -> tiles A L' B -> greedy B L -> greedy B L' -> live L = [] -> live L' = [] -> L = L'.
Proof.
  revert A L'. induction L as [|l L IH]; intros A L' Ht Ht' Hg Hg' Hv Hv'.
  - simpl in Ht. subst B. destruct L' as [|l' L']; [done |]. destruct (tiles_in A (l' :: L') A l' Ht') as (? & ? & [? _] & _); [set_solver |].
    pose proof (l_end_gt l' ltac:(done)). lia.
  - destruct L' as [|l' L'].
    { simpl in Ht'. subst B. destruct (tiles_in A (l :: L) A l Ht) as (? & ? & [? _] & _); [set_solver |]. pose proof (l_end_gt l ltac:(done)). lia. }
    assert (Hl : l ∈ l :: L) by set_solver. assert (Hl' : l' ∈ l' :: L') by set_solver.
    pose proof (live_nil_free _ _ Hv Hl) as Fl. pose proof (live_nil_free _ _ Hv' Hl') as Fl'.
    destruct (tiles_in _ _ _ _ Ht Hl) as (_ & He & [? ?] & Hd), (tiles_in _ _ _ _ Ht' Hl') as (_ & He' & [? ?] & Hd').
    destruct Ht as (Ea & _ & _ & Ht), Ht' as (Ea' & _ & _ & Ht').
    assert (El : l_lg l = l_lg l').
    { destruct (Z.lt_trichotomy (l_lg l) (l_lg l')) as [Hlt|[E|Hlt]]; [exfalso | done | exfalso].
      - apply (Hg l Hl (l_lg l')); [lia | by rewrite Ea, <- Ea' | unfold l_end in He'; lia].
      - apply (Hg' l' Hl' (l_lg l)); [lia | by rewrite Ea', <- Ea | unfold l_end in He; lia]. }
    assert (l = l') as -> by (destruct l, l'; simpl in *; congruence). f_equal.
    unfold live in Hv, Hv'. rewrite filter_cons, decide_False in Hv, Hv' by congruence.
    apply (IH (l_end l')); try done; intros x Hx; [apply Hg | apply Hg']; set_solver.
Qed.

(** ** The area *)

#[local] Arguments add_loop : simpl never.

Definition area_start (buf : Z) : Z := (buf + 31) / 32 * 32.
Definition area_end (buf sz : Z) : Z := (buf + sz) / 32 * 32.

Lemma static_pool_ok A : 0 < A < 2 ^ 32 -> pinv static_pool A A [] (fun _ => []).
Proof.
  intros HA. split; try done.
  - split; try done; try lia. intros l Hl. by apply not_elem_of_nil in Hl.
  - split; try done; try (by intros; apply not_elem_of_nil in H); try (intros; constructor).
    intros lg Hl. apply lookup_replicate_2. by apply head_ix_lt.
  - intros lg a. split; intros H; by apply not_elem_of_nil in H.
  - intros l Hl. by apply not_elem_of_nil in Hl.
Qed.

Lemma add_ok buf sz : 0 < buf -> 0 <= sz -> buf + 31 < 2 ^ 32 -> buf + sz < 2 ^ 32 -> area_start buf < area_end buf sz ->
  exists st L, add static_pool buf sz = Ok (0, st) /\ pool_ok st (area_start buf) (area_end buf sz) L /\ live L = [] /\ greedy (area_end buf sz) L.
Proof.
  intros H1 H2 H3 H4 Hlt. unfold add. change (2 ^ Lgsz_min) with (2 ^ 5). rewrite round_up_spec by lia.
  rewrite (wrap_small 32 (buf + sz)) by (unfold in_range; lia). rewrite round_down_spec by (unfold in_range; lia).
  change (2 ^ 5 - 1) with 31. rewrite (wrap_small 32 (buf + 31)) by (unfold in_range; lia). change (2 ^ 5) with 32.
  fold (area_start buf) (area_end buf sz). rewrite (proj2 (Z.leb_gt _ _) Hlt). simpl.
  assert (HA : 0 < area_start buf). { unfold area_start. assert (1 <= (buf + 31) / 32) by (apply Z.div_le_lower_bound; lia). lia. }
  assert (HB : area_end buf sz < 2 ^ 32). { unfold area_end. pose proof (Z.mul_div_le (buf + sz) 32). lia. }
  destruct (add_loop_ok (S (Z.to_nat ((area_end buf sz - area_start buf) / 32))) static_pool (area_start buf) (area_start buf) (area_end buf sz) [] (fun _ => []) 0)
    as (st & L & bl & E & H & Hlv & Hg); try done.
  - apply static_pool_ok. lia.
  - intros l Hl. by apply not_elem_of_nil in Hl.
  - lia.
  - apply Z.divide_factor_r.
  - apply Z.divide_factor_r.
  - change (2 ^ Lgsz_min) with 32. pose proof (Z.div_pos (area_end buf sz - area_start buf) 32). lia.
  - exists st, L. split_and!; [| | done | done].
    + rewrite E. done.
    + exists bl. split; [done |]. apply (greedy_coal (area_start buf) L (area_end buf sz)); try done. apply H.
Qed.

(** ** Clients *)

(** A state of the heap and the buffers its clients hold, as pointer and
    requested size. *)
Definition heap_state : Type := mpool * list (Z * Z).

(** Clients allocate, release a buffer they hold, and write to the bytes of
    their buffers; a write may change what the memory holds at any address
    where a descriptor of 24 bytes would overlap the buffer. *)
Inductive pstep : heap_state -> heap_state -> Prop :=
| ps_alloc st hs sz p st' : 0 < sz -> sz + sizeof_descr < 2 ^ 32 -> alloc st sz = Ok (p, st') ->
    pstep (st, hs) (st', if p =? 0 then hs else (p, sz) :: hs)
| ps_free st h1 p sz h2 n st' : free st p = Ok (n, st') -> pstep (st, h1 ++ (p, sz) :: h2) (st', h1 ++ h2)
| ps_write st hs h :
    (forall a, h !! a <> dheap st !! a -> exists p sz, (p, sz) ∈ hs /\ p - sizeof_descr < a < p + sz) ->
    pstep (st, hs) (MkPool h (regions st) (blocks st) (pool_sz_bytes st), hs).

(** The buffer a client holds is in the live block [l]. *)
Definition holds_leaf (h : Z * Z) (l : leaf) : Prop := h.1 = buf_of l /\ 0 < h.2 /\ h.2 + sizeof_descr <= 2 ^ l_lg l.

Definition safe (A B : Z) (s : heap_state) : Prop :=
  exists L ls, pool_ok s.1 A B L /\ live L ≡ₚ ls /\ Forall2 holds_leaf s.2 ls.

(** The pool reads its memory only at the start of its blocks. *)
Lemma pool_frame st A B L h : pool_ok st A B L -> (forall l, l ∈ L -> h !! l_addr l = dheap st !! l_addr l) ->
  pool_ok (MkPool h (regions st) (blocks st) (pool_sz_bytes st)) A B L.
Proof.
  intros (bl & [H1 H2 H3 H4 H5] & Hc) Hh. exists bl. split; [| done]. split; simpl; try done.
  - destruct H1 as [R1 R2 R3 R4 R5 R6]. split; try done; simpl.
    + eapply rseg_frame; [| done]. intros l Hl. unfold Nf. by rewrite Hh.
    + intros l Hl. destruct (R6 l Hl) as (e & He & Hp). exists e. split; [| done]. unfold Pf. by rewrite Hh.
  - apply (lists_same st); try done. intros lg x Hx. simpl. unfold Bf. apply H3, Hh in Hx. simpl in Hx. by rewrite Hx.
  - intros l Hl Hb. unfold Bf. rewrite Hh by done. by apply H4.
Qed.

Lemma held_live A B st hs p sz : safe A B (st, hs) -> (p, sz) ∈ hs -> exists L ls l, pool_ok st A B L /\ live L ≡ₚ ls /\ Forall2 holds_leaf hs ls /\
  l ∈ live L /\ holds_leaf (p, sz) l.
Proof.
  intros (L & ls & H & Hp & Hf) Hi. simpl in *. apply list_elem_of_lookup in Hi as [i Hi]. destruct (Forall2_lookup_l _ _ _ _ _ Hf Hi) as (l & Hl & Hh).
  exists L, ls, l. split_and!; try done. rewrite Hp. by eapply list_elem_of_lookup_2.
Qed.

Lemma pstep_safe A B s s' : safe A B s -> pstep s s' -> safe A B s'.
Proof.
  intros Hs Hst. destruct Hst as [st hs sz p st' Hsz Hmax E | st h1 p sz h2 n st' E | st hs h Hw].
  - destruct Hs as (L & ls & H & Hp & Hf). simpl in *.
    destruct (alloc_ok st A B L sz H Hsz Hmax) as [[E' _]|(l & st1 & L' & E' & H' & Hb & Hfit & Hlv & _)]; rewrite E' in E; injection E as <- <-.
    + by exists L, ls.
    + assert (Hl : l ∈ live L') by (rewrite Hlv; set_solver). destruct H' as (bl & H' & Hc). apply live_elem in Hl as [Hl _].
      destruct (regs_range _ _ _ _ _ (pi_regs _ _ _ _ _ H') Hl) as (? & _). rewrite (proj2 (Z.eqb_neq (buf_of l) 0)) by (unfold buf_of, sizeof_descr; lia).
      exists L', (l :: ls). split_and!; [by exists bl | by rewrite Hlv, Hp |]. constructor; [| done]. by split_and!.
  - destruct Hs as (L & ls & H & Hp & Hf). simpl in *. apply Forall2_app_inv_l in Hf as (l1 & l2' & F1 & F2 & ->).
    apply Forall2_cons_inv_l in F2 as (l & l2 & Hh & F2 & ->). assert (Hl : l ∈ live L) by (rewrite Hp; set_solver).
    destruct (free_ok st A B L l H Hl) as (st1 & L' & E' & H' & Hlv). destruct Hh as (Ep & _). simpl in Ep. rewrite Ep, E' in E. injection E as <- <-.
    exists L', (l1 ++ l2). split_and!; [done | | by apply Forall2_app]. apply (Permutation_cons_inv (a := l)). by rewrite Hlv, Hp, Permutation_middle.
  - pose proof Hs as (L & ls & H & Hp & Hf). exists L, ls. split_and!; try done. simpl in *. apply pool_frame; [done |]. intros l Hl.
    destruct (decide (h !! l_addr l = dheap st !! l_addr l)) as [|Hne]; [done |]. exfalso. destruct (Hw _ Hne) as (p & sz & Hin & Hr).
    apply list_elem_of_lookup in Hin as [i Hi]. destruct (Forall2_lookup_l _ _ _ _ _ Hf Hi) as (x & Hx & (Ep & _ & Hfit)). simpl in *.
    assert (Hxl : x ∈ live L) by (rewrite Hp; by eapply list_elem_of_lookup_2). apply live_elem in Hxl as [Hxl _].
    destruct H as (bl & H & _). destruct (regs_range _ _ _ _ _ (pi_regs _ _ _ _ _ H) Hl) as (_ & He & _). unfold buf_of, sizeof_descr in *.
    destruct (tiles_disjoint _ _ _ _ _ (rg_tiles _ _ _ _ (pi_regs _ _ _ _ _ H)) Hxl Hl) as [->|[Hc|Hc]]; unfold l_end in *; lia.
Qed.

Lemma reach_safe A B s s' : safe A B s -> rtc pstep s s' -> safe A B s'.
Proof. intros H Hr. induction Hr as [s|s s1 s2 H1 _ IH]; [done |]. by apply IH, (pstep_safe _ _ s). Qed.

Lemma start_safe buf size st0 : 0 < buf -> 0 <= size -> buf + 31 < 2 ^ 32 -> buf + size < 2 ^ 32 -> area_start buf < area_end buf size ->
  add static_pool buf size = Ok (0, st0) -> safe (area_start buf) (area_end buf size) (st0, []).
Proof.
  intros H1 H2 H3 H4 H5 E. destruct (add_ok buf size H1 H2 H3 H4 H5) as (st & L & E' & H & Hlv & _). rewrite E' in E. injection E as <-.
  exists L, []. split_and!; [done | by rewrite Hlv | constructor].
Qed.

Lemma area_inside buf size : 0 < buf -> 0 <= size -> buf <= area_start buf /\ area_end buf size <= buf + size.
Proof.
  intros. unfold area_start, area_end. pose proof (Z.mul_div_le (buf + size) 32). pose proof (Z.div_mod (buf + 31) 32). pose proof (Z.mod_pos_bound (buf + 31) 32). lia.
Qed.



(** C24: the heap does not fragment for good: when the clients have released
    everything, the pool has the same blocks as at the beginning, whatever
    happened in between; so its counter is back, and a request is refused
    exactly if the fresh pool would refuse it. *)
Theorem heap_whole buf size st0 st :
  0 < buf -> 0 <= size -> buf + 31 < 2 ^ 32 -> buf + size < 2 ^ 32 -> area_start buf < area_end buf size ->
  add static_pool buf size = Ok (0, st0) -> rtc pstep (st0, []) (st, []) ->
  pool_sz_bytes st = pool_sz_bytes st0 /\
  forall sz, 0 < sz -> sz + sizeof_descr < 2 ^ 32 ->
    exists p st' p0 st0', alloc st sz = Ok (p, st') /\ alloc st0 sz = Ok (p0, st0') /\ (p = 0 <-> p0 = 0).
Proof.
  intros H1 H2 H3 H4 H5 Hadd Hr. pose proof (reach_safe _ _ _ _ (start_safe buf size st0 H1 H2 H3 H4 H5 Hadd) Hr) as (L & ls & H & Hp & Hf).
  destruct (add_ok buf size H1 H2 H3 H4 H5) as (st1 & L0 & E' & H0 & Hlv0 & Hg0). rewrite E' in Hadd. injection Hadd as ->. simpl in *.
  apply Forall2_nil_inv_l in Hf as ->. apply Permutation_nil_r in Hp. destruct H as (bl & Hi & Hc), H0 as (bl0 & Hi0 & Hc0).
  pose proof (rg_tiles _ _ _ _ (pi_regs _ _ _ _ _ Hi)) as Ht. pose proof (rg_tiles _ _ _ _ (pi_regs _ _ _ _ _ Hi0)) as Ht0.
  assert (L = L0) as -> by (eapply greedy_unique; try done; by eapply coal_greedy).
  split; [by rewrite (pi_size _ _ _ _ _ Hi), (pi_size _ _ _ _ _ Hi0) |]. intros sz Hsz Hmax.
  assert (Hbuf : forall l s s' L', alloc s sz = Ok (buf_of l, s') -> pool_ok s' (area_start buf) (area_end buf size) L' -> l ∈ L' -> buf_of l <> 0).
  { intros l s s' L' _ (b & Hb & _) Hl. destruct (regs_range _ _ _ _ _ (pi_regs _ _ _ _ _ Hb) Hl) as (? & _). unfold buf_of, sizeof_descr. lia. }
  assert (Hin : forall l L' K, live L' ≡ₚ l :: live K -> l ∈ L') by (intros l L' K E; apply live_elem; rewrite E; set_solver).
  destruct (alloc_ok st _ _ L0 sz (ex_intro _ bl (conj Hi Hc)) Hsz Hmax) as [[E Hno]|(l & s1 & K & E & HK & _ & _ & Hlv & x & Hx & Fx & Sx)];
  destruct (alloc_ok st0 _ _ L0 sz (ex_intro _ bl0 (conj Hi0 Hc0)) Hsz Hmax) as [[E0 Hno0]|(l0 & s0 & K0 & E0 & HK0 & _ & _ & Hlv0' & x0 & Hx0 & Fx0 & Sx0)];
    do 4 eexists; (split_and!; [exact E | exact E0 |]).
  - done.
  - specialize (Hno x0 Hx0 Fx0). lia.
  - specialize (Hno0 x Hx Fx). lia.
  - pose proof (Hbuf l st s1 K E HK (Hin _ _ _ Hlv)). pose proof (Hbuf l0 st0 s0 K0 E0 HK0 (Hin _ _ _ Hlv0')). tauto.
Qed.

(** ** Runs *)

Definition pool_after (r : res (Z * mpool)) : mpool := match r with Ok (_, s) => s | Stop _ => static_pool end.

(** The pool of the examples: 0x1010 .. 0x1100, then two buffers of 40 and 20
    bytes, then the first one released. *)
Definition ex0 : mpool := pool_after (add static_pool 0x1010 0xf0).
Definition ex1 : mpool := pool_after (alloc ex0 40).
Definition ex2 : mpool := pool_after (alloc ex1 20).
Definition ex3 : mpool := pool_after (free ex2 0x1058).
Definition ex4 : mpool := pool_after (free ex3 0x10d8).

Example ex2_blocks : dump_regions 20 ex2 (regions ex2) = [(0x1020, 5, false); (0x1040, 6, true); (0x1080, 6, false); (0x10c0, 6, true)].
Proof. vm_compute. reflexivity. Qed.

Lemma ex_run : rtc pstep (ex0, []) (ex3, [(0x10d8, 20)]).
Proof.
  eapply rtc_l; [apply (ps_alloc ex0 [] 40 0x1058 ex1); [done | done | vm_compute; reflexivity] |].
  eapply rtc_l; [apply (ps_alloc ex1 [(0x1058, 40)] 20 0x10d8 ex2); [done | done | vm_compute; reflexivity] |].
  eapply rtc_l; [apply (ps_free ex2 [(0x10d8, 20)] 0x1058 40 [] 64 ex3); vm_compute; reflexivity |]. apply rtc_refl.
Qed.

(** The pool merges blocks of different areas: combine does not check that
    the neighbour in the region list is adjacent.  With two areas of 32 bytes,
    0x1000 and 0x8020, released blocks become one block of 64 bytes at 0x1000;
    an allocation then returns a buffer that reaches 32 bytes beyond the first
    area, into memory that was never given to the pool. *)
Theorem areas_merged : exists st1 st2 p,
  (a ← add static_pool 0x1000 32; b ← add a.2 0x8020 32; c ← alloc b.2 8; d ← alloc c.2 8; e ← free d.2 c.1; f ← free e.2 d.1; Ok (b.2, f.2)) = Ok (st1, st2) /\
  dump_regions 20 st1 (regions st1) = [(0x1000, 5, false); (0x8020, 5, false)] /\ dump_regions 20 st2 (regions st2) = [(0x1000, 6, false)] /\
  (r ← alloc st2 40; Ok r.1) = Ok p /\ p = 0x1018.
Proof. do 3 eexists. split; [vm_compute; reflexivity |]. vm_compute. done. Qed.

(** The size of a request wraps: 0xfffffff0 bytes are served with a block of 32. *)
Example alloc_wraps : (r ← alloc ex0 0xfffffff0; Ok (r.1, dump_regions 20 r.2 (regions r.2))) =
  Ok (0x1038, [(0x1020, 5, true); (0x1040, 6, false); (0x1080, 7, false)]).
Proof. vm_compute. reflexivity. Qed.

(** A second release of a buffer fails the assertion while its block stands. *)
Example double_free : (r ← free ex2 0x10d8; free r.2 0x10d8) = Stop FAssert.
Proof. vm_compute. reflexivity. Qed.

(** ** Witnesses *)


Definition small : mpool := pool_after (add static_pool 0x1000 64).

Lemma small_ok : pool_ok small 0x1000 0x1040 [Leaf 0x1000 6 false].
Proof.
  destruct (add_ok 0x1000 64 eq_refl ltac:(done) eq_refl eq_refl eq_refl) as (st & L & E & H & Hlv & Hg). unfold small. rewrite E. cbn [pool_after].
  assert (L = [Leaf 0x1000 6 false]) as <-; [| exact H]. destruct H as (bl & H & _).
  apply (greedy_unique 0x1000 L [Leaf 0x1000 6 false] 0x1040).
  - exact (rg_tiles _ _ _ _ (pi_regs _ _ _ _ _ H)).
  - split_and!; [reflexivity | done | done | by exists 64 | reflexivity].
  - exact Hg.
  - intros l ->%list_elem_of_singleton k Hk _ Hle. simpl in *. pose proof (Z.pow_le_mono_r 2 7 k). lia.
  - exact Hlv.
  - reflexivity.
Qed.

Lemma small_has_room : exists l, l ∈ [Leaf 0x1000 6 false] /\ l_busy l = false /\ 8 + sizeof_descr <= 2 ^ l_lg l.
Proof. exists (Leaf 0x1000 6 false). split_and!; [set_solver | done | done]. Qed.


Lemma heap_whole_witness : pool_sz_bytes ex4 = 224 /\ pool_sz_bytes ex4 = pool_sz_bytes ex0.
Proof.
  split; [vm_compute; reflexivity |]. apply (heap_whole 0x1010 0xf0 ex0 ex4); try (vm_compute; done).
  eapply rtc_r; [exact ex_run |]. apply (ps_free ex3 [] 0x10d8 20 [] 64 ex4). vm_compute. reflexivity.
Defined.
