(* ===== verification/PagePool.v ===== *)
(** lib/containers/page_pool.h: Page_pool_t, the pool of flex pages of a task
    (one list_t of at most 32 pages per size), on the contract [ListSpec] of
    the lists; and its contract: a set of free bytes with their rights. *)

From Stdlib Require Import ZArith Lia Bool.
From stdpp Require Import base list numbers relations.
From S2P Require Import Prelude SysUtils ListSpec L4Types.

Definition Pg_lgsz_min : Z := 12.
Definition Pg_lgsz_max : Z := 31.
Definition Pg_sizes_num : Z := Pg_lgsz_max - Pg_lgsz_min + 1.
Definition Pg_list_max : nat := 32.

Record ppool := MkPP { fpages : list (alist Z); pg_pool_sz : Z }.

Definition pg_ix (lg : Z) : nat := Z.to_nat (lg - Pg_lgsz_min).
Definition get_pgs (st : ppool) (lg : Z) : res (alist Z) :=
  if lg <? Pg_lgsz_min then Stop FMem else from_opt FMem (fpages st !! pg_ix lg).
Definition set_pgs (st : ppool) (lg : Z) (l : alist Z) : ppool := MkPP (<[pg_ix lg := l]> (fpages st)) (pg_pool_sz st).

(** split: the first page of the list [pgs] of size [lgsz] becomes two. *)
Definition split_page (st : ppool) (lgsz : Z) : res ppool :=
  pgs ← get_pgs st lgsz;
  let it := begin pgs in
  pg1 ← deref pgs it;
  let pg2 := pg1 in
  r ← erase pgs it;
  let st := set_pgs st lgsz r.2 in
  let new_sz := lgsz - 1 in
  let pg1 := fpage_set_log2sz pg1 new_sz in
  let pg2 := fpage_set_log2sz pg2 new_sz in
  let pg2 := fpage_set_addr pg2 (u32 (fpage_addr pg1 + fpage_size pg2)) in
  l ← get_pgs st new_sz;
  l ← push_back l pg1;
  l ← push_back l pg2;
  Ok (set_pgs st new_sz l).

Fixpoint pg_split (fuel : nat) (st : ppool) (lgsz : Z) : res (bool * ppool) :=
  if (lgsz <? Pg_lgsz_min) || (Pg_lgsz_max <? lgsz) then Ok (false, st) else
  match fuel with
  | O => Stop FFuel
  | S f =>
      pgs ← get_pgs st lgsz;
      st ← (if empty pgs then r ← pg_split f st (lgsz + 1); Ok r.2 else Ok st);
      pgs ← get_pgs st lgsz;
      if empty pgs then Ok (false, st) else
      st ← split_page st lgsz;
      Ok (true, st)
  end.

Definition pg_lgsz (sz_bytes : Z) : res Z :=
  if sz_bytes =? 0 then Ok 0 else
  lgsz ← low_bit_loop 32 sz_bytes 0;
  Ok (if negb (get_size lgsz =? sz_bytes) then 0 else lgsz).

Definition alloc_lgsz (st : ppool) (lgsz : Z) : res (Z * ppool) :=
  if (lgsz <? Pg_lgsz_min) || (Pg_lgsz_max <? lgsz) then Ok (Fpage_nil, st)
  else if pg_pool_sz st <? get_size lgsz then Ok (Fpage_nil, st)
  else
    pgs ← get_pgs st lgsz;
    st ← (if empty pgs then r ← pg_split (Z.to_nat Pg_sizes_num) st (lgsz + 1); Ok r.2 else Ok st);
    pgs ← get_pgs st lgsz;
    if negb (empty pgs) then
      let it := begin pgs in
      pg ← deref pgs it;
      r ← erase pgs it;
      let st := set_pgs st lgsz r.2 in
      Ok (pg, MkPP (fpages st) (u32 (pg_pool_sz st - fpage_size pg)))
    else Ok (Fpage_nil, st).

Definition pg_add (st : ppool) (fpage : Z) : res ppool :=
  _ ← wassert (Pg_lgsz_min <=? fpage_log2sz fpage);
  _ ← wassert (fpage_log2sz fpage <=? Pg_lgsz_max);
  l ← get_pgs st (fpage_log2sz fpage);
  l ← push_back l fpage;
  let st := set_pgs st (fpage_log2sz fpage) l in
  Ok (MkPP (fpages st) (u32 (pg_pool_sz st + fpage_size fpage))).

Definition pg_alloc (st : ppool) (sz : Z) : res (Z * ppool) :=
  lg ← pg_lgsz sz; alloc_lgsz st lg.

(** The constructor: empty lists, each with the 32 items of its own memory. *)
Definition pg_ctor (mem : Z -> list Z) : ppool :=
  MkPP ((fun i => MkA [] (mem (Z.of_nat i + Pg_lgsz_min))) <$> seq 0 (Z.to_nat Pg_sizes_num)) 0.

(** ** Flex pages and their halves *)

(** A memory page of 2^k bytes. *)
Definition good (k p : Z) : Prop := in_range 32 p /\ fpage_log2sz p = k /\ (2 ^ k | fpage_addr p).

Lemma good_range k p : Pg_lgsz_min <= k <= Pg_lgsz_max -> good k p ->
  fpage_size p = 2 ^ k /\ 0 <= fpage_addr p /\ fpage_addr p + 2 ^ k <= 2 ^ 32 /\ 0 < 2 ^ k.
Proof.
  unfold Pg_lgsz_min, Pg_lgsz_max. intros Hk (Hr & El & Hd). assert (Hp : 0 < 2 ^ k) by (apply Z.pow_pos_nonneg; lia).
  assert (Ha : 0 <= fpage_addr p < 2 ^ 32) by (apply wrap_range; lia). split_and!; try done; try lia.
  - unfold fpage_size. rewrite El. apply get_size_pow2. lia.
  - destruct Hd as [q Eq]. assert (E32 : 2 ^ 32 = 2 ^ (32 - k) * 2 ^ k) by (rewrite <- Z.pow_add_r by lia; f_equal; lia).
    rewrite Eq in *. rewrite E32 in *. assert (q < 2 ^ (32 - k)) by (apply (Z.mul_lt_mono_pos_r (2 ^ k)); lia). nia.
Qed.

Lemma half_page k p : Pg_lgsz_min < k <= Pg_lgsz_max -> good k p ->
  let p1 := fpage_set_log2sz p (k - 1) in
  let p2 := fpage_set_addr p1 (u32 (fpage_addr p1 + fpage_size p1)) in
  good (k - 1) p1 /\ good (k - 1) p2 /\ fpage_addr p1 = fpage_addr p /\ fpage_addr p2 = fpage_addr p + 2 ^ (k - 1) /\
  fpage_access p1 = fpage_access p /\ fpage_access p2 = fpage_access p.
Proof.
  intros Hk Hg p1 p2. unfold Pg_lgsz_min, Pg_lgsz_max in Hk. pose proof (good_range k p ltac:(unfold Pg_lgsz_min, Pg_lgsz_max; lia) Hg) as (_ & Ha & He & _).
  destruct Hg as (Hr & El & Hd).
  assert (R1 : in_range 32 p1) by (apply bf_set_range; [lia | lia | lia | done]).
  assert (L1 : fpage_log2sz p1 = k - 1).
  { unfold p1, fpage_set_log2sz, fpage_log2sz. rewrite bf_get_set_same by lia. apply wrap_small. unfold in_range. lia. }
  assert (A1 : fpage_addr p1 = fpage_addr p) by (rewrite !fpage_addr_get; unfold p1, fpage_set_log2sz; by rewrite bf_get_set_other by lia).
  assert (Pk : 2 ^ k = 2 * 2 ^ (k - 1)) by (rewrite <- Z.pow_succ_r by lia; f_equal; lia).
  assert (Pp : 0 < 2 ^ (k - 1)) by (apply Z.pow_pos_nonneg; lia).
  assert (Dk : (2 ^ (k - 1) | 2 ^ k)) by (exists 2; lia).
  assert (D1 : (2 ^ (k - 1) | fpage_addr p)) by (by transitivity (2 ^ k)).
  assert (S1 : fpage_size p1 = 2 ^ (k - 1)) by (unfold fpage_size; rewrite L1; apply get_size_pow2; lia).
  assert (Ev : u32 (fpage_addr p1 + fpage_size p1) = fpage_addr p + 2 ^ (k - 1)).
  { rewrite A1, S1. apply wrap_small. unfold in_range. lia. }
  assert (R2 : in_range 32 p2) by (apply bf_set_range; [lia | lia | lia | done]).
  assert (L2 : fpage_log2sz p2 = k - 1) by (unfold p2, fpage_set_addr, fpage_log2sz; rewrite bf_get_set_other by lia; exact L1).
  assert (A2 : fpage_addr p2 = fpage_addr p + 2 ^ (k - 1)).
  { rewrite fpage_addr_get. unfold p2, fpage_set_addr. rewrite bf_get_set_same, Ev, Z.shiftr_div_pow2 by lia.
    assert (D10 : (2 ^ 10 | fpage_addr p + 2 ^ (k - 1))).
    { transitivity (2 ^ (k - 1)); [exists (2 ^ (k - 1 - 10)); rewrite <- Z.pow_add_r by lia; f_equal; lia |]. apply Z.divide_add_r; [done | apply Z.divide_refl]. }
    destruct D10 as [q Eq]. rewrite Eq, Z.div_mul by lia. rewrite wrap_small by (unfold in_range; lia). done. }
  assert (D2 : (2 ^ (k - 1) | fpage_addr p2)) by (rewrite A2; apply Z.divide_add_r; [done | apply Z.divide_refl]). rewrite <- A1 in D1.
  refine (conj (conj R1 (conj L1 D1)) (conj (conj R2 (conj L2 D2)) (conj A1 (conj A2 (conj _ _))))).
  - unfold p1, fpage_set_log2sz, fpage_access. by rewrite bf_get_set_other by lia.
  - unfold p2, p1, fpage_set_addr, fpage_set_log2sz, fpage_access. by rewrite !bf_get_set_other by lia.
Qed.

(** ** The memory a list of pages stands for *)

Definition apart (p q : Z) : Prop := fpage_addr p + fpage_size p <= fpage_addr q \/ fpage_addr q + fpage_size q <= fpage_addr p.

Lemma apart_sym p q : apart p q -> apart q p.
Proof. unfold apart. tauto. Qed.

Definition disj : list Z -> Prop := pairwise apart.

#[export] Instance disj_proper : Proper ((≡ₚ) ==> iff) disj.
Proof. intros l l' Hp. split; apply pairwise_perm; (exact apart_sym || done). Qed.

Definition bytes (l : list Z) : Z := foldr (fun p n => fpage_size p + n) 0 l.

#[export] Instance bytes_proper : Proper ((≡ₚ) ==> (=)) bytes.
Proof. intros l l' Hp. induction Hp; simpl in *; lia. Qed.

Lemma bytes_nonneg l : 0 <= bytes l.
Proof. induction l as [|p l IH]; simpl; [done |]. assert (0 <= fpage_size p) by (apply wrap_range; lia). lia. Qed.

Definition covers (l : list Z) (x a : Z) : Prop := exists p, p ∈ l /\ fpage_has p x /\ fpage_access p = a.

Lemma covers_cons p l x a : covers (p :: l) x a <-> (fpage_has p x /\ fpage_access p = a) \/ covers l x a.
Proof. unfold covers. split; [intros (q & [->|Hq]%elem_of_cons & ?); eauto | intros [?|(q & ? & ?)]; [exists p | exists q]; set_solver]. Qed.

#[export] Instance covers_proper : Proper ((≡ₚ) ==> (=) ==> (=) ==> iff) covers.
Proof. intros l l' Hp x ? <- a ? <-. unfold covers. by setoid_rewrite Hp. Qed.

Record same_mem (l l' : list Z) : Prop := {
  sm_covers : forall x a, covers l x a <-> covers l' x a;
  sm_bytes : bytes l' = bytes l;
  sm_disj : disj l -> disj l' }.

Lemma same_mem_refl l : same_mem l l.
Proof. by split. Qed.
Lemma same_mem_trans l1 l2 l3 : same_mem l1 l2 -> same_mem l2 l3 -> same_mem l1 l3.
Proof. intros [A B C] [A' B' C']. split; [intros; by rewrite A, A' | congruence | auto]. Qed.

Lemma half_same k p R : Pg_lgsz_min < k <= Pg_lgsz_max -> good k p ->
  let p1 := fpage_set_log2sz p (k - 1) in
  let p2 := fpage_set_addr p1 (u32 (fpage_addr p1 + fpage_size p1)) in
  same_mem (p :: R) (p1 :: p2 :: R).
Proof.
  intros Hk Hg p1 p2. destruct (half_page k p Hk Hg) as (G1 & G2 & A1 & A2 & C1 & C2). fold p1 p2 in G1, G2, A1, A2, C1, C2.
  destruct (good_range k p ltac:(lia) Hg) as (S0 & _). destruct (good_range (k - 1) p1 ltac:(lia) G1) as (S1 & _ & _ & Hp). destruct (good_range (k - 1) p2 ltac:(lia) G2) as (S2 & _).
  assert (Ek : 2 ^ k = 2 ^ (k - 1) + 2 ^ (k - 1)). { unfold Pg_lgsz_min in Hk. replace k with (k - 1 + 1) at 1 by lia. rewrite Z.pow_add_r by lia. lia. }
  split.
  - intros x a. rewrite !covers_cons. unfold fpage_has. rewrite A1, A2, S0, S1, S2, C1, C2, Ek. clear. split.
    + intros [[H E]|H]; [| by right; right]. destruct (Z.lt_ge_cases x (fpage_addr p + 2 ^ (k - 1))); [left | right; left]; split; lia || done.
    + intros [[H E]|[[H E]|H]]; [left | left | by right]; split; lia || done.
  - simpl. lia.
  - simpl. intros [F D]. split_and!; try done.
    + constructor; [unfold apart; lia |]. eapply Forall_impl; [exact F |]. unfold apart. intros q. rewrite A1, S0, S1. lia.
    + eapply Forall_impl; [exact F |]. unfold apart. intros q. rewrite A2, S0, S2. lia.
Qed.

(** ** The invariant *)

Definition pages (st : ppool) : list Z := fpages st ≫= (fun A => vals (busy A)).
Definition pg_in_sizes (lg : Z) : Prop := Pg_lgsz_min <= lg <= Pg_lgsz_max.

Record list_ok (lg : Z) (l : alist Z) : Prop := {
  lo_cap : (length (busy l) + length (free l) = Pg_list_max)%nat;
  lo_good : Forall (good lg) (vals (busy l)) }.

Record pool_lists (st : ppool) : Prop := {
  pl_len : length (fpages st) = Z.to_nat Pg_sizes_num;
  pl_ok : forall lg l, pg_in_sizes lg -> fpages st !! pg_ix lg = Some l -> list_ok lg l }.

Record pg_inv (st : ppool) : Prop := {
  pg_lists : pool_lists st;
  pg_disj : disj (pages st);
  pg_small : bytes (pages st) < 2 ^ 32;
  pg_count : pg_pool_sz st = bytes (pages st) }.

Lemma pg_ix_lt lg : pg_in_sizes lg -> (pg_ix lg < Z.to_nat Pg_sizes_num)%nat.
Proof. unfold pg_in_sizes, pg_ix, Pg_sizes_num, Pg_lgsz_min, Pg_lgsz_max. lia. Qed.
Lemma pg_ix_inj i j : pg_in_sizes i -> pg_in_sizes j -> pg_ix i = pg_ix j -> i = j.
Proof. unfold pg_in_sizes, pg_ix, Pg_lgsz_min, Pg_lgsz_max. lia. Qed.

Lemma get_pgs_ok st lg : pool_lists st -> pg_in_sizes lg ->
  exists l, get_pgs st lg = Ok l /\ fpages st !! pg_ix lg = Some l /\ list_ok lg l.
Proof.
  intros H Hl. unfold get_pgs. rewrite (proj2 (Z.ltb_ge lg Pg_lgsz_min)) by apply Hl.
  destruct (lookup_lt_is_Some_2 (fpages st) (pg_ix lg)) as [l E]; [rewrite (pl_len _ H); by apply pg_ix_lt |]. rewrite E. exists l. split_and!; try done.
  by apply (pl_ok _ H).
Qed.

Lemma get_set_pgs st lg l l0 : fpages st !! pg_ix lg = Some l0 -> pg_in_sizes lg -> get_pgs (set_pgs st lg l) lg = Ok l.
Proof.
  intros E Hl. unfold get_pgs. rewrite (proj2 (Z.ltb_ge lg Pg_lgsz_min)) by apply Hl. simpl. rewrite list_lookup_insert_eq; [done |]. by eapply lookup_lt_Some.
Qed.

Lemma get_set_pgs_ne st lg lg' l : pg_in_sizes lg -> pg_in_sizes lg' -> lg <> lg' -> fpages (set_pgs st lg l) !! pg_ix lg' = fpages st !! pg_ix lg'.
Proof. intros H1 H2 Hn. simpl. rewrite list_lookup_insert_ne; [done |]. intros E. by apply Hn, pg_ix_inj. Qed.

Lemma set_pgs_lists st lg l : pool_lists st -> pg_in_sizes lg -> list_ok lg l -> pool_lists (set_pgs st lg l).
Proof.
  intros [H1 H2] Hl Ho. split; simpl; [by rewrite length_insert |]. intros i l' Hi E. destruct (decide (i = lg)) as [->|Hn].
  - rewrite list_lookup_insert_eq in E by (rewrite H1; by apply pg_ix_lt). by injection E as <-.
  - rewrite list_lookup_insert_ne in E by (intros E'; apply pg_ix_inj in E'; [by subst | done | done]). by apply H2.
Qed.

(** The pages of the other lists. *)
Lemma pages_set st lg l : fpages st !! pg_ix lg = Some l ->
  exists R, pages st ≡ₚ vals (busy l) ++ R /\ forall l', pages (set_pgs st lg l') ≡ₚ vals (busy l') ++ R.
Proof.
  intros E. apply list_elem_of_split_length in E as (l1 & l2 & El & Hi). exists ((l1 ≫= (fun A => vals (busy A))) ++ (l2 ≫= (fun A => vals (busy A)))).
  unfold pages. simpl. rewrite El. split.
  - rewrite bind_app, bind_cons. rewrite !(assoc (++)). by rewrite (Permutation_app_comm (vals (busy l))).
  - intros l'. rewrite Hi, insert_app_r_alt, Nat.sub_diag by lia. simpl. rewrite bind_app, bind_cons. rewrite !(assoc (++)). by rewrite (Permutation_app_comm (vals (busy l'))).
Qed.

(** *** The first page of a list *)

Lemma take_first lg l a v t : list_ok lg l -> busy l = (a, v) :: t ->
  begin l = a /\ deref l a = Ok v /\ empty l = false /\ exists n, erase l a = Ok (n, MkA t (a :: free l)) /\ list_ok lg (MkA t (a :: free l)) /\ good lg v.
Proof.
  intros [C G] E. unfold begin, deref, erase, empty, next, size. rewrite E. simpl. rewrite !Z.eqb_refl. simpl. split_and!; try done.
  rewrite E in C, G. apply Forall_cons in G as [Gv G]. eexists. split; [done |]. split; [| done]. split; simpl in *; [lia | done].
Qed.

Lemma push_two lg l p q : list_ok lg l -> busy l = [] -> good lg p -> good lg q ->
  exists l', (l1 ← push_back l p; push_back l1 q) = Ok l' /\ list_ok lg l' /\ vals (busy l') = [p; q].
Proof.
  intros [C _] E Gp Gq. rewrite E in C. unfold push_back, take_free. unfold Pg_list_max in C.
  destruct (free l) as [|f [|g fs]] eqn:Ef; simpl in C; try lia. simpl. rewrite E. simpl. eexists. split; [done |]. split; [| done].
  split; simpl; [unfold Pg_list_max; lia |].
  apply Forall_cons. split; [done |]. apply Forall_singleton. done.
Qed.

Lemma empty_nil (l : alist Z) : empty l = true <-> busy l = [].
Proof. unfold empty, size. rewrite Nat.eqb_eq. by rewrite length_zero_iff_nil. Qed.

(** The list of one size of the pool. *)
Definition list_of (st : ppool) (lg : Z) : list (Z * Z) := match fpages st !! pg_ix lg with Some l => busy l | None => [] end.

Lemma split_page_ok st lg : pool_lists st -> Pg_lgsz_min < lg <= Pg_lgsz_max -> list_of st lg <> [] -> list_of st (lg - 1) = [] ->
  exists st', split_page st lg = Ok st' /\ pool_lists st' /\ pg_pool_sz st' = pg_pool_sz st /\ same_mem (pages st) (pages st') /\ list_of st' (lg - 1) <> [] /\
  (forall j, pg_in_sizes j -> j < lg - 1 -> list_of st' j = list_of st j).
Proof.
  intros H Hk Hne Hem. assert (Hs : pg_in_sizes lg) by (unfold pg_in_sizes; lia). assert (Hs1 : pg_in_sizes (lg - 1)) by (unfold pg_in_sizes; lia).
  destruct (get_pgs_ok st lg H Hs) as (l & E & El & Ol), (get_pgs_ok st (lg - 1) H Hs1) as (m & _ & Em & Om).
  unfold list_of in Hne, Hem. rewrite El in Hne. rewrite Em in Hem. destruct (busy l) as [|[a v] t] eqn:Eb; [done |].
  destruct (take_first lg l a v t Ol Eb) as (E1 & E2 & _ & n & E3 & O3 & Gv). unfold split_page. rewrite E. simpl. rewrite E1, E2. simpl. rewrite E3. simpl.
  set (s1 := set_pgs st lg (MkA t (a :: free l))). assert (Em1 : fpages s1 !! pg_ix (lg - 1) = Some m) by (unfold s1; rewrite get_set_pgs_ne by (done || lia); done).
  unfold get_pgs. rewrite (proj2 (Z.ltb_ge (lg - 1) Pg_lgsz_min)) by lia. rewrite Em1. simpl.
  destruct (half_page lg v Hk Gv) as (G1 & G2 & _). set (p1 := fpage_set_log2sz v (lg - 1)) in *. set (p2 := fpage_set_addr p1 _) in *.
  destruct (push_two (lg - 1) m p1 p2 Om Hem G1 G2) as (m' & E4 & O4 & V4). apply bind_Ok in E4 as (m1 & E4 & E5). rewrite E4. simpl. rewrite E5. simpl.
  eexists. split; [done |]. assert (L1 : pool_lists s1) by (by apply set_pgs_lists). split_and!.
  - by apply set_pgs_lists.
  - done.
  - destruct (pages_set st lg l El) as (R & P0 & P1), (pages_set s1 (lg - 1) m Em1) as (R1 & Q0 & Q1).
    specialize (P1 (MkA t (a :: free l))). fold s1 in P1. specialize (Q1 m'). rewrite Hem in Q0. simpl in Q0. rewrite V4 in Q1. rewrite Eb in P0. simpl in P0, P1.
    assert (E6 : pages (set_pgs s1 (lg - 1) m') ≡ₚ p1 :: p2 :: vals t ++ R) by (rewrite Q1, <- Q0, P1; done).
    pose proof (half_same lg v (vals t ++ R) Hk Gv) as [S1 S2 S3]. fold p1 p2 in S1, S2, S3. split.
    + intros x c. by rewrite P0, E6.
    + by rewrite P0, E6.
    + by rewrite P0, E6.
  - unfold list_of. simpl. rewrite list_lookup_insert_eq by (by eapply lookup_lt_Some). intros Ev. by rewrite Ev in V4.
  - intros j Hj Hlt. unfold list_of. unfold s1. rewrite !get_set_pgs_ne by (done || lia). done.
Qed.

Definition has_page (st : ppool) (lg : Z) : Prop := exists k, lg <= k <= Pg_lgsz_max /\ list_of st k <> [].

Lemma pg_split_eq f st lg : pg_in_sizes lg -> pg_split (S f) st lg =
  (pgs ← get_pgs st lg; st ← (if empty pgs then r ← pg_split f st (lg + 1); Ok r.2 else Ok st);
   pgs ← get_pgs st lg; if empty pgs then Ok (false, st) else st ← split_page st lg; Ok (true, st)).
Proof. intros [H1 H2]. cbn [pg_split]. rewrite (proj2 (Z.ltb_ge lg _)), (proj2 (Z.ltb_ge _ lg)) by lia. done. Qed.

Lemma list_of_get st lg : pool_lists st -> pg_in_sizes lg -> exists l, get_pgs st lg = Ok l /\ (empty l = true <-> list_of st lg = []).
Proof. intros H Hs. destruct (get_pgs_ok st lg H Hs) as (l & E & El & _). exists l. split; [done |]. unfold list_of. rewrite El. apply empty_nil. Qed.

Lemma pg_split_ok fuel st lg : pool_lists st -> Pg_lgsz_min < lg -> Pg_lgsz_max + 1 - lg <= Z.of_nat fuel -> list_of st (lg - 1) = [] ->
  (has_page st lg -> exists st', pg_split fuel st lg = Ok (true, st') /\ pool_lists st' /\ pg_pool_sz st' = pg_pool_sz st /\
     same_mem (pages st) (pages st') /\ list_of st' (lg - 1) <> [] /\ (forall j, pg_in_sizes j -> j < lg - 1 -> list_of st' j = list_of st j)) /\
  (~ has_page st lg -> pg_split fuel st lg = Ok (false, st)).
Proof.
  revert st lg. induction fuel as [|f IH]; intros st lg H Hk Hf Hem; destruct (Z.le_gt_cases lg Pg_lgsz_max) as [Hl|Hl]; try lia.
  1, 3: split; [intros (k & ? & _); lia | intros _; simpl; rewrite (proj2 (Z.ltb_lt Pg_lgsz_max lg)) by lia; by rewrite orb_true_r].
  assert (Hs : pg_in_sizes lg) by (unfold pg_in_sizes; lia). rewrite pg_split_eq by done.
  destruct (list_of_get st lg H Hs) as (l & E & Hemp). rewrite E. simpl. destruct (empty l) eqn:Ee.
  - assert (Hnil : list_of st lg = []) by tauto. destruct (IH st (lg + 1) H ltac:(lia) ltac:(lia)) as [IH1 IH2]; [by replace (lg + 1 - 1) with lg by lia |].
    assert (Hup : has_page st lg <-> has_page st (lg + 1)).
    { split; intros (k & ? & Hne); exists k; (split; [| done]); [| lia]. destruct (decide (k = lg)) as [->|]; [done | lia]. }
    split; intros Hg.
    + destruct (IH1 ltac:(tauto)) as (s1 & E1 & H1 & Z1 & M1 & N1 & K1). rewrite E1. simpl. replace (lg + 1 - 1) with lg in N1 by lia.
      destruct (list_of_get s1 lg H1 Hs) as (l1 & El1 & Hemp1). rewrite El1. simpl. destruct (empty l1); [tauto |].
      assert (Hem1 : list_of s1 (lg - 1) = []) by (rewrite K1; [done | unfold pg_in_sizes; lia | lia]).
      destruct (split_page_ok s1 lg H1 ltac:(lia) N1 Hem1) as (s2 & E2 & H2 & Z2 & M2 & N2 & K2). rewrite E2. simpl. exists s2. split_and!; try done; [congruence | by eapply same_mem_trans |].
      intros j Hj Hlt. rewrite K2, K1 by (done || lia). done.
    + rewrite IH2 by tauto. simpl. rewrite E. simpl. by rewrite Ee.
  - assert (Hne : list_of st lg <> []) by (intros Hc; apply Hemp in Hc; congruence). simpl. rewrite E. simpl. rewrite Ee. split; intros Hg.
    + destruct (split_page_ok st lg H ltac:(lia) Hne Hem) as (s2 & E2 & H2 & Z2 & M2 & N2 & K2). rewrite E2. simpl. exists s2. by split_and!.
    + destruct Hg. exists lg. split; [lia | done].
Qed.

Lemma pg_lgsz_eq sz : pg_lgsz sz = get_log2sz sz.
Proof.
  unfold pg_lgsz, get_log2sz. destruct (sz =? 0); [done |]. destruct (low_bit_loop 32 sz 0); simpl; [| done]. by destruct (negb _).
Qed.

(** ** Allocation *)

#[local] Arguments pg_split : simpl never.

Lemma has_page_bytes st lg : pool_lists st -> pg_in_sizes lg -> has_page st lg -> 2 ^ lg <= bytes (pages st).
Proof.
  intros H [Hs _] (k & Hk & Hne). unfold Pg_lgsz_min, Pg_lgsz_max in *. assert (Hsk : pg_in_sizes k) by (unfold pg_in_sizes, Pg_lgsz_min, Pg_lgsz_max; lia).
  destruct (get_pgs_ok st k H Hsk) as (l & _ & El & Ol). unfold list_of in Hne. rewrite El in Hne. destruct (busy l) as [|[a v] t] eqn:Eb; [done |].
  destruct (pages_set st k l El) as (R & P & _). rewrite P, Eb. simpl. destruct Ol as [_ G]. rewrite Eb in G. apply Forall_cons in G as [Gv _].
  destruct (good_range k v Hsk Gv) as (-> & _). pose proof (Z.pow_le_mono_r 2 lg k).
  pose proof (bytes_nonneg (vals t ++ R)). lia.
Qed.

(** The first page of a list leaves the pool. *)
Lemma take_page st lg : pg_inv st -> pg_in_sizes lg -> list_of st lg <> [] ->
  exists r st', (pgs ← get_pgs st lg; if negb (empty pgs) then
      let it := begin pgs in pg ← deref pgs it; q ← erase pgs it; let st := set_pgs st lg q.2 in
      Ok (pg, MkPP (fpages st) (u32 (pg_pool_sz st - fpage_size pg))) else Ok (Fpage_nil, st)) = Ok (r, st') /\
  pg_inv st' /\ good lg r /\ pages st ≡ₚ r :: pages st' /\ pg_pool_sz st' = pg_pool_sz st - 2 ^ lg.
Proof.
  intros [H D B C] Hs Hne. destruct (get_pgs_ok st lg H Hs) as (l & E & El & Ol). unfold list_of in Hne. rewrite El in Hne. destruct (busy l) as [|[a v] t] eqn:Eb; [done |].
  destruct (take_first lg l a v t Ol Eb) as (E1 & E2 & E0 & n & E3 & O3 & Gv). rewrite E. simpl. rewrite E0. simpl. rewrite E1, E2. simpl. rewrite E3. simpl.
  set (s1 := set_pgs st lg (MkA t (a :: free l))). destruct (pages_set st lg l El) as (R & P & P1). specialize (P1 (MkA t (a :: free l))). rewrite Eb in P. simpl in P, P1.
  assert (Ep : pages st ≡ₚ v :: pages s1) by (unfold s1; rewrite P, P1; done). destruct (good_range lg v Hs Gv) as (Sv & _ & _ & Hp).
  pose proof (set_pgs_lists st lg _ H Hs O3) as L1. rewrite Ep in B, D, C. simpl in B, D, C. rewrite Sv in B, C.
  pose proof (bytes_nonneg (pages s1)) as Hb. assert (Ew : u32 (pg_pool_sz st - fpage_size v) = bytes (pages s1)) by (rewrite C, Sv, wrap_small; [lia | unfold in_range; lia]).
  rewrite Ew. eexists v, _. split; [done |]. split_and!; try done; simpl; [| lia]. destruct L1 as [L1 L2]. split; [by split | exact (proj2 D) | change (bytes (pages s1) < 2 ^ 32); lia | done].
Qed.

Lemma alloc_lgsz_ok st lg : pg_inv st -> pg_in_sizes lg ->
  (has_page st lg -> exists r st', alloc_lgsz st lg = Ok (r, st') /\ pg_inv st' /\ good lg r /\ same_mem (pages st) (r :: pages st') /\
     pg_pool_sz st' = pg_pool_sz st - 2 ^ lg) /\
  (~ has_page st lg -> alloc_lgsz st lg = Ok (Fpage_nil, st)).
Proof.
  intros I Hs. pose proof (pg_lists _ I) as H. unfold alloc_lgsz. rewrite (proj2 (Z.ltb_ge lg _)), (proj2 (Z.ltb_ge _ lg)) by apply Hs. simpl.
  rewrite get_size_pow2 by (unfold pg_in_sizes, Pg_lgsz_min, Pg_lgsz_max in Hs; lia). destruct (Z.ltb_spec (pg_pool_sz st) (2 ^ lg)) as [Hsm|_].
  { split; [| done]. intros Hp%has_page_bytes; [| done | done]. rewrite (pg_count _ I) in Hsm. lia. }
  destruct (list_of_get st lg H Hs) as (l & E & Hemp). rewrite E. simpl.
  assert (Htake : forall s1, pg_inv s1 -> pg_pool_sz s1 = pg_pool_sz st -> same_mem (pages st) (pages s1) -> list_of s1 lg <> [] ->
    exists r st', (pgs ← get_pgs s1 lg; if negb (empty pgs) then let it := begin pgs in pg ← deref pgs it; q ← erase pgs it; let s2 := set_pgs s1 lg q.2 in
      Ok (pg, MkPP (fpages s2) (u32 (pg_pool_sz s2 - fpage_size pg))) else Ok (Fpage_nil, s1)) = Ok (r, st') /\
    pg_inv st' /\ good lg r /\ same_mem (pages st) (r :: pages st') /\ pg_pool_sz st' = pg_pool_sz st - 2 ^ lg).
  { intros s1 I1 Z1 M1 N1. destruct (take_page s1 lg I1 Hs N1) as (r & st' & E' & I' & G' & P' & Z'). exists r, st'. split_and!; try done; [| lia].
    apply (same_mem_trans _ _ _ M1). split; [intros x a; by rewrite P' | by rewrite P' | by rewrite P']. }
  destruct (empty l) eqn:Ee; simpl.
  - assert (Hnil : list_of st lg = []) by tauto.
    destruct (pg_split_ok (Z.to_nat Pg_sizes_num) st (lg + 1) H) as [S1 S2]; [unfold pg_in_sizes in Hs; lia | unfold pg_in_sizes, Pg_sizes_num, Pg_lgsz_min, Pg_lgsz_max in *; lia | by replace (lg + 1 - 1) with lg by lia |].
    assert (Hup : has_page st lg <-> has_page st (lg + 1)).
    { split; intros (k & ? & Hne); exists k; (split; [| done]); [| lia]. destruct (decide (k = lg)) as [->|]; [done | lia]. }
    split; intros Hg.
    + destruct (S1 ltac:(tauto)) as (s1 & E1 & H1 & Z1 & M1 & N1 & _). rewrite E1. simpl. replace (lg + 1 - 1) with lg in N1 by lia. destruct M1 as [M1 M2 M3].
      apply (Htake s1); try done. destruct I as [X1 X2 X3 X4]. split; [done | auto | lia | lia].
    + rewrite S2 by tauto. simpl. rewrite E. simpl. by rewrite Ee.
  - assert (Hne : list_of st lg <> []) by (intros Hc; apply Hemp in Hc; congruence). split; intros Hg.
    + apply (Htake st); try done.
    + destruct Hg. exists lg. unfold pg_in_sizes in Hs. split; [lia | done].
Qed.

Lemma pow2_inj i j : 0 <= i -> 0 <= j -> 2 ^ i = 2 ^ j -> i = j.
Proof. intros Hi Hj E. apply Z.pow_inj_r in E; lia. Qed.

(** the page pool hands out memory exactly once: for a size of a power of
    two from 4 KB on, alloc returns nil and changes nothing only if no page of
    the pool is as large; otherwise it returns a page of exactly this size,
    the bytes of the pool before (with their rights) are those of the page and
    of the pool after, these are disjoint, the counter goes down by the size,
    and no list of the pool ever overflows.  Other sizes give nil. *)
Theorem page_alloc_correct st sz : pg_inv st -> in_range 32 sz ->
  (forall lg, sz = 2 ^ lg -> pg_in_sizes lg ->
     (has_page st lg -> exists r st', pg_alloc st sz = Ok (r, st') /\ pg_inv st' /\ fpage_size r = sz /\ (sz | fpage_addr r) /\
        (forall x a, covers (pages st) x a <-> (fpage_has r x /\ fpage_access r = a) \/ covers (pages st') x a) /\
        Forall (apart r) (pages st') /\ pg_pool_sz st' = pg_pool_sz st - sz) /\
     (~ has_page st lg -> pg_alloc st sz = Ok (Fpage_nil, st))) /\
  ((forall lg, pg_in_sizes lg -> sz <> 2 ^ lg) -> pg_alloc st sz = Ok (Fpage_nil, st)).
Proof.
  intros I Hr. unfold pg_alloc. rewrite pg_lgsz_eq. destruct (get_log2sz_correct sz Hr) as (g & Eg & Hg). rewrite Eg. simpl. split.
  - intros lg Es Hs. assert (g = lg) as ->.
    { unfold pg_in_sizes, Pg_lgsz_min in Hs. destruct Hg as [(k & Hk & E & ->)|[Hno _]]; [apply pow2_inj; [lia | lia | congruence] | destruct (Hno lg); [lia | done]]. }
    destruct (alloc_lgsz_ok st lg I Hs) as [A1 A2]. split; [| exact A2]. intros Hp.
    destruct (A1 Hp) as (r & st' & E & I' & G & [M1 M2 M3] & Z). destruct (good_range lg r Hs G) as (Sr & _). exists r, st'.
    specialize (M3 (pg_disj _ I)). destruct M3 as [F _]. split_and!; try done; [congruence | rewrite Es; apply G | | by rewrite Es].
    intros x a. by rewrite M1, covers_cons.
  - intros Hno. unfold alloc_lgsz. assert (Hout : (g <? Pg_lgsz_min) || (Pg_lgsz_max <? g) = true); [| by rewrite Hout].
    apply orb_true_iff. rewrite !Z.ltb_lt. destruct Hg as [(k & Hk & E & ->)|[_ ->]]; [| unfold Pg_lgsz_min; lia].
    destruct (Z.lt_ge_cases k Pg_lgsz_min); [by left |]. destruct (Z.lt_ge_cases Pg_lgsz_max k); [by right |]. destruct (Hno k); [unfold pg_in_sizes; lia | done].
Qed.

Lemma pg_add_ok st p : pg_inv st -> in_range 32 p -> pg_in_sizes (fpage_log2sz p) -> (length (list_of st (fpage_log2sz p)) < Pg_list_max)%nat ->
  (fpage_size p | fpage_addr p) -> Forall (apart p) (pages st) -> bytes (pages st) + fpage_size p < 2 ^ 32 ->
  exists st', pg_add st p = Ok st' /\ pg_inv st' /\ pages st' ≡ₚ p :: pages st /\ pg_pool_sz st' = pg_pool_sz st + fpage_size p.
Proof.
  intros I Hr Hs Hroom Hd Ha Hb. unfold pg_add. set (k := fpage_log2sz p) in *. rewrite (proj2 (Z.leb_le _ k)), (proj2 (Z.leb_le k _)) by apply Hs. simpl.
  destruct (get_pgs_ok st k (pg_lists _ I) Hs) as (l & E & El & [C G]). rewrite E. simpl. unfold list_of in Hroom. rewrite El in Hroom. assert (Hg : good k p).
  { split_and!; [done | done |]. unfold fpage_size in Hd. fold k in Hd. fold (get_size k) in Hd. rewrite get_size_pow2 in Hd; [done |]. unfold pg_in_sizes, Pg_lgsz_min, Pg_lgsz_max in Hs. lia. }
  unfold push_back, take_free. destruct (free l) as [|f fs] eqn:Ef; [simpl in C; lia |]. simpl. destruct I as [X1 X2 X3 X4].
  set (s1 := set_pgs st k (MkA (busy l ++ [(f, p)]) fs)).
  destruct (pages_set st k l El) as (R & P & P1). specialize (P1 (MkA (busy l ++ [(f, p)]) fs)). fold s1 in P1.
  assert (Ep : pages s1 ≡ₚ p :: pages st).
  { rewrite P1, P. unfold vals. simpl. rewrite fmap_app. simpl. rewrite <- (assoc (++)). simpl. by rewrite Permutation_middle. }
  assert (Hpos : 0 <= fpage_size p) by (apply wrap_range; lia). pose proof (bytes_nonneg (pages st)) as Hbb.
  rewrite X4. rewrite (wrap_small 32) by (unfold in_range; lia). eexists. split; [done |]. split_and!; try done.
  assert (L1 : pool_lists s1).
  { apply set_pgs_lists; [done | done |]. split; simpl; [rewrite length_app; simpl in *; lia |]. unfold vals in *. rewrite fmap_app. apply Forall_app. split; [done |]. by apply Forall_singleton. }
  destruct L1 as [L1 L2]. split; [by split | | |].
  - change (disj (pages s1)). rewrite Ep. done.
  - change (bytes (pages s1) < 2 ^ 32). rewrite Ep. simpl. lia.
  - change (bytes (pages st) + fpage_size p = bytes (pages s1)). rewrite Ep. simpl. lia.
Qed.

(** Add puts a page into the pool: it fails its assertions exactly for a
    size outside 4 KB to 2 GB, panics exactly if the list of this size holds
    its 32 pages already, and otherwise adds exactly the bytes of the page. *)
Theorem page_add_correct st p : pg_inv st -> in_range 32 p ->
  (~ pg_in_sizes (fpage_log2sz p) -> pg_add st p = Stop FAssert) /\
  (pg_in_sizes (fpage_log2sz p) ->
     (length (list_of st (fpage_log2sz p)) = Pg_list_max -> pg_add st p = Stop FPanic) /\
     ((length (list_of st (fpage_log2sz p)) < Pg_list_max)%nat -> (fpage_size p | fpage_addr p) -> Forall (apart p) (pages st) ->
      bytes (pages st) + fpage_size p < 2 ^ 32 ->
      exists st', pg_add st p = Ok st' /\ pg_inv st' /\ pages st' ≡ₚ p :: pages st /\ pg_pool_sz st' = pg_pool_sz st + fpage_size p)).
Proof.
  intros I Hr. split.
  - unfold pg_add, pg_in_sizes. intros Hno. destruct (Z.leb_spec Pg_lgsz_min (fpage_log2sz p)); [| done]. destruct (Z.leb_spec (fpage_log2sz p) Pg_lgsz_max); [lia | done].
  - intros Hs. split; [| by apply pg_add_ok]. unfold pg_add. set (k := fpage_log2sz p) in *. rewrite (proj2 (Z.leb_le _ k)), (proj2 (Z.leb_le k _)) by apply Hs. simpl.
    destruct (get_pgs_ok st _ (pg_lists _ I) Hs) as (l & E & El & [C _]). rewrite E. simpl. unfold list_of. rewrite El. intros Hfull.
    unfold push_back, take_free. destruct (free l) eqn:Ef; [done |]. rewrite Hfull in C. cbn [length] in C. lia.
Qed.

(** ** Examples *)

Lemma pg_ctor_ok mem : (forall lg, length (mem lg) = Pg_list_max) -> pg_inv (pg_ctor mem) /\ pages (pg_ctor mem) = [].
Proof.
  intros Hm. assert (Hp : pages (pg_ctor mem) = []) by done. split; [| done]. split; [| by rewrite Hp | by rewrite Hp | by rewrite Hp].
  split; [done |]. intros lg l _ E. apply list_lookup_fmap_Some in E as (i & -> & _). split; [simpl; by rewrite Hm | constructor].
Qed.

Definition ex_mem (lg : Z) : list Z := (fun i => 0x5000 + lg * 0x1000 + Z.of_nat i * 16) <$> seq 0 Pg_list_max.
(** 0x40000000, 16 KB, rw *)
Definition ex_page : Z := 0x400000e6.
Definition ex_pool : ppool := match pg_add (pg_ctor ex_mem) ex_page with Ok s => s | Stop _ => pg_ctor ex_mem end.

Lemma page_add_correct_witness : exists st', pg_add (pg_ctor ex_mem) ex_page = Ok st' /\ pages st' ≡ₚ [ex_page] /\ pg_pool_sz st' = 0x4000.
Proof.
  destruct (pg_ctor_ok ex_mem (fun _ => eq_refl)) as [I _].
  destruct (page_add_correct (pg_ctor ex_mem) ex_page I ltac:(done)) as [_ H]. destruct (H ltac:(done)) as [_ H'].
  destruct (H' ltac:(vm_compute; lia) ltac:(by exists 0x10000) ltac:(constructor) ltac:(done)) as (st' & E & _ & P & Z). exists st'. split; [exact E |]. split; [exact P | exact Z].
Defined.

Lemma ex_pool_ok : pg_inv ex_pool.
Proof.
  destruct (pg_ctor_ok ex_mem (fun _ => eq_refl)) as [I _].
  destruct (pg_add_ok (pg_ctor ex_mem) ex_page I ltac:(done) ltac:(done) ltac:(vm_compute; lia) ltac:(by exists 0x10000) ltac:(constructor) ltac:(done)) as (st' & E & I' & _).
  unfold ex_pool. by rewrite E.
Qed.

(** A page of 4 KB from the page of 16 KB; one page of 4 KB and one of 8 KB stay. *)
Example ex_alloc : (r ← pg_alloc ex_pool 0x1000; Ok (r.1, pages r.2)) = Ok (0x400000c6, [0x400010c6; 0x400020d6]).
Proof. vm_compute. reflexivity. Qed.

Lemma page_alloc_correct_witness : exists r st', pg_alloc ex_pool 0x1000 = Ok (r, st') /\ fpage_size r = 0x1000 /\ Forall (apart r) (pages st').
Proof.
  destruct (page_alloc_correct ex_pool 0x1000 ex_pool_ok ltac:(done)) as [H _]. destruct (H 12 ltac:(done) ltac:(done)) as [H1 _].
  assert (Hp : has_page ex_pool 12) by (exists 14; split; [done | vm_compute; done]).
  destruct (H1 Hp) as (r & st' & E & _ & S & _ & _ & F & _). exists r, st'. split; [exact E |]. split; [exact S | exact F].
Defined.
