(* ===== verification/Sigma0Srv.v ===== *)
(** app/sigma0/main.cpp: the root pager.  Its memory lists, built from the
    memory descriptors of the kernel, the answer to a page fault of the root
    task and the answer to a memory request (sigma0 protocol), on the contract
    [ListSpec] of list_t.  What it promises: conventional memory is handed out
    at most once.

    The system calls that create and start the root task are not modelled;
    [handle] is one round of the message loop, from the received message to
    the reply. *)

From Stdlib Require Import ZArith Lia Bool.
From stdpp Require Import base list numbers relations.
From S2P Require Import Prelude SysUtils ListSpec L4Types.

(** ** Memory regions *)

Record mregion := MkReg { mr_addr : Z; mr_size : Z; mr_acc : Z }.
Definition mr_end (r : mregion) : Z := u32 (mr_addr r + mr_size r).
Definition mr_is_inside (r : mregion) (p : Z) : bool := (mr_addr r <=? fpage_addr p) && (fpage_end p <=? mr_end r).
Definition mr_is_acc_fit (r : mregion) (acc : Z) : bool := Z.land acc (mr_acc r) =? acc.
Definition mr_is_inside_acc (r : mregion) (p : Z) : bool := mr_is_inside r p && mr_is_acc_fit r (fpage_access p).

Definition Mregions_max : nat := 16.

Record s0state := MkS0 { roottask_memory : alist mregion; conventional_memory : alist mregion; conv_mem_size : Z }.

(** ** Start: the memory descriptors of the kernel interface page *)

Record mem_desc := MkMd { md_low : Z; md_heigh : Z; md_type : Z; md_type_exact : Z }.
Definition Md_conventional : Z := 1.
Definition Md_bootloader : Z := 14.
Definition Bldr_sigma0_text : Z := 1.
Definition Bldr_sigma0_rodata : Z := 2.
Definition Bldr_sigma0_data : Z := 3.
Definition Bldr_roottask_text : Z := 4.
Definition Bldr_roottask_rodata : Z := 5.
Definition Bldr_roottask_data : Z := 6.
Definition Bldr_ramfs : Z := 7.

(** Rights of the root task on a loader region; None for the regions of sigma0. *)
Definition roottask_rights (type_exact : Z) : res (option Z) :=
  if (type_exact =? Bldr_sigma0_text) || (type_exact =? Bldr_sigma0_rodata) || (type_exact =? Bldr_sigma0_data) then Ok None
  else if type_exact =? Bldr_roottask_text then Ok (Some (Z.lor Acc_r Acc_x))
  else if type_exact =? Bldr_roottask_rodata then Ok (Some Acc_r)
  else if type_exact =? Bldr_roottask_data then Ok (Some Acc_rw)
  else if type_exact =? Bldr_ramfs then Ok (Some (Z.lor Acc_r Acc_x))
  else Stop FPanic.

Definition init_desc (st : s0state) (d : mem_desc) : res s0state :=
  let addr := u32 (Z.shiftl (md_low d) 10) in
  let sz := u32 (Z.shiftl (md_heigh d + 1) 10 - addr) in
  if md_type d =? Md_bootloader then
    a ← roottask_rights (md_type_exact d);
    match a with
    | Some acc => l ← push_back (roottask_memory st) (MkReg addr sz acc);
                  Ok (MkS0 l (conventional_memory st) (conv_mem_size st))
    | None => Ok st
    end
  else if md_type d =? Md_conventional then
    l ← push_back (conventional_memory st) (MkReg addr sz Acc_rwx);
    Ok (MkS0 (roottask_memory st) l (u32 (conv_mem_size st + sz)))
  else Ok st.

Fixpoint init_descs (st : s0state) (ds : list mem_desc) : res s0state :=
  match ds with [] => Ok st | d :: ds' => st' ← init_desc st d; init_descs st' ds' end.

(** Both lists empty; [fr], [fc]: the items of their pools. *)
Definition s0_start (fr fc : list Z) : s0state := MkS0 (MkA [] fr) (MkA [] fc) 0.

(** ** The sigma0 protocol *)

(** The first region that holds the requested page, with its item, the aligned
    address in it and the distance from its start. *)
Fixpoint find_conv (l : list (Z * mregion)) (req : Z) : option (Z * mregion * Z * Z) :=
  match l with
  | [] => None
  | (it, r) :: l' =>
      if (fpage_size req <=? mr_size r) && mr_is_acc_fit r (fpage_access req) then
        let aligned_va := round_up (mr_addr r) (fpage_size req) in
        let diff := u32 (aligned_va - mr_addr r) in
        if fpage_size req <=? u32 (mr_size r - diff) then Some (it, r, aligned_va, diff)
        else find_conv l' req
      else find_conv l' req
  end.

(** The page is cut out of the region. *)
Definition carve (A : alist mregion) (it : Z) (r : mregion) (aligned_va diff size : Z) : res (alist mregion) :=
  if (diff =? 0) && (mr_size r =? size) then e ← erase A it; Ok e.2
  else if diff =? 0 then Ok (store A it (MkReg (u32 (mr_addr r + size)) (u32 (mr_size r - size)) (mr_acc r)))
  else if mr_end r =? u32 (aligned_va + size) then Ok (store A it (MkReg (mr_addr r) (u32 (mr_size r - size)) (mr_acc r)))
  else
    A' ← push_back A (MkReg (mr_addr r) diff (mr_acc r));
    Ok (store A' it (MkReg (u32 (aligned_va + size)) (u32 (u32 (mr_size r - diff) - size)) (mr_acc r))).

(** The page to map, whether the debugger was entered, and the new state. *)
Definition serve (st : s0state) (req : Z) : res (Z * bool * s0state) :=
  if negb (fpage_base req =? -1) then Ok (req, false, st)
  else
    match find_conv (busy (conventional_memory st)) req with
    | None => Ok (Fpage_nil, false, st)
    | Some (it, r, aligned_va, diff) =>
        map_fpage ← fpage_set Fpage_nil aligned_va (fpage_size req) (fpage_access req);
        l ← carve (conventional_memory st) it r aligned_va diff (fpage_size req);
        Ok (map_fpage, fpage_is_nil map_fpage, MkS0 (roottask_memory st) l (u32 (conv_mem_size st - fpage_size req)))
    end.

(** ** The message loop *)

(** The reply: message tag and the two words of the map item. *)
Record outcome := MkOut { reply : option (Z * Z * Z); in_kdb : bool }.

Definition map_reply (tag fpage : Z) : Z * Z * Z :=
  let tag := tag_set_typed (tag_set_untyped (tag_set_propagated (tag_set_ipc_label tag 0) false) 0) 2 in
  let item := mitem_set 0 fpage false in
  (tag, item.1, item.2).

(** [junk]: the content of the uninitialised flex page on the stack. *)
Definition fault_page (junk addr acc : Z) : res Z := fpage_set junk (round_down addr Cfg_page_sz) Cfg_page_sz acc.

Definition handle (rtsk junk : Z) (st : s0state) (from tag addr : Z) : res (outcome * s0state) :=
  if (from =? rtsk) && (tag_proto_label tag =? Pagefault) then
    _ ← wassert (tag_untyped tag =? 2);
    _ ← wassert (tag_typed tag =? 0);
    let acc := tag_pfault_access tag in
    fault ← fault_page junk addr acc;
    let found := existsb (fun r => mr_is_inside_acc r fault) (vals (busy (roottask_memory st))) in
    let fault := if found then fpage_set_access fault acc else fault in
    Ok (MkOut (Some (map_reply tag fault)) (negb found), st)
  else if (from =? rtsk) && (tag_proto_label tag =? Sigma0) then
    _ ← wassert (tag_untyped tag =? 2);
    _ ← wassert (tag_typed tag =? 0);
    r ← serve st addr;
    Ok (MkOut (Some (map_reply tag r.1.1)) r.1.2, r.2)
  else Ok (MkOut None true, st).

(** ** Conventional memory *)

Definition r_has (r : mregion) (x : Z) : Prop := mr_addr r <= x < mr_addr r + mr_size r.
Definition r_apart (r q : mregion) : Prop := mr_addr r + mr_size r <= mr_addr q \/ mr_addr q + mr_size q <= mr_addr r.
Definition reg_ok (r : mregion) : Prop := 0 <= mr_addr r /\ 0 < mr_size r < 2 ^ 32 /\ mr_addr r + mr_size r <= 2 ^ 32.

Lemma r_apart_sym r q : r_apart r q -> r_apart q r.
Proof. unfold r_apart. tauto. Qed.

Definition r_disj : list mregion -> Prop := pairwise r_apart.
#[export] Instance r_disj_proper : Proper ((≡ₚ) ==> iff) r_disj.
Proof. intros l l' Hp. split; apply pairwise_perm; (exact r_apart_sym || done). Qed.

(** The byte [x] is in a region with the rights [a]. *)
Definition r_covers (l : list mregion) (x a : Z) : Prop := exists r, r ∈ l /\ r_has r x /\ mr_acc r = a.
Lemma r_covers_cons r l x a : r_covers (r :: l) x a <-> (r_has r x /\ mr_acc r = a) \/ r_covers l x a.
Proof. unfold r_covers. split; [intros (q & [->|Hq]%elem_of_cons & ?); eauto | intros [?|(q & ? & ?)]; [exists r | exists q]; set_solver]. Qed.
#[export] Instance r_covers_proper : Proper ((≡ₚ) ==> (=) ==> (=) ==> iff) r_covers.
Proof. intros l l' Hp x ? <- a ? <-. unfold r_covers. by setoid_rewrite Hp. Qed.

Definition r_bytes (l : list mregion) : Z := foldr (fun r n => mr_size r + n) 0 l.
#[export] Instance r_bytes_proper : Proper ((≡ₚ) ==> (=)) r_bytes.
Proof. intros l l' Hp. induction Hp; simpl in *; lia. Qed.

Record conv_ok (A : alist mregion) : Prop := {
  cv_wf : wf A;
  cv_ok : Forall reg_ok (vals (busy A));
  cv_disj : r_disj (vals (busy A)) }.

(** The page of 2^k bytes at [va] fits into the region. *)
Definition page_fits (k : Z) (acc : Z) (r : mregion) (va : Z) : Prop :=
  mr_is_acc_fit r acc = true /\ (2 ^ k | va) /\ mr_addr r <= va /\ va + 2 ^ k <= mr_addr r + mr_size r.

(** A request for any page of 2^k bytes. *)
Record any_request (k req : Z) : Prop := {
  ar_size : 0 <= k <= 31;
  ar_log : fpage_log2sz req = k;
  ar_base : fpage_base req = -1 }.

Lemma ar_bytes k req : any_request k req -> fpage_size req = 2 ^ k.
Proof. intros [H1 H2 _]. unfold fpage_size. rewrite H2. apply get_size_pow2. lia. Qed.

(** The first aligned address of a region. *)
Definition first_va (k : Z) (r : mregion) : Z := (mr_addr r + (2 ^ k - 1)) / 2 ^ k * 2 ^ k.
Definition fits_b (k acc : Z) (r : mregion) : bool := mr_is_acc_fit r acc && (first_va k r + 2 ^ k <=? mr_addr r + mr_size r).

Lemma first_va_spec k r : 0 <= k -> least_multiple (2 ^ k) (mr_addr r) (first_va k r) /\ first_va k r < mr_addr r + 2 ^ k.
Proof.
  intros Hk. assert (Hp : 0 < 2 ^ k) by (apply Z.pow_pos_nonneg; lia). split; [by apply div_up_least |]. unfold first_va.
  pose proof (Z.mul_div_le (mr_addr r + (2 ^ k - 1)) (2 ^ k) Hp). lia.
Qed.

Lemma fits_b_spec k acc r : 0 <= k -> fits_b k acc r = true <-> exists va, page_fits k acc r va.
Proof.
  intros Hk. destruct (first_va_spec k r Hk) as [(Hd & Hle & Hmin) _]. unfold fits_b. rewrite andb_true_iff, Z.leb_le. split.
  - intros [Ha He]. by exists (first_va k r).
  - intros (va & Ha & Hdv & Hlv & Hev). split; [done |]. pose proof (Hmin va Hdv Hlv). lia.
Qed.

Lemma find_conv_cons k req it r l : any_request k req -> reg_ok r ->
  find_conv ((it, r) :: l) req = if fits_b k (fpage_access req) r then Some (it, r, first_va k r, first_va k r - mr_addr r) else find_conv l req.
Proof.
  intros Hreq (Ha & Hs & He). simpl. rewrite (ar_bytes k req Hreq). destruct Hreq as [Hk _ _]. unfold fits_b.
  assert (Hp : 0 < 2 ^ k) by (apply Z.pow_pos_nonneg; lia). destruct (first_va_spec k r ltac:(lia)) as [(Hd & Hle & Hmin) Hlt].
  destruct (mr_is_acc_fit r (fpage_access req)); [| by rewrite andb_false_r]. rewrite andb_true_r. simpl.
  destruct (Z.leb_spec (2 ^ k) (mr_size r)) as [Hbig|Hsm]; [| by rewrite (proj2 (Z.leb_gt _ _)) by lia].
  rewrite round_up_spec by lia. rewrite (wrap_small 32 (mr_addr r + (2 ^ k - 1))) by (unfold in_range; lia). fold (first_va k r).
  rewrite (wrap_small 32 (first_va k r - mr_addr r)) by (unfold in_range; lia). rewrite wrap_small by (unfold in_range; lia).
  destruct (Z.leb_spec (2 ^ k) (mr_size r - (first_va k r - mr_addr r))); destruct (Z.leb_spec (first_va k r + 2 ^ k) (mr_addr r + mr_size r)); try lia; done.
Qed.

Lemma find_conv_spec k req l : any_request k req -> Forall reg_ok (vals l) ->
  (find_conv l req = None /\ forall r va, r ∈ vals l -> ~ page_fits k (fpage_access req) r va) \/
  exists l1 it r l2, l = l1 ++ (it, r) :: l2 /\ find_conv l req = Some (it, r, first_va k r, first_va k r - mr_addr r) /\ page_fits k (fpage_access req) r (first_va k r).
Proof.
  intros Hreq. assert (Hk : 0 <= k) by (destruct Hreq; lia). induction l as [|[it r] l IH]; intros Hok.
  - left. split; [done |]. intros r va Hi. by apply not_elem_of_nil in Hi.
  - apply Forall_cons in Hok as [Hr Hok]. simpl in Hr. rewrite (find_conv_cons k) by done. destruct (fits_b k (fpage_access req) r) eqn:Ef.
    + right. exists [], it, r, l. split_and!; [done | done |]. pose proof Ef as [Ha He]%andb_true_iff. apply Z.leb_le in He.
      destruct (first_va_spec k r Hk) as [(Hd & Hle & _) _]. by split_and!.
    + destruct (IH Hok) as [[E Hno]|(l1 & it' & r' & l2 & -> & E & Hf)]; [left | right].
      * split; [done |]. intros q va [->|Hq]%elem_of_cons Hf; [| by apply (Hno q va)]. simpl in Hf. assert (fits_b k (fpage_access req) r = true); [| congruence].
        apply fits_b_spec; [done |]. by exists va.
      * exists ((it, r) :: l1), it', r', l2. by split_and!.
Qed.

(** *** Cutting a page out of a region *)

(** The parts of a region before and behind the page. *)
Definition rest_of (k : Z) (r : mregion) (va : Z) : list mregion :=
  (if va =? mr_addr r then [] else [MkReg (mr_addr r) (va - mr_addr r) (mr_acc r)]) ++
  (if va + 2 ^ k =? mr_addr r + mr_size r then [] else [MkReg (va + 2 ^ k) (mr_addr r + mr_size r - (va + 2 ^ k)) (mr_acc r)]).

Lemma wf_split A l1 it (r : mregion) l2 : wf A -> busy A = l1 ++ (it, r) :: l2 -> it ∉ items l1 /\ it <> 0.
Proof.
  intros [Hn Hz] E. rewrite E, items_app in *. simpl in *. rewrite <- app_assoc in Hn. apply NoDup_app in Hn as (_ & Hd & _). split.
  - intros Hi. apply (Hd it Hi). set_solver.
  - rewrite Forall_forall in Hz. apply Hz. set_solver.
Qed.

Lemma store_wf A it w : wf A -> wf (store A it (w : mregion)).
Proof.
  apply wf_perm. simpl. assert (E : items (update_it it w (busy A)) = items (busy A)); [| by rewrite E].
  induction (busy A) as [|[a v] t IH]; simpl; [done |]. destruct (a =? it); simpl; [done | by rewrite IH].
Qed.

(** carve replaces the region by what is left of it; it panics only if the
    region is cut in two and the list has no free item. *)
Lemma carve_ok A l1 it r l2 k va acc : wf A -> busy A = l1 ++ (it, r) :: l2 -> reg_ok r -> 0 <= k <= 31 -> page_fits k acc r va ->
  (exists A', carve A it r va (va - mr_addr r) (2 ^ k) = Ok A' /\ wf A' /\ vals (busy A') ≡ₚ rest_of k r va ++ vals (l1 ++ l2)) \/
  (carve A it r va (va - mr_addr r) (2 ^ k) = Stop FPanic /\ free A = [] /\ mr_addr r < va /\ va + 2 ^ k < mr_addr r + mr_size r).
Proof.
  intros W Eb (Ha & Hs & He) Hk (_ & _ & Hlo & Hhi). assert (Hp : 0 < 2 ^ k) by (apply Z.pow_pos_nonneg; lia). destruct (wf_split A l1 it r l2 W Eb) as [Hni _].
  unfold carve, rest_of, mr_end. replace (va - mr_addr r =? 0) with (va =? mr_addr r) by (destruct (Z.eqb_spec va (mr_addr r)), (Z.eqb_spec (va - mr_addr r) 0); lia || done).
  assert (Ev : vals (l1 ++ l2) = vals l1 ++ vals l2) by apply vals_app.
  destruct (Z.eqb_spec va (mr_addr r)) as [E0|E0]; simpl.
  - destruct (Z.eqb_spec (mr_size r) (2 ^ k)) as [Es|Es]; simpl.
    + left. rewrite (proj2 (Z.eqb_eq _ _)) by lia. destruct (erase A it) as [[n A']|f] eqn:Ee.
      * destruct (erase_wf A it n A' W Ee) as (m1 & v & m2 & Eb' & E1 & _ & _ & W'). exists A'. split_and!; [done | done |]. simpl.
        destruct (wf_split A m1 it v m2 W Eb') as [Hni' _]. pose proof (remove_it_at it m1 m2 v Hni') as X1. rewrite <- Eb', Eb, remove_it_at in X1 by done. by rewrite E1, X1.
      * exfalso. unfold erase, empty, size, next in Ee. rewrite Eb, next_it_at in Ee by done. by destruct l1.
    + left. rewrite (proj2 (Z.eqb_neq _ _)) by lia. eexists. split_and!; [done | by apply store_wf |]. simpl. rewrite Eb, update_it_at, !vals_app by done. simpl.
      rewrite (wrap_small 32 (mr_addr r + 2 ^ k)) by (unfold in_range; lia). rewrite wrap_small by (unfold in_range; lia). rewrite <- Permutation_middle.
      replace (va + 2 ^ k) with (mr_addr r + 2 ^ k) by lia. by replace (mr_addr r + mr_size r - (mr_addr r + 2 ^ k)) with (mr_size r - 2 ^ k) by lia.
  - destruct (Z.eqb_spec (va + 2 ^ k) (mr_addr r + mr_size r)) as [Ee|Ee].
    + left. rewrite <- Ee, Z.eqb_refl. eexists. split_and!; [done | by apply store_wf |]. simpl. rewrite Eb, update_it_at, !vals_app by done. simpl.
      rewrite wrap_small by (unfold in_range; lia). rewrite <- Permutation_middle. by replace (mr_size r - 2 ^ k) with (va - mr_addr r) by lia.
    + assert (Ene : u32 (mr_addr r + mr_size r) <> u32 (va + 2 ^ k)).
      { rewrite (wrap_small 32 (va + 2 ^ k)) by (unfold in_range; lia). destruct (decide (mr_addr r + mr_size r = 2 ^ 32)) as [->|]; [change (u32 (2 ^ 32)) with 0; lia |].
        rewrite wrap_small by (unfold in_range; lia). lia. }
      rewrite (proj2 (Z.eqb_neq _ _) Ene). destruct (push_back A (MkReg (mr_addr r) (va - mr_addr r) (mr_acc r))) as [A1|f] eqn:Ep.
      * left. simpl. destruct (push_back_wf A _ A1 W Ep) as [W1 _]. eexists. split_and!; [done | by apply store_wf |]. unfold push_back, take_free in Ep.
        destruct (free A) as [|g gs]; [done |]. injection Ep as <-. simpl. rewrite Eb, <- app_assoc. simpl. rewrite update_it_at, !vals_app by done. simpl. rewrite vals_app. simpl.
        rewrite !(wrap_small 32) by (unfold in_range; rewrite ?wrap_small; unfold in_range; lia). replace (mr_size r - (va - mr_addr r) - 2 ^ k) with (mr_addr r + mr_size r - (va + 2 ^ k)) by lia. solve_Permutation.
      * right. unfold push_back, take_free in Ep. destruct (free A) eqn:Ef; [| done]. injection Ep as <-. split_and!; [done | done | lia | lia].
Qed.

Lemma rest_ok k r va acc : reg_ok r -> 0 <= k -> page_fits k acc r va ->
  Forall reg_ok (rest_of k r va) /\ r_disj (rest_of k r va) /\ r_bytes (rest_of k r va) = mr_size r - 2 ^ k /\
  (forall x a, r_covers [r] x a <-> (va <= x < va + 2 ^ k /\ mr_acc r = a) \/ r_covers (rest_of k r va) x a) /\
  (forall q, q ∈ rest_of k r va -> va + 2 ^ k <= mr_addr q \/ mr_addr q + mr_size q <= va) /\
  (forall q, q ∈ rest_of k r va -> mr_addr r <= mr_addr q /\ mr_addr q + mr_size q <= mr_addr r + mr_size r).
Proof.
  intros (Ha & Hs & He) Hk (_ & _ & Hlo & Hhi). assert (Hp : 0 < 2 ^ k) by (apply Z.pow_pos_nonneg; lia). unfold rest_of.
  assert (Hnil : forall x a, r_covers [] x a <-> False) by (intros x a; split; [intros (q & Hq & _); by apply not_elem_of_nil in Hq | done]).
  destruct (Z.eqb_spec va (mr_addr r)), (Z.eqb_spec (va + 2 ^ k) (mr_addr r + mr_size r)); simpl; (refine (conj _ (conj _ (conj _ (conj _ (conj _ _)))));
    [ rewrite ?Forall_cons; unfold reg_ok; simpl; split_and?; (lia || apply Forall_nil_2)
    | unfold r_disj; simpl; rewrite ?Forall_cons; unfold r_apart; simpl; split_and?; (done || lia || apply Forall_nil_2)
    | lia
    | intros x a; rewrite !r_covers_cons, Hnil; unfold r_has; simpl; clear Hnil; lia
    | intros q Hq; set_unfold; naive_solver lia
    | intros q Hq; set_unfold; naive_solver lia ]).
Qed.

Lemma r_disj_refine r q l : r_disj (r :: l) -> r_disj q -> (forall s, s ∈ q -> mr_addr r <= mr_addr s /\ mr_addr s + mr_size s <= mr_addr r + mr_size r) -> r_disj (q ++ l).
Proof.
  intros [F D] Q Hin. induction q as [|s q IH]; [done |]. destruct Q as [Fs Q]. split.
  - apply Forall_app. split; [done |]. apply (Forall_impl _ _ _ F). intros t Ht. unfold r_apart in *. specialize (Hin s ltac:(set_solver)). lia.
  - apply IH; [done |]. intros t Ht. apply Hin. set_solver.
Qed.

Lemma r_covers_app l l' x a : r_covers (l ++ l') x a <-> r_covers l x a \/ r_covers l' x a.
Proof. unfold r_covers. set_solver. Qed.
Lemma r_bytes_app l l' : r_bytes (l ++ l') = r_bytes l + r_bytes l'.
Proof. induction l; simpl; lia. Qed.

(** A byte of one of pairwise disjoint regions is in no other. *)
Lemma r_disj_has r l x a : r_disj (r :: l) -> r_has r x -> ~ r_covers l x a.
Proof. intros [F _] H (q & Hq & Hx & _). rewrite Forall_forall in F. specialize (F q Hq). unfold r_apart, r_has in *. lia. Qed.

(** The bytes that sigma0 still has, with their rights. *)
Definition has_byte (st : s0state) (x a : Z) : Prop := r_covers (vals (busy (conventional_memory st))) x a.

Record s0_ok (st : s0state) : Prop := {
  so_conv : conv_ok (conventional_memory st);
  so_size : conv_mem_size st = u32 (r_bytes (vals (busy (conventional_memory st)))) }.

(** What a successful request for any page of 2^k bytes did: the 2^k bytes
    from [va] were taken out of the free memory, which had them all with at
    least the rights asked for; everything else is as before. *)
Record taken (k acc va : Z) (st st' : s0state) : Prop := {
  tk_ok : s0_ok st';
  tk_root : roottask_memory st' = roottask_memory st;
  tk_align : (2 ^ k | va);
  tk_range : 0 <= va /\ va + 2 ^ k <= 2 ^ 32;
  tk_was : forall x, va <= x < va + 2 ^ k -> exists a, has_byte st x a /\ Z.land acc a = acc;
  tk_gone : forall x a, has_byte st' x a <-> has_byte st x a /\ ~ va <= x < va + 2 ^ k;
  tk_bytes : r_bytes (vals (busy (conventional_memory st'))) = r_bytes (vals (busy (conventional_memory st))) - 2 ^ k }.

Lemma carve_taken st l1 it r l2 k va acc l' :
  s0_ok st -> busy (conventional_memory st) = l1 ++ (it, r) :: l2 -> 0 <= k <= 31 -> page_fits k acc r va ->
  wf l' -> vals (busy l') ≡ₚ rest_of k r va ++ vals (l1 ++ l2) ->
  taken k acc va st (MkS0 (roottask_memory st) l' (u32 (conv_mem_size st - 2 ^ k))).
Proof.
  intros [[W F D] Sz] Eb Hk Hfit W' P. assert (Ep : vals (busy (conventional_memory st)) ≡ₚ r :: vals (l1 ++ l2)) by (rewrite Eb, !vals_app; simpl; by rewrite <- Permutation_middle).
  rewrite Ep in F, D, Sz. apply Forall_cons in F as [Hr F]. destruct (rest_ok k r va acc Hr ltac:(lia) Hfit) as (RF & RD & RB & RC & RA & RI).
  pose proof Hfit as (Hacc & Hdiv & Hlo & Hhi). pose proof Hr as (? & ? & ?). assert (Hc : forall x a, has_byte st x a <-> r_covers [r] x a \/ r_covers (vals (l1 ++ l2)) x a).
  { intros x a. unfold has_byte. rewrite Ep, <- r_covers_app. done. }
  split; simpl.
  - split; simpl; [split; [done | rewrite P; by apply Forall_app | rewrite P; by apply (r_disj_refine r)] |].
    rewrite P, r_bytes_app, RB, Sz. simpl. rewrite <- Z.add_opp_r, wrap_add_l. f_equal. lia.
  - done.
  - done.
  - lia.
  - intros x Hx. exists (mr_acc r). split; [| by apply Z.eqb_eq]. rewrite Hc, RC. tauto.
  - intros x a. rewrite Hc, RC. unfold has_byte. simpl. rewrite P, r_covers_app. split.
    + intros [H'|H']; [split; [tauto |] | split; [tauto |]].
      * destruct H' as (q & Hq & Hx & _). specialize (RA q Hq). unfold r_has in Hx. lia.
      * intros Hx. apply (r_disj_has r (vals (l1 ++ l2)) x a D); [unfold r_has; lia | done].
    + tauto.
  - rewrite P, Ep, r_bytes_app, RB. simpl. lia.
Qed.

(** The page that is answered: the memory that was taken, or the nil page if
    less than the smallest flex page was asked for. *)
Definition answer_page (k acc va p : Z) : Prop :=
  (12 <= k /\ fpage_addr p = va /\ fpage_size p = 2 ^ k /\ fpage_access p = acc) \/ (k < 12 /\ p = Fpage_nil).

Lemma answer_ok k req va : any_request k req -> 0 <= va < 2 ^ 32 -> (2 ^ k | va) ->
  exists p, fpage_set Fpage_nil va (2 ^ k) (fpage_access req) = Ok p /\ answer_page k (fpage_access req) va p /\ fpage_is_nil p = (k <? 12).
Proof.
  intros [Hk Hl Hb] Hva Hd. assert (R : in_range 32 (2 ^ k)) by (unfold in_range; pose proof (Z.pow_pos_nonneg 2 k); pose proof (Z.pow_le_mono_r 2 k 31); lia).
  destruct (fpage_set_correct Fpage_nil va (2 ^ k) (fpage_access req)) as [Hgood Hbad]; [unfold in_range, Fpage_nil; lia | done | done |].
  destruct (Z.ltb_spec k 12) as [Hs|Hs].
  - exists Fpage_nil. split_and!; [| by right | done]. apply Hbad. intros j Hj E. apply Z.pow_inj_r in E; lia.
  - destruct (Hgood k Hs eq_refl) as (p & E & _ & Ea & Es & El & Ec); [by apply Z.mod_divide; [lia |] |]. exists p. split_and!; [done | left; split_and!; [done.. |] |].
    + rewrite Ec. apply Z.mod_small. apply (bf_get_range 0 3 req); lia.
    + unfold fpage_is_nil. apply Z.eqb_neq. intros ->. change (fpage_log2sz Fpage_nil) with 0 in El. lia.
Qed.

Definition fits_somewhere (k acc : Z) (st : s0state) : Prop := exists r va, r ∈ vals (busy (conventional_memory st)) /\ page_fits k acc r va.

(** The three outcomes of a request for any page. *)
Lemma serve_ok st k req : s0_ok st -> any_request k req ->
  (exists va p st', serve st req = Ok (p, k <? 12, st') /\ fits_somewhere k (fpage_access req) st /\ answer_page k (fpage_access req) va p /\ taken k (fpage_access req) va st st') \/
  (serve st req = Ok (Fpage_nil, false, st) /\ ~ fits_somewhere k (fpage_access req) st) \/
  (serve st req = Stop FPanic /\ fits_somewhere k (fpage_access req) st /\ free (conventional_memory st) = []).
Proof.
  intros Hok Hreq. pose proof (ar_bytes k req Hreq) as Esz. unfold serve. rewrite (ar_base k req Hreq). simpl.
  destruct (find_conv_spec k req (busy (conventional_memory st)) Hreq (cv_ok _ (so_conv st Hok))) as [[E Hno]|(l1 & it & r & l2 & Eb & E & Hfit)]; rewrite E.
  - right; left. split; [done |]. intros (r & va & Hr & Hv). by apply (Hno r va).
  - rewrite Esz. set (va := first_va k r) in *. assert (Hi : r ∈ vals (busy (conventional_memory st))) by (rewrite Eb, vals_app; set_solver).
    assert (Hr : reg_ok r) by (pose proof (cv_ok _ (so_conv st Hok)) as F; rewrite Forall_forall in F; by apply F).
    assert (Hk : 0 <= k <= 31) by apply Hreq. assert (Hp : 0 < 2 ^ k) by (apply Z.pow_pos_nonneg; lia).
    pose proof Hfit as (_ & Hd & Hlo & Hhi). pose proof Hr as (? & ? & ?).
    destruct (answer_ok k req va Hreq ltac:(lia) Hd) as (p & Es & Ha & En). rewrite Es. simpl.
    destruct (carve_ok (conventional_memory st) l1 it r l2 k va (fpage_access req) (cv_wf _ (so_conv st Hok)) Eb Hr Hk Hfit) as [(A' & Ec & W' & P)|(Ec & Ef & _)]; rewrite Ec; simpl.
    + left. exists va, p. eexists. rewrite En. split_and!; [done | by exists r, va | done | by apply (carve_taken st l1 it r l2)].
    + right; right. split_and!; [done | by exists r, va | done].
Qed.

(** C27: a request for any page (sigma0 protocol, base -1) is answered with
    memory exactly if some free region holds an aligned page of that size with
    the rights asked for; otherwise with the nil page, and nothing changes.
    The page has the size and the rights asked for, is aligned to its size,
    every byte of it was free memory with these rights, and the free memory
    afterwards is exactly what was free without the page; conv_mem_size counts
    it.  Panic only if the list of regions is full. *)
Theorem serve_correct st k req : s0_ok st -> any_request k req -> 12 <= k ->
  (fits_somewhere k (fpage_access req) st ->
     (exists p st', serve st req = Ok (p, false, st') /\ fpage_size p = 2 ^ k /\ fpage_access p = fpage_access req /\ taken k (fpage_access req) (fpage_addr p) st st') \/
     (serve st req = Stop FPanic /\ free (conventional_memory st) = [])) /\
  (~ fits_somewhere k (fpage_access req) st -> serve st req = Ok (Fpage_nil, false, st)).
Proof.
  intros Hok Hreq Hk. destruct (serve_ok st k req Hok Hreq) as [(va & p & st' & E & Hf & Ha & T)|[[E Hn]|(E & Hf & Hfull)]]; (split; [intros H | intros H]); try done.
  - left. destruct Ha as [(_ & <- & Es & Ec)|[? _]]; [| lia]. exists p, st'. split_and!; [| done..]. by rewrite E, (proj2 (Z.ltb_ge k 12)).
  - by right.
Qed.

(** ** Runs of the server *)

(** What a message was answered with for good: the page of a request for any page. *)
Definition is_any (rtsk from tag addr : Z) : bool := (from =? rtsk) && (tag_proto_label tag =? Sigma0) && (fpage_base addr =? -1).
Definition pages_of (out : outcome) : list Z := match reply out with Some (_, _, p) => if fpage_is_nil p then [] else [p] | None => [] end.

(** One round for each message, with the pages of conventional memory handed
    out so far; requests for any page ask for at least 2^lo bytes. *)
Inductive s0_step (rtsk lo : Z) : s0state * list Z -> s0state * list Z -> Prop :=
  | s0_msg junk st given from tag addr out st' :
      handle rtsk junk st from tag addr = Ok (out, st') ->
      (is_any rtsk from tag addr = true -> lo <= fpage_log2sz addr <= 31) ->
      s0_step rtsk lo (st, given) (st', (if is_any rtsk from tag addr then pages_of out else []) ++ given).

Definition fp_apart (p q : Z) : Prop := forall x, ~ (fpage_has p x /\ fpage_has q x).
Definition held (given : list Z) (x : Z) : Prop := exists p, p ∈ given /\ fpage_has p x.

(** What one round does to the conventional memory. *)
Definition round_effect (any : bool) (lo : Z) (st st' : s0state) (ps : list Z) : Prop :=
  (st' = st /\ (if any then ps else []) = []) \/
  exists k acc va, any = true /\ lo <= k /\ taken k acc va st st' /\
    ((k < 12 /\ ps = []) \/ exists p, ps = [p] /\ fpage_addr p = va /\ fpage_size p = 2 ^ k /\ fpage_access p = acc).

Lemma handle_effect rtsk lo junk st from tag addr out st' : s0_ok st -> 0 <= lo ->
  handle rtsk junk st from tag addr = Ok (out, st') -> (is_any rtsk from tag addr = true -> lo <= fpage_log2sz addr <= 31) ->
  round_effect (is_any rtsk from tag addr) lo st st' (pages_of out).
Proof.
  intros Hok Hlo E Hreq. unfold handle, is_any in *. destruct (from =? rtsk); cbn [andb] in *; [| injection E as <- <-; left; split; reflexivity].
  destruct (Z.eqb_spec (tag_proto_label tag) Pagefault) as [El|_].
  { rewrite El. change (Pagefault =? Sigma0) with false. apply bind_Ok in E as (? & _ & E). apply bind_Ok in E as (? & _ & E).
    apply bind_Ok in E as (? & _ & E). injection E as <- <-. left; split; reflexivity. }
  destruct (tag_proto_label tag =? Sigma0); cbn [andb] in *; [| injection E as <- <-; left; split; reflexivity].
  apply bind_Ok in E as (? & _ & E). apply bind_Ok in E as (? & _ & E). destruct (Z.eqb_spec (fpage_base addr) (-1)) as [Eb|Eb].
  - specialize (Hreq eq_refl). destruct (serve_ok st (fpage_log2sz addr) addr Hok) as [(va & p & st1 & Es & _ & Ha & T)|[[Es _]|(Es & _)]]; [by split; [lia | |] | apply bind_Ok in E as (r & E1 & E); rewrite Es in E1; injection E1 as <-; injection E as <- <-.. | apply bind_Ok in E as (r & E1 & _); rewrite Es in E1; discriminate E1].
    + right. exists (fpage_log2sz addr), (fpage_access addr), va. split_and!; [done | lia | done |]. destruct Ha as [(Hk & Ea & Esz & Ec)|[Hk ->]]; [right | left; split; [exact Hk | reflexivity]].
      exists p. unfold pages_of. simpl. split_and!; try done. unfold fpage_is_nil. destruct (Z.eqb_spec p Fpage_nil) as [->|]; [| done].
      change (fpage_size Fpage_nil) with (2 ^ 0) in Esz. apply Z.pow_inj_r in Esz; lia.
    + left; split; reflexivity.
  - left. apply bind_Ok in E as (r & E1 & E). unfold serve in E1. rewrite (proj2 (Z.eqb_neq _ _) Eb) in E1. injection E1 as <-. injection E as <- <-. split; reflexivity.
Qed.

(** The invariant of a run from [st0]. *)
Record s0_inv (lo : Z) (st0 st : s0state) (given : list Z) : Prop := {
  si_ok : s0_ok st;
  si_sub : forall x a, has_byte st x a -> has_byte st0 x a;
  si_from : forall p x, p ∈ given -> fpage_has p x -> exists a, has_byte st0 x a /\ Z.land (fpage_access p) a = fpage_access p;
  si_apart : pairwise fp_apart given;
  si_excl : forall x a, held given x -> ~ has_byte st x a;
  si_kept : 12 <= lo -> forall x a, has_byte st0 x a -> has_byte st x a \/ held given x }.

Lemma s0_inv_effect any lo st0 st st' given ps : s0_inv lo st0 st given -> round_effect any lo st st' ps -> s0_inv lo st0 st' ((if any then ps else []) ++ given).
Proof.
  intros I [[-> E]|(k & acc & va & -> & Hlo & T & Hps)]; [by rewrite E |]. pose proof (tk_range _ _ _ _ _ T) as Hr. pose proof (tk_gone _ _ _ _ _ T) as Hg.
  destruct Hps as [[Hk ->]|(p & -> & Ea & Es & Ec)]; simpl.
  - split; [by destruct T | | apply I | apply I | |].
    + intros x a H. apply (si_sub _ _ _ _ I). by apply Hg in H as [H _].
    + intros x a Hx H. apply Hg in H as [H _]. by apply (si_excl _ _ _ _ I x a).
    + lia.
  - assert (Hh : forall x, fpage_has p x <-> va <= x < va + 2 ^ k) by (intros x; unfold fpage_has; by rewrite Ea, Es).
    split; [by destruct T | | | split; [| apply I] | |].
    + intros x a H. apply (si_sub _ _ _ _ I). by apply Hg in H as [H _].
    + intros q x [->|Hq]%elem_of_cons Hx; [| by apply (si_from _ _ _ _ I q x)]. rewrite Ec. apply Hh in Hx. destruct (tk_was _ _ _ _ _ T x Hx) as (a & Hb & Hacc).
      exists a. split; [by apply (si_sub _ _ _ _ I) | done].
    + apply Forall_forall. intros q Hq x [H1 H2]. apply Hh in H1. destruct (tk_was _ _ _ _ _ T x H1) as (a & Hb & _). apply (si_excl _ _ _ _ I x a); [by exists q | done].
    + intros x a (q & [->|Hq]%elem_of_cons & Hx) H; apply Hg in H as [H Hn]; [by apply Hn, Hh |]. apply (si_excl _ _ _ _ I x a); [by exists q | done].
    + intros H12 x a Hx. destruct (si_kept _ _ _ _ I H12 x a Hx) as [Hb|(q & Hq & Hqx)]; [| right; exists q; set_solver].
      destruct (decide (va <= x < va + 2 ^ k)) as [Hi|Hi]; [right; exists p; split; [set_solver | by apply Hh] | left; by apply Hg].
Qed.

Lemma s0_run_inv rtsk lo st0 t t' : 0 <= lo -> rtc (s0_step rtsk lo) t t' -> s0_inv lo st0 t.1 t.2 -> s0_inv lo st0 t'.1 t'.2.
Proof.
  intros Hlo R. induction R as [t|t u t' S _ IH]; [done |]. intros I. apply IH. inversion S; subst. simpl in *.
  apply (s0_inv_effect _ lo st0 st); [done |]. by apply (handle_effect rtsk lo junk); [destruct I | ..].
Qed.

Lemma s0_inv_init lo st0 : s0_ok st0 -> s0_inv lo st0 st0 [].
Proof. intros H0. split; [done | done | | done | |]; unfold held; set_solver. Qed.


(** *** Start *)

Definition desc_region (acc : Z) (d : mem_desc) : mregion :=
  let addr := u32 (Z.shiftl (md_low d) 10) in MkReg addr (u32 (Z.shiftl (md_heigh d + 1) 10 - addr)) acc.
Definition conv_regs (ds : list mem_desc) : list mregion := desc_region Acc_rwx <$> filter (fun d => md_type d = Md_conventional) ds.

Lemma init_desc_conv st d st' : wf (conventional_memory st) -> init_desc st d = Ok st' -> conv_mem_size st = u32 (r_bytes (vals (busy (conventional_memory st)))) ->
  wf (conventional_memory st') /\ vals (busy (conventional_memory st')) = vals (busy (conventional_memory st)) ++ conv_regs [d] /\
  conv_mem_size st' = u32 (r_bytes (vals (busy (conventional_memory st')))).
Proof.
  intros W E Sz. unfold conv_regs. rewrite filter_cons, filter_nil. unfold init_desc in E. destruct (Z.eqb_spec (md_type d) Md_bootloader) as [Eb|_].
  - rewrite decide_False by (rewrite Eb; done). apply bind_Ok in E as (a & _ & E). rewrite fmap_nil, app_nil_r. destruct a as [a|]; [apply bind_Ok in E as (l & _ & E) |]; by injection E as <-.
  - destruct (Z.eqb_spec (md_type d) Md_conventional) as [Ec|Ec]; [rewrite decide_True by done | rewrite decide_False by done; rewrite fmap_nil, app_nil_r; by injection E as <-].
    apply bind_Ok in E as (l & Ep & E). injection E as <-. simpl. destruct (push_back_wf _ _ l W Ep) as [W' Ev]. split_and!; [done | done |].
    rewrite Ev, r_bytes_app, Sz, wrap_add_l. f_equal. simpl. lia.
Qed.

Lemma init_descs_conv ds : forall st st', wf (conventional_memory st) -> init_descs st ds = Ok st' -> conv_mem_size st = u32 (r_bytes (vals (busy (conventional_memory st)))) ->
  wf (conventional_memory st') /\ vals (busy (conventional_memory st')) = vals (busy (conventional_memory st)) ++ conv_regs ds /\
  conv_mem_size st' = u32 (r_bytes (vals (busy (conventional_memory st')))).
Proof.
  induction ds as [|d ds IH]; intros st st' W E Sz; simpl in E.
  - injection E as <-. unfold conv_regs. rewrite filter_nil, fmap_nil, app_nil_r. done.
  - apply bind_Ok in E as (s1 & E1 & E). destruct (init_desc_conv st d s1 W E1 Sz) as (W1 & V1 & Sz1). destruct (IH s1 st' W1 E Sz1) as (W2 & V2 & Sz2). split_and!; [done | | done].
    rewrite V2, V1, <- app_assoc. f_equal. unfold conv_regs. rewrite <- fmap_app, <- filter_app. done.
Qed.

(** After the start sigma0 has exactly the conventional memory of the
    descriptors. *)
Lemma init_ok fr fc ds st : wf (MkA (T := mregion) [] fc) -> init_descs (s0_start fr fc) ds = Ok st ->
  Forall reg_ok (conv_regs ds) -> r_disj (conv_regs ds) -> s0_ok st /\ vals (busy (conventional_memory st)) = conv_regs ds.
Proof.
  intros W E F D. destruct (init_descs_conv ds (s0_start fr fc) st W E eq_refl) as (W' & V & Sz). simpl in V. split; [| done]. split; [| done]. split; [done | by rewrite V..].
Qed.

(** *** Page faults of the root task *)

(** A page fault of the root task below the last page of the address space
    is answered with the page of the fault address and the rights of the
    access; the debugger is entered exactly if no region of the root task
    holds this page with these rights -- but the answer maps the page in this
    case too. *)
Theorem fault_correct rtsk junk st tag addr :
  in_range 32 junk -> 0 <= addr < 2 ^ 32 - 4096 ->
  tag_proto_label tag = Pagefault -> tag_untyped tag = 2 -> tag_typed tag = 0 ->
  Forall (fun r => reg_ok r /\ mr_addr r + mr_size r < 2 ^ 32) (vals (busy (roottask_memory st))) ->
  exists p kdb, handle rtsk junk st rtsk tag addr = Ok (MkOut (Some (map_reply tag p)) kdb, st) /\
    fpage_addr p = addr / 4096 * 4096 /\ fpage_size p = 4096 /\ fpage_access p = tag_pfault_access tag /\
    (kdb = false <-> exists r, r ∈ vals (busy (roottask_memory st)) /\ (forall x, fpage_has p x -> r_has r x) /\ mr_is_acc_fit r (tag_pfault_access tag) = true).
Proof.
  intros Hj Ha El Eu Et F. unfold handle, fault_page. rewrite Z.eqb_refl, El, Eu, Et. change Cfg_page_sz with (2 ^ 12). rewrite round_down_spec by (unfold in_range; lia).
  set (va := addr / 2 ^ 12 * 2 ^ 12). assert (Hva : 0 <= va /\ va + 4096 < 2 ^ 32) by (unfold va; pose proof (Z.mul_div_le addr (2 ^ 12)); pose proof (Z.div_pos addr (2 ^ 12)); lia).
  destruct (fpage_set_correct junk va (2 ^ 12) (tag_pfault_access tag)) as [Hgood _]; [done | unfold in_range; lia.. |].
  destruct (Hgood 12 ltac:(lia) eq_refl) as (p & E & _ & Ea & Es & _ & Ec); [unfold va; apply Z.mod_mul; lia |].
  assert (Hacc : fpage_access p = tag_pfault_access tag) by (rewrite Ec; apply Z.mod_small, (bf_get_range 18 3 tag); lia).
  cbn [andb]. change (Pagefault =? Pagefault) with true. cbv iota. change (wassert (2 =? 2)) with (Ok tt). change (wassert (0 =? 0)) with (Ok tt). cbn [mbind res_bind].
  rewrite E. cbn [mbind res_bind].
  set (found := existsb _ _). assert (Hf : found = true <-> exists r, r ∈ vals (busy (roottask_memory st)) /\ (forall x, fpage_has p x -> r_has r x) /\ mr_is_acc_fit r (tag_pfault_access tag) = true).
  { unfold found. rewrite existsb_exists. setoid_rewrite <- list_elem_of_In. rewrite Forall_forall in F.
    split; intros (r & Hr & H); exists r; (split; [done |]); destruct (F r Hr) as [(? & ? & ?) ?]; unfold mr_is_inside_acc, mr_is_inside, fpage_end, mr_end, fpage_has, r_has in *; rewrite Ea, Es, Hacc in *;
      rewrite !wrap_small in * by (unfold in_range; lia); rewrite !andb_true_iff, !Z.leb_le in *.
    - destruct H as [[? ?] ?]. split; [| done]. intros x Hx. lia.
    - destruct H as [H ?]. split; [| done]. pose proof (H va ltac:(lia)). pose proof (H (va + 4095) ltac:(lia)). lia. }
  exists (if found then fpage_set_access p (tag_pfault_access tag) else p), (negb found).
  assert (Hsame : forall q, q = fpage_set_access p (tag_pfault_access tag) -> fpage_addr q = fpage_addr p /\ fpage_size q = fpage_size p /\ fpage_access q = tag_pfault_access tag).
  { intros q ->. unfold fpage_addr, fpage_base, fpage_size, fpage_log2sz, fpage_access, fpage_set_access. bf_simpl. split_and!; [done | done |]. apply Z.mod_small, (bf_get_range 18 3 tag); lia. }
  split; [done |]. destruct found; simpl.
  - destruct (Hsame _ eq_refl) as (Ea' & Es' & Ec'). rewrite Ea', Es', Ec'. split_and!; [done.. |]. unfold fpage_has. rewrite Ea', Es'. by split; [intros _; apply Hf | ].
  - split_and!; [done.. |]. split; [done |]. intros H. by apply Hf in H.
Qed.

(** ** A machine with two memories *)

(** 256 KB at 0x40000000 with a hole behind it, 64 KB at 0x40201000, and the text
    of the root task. *)
Definition ex_descs : list mem_desc :=
  [MkMd 0x100000 0x1000ff Md_conventional 0; MkMd 0x100804 0x100843 Md_conventional 0; MkMd 0x100900 0x100903 Md_bootloader Bldr_roottask_text].
Definition ex_start : s0state := s0_start [1; 2; 3; 4] [5; 6; 7; 8].
Definition ex_state : s0state :=
  MkS0 (MkA [(1, MkReg 0x40240000 0x1000 5)] [2; 3; 4]) (MkA [(5, MkReg 0x40000000 0x40000 7); (6, MkReg 0x40201000 0x10000 7)] [7; 8]) 0x50000.

Example ex_init : init_descs ex_start ex_descs = Ok ex_state.
Proof. vm_compute. reflexivity. Qed.

Lemma ex_ok : s0_ok ex_state.
Proof.
  apply (init_ok [1; 2; 3; 4] [5; 6; 7; 8] ex_descs ex_state); [| exact ex_init | |].
  - split; simpl; [by apply (bool_decide_unpack _) | by apply (bool_decide_unpack _)].
  - change (conv_regs ex_descs) with [MkReg 0x40000000 0x40000 7; MkReg 0x40201000 0x10000 7]. rewrite !Forall_cons. unfold reg_ok. simpl. split_and!; (lia || apply Forall_nil_2).
  - change (conv_regs ex_descs) with [MkReg 0x40000000 0x40000 7; MkReg 0x40201000 0x10000 7]. unfold r_disj. simpl. rewrite !Forall_cons. unfold r_apart. simpl. split_and!; (lia || apply Forall_nil_2 || done).
Qed.

(** Any page of 64 KB, rw. *)
Definition ex_req : Z := 0xfffffd06.
Definition ex_req_page : Z := 0xfffffcc6.

Lemma ex_req_ok : any_request 16 ex_req.
Proof. by split. Qed.

(** The request takes the first 64 KB. *)
Lemma serve_correct_witness : fits_somewhere 16 (fpage_access ex_req) ex_state /\
  ((exists p st', serve ex_state ex_req = Ok (p, false, st') /\ fpage_size p = 2 ^ 16 /\ fpage_access p = fpage_access ex_req /\ taken 16 (fpage_access ex_req) (fpage_addr p) ex_state st') \/
   (serve ex_state ex_req = Stop FPanic /\ free (conventional_memory ex_state) = [])).
Proof.
  assert (H : fits_somewhere 16 (fpage_access ex_req) ex_state).
  { exists (MkReg 0x40000000 0x40000 7), 0x40000000. split; [simpl; set_solver |]. unfold page_fits. simpl. split_and!; [done | by exists 0x4000 | lia | lia]. }
  split; [exact H |]. apply (serve_correct ex_state 16 ex_req); [exact ex_ok | exact ex_req_ok | lia | exact H].
Defined.

(** The state after two requests of 64 KB and one of 4 KB. *)
Definition ex_msg (req : Z) (st : s0state) : res (outcome * s0state) := handle 0x1005 0 st 0x1005 (tag_set_proto 0 Sigma0 2 0) req.
Definition ex_end : s0state :=
  MkS0 (roottask_memory ex_state) (MkA [(5, MkReg 0x40021000 0x1f000 7); (6, MkReg 0x40201000 0x10000 7)] [7; 8]) 0x2f000.
Definition ex_given : list Z := [0x400200c6; 0x40010106; 0x40000106].

Example ex_answers : (r1 ← ex_msg ex_req ex_state; r2 ← ex_msg ex_req r1.2; r3 ← ex_msg ex_req_page r2.2; Ok (pages_of r3.1 ++ pages_of r2.1 ++ pages_of r1.1, r3.2)) = Ok (ex_given, ex_end).
Proof. vm_compute. reflexivity. Qed.

Lemma s0_ex_run : rtc (s0_step 0x1005 12) (ex_state, []) (ex_end, ex_given).
Proof.
  eapply rtc_l; [apply (s0_msg 0x1005 12 0 ex_state [] 0x1005 (tag_set_proto 0 Sigma0 2 0) ex_req); [vm_compute; reflexivity | by vm_compute] |].
  eapply rtc_l; [eapply (s0_msg 0x1005 12 0 _ _ 0x1005 (tag_set_proto 0 Sigma0 2 0) ex_req); [vm_compute; reflexivity | by vm_compute] |].
  eapply rtc_l; [eapply (s0_msg 0x1005 12 0 _ _ 0x1005 (tag_set_proto 0 Sigma0 2 0) ex_req_page); [vm_compute; reflexivity | by vm_compute] |].
  vm_compute. apply rtc_refl.
Qed.


(** A fetch of the root task from its text. *)
Definition ex_pf (acc : Z) : Z := tag_set_proto_pf 0 Pagefault acc 2 0.
Lemma fault_correct_witness : exists p kdb, handle 0x1005 0 ex_state 0x1005 (ex_pf 1) 0x40240123 = Ok (MkOut (Some (map_reply (ex_pf 1) p)) kdb, ex_state) /\
  fpage_addr p = 0x40240000 /\ fpage_size p = 4096.
Proof.
  destruct (fault_correct 0x1005 0 ex_state (ex_pf 1) 0x40240123) as (p & kdb & E & Ea & Es & _); [unfold in_range; lia | lia | reflexivity.. | |].
  - simpl. rewrite Forall_singleton. unfold reg_ok. simpl. lia.
  - exists p, kdb. split; [exact E | split; [exact Ea | exact Es]].
Defined.

(** A fault in the last page of the address space counts as inside every
    region that begins below it: the end of the page wraps to 0. *)
Example top_page_is_inside : forall r, 0 <= mr_addr r <= 0xfffff000 -> 0 <= mr_end r -> mr_is_inside r 0xfffff0c7 = true.
Proof. intros r Hr He. unfold mr_is_inside. change (fpage_addr 0xfffff0c7) with 0xfffff000. change (fpage_end 0xfffff0c7) with 0. apply andb_true_iff. rewrite !Z.leb_le. lia. Qed.

(** A request for 1 KB: 1 KB leaves the free memory, the answer is the nil page. *)
Example small_request_lost : exists st', serve ex_state 0xfffffca6 = Ok (Fpage_nil, true, st') /\ conv_mem_size st' = conv_mem_size ex_state - 1024.
Proof. eexists. split; vm_compute; reflexivity. Qed.
