(* ===== verification/Packets.v ===== *)
(** app/tcpip: helpers.h, mac.h, packets.h: network packets in memory.

    Packets lie in the byte memory of [CString] and are big-endian, as the
    processor.  A packet is named by its address; a field is read and written
    at its offset.  The text dumps of packets are not modelled. *)

From Stdlib Require Import ZArith Lia Bool.
From stdpp Require Import base list numbers gmap.
From S2P Require Import Prelude SysUtils CString.

Implicit Types (m : mem) (a data len : Z).

(** ** Fields *)

Definition ld8 m a : res Z := loadb m a.
Definition ld16 m a : res Z := l ← load_bytes m a 2; Ok (be_word l).
Definition ld32 m a : res Z := l ← load_bytes m a 4; Ok (be_word l).
Definition st8 m a (v : Z) : res mem := store_bytes m a (be_bytes 1 v).
Definition st16 m a (v : Z) : res mem := store_bytes m a (be_bytes 2 v).
Definition st32 m a (v : Z) : res mem := store_bytes m a (be_bytes 4 v).

(** A bit-field of a byte or of a half-word. *)
Definition stbits8 m a (off w v : Z) : res mem := x ← ld8 m a; st8 m a (bf_set off w v x).
Definition stbits16 m a (off w v : Z) : res mem := x ← ld16 m a; st16 m a (bf_set off w v x).

(** ** helpers.h *)

Fixpoint memswap (sz : nat) m (p1 p2 : Z) : res mem :=
  match sz with
  | O => Ok m
  | S n =>
      b ← loadb m p1;
      c ← loadb m p2;
      m ← storeb m p1 c;
      m ← storeb m p2 b;
      memswap n m (p1 + 1) (p2 + 1)
  end.

(** The loop over 16-bit values; [bound] is len - 1 as an unsigned number.  The
    fuel is one more than the number of bytes in memory: each round reads other
    bytes than the rounds before. *)
Fixpoint sum_words (fuel : nat) m data (i bound sum : Z) : res Z :=
  if i <? bound then
    match fuel with
    | O => Stop FFuel
    | S f =>
        hi ← loadb m (data + i);
        lo ← loadb m (data + (i + 1));
        sum_words f m data (u32 (i + 2)) bound (u32 (sum + (Z.shiftl hi 8 + lo)))
    end
  else Ok sum.

Definition sum_data m data len (sum : Z) : res Z :=
  s ← sum_words (S (size m)) m data 0 (u32 (len - 1)) sum;
  if Z.odd len then b ← loadb m (data + (len - 1)); Ok (u32 (s + Z.shiftl b 8)) else Ok s.

(** The same over a local array. *)
Fixpoint sum_array (l : list Z) (sum : Z) : Z :=
  match l with
  | hi :: lo :: t => sum_array t (u32 (sum + (Z.shiftl hi 8 + lo)))
  | [b] => u32 (sum + Z.shiftl b 8)
  | [] => sum
  end.

Fixpoint fold_sum (fuel : nat) (sum : Z) : res Z :=
  if Z.shiftr sum 16 =? 0 then Ok sum
  else match fuel with
       | O => Stop FFuel
       | S f => fold_sum f (u32 (Z.land sum 0xffff + Z.shiftr sum 16))
       end.

Definition inet_checksum m data1 len1 (data2 : list Z) : res Z :=
  s ← sum_data m data1 len1 0;
  s ← fold_sum 3 (sum_array data2 s);
  Ok (u16 (Z.lnot s)).

(** ** mac.h: an address is the list of its 6 bytes *)

Abbreviation mac_t := (list Z).
Definition mac_nil : mac_t := [0; 0; 0; 0; 0; 0].
Definition mac_bcast : mac_t := [0xff; 0xff; 0xff; 0xff; 0xff; 0xff].
Definition mac_eqb (a b : mac_t) : bool := bool_decide (a = b).
Definition mac_is_nil (a : mac_t) : bool := mac_eqb a mac_nil.
Definition mac_is_bcast (a : mac_t) : bool := mac_eqb a mac_bcast.
Definition ldmac m a : res mac_t := load_bytes m a 6.
Definition stmac m a (v : mac_t) : res mem := store_bytes m a v.

(** ** Eth_frame_t *)

Definition Eth_hdrlen : Z := 14.
Definition Etype_ip : Z := 0x0800.
Definition Etype_arp : Z := 0x0806.
Definition eth_dst m (eth : Z) : res mac_t := ldmac m eth.
Definition eth_src m (eth : Z) : res mac_t := ldmac m (eth + 6).
Definition eth_etype m (eth : Z) : res Z := ld16 m (eth + 12).
Definition set_eth_dst m (eth : Z) (v : mac_t) := stmac m eth v.
Definition set_eth_src m (eth : Z) (v : mac_t) := stmac m (eth + 6) v.
Definition set_eth_etype m (eth v : Z) := st16 m (eth + 12) v.
Definition eth_payload (eth : Z) : Z := eth + Eth_hdrlen.

(** ** Arp_packet_t *)

Definition Arp_size : Z := 28.
Definition Opcode_req : Z := 1.
Definition Opcode_rep : Z := 2.
Definition arp_htype m (arp : Z) := ld16 m arp.
Definition arp_ptype m (arp : Z) := ld16 m (arp + 2).
Definition arp_oper m (arp : Z) := ld16 m (arp + 6).
Definition arp_sha m (arp : Z) := ldmac m (arp + 8).
Definition arp_spa m (arp : Z) := ld32 m (arp + 14).
Definition arp_tpa m (arp : Z) := ld32 m (arp + 24).
Definition set_arp_htype m (arp v : Z) := st16 m arp v.
Definition set_arp_ptype m (arp v : Z) := st16 m (arp + 2) v.
Definition set_arp_hlen m (arp v : Z) := st8 m (arp + 4) v.
Definition set_arp_plen m (arp v : Z) := st8 m (arp + 5) v.
Definition set_arp_oper m (arp v : Z) := st16 m (arp + 6) v.
Definition set_arp_sha m (arp : Z) (v : mac_t) := stmac m (arp + 8) v.
Definition set_arp_spa m (arp v : Z) := st32 m (arp + 14) v.
Definition set_arp_tha m (arp : Z) (v : mac_t) := stmac m (arp + 18) v.
Definition set_arp_tpa m (arp v : Z) := st32 m (arp + 24) v.

(** ** Ip_packet_t *)

Definition Ip_length_min : Z := 20.
Definition Ip_typically_hdr_len : Z := 20.
Definition Proto_icmp : Z := 1.
Definition Proto_tcp : Z := 6.
Definition Proto_udp : Z := 17.
Definition ip_header_length m (ip : Z) : res Z := x ← ld8 m ip; Ok (bf_get 0 4 x).
Definition ip_total_length m (ip : Z) := ld16 m (ip + 2).
Definition ip_protocol m (ip : Z) := ld8 m (ip + 9).
Definition ip_src m (ip : Z) := ld32 m (ip + 12).
Definition ip_dst m (ip : Z) := ld32 m (ip + 16).
Definition set_ip_version m (ip v : Z) := stbits8 m ip 4 4 v.
Definition set_ip_header_length m (ip v : Z) := stbits8 m ip 0 4 v.
Definition set_ip_dscp m (ip v : Z) := stbits8 m (ip + 1) 2 6 v.
Definition set_ip_ecn m (ip v : Z) := stbits8 m (ip + 1) 0 2 v.
Definition set_ip_total_length m (ip v : Z) := st16 m (ip + 2) v.
Definition set_ip_identification m (ip v : Z) := st16 m (ip + 4) v.
Definition set_ip_flag0_reserved m (ip v : Z) := stbits16 m (ip + 6) 15 1 v.
Definition set_ip_flag1_df m (ip v : Z) := stbits16 m (ip + 6) 14 1 v.
Definition set_ip_flag2_mf m (ip v : Z) := stbits16 m (ip + 6) 13 1 v.
Definition set_ip_fragment_offset m (ip v : Z) := stbits16 m (ip + 6) 0 13 v.
Definition set_ip_time_to_live m (ip v : Z) := st8 m (ip + 8) v.
Definition set_ip_protocol m (ip v : Z) := st8 m (ip + 9) v.
Definition set_ip_header_checksum m (ip v : Z) := st16 m (ip + 10) v.
Definition set_ip_src m (ip v : Z) := st32 m (ip + 12) v.
Definition set_ip_dst m (ip v : Z) := st32 m (ip + 16) v.
Definition ip_hdrlen m (ip : Z) : res Z := h ← ip_header_length m ip; Ok (h * 4).
Definition ip_payload m (ip : Z) : res Z := h ← ip_hdrlen m ip; Ok (ip + h).
Definition ip_calc_checksum m (ip : Z) : res Z := h ← ip_hdrlen m ip; inet_checksum m ip h [].

(** ** Icmp_packet_t *)

Definition Icmp_length_min : Z := 4.
Definition Icmp_hdrlen : Z := 4.
Definition Type_echo_reply : Z := 0.
Definition Type_dest_unreach : Z := 3.
Definition Type_echo_request : Z := 8.
Definition Code_dst_proto_unreach : Z := 2.
Definition Code_dst_port_inreach : Z := 3.
Definition Icmp_dest_unreach_hdrlen : Z := 4.
Definition icmp_type m (icmp : Z) := ld8 m icmp.
Definition set_icmp_type m (icmp v : Z) := st8 m icmp v.
Definition set_icmp_code m (icmp v : Z) := st8 m (icmp + 1) v.
Definition set_icmp_checksum m (icmp v : Z) := st16 m (icmp + 2) v.
Definition icmp_payload (icmp : Z) : Z := icmp + Icmp_hdrlen.
Definition icmp_calc_checksum m (icmp pktlen : Z) : res Z := inet_checksum m icmp pktlen [].

(** ** Udp_packet_t *)

Definition Udp_length_min : Z := 8.
Definition Udp_hdrlen : Z := 8.
Definition udp_src m (udp : Z) := ld16 m udp.
Definition udp_dst m (udp : Z) := ld16 m (udp + 2).
Definition udp_length m (udp : Z) := ld16 m (udp + 4).
Definition set_udp_src m (udp v : Z) := st16 m udp v.
Definition set_udp_dst m (udp v : Z) := st16 m (udp + 2) v.
Definition set_udp_length m (udp v : Z) := st16 m (udp + 4) v.
Definition set_udp_checksum m (udp v : Z) := st16 m (udp + 6) v.
Definition udp_payload_len m (udp : Z) : res Z := l ← udp_length m udp; Ok (u32 (l - Udp_hdrlen)).
Definition udp_payload (udp : Z) : Z := udp + Udp_hdrlen.

(** The pseudo header of the UDP and TCP checksums. *)
Definition pseudo_hdr (ipsrc ipdst proto len : Z) : list Z :=
  be_bytes 4 ipsrc ++ be_bytes 4 ipdst ++ be_bytes 4 (u32 (Z.shiftl proto 16 + len)).

Definition udp_calc_checksum m (udp ipsrc ipdst proto : Z) : res Z :=
  l ← udp_length m udp;
  inet_checksum m udp l (pseudo_hdr ipsrc ipdst proto l).

(** ** Tcp_packet_t *)

Definition Tcp_length_min : Z := 20.
Definition Tcp_typically_hdr_len : Z := 40.
Definition Tcp_ack_flag : Z := 16.
Definition Tcp_psh : Z := 8.
Definition Tcp_rst : Z := 4.
Definition Tcp_syn : Z := 2.
Definition Tcp_fin : Z := 1.
Definition Opt_end : Z := 0.
Definition Opt_nop : Z := 1.
Definition tcp_src m (tcp : Z) := ld16 m tcp.
Definition tcp_dst m (tcp : Z) := ld16 m (tcp + 2).
Definition tcp_seq m (tcp : Z) := ld32 m (tcp + 4).
Definition tcp_hlen m (tcp : Z) : res Z := x ← ld16 m (tcp + 12); Ok (bf_get 12 4 x).
Definition tcp_flags m (tcp : Z) : res Z := x ← ld16 m (tcp + 12); Ok (bf_get 0 9 x).
Definition set_tcp_src m (tcp v : Z) := st16 m tcp v.
Definition set_tcp_dst m (tcp v : Z) := st16 m (tcp + 2) v.
Definition set_tcp_seq m (tcp v : Z) := st32 m (tcp + 4) v.
Definition set_tcp_ack m (tcp v : Z) := st32 m (tcp + 8) v.
Definition set_tcp_hlen m (tcp v : Z) := stbits16 m (tcp + 12) 12 4 v.
Definition set_tcp_reserved m (tcp v : Z) := stbits16 m (tcp + 12) 9 3 v.
Definition set_tcp_flags m (tcp v : Z) := stbits16 m (tcp + 12) 0 9 v.
Definition set_tcp_win_sz m (tcp v : Z) := st16 m (tcp + 14) v.
Definition set_tcp_checksum m (tcp v : Z) := st16 m (tcp + 16) v.
Definition set_tcp_urgent_ptr m (tcp v : Z) := st16 m (tcp + 18) v.
Definition tcp_hdrlen m (tcp : Z) : res Z := h ← tcp_hlen m tcp; Ok (h * 4).
Definition tcp_payload m (tcp : Z) : res Z := h ← tcp_hdrlen m tcp; Ok (tcp + h).

Definition tcp_calc_checksum m (tcp tcplen ipsrc ipdst proto : Z) : res Z :=
  let tcplen := u16 tcplen in
  inet_checksum m tcp tcplen (pseudo_hdr ipsrc ipdst proto tcplen).

Definition tcp_optptr m (tcp offs : Z) : res Z :=
  h ← tcp_hdrlen m tcp;
  _ ← wassert (offs <? u32 (h - Tcp_length_min));
  Ok (tcp + Tcp_length_min + offs).

(** opt: the address of the first option of a kind, 0 if there is none. *)
Fixpoint tcp_opt_loop (fuel : nat) m (tcp kind rest offs : Z) : res Z :=
  if rest =? 0 then Ok 0 else
  match fuel with
  | O => Stop FFuel
  | S f =>
      opt ← tcp_optptr m tcp offs;
      knd ← ld8 m opt;
      if knd =? kind then Ok opt
      else if knd =? Opt_end then Ok 0
      else
        oplen ← (if knd =? Opt_nop then Ok 1 else ld8 m (opt + 1));
        tcp_opt_loop f m tcp kind (u32 (rest - oplen)) (u32 (offs + oplen))
  end.

Definition tcp_opt (fuel : nat) m (tcp kind : Z) : res Z :=
  h ← tcp_hdrlen m tcp;
  tcp_opt_loop fuel m tcp kind (u32 (h - Tcp_length_min)) 0.
