(* ===== verification/PacketSpec.v ===== *)
(** What the packets of [Packets] denote: the bytes in memory as lists, the
    effect of field accesses on them, and the Internet checksum of RFC 1071. *)

From Stdlib Require Import ZArith Lia Bool.
From stdpp Require Import base list numbers gmap.
From S2P Require Import Prelude SysUtils CString Packets.

Implicit Types (m : mem) (a : Z) (l : list Z).

(** ** Bytes in memory *)

Definition view m a l : Prop := forall i b, l !! i = Some b -> m !! (a + Z.of_nat i) = Some b.
Definition bytes_ok l : Prop := Forall (in_range 8) l.

(** [m'] is [m] outside of [len] bytes at [a]. *)
Definition wrote m a (len : Z) m' : Prop := forall x, ~ a <= x < a + len -> m' !! x = m !! x.

Lemma wrote_refl m a len : wrote m a len m.
Proof. by intros x _. Qed.
Lemma wrote_trans m1 m2 m3 a len : wrote m1 a len m2 -> wrote m2 a len m3 -> wrote m1 a len m3.
Proof. intros H1 H2 x Hx. rewrite (H2 x Hx). by apply H1. Qed.
Lemma wrote_mono m m' a b n k : wrote m a n m' -> b <= a -> a + n <= b + k -> wrote m b k m'.
Proof. intros H H1 H2 x Hx. apply H. lia. Qed.

Lemma view_nil m a : view m a [].
Proof. intros i b E. by rewrite lookup_nil in E. Qed.

Lemma view_cons m a b l : view m a (b :: l) <-> m !! a = Some b /\ view m (a + 1) l.
Proof.
  split.
  - intros V. split; [specialize (V 0%nat b eq_refl); by rewrite Z.add_0_r in V |]. intros i c E.
    specialize (V (S i) c E). by replace (a + 1 + Z.of_nat i) with (a + Z.of_nat (S i)) by lia.
  - intros [E V] [|i] c Ei; [by injection Ei as <-; rewrite Z.add_0_r |]. replace (a + Z.of_nat (S i)) with (a + 1 + Z.of_nat i) by lia. by apply V.
Qed.

Lemma view_app m a l1 l2 : view m a (l1 ++ l2) <-> view m a l1 /\ view m (a + Z.of_nat (length l1)) l2.
Proof.
  revert a. induction l1 as [|b l1 IH]; intros a; simpl; [rewrite Z.add_0_r; split; [intros V; by split; [apply view_nil |] | by intros [_ V]] |].
  rewrite !view_cons, IH. replace (a + 1 + Z.of_nat (length l1)) with (a + Z.of_nat (S (length l1))) by lia. tauto.
Qed.

Lemma view_loadb m a l i b : view m a l -> l !! i = Some b -> loadb m (a + Z.of_nat i) = Ok b.
Proof. intros V E. unfold loadb. by rewrite (V i b E). Qed.

Lemma view_load m l : forall a, view m a l -> load_bytes m a (length l) = Ok l.
Proof.
  induction l as [|b l IH]; intros a V; simpl; [done |]. apply view_cons in V as [E V]. unfold loadb. rewrite E. simpl. by rewrite IH.
Qed.

Lemma view_load_at m a l (off n : nat) : view m a l -> (off + n <= length l)%nat ->
  load_bytes m (a + Z.of_nat off) n = Ok (take n (drop off l)).
Proof.
  intros V Hn. assert (E : length (take n (drop off l)) = n) by (rewrite length_take, length_drop; lia). rewrite <- E at 1. apply view_load.
  rewrite <- (take_drop off l), view_app in V. destruct V as [_ V]. rewrite length_take in V. replace (off `min` length l)%nat with off in V by lia.
  rewrite <- (take_drop n (drop off l)), view_app in V. by destruct V.
Qed.

Lemma view_wrote m m' a l b n : view m a l -> wrote m b n m' -> a + Z.of_nat (length l) <= b \/ b + n <= a -> view m' a l.
Proof. intros V W Hd i c E. rewrite W; [by apply V |]. apply lookup_lt_Some in E. lia. Qed.

Lemma view_mapped m a l : view m a l -> mapped m a (Z.of_nat (length l)).
Proof. intros V i Hi. destruct (lookup_lt_is_Some_2 l (Z.to_nat i)) as [b Eb]; [lia |]. specialize (V _ b Eb). rewrite Z2Nat.id in V by lia. by exists b. Qed.

Lemma mapped_view m a n : mapped m a (Z.of_nat n) -> exists l, view m a l /\ length l = n.
Proof.
  intros H. destruct (load_bytes_ok m n a H) as (l & _ & Hl & Hi). exists l. split; [| done]. intros i b E. rewrite <- Hi; [done |]. apply lookup_lt_Some in E. lia.
Qed.

Lemma view_size l : forall m a, view m a l -> (length l <= size m)%nat.
Proof.
  induction l as [|b l IH]; intros m a V; simpl; [lia |]. apply view_cons in V as [E V]. assert (Hd : (length l <= size (delete a m))%nat).
  { apply (IH _ (a + 1)). intros i c Ei. rewrite lookup_delete_ne by lia. by apply V. }
  rewrite map_size_delete_Some in Hd by (by exists b). assert (size m <> 0%nat); [| lia]. intros Ez. apply map_size_empty_inv in Ez. subst m. by rewrite lookup_empty in E.
Qed.

(** ** Stores *)

Definition splice (off : nat) (bs l : list Z) : list Z := take off l ++ bs ++ drop (off + length bs) l.

Lemma splice_length off bs l : (off + length bs <= length l)%nat -> length (splice off bs l) = length l.
Proof. intros H. unfold splice. rewrite !length_app, length_take, length_drop. lia. Qed.

Lemma splice_bytes off bs l : bytes_ok l -> bytes_ok bs -> bytes_ok (splice off bs l).
Proof. intros Hl Hb. unfold splice, bytes_ok. rewrite !Forall_app. split_and!; [by apply Forall_take | done | by apply Forall_drop]. Qed.

Lemma store_view m a l (off : nat) bs : view m a l -> (off + length bs <= length l)%nat ->
  exists m', store_bytes m (a + Z.of_nat off) bs = Ok m' /\ view m' a (splice off bs l) /\ wrote m (a + Z.of_nat off) (Z.of_nat (length bs)) m'.
Proof.
  intros V Hn. destruct (store_bytes_ok bs m (a + Z.of_nat off)) as (m' & E & O).
  { intros i Hi. pose proof (view_mapped m a l V (Z.of_nat off + i) ltac:(lia)) as M. by rewrite Z.add_assoc in M. }
  exists m'. split; [done |]. assert (W : wrote m (a + Z.of_nat off) (Z.of_nat (length bs)) m').
  { intros x Hx. rewrite (O x). destruct (Z.leb_spec (a + Z.of_nat off) x), (Z.ltb_spec x (a + Z.of_nat off + Z.of_nat (length bs))); simpl; try done; lia. }
  split; [| done]. unfold splice. rewrite <- (take_drop off l) in V. rewrite <- (take_drop (length bs) (drop off l)), drop_drop, !view_app in V.
  rewrite !length_take, length_drop in V. replace (off `min` length l)%nat with off in V by lia. replace (length bs `min` (length l - off))%nat with (length bs) in V by lia.
  destruct V as (V1 & _ & V3). rewrite !view_app, length_take. replace (off `min` length l)%nat with off by lia. split_and!.
  - apply (view_wrote m m' _ _ _ _ V1 W). rewrite length_take. lia.
  - intros i b Eb. rewrite (O _). pose proof (lookup_lt_Some _ _ _ Eb). rewrite (proj2 (Z.leb_le _ _)), (proj2 (Z.ltb_lt _ _)) by lia. simpl.
    by replace (Z.to_nat (a + Z.of_nat off + Z.of_nat i - (a + Z.of_nat off))) with i by lia.
  - apply (view_wrote m m' _ _ _ _ V3 W). lia.
Qed.

(** ** The Internet checksum *)

(** The sum of the 16-bit values of a list of bytes. *)
Fixpoint wsum l : Z :=
  match l with hi :: lo :: t => hi * 256 + lo + wsum t | [b] => b * 256 | [] => 0 end.

(** The sum with end-around carry, and its complement. *)
Definition ones_sum (s : Z) : Z := if s =? 0 then 0 else (s - 1) mod 65535 + 1.
Definition checksum_of (s : Z) : Z := 65535 - ones_sum s.

Lemma pair_ind (P : list Z -> Prop) : P [] -> (forall b, P [b]) -> (forall x y t, P t -> P (x :: y :: t)) -> forall l, P l.
Proof.
  intros H0 H1 H2 l. assert (H : P l /\ forall x, P (x :: l)); [| by destruct H]. induction l as [|y t [IH1 IH2]]; [split; [done | by intros x] |]. split; [done |]. intros x. by apply H2.
Qed.

Lemma wsum_range l : bytes_ok l -> 0 <= wsum l <= 65535 * ((Z.of_nat (length l) + 1) / 2).
Proof.
  induction l as [|b|x y t IH] using pair_ind; intros Hb.
  - change ((Z.of_nat (length (@nil Z)) + 1) / 2) with 0. simpl. lia.
  - apply Forall_cons in Hb as [Hb _]. unfold in_range in Hb. change (2 ^ 8) with 256 in Hb. change ((Z.of_nat (length [b]) + 1) / 2) with 1. simpl. lia.
  - apply Forall_cons in Hb as [Hx Hb]. apply Forall_cons in Hb as [Hy Hb]. specialize (IH Hb). unfold in_range in *. change (2 ^ 8) with 256 in *.
    simpl length. cbn [wsum]. replace ((Z.of_nat (S (S (length t))) + 1) / 2) with ((Z.of_nat (length t) + 1) / 2 + 1) by (rewrite <- Z.div_add by lia; f_equal; lia). lia.
Qed.

Lemma wsum_app l1 l2 : Nat.Even (length l1) -> wsum (l1 ++ l2) = wsum l1 + wsum l2.
Proof.
  induction l1 as [|b|x y t IH] using pair_ind; intros He; simpl; [done | by destruct He as [k Hk]; simpl in Hk; lia |].
  rewrite IH; [lia |]. destruct He as [k Hk]. exists (k - 1)%nat. simpl in Hk. lia.
Qed.

Lemma ones_sum_range s : 0 <= s -> 0 <= ones_sum s <= 65535.
Proof. intros Hs. unfold ones_sum. destruct (Z.eqb_spec s 0); [lia |]. pose proof (Z.mod_pos_bound (s - 1) 65535). lia. Qed.

Lemma ones_sum_small s : 0 <= s <= 65535 -> ones_sum s = s.
Proof. intros Hs. unfold ones_sum. destruct (Z.eqb_spec s 0); [lia |]. rewrite Z.mod_small; lia. Qed.

Lemma ones_sum_cong s t : 0 < s -> 0 < t -> (65535 | s - t) -> ones_sum s = ones_sum t.
Proof.
  intros Hs Ht [k Hk]. unfold ones_sum. destruct (Z.eqb_spec s 0), (Z.eqb_spec t 0); try lia. replace (s - 1) with (t - 1 + k * 65535) by lia. by rewrite Z.mod_add.
Qed.

Lemma fold_step s : 0 <= s < 2 ^ 32 -> u32 (Z.land s 0xffff + Z.shiftr s 16) = s mod 65536 + s / 65536.
Proof.
  intros Hs. change 0xffff with (Z.ones 16). rewrite Z.land_ones, Z.shiftr_div_pow2 by lia. change (2 ^ 16) with 65536. apply wrap_small. unfold in_range.
  pose proof (Z.mod_pos_bound s 65536). pose proof (Z.div_lt_upper_bound s 65536 65536). pose proof (Z.div_pos s 65536). lia.
Qed.

Lemma fold_sum_ok s : 0 <= s < 2 ^ 32 -> fold_sum 3 s = Ok (ones_sum s).
Proof.
  intros Hs. assert (Hstep : forall f t, 0 <= t < 2 ^ 32 -> fold_sum (S f) t = if t <? 65536 then Ok t else fold_sum f (t mod 65536 + t / 65536)).
  { intros f t Ht. cbn [fold_sum]. rewrite fold_step by done. rewrite Z.shiftr_div_pow2 by lia. change (2 ^ 16) with 65536.
    destruct (Z.ltb_spec t 65536); [by rewrite Z.div_small by lia |]. rewrite (proj2 (Z.eqb_neq _ _)); [done |]. pose proof (Z.div_str_pos t 65536). lia. }
  assert (Hd : forall t, 65536 <= t < 2 ^ 32 -> let r := t mod 65536 + t / 65536 in 0 < r /\ r <= 131070 /\ ones_sum r = ones_sum t /\ (t <= 131070 -> r <= 65535)).
  { intros t Ht r. pose proof (Z.div_mod t 65536 ltac:(lia)). pose proof (Z.mod_pos_bound t 65536 ltac:(lia)). pose proof (Z.div_lt_upper_bound t 65536 65536). pose proof (Z.div_le_lower_bound t 65536 1).
    subst r. split_and!; [lia | lia | apply ones_sum_cong; [lia | lia |]; exists (- (t / 65536)); lia |]. intros Hb. assert (t / 65536 = 1) by (pose proof (Z.div_lt_upper_bound t 65536 2); lia). lia. }
  rewrite Hstep by done. destruct (Z.ltb_spec s 65536); [by rewrite ones_sum_small by lia |]. destruct (Hd s ltac:(lia)) as (P1 & B1 & E1 & _). rewrite <- E1. set (s1 := s mod 65536 + s / 65536) in *.
  rewrite Hstep by lia. destruct (Z.ltb_spec s1 65536); [by rewrite ones_sum_small by lia |]. destruct (Hd s1 ltac:(lia)) as (P2 & _ & E2 & L2). rewrite <- E2. set (s2 := s1 mod 65536 + s1 / 65536) in *.
  specialize (L2 B1). rewrite Hstep by lia. rewrite (proj2 (Z.ltb_lt s2 65536)) by lia. by rewrite ones_sum_small by lia.
Qed.

(** The pairs of a list, and its last byte if it is odd. *)
Fixpoint psum l : Z := match l with hi :: lo :: t => hi * 256 + lo + psum t | _ => 0 end.
Definition odd_tail l : Z := if Nat.odd (length l) then List.last l 0 * 256 else 0.

Lemma wsum_split l : wsum l = psum l + odd_tail l.
Proof.
  unfold odd_tail. induction l as [|b|x y t IH] using pair_ind; [done | done |]. cbn [wsum psum]. rewrite IH. change (Nat.odd (length (x :: y :: t))) with (Nat.odd (length t)).
  destruct (Nat.odd (length t)) eqn:E; [| lia]. destruct t; [done |]. simpl. lia.
Qed.

Lemma shl8 b : Z.shiftl b 8 = b * 256.
Proof. by rewrite Z.shiftl_mul_pow2. Qed.

Lemma sum_words_ok m a l : forall fuel i s, 0 <= i -> i + Z.of_nat (length l) < 2 ^ 32 -> 0 <= s -> (length l <= fuel)%nat -> bytes_ok l -> view m (a + i) l ->
  sum_words fuel m a i (i + Z.of_nat (length l) - 1) (u32 s) = Ok (u32 (s + psum l)).
Proof.
  induction l as [|b|x y t IH] using pair_ind; intros fuel i s Hi Hl Hs Hf Hb V.
  - replace (i + Z.of_nat (length (@nil Z)) - 1) with (i - 1) by (simpl; lia). destruct fuel; simpl; rewrite (proj2 (Z.ltb_ge _ _)), Z.add_0_r by lia; done.
  - replace (i + Z.of_nat (length [b]) - 1) with i by (simpl; lia). destruct fuel; simpl; rewrite Z.ltb_irrefl, Z.add_0_r; done.
  - destruct fuel as [|fuel]; [simpl in Hf; lia |]. simpl length in *. apply view_cons in V as [Ex V]. apply view_cons in V as [Ey V]. apply Forall_cons in Hb as [Hx Hb]. apply Forall_cons in Hb as [Hy Hb].
    replace (i + Z.of_nat (S (S (length t))) - 1) with (i + 2 + Z.of_nat (length t) - 1) by lia.
    cbn [sum_words]. rewrite (proj2 (Z.ltb_lt _ _)) by lia. unfold loadb. rewrite Ex. cbn [from_opt mbind res_bind]. rewrite Z.add_assoc, Ey. cbn [from_opt mbind res_bind]. rewrite (wrap_small 32 (i + 2)) by (unfold in_range; lia).
    rewrite shl8, wrap_add_l. cbn [psum].
    unfold in_range in *. rewrite IH; [f_equal; f_equal; lia | lia | lia | lia | lia | done | by replace (a + (i + 2)) with (a + i + 1 + 1) by lia].
Qed.

Lemma odd_of_nat n : Z.odd (Z.of_nat n) = Nat.odd n.
Proof. induction n as [|n IH]; [done |]. rewrite Nat2Z.inj_succ, Z.odd_succ, Nat.odd_succ, <- Z.negb_odd, IH. apply Nat.negb_odd. Qed.

Lemma sum_data_ok m a l s : 0 < Z.of_nat (length l) < 2 ^ 31 -> 0 <= s -> bytes_ok l -> view m a l ->
  sum_data m a (Z.of_nat (length l)) (u32 s) = Ok (u32 (s + wsum l)).
Proof.
  intros Hl Hs Hb V. unfold sum_data. rewrite (wrap_small 32 (Z.of_nat (length l) - 1)) by (unfold in_range; lia).
  pose proof (view_size l m a V). pose proof (sum_words_ok m a l (S (size m)) 0 s ltac:(lia) ltac:(lia) Hs ltac:(lia) Hb ltac:(by rewrite Z.add_0_r)) as E. rewrite Z.add_0_l in E. rewrite E.
  cbn [mbind res_bind]. rewrite wsum_split. unfold odd_tail. rewrite <- odd_of_nat. destruct (Z.odd (Z.of_nat (length l))).
  - destruct l as [|b0 l'] eqn:El; [simpl in Hl; lia |]. rewrite <- El in *. assert (Ei : l !! (length l - 1)%nat = Some (List.last l 0)).
    { rewrite El. clear. revert b0. induction l' as [|c t IH]; intros b; [done |]. specialize (IH c). simpl in *. by rewrite Nat.sub_0_r in *. }
    replace (Z.of_nat (length l) - 1) with (Z.of_nat (length l - 1)) by lia. rewrite (view_loadb m a l _ _ V Ei). simpl. rewrite shl8, wrap_add_l. f_equal. f_equal. lia.
  - f_equal. f_equal. lia.
Qed.

Lemma sum_array_ok l : forall s, sum_array l (u32 s) = u32 (s + wsum l).
Proof.
  induction l as [|b|x y t IH] using pair_ind; intros s; cbn [sum_array wsum].
  - by rewrite Z.add_0_r.
  - by rewrite shl8, wrap_add_l.
  - rewrite shl8, wrap_add_l, IH. f_equal. lia.
Qed.

Lemma checksum_u16 s : 0 <= s <= 65535 -> u16 (Z.lnot s) = 65535 - s.
Proof. intros Hs. unfold Z.lnot, wrap. rewrite <- (Z.mod_add _ 1) by lia. change (2 ^ 16) with 65536. rewrite Z.mod_small; lia. Qed.

(** The routine computes the checksum of RFC 1071. *)
Lemma inet_checksum_ok m a l d : 0 < Z.of_nat (length l) <= 65535 -> (length d <= 64)%nat -> bytes_ok l -> bytes_ok d -> view m a l ->
  inet_checksum m a (Z.of_nat (length l)) d = Ok (checksum_of (wsum l + wsum d)).
Proof.
  intros Hl Hd Hb Hbd V. unfold inet_checksum. change 0 with (u32 0) at 1. rewrite sum_data_ok by (done || lia). cbn [mbind res_bind]. rewrite sum_array_ok, Z.add_0_l.
  pose proof (wsum_range l Hb). pose proof (wsum_range d Hbd). pose proof (Z.div_le_upper_bound (Z.of_nat (length l) + 1) 2 32768). pose proof (Z.div_le_upper_bound (Z.of_nat (length d) + 1) 2 33).
  rewrite wrap_small by (unfold in_range; lia). rewrite fold_sum_ok by lia. cbn [mbind res_bind]. f_equal. apply checksum_u16. apply ones_sum_range. lia.
Qed.

(** Data whose checksum field holds the checksum of the rest sum up to 0. *)
Lemma checksum_valid s : 0 <= s -> checksum_of (s + checksum_of s) = 0.
Proof.
  intros Hs. unfold checksum_of. pose proof (ones_sum_range s Hs). enough (E : ones_sum (s + (65535 - ones_sum s)) = ones_sum 65535) by (rewrite E; reflexivity).
  apply ones_sum_cong; [| lia |].
  - unfold ones_sum in *. destruct (Z.eqb_spec s 0); lia.
  - unfold ones_sum. destruct (Z.eqb_spec s 0) as [->|]; [by exists 0 |]. exists ((s - 1) / 65535). pose proof (Z.div_mod (s - 1) 65535). lia.
Qed.

Lemma be2 v : be_bytes 2 v = [u8 (Z.shiftr v 8); u8 v].
Proof. reflexivity. Qed.
Lemma be_word2 v : in_range 16 v -> u8 (Z.shiftr v 8) * 256 + u8 v = v.
Proof.
  unfold in_range, wrap. intros Hv. rewrite Z.shiftr_div_pow2 by lia. change (2 ^ 8) with 256. change (2 ^ 16) with 65536 in Hv.
  rewrite (Z.mod_small (v / 256)) by (pose proof (Z.div_pos v 256); pose proof (Z.div_lt_upper_bound v 256 256); lia). pose proof (Z.div_mod v 256). lia.
Qed.

Lemma be_bytes_ok w : forall v, bytes_ok (be_bytes w v) /\ length (be_bytes w v) = w.
Proof.
  induction w as [|w IH]; intros v; [by split; [apply Forall_nil_2 |] |]. destruct (IH v) as [Hb Hl]. split; [| simpl; by rewrite Hl].
  apply Forall_cons. split; [| done]. apply Z.mod_pos_bound. lia.
Qed.

(** Writing a 16-bit value over zeros adds it to the sum. *)
Lemma wsum_field off l v : Nat.Even off -> (off + 2 <= length l)%nat -> take 2 (drop off l) = [0; 0] -> in_range 16 v -> wsum (splice off (be_bytes 2 v) l) = wsum l + v.
Proof.
  intros He Hn Hz Hv. unfold splice. assert (Ht : Nat.Even (length (take off l))) by (by rewrite length_take, Nat.min_l by lia).
  rewrite wsum_app by done. rewrite be2. cbn [app wsum length]. rewrite be_word2 by done.
  rewrite <- (take_drop off l) at 3. rewrite wsum_app by done. rewrite <- (take_drop 2 (drop off l)), Hz, drop_drop. cbn [app wsum]. lia.
Qed.

Lemma checksum_range s : 0 <= s -> in_range 16 (checksum_of s).
Proof. intros Hs. pose proof (ones_sum_range s Hs). unfold checksum_of, in_range. lia. Qed.

Lemma sum_words_runaway fuel : forall m a i s r, Z.Even i -> 0 <= i < 2 ^ 32 -> sum_words fuel m a i 0xffffffff s <> Ok r.
Proof.
  induction fuel as [|fuel IH]; intros m a i s r He Hi E; cbn [sum_words] in E; rewrite (proj2 (Z.ltb_lt _ _)) in E by (destruct He; lia); [done |].
  apply bind_Ok in E as (hi & _ & E). apply bind_Ok in E as (lo & _ & E). revert E. apply IH.
  - unfold wrap. destruct He as [k ->]. exists ((k + 1) mod 2 ^ 31). replace (2 * k + 2) with (2 * (k + 1)) by lia. change (2 ^ 32) with (2 * 2 ^ 31). by rewrite Z.mul_mod_distr_l.
  - apply Z.mod_pos_bound. lia.
Qed.

(** C37: inet_checksum computes the checksum of RFC 1071 over a non-empty range
    and a second array: the complement of the sum of the big-endian 16-bit
    values with end-around carry, a last odd byte padded with zero.  If a
    16-bit field at an even place is zero and then gets this checksum, the
    routine returns 0 for the range.  For an empty range it never returns: the
    loop runs through the memory. *)
Theorem inet_checksum_correct m a l d : Z.of_nat (length l) <= 65535 -> (length d <= 64)%nat -> bytes_ok l -> bytes_ok d -> view m a l ->
  ((0 < length l)%nat -> inet_checksum m a (Z.of_nat (length l)) d = Ok (checksum_of (wsum l + wsum d))) /\
  (forall off, Nat.Even off -> (off + 2 <= length l)%nat -> take 2 (drop off l) = [0; 0] ->
     exists m', st16 m (a + Z.of_nat off) (checksum_of (wsum l + wsum d)) = Ok m' /\ inet_checksum m' a (Z.of_nat (length l)) d = Ok 0) /\
  (forall r, inet_checksum m a 0 d <> Ok r).
Proof.
  intros Hl Hd Hb Hbd V. pose proof (wsum_range l Hb). pose proof (wsum_range d Hbd). set (c := checksum_of (wsum l + wsum d)). split_and!.
  - intros Hpos. apply inet_checksum_ok; try done; lia.
  - intros off He Hn Hz. destruct (store_view m a l off (be_bytes 2 c) V Hn) as (m' & E & V' & _). exists m'. split; [done |].
    assert (Hc : in_range 16 c) by (apply checksum_range; lia). assert (El : length (splice off (be_bytes 2 c) l) = length l) by (apply splice_length; exact Hn).
    rewrite <- El. rewrite inet_checksum_ok; [| rewrite El; lia | done | apply splice_bytes; [done | by apply be_bytes_ok] | done | done].
    rewrite wsum_field by done. replace (wsum l + c + wsum d) with (wsum l + wsum d + c) by lia. f_equal. apply checksum_valid. lia.
  - intros r E. unfold inet_checksum, sum_data in E. apply bind_Ok in E as (s & E & _). apply bind_Ok in E as (s' & E & _). revert E. apply sum_words_runaway; [by exists 0 | lia].
Qed.

(** The header of an IP packet: a well-known example. *)
Definition ex_hdr : list Z := [0x45; 0; 0; 0x73; 0; 0; 0x40; 0; 0x40; 0x11; 0; 0; 0xc0; 0xa8; 0; 1; 0xc0; 0xa8; 0; 0xc7].
Definition ex_hdr_mem : mem := list_to_map (imap (fun i b => (0x1000 + Z.of_nat i, b)) ex_hdr).
Lemma ex_hdr_view : view ex_hdr_mem 0x1000 ex_hdr.
Proof.
  intros i b E. pose proof (lookup_lt_Some _ _ _ E) as Hi. simpl in Hi. do 20 (destruct i as [|i]; [injection E as <-; vm_compute; reflexivity |]). lia.
Qed.

Lemma inet_checksum_correct_witness :
  inet_checksum ex_hdr_mem 0x1000 20 [] = Ok 0xb861 /\ exists m', st16 ex_hdr_mem 0x100a 0xb861 = Ok m' /\ inet_checksum m' 0x1000 20 [] = Ok 0.
Proof.
  destruct (inet_checksum_correct ex_hdr_mem 0x1000 ex_hdr []) as (H1 & H2 & _).
  - simpl. lia.
  - simpl. lia.
  - unfold bytes_ok, in_range, ex_hdr. rewrite !Forall_cons. split_and!; (lia || apply Forall_nil_2).
  - apply Forall_nil_2.
  - exact ex_hdr_view.
  - split; [apply H1; simpl; lia |]. apply (H2 10%nat); [by exists 5%nat | simpl; lia | reflexivity].
Defined.
