(* ===== verification/Sockets.v ===== *)
(** app/tcpip/socket.h: TCP streams, UDP and TCP sockets and the tables of
    them, on the contract [ListSpec] of list_t.

    A pointer to a stream or to a socket is the item of its list.  The buffer
    of a stream is the list of the bytes below its write position; the bytes
    behind it are never read.  The constants of the socket interface are those
    of the C library. *)

From Stdlib Require Import ZArith Lia Bool.
From stdpp Require Import base list numbers.
From S2P Require Import Prelude SysUtils ListSpec L4Types.

Definition AF_INET : Z := 2.
Definition SOCK_STREAM : Z := 1.
Definition SOCK_DGRAM : Z := 2.
Definition IPPROTO_TCP : Z := 6.
Definition IPPROTO_UDP : Z := 17.
Definition INADDR_ANY : Z := 0.

(** sockaddr_in, four words. *)
Record sockaddr := MkSa { sin_family : Z; sin_port : Z; sin_addr : Z; sin_zero : list Z }.
Definition sa_words (a : sockaddr) : list Z := Z.lor (Z.shiftl (sin_family a) 16) (sin_port a) :: sin_addr a :: sin_zero a.
Definition sa_of_words (w0 w1 w2 w3 : Z) : sockaddr := MkSa (bf_get 16 16 w0) (bf_get 0 16 w0) w1 [w2; w3].
Definition sa_make (port addr : Z) : sockaddr := MkSa AF_INET port addr [0; 0].

(** ** Streams *)

Inductive sstate := Closed | Listen | Syn_sent | Syn_received | Established | Fin_wait1 | Close_wait | Fin_wait2 | Last_ack | Time_wait | Closing.
#[export] Instance sstate_eq_dec : EqDecision sstate.
Proof. solve_decision. Defined.

Definition Stream_buf_sz : Z := 0x100.
Record stream := MkStream {
  s_state : sstate; rem_addr : Z; rem_port : Z;
  seq_rx : Z; seq_tx : Z; init_seq_rx : Z; init_seq_tx : Z; s_buf : list Z }.

Definition stream_ctor (addr port : Z) : stream := MkStream Closed addr port 0 0 0 0 [].
Definition s_wp (s : stream) : Z := Z.of_nat (length (s_buf s)).
Definition with_state (s : stream) (x : sstate) : stream :=
  MkStream x (rem_addr s) (rem_port s) (seq_rx s) (seq_tx s) (init_seq_rx s) (init_seq_tx s) (s_buf s).
Definition with_rx (s : stream) (init v : Z) : stream :=
  MkStream (s_state s) (rem_addr s) (rem_port s) (u32 v) (seq_tx s) (u32 init) (init_seq_tx s) (s_buf s).
Definition with_tx (s : stream) (init v : Z) : stream :=
  MkStream (s_state s) (rem_addr s) (rem_port s) (seq_rx s) (u32 v) (init_seq_rx s) (u32 init) (s_buf s).
Definition add_rx (s : stream) (n : Z) : stream := with_rx s (init_seq_rx s) (seq_rx s + n).
Definition add_tx (s : stream) (n : Z) : stream := with_tx s (init_seq_tx s) (seq_tx s + n).
Definition with_buf (s : stream) (l : list Z) : stream :=
  MkStream (s_state s) (rem_addr s) (rem_port s) (seq_rx s) (seq_tx s) (init_seq_rx s) (init_seq_tx s) l.

Definition has_it {T} (A : alist T) (it : Z) : bool := match find_it it (busy A) with Some _ => true | None => false end.

Definition streams_add (A : alist stream) (addr port : Z) : res (Z * alist stream) :=
  A ← push_back A (stream_ctor addr port);
  Ok (last A, A).

Definition streams_remove (A : alist stream) (s : Z) : res (Z * alist stream) :=
  if has_it A s then e ← erase A s; Ok (0, e.2) else Ok (1, A).

Definition streams_free_sz (A : alist stream) : nat := length (free A).

(** ** Socket_t *)

Record sock := MkSock {
  so_owner : Z; so_thr_begin : Z; so_thr_end : Z; so_client : Z; so_recv_client : Z; so_id : Z;
  so_net_state : Z; so_cli_state : Z; so_bound : bool; so_saddr : sockaddr;
  so_wait_arp : bool; so_frame : Z; so_frame_len : Z }.

Definition sock_ctor (owner thr_begin thr_end id : Z) : sock :=
  MkSock owner thr_begin thr_end Thrid_nil Thrid_nil id 0 0 false (MkSa 0 0 0 [0; 0]) false 0 0.
Definition with_client (s : sock) (v : Z) : sock :=
  MkSock (so_owner s) (so_thr_begin s) (so_thr_end s) v (so_recv_client s) (so_id s) (so_net_state s) (so_cli_state s) (so_bound s) (so_saddr s) (so_wait_arp s) (so_frame s) (so_frame_len s).
Definition with_recv_client (s : sock) (v : Z) : sock :=
  MkSock (so_owner s) (so_thr_begin s) (so_thr_end s) (so_client s) v (so_id s) (so_net_state s) (so_cli_state s) (so_bound s) (so_saddr s) (so_wait_arp s) (so_frame s) (so_frame_len s).
Definition with_net_state (s : sock) (v : Z) : sock :=
  MkSock (so_owner s) (so_thr_begin s) (so_thr_end s) (so_client s) (so_recv_client s) (so_id s) v (so_cli_state s) (so_bound s) (so_saddr s) (so_wait_arp s) (so_frame s) (so_frame_len s).
Definition with_cli_state (s : sock) (v : Z) : sock :=
  MkSock (so_owner s) (so_thr_begin s) (so_thr_end s) (so_client s) (so_recv_client s) (so_id s) (so_net_state s) v (so_bound s) (so_saddr s) (so_wait_arp s) (so_frame s) (so_frame_len s).
Definition with_saddr (s : sock) (a : sockaddr) : sock :=
  MkSock (so_owner s) (so_thr_begin s) (so_thr_end s) (so_client s) (so_recv_client s) (so_id s) (so_net_state s) (so_cli_state s) true a (so_wait_arp s) (so_frame s) (so_frame_len s).
Definition wait_arp (s : sock) (v : bool) : sock :=
  MkSock (so_owner s) (so_thr_begin s) (so_thr_end s) (so_client s) (so_recv_client s) (so_id s) (so_net_state s) (so_cli_state s) (so_bound s) (so_saddr s) v (so_frame s) (so_frame_len s).
Definition store_tx_eth_frame (s : sock) (f l : Z) : sock :=
  MkSock (so_owner s) (so_thr_begin s) (so_thr_end s) (so_client s) (so_recv_client s) (so_id s) (so_net_state s) (so_cli_state s) (so_bound s) (so_saddr s) (so_wait_arp s) f l.

Definition saddr_addr (s : sock) : Z := sin_addr (so_saddr s).
Definition saddr_port (s : sock) : Z := sin_port (so_saddr s).
Definition is_net_state_idle (s : sock) : bool := so_net_state s =? 0.
Definition is_cli_state_idle (s : sock) : bool := so_cli_state s =? 0.
Definition is_owner (s : sock) (id : Z) : bool := (so_thr_begin s <=? thrid_number id) && (thrid_number id <? so_thr_end s).

(** The port counter of a protocol. *)
Definition alloc_free_port (port : Z) : Z * Z := let p := if 3000 <? port then 2000 else port in (u16 p, p + 1).

(** bind(iaddr): the socket and the port counter; bind(saddr): the result. *)
Definition auto_bind (s : sock) (iaddr port : Z) : bool * sock * Z :=
  if so_bound s then (true, s, port)
  else
    let '(p, port) := alloc_free_port port in
    if p =? 0 then (false, s, port)
    else (true, with_saddr s (MkSa AF_INET p iaddr (sin_zero (so_saddr s))), port).

Definition sock_bind (s : sock) (a : sockaddr) : Z * sock :=
  if so_bound s then (1, s)
  else if negb (AF_INET =? sin_family a) then (3, s)
  else (0, with_saddr s a).

(** ** Udp_socket_t *)

Definition Udp_net_idle : Z := 0.
Definition Udp_cli_idle : Z := 0.
Definition Udp_cli_send : Z := 1.
Definition Udp_cli_recv : Z := 2.
Definition Pkt_buf_sz : Z := 0x100.
Definition Pkts_max : nat := 16.

Record pkt := MkPkt { p_saddr : sockaddr; p_buf : list Z }.
Record usock := MkU { u_sock : sock; u_pkts : list pkt }.
Definition u_with (u : usock) (s : sock) : usock := MkU s (u_pkts u).

Definition udp_recv (u : usock) : res usock :=
  _ ← wassert (so_bound (u_sock u));
  Ok (u_with u (with_cli_state (u_sock u) Udp_cli_recv)).

Definition get_received_packet (u : usock) : option pkt := head (u_pkts u).
Definition free_received_packet (u : usock) : res usock :=
  _ ← wassert (negb (Nat.eqb (length (u_pkts u)) 0));
  Ok (MkU (u_sock u) (tail (u_pkts u))).

(** [bf n]: the first n bytes of the buffer; [junk]: the source address that
    the storage of the new packet holds. *)
Definition save_received_packet (u : usock) (junk addr : sockaddr) (bf : nat -> res (list Z)) (sz : Z) : res (Z * usock) :=
  if Nat.eqb (length (u_pkts u)) Pkts_max then Ok (1, u)
  else if Pkt_buf_sz <? sz then Ok (2, MkU (u_sock u) (u_pkts u ++ [MkPkt junk []]))
  else l ← bf (Z.to_nat sz); Ok (0, MkU (u_sock u) (u_pkts u ++ [MkPkt addr l])).

(** ** Tcp_socket_t *)

Definition Backlog_min : Z := 1.
Definition Backlog_max : Z := 3.
Definition Net_idle : Z := 0.
Definition Net_listen : Z := 1.
Definition Net_connection : Z := 2.
Definition Cli_idle : Z := 0.
Definition Cli_connect : Z := 1.
Definition Cli_accept : Z := 2.
Definition Cli_recv : Z := 3.
Definition Cli_send : Z := 4.
Definition Cli_close : Z := 5.
Definition Cli_closed : Z := 6.

Record tsock := MkT { t_sock : sock; t_streams : list Z; t_connected : list Z; t_queue_sz : Z; t_stream : Z }.
Definition t_with (t : tsock) (s : sock) : tsock := MkT s (t_streams t) (t_connected t) (t_queue_sz t) (t_stream t).
Definition t_net_state (t : tsock) : Z := so_net_state (t_sock t).
Definition t_cli_state (t : tsock) : Z := so_cli_state (t_sock t).

Definition tcp_ctor (owner thr_begin thr_end id stream : Z) : tsock :=
  let s := sock_ctor owner thr_begin thr_end id in
  MkT (if negb (stream =? 0) then with_net_state s Net_connection else s) [] [] 0 stream.

Definition tcp_listen (t : tsock) (backlog : Z) : res tsock :=
  _ ← wassert (t_net_state t =? Net_idle);
  _ ← wassert (t_cli_state t =? Cli_idle);
  _ ← wassert (so_bound (t_sock t));
  let backlog := if backlog <=? 0 then Backlog_min else if Backlog_max <? backlog then Backlog_max else backlog in
  Ok (MkT (with_net_state (t_sock t) Net_listen) (t_streams t) (t_connected t) backlog (t_stream t)).

Definition tcp_recv (t : tsock) : res tsock :=
  _ ← wassert (t_net_state t =? Net_connection);
  _ ← wassert (t_cli_state t =? Cli_idle);
  _ ← wassert (so_bound (t_sock t));
  Ok (t_with t (with_cli_state (t_sock t) Cli_recv)).

(** The lists of stream pointers have Backlog_max items. *)
Definition push_ptr (l : list Z) (p : Z) : res (list Z) :=
  if Nat.eqb (length l) (Z.to_nat Backlog_max) then Stop FPanic else Ok (l ++ [p]).
Fixpoint mem_ptr (l : list Z) (p : Z) : bool := match l with [] => false | q :: t => if q =? p then true else mem_ptr t p end.
Fixpoint erase_ptr (l : list Z) (p : Z) : list Z := match l with [] => [] | q :: t => if q =? p then t else q :: erase_ptr t p end.

Fixpoint find_stream (A : alist stream) (l : list Z) (addr port : Z) : res (option Z) :=
  match l with
  | [] => Ok None
  | p :: t =>
      s ← deref A p;
      if (rem_addr s =? addr) && (rem_port s =? port) then Ok (Some p) else find_stream A t addr port
  end.

Definition move_to_connected_queue (t : tsock) (stream : Z) : res (Z * tsock) :=
  _ ← wassert (t_net_state t =? Net_listen);
  _ ← wassert (t_cli_state t =? Cli_accept);
  _ ← wassert (so_bound (t_sock t));
  if Z.of_nat (length (t_connected t)) =? t_queue_sz t then Ok (1, t)
  else if mem_ptr (t_streams t) stream then
    q ← push_ptr (t_connected t) stream;
    Ok (0, MkT (t_sock t) (erase_ptr (t_streams t) stream) q (t_queue_sz t) (t_stream t))
  else Ok (2, t).

Definition get_connected_stream (t : tsock) : res (Z * tsock) :=
  _ ← wassert (t_net_state t =? Net_listen);
  _ ← wassert (t_cli_state t =? Cli_accept);
  _ ← wassert (so_bound (t_sock t));
  match t_connected t with
  | [] => Ok (0, t)
  | p :: q => Ok (p, MkT (t_sock t) (t_streams t) q (t_queue_sz t) (t_stream t))
  end.

Definition add_stream (A : alist stream) (t : tsock) (addr port : Z) : res (Z * alist stream * tsock) :=
  _ ← wassert (t_net_state t =? Net_listen);
  _ ← wassert (so_bound (t_sock t));
  if negb (Nat.eqb (streams_free_sz A) 0) && negb (Nat.eqb (length (t_streams t)) (Z.to_nat Backlog_max)) then
    o ← find_stream A (t_streams t) addr port;
    _ ← wassert (match o with None => true | Some _ => false end);
    r ← streams_add A addr port;
    l ← push_ptr (t_streams t) r.1;
    Ok (r.1, r.2, MkT (t_sock t) l (t_connected t) (t_queue_sz t) (t_stream t))
  else Ok (0, A, t).

Definition get_stream (A : alist stream) (t : tsock) (addr port : Z) : res Z :=
  _ ← wassert (t_net_state t =? Net_listen);
  _ ← wassert (so_bound (t_sock t));
  o ← find_stream A (t_streams t) addr port;
  Ok (match o with Some p => p | None => 0 end).

(** rem_stream(stream): out of the connected queue. *)
Definition rem_connected (A : alist stream) (t : tsock) (stream : Z) : res tsock :=
  _ ← wassert (t_net_state t =? Net_listen);
  _ ← wassert (so_bound (t_sock t));
  s ← deref A stream;
  o ← find_stream A (t_connected t) (rem_addr s) (rem_port s);
  Ok (match o with Some p => MkT (t_sock t) (t_streams t) (erase_ptr (t_connected t) p) (t_queue_sz t) (t_stream t) | None => t end).

Definition streams_count (t : tsock) : nat := length (t_streams t) + length (t_connected t).

(** stream(addr, port): the stream of a connecting socket. *)
Definition make_stream (A : alist stream) (t : tsock) (addr port : Z) : res (Z * alist stream * tsock) :=
  _ ← wassert (t_net_state t =? Net_connection);
  _ ← wassert (so_bound (t_sock t));
  if negb (Nat.eqb (streams_free_sz A) 0) && negb (Nat.eqb (length (t_streams t)) (Z.to_nat Backlog_max)) then
    r ← streams_add A addr port;
    Ok (r.1, r.2, MkT (t_sock t) (t_streams t) (t_connected t) (t_queue_sz t) r.1)
  else Ok (0, A, t).

(** rem_stream() of a connected socket. *)
Definition rem_own_stream (A : alist stream) (t : tsock) : res (Z * alist stream) :=
  _ ← wassert (t_net_state t =? Net_connection);
  _ ← wassert (t_cli_state t =? Cli_closed);
  _ ← wassert (so_bound (t_sock t));
  streams_remove A (t_stream t).

(** ** The tables *)

Definition addr_fits (s : sock) (loc_addr loc_port : Z) : bool :=
  ((saddr_addr s =? INADDR_ANY) || (saddr_addr s =? loc_addr)) && (saddr_port s =? loc_port).

Fixpoint find_sock {T} (f : T -> bool) (l : list (Z * T)) : Z :=
  match l with [] => 0 | (it, s) :: t => if f s then it else find_sock f t end.

Definition udp_find_id (A : alist usock) (id : Z) : Z := find_sock (fun u => so_id (u_sock u) =? id) (busy A).
Definition udp_find (A : alist usock) (loc_addr loc_port : Z) : Z := find_sock (fun u => addr_fits (u_sock u) loc_addr loc_port) (busy A).
Definition udp_is_saddr_free (A : alist usock) (a : sockaddr) : bool := udp_find A (sin_addr a) (sin_port a) =? 0.

(** [cnt]: the static counter of socket ids. *)
Definition udp_add (A : alist usock) (cnt owner thr_begin thr_end : Z) : res (Z * Z * alist usock) :=
  if Nat.eqb (length (free A)) 0 then Ok (0, cnt, A)
  else A ← push_back A (MkU (sock_ctor owner thr_begin thr_end (s32 (cnt + 1))) []); Ok (last A, s32 (cnt + 1), A).

Definition udp_remove (A : alist usock) (id owner : Z) : res (Z * alist usock) :=
  let it := udp_find_id A id in
  if it =? 0 then Ok (1, A)
  else u ← deref A it; if so_owner (u_sock u) =? owner then e ← erase A it; Ok (0, e.2) else Ok (1, A).

Definition tcp_find (A : alist tsock) (id : Z) : Z := find_sock (fun t => so_id (t_sock t) =? id) (busy A).
Definition find_listening_socket (A : alist tsock) (loc_addr loc_port : Z) : Z := find_sock (fun t => addr_fits (t_sock t) loc_addr loc_port) (busy A).
Definition tcp_is_saddr_free (A : alist tsock) (a : sockaddr) : bool := find_listening_socket A (sin_addr a) (sin_port a) =? 0.

Fixpoint find_connected (S : alist stream) (l : list (Z * tsock)) (loc_addr loc_port raddr rport : Z) : res Z :=
  match l with
  | [] => Ok 0
  | (it, t) :: l' =>
      if addr_fits (t_sock t) loc_addr loc_port && negb (t_stream t =? 0) then
        s ← deref S (t_stream t);
        if (rem_addr s =? raddr) && (rem_port s =? rport) then Ok it
        else find_connected S l' loc_addr loc_port raddr rport
      else find_connected S l' loc_addr loc_port raddr rport
  end.
Definition find_connected_socket (S : alist stream) (A : alist tsock) (loc_addr loc_port raddr rport : Z) : res Z :=
  find_connected S (busy A) loc_addr loc_port raddr rport.

Definition tcp_add (A : alist tsock) (cnt owner thr_begin thr_end stream : Z) : res (Z * Z * alist tsock) :=
  if Nat.eqb (length (free A)) 0 then Ok (0, cnt, A)
  else A ← push_back A (tcp_ctor owner thr_begin thr_end (s32 (cnt + 1)) stream); Ok (last A, s32 (cnt + 1), A).

(** add(parent, stream, loc_addr): a new connected socket. *)
Definition tcp_add_connected (S : alist stream) (A : alist tsock) (cnt parent stream loc_addr : Z) : res (Z * Z * alist tsock) :=
  p ← deref A parent;
  _ ← wassert (t_net_state p =? Net_listen);
  r ← tcp_add A cnt (so_owner (t_sock p)) (so_thr_begin (t_sock p)) (so_thr_end (t_sock p)) stream;
  let '(it, cnt, A) := r in
  if it =? 0 then Ok (0, cnt, A)
  else
    p ← deref A parent;
    p ← rem_connected S p stream;
    let A := store A parent p in
    n ← deref A it;
    let b := sock_bind (t_sock n) (sa_make (saddr_port (t_sock p)) loc_addr) in
    _ ← wassert (b.1 =? 0);
    Ok (it, cnt, store A it (t_with n b.2)).

Definition tcp_remove (A : alist tsock) (id owner : Z) : res (Z * alist tsock) :=
  let it := tcp_find A id in
  if it =? 0 then Ok (1, A)
  else t ← deref A it; if so_owner (t_sock t) =? owner then e ← erase A it; Ok (0, e.2) else Ok (1, A).
