(* ===== verification/NetStack.v ===== *)
(** app/tcpip/main.cpp: the network stack server: interfaces, frame pool, ARP
    cache, packet processing, the requests of the clients of the socket
    interface and the rounds of the two server threads.

    A handler runs under the mutex of the stack, so it is a function on the
    state of the whole server ([N]).  The Ethernet driver, the clients that
    receive replies and the root task are other programs: the class [NetEnv]
    has their answers.  Frames and replies that were sent are recorded as
    [events].  The clock has one value during a handler.  Logging is left out. *)

From Stdlib Require Import ZArith Lia Bool.
From stdpp Require Import base list numbers gmap.
From S2P Require Import Prelude SysUtils ListSpec L4Types CString Packets Sockets.

(** ** State *)

Record ipif := MkIpif { if_addr : Z; if_mask : Z; if_mac : mac_t }.
Record frame := MkFrame { f_buf : Z; f_busy : bool }.
Record arp_rec := MkArp { a_ip : Z; a_mac : mac_t; a_timeout : Z }.

(** A frame given to the driver; a reply to a client. *)
Inductive event :=
  | EvTx (bytes : list Z)
  | EvReply (cli ecode : Z) (words : list Z) (buf : option (list Z)).

Record net := MkNet {
  n_mem : mem; frames : list frame; arp_cache : list arp_rec;
  eth_ifaces : list mac_t; ip_ifaces : list ipif;
  udp_sockets : alist usock; tcp_sockets : alist tsock; allstreams : alist stream;
  sock_cnt : Z; udp_port : Z; tcp_port : Z; now : Z; events : list event }.

Definition set_mem (n : net) (v : mem) : net :=
  MkNet v (frames n) (arp_cache n) (eth_ifaces n) (ip_ifaces n) (udp_sockets n) (tcp_sockets n) (allstreams n) (sock_cnt n) (udp_port n) (tcp_port n) (now n) (events n).
Definition set_frames (n : net) (v : list frame) : net :=
  MkNet (n_mem n) v (arp_cache n) (eth_ifaces n) (ip_ifaces n) (udp_sockets n) (tcp_sockets n) (allstreams n) (sock_cnt n) (udp_port n) (tcp_port n) (now n) (events n).
Definition set_arp (n : net) (v : list arp_rec) : net :=
  MkNet (n_mem n) (frames n) v (eth_ifaces n) (ip_ifaces n) (udp_sockets n) (tcp_sockets n) (allstreams n) (sock_cnt n) (udp_port n) (tcp_port n) (now n) (events n).
Definition set_udp (n : net) (v : alist usock) : net :=
  MkNet (n_mem n) (frames n) (arp_cache n) (eth_ifaces n) (ip_ifaces n) v (tcp_sockets n) (allstreams n) (sock_cnt n) (udp_port n) (tcp_port n) (now n) (events n).
Definition set_tcp (n : net) (v : alist tsock) : net :=
  MkNet (n_mem n) (frames n) (arp_cache n) (eth_ifaces n) (ip_ifaces n) (udp_sockets n) v (allstreams n) (sock_cnt n) (udp_port n) (tcp_port n) (now n) (events n).
Definition set_streams (n : net) (v : alist stream) : net :=
  MkNet (n_mem n) (frames n) (arp_cache n) (eth_ifaces n) (ip_ifaces n) (udp_sockets n) (tcp_sockets n) v (sock_cnt n) (udp_port n) (tcp_port n) (now n) (events n).
Definition set_cnt (n : net) (v : Z) : net :=
  MkNet (n_mem n) (frames n) (arp_cache n) (eth_ifaces n) (ip_ifaces n) (udp_sockets n) (tcp_sockets n) (allstreams n) v (udp_port n) (tcp_port n) (now n) (events n).
Definition set_udp_port (n : net) (v : Z) : net :=
  MkNet (n_mem n) (frames n) (arp_cache n) (eth_ifaces n) (ip_ifaces n) (udp_sockets n) (tcp_sockets n) (allstreams n) (sock_cnt n) v (tcp_port n) (now n) (events n).
Definition set_tcp_port (n : net) (v : Z) : net :=
  MkNet (n_mem n) (frames n) (arp_cache n) (eth_ifaces n) (ip_ifaces n) (udp_sockets n) (tcp_sockets n) (allstreams n) (sock_cnt n) (udp_port n) v (now n) (events n).
Definition add_event (n : net) (e : event) : net :=
  MkNet (n_mem n) (frames n) (arp_cache n) (eth_ifaces n) (ip_ifaces n) (udp_sockets n) (tcp_sockets n) (allstreams n) (sock_cnt n) (udp_port n) (tcp_port n) (now n) (events n ++ [e]).

(** ** Handlers *)

Definition N (A : Type) : Type := net -> res (A * net).
#[export] Instance N_ret : MRet N := fun A a n => Ok (a, n).
#[export] Instance N_bind : MBind N := fun A B f m n => match m n with Ok (a, n') => f a n' | Stop e => Stop e end.

Definition get {A} (f : net -> A) : N A := fun n => Ok (f n, n).
Definition upd (f : net -> net) : N unit := fun n => Ok (tt, f n).
Definition lift {A} (r : res A) : N A := fun n => match r with Ok a => Ok (a, n) | Stop e => Stop e end.
Definition nassert (b : bool) : N unit := lift (wassert b).
Definition rd {A} (f : mem -> res A) : N A := fun n => lift (f (n_mem n)) n.
Definition wr (f : mem -> res mem) : N unit := m ← rd f; upd (fun n => set_mem n m).

Definition get_udp (it : Z) : N usock := A ← get udp_sockets; lift (deref A it).
Definition put_udp (it : Z) (u : usock) : N unit := upd (fun n => set_udp n (store (udp_sockets n) it u)).
Definition get_tcp (it : Z) : N tsock := A ← get tcp_sockets; lift (deref A it).
Definition put_tcp (it : Z) (t : tsock) : N unit := upd (fun n => set_tcp n (store (tcp_sockets n) it t)).
Definition get_str (p : Z) : N stream := A ← get allstreams; lift (deref A p).
Definition put_str (p : Z) (s : stream) : N unit := upd (fun n => set_streams n (store (allstreams n) p s)).
Definition mod_str (p : Z) (f : stream -> stream) : N unit := s ← get_str p; put_str p (f s).

(** A Socket_t pointer: a UDP or a TCP socket. *)
Inductive sref := RUdp (it : Z) | RTcp (it : Z).
Definition get_sock (r : sref) : N sock :=
  match r with RUdp it => u ← get_udp it; mret (u_sock u) | RTcp it => t ← get_tcp it; mret (t_sock t) end.
Definition put_sock (r : sref) (s : sock) : N unit :=
  match r with RUdp it => u ← get_udp it; put_udp it (u_with u s) | RTcp it => t ← get_tcp it; put_tcp it (t_with t s) end.
Definition mod_sock (r : sref) (f : sock -> sock) : N unit := s ← get_sock r; put_sock r (f s).

(** The other programs: the answer of the driver to a frame (IPC result, error
    code, bytes sent), of a client to a reply (IPC result, bytes transferred),
    of the root task to the threads of a client, and the contents of
    uninitialised words. *)
Class NetEnv := {
  drv : list Z -> Z * Z * Z;
  client_ipc : Z -> Z -> list Z -> option (list Z) -> Z * Z;
  app_threads : Z -> Z * Z * Z;
  junk0 : Z; junk1 : Z; junk_sa : sockaddr }.

Section Stack.
Context `{!NetEnv}.

(** ** IPC with the driver and the clients *)

Definition send_to_eth_drv (buf len : Z) : N (Z * Z) :=
  bytes ← rd (fun m => load_bytes m buf (Z.to_nat (sitem_length (sitem_simple 0 buf len false).1)));
  _ ← upd (fun n => add_event n (EvTx bytes));
  let '(rc, ecode, sent) := drv bytes in
  if negb (rc =? 0) then mret (1, 0)
  else if negb (ecode =? 0) then mret (2, 0)
  else mret (0, sent).

(** The callers check that everything was sent. *)
Definition send_all (buf len : Z) : N Z :=
  r ← send_to_eth_drv buf len;
  _ ← nassert (r.1 =? 0);
  _ ← nassert (len =? r.2);
  mret r.2.

Definition Ipc_overflow : Z := 4.

(** The number of bytes of the buffer that were transferred. *)
Definition reply_to_client (cli ecode : Z) (words : list Z) (bf : option (list Z)) : N Z :=
  _ ← nassert (negb (thrid_is_nil cli));
  _ ← upd (fun n => add_event n (EvReply cli ecode words bf));
  let '(rc, transferred) := client_ipc cli ecode words bf in
  if rc =? Ipc_overflow then mret transferred
  else
    _ ← nassert (rc =? 0);
    mret (match bf with Some l => Z.of_nat (length l) | None => 0 end).

Definition reply (cli ecode : Z) : N unit := _ ← reply_to_client cli ecode [] None; mret tt.

(** A string item of [len] bytes at [a]. *)
Definition item_bytes (a len : Z) : N (list Z) := rd (fun m => load_bytes m a (Z.to_nat (sitem_length (sitem_simple 0 a len false).1))).

(** ** Interfaces *)

Definition eth_find (mac : mac_t) : N bool := l ← get eth_ifaces; mret (existsb (fun a => mac_eqb a mac) l).
Definition ip_find (addr : Z) : N (option ipif) := l ← get ip_ifaces; mret (List.find (fun i => if_addr i =? addr) l).
Definition ip_find_masked (addr : Z) : N (option ipif) :=
  l ← get ip_ifaces; mret (List.find (fun i => Z.land (if_addr i) (if_mask i) =? Z.land addr (if_mask i)) l).
Definition eth_ifaces_max : nat := 1.
Definition ip_ifaces_max : nat := 8.
Definition eth_add (n : net) (mac : mac_t) : res net :=
  if Nat.eqb (length (eth_ifaces n)) eth_ifaces_max then Stop FPanic
  else Ok (MkNet (n_mem n) (frames n) (arp_cache n) (eth_ifaces n ++ [mac]) (ip_ifaces n) (udp_sockets n) (tcp_sockets n) (allstreams n) (sock_cnt n) (udp_port n) (tcp_port n) (now n) (events n)).
Definition ip_add (n : net) (addr mask : Z) (mac : mac_t) : res net :=
  if Nat.eqb (length (ip_ifaces n)) ip_ifaces_max then Stop FPanic
  else Ok (MkNet (n_mem n) (frames n) (arp_cache n) (eth_ifaces n) (ip_ifaces n ++ [MkIpif addr mask mac]) (udp_sockets n) (tcp_sockets n) (allstreams n) (sock_cnt n) (udp_port n) (tcp_port n) (now n) (events n)).

(** ** Frames *)

Definition Frame_sz : Z := 1518.
Definition Frames_max : nat := 16.

Fixpoint frames_init (fuel : nat) (ptr fin : Z) (l : list frame) : res (list frame) :=
  if ptr + Frame_sz <=? fin then
    match fuel with
    | O => Stop FFuel
    | S f =>
        if Nat.eqb (length l) Frames_max then Stop FPanic
        else frames_init f (round_up (ptr + Frame_sz) 4) fin (l ++ [MkFrame ptr false])
    end
  else Ok l.

Fixpoint take_frame (l : list frame) : Z * list frame :=
  match l with
  | [] => (0, [])
  | f :: t => if negb (f_busy f) then (f_buf f, MkFrame (f_buf f) true :: t) else let r := take_frame t in (r.1, f :: r.2)
  end.
Fixpoint give_frame (l : list frame) (b : Z) : res (list frame) :=
  match l with
  | [] => Stop FAssert
  | f :: t =>
      if (f_buf f <=? b) && (b <? f_buf f + Frame_sz) then _ ← wassert (f_busy f); Ok (MkFrame (f_buf f) false :: t)
      else r ← give_frame t b; Ok (f :: r)
  end.
Definition frames_get : N Z :=
  l ← get frames; let r := take_frame l in _ ← upd (fun n => set_frames n r.2); mret r.1.
Definition frames_free (b : Z) : N unit :=
  l ← get frames; l ← lift (give_frame l b); upd (fun n => set_frames n l).

(** ** ARP cache *)

Definition Timeout_usec : Z := 30 * 1000 * 1000.
Definition Arp_max : nat := 8.

Fixpoint arp_lookup (l : list arp_rec) (ip : Z) : option arp_rec :=
  match l with [] => None | r :: t => if a_ip r =? ip then Some r else arp_lookup t ip end.
Fixpoint arp_erase (l : list arp_rec) (ip : Z) : list arp_rec :=
  match l with [] => [] | r :: t => if a_ip r =? ip then t else r :: arp_erase t ip end.
Fixpoint arp_update (l : list arp_rec) (ip : Z) (mac : mac_t) (tmo : Z) : list arp_rec :=
  match l with [] => [] | r :: t => if a_ip r =? ip then MkArp ip mac tmo :: t else r :: arp_update t ip mac tmo end.

Definition arp_find (ip : Z) : N mac_t :=
  l ← get arp_cache;
  t ← get now;
  match arp_lookup l ip with
  | None => mret mac_nil
  | Some r =>
      if a_timeout r <? t then _ ← upd (fun n => set_arp n (arp_erase l ip)); mret mac_nil
      else mret (a_mac r)
  end.

Definition arp_add (ip : Z) (mac : mac_t) : N unit :=
  upd (fun n =>
    let l := arp_cache n in
    let tmo := u64 (now n + Timeout_usec) in
    match arp_lookup l ip with
    | Some _ => set_arp n (arp_update l ip mac tmo)
    | None => set_arp n ((if Nat.eqb (length l) Arp_max then tail l else l) ++ [MkArp ip mac tmo])
    end).

(** ** Building packets *)

Definition build_eth (eth : Z) (src dst : mac_t) (etype : Z) : N unit :=
  _ ← wr (fun m => set_eth_src m eth src);
  _ ← wr (fun m => set_eth_dst m eth dst);
  wr (fun m => set_eth_etype m eth etype).

(** [len]: the length of the payload. *)
Definition build_ip (ip len proto dst src : Z) : N unit :=
  _ ← wr (fun m => set_ip_version m ip 4);
  _ ← wr (fun m => set_ip_header_length m ip 5);
  _ ← wr (fun m => set_ip_dscp m ip 0);
  _ ← wr (fun m => set_ip_ecn m ip 0);
  h ← rd (fun m => ip_hdrlen m ip);
  _ ← wr (fun m => set_ip_total_length m ip (h + len));
  _ ← wr (fun m => set_ip_identification m ip 0);
  _ ← wr (fun m => set_ip_flag0_reserved m ip 0);
  _ ← wr (fun m => set_ip_flag1_df m ip 1);
  _ ← wr (fun m => set_ip_flag2_mf m ip 0);
  _ ← wr (fun m => set_ip_fragment_offset m ip 0);
  _ ← wr (fun m => set_ip_time_to_live m ip 64);
  _ ← wr (fun m => set_ip_header_checksum m ip 0);
  _ ← wr (fun m => set_ip_protocol m ip proto);
  _ ← wr (fun m => set_ip_dst m ip dst);
  _ ← wr (fun m => set_ip_src m ip src);
  h ← rd (fun m => ip_hdrlen m ip);
  c ← rd (fun m => inet_checksum m ip h []);
  wr (fun m => set_ip_header_checksum m ip c).

(** [reserved]: whether the reserved bits are cleared; [len]: the length of
    the data behind the header. *)
Definition build_tcp (ip tcp src dst seq ack flags len : Z) (reserved : bool) : N unit :=
  _ ← wr (fun m => set_tcp_src m tcp src);
  _ ← wr (fun m => set_tcp_dst m tcp dst);
  _ ← wr (fun m => set_tcp_seq m tcp seq);
  _ ← wr (fun m => set_tcp_ack m tcp ack);
  _ ← wr (fun m => set_tcp_hlen m tcp (Tcp_typically_hdr_len / 4));
  _ ← (if reserved then wr (fun m => set_tcp_reserved m tcp 0) else mret tt);
  _ ← wr (fun m => set_tcp_flags m tcp flags);
  _ ← wr (fun m => set_tcp_win_sz m tcp 100);
  _ ← wr (fun m => set_tcp_checksum m tcp 0);
  _ ← wr (fun m => set_tcp_urgent_ptr m tcp 0);
  o ← rd (fun m => tcp_optptr m tcp 0);
  _ ← wr (fun m => st8 m o Opt_end);
  h ← rd (fun m => tcp_hdrlen m tcp);
  isrc ← rd (fun m => ip_src m ip);
  idst ← rd (fun m => ip_dst m ip);
  pr ← rd (fun m => ip_protocol m ip);
  c ← rd (fun m => tcp_calc_checksum m tcp (len + h) isrc idst pr);
  wr (fun m => set_tcp_checksum m tcp c).

Definition build_udp (ip udp src dst len : Z) : N unit :=
  _ ← wr (fun m => set_udp_src m udp src);
  _ ← wr (fun m => set_udp_dst m udp dst);
  _ ← wr (fun m => set_udp_length m udp (Udp_hdrlen + len));
  _ ← wr (fun m => set_udp_checksum m udp 0);
  isrc ← rd (fun m => ip_src m ip);
  idst ← rd (fun m => ip_dst m ip);
  pr ← rd (fun m => ip_protocol m ip);
  c ← rd (fun m => udp_calc_checksum m udp isrc idst pr);
  wr (fun m => set_udp_checksum m udp c).

Definition send_icmp_dest_unreach (i : ipif) (eth_req ip_req ip_req_len code : Z) : N Z :=
  eth ← frames_get;
  if eth =? 0 then mret 1
  else
    dst ← rd (fun m => eth_src m eth_req);
    _ ← build_eth eth (if_mac i) dst Etype_ip;
    let ip := eth_payload eth in
    rsrc ← rd (fun m => ip_src m ip_req);
    _ ← build_ip ip (Icmp_hdrlen + Icmp_dest_unreach_hdrlen + ip_req_len) Proto_icmp rsrc (if_addr i);
    icmp ← rd (fun m => ip_payload m ip);
    _ ← wr (fun m => set_icmp_type m icmp Type_dest_unreach);
    _ ← wr (fun m => set_icmp_code m icmp code);
    _ ← wr (fun m => memcpy m (icmp_payload icmp + Icmp_dest_unreach_hdrlen) ip_req ip_req_len);
    tl ← rd (fun m => ip_total_length m ip);
    _ ← send_all eth (Eth_hdrlen + tl);
    _ ← frames_free eth;
    mret 0.

Definition send_arp_request (i : ipif) (iaddr : Z) : N unit :=
  eth ← frames_get;
  _ ← nassert (negb (eth =? 0));
  _ ← wr (fun m => set_eth_dst m eth mac_bcast);
  _ ← wr (fun m => set_eth_src m eth (if_mac i));
  _ ← wr (fun m => set_eth_etype m eth Etype_arp);
  let arp := eth_payload eth in
  _ ← wr (fun m => set_arp_htype m arp 1);
  _ ← wr (fun m => set_arp_ptype m arp 0x0800);
  _ ← wr (fun m => set_arp_hlen m arp 6);
  _ ← wr (fun m => set_arp_plen m arp 4);
  _ ← wr (fun m => set_arp_oper m arp Opcode_req);
  _ ← wr (fun m => set_arp_sha m arp (if_mac i));
  _ ← wr (fun m => set_arp_spa m arp (if_addr i));
  _ ← wr (fun m => set_arp_tha m arp mac_nil);
  _ ← wr (fun m => set_arp_tpa m arp iaddr);
  _ ← send_all eth (Eth_hdrlen + Arp_size);
  frames_free eth.

(** ** TCP *)

Definition find_ipif (addr raddr : Z) : N (option ipif) := if addr =? INADDR_ANY then ip_find_masked raddr else ip_find addr.

(** A segment without data. *)
Definition send_tcp_msg (it p flags : Z) : N unit :=
  s ← get_str p;
  dst_mac ← arp_find (rem_addr s);
  eth ← frames_get;
  _ ← nassert (negb (eth =? 0));
  so ← get_sock (RTcp it);
  o ← find_ipif (saddr_addr so) (rem_addr s);
  i ← lift (from_opt FAssert o);
  _ ← build_eth eth (if_mac i) dst_mac Etype_ip;
  let ip := eth_payload eth in
  _ ← build_ip ip Tcp_typically_hdr_len Proto_tcp (rem_addr s) (if_addr i);
  tcp ← rd (fun m => ip_payload m ip);
  _ ← build_tcp ip tcp (saddr_port so) (rem_port s) (seq_tx s) (seq_rx s) flags 0 true;
  let send := Eth_hdrlen + Ip_typically_hdr_len + Tcp_typically_hdr_len in
  if mac_is_nil dst_mac then
    _ ← nassert (negb (so_wait_arp so));
    _ ← mod_sock (RTcp it) (fun so => wait_arp (store_tx_eth_frame so eth send) true);
    send_arp_request i (rem_addr s)
  else
    _ ← send_all eth send;
    frames_free eth.

(** The client's operation is over. *)
Definition cli_done (r : sref) : N unit := mod_sock r (fun so => with_client (with_cli_state so 0) Thrid_nil).

Definition accept_connected_stream (it p : Z) : N unit :=
  so ← get_sock (RTcp it);
  _ ← nassert (so_cli_state so =? Cli_accept);
  s ← get_str p;
  _ ← nassert (bool_decide (s_state s = Established));
  iaddr ← (if saddr_addr so =? INADDR_ANY then
             o ← ip_find_masked (rem_addr s); i ← lift (from_opt FAssert o); mret (if_addr i)
           else mret (saddr_addr so));
  A ← get tcp_sockets;
  ss ← get allstreams;
  c ← get sock_cnt;
  r ← lift (tcp_add_connected ss A c it p iaddr);
  let '(nw, c, A) := r in
  _ ← upd (fun n => set_cnt (set_tcp n A) c);
  if nw =? 0 then _ ← reply (so_client so) 7; cli_done (RTcp it)
  else
    ns ← get_sock (RTcp nw);
    _ ← reply_to_client (so_client so) 0 (u32 (so_id ns) :: sa_words (MkSa AF_INET (rem_port s) (rem_addr s) [junk0; junk1])) None;
    cli_done (RTcp it).

(** Pass the received bytes to a client. *)
Definition deliver (p cli : Z) : N unit :=
  s ← get_str p;
  sent ← reply_to_client cli 0 (sa_words (sa_make (rem_port s) (rem_addr s))) (Some (s_buf s));
  if negb (sent =? s_wp s) then
    _ ← nassert (sent <? s_wp s);
    put_str p (with_buf s (drop (Z.to_nat sent) (s_buf s)))
  else put_str p (with_buf s []).

Definition has (flags f : Z) : bool := negb (Z.land flags f =? 0).

(** The stream a segment belongs to, 0 if there is none. *)
Definition segment_stream (it ip tcp flags : Z) : N Z :=
  t ← get_tcp it;
  if t_net_state t =? Net_listen then
    src ← rd (fun m => ip_src m ip);
    sp ← rd (fun m => tcp_src m tcp);
    ss ← get allstreams;
    p ← lift (get_stream ss t src sp);
    if (p =? 0) && has flags Tcp_syn then
      r ← lift (add_stream ss t src sp);
      let '(p, ss, t) := r in
      _ ← upd (fun n => set_tcp (set_streams n ss) (store (tcp_sockets n) it t));
      _ ← nassert (negb (p =? 0));
      _ ← mod_str p (fun s => with_tx s 123 123);
      mret p
    else mret p
  else if t_net_state t =? Net_connection then
    _ ← nassert (negb (t_stream t =? 0));
    mret (t_stream t)
  else lift (Stop FAssert).

Definition tcp_reset (it p : Z) : N unit :=
  _ ← mod_str p (fun s => add_rx (add_tx s 1) 1);
  _ ← send_tcp_msg it p (Z.lor Tcp_rst Tcp_ack_flag);
  _ ← mod_str p (fun s => with_state s Closed);
  so ← get_sock (RTcp it);
  _ ← nassert (so_cli_state so =? Cli_connect);
  _ ← reply (so_client so) 11;
  cli_done (RTcp it).

Definition tcp_closed (it p flags : Z) : N unit :=
  if has flags Tcp_syn then
    _ ← send_tcp_msg it p (Z.lor Tcp_syn Tcp_ack_flag);
    mod_str p (fun s => with_state (add_tx s 1) Syn_received)
  else mret tt.

Definition tcp_syn_sent (it p flags : Z) : N unit :=
  _ ← nassert (has flags Tcp_ack_flag);
  _ ← mod_str p (fun s => add_tx (with_state s Established) 1);
  _ ← send_tcp_msg it p Tcp_ack_flag;
  so ← get_sock (RTcp it);
  _ ← nassert (so_cli_state so =? Cli_connect);
  _ ← reply (so_client so) 0;
  cli_done (RTcp it).

Definition tcp_syn_received (it p flags : Z) : N unit :=
  _ ← nassert (has flags Tcp_ack_flag);
  _ ← mod_str p (fun s => with_state s Established);
  t ← get_tcp it;
  r ← lift (move_to_connected_queue t p);
  _ ← put_tcp it r.2;
  _ ← nassert (r.1 =? 0);
  so ← get_sock (RTcp it);
  if so_cli_state so =? Cli_accept then accept_connected_stream it p else mret tt.

Definition tcp_established (it p tcp tcplen flags : Z) : N unit :=
  h ← rd (fun m => tcp_hdrlen m tcp);
  let len := u32 (tcplen - h) in
  s ← get_str p;
  _ ← nassert (len <=? Stream_buf_sz - s_wp s);
  data ← rd (fun m => load_bytes m (tcp + h) (Z.to_nat len));
  _ ← mod_str p (fun s => with_buf s (s_buf s ++ data));
  so ← get_sock (RTcp it);
  _ ← (if has flags Tcp_psh && (so_cli_state so =? Cli_recv) then
         _ ← deliver p (so_client so);
         cli_done (RTcp it)
       else mret tt);
  if has flags Tcp_fin then
    _ ← mod_str p (fun s => add_rx s 1);
    _ ← send_tcp_msg it p (Z.lor Tcp_fin Tcp_ack_flag);
    _ ← mod_str p (fun s => with_state s Last_ack);
    so ← get_sock (RTcp it);
    if so_cli_state so =? Cli_recv then
      s ← get_str p;
      _ ← reply_to_client (so_client so) 0 (sa_words (sa_make (rem_port s) (rem_addr s))) (Some []);
      _ ← mod_str p (fun s => with_buf s []);
      cli_done (RTcp it)
    else mret tt
  else mret tt.

(** Remove the stream of a socket and the socket. *)
Definition remove_socket (it owner : Z) : N unit :=
  t ← get_tcp it;
  ss ← get allstreams;
  r ← lift (rem_own_stream ss t);
  _ ← upd (fun n => set_streams n r.2);
  _ ← nassert (r.1 =? 0);
  A ← get tcp_sockets;
  r ← lift (tcp_remove A (so_id (t_sock t)) owner);
  _ ← upd (fun n => set_tcp n r.2);
  nassert (r.1 =? 0).

Definition tcp_fin_wait1 (it p flags : Z) : N unit :=
  if has flags Tcp_fin && has flags Tcp_ack_flag then
    _ ← mod_str p (fun s => add_tx (add_rx (with_state s Time_wait) 1) 1);
    _ ← send_tcp_msg it p Tcp_ack_flag;
    so ← get_sock (RTcp it);
    _ ← nassert (so_cli_state so =? Cli_close);
    _ ← reply (so_client so) 0;
    _ ← mod_sock (RTcp it) (fun so => with_cli_state so Cli_closed);
    remove_socket it (so_client so)
  else mret tt.

Definition tcp_last_ack (it p flags : Z) : N unit :=
  _ ← nassert (has flags Tcp_ack_flag);
  _ ← mod_str p (fun s => with_state s Closed);
  so ← get_sock (RTcp it);
  if so_cli_state so =? Cli_close then
    let cli := so_client so in
    _ ← remove_socket it cli;
    reply cli 0
  else mret tt.

Definition process_tcp_to_socket (it ip tcp tcplen : Z) : N Z :=
  flags ← rd (fun m => tcp_flags m tcp);
  p ← segment_stream it ip tcp flags;
  if p =? 0 then mret 1
  else
    s ← get_str p;
    seq ← rd (fun m => tcp_seq m tcp);
    let new_stream := bool_decide (s_state s = Closed) || bool_decide (s_state s = Syn_sent) in
    if negb new_stream && negb (seq =? seq_rx s) then mret 1
    else
      h ← rd (fun m => tcp_hdrlen m tcp);
      _ ← (if has flags Tcp_syn then put_str p (with_rx s (seq + 1) (seq + 1))
           else put_str p (add_rx s (u32 (tcplen - h))));
      _ ← (if has flags Tcp_rst then tcp_reset it p else mret tt);
      s ← get_str p;
      _ ← match s_state s with
          | Closed => tcp_closed it p flags
          | Listen => mret tt
          | Syn_sent => tcp_syn_sent it p flags
          | Syn_received => tcp_syn_received it p flags
          | Established => tcp_established it p tcp tcplen flags
          | Fin_wait1 => tcp_fin_wait1 it p flags
          | Last_ack => tcp_last_ack it p flags
          | Close_wait | Fin_wait2 | Time_wait | Closing => lift (Stop FAssert)
          end;
      mret 1.

Definition process_tcp_packet (i : ipif) (eth ip tcp tcplen : Z) : N Z :=
  if tcplen <? Tcp_length_min then mret 1
  else
    h ← rd (fun m => tcp_hdrlen m tcp);
    if tcplen <? h then mret 1
    else
    src ← rd (fun m => ip_src m ip);
    dst ← rd (fun m => ip_dst m ip);
    pr ← rd (fun m => ip_protocol m ip);
    c ← rd (fun m => tcp_calc_checksum m tcp tcplen src dst pr);
    if negb (c =? 0) then
      _ ← wr (fun m => set_tcp_checksum m tcp 0);
      _ ← rd (fun m => tcp_calc_checksum m tcp tcplen src dst pr);
      mret 1
    else
      dp ← rd (fun m => tcp_dst m tcp);
      sp ← rd (fun m => tcp_src m tcp);
      A ← get tcp_sockets;
      ss ← get allstreams;
      it ← lift (find_connected_socket ss A dst dp src sp);
      let lit := find_listening_socket A dst dp in
      if negb (it =? 0) then _ ← process_tcp_to_socket it ip tcp tcplen; mret 1
      else if negb (lit =? 0) then _ ← process_tcp_to_socket lit ip tcp tcplen; mret 1
      else
        hl ← rd (fun m => ip_hdrlen m ip);
        _ ← send_icmp_dest_unreach i eth ip (u32 (hl + tcplen)) Code_dst_port_inreach;
        mret 1.

(** ** UDP, ICMP, IP, ARP, Ethernet *)

Definition process_udp_packet (i : ipif) (eth ip udp udplen : Z) : N Z :=
  if udplen <? Udp_length_min then mret 1
  else
    ul ← rd (fun m => udp_length m udp);
    if udplen <? ul then mret 1
    else
    src ← rd (fun m => ip_src m ip);
    dst ← rd (fun m => ip_dst m ip);
    pr ← rd (fun m => ip_protocol m ip);
    c ← rd (fun m => udp_calc_checksum m udp src dst pr);
    if negb (c =? 0) then
      _ ← wr (fun m => set_udp_checksum m udp 0);
      _ ← rd (fun m => udp_calc_checksum m udp src dst pr);
      mret 1
    else
      dp ← rd (fun m => udp_dst m udp);
      A ← get udp_sockets;
      let it := udp_find A dst dp in
      if negb (it =? 0) then
        sp ← rd (fun m => udp_src m udp);
        let saddr := MkSa AF_INET sp src [junk0; junk1] in
        u ← get_udp it;
        pl ← rd (fun m => udp_payload_len m udp);
        if (so_cli_state (u_sock u) =? Udp_cli_recv) || negb (thrid_is_nil (so_recv_client (u_sock u))) then
          let cli := so_recv_client (u_sock u) in
          _ ← mod_sock (RUdp it) (fun so => with_recv_client (if so_cli_state so =? Udp_cli_recv then with_cli_state so Udp_cli_idle else so) Thrid_nil);
          bytes ← item_bytes (udp_payload udp) pl;
          _ ← reply_to_client cli 0 (sa_words saddr) (Some bytes);
          mret 1
        else
          m ← get n_mem;
          r ← lift (save_received_packet u junk_sa saddr (load_bytes m (udp_payload udp)) pl);
          _ ← put_udp it r.2;
          mret 1
      else
        hl ← rd (fun m => ip_hdrlen m ip);
        _ ← send_icmp_dest_unreach i eth ip (u32 (hl + udplen)) Code_dst_port_inreach;
        mret 1.

Definition process_icmp_packet (eth ip icmp icmplen : Z) : N Z :=
  if icmplen <? Icmp_length_min then mret 1
  else
    c ← rd (fun m => icmp_calc_checksum m icmp icmplen);
    if negb (c =? 0) then mret 1
    else
      ty ← rd (fun m => icmp_type m icmp);
      if ty =? Type_echo_request then
        _ ← wr (fun m => set_icmp_type m icmp Type_echo_reply);
        _ ← wr (fun m => set_icmp_code m icmp 0);
        _ ← wr (fun m => set_icmp_checksum m icmp 0);
        c ← rd (fun m => inet_checksum m icmp icmplen []);
        _ ← wr (fun m => set_icmp_checksum m icmp c);
        addr ← rd (fun m => ip_src m ip);
        dst ← rd (fun m => ip_dst m ip);
        _ ← wr (fun m => set_ip_src m ip dst);
        _ ← wr (fun m => set_ip_dst m ip addr);
        mac ← rd (fun m => eth_src m eth);
        edst ← rd (fun m => eth_dst m eth);
        _ ← wr (fun m => set_eth_src m eth edst);
        _ ← wr (fun m => set_eth_dst m eth mac);
        h ← rd (fun m => ip_hdrlen m ip);
        _ ← send_all eth (Eth_hdrlen + h + icmplen);
        mret 1
      else mret 1.

Definition process_ip_packet (eth ip iplen : Z) : N Z :=
  if iplen <? Ip_length_min then mret 1
  else
    tl ← rd (fun m => ip_total_length m ip);
    if iplen <? tl then mret 1
    else
      dst ← rd (fun m => ip_dst m ip);
      o ← ip_find dst;
      match o with
      | None => mret 1
      | Some i =>
          src ← rd (fun m => ip_src m ip);
          mac ← rd (fun m => eth_src m eth);
          _ ← arp_add src mac;
          c ← rd (fun m => ip_calc_checksum m ip);
          if negb (c =? 0) then mret 1
          else
            pr ← rd (fun m => ip_protocol m ip);
            h ← rd (fun m => ip_hdrlen m ip);
            if pr =? Proto_icmp then process_icmp_packet eth ip (ip + h) (u32 (tl - h))
            else if pr =? Proto_tcp then process_tcp_packet i eth ip (ip + h) (u32 (tl - h))
            else if pr =? Proto_udp then process_udp_packet i eth ip (ip + h) (u32 (tl - h))
            else _ ← send_icmp_dest_unreach i eth ip iplen Code_dst_proto_unreach; mret 1
      end.

(** check_arp_waiting_sockets: a socket whose frame waits for the address. *)
Definition check_arp_waiting (r : sref) (iaddr : Z) (mac : mac_t) : N unit :=
  so ← get_sock r;
  if so_wait_arp so then
    let eth := so_frame so in
    let ip := eth_payload eth in
    dst ← rd (fun m => ip_dst m ip);
    if dst =? iaddr then
      _ ← wr (fun m => set_eth_dst m eth mac);
      sent ← send_all eth (so_frame_len so);
      _ ← mod_sock r (fun so => wait_arp so false);
      _ ← frames_free eth;
      h ← rd (fun m => ip_hdrlen m ip);
      match r with
      | RUdp _ =>
          if so_cli_state so =? Udp_cli_send then
            _ ← reply_to_client (so_client so) 0 [u32 (sent - Eth_hdrlen - h - Udp_hdrlen)] None;
            cli_done r
          else mret tt
      | RTcp _ =>
          if so_cli_state so =? Cli_send then
            th ← rd (fun m => tcp_hdrlen m (ip + h));
            _ ← reply_to_client (so_client so) 0 [u32 (sent - Eth_hdrlen - h - th)] None;
            cli_done r
          else mret tt
      end
    else mret tt
  else mret tt.

Fixpoint for_each (l : list sref) (iaddr : Z) (mac : mac_t) : N unit :=
  match l with [] => mret tt | r :: t => _ ← check_arp_waiting r iaddr mac; for_each t iaddr mac end.

Definition process_arp_packet (eth arp arplen : Z) : N Z :=
  if arplen <? Arp_size then mret 1
  else
    ht ← rd (fun m => arp_htype m arp);
    pt ← rd (fun m => arp_ptype m arp);
    op ← rd (fun m => arp_oper m arp);
    if negb (ht =? 1) then mret 1
    else if negb (pt =? 0x0800) then mret 1
    else if op =? Opcode_req then
      tpa ← rd (fun m => arp_tpa m arp);
      o ← ip_find tpa;
      match o with
      | Some i =>
          _ ← wr (fun m => set_arp_oper m arp Opcode_rep);
          _ ← wr (fun m => set_arp_sha m arp (if_mac i));
          _ ← wr (fun m => set_arp_spa m arp tpa);
          _ ← wr (fun m => set_arp_tha m arp mac_nil);
          _ ← wr (fun m => set_arp_tpa m arp 0);
          _ ← wr (fun m => memswap 6 m (eth + 6) eth);
          _ ← send_all eth (arplen + Eth_hdrlen);
          mret 1
      | None => mret 1
      end
    else if op =? Opcode_rep then
      spa ← rd (fun m => arp_spa m arp);
      sha ← rd (fun m => arp_sha m arp);
      _ ← arp_add spa sha;
      U ← get udp_sockets;
      _ ← for_each (RUdp <$> items (busy U)) spa sha;
      T ← get tcp_sockets;
      _ ← for_each (RTcp <$> items (busy T)) spa sha;
      mret 1
    else mret 1.

Definition process_eth_frame (eth len : Z) : N Z :=
  if len <? Eth_hdrlen then mret 1
  else
    dst ← rd (fun m => eth_dst m eth);
    f ← eth_find dst;
    if negb f && negb (mac_is_bcast dst) then mret 1
    else
      ty ← rd (fun m => eth_etype m eth);
      if ty =? Etype_ip then process_ip_packet eth (eth_payload eth) (len - Eth_hdrlen)
      else if ty =? Etype_arp then process_arp_packet eth (eth_payload eth) (len - Eth_hdrlen)
      else mret 1.

End Stack.
