(* ===== verification/NetClient.v ===== *)
(** app/tcpip/main.cpp: the requests of clients of the socket interface and
    the rounds of the Ethernet and of the client thread, on [NetStack].

    A request is the message tag and the message registers; a handler returns
    0 if it keeps the buffer the message was received into. *)

From Stdlib Require Import ZArith Lia Bool.
From stdpp Require Import base list numbers gmap.
From S2P Require Import Prelude SysUtils ListSpec L4Types CString Packets Sockets NetStack.

Definition Socket_create : Z := 1.
Definition Socket_close : Z := 2.
Definition Socket_bind : Z := 3.
Definition Socket_listen : Z := 4.
Definition Socket_accept : Z := 5.
Definition Socket_connect : Z := 6.
Definition Socket_sendto : Z := 7.
Definition Socket_recvfrom : Z := 8.

Section Client.
Context `{!NetEnv}.
Implicit Types (mr : list Z) (tag cli : Z).

Definition mr_at mr (i : nat) : Z := nth i mr 0.
Definition mr_int mr (i : nat) : Z := s32 (mr_at mr i).
Definition mr_saddr mr (i : nat) : sockaddr := sa_of_words (mr_at mr i) (mr_at mr (i + 1)) (mr_at mr (i + 2)) (mr_at mr (i + 3)).
Definition wrong_format tag (untyped typed : Z) : bool := negb (tag_untyped tag =? untyped) || negb (tag_typed tag =? typed).

(** An error reply; the buffer may be used again. *)
Definition refuse cli (ecode : Z) : N Z := _ ← reply cli ecode; mret 1.

Definition find_any (id : Z) : N (option sref) :=
  U ← get udp_sockets;
  T ← get tcp_sockets;
  mret (if negb (udp_find_id U id =? 0) then Some (RUdp (udp_find_id U id))
        else if negb (tcp_find T id =? 0) then Some (RTcp (tcp_find T id))
        else None).

Definition process_cli_socket tag mr cli : N Z :=
  if wrong_format tag 6 0 then refuse cli 2
  else if negb (mr_int mr 4 =? AF_INET) then refuse cli 3
  else
    let '(rc, thr_begin, thr_end) := app_threads cli in
    if negb (rc =? 0) then refuse cli 4
    else
      let type := mr_int mr 5 in
      let proto := mr_int mr 6 in
      c ← get sock_cnt;
      if type =? SOCK_DGRAM then
        if negb ((if proto =? 0 then IPPROTO_UDP else proto) =? IPPROTO_UDP) then refuse cli 5
        else
          A ← get udp_sockets;
          r ← lift (udp_add A c cli thr_begin thr_end);
          let '(it, c, A) := r in
          _ ← upd (fun n => set_cnt (set_udp n A) c);
          if it =? 0 then refuse cli 6
          else
            u ← get_udp it;
            _ ← reply_to_client cli 0 [u32 (so_id (u_sock u))] None;
            mret 1
      else if type =? SOCK_STREAM then
        if negb ((if proto =? 0 then IPPROTO_TCP else proto) =? IPPROTO_TCP) then refuse cli 7
        else
          A ← get tcp_sockets;
          r ← lift (tcp_add A c cli thr_begin thr_end 0);
          let '(it, c, A) := r in
          _ ← upd (fun n => set_cnt (set_tcp n A) c);
          if it =? 0 then refuse cli 8
          else
            t ← get_tcp it;
            _ ← reply_to_client cli 0 [u32 (so_id (t_sock t))] None;
            mret 1
      else refuse cli 9.

Definition process_cli_close_tcp (it cli : Z) : N unit :=
  t ← get_tcp it;
  if t_net_state t =? Net_listen then
    _ ← nassert (Nat.eqb (streams_count t) 0);
    _ ← mod_sock (RTcp it) (fun so => with_cli_state so Cli_closed);
    A ← get tcp_sockets;
    r ← lift (tcp_remove A (so_id (t_sock t)) cli);
    _ ← upd (fun n => set_tcp n r.2);
    _ ← nassert (r.1 =? 0);
    reply cli 0
  else
    _ ← nassert (t_net_state t =? Net_connection);
    _ ← nassert (negb (t_stream t =? 0));
    s ← get_str (t_stream t);
    match s_state s with
    | Closed =>
        _ ← mod_sock (RTcp it) (fun so => with_cli_state so Cli_closed);
        _ ← remove_socket it cli;
        reply cli 0
    | Established =>
        _ ← mod_sock (RTcp it) (fun so => with_client (with_cli_state so Cli_close) cli);
        _ ← mod_str (t_stream t) (fun s => with_state s Fin_wait1);
        send_tcp_msg it (t_stream t) (Z.lor Tcp_fin Tcp_ack_flag)
    | _ => lift (Stop FAssert)
    end.

Definition process_cli_close tag mr cli : N Z :=
  if wrong_format tag 4 0 then refuse cli 2
  else
    o ← find_any (mr_int mr 4);
    match o with
    | None => refuse cli 3
    | Some r =>
        so ← get_sock r;
        if negb (is_owner so cli) then refuse cli 4
        else if negb (is_cli_state_idle so) then refuse cli 5
        else
          match r with
          | RUdp _ =>
              A ← get udp_sockets;
              e ← lift (udp_remove A (mr_int mr 4) cli);
              _ ← upd (fun n => set_udp n e.2);
              if negb (e.1 =? 0) then refuse cli 6 else _ ← reply cli 0; mret 1
          | RTcp it => _ ← process_cli_close_tcp it cli; mret 1
          end
    end.

Definition process_cli_bind tag mr cli : N Z :=
  if wrong_format tag 8 0 then refuse cli 2
  else
    let saddr := mr_saddr mr 5 in
    o ← find_any (mr_int mr 4);
    match o with
    | None => refuse cli 3
    | Some r =>
        so ← get_sock r;
        if negb (is_owner so cli) then refuse cli 4
        else if negb (AF_INET =? sin_family saddr) then refuse cli 5
        else if negb (is_cli_state_idle so) then refuse cli 6
        else if negb (is_net_state_idle so) then refuse cli 6
        else if negb (sin_family saddr =? AF_INET) then refuse cli 7
        else
          f ← (if negb (sin_addr saddr =? INADDR_ANY) then o ← ip_find (sin_addr saddr); mret (match o with Some _ => true | None => false end) else mret true);
          if negb f then refuse cli 8
          else if so_bound so then refuse cli 9
          else
            let b := sock_bind so saddr in
            _ ← put_sock r b.2;
            if negb (b.1 =? 0) then refuse cli 10
            else _ ← reply cli 0; mret 1
    end.

Definition process_cli_listen tag mr cli : N Z :=
  if wrong_format tag 5 0 then refuse cli 2
  else
    A ← get tcp_sockets;
    let it := tcp_find A (mr_int mr 4) in
    if it =? 0 then refuse cli 3
    else
      t ← get_tcp it;
      if negb (is_owner (t_sock t) cli) then refuse cli 4
      else if negb (is_cli_state_idle (t_sock t)) then refuse cli 6
      else if negb (is_net_state_idle (t_sock t)) then refuse cli 6
      else
        t ← lift (tcp_listen t (mr_int mr 5));
        _ ← put_tcp it t;
        _ ← reply cli 0;
        mret 1.

Definition process_cli_accept tag mr cli : N Z :=
  if wrong_format tag 4 0 then refuse cli 2
  else
    A ← get tcp_sockets;
    let it := tcp_find A (mr_int mr 4) in
    if it =? 0 then refuse cli 3
    else
      t ← get_tcp it;
      if negb (is_owner (t_sock t) cli) then refuse cli 4
      else if negb (t_cli_state t =? Cli_idle) then refuse cli 6
      else if negb (t_net_state t =? Net_listen) then refuse cli 7
      else
        _ ← mod_sock (RTcp it) (fun so => with_client (with_cli_state so Cli_accept) cli);
        t ← get_tcp it;
        r ← lift (get_connected_stream t);
        _ ← put_tcp it r.2;
        _ ← (if negb (r.1 =? 0) then accept_connected_stream it r.1 else mret tt);
        mret 1.

(** auto bind: whether the socket is bound now. *)
Definition bind_if_need (r : sref) (iaddr : Z) : N bool :=
  so ← get_sock r;
  port ← get (match r with RUdp _ => udp_port | RTcp _ => tcp_port end);
  let '(b, so, port) := auto_bind so iaddr port in
  _ ← put_sock r so;
  _ ← upd (fun n => match r with RUdp _ => set_udp_port n port | RTcp _ => set_tcp_port n port end);
  mret b.

Definition process_cli_connect tag mr cli : N Z :=
  if wrong_format tag 8 0 then refuse cli 2
  else
    let saddr := mr_saddr mr 5 in
    A ← get tcp_sockets;
    let it := tcp_find A (mr_int mr 4) in
    if it =? 0 then refuse cli 3
    else
      t ← get_tcp it;
      if negb (is_owner (t_sock t) cli) then refuse cli 4
      else if negb (is_cli_state_idle (t_sock t)) then refuse cli 5
      else if negb (is_net_state_idle (t_sock t)) then refuse cli 6
      else
        _ ← nassert (t_stream t =? 0);
        o ← ip_find_masked (sin_addr saddr);
        match o with
        | None => refuse cli 7
        | Some i =>
            b ← bind_if_need (RTcp it) (if_addr i);
            if negb b then refuse cli 8
            else
              _ ← mod_sock (RTcp it) (fun so => with_client (with_cli_state (with_net_state so Net_connection) Cli_connect) cli);
              t ← get_tcp it;
              ss ← get allstreams;
              r ← lift (make_stream ss t (sin_addr saddr) (sin_port saddr));
              let '(p, ss, t) := r in
              _ ← upd (fun n => set_tcp (set_streams n ss) (store (tcp_sockets n) it t));
              _ ← nassert (negb (p =? 0));
              _ ← mod_str p (fun s => with_state s Syn_sent);
              _ ← send_tcp_msg it p Tcp_syn;
              mret 1
        end.

(** The data of a send request lie at [ptr] in the buffer [frame], behind the
    space for the headers; [hdrs]: the length of the headers. *)
Definition headers_at (ptr frame hdrs : Z) : N Z :=
  let hdrs_space := u32 (ptr - frame) in
  _ ← nassert (hdrs_space <=? Frame_sz);
  _ ← nassert (hdrs <=? hdrs_space);
  mret (u32 (ptr - hdrs)).

Definition process_cli_sendto_tcp (it ptr len cli frame : Z) : N Z :=
  t ← get_tcp it;
  if negb (t_net_state t =? Net_connection) then refuse cli 7
  else
    let p := t_stream t in
    _ ← nassert (negb (p =? 0));
    s ← get_str p;
    if negb (bool_decide (s_state s = Established)) then refuse cli 8
    else
      o ← find_ipif (saddr_addr (t_sock t)) (rem_addr s);
      match o with
      | None => refuse cli 9
      | Some i =>
          b ← bind_if_need (RTcp it) (if_addr i);
          if negb b then refuse cli 10
          else
            mac ← arp_find (rem_addr s);
            let hdrs := Eth_hdrlen + Ip_typically_hdr_len + Tcp_typically_hdr_len in
            eth ← headers_at ptr frame hdrs;
            _ ← build_eth eth (if_mac i) mac Etype_ip;
            let ip := eth_payload eth in
            _ ← build_ip ip (Tcp_typically_hdr_len + len) Proto_tcp (rem_addr s) (if_addr i);
            tcp ← rd (fun m => ip_payload m ip);
            so ← get_sock (RTcp it);
            _ ← build_tcp ip tcp (saddr_port so) (rem_port s) (seq_tx s) (seq_rx s) (Z.lor Tcp_psh Tcp_ack_flag) len false;
            pl ← rd (fun m => tcp_payload m tcp);
            _ ← nassert (pl =? ptr);
            _ ← mod_str p (fun s => add_tx s len);
            let send := hdrs + len in
            if mac_is_nil mac then
              if so_wait_arp so then refuse cli 11
              else
                _ ← mod_sock (RTcp it) (fun so => with_client (with_cli_state (wait_arp (store_tx_eth_frame so eth send) true) Cli_send) cli);
                _ ← send_arp_request i (rem_addr s);
                mret 0
            else
              sent ← send_all eth send;
              h ← rd (fun m => ip_hdrlen m ip);
              th ← rd (fun m => tcp_hdrlen m tcp);
              _ ← reply_to_client cli 0 [u32 (sent - Eth_hdrlen - h - th)] None;
              mret 1
      end.

Definition process_cli_sendto_udp (it : Z) (saddr : sockaddr) (ptr len cli frame : Z) : N Z :=
  u ← get_udp it;
  if negb (so_net_state (u_sock u) =? Udp_net_idle) then refuse cli 7
  else if negb (sin_family saddr =? AF_INET) then refuse cli 8
  else
    o ← ip_find_masked (sin_addr saddr);
    match o with
    | None => refuse cli 9
    | Some i =>
        b ← bind_if_need (RUdp it) (if_addr i);
        if negb b then refuse cli 10
        else
          mac ← arp_find (sin_addr saddr);
          let hdrs := Eth_hdrlen + Ip_typically_hdr_len + Udp_hdrlen in
          eth ← headers_at ptr frame hdrs;
          _ ← build_eth eth (if_mac i) mac Etype_ip;
          let ip := eth_payload eth in
          _ ← build_ip ip (Udp_hdrlen + len) Proto_udp (sin_addr saddr) (if_addr i);
          udp ← rd (fun m => ip_payload m ip);
          so ← get_sock (RUdp it);
          _ ← build_udp ip udp (saddr_port so) (sin_port saddr) len;
          _ ← nassert (udp_payload udp =? ptr);
          let send := hdrs + len in
          if mac_is_nil mac then
            if so_wait_arp so then refuse cli 11
            else
              _ ← mod_sock (RUdp it) (fun so => with_client (with_cli_state (wait_arp (store_tx_eth_frame so eth send) true) Udp_cli_send) cli);
              _ ← send_arp_request i (sin_addr saddr);
              mret 0
          else
            sent ← send_all eth send;
            h ← rd (fun m => ip_hdrlen m ip);
            _ ← reply_to_client cli 0 [u32 (sent - Eth_hdrlen - h - Udp_hdrlen)] None;
            mret 1
    end.

Definition process_cli_sendto tag mr cli (frame : Z) : N Z :=
  if wrong_format tag 9 2 then refuse cli 2
  else
    _ ← nassert (titem_is_string_item (mr_at mr 10));
    let len := sitem_length (mr_at mr 10) in
    let ptr := mr_at mr 11 in
    o ← find_any (mr_int mr 4);
    match o with
    | None => refuse cli 3
    | Some r =>
        so ← get_sock r;
        if negb (is_owner so cli) then refuse cli 4
        else
          let recv := match r with RUdp _ => Udp_cli_recv | RTcp _ => Cli_recv end in
          if negb (is_cli_state_idle so) && negb (so_cli_state so =? recv) then refuse cli 5
          else
            match r with
            | RUdp it => process_cli_sendto_udp it (mr_saddr mr 6) ptr len cli frame
            | RTcp it => process_cli_sendto_tcp it ptr len cli frame
            end
    end.

Definition process_cli_recvfrom_tcp (it cli : Z) : N unit :=
  t ← get_tcp it;
  let p := t_stream t in
  _ ← nassert (negb (p =? 0));
  _ ← nassert (t_net_state t =? Net_connection);
  _ ← nassert (t_cli_state t =? Cli_idle);
  s ← get_str p;
  if bool_decide (s_state s = Established) then
    if negb (s_wp s =? 0) then deliver p cli
    else mod_sock (RTcp it) (fun so => with_client (with_cli_state so Cli_recv) cli)
  else
    _ ← reply_to_client (so_client (t_sock t)) 0 (sa_words (sa_make (rem_port s) (rem_addr s))) (Some []);
    mret tt.

Definition process_cli_recvfrom tag mr cli : N Z :=
  if wrong_format tag 5 0 then refuse cli 2
  else
    o ← find_any (mr_int mr 4);
    match o with
    | None => refuse cli 3
    | Some r =>
        so ← get_sock r;
        if negb (is_owner so cli) then refuse cli 4
        else if negb (is_cli_state_idle so) then refuse cli 5
        else
          match r with
          | RUdp it =>
              if negb (so_net_state so =? Udp_net_idle) then refuse cli 6
              else
                u ← get_udp it;
                match get_received_packet u with
                | Some pk =>
                    _ ← reply_to_client cli 0 (sa_words (p_saddr pk)) (Some (p_buf pk));
                    u ← get_udp it;
                    u ← lift (free_received_packet u);
                    _ ← put_udp it u;
                    mret 1
                | None =>
                    _ ← mod_sock r (fun so => with_recv_client (with_cli_state so Udp_cli_recv) cli);
                    mret 1
                end
          | RTcp it =>
              if negb (so_net_state so =? Net_connection) then refuse cli 6
              else _ ← process_cli_recvfrom_tcp it cli; mret 1
          end
    end.

Definition process_client_request tag mr cli (frame : Z) : N Z :=
  let reqid := mr_at mr 3 in
  if reqid =? Socket_create then process_cli_socket tag mr cli
  else if reqid =? Socket_close then process_cli_close tag mr cli
  else if reqid =? Socket_bind then process_cli_bind tag mr cli
  else if reqid =? Socket_listen then process_cli_listen tag mr cli
  else if reqid =? Socket_accept then process_cli_accept tag mr cli
  else if reqid =? Socket_connect then process_cli_connect tag mr cli
  else if reqid =? Socket_sendto then process_cli_sendto tag mr cli frame
  else if reqid =? Socket_recvfrom then process_cli_recvfrom tag mr cli
  else refuse cli 1.

(** ** The threads *)

(** The buffer of a thread, taken from the pool if it has none; without a free
    frame the thread stops in the debugger. *)
Definition thread_buf (buf : Z) : N Z :=
  if negb (buf =? 0) then mret buf
  else b ← frames_get; if b =? 0 then lift (Stop FPanic) else mret b.

(** One round of the Ethernet thread: the driver answers with an error code
    and a frame, which the kernel copies into the buffer; a frame that is
    longer than the buffer overflows the message. *)
Definition eth_round (buf ecode : Z) (data : list Z) : N Z :=
  buf ← thread_buf buf;
  _ ← nassert (Z.of_nat (length data) <=? Frame_sz);
  _ ← wr (fun m => store_bytes m buf data);
  if negb (ecode =? 0) then mret buf
  else
    r ← process_eth_frame buf (Z.of_nat (length data));
    mret (if r =? 0 then 0 else buf).

Definition hdrs_reserve : Z := Eth_hdrlen + Ip_typically_hdr_len + Z.max Udp_hdrlen Tcp_typically_hdr_len.

(** One round of the client thread: a message of [cli], its string copied
    behind the space for the headers as far as it fits; a message that
    overflows is not received. *)
Definition client_round (key0 key1 buf tag : Z) mr cli (data : list Z) : N Z :=
  buf ← thread_buf buf;
  _ ← wr (fun m => store_bytes m (buf + hdrs_reserve) (take (Z.to_nat (Frame_sz - hdrs_reserve)) data));
  if Frame_sz - hdrs_reserve <? Z.of_nat (length data) then mret buf
  else if tag_untyped tag <? 3 then _ ← reply cli 1; mret buf
  else if negb (mr_at mr 1 =? key0) || negb (mr_at mr 2 =? key1) then _ ← reply cli 2; mret buf
  else
    e ← process_client_request tag mr cli buf;
    mret (if e =? 0 then 0 else buf).

End Client.

(** main(): the frames of [frames_buf] at [base], the interfaces and the empty
    tables; [us], [ts], [ss]: the items of the static lists of sockets and
    streams. *)
Definition Frames_buf_sz : Z := 0x800 * 4.
Definition my_mac : mac_t := [0x22; 0x33; 0x44; 0x55; 0x66; 0x77].
Definition my_ip : Z := Z.lor (Z.lor (Z.lor (Z.shiftl 192 24) (Z.shiftl 168 16)) (Z.shiftl 0 8)) 100.
Definition my_mask : Z := 0xffffff00.
Definition net_start (m : mem) (base : Z) (us ts ss : list Z) (clock : Z) : res net :=
  let n := MkNet m [] [] [] [] (MkA [] us) (MkA [] ts) (MkA [] ss) 0 2000 2000 clock [] in
  fs ← frames_init 17 (round_up base 4) (base + Frames_buf_sz) [];
  n ← eth_add (set_frames n fs) my_mac;
  ip_add n my_ip my_mask my_mac.
