(* ===== verification/NetFrame.v ===== *)
(** What the handlers of [NetStack] and [NetClient] leave unchanged: relations
    between the state before and after a handler, and the automation that
    proves them along the code. *)

From Stdlib Require Import ZArith Lia Bool.
From stdpp Require Import base list numbers gmap.
From S2P Require Import Prelude SysUtils ListSpec L4Types CString Packets Sockets NetStack NetClient.

Implicit Types (n : net) (R : net -> net -> Prop).

(** ** Steps of a handler that ended *)

Lemma nbind_Ok {A B} (c : N A) (k : A -> N B) n y n' : (c ≫= k) n = Ok (y, n') -> exists x n1, c n = Ok (x, n1) /\ k x n1 = Ok (y, n').
Proof. unfold mbind, N_bind. destruct (c n) as [[x n1]|e]; [eauto | done]. Qed.

Lemma lift_Ok {A} (r : res A) n x n' : lift r n = Ok (x, n') -> r = Ok x /\ n' = n.
Proof. unfold lift. destruct r; [by intros [= -> ->] | done]. Qed.
Lemma nassert_Ok b n x n' : nassert b n = Ok (x, n') -> b = true /\ n' = n.
Proof. intros [H ->]%lift_Ok. by apply wassert_Ok in H. Qed.
Lemma rd_Ok {A} (f : mem -> res A) n x n' : rd f n = Ok (x, n') -> f (n_mem n) = Ok x /\ n' = n.
Proof. apply lift_Ok. Qed.

Lemma get_udp_Ok it n u n' : get_udp it n = Ok (u, n') -> find_it it (busy (udp_sockets n)) = Some u /\ n' = n.
Proof. intros (A & n1 & [= -> ->] & [H ->]%lift_Ok)%nbind_Ok. unfold deref in H. by destruct (find_it it _); simplify_eq/=. Qed.
Lemma get_tcp_Ok it n t n' : get_tcp it n = Ok (t, n') -> find_it it (busy (tcp_sockets n)) = Some t /\ n' = n.
Proof. intros (A & n1 & [= -> ->] & [H ->]%lift_Ok)%nbind_Ok. unfold deref in H. by destruct (find_it it _); simplify_eq/=. Qed.
Lemma get_str_Ok p n s n' : get_str p n = Ok (s, n') -> find_it p (busy (allstreams n)) = Some s /\ n' = n.
Proof. intros (A & n1 & [= -> ->] & [H ->]%lift_Ok)%nbind_Ok. unfold deref in H. by destruct (find_it p _); simplify_eq/=. Qed.

Definition sock_at n (r : sref) : option sock :=
  match r with RUdp it => u_sock <$> find_it it (busy (udp_sockets n)) | RTcp it => t_sock <$> find_it it (busy (tcp_sockets n)) end.
Definition with_sock n (r : sref) (so : sock) : net :=
  match r with
  | RUdp it => match find_it it (busy (udp_sockets n)) with Some u => set_udp n (store (udp_sockets n) it (u_with u so)) | None => n end
  | RTcp it => match find_it it (busy (tcp_sockets n)) with Some t => set_tcp n (store (tcp_sockets n) it (t_with t so)) | None => n end
  end.
Lemma get_sock_Ok r n so n' : get_sock r n = Ok (so, n') -> sock_at n r = Some so /\ n' = n.
Proof. destruct r; intros (x & n1 & [E ->]%get_udp_Ok & [= <- <-])%nbind_Ok || intros (x & n1 & [E ->]%get_tcp_Ok & [= <- <-])%nbind_Ok; simpl; by rewrite E. Qed.
Lemma put_sock_Ok r so n x n' : put_sock r so n = Ok (x, n') -> n' = with_sock n r so.
Proof. destruct r; intros (u & n1 & [E ->]%get_udp_Ok & [= _ <-])%nbind_Ok || intros (u & n1 & [E ->]%get_tcp_Ok & [= _ <-])%nbind_Ok; simpl; by rewrite E. Qed.
Lemma mod_sock_Ok r f n x n' : mod_sock r f n = Ok (x, n') -> exists so, sock_at n r = Some so /\ n' = with_sock n r (f so).
Proof. intros (so & n1 & [E ->]%get_sock_Ok & H)%nbind_Ok. exists so. split; [done | by apply put_sock_Ok in H]. Qed.
Lemma mod_str_Ok p f n x n' : mod_str p f n = Ok (x, n') -> exists s, find_it p (busy (allstreams n)) = Some s /\ n' = set_streams n (store (allstreams n) p (f s)).
Proof. intros (s & n1 & [E ->]%get_str_Ok & [= _ <-])%nbind_Ok. eauto. Qed.

(** Split a run of a handler into its steps. *)
Ltac nstep :=
  match goal with
  | H : (_ ≫= _) _ = Ok (_, _) |- _ => let x := fresh "x" in let n := fresh "n" in let E := fresh "E" in apply nbind_Ok in H as (x & n & E & H)
  | H : mret _ _ = Ok (_, _) |- _ => injection H as ??; subst
  | H : get _ _ = Ok (_, _) |- _ => injection H as ??; subst
  | H : upd _ _ = Ok (_, _) |- _ => injection H as ??; subst
  | H : lift (Stop _) _ = Ok _ |- _ => discriminate H
  | H : lift _ _ = Ok (_, _) |- _ => apply lift_Ok in H as [H ?]; subst
  | H : nassert _ _ = Ok (_, _) |- _ => apply nassert_Ok in H as [H ?]; subst
  | H : rd _ _ = Ok (_, _) |- _ => apply rd_Ok in H as [H ?]; subst
  | H : get_udp _ _ = Ok (_, _) |- _ => apply get_udp_Ok in H as [H ?]; subst
  | H : get_tcp _ _ = Ok (_, _) |- _ => apply get_tcp_Ok in H as [H ?]; subst
  | H : get_str _ _ = Ok (_, _) |- _ => apply get_str_Ok in H as [H ?]; subst
  | H : get_sock _ _ = Ok (_, _) |- _ => apply get_sock_Ok in H as [H ?]; subst
  end.

(** ** Relations that handlers respect *)

Definition via {A} R (c : N A) : Prop := forall n x n', c n = Ok (x, n') -> R n n'.

(** [R] ignores the memory, the frame pool, the ARP cache and the frames that
    were sent; it also ignores the replies. *)
Class Calm R := {
  calm_pre :: PreOrder R;
  calm_mem n m : R n (set_mem n m);
  calm_tx n b : R n (add_event n (EvTx b));
  calm_frames n l : R n (set_frames n l);
  calm_arp n l : R n (set_arp n l) }.
Class Quiet R := {
  quiet_calm :: Calm R;
  quiet_reply n c e w b : R n (add_event n (EvReply c e w b)) }.

Lemma quiet_intro R : PreOrder R -> (forall n m, R n (set_mem n m)) -> (forall n e, R n (add_event n e)) ->
  (forall n l, R n (set_frames n l)) -> (forall n l, R n (set_arp n l)) -> Quiet R.
Proof. intros. split; [by split | done]. Qed.

Definition quiet_tcp R (it : Z) : Prop := forall n t, R n (set_tcp n (store (tcp_sockets n) it t)).
Definition quiet_udp R (it : Z) : Prop := forall n u, R n (set_udp n (store (udp_sockets n) it u)).
(** The changes of a socket that keep what it is and whose it is. *)
Definition tame (so so' : sock) : Prop :=
  so_net_state so' = so_net_state so /\ so_id so' = so_id so /\ so_owner so' = so_owner so /\ so_thr_begin so' = so_thr_begin so /\ so_thr_end so' = so_thr_end so.
Definition quiet_sock R (r : sref) : Prop :=
  match r with
  | RUdp it => forall n u so, find_it it (busy (udp_sockets n)) = Some u -> tame (u_sock u) so -> R n (set_udp n (store (udp_sockets n) it (u_with u so)))
  | RTcp it => forall n t so, find_it it (busy (tcp_sockets n)) = Some t -> tame (t_sock t) so -> R n (set_tcp n (store (tcp_sockets n) it (t_with t so)))
  end.
Definition quiet_any R (r : sref) : Prop := match r with RUdp it => quiet_udp R it | RTcp it => quiet_tcp R it end.
Definition quiet_str R (p : Z) : Prop := forall n s, R n (set_streams n (store (allstreams n) p s)).

Create HintDb via discriminated.
#[export] Hint Constants Opaque : via.

Section Via.
Context {EV : NetEnv} (R : net -> net -> Prop) {QR : Calm R}.

Lemma via_ret {A} (x : A) : via R (mret x).
Proof. intros n y n' [= _ <-]. reflexivity. Qed.
Lemma via_bind {A B} (c : N A) (k : A -> N B) : via R c -> (forall x, via R (k x)) -> via R (c ≫= k).
Proof. intros Hc Hk n y n' (x & n1 & E & H)%nbind_Ok. etrans; [by eapply Hc | by eapply Hk]. Qed.
Lemma via_get {A} (f : net -> A) : via R (get f).
Proof. intros n x n' [= _ <-]. reflexivity. Qed.
Lemma via_lift {A} (r : res A) : via R (lift r).
Proof. intros n x n' [_ ->]%lift_Ok. reflexivity. Qed.
Lemma via_nassert b : via R (nassert b).
Proof. apply via_lift. Qed.
Lemma via_rd {A} (f : mem -> res A) : via R (rd f).
Proof. intros n x n' [_ ->]%rd_Ok. reflexivity. Qed.
Lemma via_upd f : (forall n, R n (f n)) -> via R (upd f).
Proof. intros Hf n x n' [= _ <-]. apply Hf. Qed.
Lemma via_wr f : via R (wr f).
Proof. apply via_bind; [apply via_rd | intros m; apply via_upd; intros n; apply calm_mem]. Qed.

Lemma via_get_udp it : via R (get_udp it).
Proof. apply via_bind; [apply via_get | intros; apply via_lift]. Qed.
Lemma via_get_tcp it : via R (get_tcp it).
Proof. apply via_bind; [apply via_get | intros; apply via_lift]. Qed.
Lemma via_get_str it : via R (get_str it).
Proof. apply via_bind; [apply via_get | intros; apply via_lift]. Qed.
Lemma via_get_sock r : via R (get_sock r).
Proof. destruct r; (apply via_bind; [apply via_get_udp || apply via_get_tcp | intros; apply via_ret]). Qed.
Lemma via_put_udp it u : quiet_udp R it -> via R (put_udp it u).
Proof. intros H. apply via_upd. intros n. apply H. Qed.
Lemma via_put_tcp it t : quiet_tcp R it -> via R (put_tcp it t).
Proof. intros H. apply via_upd. intros n. apply H. Qed.
Lemma via_put_str p s : quiet_str R p -> via R (put_str p s).
Proof. intros H. apply via_upd. intros n. apply H. Qed.
Lemma via_mod_str p f : quiet_str R p -> via R (mod_str p f).
Proof. intros H. apply via_bind; [apply via_get_str | intros; by apply via_put_str]. Qed.
Lemma via_mod_sock r f : quiet_sock R r -> (forall so, tame so (f so)) -> via R (mod_sock r f).
Proof.
  intros H Hf n x n' (so & E & ->)%mod_sock_Ok. destruct r as [it|it]; simpl in *.
  - destruct (find_it it _) as [u|] eqn:Eu; simplify_eq/=. by apply H.
  - destruct (find_it it _) as [t|] eqn:Et; simplify_eq/=. by apply H.
Qed.
Lemma quiet_any_sock r : quiet_any R r -> quiet_sock R r.
Proof. destruct r; intros H n t so _ _; apply H. Qed.
Lemma via_put_sock r s : quiet_any R r -> via R (put_sock r s).
Proof. destruct r; intros H; (apply via_bind; [apply via_get_udp || apply via_get_tcp | intros; by apply via_put_udp || apply via_put_tcp]). Qed.
Lemma via_mod_sock_any r f : quiet_any R r -> via R (mod_sock r f).
Proof. intros H. apply via_bind; [apply via_get_sock | intros; by apply via_put_sock]. Qed.
End Via.

(** Walk along a handler; the leaves are solved with the hints. *)
Ltac via_step :=
  cbv zeta;
  lazymatch goal with
  | |- via _ (mbind _ _) => apply via_bind; [typeclasses eauto | | intros ?]
  | |- via _ (mret _) => apply via_ret; typeclasses eauto
  | |- via _ (get _) => apply via_get; typeclasses eauto
  | |- via _ (lift _) => apply via_lift; typeclasses eauto
  | |- via _ (nassert _) => apply via_nassert; typeclasses eauto
  | |- via _ (rd _) => apply via_rd; typeclasses eauto
  | |- via _ (wr _) => apply via_wr; typeclasses eauto
  | |- via _ (get_udp _) => apply via_get_udp; typeclasses eauto
  | |- via _ (get_tcp _) => apply via_get_tcp; typeclasses eauto
  | |- via _ (get_str _) => apply via_get_str; typeclasses eauto
  | |- via _ (get_sock _) => apply via_get_sock; typeclasses eauto
  | |- via _ (put_udp _ _) => apply via_put_udp
  | |- via _ (put_tcp _ _) => apply via_put_tcp
  | |- via _ (put_str _ _) => apply via_put_str
  | |- via _ (mod_str _ _) => apply via_mod_str; [typeclasses eauto |]
  | |- via _ (put_sock _ _) => apply via_put_sock; [typeclasses eauto |]
  | |- via _ (mod_sock _ _) => first [apply via_mod_sock; [| by intros; repeat split] | apply via_mod_sock_any; [typeclasses eauto |]]
  | |- via _ (let '(_, _) := ?x in _) => destruct x
  | |- via _ (if ?b then _ else _) => destruct b eqn:?
  | |- via _ (match ?x with _ => _ end) => destruct x eqn:?
  | |- _ => solve [eauto with via typeclass_instances]
  end.
Ltac via_tac := repeat via_step.

Section Handlers.
Context {EV : NetEnv} (R : net -> net -> Prop) {QR : Calm R}.

Lemma via_send_to_eth_drv b l : via R (send_to_eth_drv b l).
Proof. unfold send_to_eth_drv. via_step; [via_tac |]. via_step; [apply via_upd; intros; apply calm_tx |]. via_tac. Qed.
Lemma via_send_all b l : via R (send_all b l).
Proof. unfold send_all. via_step; [apply via_send_to_eth_drv |]. via_tac. Qed.
Lemma via_frames_get : via R frames_get.
Proof. unfold frames_get. via_step; [via_tac |]. via_step; [apply via_upd; intros; apply calm_frames | via_tac]. Qed.
Lemma via_frames_free b : via R (frames_free b).
Proof. unfold frames_free. via_step; [via_tac |]. via_step; [via_tac |]. apply via_upd; intros; apply calm_frames. Qed.
Lemma via_arp_find ip : via R (arp_find ip).
Proof. unfold arp_find. via_step; [via_tac |]. via_step; [via_tac |]. repeat via_step. apply via_upd; intros; apply calm_arp. Qed.
Lemma via_arp_add ip mac : via R (arp_add ip mac).
Proof. apply via_upd. intros n. cbv zeta. case_match; apply calm_arp. Qed.
Lemma via_ip_find a : via R (ip_find a).
Proof. unfold ip_find. via_tac. Qed.
Lemma via_ip_find_masked a : via R (ip_find_masked a).
Proof. unfold ip_find_masked. via_tac. Qed.
Lemma via_find_ipif a b : via R (find_ipif a b).
Proof. unfold find_ipif. case_match; [apply via_ip_find_masked | apply via_ip_find]. Qed.
Lemma via_build_eth e s d t : via R (build_eth e s d t).
Proof. unfold build_eth. via_tac. Qed.
Lemma via_build_ip a b c d e : via R (build_ip a b c d e).
Proof. unfold build_ip. via_tac. Qed.
Lemma via_build_tcp a b c d e f g h i : via R (build_tcp a b c d e f g h i).
Proof. unfold build_tcp. via_tac. Qed.
Lemma via_build_udp a b c d e : via R (build_udp a b c d e).
Proof. unfold build_udp. via_tac. Qed.
Lemma via_item_bytes a l : via R (item_bytes a l).
Proof. unfold item_bytes. via_tac. Qed.
Lemma via_headers_at a b c : via R (headers_at a b c).
Proof. unfold headers_at. via_tac. Qed.
Lemma via_find_any id : via R (find_any id).
Proof. unfold find_any. via_tac. Qed.
End Handlers.


Section Replies.
Context {EV : NetEnv} (R : net -> net -> Prop) {QR : Quiet R}.

Lemma via_reply_to_client c e w b : via R (reply_to_client c e w b).
Proof. unfold reply_to_client. via_step; [via_tac |]. via_step; [apply via_upd; intros; apply quiet_reply |]. via_tac. Qed.
Lemma via_reply c e : via R (reply c e).
Proof. unfold reply. via_step; [apply via_reply_to_client | via_tac]. Qed.
Lemma via_refuse c e : via R (refuse c e).
Proof. unfold refuse. via_step; [apply via_reply | via_tac]. Qed.
End Replies.

#[export] Hint Resolve via_send_all via_reply_to_client via_reply via_refuse via_frames_get via_frames_free via_arp_find via_arp_add via_ip_find via_ip_find_masked via_find_ipif
  via_build_eth via_build_ip via_build_tcp via_build_udp via_item_bytes via_headers_at via_find_any : via.

Section Messages.
Context {EV : NetEnv} (R : net -> net -> Prop) {QR : Calm R}.

Lemma via_send_arp_request i a : via R (send_arp_request i a).
Proof. unfold send_arp_request. via_tac. Qed.
Lemma via_send_icmp_dest_unreach i a b c d : via R (send_icmp_dest_unreach i a b c d).
Proof. unfold send_icmp_dest_unreach. via_tac. Qed.
Hint Resolve via_send_arp_request : via.
Lemma via_send_tcp_msg it p flags : quiet_sock R (RTcp it) -> via R (send_tcp_msg it p flags).
Proof. intros Ht. unfold send_tcp_msg. via_tac. Qed.
Lemma via_cli_done r : quiet_sock R r -> via R (cli_done r).
Proof. intros Hr. unfold cli_done. via_tac. Qed.
Lemma via_deliver `{!Quiet R} p c : quiet_str R p -> via R (deliver p c).
Proof. intros Hp. unfold deliver. via_tac. Qed.
Lemma via_bind_if_need r a : quiet_any R r -> (forall n v, R n (set_udp_port n v)) -> (forall n v, R n (set_tcp_port n v)) -> via R (bind_if_need r a).
Proof. intros Hr Hu Ht. unfold bind_if_need. via_tac. apply via_upd. intros n. destruct r; [apply Hu | apply Ht]. Qed.
End Messages.
#[export] Hint Resolve via_send_arp_request via_send_icmp_dest_unreach via_send_tcp_msg via_cli_done via_deliver : via.

(** ** Handlers that keep the streams *)

Definition same_streams n n' : Prop := allstreams n' = allstreams n.
#[export] Instance same_streams_quiet : Quiet same_streams.
Proof. apply quiet_intro; try done. split; [by intros n | intros n1 n2 n3 H1 H2; unfold same_streams in *; congruence]. Qed.
Lemma same_streams_tcp it : quiet_tcp same_streams it.
Proof. done. Qed.
Lemma same_streams_sock r : quiet_sock same_streams r.
Proof. by destruct r; intros ? **. Qed.
#[export] Hint Resolve same_streams_tcp same_streams_sock : via.

(** ** Handlers that keep the identity of the TCP sockets *)

Definition same_kind (t t' : tsock) : Prop := tame (t_sock t) (t_sock t') /\ t_stream t' = t_stream t.
Definition same_socks n n' : Prop :=
  forall it t, find_it it (busy (tcp_sockets n)) = Some t -> exists t', find_it it (busy (tcp_sockets n')) = Some t' /\ same_kind t t'.

Lemma find_update_eq {T} (l : list (Z * T)) it u w : find_it it l = Some u -> find_it it (update_it it w l) = Some w.
Proof. induction l as [|[b v] t IH]; simpl; [done |]. destruct (Z.eqb_spec b it) as [->|Hb]; simpl; [by rewrite Z.eqb_refl |]. by rewrite (proj2 (Z.eqb_neq _ _) Hb). Qed.
Lemma find_update_ne {T} (l : list (Z * T)) it q w : q <> it -> find_it q (update_it it w l) = find_it q l.
Proof.
  intros Hq. induction l as [|[b v] t IH]; simpl; [done |]. destruct (Z.eqb_spec b it) as [->|Hb]; simpl; [by rewrite (proj2 (Z.eqb_neq it q)) by congruence |]. by destruct (b =? q).
Qed.

#[export] Instance same_socks_quiet : Quiet same_socks.
Proof.
  apply quiet_intro; [split | ..].
  - intros n it t E. exists t. split; [done | by repeat split].
  - intros n1 n2 n3 H1 H2 it t E. destruct (H1 it t E) as (t1 & E1 & K1). destruct (H2 it t1 E1) as (t2 & E2 & K2). exists t2. split; [done |].
    unfold same_kind, tame in *. intuition congruence.
  - intros n m it t E. exists t. split; [done | by repeat split].
  - intros n m it t E. exists t. split; [done | by repeat split].
  - intros n m it t E. exists t. split; [done | by repeat split].
  - intros n m it t E. exists t. split; [done | by repeat split].
Qed.
Lemma same_socks_sock r : quiet_sock same_socks r.
Proof.
  destruct r as [i|i]; intros n t so Et Ht it t0 E0; [exists t0; split; [done | by repeat split] |]. simpl. destruct (decide (it = i)) as [->|Hi].
  - rewrite (find_update_eq _ _ t) by done. eexists. split; [done |]. rewrite Et in E0. injection E0 as <-. split; [done | done].
  - rewrite find_update_ne by done. exists t0. split; [done | by repeat split].
Qed.
Lemma same_socks_str p : quiet_str same_socks p.
Proof. intros n s it t E. exists t. split; [done | by repeat split]. Qed.
#[export] Hint Resolve same_socks_sock same_socks_str : via.
