(* ===== verification/NetSpec.v ===== *)
(** The frames that [NetStack] builds and understands, as lists of bytes, and
    the delivery of datagrams from one stack to another. *)

From Stdlib Require Import ZArith Lia Bool.
From stdpp Require Import base list numbers gmap.
From S2P Require Import Prelude SysUtils ListSpec L4Types CString Packets PacketSpec Sockets NetStack NetClient.

Implicit Types (m : mem) (a : Z) (l : list Z) (n : net).

(** ** Steps of handlers *)

Lemma set_mem_mem n m m' : set_mem (set_mem n m) m' = set_mem n m'.
Proof. done. Qed.
Lemma set_mem_id n : set_mem n (n_mem n) = n.
Proof. by destruct n. Qed.

Lemma bind_step {A B} (c : N A) (k : A -> N B) n x n' : c n = Ok (x, n') -> (c ≫= k) n = k x n'.
Proof. unfold mbind, N_bind. by intros ->. Qed.

Lemma wr_step f n m' : f (n_mem n) = Ok m' -> wr f n = Ok (tt, set_mem n m').
Proof. intros E. unfold wr, rd, lift, upd, mbind, N_bind. by rewrite E. Qed.

Lemma rd_step {A} (f : mem -> res A) n x : f (n_mem n) = Ok x -> rd f n = Ok (x, n).
Proof. intros E. unfold rd, lift. by rewrite E. Qed.

Lemma wr_store {B} (k : unit -> N B) n m f a l off bs : view m a l -> (off + length bs <= length l)%nat -> f m = store_bytes m (a + Z.of_nat off) bs ->
  exists m', (wr f ≫= k) (set_mem n m) = k tt (set_mem n m') /\ view m' a (splice off bs l) /\ wrote m a (Z.of_nat (length l)) m'.
Proof.
  intros V Hn Ef. destruct (store_view m a l off bs V Hn) as (m' & E & V' & W). exists m'. split_and!; [| done |].
  - apply bind_step. rewrite <- (set_mem_mem n m m'). apply wr_step. simpl. by rewrite Ef.
  - eapply wrote_mono; [exact W | lia | lia].
Qed.

Lemma rd_view {A B} (f : mem -> res A) (k : A -> N B) n m x : f m = Ok x -> (rd f ≫= k) (set_mem n m) = k x (set_mem n m).
Proof. intros E. apply bind_step. by apply rd_step. Qed.

(** Fields of a view. *)
Lemma stbits8_view m a l off o w v x : view m a l -> l !! off = Some x ->
  stbits8 m (a + Z.of_nat off) o w v = store_bytes m (a + Z.of_nat off) [u8 (bf_set o w v x)].
Proof. intros V E. unfold stbits8, ld8. rewrite (view_loadb m a l off x V E). cbn [mbind res_bind]. unfold st8. cbn [be_bytes]. by rewrite Z.shiftr_0_r. Qed.

Lemma ld16_view m a l off x y : view m a l -> l !! off = Some x -> l !! S off = Some y -> ld16 m (a + Z.of_nat off) = Ok (x * 256 + y).
Proof.
  intros V Ex Ey. unfold ld16. cbn [load_bytes]. rewrite (view_loadb m a l off x V Ex). cbn [mbind res_bind]. replace (a + Z.of_nat off + 1) with (a + Z.of_nat (S off)) by lia.
  rewrite (view_loadb m a l (S off) y V Ey). done.
Qed.

Lemma stbits16_view m a l off o w v x y : view m a l -> l !! off = Some x -> l !! S off = Some y ->
  stbits16 m (a + Z.of_nat off) o w v = store_bytes m (a + Z.of_nat off) (be_bytes 2 (bf_set o w v (x * 256 + y))).
Proof. intros V Ex Ey. unfold stbits16. by rewrite (ld16_view m a l off x y V Ex Ey). Qed.

(** ** The headers *)

Definition eth_hdr (src dst : mac_t) (etype : Z) : list Z := dst ++ src ++ be_bytes 2 etype.
(** The first ten bytes and the addresses of an IP header. *)
Definition ip_hdr0 (len proto : Z) : list Z := [0x45; 0] ++ be_bytes 2 (20 + len) ++ [0; 0; 0x40; 0; 64; u8 proto].
Definition ip_sum (len proto dst src : Z) : Z := checksum_of (wsum (ip_hdr0 len proto ++ [0; 0] ++ be_bytes 4 src ++ be_bytes 4 dst)).
Definition ip_hdr (len proto dst src : Z) : list Z := ip_hdr0 len proto ++ be_bytes 2 (ip_sum len proto dst src) ++ be_bytes 4 src ++ be_bytes 4 dst.
Definition udp_hdr0 (src dst len : Z) : list Z := be_bytes 2 src ++ be_bytes 2 dst ++ be_bytes 2 (8 + len).
Definition udp_sum (isrc idst src dst : Z) (data : list Z) : Z :=
  let len := Z.of_nat (length data) in
  checksum_of (wsum (udp_hdr0 src dst len ++ [0; 0] ++ data) + wsum (pseudo_hdr isrc idst Proto_udp (8 + len))).
Definition udp_pkt (isrc idst src dst : Z) (data : list Z) : list Z :=
  udp_hdr0 src dst (Z.of_nat (length data)) ++ be_bytes 2 (udp_sum isrc idst src dst data) ++ data.

(** Bits that every field write replaces. *)
Lemma byte_cases (P : Z -> bool) : forallb P (seqZ 0 256) = true -> forall x, in_range 8 x -> P x = true.
Proof. intros H x Hx. rewrite forallb_forall in H. apply H, list_elem_of_In, elem_of_seqZ. unfold in_range in Hx. lia. Qed.

Lemma ip_vh x : in_range 8 x -> u8 (bf_set 0 4 5 (u8 (bf_set 4 4 4 x))) = 0x45.
Proof. intros Hx. apply Z.eqb_eq. apply (byte_cases (fun x => u8 (bf_set 0 4 5 (u8 (bf_set 4 4 4 x))) =? 0x45)); [vm_compute; reflexivity | done]. Qed.
Lemma ip_tos x : in_range 8 x -> u8 (bf_set 0 2 0 (u8 (bf_set 2 6 0 x))) = 0.
Proof. intros Hx. apply Z.eqb_eq. apply (byte_cases (fun x => u8 (bf_set 0 2 0 (u8 (bf_set 2 6 0 x))) =? 0)); [vm_compute; reflexivity | done]. Qed.

Lemma ip_flags x : in_range 16 x -> bf_set 0 13 0 (bf_set 13 1 0 (bf_set 14 1 1 (bf_set 15 1 0 x))) = 0x4000.
Proof.
  intros Hx. change 0x4000 with (bf_set 0 13 0 (bf_set 13 1 0 (bf_set 14 1 1 (bf_set 15 1 0 0)))). apply Z.bits_inj'. intros i Hi. rewrite !bf_set_spec by lia.
  destruct (Z.lt_ge_cases i 16); [bit_cases; done |]. bit_cases. rewrite Z.bits_0. by apply (in_range_testbit 16).
Qed.

(** ** Building *)

(** Split a list of known length into its elements. *)
Ltac explode l H :=
  repeat (let x := fresh "x" in destruct l as [|x l]; simpl in H; [discriminate H |]; apply eq_add_S in H);
  apply nil_length_inv in H; subst l.

(** Perform the next write of a handler at offset [off] of the view [V]. *)
Ltac put V W off bs :=
  match type of V with view ?m ?a ?l =>
    match goal with
    | |- context [(mbind ?k (wr ?f)) (set_mem ?n m)] =>
        let m' := fresh "m" in let E := fresh "E" in let V' := fresh "V" in let W' := fresh "W" in
        destruct (wr_store k n m f a l off bs V) as (m' & E & V' & W');
        [simpl; lia | | rewrite E; clear E; cbn [splice take drop app length Nat.add] in V'; pose proof (wrote_trans _ _ _ _ _ W W') as W'';
                        clear W W' V; rename V' into V; rename W'' into W]
    end
  end.

Lemma ip_hdrlen_view m ip x l : view m ip (x :: l) -> ip_hdrlen m ip = Ok (bf_get 0 4 x * 4).
Proof. intros V. apply view_cons in V as [E _]. unfold ip_hdrlen, ip_header_length, ld8, loadb. by rewrite E. Qed.

Definition hi (v : Z) : Z := u8 (Z.shiftr v 8).
Definition lo (v : Z) : Z := u8 v.
Lemma hi_lo v : in_range 16 v -> hi v * 256 + lo v = v.
Proof. apply be_word2. Qed.
Definition b3 (v : Z) : Z := u8 (Z.shiftr v 24).
Definition b2 (v : Z) : Z := u8 (Z.shiftr v 16).

Lemma word16_range x y : in_range 8 x -> in_range 8 y -> in_range 16 (x * 256 + y).
Proof. unfold in_range. lia. Qed.

Lemma byte_range v : in_range 8 (u8 v).
Proof. apply Z.mod_pos_bound. lia. Qed.

Lemma bytes_ok_app l1 l2 : bytes_ok (l1 ++ l2) <-> bytes_ok l1 /\ bytes_ok l2.
Proof. apply Forall_app. Qed.

Lemma stbits16_pair m a l off o w v x : view m a l -> in_range 16 x -> l !! off = Some (hi x) -> l !! S off = Some (lo x) ->
  stbits16 m (a + Z.of_nat off) o w v = store_bytes m (a + Z.of_nat off) [hi (bf_set o w v x); lo (bf_set o w v x)].
Proof. intros V R Ex Ey. rewrite (stbits16_view m a l off o w v _ _ V Ex Ey), hi_lo by done. done. Qed.

(** The write is a store of the bytes [bs]. *)
Ltac at0 := change (Z.of_nat 0) with 0; rewrite Z.add_0_r; reflexivity.
Ltac fld V := cbv beta; first
  [ reflexivity
  | at0
  | eapply eq_trans; [| eapply stbits8_view; [exact V | reflexivity]]; first [reflexivity | at0]
  | eapply eq_trans; [| eapply stbits16_pair; [exact V | eassumption | reflexivity | reflexivity]]; reflexivity
  | eapply eq_trans; [| eapply stbits16_view; [exact V | reflexivity | reflexivity]]; reflexivity ].

Lemma ip_hdr_sum len proto dst src : bytes_ok (ip_hdr len proto dst src) /\ length (ip_hdr len proto dst src) = 20%nat /\ checksum_of (wsum (ip_hdr len proto dst src)) = 0.
Proof.
  assert (Hb : forall c, bytes_ok (ip_hdr0 len proto ++ be_bytes 2 c ++ be_bytes 4 src ++ be_bytes 4 dst)).
  { intros c. unfold ip_hdr0. rewrite !bytes_ok_app. split_and!; try apply be_bytes_ok; unfold bytes_ok; rewrite !Forall_cons; split_and!; try apply byte_range; try apply Forall_nil_2; unfold in_range; lia. }
  split_and!; [apply Hb | done |]. unfold ip_hdr. pose proof (wsum_range _ (Hb 0)) as R. set (l0 := ip_hdr0 len proto ++ [0; 0] ++ be_bytes 4 src ++ be_bytes 4 dst).
  assert (E : ip_hdr0 len proto ++ be_bytes 2 (ip_sum len proto dst src) ++ be_bytes 4 src ++ be_bytes 4 dst = splice 10 (be_bytes 2 (ip_sum len proto dst src)) l0) by reflexivity.
  change (ip_hdr0 len proto ++ be_bytes 2 0 ++ be_bytes 4 src ++ be_bytes 4 dst) with l0 in R.
  rewrite E, wsum_field; [apply checksum_valid; lia | by exists 5%nat | simpl; lia | reflexivity | apply checksum_range; fold l0; lia].
Qed.

(** The last step: the checksum of the header. *)
Lemma build_ip_sum n m0 m ip len proto dst src : view m0 ip (ip_hdr0 len proto ++ [0; 0] ++ be_bytes 4 src ++ be_bytes 4 dst) -> wrote m ip 20 m0 ->
  exists m', (c ← rd (fun m => inet_checksum m ip 20 []); wr (fun m => set_ip_header_checksum m ip c)) (set_mem n m0) = Ok (tt, set_mem n m') /\
    view m' ip (ip_hdr len proto dst src) /\ wrote m ip 20 m'.
Proof.
  intros V W. set (l0 := ip_hdr0 len proto ++ [0; 0] ++ be_bytes 4 src ++ be_bytes 4 dst) in *. assert (Hb : bytes_ok l0).
  { unfold l0, ip_hdr0. rewrite !bytes_ok_app. split_and!; try apply be_bytes_ok; unfold bytes_ok; rewrite !Forall_cons; split_and!; try apply byte_range; try apply Forall_nil_2; unfold in_range; lia. }
  assert (E : inet_checksum m0 ip 20 [] = Ok (ip_sum len proto dst src)).
  { change 20 with (Z.of_nat (length l0)). rewrite inet_checksum_ok; [by rewrite Z.add_0_r | simpl; lia | simpl; lia | done | apply Forall_nil_2 | done]. }
  rewrite (rd_view _ _ n m0 _ E). destruct (store_view m0 ip l0 10 (be_bytes 2 (ip_sum len proto dst src)) V) as (m' & Es & V' & W'); [simpl; lia |].
  exists m'. split_and!; [rewrite <- (set_mem_mem n m0 m'); apply wr_step; exact Es | exact V' |]. apply (wrote_trans _ _ _ _ _ W). eapply wrote_mono; [exact W' | lia | simpl; lia].
Qed.

Lemma build_ip_ok n m ip h len proto dst src : view m ip h -> length h = 20%nat -> bytes_ok h ->
  exists m', build_ip ip len proto dst src (set_mem n m) = Ok (tt, set_mem n m') /\ view m' ip (ip_hdr len proto dst src) /\ wrote m ip 20 m'.
Proof.
  intros V Hl Hb. pose proof (wrote_refl m ip 20) as W. explode h Hl. unfold bytes_ok in Hb. rewrite !Forall_cons in Hb. destruct_and! Hb. unfold build_ip.
  put V W 0%nat [u8 (bf_set 4 4 4 x)]; [fld V |].
  put V W 0%nat [u8 (bf_set 0 4 5 (u8 (bf_set 4 4 4 x)))]; [fld V |]. rewrite ip_vh in V by done.
  put V W 1%nat [u8 (bf_set 2 6 0 x0)]; [fld V |].
  put V W 1%nat [u8 (bf_set 0 2 0 (u8 (bf_set 2 6 0 x0)))]; [fld V |]. rewrite ip_tos in V by done.
  erewrite rd_view by (eapply ip_hdrlen_view; exact V). change (bf_get 0 4 69 * 4) with 20.
  put V W 2%nat [hi (20 + len); lo (20 + len)]; [fld V |].
  put V W 4%nat [0; 0]; [fld V |].
  put V W 6%nat [hi (bf_set 15 1 0 (x5 * 256 + x6)); lo (bf_set 15 1 0 (x5 * 256 + x6))]; [fld V |].
  assert (R0 : in_range 16 (x5 * 256 + x6)) by (by apply word16_range). set (w0 := x5 * 256 + x6) in *.
  assert (R1 : in_range 16 (bf_set 15 1 0 w0)) by (by apply bf_set_range). assert (R2 : in_range 16 (bf_set 14 1 1 (bf_set 15 1 0 w0))) by (by apply bf_set_range).
  assert (R3 : in_range 16 (bf_set 13 1 0 (bf_set 14 1 1 (bf_set 15 1 0 w0)))) by (by apply bf_set_range).
  put V W 6%nat [hi (bf_set 14 1 1 (bf_set 15 1 0 w0)); lo (bf_set 14 1 1 (bf_set 15 1 0 w0))]; [fld V |].
  put V W 6%nat [hi (bf_set 13 1 0 (bf_set 14 1 1 (bf_set 15 1 0 w0))); lo (bf_set 13 1 0 (bf_set 14 1 1 (bf_set 15 1 0 w0)))]; [fld V |].
  put V W 6%nat [hi (bf_set 0 13 0 (bf_set 13 1 0 (bf_set 14 1 1 (bf_set 15 1 0 w0)))); lo (bf_set 0 13 0 (bf_set 13 1 0 (bf_set 14 1 1 (bf_set 15 1 0 w0))))]; [fld V |].
  rewrite ip_flags in V by done. change (hi 16384) with 64 in V. change (lo 16384) with 0 in V.
  put V W 8%nat [64]; [fld V |]. put V W 10%nat [0; 0]; [fld V |]. put V W 9%nat [u8 proto]; [fld V |].
  put V W 16%nat (be_bytes 4 dst); [fld V |]. put V W 12%nat (be_bytes 4 src); [fld V |].
  erewrite rd_view by (eapply ip_hdrlen_view; exact V). change (bf_get 0 4 69 * 4) with 20.
  apply (build_ip_sum n _ m ip len proto dst src V W).
Qed.

(** ** Reading fields *)

Lemma be_word_cons b l : be_word (b :: l) = b * 256 ^ Z.of_nat (length l) + be_word l.
Proof.
  assert (H : forall l acc, foldl (fun acc b => acc * 256 + b) acc l = acc * 256 ^ Z.of_nat (length l) + be_word l).
  { induction l0 as [|c t IH]; intros acc; [simpl; unfold be_word; simpl; lia |]. unfold be_word. cbn [foldl]. rewrite IH, (IH (0 * 256 + c)). cbn [length].
    rewrite Nat2Z.inj_succ, Z.pow_succ_r by lia. lia. }
  unfold be_word at 1. cbn [foldl]. rewrite H. f_equal.
Qed.

Lemma be_word_bytes w v : be_word (be_bytes w v) = v mod 2 ^ (8 * Z.of_nat w).
Proof.
  induction w as [|w IH]; [simpl; by rewrite Z.mod_1_r |]. cbn [be_bytes]. rewrite be_word_cons, IH. destruct (be_bytes_ok w v) as [_ ->]. change 256 with (2 ^ 8). rewrite <- Z.pow_mul_r by lia.
  replace (8 * Z.of_nat (S w)) with (8 * Z.of_nat w + 8) by lia. rewrite Z.pow_add_r by lia. rewrite Z.rem_mul_r by (try apply Z.pow_nonzero; lia || (apply Z.pow_pos_nonneg; lia)).
  unfold wrap. rewrite Z.shiftr_div_pow2 by lia. lia.
Qed.

Lemma be_word_bytes_id w v : in_range (8 * Z.of_nat w) v -> be_word (be_bytes w v) = v.
Proof. intros Hv. rewrite be_word_bytes. apply Z.mod_small. exact Hv. Qed.

Lemma ld16_at m a l off v : view m a l -> take 2 (drop off l) = be_bytes 2 v -> in_range 16 v -> ld16 m (a + Z.of_nat off) = Ok v.
Proof.
  intros V E Hv. unfold ld16. pose proof (be_bytes_ok 2 v) as [_ Hl]. assert (off + 2 <= length l)%nat by (rewrite <- E, length_take, length_drop in Hl; lia).
  rewrite (view_load_at m a l off 2) by done. cbn [mbind res_bind]. by rewrite E, be_word_bytes_id.
Qed.

Lemma ld32_at m a l off v : view m a l -> take 4 (drop off l) = be_bytes 4 v -> in_range 32 v -> ld32 m (a + Z.of_nat off) = Ok v.
Proof.
  intros V E Hv. unfold ld32. pose proof (be_bytes_ok 4 v) as [_ Hl]. assert (off + 4 <= length l)%nat by (rewrite <- E, length_take, length_drop in Hl; lia).
  rewrite (view_load_at m a l off 4) by done. cbn [mbind res_bind]. by rewrite E, be_word_bytes_id.
Qed.

(** The fields of an IP header that was built. *)
Record ip_fields m (ip len proto dst src : Z) : Prop := {
  if_hdrlen : ip_hdrlen m ip = Ok 20;
  if_len : ip_total_length m ip = Ok (20 + len);
  if_proto : ip_protocol m ip = Ok proto;
  if_src : ip_src m ip = Ok src;
  if_dst : ip_dst m ip = Ok dst;
  if_sum : ip_calc_checksum m ip = Ok 0 }.

Lemma ip_hdr_fields m ip len proto dst src : view m ip (ip_hdr len proto dst src) -> 0 <= len < 65516 -> in_range 8 proto -> in_range 32 dst -> in_range 32 src ->
  ip_fields m ip len proto dst src.
Proof.
  intros V Hl Hp Hd Hs. destruct (ip_hdr_sum len proto dst src) as (Hb & Hn & Hc). split.
  - by rewrite (ip_hdrlen_view m ip _ _ V).
  - apply (ld16_at m ip _ 2 _ V); [reflexivity | unfold in_range; lia].
  - unfold ip_protocol, ld8. change (ip + 9) with (ip + Z.of_nat 9). rewrite (view_loadb m ip _ 9 (u8 proto) V) by reflexivity. by rewrite wrap_small.
  - by apply (ld32_at m ip _ 12 _ V).
  - by apply (ld32_at m ip _ 16 _ V).
  - unfold ip_calc_checksum. rewrite (ip_hdrlen_view m ip _ _ V). cbn [mbind res_bind]. change (bf_get 0 4 69 * 4) with (Z.of_nat 20). rewrite <- Hn.
    rewrite inet_checksum_ok; [by rewrite Z.add_0_r, Hc | rewrite Hn; lia | simpl; lia | done | apply Forall_nil_2 | done].
Qed.

(** ** UDP *)

Lemma pseudo_ok isrc idst proto len : bytes_ok (pseudo_hdr isrc idst proto len) /\ length (pseudo_hdr isrc idst proto len) = 12%nat.
Proof. unfold pseudo_hdr. rewrite !bytes_ok_app. split; [split_and!; apply be_bytes_ok | done]. Qed.

Lemma udp_hdr0_ok src dst len : bytes_ok (udp_hdr0 src dst len) /\ length (udp_hdr0 src dst len) = 6%nat.
Proof. unfold udp_hdr0. rewrite !bytes_ok_app. split; [split_and!; apply be_bytes_ok | done]. Qed.

Lemma zeros_ok : bytes_ok [0; 0].
Proof. unfold bytes_ok. rewrite !Forall_cons. split_and!; [unfold in_range; lia.. | apply Forall_nil_2]. Qed.

Lemma udp_calc m udp l len isrc idst : view m udp l -> bytes_ok l -> take 2 (drop 4 l) = be_bytes 2 (8 + len) -> Z.of_nat (length l) = 8 + len -> 0 <= len <= 1500 ->
  udp_calc_checksum m udp isrc idst Proto_udp = Ok (checksum_of (wsum l + wsum (pseudo_hdr isrc idst Proto_udp (8 + len)))).
Proof.
  intros V Hb E Hl Hn. unfold udp_calc_checksum, udp_length. change (udp + 4) with (udp + Z.of_nat 4). rewrite (ld16_at m udp l 4 (8 + len) V E) by (unfold in_range; lia). cbn [mbind res_bind].
  destruct (pseudo_ok isrc idst Proto_udp (8 + len)) as [Hp Hpl]. rewrite <- Hl at 1. rewrite inet_checksum_ok; [done | lia | rewrite Hpl; lia | done | done | done].
Qed.

Lemma build_udp_ok n m ip udp h data isrc idst src dst iplen :
  view m udp (h ++ data) -> length h = 8%nat -> bytes_ok h -> bytes_ok data -> (length data <= 1500)%nat ->
  view m ip (ip_hdr iplen Proto_udp idst isrc) -> udp = ip + 20 -> 0 <= iplen < 65516 -> in_range 32 isrc -> in_range 32 idst ->
  exists m', build_udp ip udp src dst (Z.of_nat (length data)) (set_mem n m) = Ok (tt, set_mem n m') /\
    view m' udp (udp_pkt isrc idst src dst data) /\ wrote m udp 8 m'.
Proof.
  intros V Hl Hb Hd Hn Vi -> Hip Hs Ht. apply view_app in V as [V Vd]. rewrite Hl in Vd. pose proof (wrote_refl m (ip + 20) 8) as W. explode h Hl.
  set (len := Z.of_nat (length data)). unfold build_udp.
  put V W 0%nat [hi src; lo src]; [fld V |]. put V W 2%nat [hi dst; lo dst]; [fld V |]. put V W 4%nat [hi (8 + len); lo (8 + len)]; [fld V |]. put V W 6%nat [0; 0]; [fld V |].
  assert (Vi' : view m3 ip (ip_hdr iplen Proto_udp idst isrc)) by (apply (view_wrote m m3 _ _ _ _ Vi W); simpl; lia).
  assert (Fi : ip_fields m3 ip iplen Proto_udp idst isrc) by (apply ip_hdr_fields; done || (unfold in_range, Proto_udp; lia)). destruct Fi as [_ _ Fp Fs Fd _].
  rewrite (rd_view _ _ n m3 _ Fs), (rd_view _ _ n m3 _ Fd), (rd_view _ _ n m3 _ Fp).
  assert (Vd' : view m3 (ip + 20 + 8) data) by (apply (view_wrote m m3 _ _ _ _ Vd W); lia).
  set (l0 := udp_hdr0 src dst len ++ [0; 0] ++ data). assert (V0 : view m3 (ip + 20) l0).
  { unfold l0. rewrite app_assoc, view_app. split; [exact V | exact Vd']. }
  assert (Hb0 : bytes_ok l0) by (unfold l0; rewrite !bytes_ok_app; split_and!; [apply udp_hdr0_ok | apply zeros_ok | done]).
  assert (E : udp_calc_checksum m3 (ip + 20) isrc idst Proto_udp = Ok (udp_sum isrc idst src dst data)).
  { rewrite (udp_calc m3 (ip + 20) l0 len isrc idst V0 Hb0); [done | reflexivity | simpl; lia | lia]. }
  rewrite (rd_view _ _ n m3 _ E). destruct (store_view m3 (ip + 20) l0 6 (be_bytes 2 (udp_sum isrc idst src dst data)) V0) as (m' & Es & V' & W'); [simpl; lia |].
  exists m'. split_and!; [rewrite <- (set_mem_mem n m3 m'); apply wr_step; exact Es | exact V' |]. apply (wrote_trans _ _ _ _ _ W). eapply wrote_mono; [exact W' | lia | simpl; lia].
Qed.

(** The checksum of a datagram that was built is right. *)
Lemma udp_pkt_sum isrc idst src dst data : bytes_ok data -> (length data <= 1500)%nat ->
  bytes_ok (udp_pkt isrc idst src dst data) /\
  checksum_of (wsum (udp_pkt isrc idst src dst data) + wsum (pseudo_hdr isrc idst Proto_udp (8 + Z.of_nat (length data)))) = 0.
Proof.
  intros Hd Hn. set (len := Z.of_nat (length data)). set (l0 := udp_hdr0 src dst len ++ [0; 0] ++ data).
  assert (Hb0 : bytes_ok l0) by (unfold l0; rewrite !bytes_ok_app; split_and!; [apply udp_hdr0_ok | apply zeros_ok | done]).
  destruct (pseudo_ok isrc idst Proto_udp (8 + len)) as [Hp _]. pose proof (wsum_range _ Hb0). pose proof (wsum_range _ Hp).
  split; [unfold udp_pkt; rewrite !bytes_ok_app; split_and!; [apply udp_hdr0_ok | apply be_bytes_ok | done] |].
  change (udp_pkt isrc idst src dst data) with (splice 6 (be_bytes 2 (udp_sum isrc idst src dst data)) l0).
  rewrite wsum_field; [| by exists 3%nat | simpl; lia | reflexivity | apply checksum_range; fold len; fold l0; lia].
  unfold udp_sum. fold len. fold l0. set (p := wsum (pseudo_hdr isrc idst Proto_udp (8 + len))) in *.
  replace (wsum l0 + checksum_of (wsum l0 + p) + p) with (wsum l0 + p + checksum_of (wsum l0 + p)) by lia. apply checksum_valid. lia.
Qed.

(** ** Ethernet *)

Lemma build_eth_ok n m eth h src dst etype : view m eth h -> length h = 14%nat -> length src = 6%nat -> length dst = 6%nat ->
  exists m', build_eth eth src dst etype (set_mem n m) = Ok (tt, set_mem n m') /\ view m' eth (eth_hdr src dst etype) /\ wrote m eth 14 m'.
Proof.
  intros V Hl Hs Hd. pose proof (wrote_refl m eth 14) as W. explode h Hl. explode src Hs. explode dst Hd. unfold build_eth.
  put V W 6%nat [x13; x14; x15; x16; x17; x18]; [fld V |]. put V W 0%nat [x19; x20; x21; x22; x23; x24]; [fld V |].
  destruct (store_view _ eth _ 12 (be_bytes 2 etype) V) as (m' & Es & V' & W'); [simpl; lia |].
  exists m'. split_and!; [rewrite <- (set_mem_mem n m1 m'); apply wr_step; exact Es | exact V' |]. apply (wrote_trans _ _ _ _ _ W). eapply wrote_mono; [exact W' | lia | simpl; lia].
Qed.

Definition udp_frame (smac dmac : mac_t) (sip dip sp dp : Z) (data : list Z) : list Z :=
  eth_hdr smac dmac Etype_ip ++ ip_hdr (8 + Z.of_nat (length data)) Proto_udp dip sip ++ udp_pkt sip dip sp dp data.

Lemma udp_pkt_len isrc idst src dst data : length (udp_pkt isrc idst src dst data) = (8 + length data)%nat.
Proof. reflexivity. Qed.

Lemma ip_hdr_len len proto dst src : length (ip_hdr len proto dst src) = 20%nat.
Proof. reflexivity. Qed.

Lemma eth_hdr_len smac dmac ty : length smac = 6%nat -> length dmac = 6%nat -> length (eth_hdr smac dmac ty) = 14%nat.
Proof. intros H1 H2. unfold eth_hdr. rewrite !length_app, H1, H2. done. Qed.

Lemma udp_frame_len smac dmac sip dip sp dp data : length smac = 6%nat -> length dmac = 6%nat ->
  length (udp_frame smac dmac sip dip sp dp data) = (42 + length data)%nat.
Proof. intros H1 H2. unfold udp_frame. rewrite !length_app, eth_hdr_len, ip_hdr_len, udp_pkt_len by done. lia. Qed.

(** The bytes of a string item are the whole buffer if it is short enough. *)
Lemma item_len a len : 0 <= len < 2 ^ 22 -> sitem_length (sitem_simple 0 a len false).1 = len.
Proof. intros Hl. unfold sitem_length, sitem_simple. cbn [fst]. bf_simpl. by apply Z.mod_small. Qed.

(** ** Sending a datagram *)

Section Udp.
Context `{!NetEnv}.

Lemma get_udp_ok n it u : find_it it (busy (udp_sockets n)) = Some u -> get_udp it n = Ok (u, n).
Proof. intros E. unfold get_udp, get, lift, deref, mbind, N_bind. by rewrite E. Qed.

Lemma find_update {T} (l : list (Z * T)) it u w : find_it it l = Some u -> find_it it (update_it it w l) = Some w.
Proof.
  induction l as [|[b v] t IH]; simpl; [done |]. destruct (Z.eqb_spec b it) as [->|Hb]; simpl; [by rewrite Z.eqb_refl |]. by rewrite (proj2 (Z.eqb_neq _ _) Hb).
Qed.

Lemma bind_if_need_udp n it u iaddr so port : find_it it (busy (udp_sockets n)) = Some u -> auto_bind (u_sock u) iaddr (udp_port n) = (true, so, port) ->
  bind_if_need (RUdp it) iaddr n = Ok (true, set_udp_port (set_udp n (store (udp_sockets n) it (u_with u so))) port).
Proof.
  intros E Eb. unfold bind_if_need, get_sock, put_sock, put_udp, get_udp, get, upd, lift, deref, mret, N_ret, mbind, N_bind. rewrite E. simpl. rewrite Eb. rewrite E. done.
Qed.

Lemma arp_find_ok n ip r : arp_lookup (arp_cache n) ip = Some r -> now n <= a_timeout r -> arp_find ip n = Ok (a_mac r, n).
Proof. intros E Ht. unfold arp_find, get, mret, N_ret, mbind, N_bind. rewrite E. by rewrite (proj2 (Z.ltb_ge _ _)) by lia. Qed.

Lemma send_all_ok n buf l : view (n_mem n) buf l -> Z.of_nat (length l) < 2 ^ 22 -> drv l = (0, 0, Z.of_nat (length l)) ->
  send_all buf (Z.of_nat (length l)) n = Ok (Z.of_nat (length l), add_event n (EvTx l)).
Proof.
  intros V Hl Hd. unfold send_all, send_to_eth_drv. erewrite bind_step; [| erewrite bind_step; [| apply rd_step; rewrite item_len by lia; rewrite Nat2Z.id; apply view_load; exact V];
    erewrite bind_step; [| reflexivity]; rewrite Hd; reflexivity]. cbn [fst snd]. unfold nassert, lift, mbind, N_bind. simpl. by rewrite Z.eqb_refl.
Qed.

Lemma reply_ok n cli ecode words bf x : thrid_is_nil cli = false -> client_ipc cli ecode words bf = (0, x) ->
  reply_to_client cli ecode words bf n = Ok (match bf with Some l => Z.of_nat (length l) | None => 0 end, add_event n (EvReply cli ecode words bf)).
Proof. intros Hn Hc. unfold reply_to_client, nassert, lift, upd, mbind, N_bind. rewrite Hn. simpl. rewrite Hc. done. Qed.

Lemma headers_ok n ptr frame hdrs : 0 <= hdrs -> 0 <= frame -> ptr < 2 ^ 32 -> frame + hdrs <= ptr <= frame + Frame_sz -> headers_at ptr frame hdrs n = Ok (ptr - hdrs, n).
Proof.
  intros Hh Hf Hp Hb. unfold headers_at, nassert, lift, mret, N_ret, mbind, N_bind, Frame_sz in *. rewrite !wrap_small by (unfold in_range; lia).
  rewrite (proj2 (Z.leb_le _ _)), (proj2 (Z.leb_le hdrs _)) by lia. done.
Qed.

(** What a send request finds: the socket, the interface, the hardware address
    of the destination, the data in the buffer behind the space for headers. *)
Record can_send n (it : Z) (u : usock) (so : sock) (port : Z) (i : ipif) (r : arp_rec) (saddr : sockaddr) (frame : Z) (data : list Z) : Prop := {
  cs_sock : find_it it (busy (udp_sockets n)) = Some u;
  cs_idle : so_net_state (u_sock u) = Udp_net_idle;
  cs_fam : sin_family saddr = AF_INET;
  cs_if : List.find (fun i => Z.land (if_addr i) (if_mask i) =? Z.land (sin_addr saddr) (if_mask i)) (ip_ifaces n) = Some i;
  cs_bind : auto_bind (u_sock u) (if_addr i) (udp_port n) = (true, so, port);
  cs_arp : arp_lookup (arp_cache n) (sin_addr saddr) = Some r;
  cs_tmo : now n <= a_timeout r;
  cs_mac : length (a_mac r) = 6%nat /\ mac_is_nil (a_mac r) = false;
  cs_ifmac : length (if_mac i) = 6%nat;
  cs_range : in_range 32 (sin_addr saddr) /\ in_range 32 (if_addr i);
  cs_frame : 0 <= frame /\ frame + Frame_sz < 2 ^ 32;
  cs_buf : exists h, view (n_mem n) (frame + 32) (h ++ data) /\ length h = 42%nat /\ bytes_ok h;
  cs_data : bytes_ok data /\ (length data <= 1444)%nat }.

(** The parts of the space for the headers. *)
Lemma hdr_split h data m a : view m a (h ++ data) -> length h = 42%nat -> bytes_ok h ->
  exists h1 h2 h3, h = h1 ++ h2 ++ h3 /\ length h1 = 14%nat /\ length h2 = 20%nat /\ length h3 = 8%nat /\ bytes_ok h2 /\ bytes_ok h3 /\
    view m a h1 /\ view m (a + 14) h2 /\ view m (a + 14 + 20) (h3 ++ data).
Proof.
  intros V Hl Hb. exists (take 14 h), (take 20 (drop 14 h)), (drop 34 h). assert (E : h = take 14 h ++ take 20 (drop 14 h) ++ drop 34 h) by (change 34%nat with (14 + 20)%nat; by rewrite <- drop_drop, !take_drop).
  assert (L1 : length (take 14 h) = 14%nat) by (rewrite length_take; lia). assert (L2 : length (take 20 (drop 14 h)) = 20%nat) by (rewrite length_take, length_drop; lia).
  assert (L3 : length (drop 34 h) = 8%nat) by (rewrite length_drop; lia). rewrite E in V. rewrite <- !app_assoc, !view_app, L1, L2 in V. destruct V as (V1 & V2 & V3).
  split_and!; [done | done | done | done | by apply Forall_take, Forall_drop | by apply Forall_drop | done | done |]. by rewrite view_app.
Qed.

Lemma sendto_udp_ok n it u so port i r saddr frame data cli x : can_send n it u so port i r saddr frame data ->
  let f := udp_frame (if_mac i) (a_mac r) (if_addr i) (sin_addr saddr) (saddr_port so) (sin_port saddr) data in
  let len := Z.of_nat (length data) in
  drv f = (0, 0, Z.of_nat (length f)) -> thrid_is_nil cli = false -> client_ipc cli 0 [len] None = (0, x) ->
  exists m, let n' := set_udp_port (set_udp n (store (udp_sockets n) it (u_with u so))) port in
    process_cli_sendto_udp it saddr (frame + hdrs_reserve) len cli frame n =
      Ok (1, add_event (add_event (set_mem n' m) (EvTx f)) (EvReply cli 0 [len] None)) /\
    wrote (n_mem n) (frame + 32) 42 m.
Proof.
  intros C f len Hdrv Hnil Hcli. destruct C as [Es Ei Ef Eif Eb Ea Ht [Hm1 Hm2] Hm3 [Hr1 Hr2] [Hf1 Hf2] (h & V & Hh & Hbh) [Hbd Hn]].
  set (n1 := set_udp_port (set_udp n (store (udp_sockets n) it (u_with u so))) port).
  assert (Eu1 : find_it it (busy (udp_sockets n1)) = Some (u_with u so)) by (simpl; by apply (find_update _ _ u)).
  unfold process_cli_sendto_udp. rewrite (bind_step _ _ _ _ _ (get_udp_ok n it u Es)). rewrite Ei, Ef. cbn [negb Z.eqb Udp_net_idle AF_INET Pos.eqb].
  unfold ip_find_masked. erewrite bind_step; [| unfold get, mret, N_ret, mbind, N_bind; rewrite Eif; reflexivity]. cbv beta iota.
  rewrite (bind_step _ _ _ _ _ (bind_if_need_udp n it u (if_addr i) so port Es Eb)). fold n1. cbn [negb].
  rewrite (bind_step _ _ _ _ _ (arp_find_ok n1 (sin_addr saddr) r Ea Ht)). rewrite (bind_step _ _ n1 (frame + 32) n1); [| replace (frame + 32) with (frame + 74 - 42) by lia; apply (headers_ok n1 (frame + 74) frame 42); unfold Frame_sz in *; lia].
  destruct (hdr_split h data (n_mem n) (frame + 32) V Hh Hbh) as (h1 & h2 & h3 & _ & L1 & L2 & L3 & B2 & B3 & V1 & V2 & V3).
  destruct (build_eth_ok n1 (n_mem n1) (frame + 32) h1 (if_mac i) (a_mac r) Etype_ip V1 L1 Hm3 Hm1) as (m1 & E1 & W1 & O1). rewrite set_mem_id in E1.
  rewrite (bind_step _ _ _ _ _ E1). change (eth_payload (frame + 32)) with (frame + 32 + 14).
  assert (V2' : view m1 (frame + 32 + 14) h2) by (apply (view_wrote (n_mem n1) m1 _ _ _ _ V2 O1); lia).
  destruct (build_ip_ok n1 m1 (frame + 32 + 14) h2 (8 + len) Proto_udp (sin_addr saddr) (if_addr i) V2' L2 B2) as (m2 & E2 & W2 & O2). change (Udp_hdrlen + len) with (8 + len). rewrite (bind_step _ _ _ _ _ E2).
  unfold ip_payload. rewrite (rd_view _ _ n1 m2 (frame + 32 + 14 + 20)); [| by rewrite (ip_hdrlen_view m2 (frame + 32 + 14) _ _ W2)].
  rewrite (bind_step _ _ (set_mem n1 m2) so (set_mem n1 m2)); [| unfold get_sock; rewrite (bind_step _ _ _ _ _ (get_udp_ok (set_mem n1 m2) it (u_with u so) Eu1)); reflexivity].
  assert (V3' : view m2 (frame + 32 + 14 + 20) (h3 ++ data)).
  { eapply (view_wrote m1 m2); [apply (view_wrote (n_mem n1) m1 _ _ _ _ V3 O1); lia | exact O2 | lia]. }
  destruct (build_udp_ok n1 m2 (frame + 32 + 14) (frame + 32 + 14 + 20) h3 data (if_addr i) (sin_addr saddr) (saddr_port so) (sin_port saddr) (8 + len)) as (m3 & E3 & W3 & O3);
    [done | done | done | done | lia | done | lia | lia | done | done |]. rewrite (bind_step _ _ _ _ _ E3).
  assert (Ep : udp_payload (frame + 32 + 14 + 20) =? frame + hdrs_reserve = true) by (apply Z.eqb_eq; change hdrs_reserve with 74; unfold udp_payload, Udp_hdrlen; lia).
  rewrite Ep. rewrite (bind_step _ _ (set_mem n1 m3) tt (set_mem n1 m3)) by reflexivity.
  rewrite Hm2. assert (Vf : view m3 (frame + 32) f).
  { unfold f, udp_frame. rewrite !view_app, eth_hdr_len, ip_hdr_len by done. split_and!; [| | exact W3].
    - eapply (view_wrote m2 m3); [apply (view_wrote m1 m2 _ _ _ _ W1 O2); rewrite eth_hdr_len by done; lia | exact O3 | rewrite eth_hdr_len by done; lia].
    - apply (view_wrote m2 m3 _ _ _ _ W2 O3). rewrite ip_hdr_len. lia. }
  assert (Lf : Z.of_nat (length f) = 42 + len) by (unfold f; rewrite udp_frame_len by done; lia). change (Eth_hdrlen + Ip_typically_hdr_len + Udp_hdrlen + len) with (42 + len). rewrite <- Lf.
  rewrite (bind_step _ _ _ _ _ (send_all_ok (set_mem n1 m3) (frame + 32) f Vf ltac:(lia) Hdrv)). set (n2 := add_event (set_mem n1 m3) (EvTx f)).
  assert (Vi : view m3 (frame + 32 + 14) (ip_hdr (8 + len) Proto_udp (sin_addr saddr) (if_addr i))) by (apply (view_wrote m2 m3 _ _ _ _ W2 O3); rewrite ip_hdr_len; lia).
  rewrite (bind_step _ _ n2 20 n2); [| apply rd_step; change (n_mem n2) with m3; by rewrite (ip_hdrlen_view m3 _ _ _ Vi)].
  replace (u32 (Z.of_nat (length f) - Eth_hdrlen - 20 - Udp_hdrlen)) with len by (rewrite Lf; unfold Eth_hdrlen, Udp_hdrlen; rewrite wrap_small by (unfold in_range; lia); lia).
  rewrite (bind_step _ _ _ _ _ (reply_ok n2 cli 0 [len] None x Hnil Hcli)). exists m3. split; [reflexivity |].
  apply (wrote_trans _ m1); [eapply wrote_mono; [exact O1 | lia | lia] |]. apply (wrote_trans _ m2); [eapply wrote_mono; [exact O2 | lia | lia] | eapply wrote_mono; [exact O3 | lia | lia]].
Qed.
(** ** Receiving a datagram *)

Definition arp_learn n (ip : Z) (mac : mac_t) : net := match arp_add ip mac n with Ok (_, n') => n' | Stop _ => n end.

(** A frame with an IP header that was built reaches the handler of its protocol. *)
Lemma recv_ip n eth smac dmac len proto sip dip rest i :
  view (n_mem n) eth (eth_hdr smac dmac Etype_ip ++ ip_hdr len proto dip sip ++ rest) -> Z.of_nat (length rest) = len ->
  length smac = 6%nat -> length dmac = 6%nat -> existsb (fun x : mac_t => mac_eqb x dmac) (eth_ifaces n) = true ->
  List.find (fun i => if_addr i =? dip) (ip_ifaces n) = Some i -> 0 <= len < 65516 -> in_range 8 proto -> in_range 32 dip -> in_range 32 sip ->
  process_eth_frame eth (34 + len) n =
    (if proto =? Proto_icmp then process_icmp_packet eth (eth + 14) (eth + 14 + 20) len
     else if proto =? Proto_tcp then process_tcp_packet i eth (eth + 14) (eth + 14 + 20) len
     else if proto =? Proto_udp then process_udp_packet i eth (eth + 14) (eth + 14 + 20) len
     else _ ← send_icmp_dest_unreach i eth (eth + 14) (20 + len) Code_dst_proto_unreach; mret 1) (arp_learn n sip smac).
Proof.
  intros V Hr Hs Hd He Hi Hl Hp Hdip Hsip. rewrite !view_app, eth_hdr_len, ip_hdr_len in V by done. destruct V as (Ve & Vi & Vr). change (Z.of_nat 14) with 14 in *. change (Z.of_nat 20) with 20 in *.
  pose proof (ip_hdr_fields _ _ _ _ _ _ Vi Hl Hp Hdip Hsip) as [Fh Fl Fp Fs Fd Fc].
  assert (Edst : eth_dst (n_mem n) eth = Ok dmac).
  { unfold eth_dst, ldmac. rewrite <- Hd. unfold eth_hdr in Ve. apply view_app in Ve as [Ve _]. by apply view_load. }
  assert (Esrc : eth_src (n_mem n) eth = Ok smac).
  { unfold eth_src, ldmac. unfold eth_hdr in Ve. rewrite !view_app, Hd in Ve. destruct Ve as (_ & Ve & _). change (Z.of_nat 6) with 6 in Ve. rewrite <- Hs. by apply view_load. }
  assert (Ety : eth_etype (n_mem n) eth = Ok Etype_ip).
  { unfold eth_etype. change (eth + 12) with (eth + Z.of_nat 12). apply (ld16_at _ eth _ 12 _ Ve); [| unfold in_range, Etype_ip; lia]. unfold eth_hdr. by explode smac Hs; explode dmac Hd. }
  unfold process_eth_frame. rewrite (proj2 (Z.ltb_ge _ _)) by (unfold Eth_hdrlen; lia). rewrite (bind_step _ _ _ _ _ (rd_step _ _ _ Edst)).
  unfold eth_find. erewrite bind_step; [| unfold get, mret, N_ret, mbind, N_bind; rewrite He; reflexivity]. cbn [negb andb]. rewrite (bind_step _ _ _ _ _ (rd_step _ _ _ Ety)).
  change (Etype_ip =? Etype_ip) with true. cbv iota. change (eth_payload eth) with (eth + 14). replace (34 + len - Eth_hdrlen) with (20 + len) by (unfold Eth_hdrlen; lia).
  unfold process_ip_packet. rewrite (proj2 (Z.ltb_ge _ _)) by (unfold Ip_length_min; lia). rewrite (bind_step _ _ _ _ _ (rd_step _ _ _ Fl)). rewrite Z.ltb_irrefl.
  rewrite (bind_step _ _ _ _ _ (rd_step _ _ _ Fd)). unfold ip_find. erewrite bind_step; [| unfold get, mret, N_ret, mbind, N_bind; rewrite Hi; reflexivity]. cbv beta iota.
  rewrite (bind_step _ _ _ _ _ (rd_step _ _ _ Fs)), (bind_step _ _ _ _ _ (rd_step _ _ _ Esrc)).
  assert (Em : n_mem (arp_learn n sip smac) = n_mem n) by (unfold arp_learn, arp_add, upd; by destruct (arp_lookup _ _)).
  rewrite (bind_step _ _ n tt (arp_learn n sip smac)); [| done]. rewrite (bind_step _ _ _ 0 (arp_learn n sip smac)); [| apply rd_step; by rewrite Em]. cbn [negb Z.eqb].
  rewrite (bind_step _ _ _ proto (arp_learn n sip smac)); [| apply rd_step; by rewrite Em]. rewrite (bind_step _ _ _ 20 (arp_learn n sip smac)); [| apply rd_step; by rewrite Em].
  replace (u32 (20 + len - 20)) with len by (rewrite wrap_small by (unfold in_range; lia); lia). done.
Qed.
(** The source address a receiver is told. *)
Definition from_addr (sip sp : Z) : sockaddr := MkSa AF_INET sp sip [junk0; junk1].
Definition waits (u : usock) : bool := (so_cli_state (u_sock u) =? Udp_cli_recv) || negb (thrid_is_nil (so_recv_client (u_sock u))).
Definition woken (so : sock) : sock := with_recv_client (if so_cli_state so =? Udp_cli_recv then with_cli_state so Udp_cli_idle else so) Thrid_nil.

Lemma recv_udp_ok n i eth ip sip dip sp dp data it u :
  view (n_mem n) ip (ip_hdr (8 + Z.of_nat (length data)) Proto_udp dip sip ++ udp_pkt sip dip sp dp data) -> bytes_ok data -> (length data <= 1444)%nat ->
  in_range 32 dip -> in_range 32 sip -> in_range 16 sp -> in_range 16 dp ->
  udp_find (udp_sockets n) dip dp = it -> it <> 0 -> find_it it (busy (udp_sockets n)) = Some u ->
  (waits u = true -> forall x, thrid_is_nil (so_recv_client (u_sock u)) = false -> client_ipc (so_recv_client (u_sock u)) 0 (sa_words (from_addr sip sp)) (Some data) = (0, x) ->
     process_udp_packet i eth ip (ip + 20) (8 + Z.of_nat (length data)) n =
       Ok (1, add_event (set_udp n (store (udp_sockets n) it (u_with u (woken (u_sock u))))) (EvReply (so_recv_client (u_sock u)) 0 (sa_words (from_addr sip sp)) (Some data)))) /\
  (waits u = false -> (length (u_pkts u) < Pkts_max)%nat -> (length data <= 256)%nat ->
     process_udp_packet i eth ip (ip + 20) (8 + Z.of_nat (length data)) n =
       Ok (1, set_udp n (store (udp_sockets n) it (MkU (u_sock u) (u_pkts u ++ [MkPkt (from_addr sip sp) data]))))).
Proof.
  intros V Hb Hn Hdip Hsip Hsp Hdp Ef Hit Eu. rewrite view_app, ip_hdr_len in V. destruct V as [Vi Vu]. change (Z.of_nat 20) with 20 in Vu. set (len := Z.of_nat (length data)) in *.
  pose proof (ip_hdr_fields _ _ _ _ _ _ Vi ltac:(lia) ltac:(unfold in_range, Proto_udp; lia) Hdip Hsip) as [_ _ Fp Fs Fd _].
  destruct (udp_pkt_sum sip dip sp dp data Hb ltac:(lia)) as [Hub Hus]. set (m := n_mem n) in *.
  assert (El : udp_length m (ip + 20) = Ok (8 + len)) by (apply (ld16_at _ (ip + 20) _ 4 _ Vu); [reflexivity | unfold in_range; lia]).
  assert (Ec : udp_calc_checksum m (ip + 20) sip dip Proto_udp = Ok 0) by (rewrite (udp_calc m (ip + 20) _ len sip dip Vu Hub); [by unfold len; rewrite Hus | reflexivity | rewrite udp_pkt_len; lia | lia]).
  assert (Edp : udp_dst m (ip + 20) = Ok dp) by (by apply (ld16_at _ (ip + 20) _ 2 _ Vu)).
  assert (Esp : udp_src m (ip + 20) = Ok sp) by (unfold udp_src; rewrite <- (Z.add_0_r (ip + 20)); by apply (ld16_at _ (ip + 20) _ 0 _ Vu)).
  assert (Epl : udp_payload_len m (ip + 20) = Ok len) by (unfold udp_payload_len; rewrite El; cbn [mbind res_bind]; unfold Udp_hdrlen; rewrite wrap_small by (unfold in_range; lia); f_equal; lia).
  assert (Vd : view m (udp_payload (ip + 20)) data) by (unfold udp_pkt in Vu; rewrite app_assoc, view_app in Vu; by destruct Vu).
  assert (Hpre : process_udp_packet i eth ip (ip + 20) (8 + len) n =
    (if waits u then
       _ ← mod_sock (RUdp it) woken; bytes ← item_bytes (udp_payload (ip + 20)) len; _ ← reply_to_client (so_recv_client (u_sock u)) 0 (sa_words (from_addr sip sp)) (Some bytes); mret 1
     else m ← get n_mem; r ← lift (save_received_packet u junk_sa (from_addr sip sp) (load_bytes m (udp_payload (ip + 20))) len); _ ← put_udp it r.2; mret 1) n).
  { unfold process_udp_packet. rewrite (proj2 (Z.ltb_ge _ _)) by (unfold Udp_length_min; lia). rewrite (bind_step _ _ _ _ _ (rd_step _ _ _ El)), Z.ltb_irrefl.
    rewrite (bind_step _ _ _ _ _ (rd_step _ _ _ Fs)), (bind_step _ _ _ _ _ (rd_step _ _ _ Fd)), (bind_step _ _ _ _ _ (rd_step _ _ _ Fp)), (bind_step _ _ _ _ _ (rd_step _ _ _ Ec)). cbn [negb Z.eqb].
    rewrite (bind_step _ _ _ _ _ (rd_step _ _ _ Edp)). rewrite (bind_step _ _ n (udp_sockets n) n) by done. rewrite Ef, (proj2 (Z.eqb_neq _ _) Hit). cbn [negb].
    rewrite (bind_step _ _ _ _ _ (rd_step _ _ _ Esp)), (bind_step _ _ _ _ _ (get_udp_ok n it u Eu)), (bind_step _ _ _ _ _ (rd_step _ _ _ Epl)). done. }
  rewrite Hpre. split; intros Hw; rewrite Hw.
  - intros x Hnil Hcli. set (n1 := set_udp n (store (udp_sockets n) it (u_with u (woken (u_sock u))))).
    rewrite (bind_step _ _ n tt n1). 2: { unfold mod_sock, get_sock, put_sock, put_udp, get_udp, get, upd, lift, deref, mret, N_ret, mbind, N_bind. rewrite Eu. simpl. rewrite Eu. done. }
    rewrite (bind_step _ _ n1 data n1). 2: { unfold item_bytes. apply rd_step. rewrite item_len by lia. unfold len. rewrite Nat2Z.id. by apply view_load. }
    rewrite (bind_step _ _ _ _ _ (reply_ok n1 _ 0 _ (Some data) x Hnil Hcli)). done.
  - intros Hp Hs. rewrite (bind_step _ _ n m n) by done. rewrite (bind_step _ _ n (0, MkU (u_sock u) (u_pkts u ++ [MkPkt (from_addr sip sp) data])) n); [done |].
    unfold save_received_packet, lift. rewrite (proj2 (Nat.eqb_neq _ _)) by lia. rewrite (proj2 (Z.ltb_ge _ _)) by (unfold Pkt_buf_sz, len; lia). unfold len. rewrite Nat2Z.id. by rewrite (view_load m data _ Vd).
Qed.
End Udp.

(** ** From one stack to another *)

(** The receiving stack: the interface of the destination, a buffer for the
    frame, and a socket bound to the port. *)
Record can_recv n (mac : mac_t) (dip dp : Z) (it : Z) (u : usock) (buf : Z) : Prop := {
  cr_eth : existsb (fun x : mac_t => mac_eqb x mac) (eth_ifaces n) = true;
  cr_ip : exists i, List.find (fun i => if_addr i =? dip) (ip_ifaces n) = Some i;
  cr_sock : udp_find (udp_sockets n) dip dp = it /\ it <> 0 /\ find_it it (busy (udp_sockets n)) = Some u;
  cr_buf : buf <> 0 /\ mapped (n_mem n) buf Frame_sz }.

Lemma store_fresh m a l : mapped m a (Z.of_nat (length l)) -> exists m', store_bytes m a l = Ok m' /\ view m' a l.
Proof.
  intros H. destruct (mapped_view m a (length l) H) as (l0 & V & Hl). destruct (store_view m a l0 0 l V) as (m' & E & V' & _); [lia |]. exists m'.
  rewrite Z.add_0_r in E. split; [done |]. unfold splice in V'. cbn [take app Nat.add] in V'. by rewrite drop_ge, app_nil_r in V' by lia.
Qed.

Lemma arp_learn_same n ip mac : udp_sockets (arp_learn n ip mac) = udp_sockets n /\ n_mem (arp_learn n ip mac) = n_mem n /\ events (arp_learn n ip mac) = events n.
Proof. unfold arp_learn, arp_add, upd. by destruct (arp_lookup _ _). Qed.

Lemma eth_round_udp (EB : NetEnv) n smac dmac sip dip sp dp data it u buf : can_recv n dmac dip dp it u buf ->
  length smac = 6%nat -> length dmac = 6%nat -> bytes_ok data -> (length data <= 1444)%nat -> in_range 32 dip -> in_range 32 sip -> in_range 16 sp -> in_range 16 dp ->
  exists n1 i, udp_sockets n1 = udp_sockets n /\ events n1 = events n /\
    view (n_mem n1) (buf + 14) (ip_hdr (8 + Z.of_nat (length data)) Proto_udp dip sip ++ udp_pkt sip dip sp dp data) /\
    eth_round buf 0 (udp_frame smac dmac sip dip sp dp data) n =
      (r ← process_udp_packet i buf (buf + 14) (buf + 14 + 20) (8 + Z.of_nat (length data)); mret (if r =? 0 then 0 else buf)) n1.
Proof.
  intros [He [i Hi] _ [Hb Hm]] Hs Hd Hdata Hn Hdip Hsip Hsp Hdp. set (f := udp_frame smac dmac sip dip sp dp data). assert (Lf : Z.of_nat (length f) = 34 + (8 + Z.of_nat (length data))) by (unfold f; rewrite udp_frame_len by done; lia).
  destruct (store_fresh (n_mem n) buf f) as (m & Em & V); [eapply mapped_le; [| exact Hm]; rewrite Lf; unfold Frame_sz; lia |]. set (n0 := set_mem n m).
  destruct (arp_learn_same n0 sip smac) as (A1 & A2 & A3). exists (arp_learn n0 sip smac), i. split_and!; [done | done | |].
  - rewrite A2. change (n_mem n0) with m. unfold f, udp_frame in V. rewrite view_app, eth_hdr_len in V by done. by destruct V.
  - unfold eth_round, thread_buf. rewrite (proj2 (Z.eqb_neq buf 0) Hb). cbn [negb]. rewrite (bind_step _ _ n buf n) by done. rewrite (bind_step _ _ n tt n) by (unfold nassert, lift; by rewrite (proj2 (Z.leb_le _ _)) by (rewrite Lf; unfold Frame_sz; lia)). rewrite (bind_step _ _ n tt n0) by (by apply wr_step). cbn [Z.eqb negb].
    rewrite Lf. unfold mbind at 1, N_bind at 1. rewrite (recv_ip n0 buf smac dmac (8 + Z.of_nat (length data)) Proto_udp sip dip (udp_pkt sip dip sp dp data) i); [| done || lia || (unfold in_range, Proto_udp; lia) || (rewrite udp_pkt_len; lia).. ].
    change (Proto_udp =? Proto_icmp) with false. change (Proto_udp =? Proto_tcp) with false. change (Proto_udp =? Proto_udp) with true. done.
Qed.

(** C31: a datagram arrives: if a client of one stack sends [data] from a socket
    to an address whose hardware address is known, the stack emits exactly one
    frame and tells the client the length; another stack that has this
    hardware and IP address and receives the frame accepts it (its checksums
    are right) and passes exactly [data], with the address and port of the
    sender, to the client that waits on the socket of the destination port, or
    appends them to the queue of this socket. *)
Theorem udp_delivered (EA EB : NetEnv) nA itA uA so port i r saddr frame data cli x nB itB uB buf :
  can_send nA itA uA so port i r saddr frame data -> in_range 16 (saddr_port so) -> in_range 16 (sin_port saddr) ->
  (forall f, @drv EA f = (0, 0, Z.of_nat (length f))) -> thrid_is_nil cli = false -> @client_ipc EA cli 0 [Z.of_nat (length data)] None = (0, x) ->
  can_recv nB (a_mac r) (sin_addr saddr) (sin_port saddr) itB uB buf ->
  exists f nA', @process_cli_sendto_udp EA itA saddr (frame + hdrs_reserve) (Z.of_nat (length data)) cli frame nA = Ok (1, nA') /\
    events nA' = events nA ++ [EvTx f; EvReply cli 0 [Z.of_nat (length data)] None] /\
    let src := @from_addr EB (if_addr i) (saddr_port so) in
    (waits uB = true -> thrid_is_nil (so_recv_client (u_sock uB)) = false ->
       (forall c e w b, (@client_ipc EB c e w b).1 = 0) ->
       exists nB', @eth_round EB buf 0 f nB = Ok (buf, nB') /\ events nB' = events nB ++ [EvReply (so_recv_client (u_sock uB)) 0 (sa_words src) (Some data)]) /\
    (waits uB = false -> (length (u_pkts uB) < Pkts_max)%nat -> (length data <= 256)%nat ->
       exists nB', @eth_round EB buf 0 f nB = Ok (buf, nB') /\ events nB' = events nB /\
         find_it itB (busy (udp_sockets nB')) = Some (MkU (u_sock uB) (u_pkts uB ++ [MkPkt src data]))).
Proof.
  intros C Hsp Hdp Hdrv Hnil Hcli R. destruct (@sendto_udp_ok EA nA itA uA so port i r saddr frame data cli x C (Hdrv _) Hnil Hcli) as (m & Es & _).
  set (f := udp_frame _ _ _ _ _ _ _) in Es. exists f. eexists. split; [exact Es |]. split; [simpl; by rewrite <- app_assoc |].
  destruct C as [_ _ _ _ _ _ _ [Hm1 _] Hm3 [Hr1 Hr2] _ _ [Hbd Hn]].
  destruct (eth_round_udp EB nB (if_mac i) (a_mac r) (if_addr i) (sin_addr saddr) (saddr_port so) (sin_port saddr) data itB uB buf R) as (n1 & iB & U1 & E1 & V1 & Er); [done.. |]. fold f in Er.
  destruct R as [_ _ (Ef & Hit & Eu) _]. rewrite <- U1 in Ef, Eu.
  destruct (@recv_udp_ok EB n1 iB buf (buf + 14) (if_addr i) (sin_addr saddr) (saddr_port so) (sin_port saddr) data itB uB V1 Hbd Hn Hr1 Hr2 Hsp Hdp Ef Hit Eu) as [Hwait Hqueue].
  intros src. split.
  - intros Hw Hc Hok. destruct (@client_ipc EB (so_recv_client (u_sock uB)) 0 (sa_words src) (Some data)) as [rc y] eqn:Ec. pose proof (Hok (so_recv_client (u_sock uB)) 0 (sa_words src) (Some data)) as H0. rewrite Ec in H0. simpl in H0. subst rc.
    specialize (Hwait Hw y Hc Ec). eexists. rewrite Er, (bind_step _ _ _ _ _ Hwait). split; [done |]. simpl. by rewrite E1.
  - intros Hw Hp Hl. specialize (Hqueue Hw Hp Hl). eexists. rewrite Er, (bind_step _ _ _ _ _ Hqueue). split_and!; [done | by simpl | simpl; by apply (find_update _ _ uB)].
Qed.

(** ** Two concrete stacks *)

Lemma load_view m l : forall a, load_bytes m a (length l) = Ok l -> view m a l.
Proof.
  induction l as [|b t IH]; intros a H; [apply view_nil |]. cbn [length load_bytes] in H. apply bind_Ok in H as (x & E & H). apply bind_Ok in H as (y & Et & H). simplify_eq.
  apply view_cons. split; [by unfold loadb in E; destruct (m !! a); simplify_eq/= | by apply IH].
Qed.

Definition ex_env : NetEnv :=
  {| drv := fun f => (0, 0, Z.of_nat (length f)); client_ipc := fun _ _ _ _ => (0, 0); app_threads := fun _ => (0, 16, 32);
     junk0 := 0; junk1 := 0; junk_sa := sa_make 0 0 |}.
Definition ex_zmem (a : Z) (k : nat) : mem := list_to_map ((fun i => (a + i, 0)) <$> seqZ 0 (Z.of_nat k)).
Definition ex_mac (k : Z) : mac_t := [2; 0; 0; 0; 0; k].
Definition ex_ip (k : Z) : Z := 0x0a000000 + k.
(** Station [k] with one frame buffer at 0x1000, which knows station [j]. *)
Definition ex_net (k j : Z) (us : list (Z * usock)) (m : mem) : net :=
  MkNet m [] [MkArp (ex_ip j) (ex_mac j) 600] [ex_mac k] [MkIpif (ex_ip k) 0xffffff00 (ex_mac k)] (MkA us []) (MkA [] []) (MkA [] []) 1 2000 2000 5 [].
Definition ex_data : list Z := [104; 101; 108; 108; 111].
Definition ex_mem_tx : mem := match store_bytes (ex_zmem 0x1000 1518) (0x1000 + 74) ex_data with Ok m => m | Stop _ => ∅ end.
(** An unbound socket; a socket bound to port 7 whose client waits. *)
Definition ex_free : usock := MkU (sock_ctor 1 16 32 0) [].
Definition ex_wait : usock := MkU (with_recv_client (with_cli_state (with_saddr (sock_ctor 1 16 32 0) (sa_make 7 0)) Udp_cli_recv) 0x48001) [].
Definition ex_dst : sockaddr := sa_make 7 (ex_ip 2).
Definition ex_netA : net := ex_net 1 2 [(0x100, ex_free)] ex_mem_tx.
Definition ex_netB : net := ex_net 2 1 [(0x100, ex_wait)] (ex_zmem 0x1000 1518).

Lemma ex_can_send : can_send ex_netA 0x100 ex_free (with_saddr (u_sock ex_free) (MkSa AF_INET 2000 (ex_ip 1) [0; 0])) 2001
  (MkIpif (ex_ip 1) 0xffffff00 (ex_mac 1)) (MkArp (ex_ip 2) (ex_mac 2) 600) ex_dst 0x1000 ex_data.
Proof.
  split; try reflexivity; try (split; reflexivity); try (vm_compute; intuition congruence).
  - exists (replicate 42 0). split_and!; [apply load_view; vm_compute; reflexivity | reflexivity | apply Forall_replicate; unfold in_range; lia].
  - split; [unfold bytes_ok, ex_data; rewrite !Forall_cons; split_and!; try apply Forall_nil_2; unfold in_range; lia | simpl; lia].
Qed.

Lemma ex_can_recv : can_recv ex_netB (ex_mac 2) (ex_ip 2) 7 0x100 ex_wait 0x1000.
Proof.
  split; [reflexivity | eexists; reflexivity | split_and!; [reflexivity | done | reflexivity] | split; [done |]].
  intros i Hi. exists 0. unfold ex_netB, ex_net, ex_zmem. cbn [n_mem]. apply elem_of_list_to_map_1; [| apply list_elem_of_fmap; exists i; split; [done | apply elem_of_seqZ; unfold Frame_sz in Hi; lia]].
  rewrite <- list_fmap_compose. assert (Inj (=) (=) (fun i => 0x1000 + i)) by (intros x y H; lia). apply (NoDup_fmap_2 (fun i => 0x1000 + i)), NoDup_seqZ.
Qed.

Lemma udp_delivered_witness : exists f nA' nB',
  @process_cli_sendto_udp ex_env 0x100 ex_dst (0x1000 + hdrs_reserve) 5 0x40001 0x1000 ex_netA = Ok (1, nA') /\
  events nA' = [EvTx f; EvReply 0x40001 0 [5] None] /\
  @eth_round ex_env 0x1000 0 f ex_netB = Ok (0x1000, nB') /\
  events nB' = [EvReply 0x48001 0 (sa_words (MkSa AF_INET 2000 (ex_ip 1) [0; 0])) (Some ex_data)].
Proof.
  destruct (udp_delivered ex_env ex_env _ _ _ _ _ _ _ _ _ _ 0x40001 0 _ _ _ _ ex_can_send ltac:(vm_compute; intuition congruence) ltac:(vm_compute; intuition congruence) ltac:(intros f; reflexivity)
    eq_refl eq_refl ex_can_recv) as (f & nA' & E1 & E2 & Hw & _).
  destruct (Hw eq_refl eq_refl ltac:(intros; reflexivity)) as (nB' & E3 & E4). exists f, nA', nB'. exact (conj E1 (conj E2 (conj E3 E4))).
Defined.
