(* ===== verification/TcpSpec.v ===== *)
(** The automaton of a TCP stream and the proof that the handler of segments
    ([process_tcp_to_socket]) implements it. *)

From Stdlib Require Import ZArith Lia Bool.
From stdpp Require Import base list numbers gmap.
From S2P Require Import Prelude SysUtils ListSpec L4Types CString Packets Sockets NetStack NetClient NetFrame.

Implicit Types (n : net) (s : stream) (p : Z).

(** ** The automaton *)

(** A segment: its flags and sequence number, the length behind the header
    and the bytes there, if they can be read. *)
Record segment := MkSeg { g_flags : Z; g_seq : Z; g_len : Z; g_data : res (list Z) }.
Definition g_syn (g : segment) : bool := has (g_flags g) Tcp_syn.
Definition g_ack (g : segment) : bool := has (g_flags g) Tcp_ack_flag.
Definition g_rst (g : segment) : bool := has (g_flags g) Tcp_rst.
Definition g_fin (g : segment) : bool := has (g_flags g) Tcp_fin.

(** A segment is taken by a new stream or if it is the next in sequence. *)
Definition in_sequence (g : segment) s : bool :=
  bool_decide (s_state s = Closed) || bool_decide (s_state s = Syn_sent) || (g_seq g =? seq_rx s).

Definition received (g : segment) s : stream := if g_syn g then with_rx s (g_seq g + 1) (g_seq g + 1) else add_rx s (g_len g).
Definition was_reset s : stream := with_state (add_rx (add_tx s 1) 1) Closed.

(** What a stream becomes in its state; [None]: the connection is over and the
    stream is removed. *)
Inductive state_step (g : segment) : stream -> option stream -> Prop :=
  | st_closed_syn s : s_state s = Closed -> g_syn g = true -> state_step g s (Some (with_state (add_tx s 1) Syn_received))
  | st_closed s : s_state s = Closed -> g_syn g = false -> state_step g s (Some s)
  | st_listen s : s_state s = Listen -> state_step g s (Some s)
  | st_syn_sent s : s_state s = Syn_sent -> g_ack g = true -> state_step g s (Some (add_tx (with_state s Established) 1))
  | st_syn_received s : s_state s = Syn_received -> g_ack g = true -> state_step g s (Some (with_state s Established))
  | st_data s data k : s_state s = Established -> g_fin g = false -> g_data g = Ok data -> s_wp s + g_len g <= Stream_buf_sz ->
      state_step g s (Some (with_buf s (drop k (s_buf s ++ data))))
  | st_fin s data k : s_state s = Established -> g_fin g = true -> g_data g = Ok data -> s_wp s + g_len g <= Stream_buf_sz ->
      state_step g s (Some (with_state (add_rx (with_buf s (drop k (s_buf s ++ data))) 1) Last_ack))
  | st_fin_wait1 s : s_state s = Fin_wait1 -> g_fin g && g_ack g = false -> state_step g s (Some s)
  | st_time_wait s : s_state s = Fin_wait1 -> g_fin g && g_ack g = true -> state_step g s None
  | st_last_ack s : s_state s = Last_ack -> g_ack g = true -> state_step g s (Some (with_state s Closed)).

Inductive seg_step (g : segment) : stream -> option stream -> Prop :=
  | seg_ignored s : in_sequence g s = false -> seg_step g s (Some s)
  | seg_taken s o : in_sequence g s = true -> state_step g (if g_rst g then was_reset (received g s) else received g s) o -> seg_step g s o.

(** ** Streams of a state *)

Definition str_at n p : option stream := find_it p (busy (allstreams n)).

(** Only the stream [p] changes: it becomes [o]. *)
Definition only p (o : option stream) n n' : Prop := str_at n' p = o /\ (forall q, q <> p -> str_at n' q = str_at n q).

Lemma only_trans p o o' n1 n2 n3 : only p o n1 n2 -> only p o' n2 n3 -> only p o' n1 n3.
Proof. intros [_ H1] [E H2]. split; [done |]. intros q Hq. by rewrite H2, H1. Qed.

Lemma only_same p o n n' : same_streams n n' -> str_at n p = o -> only p o n n'.
Proof. unfold same_streams, only, str_at. intros -> <-. done. Qed.

Lemma only_store p s s' n n' : str_at n p = Some s -> allstreams n' = store (allstreams n) p s' -> only p (Some s') n n'.
Proof. unfold only, str_at. intros E ->. split; [by apply (find_update_eq _ _ s) | intros q Hq; by apply find_update_ne]. Qed.

(** The same as a step of a handler. *)
Lemma only_mod p f s n x n' : mod_str p f n = Ok (x, n') -> str_at n p = Some s -> only p (Some (f s)) n n'.
Proof. intros (s0 & E & ->)%mod_str_Ok Es. unfold str_at in Es. rewrite E in Es. injection Es as ->. by apply (only_store p s). Qed.
Lemma only_put p s s' n x n' : put_str p s' n = Ok (x, n') -> str_at n p = Some s -> only p (Some s') n n'.
Proof. intros [= _ <-] Es. by apply (only_store p s). Qed.
Lemma only_via {A} (c : N A) p n x n' s : via same_streams c -> c n = Ok (x, n') -> str_at n p = Some s -> only p (Some s) n n'.
Proof. intros Hv E Es. apply only_same; [by apply (Hv n x n') | done]. Qed.

(** Follow the stream [p] through the steps of a handler. *)
Ltac follow H E :=
  let K := fresh "K" in
  match type of E with
  | mod_str _ _ _ = Ok _ => pose proof (only_mod _ _ _ _ _ _ E (proj1 H)) as K
  | put_str _ _ _ = Ok _ => pose proof (only_put _ _ _ _ _ _ E (proj1 H)) as K
  | ?c _ = Ok _ => let V := fresh "V" in assert (V : via same_streams c) by via_tac; pose proof (only_via c _ _ _ _ _ V E (proj1 H)) as K; clear V
  end;
  apply (only_trans _ _ _ _ _ _ H) in K; clear H; rename K into H.
Ltac only_start H Es := match type of Es with str_at ?n ?p = Some ?s => assert (H : only p (Some s) n n) by (split; [exact Es | done]) end.

(** Well-formed lists of streams stay so. *)
Definition streams_wf n n' : Prop := ListSpec.wf (allstreams n) -> ListSpec.wf (allstreams n').
#[export] Instance streams_wf_quiet : Quiet streams_wf.
Proof. apply quiet_intro; try (by intros n ? H). split; [by intros n H | intros n1 n2 n3 H1 H2 H; by apply H2, H1]. Qed.
Lemma streams_wf_sock r : quiet_sock streams_wf r.
Proof. destruct r; intros n t so _ _ H; exact H. Qed.
Lemma items_update {T} (l : list (Z * T)) it w : items (update_it it w l) = items l.
Proof. induction l as [|[b v] t IH]; simpl; [done |]. destruct (Z.eqb_spec b it) as [->|]; simpl; [done |]. unfold items in *. by rewrite IH. Qed.
Lemma streams_wf_str p : quiet_str streams_wf p.
Proof. intros n s H. unfold ListSpec.wf, store in *. simpl. by rewrite items_update. Qed.
#[export] Hint Resolve streams_wf_sock streams_wf_str : via.

Lemma find_remove {T} (l : list (Z * T)) it : NoDup (items l) -> find_it it (remove_it it l) = None /\ forall q, q <> it -> find_it q (remove_it it l) = find_it q l.
Proof.
  induction l as [|[b v] t IH]; simpl; [done |]. intros [Hb Hd]%NoDup_cons. destruct (IH Hd) as [IH1 IH2]. destruct (Z.eqb_spec b it) as [->|Hn]; simpl.
  - split; [destruct (find_it it t) eqn:E; [exfalso; apply Hb, find_it_in; by rewrite E | done] | intros q Hq; by rewrite (proj2 (Z.eqb_neq it q)) by congruence].
  - split; [by rewrite (proj2 (Z.eqb_neq b it)) | intros q Hq; by rewrite IH2].
Qed.

Section Handlers.
Context {EV : NetEnv}.

Lemma tcp_reset_ok it p n x n' s : tcp_reset it p n = Ok (x, n') -> str_at n p = Some s -> only p (Some (was_reset s)) n n'.
Proof. intros H Es. only_start K Es. unfold tcp_reset in H. repeat nstep. follow K E. follow K E0. follow K E1. follow K E4. follow K H. exact K. Qed.

Lemma tcp_closed_ok it p g n x n' s : tcp_closed it p (g_flags g) n = Ok (x, n') -> str_at n p = Some s -> s_state s = Closed ->
  exists o, state_step g s o /\ only p o n n'.
Proof.
  intros H Es Hs. only_start K Es. unfold tcp_closed in H. destruct (has (g_flags g) Tcp_syn) eqn:Hf; repeat nstep.
  - follow K E. follow K H. eexists. split; [by apply st_closed_syn | exact K].
  - eexists. split; [by apply st_closed | exact K].
Qed.

Lemma tcp_syn_sent_ok it p g n x n' s : tcp_syn_sent it p (g_flags g) n = Ok (x, n') -> str_at n p = Some s -> s_state s = Syn_sent ->
  exists o, state_step g s o /\ only p o n n'.
Proof. intros H Es Hs. only_start K Es. unfold tcp_syn_sent in H. repeat nstep. follow K E0. follow K E1. follow K E4. follow K H. eexists. split; [by apply st_syn_sent | exact K]. Qed.

Lemma via_accept it p : via same_streams (accept_connected_stream it p).
Proof. unfold accept_connected_stream. via_tac; try (by apply via_upd). Qed.

Lemma tcp_syn_received_ok it p g n x n' s : tcp_syn_received it p (g_flags g) n = Ok (x, n') -> str_at n p = Some s -> s_state s = Syn_received ->
  exists o, state_step g s o /\ only p o n n'.
Proof.
  intros H Es Hs. only_start K Es. unfold tcp_syn_received in H. repeat nstep. follow K E0. follow K E3.
  assert (via same_streams (if so_cli_state x6 =? Cli_accept then accept_connected_stream it p else mret tt)) by (case_match; [apply via_accept | via_tac]).
  pose proof (only_via _ _ _ _ _ _ H0 H (proj1 K)) as K'. eexists. split; [by apply st_syn_received |]. by apply (only_trans _ _ _ _ _ _ K).
Qed.
Lemma deliver_ok p cli n x n' s : deliver p cli n = Ok (x, n') -> str_at n p = Some s -> exists k, only p (Some (with_buf s (drop k (s_buf s)))) n n'.
Proof.
  intros H Es. only_start K Es. unfold deliver in H. repeat nstep. unfold str_at in Es. rewrite E in Es. injection Es as ->. follow K E0. destruct (negb (x1 =? s_wp s)); repeat nstep; follow K H.
  - by exists (Z.to_nat x1).
  - exists (length (s_buf s)). by rewrite drop_all.
Qed.

Lemma tcp_established_ok it p g tcp tcplen h n x n' s : tcp_established it p tcp tcplen (g_flags g) n = Ok (x, n') -> str_at n p = Some s -> s_state s = Established ->
  tcp_hdrlen (n_mem n) tcp = Ok h -> g_len g = u32 (tcplen - h) -> g_data g = load_bytes (n_mem n) (tcp + h) (Z.to_nat (g_len g)) ->
  exists o, state_step g s o /\ only p o n n'.
Proof.
  intros H Es Hs Eh El Ed. only_start K Es. unfold tcp_established in H. apply nbind_Ok in H as (h' & n0 & [E ->]%rd_Ok & H). rewrite Eh in E. injection E as <-. cbv zeta in H. rewrite <- El in H.
  apply nbind_Ok in H as (s0 & n0 & [E ->]%get_str_Ok & H). unfold str_at in Es. rewrite E in Es. injection Es as ->.
  apply nbind_Ok in H as (? & n0 & [Hle ->]%nassert_Ok & H). apply Z.leb_le in Hle. apply nbind_Ok in H as (data & n0 & [E1 ->]%rd_Ok & H). rewrite <- Ed in E1.
  apply nbind_Ok in H as (? & n1 & E2 & H). follow K E2. apply nbind_Ok in H as (so & n0 & [_ ->]%get_sock_Ok & H). apply nbind_Ok in H as (? & n2 & E3 & H).
  assert (exists k, only p (Some (with_buf s (drop k (s_buf s ++ data)))) n n2) as [k K2].
  { destruct (has (g_flags g) Tcp_psh && (so_cli_state so =? Cli_recv)); [| exists 0%nat; nstep; exact K]. nstep. destruct (deliver_ok _ _ _ _ _ _ E0 (proj1 K)) as [k Kd]. apply (only_trans _ _ _ _ _ _ K) in Kd. follow Kd E3. by exists k. }
  clear K. destruct (has (g_flags g) Tcp_fin) eqn:Hfin; [| nstep; eexists; split; [by eapply st_data; eauto with lia | exact K2] ].
  apply nbind_Ok in H as (? & n3 & E4 & H). follow K2 E4. apply nbind_Ok in H as (? & n4 & E5 & H). follow K2 E5. apply nbind_Ok in H as (? & n5 & E6 & H). follow K2 E6.
  apply nbind_Ok in H as (so2 & n0 & [_ ->]%get_sock_Ok & H). destruct (so_cli_state so2 =? Cli_recv).
  - apply nbind_Ok in H as (s5 & n0 & [_ ->]%get_str_Ok & H). apply nbind_Ok in H as (? & n6 & E7 & H). follow K2 E7. apply nbind_Ok in H as (? & n7 & E8 & H). follow K2 E8. follow K2 H.
    eexists. split; [eapply (st_fin g s data (length (s_buf s ++ data))); eauto with lia |]. rewrite drop_all. exact K2.
  - nstep. eexists. split; [by eapply (st_fin g s data k); eauto with lia | exact K2].
Qed.
Lemma remove_socket_ok it owner n x n' t : remove_socket it owner n = Ok (x, n') -> find_it it (busy (tcp_sockets n)) = Some t -> ListSpec.wf (allstreams n) ->
  t_net_state t = Net_connection /\ only (t_stream t) None n n'.
Proof.
  intros H Et [Hw _]. unfold remove_socket in H. repeat nstep. rewrite E in Et. injection Et as ->. unfold rem_own_stream, streams_remove in E1. inv_bind.
  split; [by apply Z.eqb_eq |]. destruct (has_it (allstreams n) (t_stream t)); inv_bind; [| done]. match goal with H : erase _ _ = Ok _ |- _ => unfold erase in H; inv_bind end. apply NoDup_app in Hw as (Hw & _ & _).
  unfold only, str_at. simpl. destruct (find_remove (busy (allstreams n)) (t_stream t) Hw) as [F1 F2]. split; [exact F1 | exact F2].
Qed.

Lemma tcp_fin_wait1_ok it p g n x n' s t : tcp_fin_wait1 it p (g_flags g) n = Ok (x, n') -> str_at n p = Some s -> s_state s = Fin_wait1 ->
  find_it it (busy (tcp_sockets n)) = Some t -> (t_net_state t = Net_connection -> t_stream t = p) -> ListSpec.wf (allstreams n) ->
  exists o, state_step g s o /\ only p o n n'.
Proof.
  intros H Es Hs Et Hp Hw. unfold tcp_fin_wait1 in H. destruct (has (g_flags g) Tcp_fin && has (g_flags g) Tcp_ack_flag) eqn:Hf; [| nstep; only_start K Es; eexists; split; [by apply st_fin_wait1 | exact K] ].
  only_start K Es. apply nbind_Ok in H as (? & n1 & E1 & H). follow K E1. apply nbind_Ok in H as (? & n2 & E2 & H). follow K E2. apply nbind_Ok in H as (so & n0 & [_ ->]%get_sock_Ok & H).
  apply nbind_Ok in H as (? & n0 & [_ ->]%nassert_Ok & H). apply nbind_Ok in H as (? & n3 & E3 & H). follow K E3. apply nbind_Ok in H as (? & n4 & E4 & H). follow K E4.
  assert (V : forall R, Quiet R -> quiet_sock R (RTcp it) -> quiet_str R p -> R n n4).
  { intros R QR Q1 Q2. etrans; [eapply (via_mod_str R); [exact Q2 | exact E1] |]. etrans; [eapply (via_send_tcp_msg R); [exact Q1 | exact E2] |]. etrans; [eapply (via_reply R); exact E3 |].
    eapply (via_mod_sock R); [exact Q1 | | exact E4]. by intros; repeat split. }
  destruct (V same_socks _ (same_socks_sock _) (same_socks_str _) it t Et) as (t' & Et' & (Hk & _) & Hst). pose proof (V streams_wf _ (streams_wf_sock _) (streams_wf_str _) Hw) as Hw'.
  destruct (remove_socket_ok _ _ _ _ _ _ H Et' Hw') as [Hc Kr]. rewrite Hst, Hp in Kr by (unfold t_net_state in *; congruence). exists None. split; [by apply st_time_wait | by apply (only_trans _ _ _ _ _ _ K)].
Qed.

Lemma tcp_last_ack_ok it p g n x n' s : tcp_last_ack it p (g_flags g) n = Ok (x, n') -> str_at n p = Some s -> s_state s = Last_ack -> exists o, state_step g s o /\ only p o n n'.
Proof.
  intros H Es Hs. only_start K Es. unfold tcp_last_ack in H. apply nbind_Ok in H as (? & n0 & [Ha ->]%nassert_Ok & H). apply nbind_Ok in H as (? & n1 & E1 & H). follow K E1.
  apply nbind_Ok in H as (so & n0 & [Eso ->]%get_sock_Ok & H). exists (Some (with_state s Closed)). split; [by apply st_last_ack |]. destruct (so_cli_state so =? Cli_close) eqn:Hc; [| nstep; exact K].
  exfalso. repeat nstep. unfold remove_socket in E. repeat nstep. simpl in Eso. rewrite E0 in Eso. injection Eso as <-. unfold rem_own_stream in E3. inv_bind.
  unfold t_cli_state, Cli_closed, Cli_close in *. lia.
Qed.
End Handlers.

(** ** The handler of segments *)

(** The segment at [tcp]. *)
Definition seg_of (m : mem) (tcp tcplen : Z) (g : segment) : Prop :=
  tcp_flags m tcp = Ok (g_flags g) /\ tcp_seq m tcp = Ok (g_seq g) /\
  exists h, tcp_hdrlen m tcp = Ok h /\ g_len g = u32 (tcplen - h) /\ g_data g = load_bytes m (tcp + h) (Z.to_nat (g_len g)).

(** The stream of a segment from [src]:[sp] to the socket [it]: the stream of a
    connection, a pending stream of a listening socket (0: none), or a new
    stream. *)
Inductive stream_of n (it src sp : Z) (syn : bool) : Z -> option stream -> Prop :=
  | so_connection t : find_it it (busy (tcp_sockets n)) = Some t -> t_net_state t = Net_connection -> t_stream t <> 0 -> stream_of n it src sp syn (t_stream t) None
  | so_pending t p : find_it it (busy (tcp_sockets n)) = Some t -> t_net_state t = Net_listen -> get_stream (allstreams n) t src sp = Ok p ->
      p <> 0 \/ syn = false -> stream_of n it src sp syn p None
  | so_new t p : find_it it (busy (tcp_sockets n)) = Some t -> t_net_state t = Net_listen -> get_stream (allstreams n) t src sp = Ok 0 -> syn = true ->
      str_at n p = None -> p <> 0 -> stream_of n it src sp syn p (Some (with_tx (stream_ctor src sp) 123 123)).

Lemma find_app {T} (l1 l2 : list (Z * T)) q : find_it q (l1 ++ l2) = match find_it q l1 with Some v => Some v | None => find_it q l2 end.
Proof. induction l1 as [|[b v] t IH]; simpl; [done |]. by destruct (b =? q). Qed.

Lemma streams_add_ok (A : alist stream) addr port p A' : ListSpec.wf A -> streams_add A addr port = Ok (p, A') ->
  p <> 0 /\ find_it p (busy A) = None /\ find_it p (busy A') = Some (stream_ctor addr port) /\ (forall q, q <> p -> find_it q (busy A') = find_it q (busy A)) /\ ListSpec.wf A'.
Proof.
  intros Hw H. unfold streams_add in H. apply bind_Ok in H as (A1 & E & [= <- <-]). destruct (push_back_wf _ _ _ Hw E) as (Hw' & _). unfold push_back, take_free in E. destruct (free A) as [|f fs] eqn:Ef; [done |].
  cbn [mbind res_bind] in E. injection E as <-. unfold ListSpec.last, last_it. cbn [busy]. assert (El : forall d l, last_from d (l ++ [(f, stream_ctor addr port)]) = f) by (intros d l; revert d; induction l as [|[b v] t IH]; intros d; [done | apply IH]).
  rewrite El. destruct Hw as [Hd Hz]. rewrite Ef in Hd, Hz. apply NoDup_app in Hd as (_ & Hd & _). apply Forall_app in Hz as [_ Hz]. apply Forall_cons in Hz as [Hz _].
  assert (Hn : find_it f (busy A) = None) by (destruct (find_it f (busy A)) eqn:E; [exfalso; eapply (Hd f); [apply find_it_in; by rewrite E | by left] | done]).
  split_and!; [done | done | rewrite find_app, Hn; simpl; by rewrite Z.eqb_refl | | done]. intros q Hq. rewrite find_app. simpl. rewrite (proj2 (Z.eqb_neq f q)) by congruence. by destruct (find_it q (busy A)).
Qed.

Section Segment.
Context {EV : NetEnv}.

Lemma segment_stream_ok it ip tcp g src sp n p n1 : ListSpec.wf (allstreams n) -> ip_src (n_mem n) ip = Ok src -> tcp_src (n_mem n) tcp = Ok sp ->
  segment_stream it ip tcp (g_flags g) n = Ok (p, n1) -> exists o, stream_of n it src sp (g_syn g) p o /\
    match o with
    | None => n1 = n
    | Some s => only p (Some s) n n1 /\ n_mem n1 = n_mem n /\ ListSpec.wf (allstreams n1) /\ exists t, find_it it (busy (tcp_sockets n1)) = Some t /\ t_net_state t = Net_listen
    end.
Proof.
  intros Hw Hs Hp H. unfold segment_stream in H. apply nbind_Ok in H as (t & n0 & [Et ->]%get_tcp_Ok & H). destruct (t_net_state t =? Net_listen) eqn:Hl; [apply Z.eqb_eq in Hl |].
  - apply nbind_Ok in H as (src' & n0 & [E1 ->]%rd_Ok & H). rewrite Hs in E1. injection E1 as <-. apply nbind_Ok in H as (sp' & n0 & [E2 ->]%rd_Ok & H). rewrite Hp in E2. injection E2 as <-.
    apply nbind_Ok in H as (ss & n0 & [= <- <-] & H). apply nbind_Ok in H as (p0 & n0 & [E3 ->]%lift_Ok & H). destruct ((p0 =? 0) && has (g_flags g) Tcp_syn) eqn:Hnew.
    + apply andb_true_iff in Hnew as [->%Z.eqb_eq Hsyn]. apply nbind_Ok in H as ([[p1 A1] t1] & n0 & [E4 ->]%lift_Ok & H). apply nbind_Ok in H as (? & n0 & [= _ <-] & H).
      apply nbind_Ok in H as (? & n2 & [Hz ->]%nassert_Ok & H). apply nbind_Ok in H as (? & n2 & (s & Es & ->)%mod_str_Ok & [= <- <-]). unfold add_stream in E4. inv_bind.
      destruct (_ && _) in E4; [| by simplify_eq]. apply bind_Ok in E4 as (o & _ & E4). apply bind_Ok in E4 as (? & _ & E4). apply bind_Ok in E4 as ([p2 A2] & E7 & E4). apply bind_Ok in E4 as (l & _ & [= <- <- <-]).
      destruct (streams_add_ok _ _ _ _ _ Hw E7) as (P1 & P2 & P3 & P4 & P5). simpl in Es.
      rewrite P3 in Es. injection Es as <-. eexists. split; [eapply so_new; eauto |]. split_and!; [| done | by apply (streams_wf_str p2 (set_streams n A2)) | ].
      * split; [unfold str_at; simpl; by apply (find_update_eq _ _ (stream_ctor src sp)) |]. intros q Hq. unfold str_at. simpl. rewrite find_update_ne by done. by apply P4.
      * eexists. split; [simpl; by apply (find_update_eq _ _ t) | done].
    + nstep. exists None. split; [| done]. eapply so_pending; eauto. unfold g_syn. apply andb_false_iff in Hnew as [?%Z.eqb_neq|]; [by left | by right].
  - destruct (t_net_state t =? Net_connection) eqn:Hc; [| nstep]. apply Z.eqb_eq in Hc. repeat nstep. exists None. split; [| done]. eapply so_connection; eauto. by apply negb_true_iff, Z.eqb_neq in E.
Qed.
(** The steps after the stream was found. *)
Lemma segment_taken it tcp tcplen g n0 p s t n1 n2 n' x1 x2 s' x : ListSpec.wf (allstreams n0) -> seg_of (n_mem n0) tcp tcplen g -> str_at n0 p = Some s -> in_sequence g s = true ->
  find_it it (busy (tcp_sockets n0)) = Some t -> (t_net_state t = Net_connection -> t_stream t = p) ->
  (if has (g_flags g) Tcp_syn then put_str p (with_rx s (g_seq g + 1) (g_seq g + 1)) else put_str p (add_rx s (g_len g))) n0 = Ok (x1, n1) ->
  (if has (g_flags g) Tcp_rst then tcp_reset it p else mret tt) n1 = Ok (x2, n2) -> find_it p (busy (allstreams n2)) = Some s' ->
  match s_state s' with
  | Closed => tcp_closed it p (g_flags g)
  | Listen => mret tt
  | Syn_sent => tcp_syn_sent it p (g_flags g)
  | Syn_received => tcp_syn_received it p (g_flags g)
  | Established => tcp_established it p tcp tcplen (g_flags g)
  | Fin_wait1 => tcp_fin_wait1 it p (g_flags g)
  | Last_ack => tcp_last_ack it p (g_flags g)
  | Close_wait | Fin_wait2 | Time_wait | Closing => lift (Stop FAssert)
  end n2 = Ok (x, n') ->
  exists o, seg_step g s o /\ only p o n0 n'.
Proof.
  intros Hw (Gf & Gs & h & Gh & Gl & Gd) Es Hin Et Hp E1 E2 E3 H.
  assert (K : only p (Some (received g s)) n0 n1 /\ n1 = set_streams n0 (store (allstreams n0) p (received g s))).
  { unfold received, g_syn. destruct (has (g_flags g) Tcp_syn); (split; [by apply (only_put _ s _ _ _ _ E1) | by injection E1 as _ <-]). }
  destruct K as [K En1]. assert (Hm1 : n_mem n1 = n_mem n0) by by subst. assert (Hw1 : ListSpec.wf (allstreams n1)) by (subst; by apply streams_wf_str).
  assert (Et1 : find_it it (busy (tcp_sockets n1)) = Some t) by by subst. clear En1 E1.
  set (s2 := if g_rst g then was_reset (received g s) else received g s). assert (K2 : only p (Some s2) n0 n2).
  { unfold s2, g_rst. destruct (has (g_flags g) Tcp_rst); [| nstep; exact K]. apply (only_trans _ _ _ _ _ _ K). exact (tcp_reset_ok _ _ _ _ _ _ E2 (proj1 K)). }
  unfold only, str_at in K2. rewrite E3 in K2. destruct K2 as [[= ->] K2].
  cut (exists o, state_step g s2 o /\ only p o n2 n').
  { intros (o & St & Ko). exists o. split; [by apply seg_taken |]. apply (only_trans p (Some s2) o n0 n2); [split; [exact E3 | exact K2] | done]. }
  destruct (s_state s2) eqn:Hst.
  - by eapply (tcp_closed_ok it).
  - nstep. exists (Some s2). split; [by apply st_listen | by split].
  - by eapply (tcp_syn_sent_ok it).
  - by eapply (tcp_syn_received_ok it).
  - assert (n2 = n1) as -> by (unfold s2, g_rst in Hst; destruct (has (g_flags g) Tcp_rst); [done | by nstep]). eapply (tcp_established_ok it p g tcp tcplen h); rewrite ?Hm1; eauto.
  - assert (n2 = n1) as -> by (unfold s2, g_rst in Hst; destruct (has (g_flags g) Tcp_rst); [done | by nstep]). by eapply (tcp_fin_wait1_ok it p g).
  - nstep.
  - nstep.
  - by eapply (tcp_last_ack_ok it).
  - nstep.
  - nstep.
Qed.

End Segment.
