(* ===== verification/NetTables.v ===== *)
(** The tables of the network stack: the ARP cache, and the sockets as seen by
    clients that do not own them. *)

From Stdlib Require Import ZArith Lia Bool.
From stdpp Require Import base list numbers gmap.
From S2P Require Import Prelude SysUtils ListSpec L4Types CString Packets Sockets NetStack NetClient NetFrame TcpSpec.

Implicit Types (n : net) (x r : sref).

(** ** Sockets of other clients *)

Definition tables_wf n : Prop := ListSpec.wf (udp_sockets n) /\ ListSpec.wf (tcp_sockets n).
(** The socket [x] is unchanged. *)
Definition same_at x n n' : Prop :=
  match x with
  | RUdp it => forall u, find_it it (busy (udp_sockets n)) = Some u -> find_it it (busy (udp_sockets n')) = Some u
  | RTcp it => forall t, find_it it (busy (tcp_sockets n)) = Some t -> find_it it (busy (tcp_sockets n')) = Some t
  end.
Definition spares x n n' : Prop := tables_wf n -> tables_wf n' /\ same_at x n n'.

Lemma same_at_refl x n : same_at x n n.
Proof. by destruct x; intros ?. Qed.

#[export] Instance spares_quiet x : Quiet (spares x).
Proof.
  assert (H0 : forall n n', udp_sockets n' = udp_sockets n -> tcp_sockets n' = tcp_sockets n -> spares x n n').
  { intros n n' E1 E2 [W1 W2]. unfold tables_wf. rewrite E1, E2. split; [done |]. destruct x; intros v; [by rewrite E1 | by rewrite E2]. }
  apply quiet_intro; [split | by intros; apply H0..]; [by intros n; apply H0 |]. intros n1 n2 n3 H1 H2 W. destruct (H1 W) as [W2 S1]. destruct (H2 W2) as [W3 S2]. split; [done |]. destruct x; intros v E; by apply S2, S1.
Qed.

Lemma wf_store {T} (A : alist T) it w : ListSpec.wf A -> ListSpec.wf (store A it w).
Proof. unfold ListSpec.wf, store. simpl. by rewrite items_update. Qed.

Lemma spares_any x r : r <> x -> quiet_any (spares x) r.
Proof.
  intros Hr. destruct r as [i|i]; intros n v [W1 W2]; (split; [split; [by first [apply wf_store | done] | by first [apply wf_store | done]] |]); destruct x as [j|j]; intros w E; simpl; try done;
    (rewrite find_update_ne; [done |]; intros ->; by apply Hr).
Qed.
Lemma spares_sock x r : r <> x -> quiet_sock (spares x) r.
Proof. intros Hr. by apply quiet_any_sock, spares_any. Qed.
Lemma spares_tcp x it : RTcp it <> x -> quiet_tcp (spares x) it.
Proof. apply (spares_any x (RTcp it)). Qed.
Lemma spares_udp x it : RUdp it <> x -> quiet_udp (spares x) it.
Proof. apply (spares_any x (RUdp it)). Qed.
Lemma spares_id x n n' : udp_sockets n' = udp_sockets n -> tcp_sockets n' = tcp_sockets n -> spares x n n'.
Proof. intros E1 E2 [W1 W2]. unfold tables_wf. rewrite E1, E2. split; [done |]. destruct x; intros v; [by rewrite E1 | by rewrite E2]. Qed.
Lemma spares_str x p : quiet_str (spares x) p.
Proof. intros n s. by apply spares_id. Qed.
#[export] Hint Resolve spares_any spares_sock spares_tcp spares_udp spares_str : via.

(** *** Operations on the tables *)

Lemma push_back_keeps {T} (A A' : alist T) v : ListSpec.wf A -> push_back A v = Ok A' ->
  ListSpec.wf A' /\ find_it (ListSpec.last A') (busy A) = None /\ ListSpec.last A' <> 0 /\ forall it w, find_it it (busy A) = Some w -> find_it it (busy A') = Some w.
Proof.
  intros W H. pose proof (push_back_wf _ _ _ W H) as [W' _]. unfold push_back, take_free in H. destruct W as [Hd Hz]. destruct (free A) as [|f fs] eqn:Ef; [done |]. cbn [mbind res_bind] in H. injection H as <-.
  assert (El : forall d l, last_from d (l ++ [(f, v)]) = f) by (intros d l; revert d; induction l as [|[b u] t IH]; intros d; [done | apply IH]).
  unfold ListSpec.last, last_it. cbn [busy]. rewrite El. apply NoDup_app in Hd as (_ & Hd & _). apply Forall_app in Hz as [_ Hz]. apply Forall_cons in Hz as [Hz _]. split_and!; [done | | done |].
  - destruct (find_it f (busy A)) eqn:E; [exfalso; eapply (Hd f); [apply find_it_in; by rewrite E | by left] | done].
  - intros it w E. by rewrite find_app, E.
Qed.

Lemma erase_keeps {T} (A : alist T) pos k A' : ListSpec.wf A -> erase A pos = Ok (k, A') -> ListSpec.wf A' /\ forall it, it <> pos -> find_it it (busy A') = find_it it (busy A).
Proof.
  intros W H. pose proof (erase_wf _ _ _ _ W H) as (l1 & v & l2 & E1 & E2 & _ & _ & W'). split; [done |]. intros it Hit. rewrite E1, E2, !find_app. simpl. by rewrite (proj2 (Z.eqb_neq pos it)) by congruence.
Qed.

Lemma spares_udp_add x n c o b e it c' A' : udp_add (udp_sockets n) c o b e = Ok (it, c', A') -> spares x n (set_cnt (set_udp n A') c').
Proof.
  unfold udp_add. destruct (Nat.eqb _ 0); [intros [= <- <- <-]; by apply spares_id |]. intros (A & E & [= <- <- <-])%bind_Ok [W1 W2]. destruct (push_back_keeps _ _ _ W1 E) as (W' & _ & _ & K).
  split; [by split |]. destruct x; intros v Ev; [by apply K | done].
Qed.

Lemma tcp_add_keeps A c o b e s it c' A' : ListSpec.wf A -> tcp_add A c o b e s = Ok (it, c', A') ->
  ListSpec.wf A' /\ (it <> 0 -> find_it it (busy A) = None) /\ forall j t, find_it j (busy A) = Some t -> find_it j (busy A') = Some t.
Proof.
  intros W. unfold tcp_add. destruct (Nat.eqb _ 0); [intros [= <- <- <-]; by split_and! |]. intros (B & E & [= <- <- <-])%bind_Ok. destruct (push_back_keeps _ _ _ W E) as (W' & H & _ & K). by split_and!.
Qed.

Lemma spares_tcp_add x n c o b e s it c' A' : tcp_add (tcp_sockets n) c o b e s = Ok (it, c', A') -> spares x n (set_cnt (set_tcp n A') c').
Proof. intros H [W1 W2]. destruct (tcp_add_keeps _ _ _ _ _ _ _ _ _ W2 H) as (W' & _ & K). split; [by split |]. destruct x; intros v Ev; [done | by apply K]. Qed.

Lemma spares_udp_remove x n id o e A' : RUdp (udp_find_id (udp_sockets n) id) <> x -> udp_remove (udp_sockets n) id o = Ok (e, A') -> spares x n (set_udp n A').
Proof.
  intros Hx. unfold udp_remove. destruct (_ =? 0); [intros [= <- <-]; by apply spares_id |]. intros (u & _ & H)%bind_Ok. destruct (so_owner _ =? o); [| injection H as <- <-; by apply spares_id].
  apply bind_Ok in H as ([k A1] & E & [= <- <-]). intros [W1 W2]. destruct (erase_keeps _ _ _ _ W1 E) as [W' K]. split; [by split |]. destruct x as [j|j]; intros v Ev; [| done]. simpl. rewrite K; [done | intros ->; by apply Hx].
Qed.

Lemma spares_tcp_remove x n id o e A' : RTcp (tcp_find (tcp_sockets n) id) <> x -> tcp_remove (tcp_sockets n) id o = Ok (e, A') -> spares x n (set_tcp n A').
Proof.
  intros Hx. unfold tcp_remove. destruct (_ =? 0); [intros [= <- <-]; by apply spares_id |]. intros (u & _ & H)%bind_Ok. destruct (so_owner _ =? o); [| injection H as <- <-; by apply spares_id].
  apply bind_Ok in H as ([k A1] & E & [= <- <-]). intros [W1 W2]. destruct (erase_keeps _ _ _ _ W2 E) as [W' K]. split; [by split |]. destruct x as [j|j]; intros v Ev; [done |]. simpl. rewrite K; [done | intros ->; by apply Hx].
Qed.

Lemma spares_add_connected x n ss c parent s a it c' A' : RTcp parent <> x -> tcp_add_connected ss (tcp_sockets n) c parent s a = Ok (it, c', A') -> spares x n (set_cnt (set_tcp n A') c').
Proof.
  intros Hx H [W1 W2]. unfold tcp_add_connected in H. apply bind_Ok in H as (p & _ & H). apply bind_Ok in H as (? & _ & H). apply bind_Ok in H as ([[it1 c1] A1] & E & H).
  destruct (tcp_add_keeps _ _ _ _ _ _ _ _ _ W2 E) as (W' & Hn & K). destruct (it1 =? 0) eqn:Hz.
  - injection H as <- <- <-. split; [by split |]. destruct x; intros v Ev; [done | by apply K].
  - apply Z.eqb_neq in Hz. apply bind_Ok in H as (p1 & _ & H). apply bind_Ok in H as (p2 & _ & H). apply bind_Ok in H as (nw & _ & H). apply bind_Ok in H as (? & _ & [= <- <- <-]).
    split; [split; [done | by repeat apply wf_store] |]. destruct x as [j|j]; intros v Ev; [done |]. simpl. rewrite find_update_ne by (intros ->; rewrite Hn in Ev by done; done).
    rewrite find_update_ne by (intros ->; by apply Hx). by apply K.
Qed.

(** *** Requests *)

Lemma find_sock_ok {T} (f : T -> bool) (l : list (Z * T)) it : NoDup (items l) -> find_sock f l = it -> it <> 0 -> exists v, find_it it l = Some v /\ f v = true.
Proof.
  intros Hd <-. revert Hd. induction l as [|[b v] t IH]; simpl; [done |]. intros [Hb Hd]%NoDup_cons. destruct (f v) eqn:Ev; [intros _; exists v; by rewrite Z.eqb_refl |]. intros Hz.
  destruct (IH Hd Hz) as (w & Ew & Hw). exists w. split; [| done]. destruct (Z.eqb_spec b (find_sock f t)) as [->|]; [| done]. exfalso. apply Hb, find_it_in. by rewrite Ew.
Qed.
Lemma find_sock_update {T} (f : T -> bool) (l : list (Z * T)) it w : find_sock f l = it -> it <> 0 -> f w = true -> find_sock f (update_it it w l) = it.
Proof.
  intros <- Hz Hw. induction l as [|[b v] t IH]; simpl in *; [done |]. destruct (f v) eqn:Ev; [rewrite Z.eqb_refl; simpl; by rewrite Hw |].
  destruct (Z.eqb_spec b (find_sock f t)) as [Hb|]; simpl; [by rewrite Hw |]. rewrite Ev. by apply IH.
Qed.

(** The rest of a run respects [spares]. *)
Ltac via_end H := match type of H with ?c _ = Ok (_, _) => match goal with |- ?R _ _ => let V := fresh "V" in assert (V : via R c) by via_tac; exact (V _ _ _ H) end end.

Section Requests.
Context {EV : NetEnv} (x : sref) (cli : Z).

Definition foreign n : Prop := exists so, sock_at n x = Some so /\ is_owner so cli = false.
Definition isolated {A} (c : N A) : Prop := forall n y n', foreign n -> c n = Ok (y, n') -> spares x n n'.

Lemma via_isolated {A} (c : N A) : via (spares x) c -> isolated c.
Proof. intros H n y n' _. apply H. Qed.

Lemma foreign_ne n r so : foreign n -> sock_at n r = Some so -> is_owner so cli = true -> r <> x.
Proof. intros (so' & E' & H') E H ->. congruence. Qed.

Lemma spares_ports n v : spares x n (set_udp_port n v) /\ spares x n (set_tcp_port n v).
Proof. split; by apply spares_id. Qed.
Lemma via_bind_spares r a : r <> x -> via (spares x) (bind_if_need r a).
Proof. intros Hr. apply via_bind_if_need; [exact _ | by apply spares_any | apply spares_ports | apply spares_ports]. Qed.
Hint Resolve via_bind_spares : via.

Lemma isolated_socket tag mr : isolated (process_cli_socket tag mr cli).
Proof.
  intros n y n' _ H. unfold process_cli_socket in H. destruct (wrong_format tag 6 0); [via_end H |]. destruct (negb (mr_int mr 4 =? AF_INET)); [via_end H |].
  destruct (app_threads cli) as [[rc b] e]. destruct (negb (rc =? 0)); [via_end H |]. cbv zeta in H. apply nbind_Ok in H as (c & n0 & [= <- <-] & H).
  destruct (mr_int mr 5 =? SOCK_DGRAM); [| destruct (mr_int mr 5 =? SOCK_STREAM); [| via_end H] ].
  - destruct (negb _); [via_end H |]. apply nbind_Ok in H as (A & n0 & [= <- <-] & H). apply nbind_Ok in H as ([[it c'] A'] & n0 & [E ->]%lift_Ok & H).
    apply nbind_Ok in H as (? & n1 & [= _ <-] & H). etrans; [by eapply spares_udp_add | via_end H].
  - destruct (negb _); [via_end H |]. apply nbind_Ok in H as (A & n0 & [= <- <-] & H). apply nbind_Ok in H as ([[it c'] A'] & n0 & [E ->]%lift_Ok & H).
    apply nbind_Ok in H as (? & n1 & [= _ <-] & H). etrans; [by eapply spares_tcp_add | via_end H].
Qed.

Lemma find_any_Ok id n o n' : find_any id n = Ok (o, n') -> n' = n /\
  match o with
  | Some (RUdp it) => it = udp_find_id (udp_sockets n) id
  | Some (RTcp it) => it = tcp_find (tcp_sockets n) id /\ it <> 0
  | None => True
  end.
Proof.
  unfold find_any. intros H. repeat nstep. split; [done |]. destruct (negb (udp_find_id (udp_sockets n') id =? 0)); [done |]. destruct (negb (tcp_find (tcp_sockets n') id =? 0)) eqn:E; [| done].
  split; [done |]. by apply negb_true_iff, Z.eqb_neq in E.
Qed.

(** Removing the socket that was found by its id. *)
Lemma spares_remove it owner n y n' t : remove_socket it owner n = Ok (y, n') -> RTcp it <> x -> find_it it (busy (tcp_sockets n)) = Some t -> tcp_find (tcp_sockets n) (so_id (t_sock t)) = it ->
  spares x n n'.
Proof.
  intros H Hx Et Ef. unfold remove_socket in H. apply nbind_Ok in H as (t' & n0 & [E ->]%get_tcp_Ok & H). rewrite Et in E. injection E as <-. apply nbind_Ok in H as (ss & n0 & [= <- <-] & H).
  apply nbind_Ok in H as ([e ss'] & n0 & [_ ->]%lift_Ok & H). apply nbind_Ok in H as (? & n1 & [= _ <-] & H). apply nbind_Ok in H as (? & n2 & [_ ->]%nassert_Ok & H).
  apply nbind_Ok in H as (A & n2 & [= <- <-] & H). apply nbind_Ok in H as ([e2 A'] & n2 & [E2 ->]%lift_Ok & H). apply nbind_Ok in H as (? & n2 & [= _ <-] & [_ ->]%nassert_Ok).
  etrans; [| eapply (spares_tcp_remove x (set_streams n ss')); [simpl; by rewrite Ef | exact E2]]. by apply spares_id.
Qed.

Lemma close_tcp_spares it n y n' t id : ListSpec.wf (tcp_sockets n) -> process_cli_close_tcp it cli n = Ok (y, n') -> RTcp it <> x -> tcp_find (tcp_sockets n) id = it -> it <> 0 ->
  find_it it (busy (tcp_sockets n)) = Some t -> spares x n n'.
Proof.
  intros W H Hx Ef Hz Et. unfold process_cli_close_tcp in H. apply nbind_Ok in H as (t' & n0 & [E ->]%get_tcp_Ok & H). rewrite Et in E. injection E as <-.
  assert (Hid : so_id (t_sock t) = id). { destruct W as [Hd _]. apply NoDup_app in Hd as (Hd & _ & _). destruct (find_sock_ok _ _ _ Hd Ef Hz) as (v & Ev & Hv). rewrite Et in Ev. injection Ev as <-. by apply Z.eqb_eq. }
  assert (Hmod : forall f, (forall so, so_id (f so) = so_id so) -> let n1 := with_sock n (RTcp it) (f (t_sock t)) in
    spares x n n1 /\ tcp_find (tcp_sockets n1) id = it /\ find_it it (busy (tcp_sockets n1)) = Some (t_with t (f (t_sock t)))).
  { intros f Hf n1. unfold n1. simpl. rewrite Et. split_and!; [by apply (spares_any x (RTcp it)) | | simpl; by apply (find_update_eq _ _ t)].
    unfold tcp_find. simpl. apply find_sock_update; [done | done |]. simpl. rewrite Hf. by apply Z.eqb_eq. }
  assert (Ms : forall f n0 u, mod_sock (RTcp it) f n = Ok (u, n0) -> n0 = with_sock n (RTcp it) (f (t_sock t))) by (intros f n0 u (so & E & ->)%mod_sock_Ok; simpl in E; rewrite Et in E; by injection E as <-).
  destruct (t_net_state t =? Net_listen).
  - apply nbind_Ok in H as (? & n0 & [_ ->]%nassert_Ok & H). apply nbind_Ok in H as (? & n1 & ->%Ms & H). destruct (Hmod (fun so => with_cli_state so Cli_closed)) as (S1 & F1 & _); [done |].
    apply nbind_Ok in H as (A & n2 & [= <- <-] & H). apply nbind_Ok in H as ([e2 A'] & n2 & [E2 ->]%lift_Ok & H). apply nbind_Ok in H as (? & n2 & [= _ <-] & H).
    rewrite Hid in E2. etrans; [exact S1 |]. etrans; [eapply spares_tcp_remove; [by rewrite F1 | exact E2] | via_end H].
  - apply nbind_Ok in H as (? & n0 & [_ ->]%nassert_Ok & H). apply nbind_Ok in H as (? & n0 & [_ ->]%nassert_Ok & H). apply nbind_Ok in H as (s & n0 & [_ ->]%get_str_Ok & H).
    destruct (s_state s); try (by nstep); [| via_end H]. apply nbind_Ok in H as (? & n1 & ->%Ms & H). destruct (Hmod (fun so => with_cli_state so Cli_closed)) as (S1 & F1 & F2); [done |]. apply nbind_Ok in H as (? & n2 & E2 & H).
    etrans; [exact S1 |]. etrans; [eapply spares_remove; [exact E2 | done | exact F2 | simpl; by rewrite Hid] | via_end H].
Qed.

Lemma isolated_close tag mr n y n' : tables_wf n -> foreign n -> process_cli_close tag mr cli n = Ok (y, n') -> spares x n n'.
Proof.
  intros W F H. unfold process_cli_close in H. destruct (wrong_format tag 4 0); [via_end H |]. apply nbind_Ok in H as (o & n0 & [-> Ho]%find_any_Ok & H). destruct o as [r|]; [| via_end H].
  apply nbind_Ok in H as (so & n0 & [Es ->]%get_sock_Ok & H). destruct (is_owner so cli) eqn:Hown; cbn [negb] in H; [| via_end H]. pose proof (foreign_ne _ _ _ F Es Hown) as Hx.
  destruct (negb (is_cli_state_idle so)); [via_end H |]. destruct r as [it|it].
  - apply nbind_Ok in H as (A & n0 & [= <- <-] & H). apply nbind_Ok in H as ([e A'] & n0 & [E ->]%lift_Ok & H). apply nbind_Ok in H as (? & n1 & [= _ <-] & H).
    etrans; [eapply spares_udp_remove; [| exact E]; by subst it | via_end H].
  - apply nbind_Ok in H as (? & n1 & E & [= _ <-]). destruct Ho as [Ho Hz]. simpl in Es. destruct (find_it it (busy (tcp_sockets n))) as [t|] eqn:Et; [| done].
    by eapply (close_tcp_spares it n _ _ t); [apply W | ..].
Qed.
Lemma accept_spares it p n y n' : accept_connected_stream it p n = Ok (y, n') -> RTcp it <> x -> spares x n n'.
Proof.
  intros H Hx. unfold accept_connected_stream in H. apply nbind_Ok in H as (so & n0 & [_ ->]%get_sock_Ok & H). apply nbind_Ok in H as (? & n0 & [_ ->]%nassert_Ok & H).
  apply nbind_Ok in H as (s & n0 & [_ ->]%get_str_Ok & H). apply nbind_Ok in H as (? & n0 & [_ ->]%nassert_Ok & H). apply nbind_Ok in H as (a & n1 & E1 & H). etrans; [via_end E1 |].
  apply nbind_Ok in H as (A & n0 & [= <- <-] & H). apply nbind_Ok in H as (ss & n0 & [= <- <-] & H). apply nbind_Ok in H as (c & n0 & [= <- <-] & H).
  apply nbind_Ok in H as ([[it' c'] A'] & n0 & [E ->]%lift_Ok & H). apply nbind_Ok in H as (? & n2 & [= _ <-] & H). etrans; [by eapply spares_add_connected | via_end H].
Qed.

Lemma isolated_bind tag mr : isolated (process_cli_bind tag mr cli).
Proof.
  intros n y n' F H. unfold process_cli_bind in H. destruct (wrong_format tag 8 0); [via_end H |]. cbv zeta in H. apply nbind_Ok in H as (o & n0 & [-> _]%find_any_Ok & H). destruct o as [r|]; [| via_end H].
  apply nbind_Ok in H as (so & n0 & [Es ->]%get_sock_Ok & H). destruct (is_owner so cli) eqn:Hown; cbn [negb] in H; [| via_end H]. pose proof (foreign_ne _ _ _ F Es Hown) as Hx. via_end H.
Qed.

(** The requests for TCP sockets find the socket by its id. *)
Lemma tcp_request (c : tsock -> N Z) e it n y n' : (forall t, RTcp it <> x -> via (spares x) (c t)) -> foreign n ->
  (t ← get_tcp it; if negb (is_owner (t_sock t) cli) then refuse cli e else c t) n = Ok (y, n') -> spares x n n'.
Proof.
  intros Hc F H. apply nbind_Ok in H as (t & n0 & [Et ->]%get_tcp_Ok & H). destruct (is_owner (t_sock t) cli) eqn:Hown; cbn [negb] in H; [| via_end H].
  assert (Es : sock_at n (RTcp it) = Some (t_sock t)) by (simpl; by rewrite Et). pose proof (foreign_ne _ _ _ F Es Hown) as Hx. by apply (Hc t Hx) in H.
Qed.

Lemma isolated_listen tag mr : isolated (process_cli_listen tag mr cli).
Proof.
  intros n y n' F H. unfold process_cli_listen in H. destruct (wrong_format tag 5 0); [via_end H |]. cbv zeta in H. apply nbind_Ok in H as (A & n0 & [= <- <-] & H).
  destruct (tcp_find _ _ =? 0); [via_end H |]. eapply tcp_request; [| exact F | exact H]. intros t Hx. cbv beta. via_tac.
Qed.

Lemma via_accept_spares it p : RTcp it <> x -> via (spares x) (accept_connected_stream it p).
Proof. intros Hx n y n' H. by eapply accept_spares. Qed.
Hint Resolve via_accept_spares : via.

Lemma isolated_accept tag mr : isolated (process_cli_accept tag mr cli).
Proof.
  intros n y n' F H. unfold process_cli_accept in H. destruct (wrong_format tag 4 0); [via_end H |]. cbv zeta in H. apply nbind_Ok in H as (A & n0 & [= <- <-] & H).
  destruct (tcp_find _ _ =? 0); [via_end H |]. eapply tcp_request; [| exact F | exact H]. intros t Hx. cbv beta. via_tac.
Qed.

Lemma via_set_stream it ss t : RTcp it <> x -> via (spares x) (upd (fun n => set_tcp (set_streams n ss) (store (tcp_sockets n) it t))).
Proof. intros Hx. apply via_upd. intros n. etrans; [| apply (spares_tcp x it Hx (set_streams n ss))]. by apply spares_id. Qed.
Hint Resolve via_set_stream : via.

Lemma isolated_connect tag mr : isolated (process_cli_connect tag mr cli).
Proof.
  intros n y n' F H. unfold process_cli_connect in H. destruct (wrong_format tag 8 0); [via_end H |]. cbv zeta in H. apply nbind_Ok in H as (A & n0 & [= <- <-] & H).
  destruct (tcp_find _ _ =? 0); [via_end H |]. eapply tcp_request; [| exact F | exact H]. intros t Hx. cbv beta. via_tac.
Qed.

Lemma isolated_sendto tag mr frame : isolated (process_cli_sendto tag mr cli frame).
Proof.
  intros n y n' F H. unfold process_cli_sendto in H. destruct (wrong_format tag 9 2); [via_end H |]. cbv zeta in H. apply nbind_Ok in H as (? & n0 & [_ ->]%nassert_Ok & H).
  apply nbind_Ok in H as (o & n0 & [-> _]%find_any_Ok & H). destruct o as [r|]; [| via_end H].
  apply nbind_Ok in H as (so & n0 & [Es ->]%get_sock_Ok & H). destruct (is_owner so cli) eqn:Hown; cbn [negb] in H; [| via_end H]. pose proof (foreign_ne _ _ _ F Es Hown) as Hx.
  unfold process_cli_sendto_udp, process_cli_sendto_tcp in H. via_end H.
Qed.

Lemma isolated_recvfrom tag mr : isolated (process_cli_recvfrom tag mr cli).
Proof.
  intros n y n' F H. unfold process_cli_recvfrom in H. destruct (wrong_format tag 5 0); [via_end H |]. cbv zeta in H. apply nbind_Ok in H as (o & n0 & [-> _]%find_any_Ok & H). destruct o as [r|]; [| via_end H].
  apply nbind_Ok in H as (so & n0 & [Es ->]%get_sock_Ok & H). destruct (is_owner so cli) eqn:Hown; cbn [negb] in H; [| via_end H]. pose proof (foreign_ne _ _ _ F Es Hown) as Hx.
  unfold process_cli_recvfrom_tcp in H. via_end H.
Qed.
End Requests.

(** C33: clients are isolated: whatever a client asks (any message of any
    length, with any socket id, opcode and arguments), a socket that it does not
    own (its thread is not in the range of the threads of the application that
    created the socket) is after the request exactly what it was before: it is
    not closed, bound, connected, read, written or given away. *)
Theorem client_isolation {EV : NetEnv} x so tag mr cli frame n e n' : tables_wf n -> sock_at n x = Some so -> is_owner so cli = false ->
  process_client_request tag mr cli frame n = Ok (e, n') ->
  match x with
  | RUdp it => find_it it (busy (udp_sockets n')) = find_it it (busy (udp_sockets n))
  | RTcp it => find_it it (busy (tcp_sockets n')) = find_it it (busy (tcp_sockets n))
  end.
Proof.
  intros W Es Hown H. assert (F : foreign x cli n) by (by exists so). assert (S : spares x n n').
  { unfold process_client_request in H. cbv zeta in H.
    destruct (mr_at mr 3 =? Socket_create); [by eapply isolated_socket | destruct (mr_at mr 3 =? Socket_close); [by eapply isolated_close |]].
    destruct (mr_at mr 3 =? Socket_bind); [by eapply isolated_bind | destruct (mr_at mr 3 =? Socket_listen); [by eapply isolated_listen |]].
    destruct (mr_at mr 3 =? Socket_accept); [by eapply isolated_accept | destruct (mr_at mr 3 =? Socket_connect); [by eapply isolated_connect |]].
    destruct (mr_at mr 3 =? Socket_sendto); [by eapply isolated_sendto | destruct (mr_at mr 3 =? Socket_recvfrom); [by eapply isolated_recvfrom | via_end H]]. }
  destruct (S W) as [_ K]. destruct x as [it|it]; simpl in *.
  - destruct (find_it it (busy (udp_sockets n))) as [u|]; [by apply K | done].
  - destruct (find_it it (busy (tcp_sockets n))) as [t|]; [by apply K | done].
Qed.

(** ** The ARP cache *)

Definition arp_wf (l : list arp_rec) : Prop := NoDup (a_ip <$> l) /\ (length l <= Arp_max)%nat.
Definition at_time n (t : Z) : net :=
  MkNet (n_mem n) (frames n) (arp_cache n) (eth_ifaces n) (ip_ifaces n) (udp_sockets n) (tcp_sockets n) (allstreams n) (sock_cnt n) (udp_port n) (tcp_port n) t (events n).

Lemma arp_lookup_None l ip : arp_lookup l ip = None <-> ip ∉ a_ip <$> l.
Proof.
  induction l as [|r t IH]; simpl; [split; [by intros _ ?%elem_of_nil | done] |]. rewrite elem_of_cons. destruct (Z.eqb_spec (a_ip r) ip) as [<-|Hr]; [split; [done | intros H; exfalso; apply H; by left] |].
  rewrite IH. split; [intros H [->|?]; [done | by apply H] | intros H ?; apply H; by right].
Qed.
Lemma arp_lookup_app l1 l2 ip : arp_lookup (l1 ++ l2) ip = match arp_lookup l1 ip with Some r => Some r | None => arp_lookup l2 ip end.
Proof. induction l1 as [|r t IH]; simpl; [done |]. by destruct (a_ip r =? ip). Qed.
Lemma arp_update_ok l ip mac t (q0 : arp_rec) : arp_lookup l ip = Some q0 ->
  arp_lookup (arp_update l ip mac t) ip = Some (MkArp ip mac t) /\ (forall j, j <> ip -> arp_lookup (arp_update l ip mac t) j = arp_lookup l j) /\ a_ip <$> arp_update l ip mac t = a_ip <$> l.
Proof.
  induction l as [|q l IH]; cbn [arp_lookup arp_update]; [done |]. destruct (Z.eqb_spec (a_ip q) ip) as [Hq|Hq]; intros E; rewrite !fmap_cons; cbn [arp_lookup a_ip].
  - rewrite Z.eqb_refl. split_and!; [done | | by rewrite Hq]. intros j Hj. by rewrite Hq, (proj2 (Z.eqb_neq ip j)) by congruence.
  - destruct (IH E) as (H1 & H2 & H3). rewrite (proj2 (Z.eqb_neq _ _) Hq), H3. split_and!; [done | | done]. intros j Hj. by rewrite H2.
Qed.
Lemma arp_erase_ok l ip : NoDup (a_ip <$> l) -> arp_lookup (arp_erase l ip) ip = None /\ (forall j, j <> ip -> arp_lookup (arp_erase l ip) j = arp_lookup l j) /\ sublist (arp_erase l ip) l.
Proof.
  induction l as [|q l IH]; [by intros _; split_and! |]. cbn [arp_lookup arp_erase]. rewrite fmap_cons. intros [Hn Hd]%NoDup_cons. destruct (Z.eqb_spec (a_ip q) ip) as [Hq|Hq]; simpl.
  - split_and!; [apply arp_lookup_None; by rewrite <- Hq | intros j Hj; by rewrite (proj2 (Z.eqb_neq _ _)) by congruence | by apply sublist_cons].
  - destruct (IH Hd) as (H1 & H2 & H3). rewrite (proj2 (Z.eqb_neq _ _) Hq). split_and!; [done | intros j Hj; by rewrite H2 | by apply sublist_skip].
Qed.

Definition arp_insert (l : list arp_rec) (ip : Z) (mac : mac_t) (tmo : Z) : list arp_rec :=
  match arp_lookup l ip with Some _ => arp_update l ip mac tmo | None => (if Nat.eqb (length l) Arp_max then tail l else l) ++ [MkArp ip mac tmo] end.
Lemma arp_insert_ok l ip mac tmo : arp_wf l -> arp_wf (arp_insert l ip mac tmo) /\ arp_lookup (arp_insert l ip mac tmo) ip = Some (MkArp ip mac tmo) /\
  forall j, j <> ip -> arp_lookup (arp_insert l ip mac tmo) j = if decide (arp_lookup l ip = None /\ length l = Arp_max /\ (a_ip <$> head l) = Some j) then None else arp_lookup l j.
Proof.
  intros [Hd Hl]. unfold arp_insert. destruct (arp_lookup l ip) as [q0|] eqn:Er.
  - destruct (arp_update_ok l ip mac tmo q0 Er) as (H1 & H2 & H3). split_and!; [| done | intros j Hj; rewrite decide_False by naive_solver; by apply H2].
    split; [by rewrite H3 |]. rewrite <- (length_fmap a_ip), H3, length_fmap. done.
  - apply arp_lookup_None in Er as Hni. assert (Hsub : exists h, l = h ++ (if Nat.eqb (length l) Arp_max then tail l else l) /\ (length (if Nat.eqb (length l) Arp_max then tail l else l) < Arp_max)%nat /\
      (forall j, arp_lookup h j = None \/ (length l = Arp_max /\ (a_ip <$> head l) = Some j))).
    { destruct (Nat.eqb_spec (length l) Arp_max) as [El|El]; [| exists []; split_and!; [done | lia | by left]]. destruct l as [|r t]; [done |]. exists [r]. split_and!; [done | simpl in *; lia |].
      intros j. simpl. destruct (Z.eqb_spec (a_ip r) j) as [->|]; [by right | by left]. }
    destruct Hsub as (h & El & Hlen & Hh). set (b := if Nat.eqb (length l) Arp_max then tail l else l) in *. assert (Hb : ip ∉ a_ip <$> b) by (intros Hin; apply Hni; rewrite El, fmap_app; apply elem_of_app; by right).
    split_and!.
    + split; [| rewrite length_app; simpl; lia]. rewrite fmap_app. rewrite El, fmap_app in Hd. apply NoDup_app in Hd as (_ & _ & Hd). apply NoDup_app. split_and!; [done | intros j Hj Hj2; apply list_elem_of_singleton in Hj2; simpl in Hj2; rewrite Hj2 in Hj; done | apply NoDup_singleton].
    + rewrite arp_lookup_app. apply arp_lookup_None in Hb. rewrite Hb. simpl. by rewrite Z.eqb_refl.
    + intros j Hj. rewrite arp_lookup_app. simpl. rewrite (proj2 (Z.eqb_neq ip j)) by congruence. assert (Ej : match arp_lookup b j with Some r => Some r | None => None end = arp_lookup b j) by by destruct (arp_lookup b j). rewrite Ej.
      destruct (decide _) as [(_ & Hfull & Hhead)|Hno].
      * apply arp_lookup_None. unfold b. rewrite (proj2 (Nat.eqb_eq _ _) Hfull). destruct l as [|r t]; [done |]. simpl in *. injection Hhead as <-. by apply NoDup_cons in Hd as [Hd _].
      * rewrite El at 1. rewrite arp_lookup_app. destruct (Hh j) as [->|[Hf He]]; [done |]. exfalso. apply Hno. by split_and!.
Qed.

(** C36: the ARP cache: learning an address keeps one record for an address and
    at most eight records; it is then found for thirty seconds, and after them
    it is gone and the answer is the nil address; the record of any other
    address is unchanged, but for the oldest one when the cache was full. *)
Theorem arp_correct ip mac n : arp_wf (arp_cache n) -> 0 <= now n < 2 ^ 63 -> exists n', arp_add ip mac n = Ok (tt, n') /\ arp_wf (arp_cache n') /\
  (forall t, now n <= t <= now n + Timeout_usec -> arp_find ip (at_time n' t) = Ok (mac, at_time n' t)) /\
  (forall t, now n + Timeout_usec < t -> exists n'', arp_find ip (at_time n' t) = Ok (mac_nil, n'') /\ arp_wf (arp_cache n'') /\ arp_lookup (arp_cache n'') ip = None /\
     forall j, j <> ip -> arp_lookup (arp_cache n'') j = arp_lookup (arp_cache n') j) /\
  (forall j, j <> ip -> arp_lookup (arp_cache n') j =
     if decide (arp_lookup (arp_cache n) ip = None /\ length (arp_cache n) = Arp_max /\ (a_ip <$> head (arp_cache n)) = Some j) then None else arp_lookup (arp_cache n) j).
Proof.
  intros W Ht. set (tmo := u64 (now n + Timeout_usec)). assert (Etmo : tmo = now n + Timeout_usec) by (unfold tmo, Timeout_usec; apply wrap_small; unfold in_range; lia).
  destruct (arp_insert_ok (arp_cache n) ip mac tmo W) as (Kw & Kl & Ko). set (l' := arp_insert _ _ _ _) in *. exists (set_arp n l'). split_and!.
  - unfold arp_add, upd, l', arp_insert, tmo. cbv zeta. by destruct (arp_lookup (arp_cache n) ip).
  - exact Kw.
  - intros t Hr. unfold arp_find, get, mret, N_ret, mbind, N_bind. simpl. rewrite Kl. simpl. by rewrite (proj2 (Z.ltb_ge _ _)) by lia.
  - intros t Hr. unfold arp_find, get, upd, mret, N_ret, mbind, N_bind. simpl. rewrite Kl. simpl. rewrite (proj2 (Z.ltb_lt _ _)) by lia. eexists. split; [reflexivity |]. simpl.
    destruct (arp_erase_ok l' ip (proj1 Kw)) as (E1 & E2 & E3). split_and!; [| done | done]. split; [eapply sublist_NoDup; [apply Kw |]; by apply fmap_sublist | etrans; [by apply sublist_length | apply Kw] ].
  - exact Ko.
Qed.

(** A full cache of eight stations. *)
Definition full_cache : list arp_rec := (fun i => MkArp i [2; 0; 0; 0; 0; i] 600) <$> seqZ 1 8.
Definition cache_net (l : list arp_rec) : net := MkNet ∅ [] l [] [] (MkA [] []) (MkA [] []) (MkA [] []) 0 2000 2000 5 [].
Lemma full_cache_wf : arp_wf full_cache.
Proof. split; [apply (bool_decide_unpack _); vm_compute; exact I | vm_compute; lia]. Qed.

Lemma arp_correct_witness : exists n', arp_add 9 [2; 0; 0; 0; 0; 9] (cache_net full_cache) = Ok (tt, n') /\
  arp_find 9 (at_time n' 30000005) = Ok ([2; 0; 0; 0; 0; 9], at_time n' 30000005) /\ arp_lookup (arp_cache n') 1 = None /\ arp_lookup (arp_cache n') 2 = Some (MkArp 2 [2; 0; 0; 0; 0; 2] 600).
Proof.
  destruct (arp_correct 9 [2; 0; 0; 0; 0; 9] (cache_net full_cache) full_cache_wf ltac:(simpl; lia)) as (n' & E & _ & Hf & _ & Ho). exists n'. split; [exact E |]. split; [apply Hf; simpl; unfold Timeout_usec; lia |].
  split; [rewrite Ho by lia; reflexivity | rewrite Ho by lia; reflexivity].
Defined.

(** A socket of the threads 16 to 31 and a request to close it by thread 64. *)
Definition own_net : net := MkNet ∅ [] [] [] [] (MkA [(8, MkU (sock_ctor 1 16 32 1) [])] [16]) (MkA [] [24]) (MkA [] [32]) 1 2000 2000 5 [].
Definition own_env : NetEnv :=
  {| drv := fun f => (0, 0, Z.of_nat (length f)); client_ipc := fun _ _ _ _ => (0, 0); app_threads := fun _ => (0, 64, 80); junk0 := 0; junk1 := 0; junk_sa := sa_make 0 0 |}.
Definition stranger : Z := thrid_create_global 64 1.

Lemma client_isolation_witness : exists n', @process_client_request own_env 4 [4; 7; 8; Socket_close; 1] stranger 0 own_net = Ok (1, n') /\
  find_it 8 (busy (udp_sockets n')) = Some (MkU (sock_ctor 1 16 32 1) []).
Proof.
  destruct (@process_client_request own_env 4 [4; 7; 8; Socket_close; 1] stranger 0 own_net) as [[e n']|] eqn:E; [| discriminate E]. assert (e = 1) as -> by (vm_compute in E; congruence).
  exists n'. split; [reflexivity |]. refine (@client_isolation own_env (RUdp 8) (sock_ctor 1 16 32 1) 4 [4; 7; 8; Socket_close; 1] stranger 0 own_net 1 n' _ eq_refl eq_refl E).
  split; (split; [apply (bool_decide_unpack _); vm_compute; exact I | apply (bool_decide_unpack _); vm_compute; exact I]).
Defined.
