(* ===== verification/NetRuns.v ===== *)
(** Runs of two network stacks that are connected by a wire: a TCP session
    from the requests of the clients to the bytes of the frames, and packets
    that stop a stack. *)

From Stdlib Require Import ZArith Lia Bool.
From stdpp Require Import base list numbers gmap.
From S2P Require Import Prelude SysUtils ListSpec L4Types CString Packets PacketSpec Sockets NetStack NetClient NetSpec NetFrame TcpSpec.

(** ** Stations *)

(** A stack and the buffers of its two threads. *)
Record station := MkSt { st_net : net; st_eth : Z; st_cli : Z }.

Definition run_items (a : Z) : list Z := (fun i => a + 8 * i) <$> seqZ 0 8.
Definition run_frames : list Z := [0x1000; 0x15f0; 0x1be0; 0x21d0].
(** Four frames; the runs use only the first [sz] bytes of each, the rest is
    left unmapped. *)
Definition run_mem (sz : Z) : mem := list_to_map (a ← run_frames; (fun i => (a + i, 0)) <$> seqZ 0 sz).
Definition new_net (sz k : Z) : net :=
  MkNet (run_mem sz) ((fun b => MkFrame b false) <$> run_frames) [] [ex_mac k] [MkIpif (ex_ip k) 0xffffff00 (ex_mac k)]
    (MkA [] (run_items 0x100)) (MkA [] (run_items 0x200)) (MkA [] (run_items 0x300)) 0 2000 2000 5 [].

(** Two stations, [true] and [false]; a client asks its station; the last frame
    of a station arrives at the other; a frame from elsewhere arrives. *)
Inductive act :=
  | Request (a : bool) (untyped typed op : Z) (args data : list Z)
  | Wire (a : bool)
  | Inject (a : bool) (bytes : list Z).

Definition pair_of : Type := station * station.
Definition sel (s : pair_of) (a : bool) : station := if a then s.1 else s.2.
Definition set_st (s : pair_of) (a : bool) (x : station) : pair_of := if a then (x, s.2) else (s.1, x).
Definition client (a : bool) : Z := if a then 0x40001 else 0x44001.
Definition sent_frames (n : net) : list (list Z) := omap (fun e => match e with EvTx l => Some l | EvReply _ _ _ _ => None end) (events n).
Definition replies (n : net) : list (Z * list Z * option (list Z)) := omap (fun e => match e with EvReply _ e w b => Some (e, w, b) | EvTx _ => None end) (events n).
Definition run_tag (u t : Z) : Z := tag_set_typed (tag_set_untyped 0 u) t.
Definition arrive (s : pair_of) (a : bool) (f : list Z) : res pair_of :=
  r ← @eth_round ex_env (st_eth (sel s a)) 0 f (st_net (sel s a)); Ok (set_st s a (MkSt r.2 r.1 (st_cli (sel s a)))).

Definition do_act (s : pair_of) (x : act) : res pair_of :=
  match x with
  | Request a u t op args data =>
      r ← @client_round ex_env 7 8 (st_cli (sel s a)) (run_tag u t) ([run_tag u t; 7; 8; op] ++ args) (client a) data (st_net (sel s a));
      Ok (set_st s a (MkSt r.2 (st_eth (sel s a)) r.1))
  | Wire a => arrive s (negb a) (default [] (head (reverse (sent_frames (st_net (sel s a))))))
  | Inject a f => arrive s a f
  end.
Fixpoint acts (s : pair_of) (l : list act) : res pair_of := match l with [] => Ok s | x :: t => s ← do_act s x; acts s t end.

Definition start (sz : Z) : pair_of := (MkSt (new_net sz 1) 0 0, MkSt (new_net sz 2) 0 0).
Definition sa_args (addr port : Z) : list Z := sa_words (sa_make port addr).

(** ** A TCP session *)

Definition open_session : list act :=
  [ Request false 6 0 Socket_create [AF_INET; SOCK_STREAM; 0] [];
    Request false 8 0 Socket_bind (1 :: sa_args INADDR_ANY 80) [];
    Request false 5 0 Socket_listen [1; 2] [];
    Request false 4 0 Socket_accept [1] [];
    Request true 6 0 Socket_create [AF_INET; SOCK_STREAM; 0] [];
    Request true 8 0 Socket_connect (1 :: sa_args (ex_ip 2) 80) [];
    Wire true; (* ARP request *) Wire false; (* ARP reply *)
    Wire true; (* SYN *) Wire false; (* SYN, ACK *) Wire true (* ACK *) ].

Definition use_session : list act :=
  [ Request true 9 2 Socket_sendto ([1; 0] ++ sa_args 0 0 ++ [(sitem_simple 0 (0x1000 + hdrs_reserve) 5 false).1; 0x1000 + hdrs_reserve]) ex_data;
    Wire true;
    Request false 5 0 Socket_recvfrom [2; 0] [];
    Request false 5 0 Socket_recvfrom [2; 0] [] ].

Definition close_session : list act :=
  [ Request true 4 0 Socket_close [1] [];
    Wire true; (* FIN, ACK *) Wire false; (* FIN, ACK *) Wire true; (* ACK *)
    Request false 4 0 Socket_close [2] [] ].

Definition run_in (sz : Z) (l : list act) : res pair_of := acts (start sz) l.
Definition run (l : list act) : res pair_of := run_in 80 l.
Definition of_run {A} (f : pair_of -> A) (l : list act) : res A := s ← run l; Ok (f s).
Lemma of_run_Ok {A} (f : pair_of -> A) l y : of_run f l = Ok y -> exists s, run l = Ok s /\ f s = y.
Proof. unfold of_run. destruct (run l) as [s|e]; intros H; [| discriminate H]. injection H as <-. by exists s. Qed.

(** a session of two stacks, from the requests to the wire: the sockets are
    created, connected (ARP request and reply, SYN, SYN+ACK, ACK) and accepted,
    the bytes that one client sends arrive at the other with the address of the
    sender, both ends are closed, every reply of the stacks is a success and
    all sockets but the listening one and all streams are free again. *)
Theorem tcp_session_runs : exists s, run (open_session ++ use_session ++ close_session) = Ok s /\
  replies (st_net (sel s true)) = [(0, [1], None); (0, [], None); (0, [5], None); (0, [], None)] /\
  replies (st_net (sel s false)) =
    [(0, [1], None); (0, [], None); (0, [], None); (0, 2 :: sa_args (ex_ip 1) 2000, None);
     (0, sa_args (ex_ip 1) 2000, Some ex_data); (0, sa_args (ex_ip 1) 2000, Some []); (0, [], None)] /\
  busy (tcp_sockets (st_net (sel s true))) = [] /\ busy (allstreams (st_net (sel s true))) = [] /\
  items (busy (tcp_sockets (st_net (sel s false)))) = [0x200] /\ busy (allstreams (st_net (sel s false))) = [] /\
  length (sent_frames (st_net (sel s true))) = 6%nat /\ length (sent_frames (st_net (sel s false))) = 3%nat.
Proof.
  destruct (of_run_Ok (fun s => (replies (st_net (sel s true)), replies (st_net (sel s false)), (busy (tcp_sockets (st_net (sel s true))), busy (allstreams (st_net (sel s true))), items (busy (tcp_sockets (st_net (sel s false)))),
      busy (allstreams (st_net (sel s false)))), (length (sent_frames (st_net (sel s true))), length (sent_frames (st_net (sel s false)))))) (open_session ++ use_session ++ close_session)
    ([(0, [1], None); (0, [], None); (0, [5], None); (0, [], None)],
     [(0, [1], None); (0, [], None); (0, [], None); (0, 2 :: sa_args (ex_ip 1) 2000, None); (0, sa_args (ex_ip 1) 2000, Some ex_data); (0, sa_args (ex_ip 1) 2000, Some []); (0, [], None)],
     ([], [], [0x200], []), (6%nat, 3%nat))) as (s & E & H); [vm_compute; reflexivity |].
  exists s. split; [exact E |]. injection H as H1 H2 H3 H4 H5 H6 H7 H8. split_and!; assumption.
Qed.

(** ** Packets and requests that stop a stack *)

(** A frame of a third station with a TCP segment without data. *)
Definition tcp_frame (dst sip dip sp dp seq ack flags : Z) : list Z :=
  match (_ ← build_eth 0x1000 (ex_mac 9) (ex_mac dst) Etype_ip; _ ← build_ip 0x100e Tcp_typically_hdr_len Proto_tcp dip sip; build_tcp 0x100e 0x1022 sp dp seq ack flags 0 true) (new_net 80 9) with
  | Ok (_, n) => default [] (match load_bytes (n_mem n) 0x1000 74 with Ok l => Some l | Stop _ => None end)
  | Stop _ => []
  end.
(** A datagram whose header says length 0. *)
Definition udp_frame_0 : list Z := eth_hdr (ex_mac 9) (ex_mac 2) Etype_ip ++ ip_hdr 8 Proto_udp (ex_ip 2) (ex_ip 9) ++ [0; 7; 0; 7; 0; 0; 0; 0].
Definition listening : list act := take 3 open_session.
(** The server stops in an assertion, a panic or a memory fault. *)
Definition stops_in (sz : Z) (l : list act) : bool := match run_in sz l with Ok _ | Stop FFuel => false | Stop _ => true end.
Definition stops : list act -> bool := stops_in 80.
Definition run_data (k : Z) : list Z := (fun i => i mod 256) <$> seqZ 0 k.
Definition send_k (k : Z) : act :=
  Request true 9 2 Socket_sendto ([1; 0] ++ sa_args 0 0 ++ [(sitem_simple 0 (0x1000 + hdrs_reserve) k false).1; 0x1000 + hdrs_reserve]) (run_data k).
Definition without_accept : list act := listening ++ drop 4 open_session.
Definition syn_from (port : Z) : act := Inject false (tcp_frame 2 (ex_ip 9) (ex_ip 2) port 80 1 0 Tcp_syn).


(** ** A segment *)

Definition frame_mem (f : list Z) : mem := match store_bytes (run_mem 80) 0x1000 f with Ok m => m | Stop _ => ∅ end.
Definition syn_frame : list Z := tcp_frame 2 (ex_ip 9) (ex_ip 2) 7 80 1 0 Tcp_syn.
Definition syn_mem : mem := frame_mem syn_frame.
Definition syn_sock : tsock :=
  MkT (with_net_state (with_saddr (sock_ctor 1 16 32 1) (sa_make 80 0)) Net_listen) [] [] 2 0.
Definition syn_net : net :=
  MkNet syn_mem [MkFrame 0x15f0 false] [MkArp (ex_ip 9) (ex_mac 9) 600] [ex_mac 2] [MkIpif (ex_ip 2) 0xffffff00 (ex_mac 2)]
    (MkA [] (run_items 0x100)) (MkA [(0x200, syn_sock)] (run_items 0x208)) (MkA [] (run_items 0x300)) 1 2000 2000 5 [].

Lemma is_Ok {A} (r : res A) : match r with Ok _ => true | Stop _ => false end = true -> exists x, r = Ok x.
Proof. destruct r as [x|e]; [by exists x | done]. Qed.

