(* ===== verification/Psocket.v ===== *)
(** lib/psocket/psocket.cpp: the client side of the socket interface, its
    messages to the server of app/tcpip ([NetClient]) and its reading of the
    replies; inet_aton() and inet_ntoa().

    A call fills the message registers, performs an IPC with the server and
    reads the registers again.  The IPC is a parameter: the message registers and
    the buffer registers that the call has written determine its result, the
    message registers after it and the number of bytes transferred in an
    overflow.  Logging is left out. *)

From Stdlib Require Import ZArith Lia Bool.
From stdpp Require Import base list numbers gmap.
From S2P Require Import Prelude SysUtils ListSpec L4Types CString CStdlib Stdio Packets Sockets NetStack NetClient NetFrame.

(** ** Addresses *)

Definition INADDR_NONE : Z := 0xffffffff.

(** inet_aton() on the characters of a string; [bytes]: the four bytes of the
    address, which keep their old values where nothing is written. *)
Fixpoint inet_aton (str : list Z) (bytes : list Z) (byte_id : nat) (byte : Z) : Z * list Z :=
  match str with
  | [] => (0, bytes)
  | ch :: t =>
      if (ch =? 46) || (ch =? 0) then
        if byte =? -1 then (0, bytes)
        else if Nat.eqb byte_id 4 then (0, bytes)
        else
          let bytes := <[byte_id := u8 byte]> bytes in
          if ch =? 0 then (1, bytes) else inet_aton t bytes (S byte_id) (-1)
      else if (48 <=? ch) && (ch <=? 57) then
        let byte := if byte =? -1 then ch - 48 else byte * 10 + (ch - 48) in
        if 0xff <? byte then (0, bytes) else inet_aton t bytes byte_id byte
      else (0, bytes)
  end.
(** [junk]: the bytes of the uninitialised local variable. *)
Definition inet_addr (str junk : list Z) : Z :=
  let r := inet_aton str junk 0 (-1) in if negb (r.1 =? 0) then be_word r.2 else INADDR_NONE.

(** inet_ntoa(): the two strings of 32 bytes at [strings] are used in turn, [id]
    is the next one; [format]: the address of "%u.%u.%u.%u", [a]: the bytes of
    the address.  The result is the string and the new [id]. *)
Definition Str_num : Z := 2.
Definition inet_ntoa print_float (fuel : nat) (strings format id : Z) (a : list Z) (m : mem) : res (Z * Z * mem) :=
  let str := strings + 32 * id in
  let id := if id + 1 =? Str_num then 0 else id + 1 in
  r ← snprintf print_float fuel str 32 format (A32 <$> a) m;
  m ← storeb r.2 (str + 32 - 1) 0;
  Ok (str, id, m).

(** ** Calls *)

Record psocket := MkPs { ps_key0 : Z; ps_key1 : Z; ps_id : Z }.
Definition Socket_addr_len : Z := 4 * 4.

(** init_posix_sockets(): the answer of the name server. *)
Definition init_posix_sockets (rc id key0 key1 : Z) : Z * psocket := if negb (rc =? 0) then (1, MkPs key0 key1 id) else (0, MkPs key0 key1 id).

Record ipc_result := MkIpc { i_rc : Z; i_mr : list Z; i_transferred : Z }.

Section Calls.
Context (ps : psocket) (ipc : list Z -> list Z -> ipc_result).
Implicit Types (mr : list Z) (addr : option (list Z)).

Definition not_inited : bool := thrid_is_nil (ps_id ps).
Definition ps_tag (untyped typed : Z) : Z := tag_set_typed (tag_set_untyped (tag_set_propagated 0 false) untyped) typed.
Definition ps_request mr (untyped typed : Z) (args : list Z) : list Z :=
  let l := ps_tag untyped typed :: ps_key0 ps :: ps_key1 ps :: args in l ++ drop (length l) mr.
Definition has_format mr (untyped typed : Z) : bool := (tag_untyped (mr_at mr 0) =? untyped) && (tag_typed (mr_at mr 0) =? typed).

(** The word of a register as the int that a call returns. *)
Definition ret_word mr (i : nat) : Z := s32 (mr_at mr i).

(** A call whose reply has an error code and, if it succeeded, [words] more
    words; the register [i] is the result ([None]: 0). *)
Definition simple_call mr (untyped : Z) (args : list Z) (words : option Z) (i : option nat) : Z :=
  let r := ipc (ps_request mr untyped 0 args) [] in
  if negb (i_rc r =? 0) then -1
  else if negb (has_format (i_mr r) 1 0) && negb (match words with Some w => has_format (i_mr r) (1 + w) 0 | None => false end) then -1
  else if negb (mr_at (i_mr r) 1 =? 0) then -1
  else match i with Some i => ret_word (i_mr r) i | None => 0 end.

Definition ps_socket mr (domain type protocol : Z) : Z :=
  if not_inited then -1 else simple_call mr 6 [Socket_create; u32 domain; u32 type; u32 protocol] (Some 1) (Some 2%nat).
Definition ps_close mr (sock : Z) : Z :=
  if not_inited then -1 else simple_call mr 4 [Socket_close; u32 sock] None None.
Definition ps_bind mr (sock : Z) (myaddr : list Z) (mylen : Z) : Z :=
  if not_inited then -1
  else if negb (mylen =? Socket_addr_len) then -1
  else simple_call mr 8 (Socket_bind :: u32 sock :: myaddr) None None.
Definition ps_listen mr (sock backlog : Z) : Z :=
  if not_inited then -1 else simple_call mr 5 [Socket_listen; u32 sock; u32 backlog] (Some 1) (Some 2%nat).
Definition ps_connect mr (sock : Z) (toaddr : list Z) (tolen : Z) : Z :=
  if not_inited then -1
  else if negb (tolen =? Socket_addr_len) then -1
  else simple_call mr 8 (Socket_connect :: u32 sock :: toaddr) None None.

(** accept(): the result and the words written to fromaddr, if it is given. *)
Definition ps_accept mr (sock : Z) (fromaddr : option Z) : Z * option (list Z) :=
  if not_inited then (-1, None)
  else if match fromaddr with Some len => negb (len =? Socket_addr_len) | None => false end then (-1, None)
  else
    let r := ipc (ps_request mr 4 0 [Socket_accept; u32 sock]) [] in
    if negb (i_rc r =? 0) then (-1, None)
    else
      let from := match fromaddr with Some _ => Some (mr_at (i_mr r) <$> [3; 4; 5; 6]%nat) | None => None end in
      if negb (has_format (i_mr r) 1 0) && negb (has_format (i_mr r) 6 0) then (-1, from)
      else if negb (mr_at (i_mr r) 1 =? 0) then (-1, from)
      else (ret_word (i_mr r) 2, from).

(** [w0]: the bits of the string item before it is set. *)
Definition ps_sendto mr (w0 sock buf len flags : Z) addr (tolen : Z) : Z :=
  if not_inited then -1
  else if match addr with Some _ => negb (tolen =? Socket_addr_len) | None => false end then -1
  else
    let s := sitem_simple w0 buf len false in
    let r := ipc (ps_request mr 9 2 ([Socket_sendto; u32 sock; u32 flags] ++ default [0; 0; 0; 0] addr ++ [s.1; s.2])) [] in
    if negb (i_rc r =? 0) then -1
    else if negb (has_format (i_mr r) 1 0) && negb (has_format (i_mr r) 2 0) then -1
    else if negb (mr_at (i_mr r) 1 =? 0) then -1
    else ret_word (i_mr r) 2.
Definition ps_send mr (w0 sock buf len flags : Z) : Z := ps_sendto mr w0 sock buf len flags None 0.
Definition ps_write mr (w0 sock buf len : Z) : Z := ps_send mr w0 sock buf len 0.

(** The buffer registers of recvfrom(): strings are accepted, into [buf]. *)
Definition recv_regs (w0 buf len : Z) : list Z := let s := sitem_simple w0 buf len false in [acceptor_set Fpage_nil true; s.1; s.2].
(** recvfrom(): the result and the words written to fromaddr. *)
Definition ps_recvfrom mr (w0 sock buf len flags : Z) (fromaddr : option Z) : res (Z * option (list Z)) :=
  if not_inited then Ok (-1, None)
  else if match fromaddr with Some len => negb (len =? Socket_addr_len) | None => false end then Ok (-1, None)
  else
    let r := ipc (ps_request mr 5 0 [Socket_recvfrom; u32 sock; u32 flags]) (recv_regs w0 buf len) in
    if negb (i_rc r =? Ipc_overflow) && negb (i_rc r =? 0) then Ok (-1, None)
    else
      let received := if i_rc r =? Ipc_overflow then i_transferred r else 0 in
      let from := match fromaddr with Some _ => Some (mr_at (i_mr r) <$> [2; 3; 4; 5]%nat) | None => None end in
      let w0 := mr_at (i_mr r) 6 in
      if negb (has_format (i_mr r) 1 0) && negb (has_format (i_mr r) 5 2 && titem_is_string_item w0) then Ok (-1, from)
      else if negb (mr_at (i_mr r) 1 =? 0) then Ok (-1, from)
      else
        _ ← wassert (mr_at (i_mr r) 7 =? buf);
        Ok (if negb (received =? 0) then s32 received else s32 (sitem_length w0), from).
Definition ps_recv mr (w0 sock buf len flags : Z) : res (Z * option (list Z)) := ps_recvfrom mr w0 sock buf len flags None.
Definition ps_read mr (w0 sock buf len : Z) : res (Z * option (list Z)) := ps_recv mr w0 sock buf len 0.

(** The calls that are stubs. *)
Definition ps_shutdown : res Z := Stop FAssert.
Definition ps_sockopt : Z := 1.

End Calls.

(** ** Calls and the server *)

(** A call with its arguments. *)
Inductive call :=
  | CSocket (domain type protocol : Z)
  | CClose (sock : Z)
  | CBind (sock : Z) (sa : sockaddr)
  | CListen (sock backlog : Z)
  | CAccept (sock : Z)
  | CConnect (sock : Z) (sa : sockaddr)
  | CSendto (sock flags : Z) (sa : sockaddr) (w0 buf len : Z)
  | CRecvfrom (sock flags : Z) (w0 buf len : Z).

(** The message of a call. *)
Definition call_regs ps (mr : list Z) (c : call) : list Z :=
  match c with
  | CSocket d t p => ps_request ps mr 6 0 [Socket_create; u32 d; u32 t; u32 p]
  | CClose s => ps_request ps mr 4 0 [Socket_close; u32 s]
  | CBind s sa => ps_request ps mr 8 0 (Socket_bind :: u32 s :: sa_words sa)
  | CListen s b => ps_request ps mr 5 0 [Socket_listen; u32 s; u32 b]
  | CAccept s => ps_request ps mr 4 0 [Socket_accept; u32 s]
  | CConnect s sa => ps_request ps mr 8 0 (Socket_connect :: u32 s :: sa_words sa)
  | CSendto s f sa w0 b l => ps_request ps mr 9 2 ([Socket_sendto; u32 s; u32 f] ++ sa_words sa ++ [(sitem_simple w0 b l false).1; (sitem_simple w0 b l false).2])
  | CRecvfrom s f _ _ _ => ps_request ps mr 5 0 [Socket_recvfrom; u32 s; u32 f]
  end.

(** The buffer registers that a call sets, and the address of its buffer. *)
Definition call_bufs (c : call) : list Z := match c with CRecvfrom _ _ w0 b l => recv_regs w0 b l | _ => [] end.
Definition call_buf (c : call) : Z := match c with CRecvfrom _ _ _ b _ => b | _ => 0 end.

(** A call over the IPC [ipc]. *)
Definition run_call ps ipc (mr : list Z) (c : call) : res Z :=
  match c with
  | CSocket d t p => Ok (ps_socket ps ipc mr d t p)
  | CClose s => Ok (ps_close ps ipc mr s)
  | CBind s sa => Ok (ps_bind ps ipc mr s (sa_words sa) Socket_addr_len)
  | CListen s b => Ok (ps_listen ps ipc mr s b)
  | CAccept s => Ok (ps_accept ps ipc mr s (Some Socket_addr_len)).1
  | CConnect s sa => Ok (ps_connect ps ipc mr s (sa_words sa) Socket_addr_len)
  | CSendto s f sa w0 b l => Ok (ps_sendto ps ipc mr w0 s b l f (Some (sa_words sa)) Socket_addr_len)
  | CRecvfrom s f w0 b l => r ← ps_recvfrom ps ipc mr w0 s b l f (Some Socket_addr_len); Ok r.1
  end.

(** What the server reads in a message. *)
Definition heard (R : list Z) (c : call) : Prop :=
  let tag := mr_at R 0 in
  match c with
  | CSocket d t p => wrong_format tag 6 0 = false /\ mr_at R 3 = Socket_create /\ mr_int R 4 = d /\ mr_int R 5 = t /\ mr_int R 6 = p
  | CClose s => wrong_format tag 4 0 = false /\ mr_at R 3 = Socket_close /\ mr_int R 4 = s
  | CBind s sa => wrong_format tag 8 0 = false /\ mr_at R 3 = Socket_bind /\ mr_int R 4 = s /\ mr_saddr R 5 = sa
  | CListen s b => wrong_format tag 5 0 = false /\ mr_at R 3 = Socket_listen /\ mr_int R 4 = s /\ mr_int R 5 = b
  | CAccept s => wrong_format tag 4 0 = false /\ mr_at R 3 = Socket_accept /\ mr_int R 4 = s
  | CConnect s sa => wrong_format tag 8 0 = false /\ mr_at R 3 = Socket_connect /\ mr_int R 4 = s /\ mr_saddr R 5 = sa
  | CSendto s f sa w0 b l => wrong_format tag 9 2 = false /\ mr_at R 3 = Socket_sendto /\ mr_int R 4 = s /\ mr_saddr R 6 = sa /\
      titem_is_string_item (mr_at R 10) = true /\ sitem_length (mr_at R 10) = l /\ mr_at R 11 = b
  | CRecvfrom s f _ _ _ => wrong_format tag 5 0 = false /\ mr_at R 3 = Socket_recvfrom /\ mr_int R 4 = s
  end.

(** The registers of the client after the reply of the server
    ([reply_to_client]): the tag, the error code, the words, the string item
    with the address of the client's buffer; the others keep what the client
    had sent. *)
Definition reply_regs (sent : list Z) (ecode : Z) (words : list Z) (b : option Z) (buf : Z) : list Z :=
  let tag := tag_set_typed (tag_set_untyped (tag_set_propagated 0 true) (1 + Z.of_nat (length words))) (match b with Some _ => 2 | None => 0 end) in
  let l := tag :: ecode :: words ++ match b with Some len => [(sitem_simple 0 0 len false).1; buf] | None => [] end in
  l ++ drop (length l) sent.

(** The replies that the server sends to a call that succeeded, and what the
    call returns then. *)
Definition answers (k1 : Z) (c : call) (words : list Z) (b : option Z) (v : Z) : Prop :=
  match c with
  | CSocket _ _ _ => exists id, words = [id] /\ b = None /\ v = s32 id
  | CClose _ | CBind _ _ | CConnect _ _ => words = [] /\ b = None /\ v = 0
  | CListen _ _ => words = [] /\ b = None /\ v = s32 k1
  | CAccept _ => exists id sa, words = id :: sa_words sa /\ length (sin_zero sa) = 2%nat /\ b = None /\ v = s32 id
  | CSendto _ _ _ _ _ _ => exists k, words = [k] /\ b = None /\ v = s32 k
  | CRecvfrom _ _ _ _ _ => exists sa len, words = sa_words sa /\ length (sin_zero sa) = 2%nat /\ b = Some len /\ v = wrap 22 len
  end.

Definition int_ok (x : Z) : Prop := - 2 ^ 31 <= x < 2 ^ 31.
Definition sa_ok (sa : sockaddr) : Prop := in_range 16 (sin_family sa) /\ in_range 16 (sin_port sa) /\ length (sin_zero sa) = 2%nat.
Definition call_ok (c : call) : Prop :=
  match c with
  | CSocket d t p => int_ok d /\ int_ok t /\ int_ok p
  | CClose s | CAccept s => int_ok s
  | CBind s sa | CConnect s sa => int_ok s /\ sa_ok sa
  | CListen s b => int_ok s /\ int_ok b
  | CSendto s f sa w0 b l => int_ok s /\ int_ok f /\ sa_ok sa /\ in_range 32 w0 /\ 0 <= l < 2 ^ 22
  | CRecvfrom s f _ _ _ => int_ok s /\ int_ok f
  end.

Lemma int_u32 x : int_ok x -> s32 (u32 x) = x.
Proof. intros H. apply signed_wrap; [lia | exact H]. Qed.

Lemma sa_word f p : in_range 16 f -> in_range 16 p -> bf_get 16 16 (Z.lor (Z.shiftl f 16) p) = f /\ bf_get 0 16 (Z.lor (Z.shiftl f 16) p) = p.
Proof.
  intros Hf Hp. assert (E : Z.lor (Z.shiftl f 16) p = f * 2 ^ 16 + p).
  { rewrite <- Z.shiftl_mul_pow2 by lia. rewrite <- Z.add_lor_land. assert (Z.land (Z.shiftl f 16) p = 0) as ->; [| lia]. apply Z.bits_inj'. intros i Hi. rewrite Z.land_spec, Z.bits_0.
    destruct (Z.lt_ge_cases i 16); [by rewrite Z.shiftl_spec_low | rewrite (in_range_testbit 16 p i) by (done || lia); apply andb_false_r]. }
  rewrite E. unfold bf_get, in_range in *. rewrite !Z.land_ones, !Z.shiftr_div_pow2 by lia. split.
  - rewrite Z.div_add_l, (Z.div_small p), Z.add_0_r by lia. by apply Z.mod_small.
  - change (2 ^ 0) with 1. rewrite Z.div_1_r, Z.add_comm, Z_mod_plus_full. by apply Z.mod_small.
Qed.

Lemma sa_words_back sa : sa_ok sa -> exists w z0 z1, sa_words sa = [w; sin_addr sa; z0; z1] /\ sa_of_words w (sin_addr sa) z0 z1 = sa.
Proof.
  destruct sa as [f p a z]. intros (Hf & Hp & Hz). destruct z as [|z0 [|z1 [|]]]; try discriminate Hz. exists (Z.lor (Z.shiftl f 16) p), z0, z1. split; [done |].
  unfold sa_of_words. simpl in *. destruct (sa_word f p Hf Hp) as [-> ->]. done.
Qed.

(** An item of a string has the low 22 bits of the length. *)
Lemma sitem_read w0 buf len : titem_is_string_item (sitem_simple w0 buf len false).1 = true /\ sitem_length (sitem_simple w0 buf len false).1 = wrap 22 len.
Proof.
  assert (Hl : in_range 22 (wrap 22 len)) by (apply wrap_range; lia). assert (sitem_simple w0 buf len false = sitem_simple w0 buf (wrap 22 len) false) as ->.
  { unfold sitem_simple, bf_set, wrap. by rewrite !Z.land_ones, Z.mod_mod by lia. }
  destruct (typed_items_fields w0 0 buf (wrap 22 len) false Hl) as (_ & _ & H & _). destruct (sitem_simple w0 buf (wrap 22 len) false) as [s0 s1]. naive_solver.
Qed.

Lemma calls_heard ps mr c : call_ok c -> heard (call_regs ps mr c) c.
Proof.
  destruct c as [d t p|s|s sa|s b|s|s sa|s f sa w0 b l|s f w0 b l]; intros Hc; unfold call_ok in Hc; unfold call_regs, heard.
  - destruct Hc as (Hd & Ht & Hp). refine (conj _ (conj _ (conj _ (conj _ _)))); [reflexivity | reflexivity | by apply int_u32 | by apply int_u32 | by apply int_u32].
  - refine (conj _ (conj _ _)); [reflexivity | reflexivity | by apply int_u32].
  - destruct Hc as (Hs & Hsa). destruct (sa_words_back sa) as (w & z0 & z1 & -> & Eb); [done |]. refine (conj _ (conj _ (conj _ _))); [reflexivity | reflexivity | by apply int_u32 | exact Eb].
  - destruct Hc as (Hs & Hb). refine (conj _ (conj _ (conj _ _))); [reflexivity | reflexivity | by apply int_u32 | by apply int_u32].
  - refine (conj _ (conj _ _)); [reflexivity | reflexivity | by apply int_u32].
  - destruct Hc as (Hs & Hsa). destruct (sa_words_back sa) as (w & z0 & z1 & -> & Eb); [done |]. refine (conj _ (conj _ (conj _ _))); [reflexivity | reflexivity | by apply int_u32 | exact Eb].
  - destruct Hc as (Hs & Hf & Hsa & Hw & Hl). destruct (sa_words_back sa) as (w & z0 & z1 & -> & Eb); [done |].
    refine (conj _ (conj _ (conj _ (conj _ (conj _ (conj _ _)))))); [reflexivity | reflexivity | by apply int_u32 | exact Eb | | | reflexivity].
    + by apply sitem_read.
    + etrans; [exact (proj2 (sitem_read w0 b l)) | by apply wrap_small].
  - destruct Hc as (Hs & Hf). refine (conj _ (conj _ _)); [reflexivity | reflexivity | by apply int_u32].
Qed.

(** A call sends the message [call_regs] and uses nothing else of the IPC. *)
Lemma calls_sent ps ipc mr c : run_call ps ipc mr c = run_call ps (fun _ _ => ipc (call_regs ps mr c) (call_bufs c)) mr c.
Proof. by destruct c. Qed.

Ltac run_call_unfold Hid :=
  unfold run_call, ps_socket, ps_close, ps_bind, ps_listen, ps_accept, ps_connect, ps_sendto, ps_recvfrom, simple_call, not_inited;
  rewrite Hid; cbv zeta; cbn [i_rc i_mr i_transferred].

Lemma calls_failed ps mr c r : thrid_is_nil (ps_id ps) = false -> i_rc r <> 0 -> i_rc r <> Ipc_overflow -> run_call ps (fun _ _ => r) mr c = Ok (-1).
Proof. intros Hid H0 Ho. apply Z.eqb_neq in H0, Ho. destruct c; run_call_unfold Hid; by rewrite ?H0, ?Ho. Qed.

Lemma calls_refused_error ps mr c R e : thrid_is_nil (ps_id ps) = false -> e <> 0 -> run_call ps (fun _ _ => MkIpc 0 (reply_regs R e [] None (call_buf c)) 0) mr c = Ok (-1).
Proof.
  intros Hid He. apply Z.eqb_neq in He. set (mr' := reply_regs R e [] None (call_buf c)). assert (F : has_format mr' 1 0 = true) by reflexivity. assert (E1 : (mr_at mr' 1 =? 0) = false) by exact He.
  destruct c; run_call_unfold Hid; rewrite F, E1; reflexivity.
Qed.

Lemma recvfrom_answered ps mr s f w0 buf l R sa len : thrid_is_nil (ps_id ps) = false -> length (sin_zero sa) = 2%nat ->
  run_call ps (fun _ _ => MkIpc 0 (reply_regs R 0 (sa_words sa) (Some len) buf) 0) mr (CRecvfrom s f w0 buf l) = Ok (wrap 22 len).
Proof.
  intros Hid Hz. destruct sa as [fm p a [|z0 [|z1 [|]]]]; try discriminate Hz. run_call_unfold Hid.
  set (mr' := reply_regs _ _ _ _ _). assert (F : has_format mr' 1 0 = false) by reflexivity. assert (F5 : has_format mr' 5 2 = true) by reflexivity. assert (E1 : mr_at mr' 1 = 0) by reflexivity.
  assert (E6 : mr_at mr' 6 = (sitem_simple 0 0 len false).1) by reflexivity. assert (E7 : mr_at mr' 7 = buf) by reflexivity. rewrite F, F5, E1, E6, E7, (Z.eqb_refl buf).
  destruct (sitem_read 0 0 len) as [-> ->].
  change (Ok (s32 (wrap 22 len)) = Ok (wrap 22 len)). f_equal. assert (in_range 22 (wrap 22 len)) by (apply wrap_range; lia). unfold in_range in *.
  rewrite <- (wrap_small 32 (wrap 22 len)) at 1 by (unfold in_range; lia). apply int_u32. unfold int_ok. lia.
Qed.

Lemma calls_answered ps mr c words b v : thrid_is_nil (ps_id ps) = false -> answers (ps_key1 ps) c words b v ->
  run_call ps (fun _ _ => MkIpc 0 (reply_regs (call_regs ps mr c) 0 words b (call_buf c)) 0) mr c = Ok v.
Proof.
  intros Hid. destruct c as [d t p|s|s sa|s bl|s|s sa|s f sa w0 bf l|s f w0 bf l]; unfold answers.
  - intros (id & -> & -> & ->). run_call_unfold Hid. reflexivity.
  - intros (-> & -> & ->). run_call_unfold Hid. reflexivity.
  - intros (-> & -> & ->). run_call_unfold Hid. reflexivity.
  - intros (-> & -> & ->). run_call_unfold Hid. reflexivity.
  - intros (id & sa & -> & Hz & -> & ->). destruct sa as [f p a [|z0 [|z1 [|]]]]; try discriminate Hz. run_call_unfold Hid. reflexivity.
  - intros (-> & -> & ->). run_call_unfold Hid. reflexivity.
  - intros (k & -> & -> & ->). run_call_unfold Hid. reflexivity.
  - intros (sa & len & -> & Hz & -> & ->). by apply recvfrom_answered.
Qed.




(** ** Addresses read back *)

Section Aton.
Implicit Types (ds : list Z).

(** The decimal digits of a byte, and numbers with dots between them. *)
Definition dec (b : Z) : list Z :=
  if b <? 10 then [48 + b] else if b <? 100 then [48 + b / 10; 48 + b mod 10] else [48 + b / 100; 48 + b / 10 mod 10; 48 + b mod 10].
Fixpoint dotted ds : list Z :=
  match ds with [] => [] | [d] => dec d ++ [0] | d :: t => dec d ++ 46 :: dotted t end.

Lemma inet_aton_digit d t bytes id byte : 0 <= d <= 9 -> (byte = -1 \/ 0 <= byte) ->
  let byte' := if byte =? -1 then d else byte * 10 + d in byte' <= 255 -> inet_aton (48 + d :: t) bytes id byte = inet_aton t bytes id byte'.
Proof.
  intros Hd Hb byte' Hb'. simpl. replace (48 + d =? 46) with false by (symmetry; apply Z.eqb_neq; lia). replace (48 + d =? 0) with false by (symmetry; apply Z.eqb_neq; lia).
  replace (48 <=? 48 + d) with true by (symmetry; apply Z.leb_le; lia). replace (48 + d <=? 57) with true by (symmetry; apply Z.leb_le; lia). simpl.
  replace (48 + d - 48) with d by lia. fold byte'. by replace (255 <? byte') with false by (symmetry; apply Z.ltb_ge; lia).
Qed.

Lemma inet_aton_dec b t bytes id : 0 <= b <= 255 -> inet_aton (dec b ++ t) bytes id (-1) = inet_aton t bytes id b.
Proof.
  intros Hb. unfold dec. destruct (Z.ltb_spec b 10); [| destruct (Z.ltb_spec b 100)]; cbn [app].
  - rewrite inet_aton_digit by (simpl; lia). done.
  - pose proof (Z.div_mod b 10). pose proof (Z.mod_pos_bound b 10). rewrite inet_aton_digit by (simpl; lia). change (-1 =? -1) with true. cbv iota.
    assert (E : (b / 10 =? -1) = false) by (apply Z.eqb_neq; lia). rewrite inet_aton_digit by (rewrite ?E; lia). rewrite E. f_equal. lia.
  - pose proof (Z.div_mod b 10). pose proof (Z.mod_pos_bound b 10). pose proof (Z.div_mod (b / 10) 10). pose proof (Z.mod_pos_bound (b / 10) 10).
    assert (Ed : b / 100 = b / 10 / 10) by (rewrite Z.div_div by lia; done). rewrite inet_aton_digit by (simpl; lia). change (-1 =? -1) with true. cbv iota.
    assert (E : (b / 100 =? -1) = false) by (apply Z.eqb_neq; lia). rewrite inet_aton_digit by (rewrite ?E; lia). rewrite E.
    assert (E' : (b / 100 * 10 + b / 10 mod 10 =? -1) = false) by (apply Z.eqb_neq; lia). rewrite inet_aton_digit by (rewrite ?E'; lia). rewrite E'. f_equal. lia.
Qed.

Lemma inet_aton_sep b ch t bytes id : 0 <= b <= 255 -> id <> 4%nat -> ch = 46 \/ ch = 0 ->
  inet_aton (dec b ++ ch :: t) bytes id (-1) = if ch =? 0 then (1, <[id := b]> bytes) else inet_aton t (<[id := b]> bytes) (S id) (-1).
Proof.
  intros Hb Hid Hch. rewrite inet_aton_dec by done. simpl. replace ((ch =? 46) || (ch =? 0)) with true by (by destruct Hch as [-> | ->]).
  replace (b =? -1) with false by (symmetry; apply Z.eqb_neq; lia). destruct (Nat.eqb_spec id 4); [done |].
  replace (u8 b) with b by (symmetry; apply (wrap_small 8); unfold in_range; lia). done.
Qed.

(** inet_aton() accepts one to four numbers; where there are less than four the
    last bytes of the address are not written. *)
Lemma inet_aton_dotted ds : forall bytes id, ds <> [] -> Forall (fun b => 0 <= b <= 255) ds -> (id + length ds <= 4)%nat ->
  inet_aton (dotted ds) bytes id (-1) = (1, list_inserts id ds bytes).
Proof.
  induction ds as [|d t IH]; intros bytes id Hne Hd Hl; [done |]. apply Forall_cons in Hd as [Hd Ht]. simpl in Hl. destruct t as [|d' t].
  - change (dotted [d]) with (dec d ++ [0]). rewrite inet_aton_sep by (done || lia || by right). done.
  - change (dotted (d :: d' :: t)) with (dec d ++ 46 :: dotted (d' :: t)). rewrite inet_aton_sep by (done || lia || by left). change (46 =? 0) with false. cbv iota.
    rewrite IH by (done || simpl in *; lia). f_equal. change (list_inserts id (d :: d' :: t) bytes) with (<[id := d]> (list_inserts (S id) (d' :: t) bytes)). by rewrite list_insert_inserts_lt by lia.
Qed.

(** The address of four numbers is the word of their bytes; the loopback net
    written with two numbers has two bytes of the old contents. *)
Lemma inet_addr_dotted a b c d junk : Forall (fun x => 0 <= x <= 255) [a; b; c; d] -> length junk = 4%nat -> inet_addr (dotted [a; b; c; d]) junk = be_word [a; b; c; d].
Proof.
  intros H Hj. destruct junk as [|j0 [|j1 [|j2 [|j3 [|]]]]]; try discriminate Hj. unfold inet_addr. rewrite inet_aton_dotted by (done || simpl; lia). reflexivity.
Qed.

Example inet_addr_short : inet_addr (dotted [127; 1]) [9; 9; 9; 9] = be_word [127; 1; 9; 9].
Proof. reflexivity. Qed.

(** inet_ntoa() of an address writes the string that inet_aton() reads. *)
Definition ntoa_mem : mem := list_to_map (imap (fun i ch => (Z.of_nat i, ch)) [37; 117; 46; 37; 117; 46; 37; 117; 46; 37; 117; 0] ++ ((fun i => (100 + i, 7)) <$> seqZ 0 64)).
Example inet_ntoa_back :
  match inet_ntoa no_float 20 100 0 1 [192; 168; 0; 7] ntoa_mem with
  | Ok (str, id, m) => str = 132 /\ id = 0 /\ (fun i => default 7 (m !! (str + i))) <$> seqZ 0 12 = dotted [192; 168; 0; 7]
  | Stop _ => False
  end.
Proof. vm_compute. repeat split. Qed.
End Aton.
