(* ===== verification/PsocketSpec.v ===== *)
(** The client library of sockets ([Psocket]) over the server ([NetClient]):
    the replies that the server sends while it serves the message of a call are
    replies the call understands. *)

From Stdlib Require Import ZArith Lia Bool.
From stdpp Require Import base list numbers gmap.
From S2P Require Import Prelude SysUtils ListSpec L4Types CString Packets Sockets NetStack NetClient NetFrame NetSpec TcpSpec NetTables NetRuns Psocket.

Implicit Types (n : net) (c : call).

Definition len_of (b : option (list Z)) : option Z := (fun l => Z.of_nat (length l)) <$> b.

(** A reply that refuses the request or that the call understands. *)
Definition well_answered (k1 : Z) c (e : Z) (w : list Z) (b : option (list Z)) : Prop :=
  (e <> 0 /\ w = [] /\ b = None) \/ (e = 0 /\ exists v, answers k1 c w (len_of b) v).
Definition ev_ok (k1 : Z) c (e : event) : Prop := match e with EvTx _ => True | EvReply _ e w b => well_answered k1 c e w b end.
(** What a handler adds to the events. *)
Definition shaped (k1 : Z) c n n' : Prop := exists l, events n' = events n ++ l /\ Forall (ev_ok k1 c) l.

(** The senders of the packets that wait in the queues have whole addresses. *)
Definition packets_ok n : Prop := forall it u pk, find_it it (busy (udp_sockets n)) = Some u -> pk ∈ u_pkts u -> length (sin_zero (p_saddr pk)) = 2%nat.

Section Shaped.
Context {EV : NetEnv} (k1 : Z) (c : call).

Lemma shaped_same n n' : events n' = events n -> shaped k1 c n n'.
Proof. intros E. exists []. by rewrite E, app_nil_r. Qed.
Lemma shaped_one n e : ev_ok k1 c e -> shaped k1 c n (add_event n e).
Proof. intros H. exists [e]. split; [done |]. by apply Forall_singleton. Qed.

#[export] Instance shaped_calm : Calm (shaped k1 c).
Proof.
  split; [split | ..]; [by intros n; apply shaped_same | | by intros; apply shaped_same | by intros; apply shaped_one | by intros; apply shaped_same..].
  intros n1 n2 n3 (l1 & E1 & F1) (l2 & E2 & F2). exists (l1 ++ l2). split; [by rewrite E2, E1, app_assoc | by apply Forall_app].
Qed.

Lemma via_shaped_upd f : (forall n, events (f n) = events n) -> via (shaped k1 c) (upd f).
Proof. intros H. apply via_upd. intros n. by apply shaped_same. Qed.
Lemma via_shaped_reply_to_client cli e w b : well_answered k1 c e w b -> via (shaped k1 c) (reply_to_client cli e w b).
Proof. intros H. unfold reply_to_client. via_step; [via_tac |]. via_step; [apply via_upd; intros; by apply shaped_one |]. via_tac. Qed.
Lemma via_shaped_reply_err cli e : e <> 0 -> via (shaped k1 c) (reply cli e).
Proof. intros H. unfold reply. via_tac. apply via_shaped_reply_to_client. by left. Qed.
Lemma via_shaped_refuse cli e : e <> 0 -> via (shaped k1 c) (refuse cli e).
Proof. intros H. unfold refuse. via_step; [by apply via_shaped_reply_err | via_tac]. Qed.
Lemma via_shaped_reply cli : answers k1 c [] None 0 \/ answers k1 c [] None (s32 k1) -> via (shaped k1 c) (reply cli 0).
Proof. intros H. unfold reply. via_step; [| via_tac]. apply via_shaped_reply_to_client. right. split; [done |]. destruct H; eauto. Qed.
Lemma shaped_any r : quiet_any (shaped k1 c) r.
Proof. destruct r; intros ??; by apply shaped_same. Qed.
Lemma shaped_sock r : quiet_sock (shaped k1 c) r.
Proof. apply quiet_any_sock, shaped_any. Qed.
Lemma shaped_tcp it : quiet_tcp (shaped k1 c) it.
Proof. intros ??; by apply shaped_same. Qed.
Lemma shaped_udp it : quiet_udp (shaped k1 c) it.
Proof. intros ??; by apply shaped_same. Qed.
Lemma shaped_str p : quiet_str (shaped k1 c) p.
Proof. intros ??; by apply shaped_same. Qed.
Lemma via_shaped_bind_if_need r a : via (shaped k1 c) (bind_if_need r a).
Proof. apply via_bind_if_need; [typeclasses eauto | apply shaped_any | by intros; apply shaped_same | by intros; apply shaped_same]. Qed.
End Shaped.

#[export] Hint Resolve via_shaped_upd via_shaped_refuse via_shaped_reply_err via_shaped_reply shaped_any shaped_sock shaped_tcp shaped_udp shaped_str via_shaped_bind_if_need : via.
#[export] Hint Extern 1 (_ <> _) => lia : via.
#[export] Hint Extern 1 (forall n, events _ = events n) => (intros; reflexivity) : via.
#[export] Hint Extern 1 (answers _ _ _ _ _ \/ _) => (first [left; repeat split; fail | right; repeat split; fail | left; repeat split; done | right; repeat split; done]) : via.

Section Served.
Context {EV : NetEnv} (k1 : Z).

Lemma socket_shaped d t p tag mr cli : via (shaped k1 (CSocket d t p)) (process_cli_socket tag mr cli).
Proof. unfold process_cli_socket. via_tac; (apply via_shaped_reply_to_client; right; split; [done | eexists; eexists; done]). Qed.
Lemma bind_shaped s sa tag mr cli : via (shaped k1 (CBind s sa)) (process_cli_bind tag mr cli).
Proof. unfold process_cli_bind. via_tac. Qed.
Lemma listen_shaped s b tag mr cli : via (shaped k1 (CListen s b)) (process_cli_listen tag mr cli).
Proof. unfold process_cli_listen. via_tac. Qed.

Lemma remove_socket_shaped c it o : via (shaped k1 c) (remove_socket it o).
Proof. unfold remove_socket. via_tac. Qed.
Hint Resolve remove_socket_shaped : via.
Lemma close_shaped s tag mr cli : via (shaped k1 (CClose s)) (process_cli_close tag mr cli).
Proof. unfold process_cli_close, process_cli_close_tcp. via_tac. Qed.
Lemma accept_shaped s tag mr cli : via (shaped k1 (CAccept s)) (process_cli_accept tag mr cli).
Proof.
  unfold process_cli_accept, accept_connected_stream. via_tac. apply via_shaped_reply_to_client. right. split; [done |]. do 3 eexists. split; [reflexivity | done].
Qed.
Lemma connect_shaped s sa tag mr cli : via (shaped k1 (CConnect s sa)) (process_cli_connect tag mr cli).
Proof. unfold process_cli_connect. via_tac. Qed.
Lemma sendto_shaped s f sa w0 b l tag mr cli fr : via (shaped k1 (CSendto s f sa w0 b l)) (process_cli_sendto tag mr cli fr).
Proof.
  unfold process_cli_sendto, process_cli_sendto_udp, process_cli_sendto_tcp.
  via_tac; (apply via_shaped_reply_to_client; right; split; [done | by do 2 eexists]).
Qed.

Lemma recv_answered s f w0 b l sa bf : length (sin_zero sa) = 2%nat -> well_answered k1 (CRecvfrom s f w0 b l) 0 (sa_words sa) (Some bf).
Proof. intros H. right. split; [done |]. do 3 eexists. repeat split. done. Qed.
Lemma recvfrom_tcp_shaped s f w0 b l it cli : via (shaped k1 (CRecvfrom s f w0 b l)) (process_cli_recvfrom_tcp it cli).
Proof. unfold process_cli_recvfrom_tcp, deliver. via_tac; apply via_shaped_reply_to_client, recv_answered; done. Qed.
Hint Resolve recvfrom_tcp_shaped : via.
Lemma recvfrom_shaped s f w0 b l tag mr cli n x n' : packets_ok n -> process_cli_recvfrom tag mr cli n = Ok (x, n') -> shaped k1 (CRecvfrom s f w0 b l) n n'.
Proof.
  intros Hp. unfold process_cli_recvfrom. destruct (wrong_format tag 5 0); [apply via_shaped_refuse; lia |]. intros (o & n1 & E1 & H)%nbind_Ok.
  assert (n1 = n) as -> by (unfold find_any in E1; by repeat nstep). destruct o as [r|]; [| by eapply via_shaped_refuse, H].
  apply nbind_Ok in H as (so & n1 & [_ ->]%get_sock_Ok & H). destruct (negb (is_owner so cli)); [by eapply via_shaped_refuse, H |].
  destruct (negb (is_cli_state_idle so)); [by eapply via_shaped_refuse, H |]. destruct r as [it|it].
  - destruct (negb (so_net_state so =? Udp_net_idle)); [by eapply via_shaped_refuse, H |]. apply nbind_Ok in H as (u & n1 & [Eu ->]%get_udp_Ok & H).
    destruct (get_received_packet u) as [pk|] eqn:Epk.
    + assert (Hz : length (sin_zero (p_saddr pk)) = 2%nat) by (apply (Hp it u); [done |]; unfold get_received_packet in Epk; by apply head_Some_elem_of).
      revert H. match goal with |- ?m n = _ -> _ => enough (V : via (shaped k1 (CRecvfrom s f w0 b l)) m) by apply V end. via_tac. by apply via_shaped_reply_to_client, recv_answered.
    + revert H. match goal with |- ?m n = _ -> _ => enough (V : via (shaped k1 (CRecvfrom s f w0 b l)) m) by apply V end. via_tac.
  - revert H. match goal with |- ?m n = _ -> _ => enough (V : via (shaped k1 (CRecvfrom s f w0 b l)) m) by apply V end. via_tac.
Qed.
End Served.

Lemma request_shaped {EV : NetEnv} ps mr c cli fr n x n' : packets_ok n ->
  process_client_request (mr_at (call_regs ps mr c) 0) (call_regs ps mr c) cli fr n = Ok (x, n') -> shaped (ps_key1 ps) c n n'.
Proof.
  intros Hp. unfold process_client_request.
  assert (E : mr_at (call_regs ps mr c) 3 = match c with CSocket _ _ _ => Socket_create | CClose _ => Socket_close | CBind _ _ => Socket_bind | CListen _ _ => Socket_listen
    | CAccept _ => Socket_accept | CConnect _ _ => Socket_connect | CSendto _ _ _ _ _ _ => Socket_sendto | CRecvfrom _ _ _ _ _ => Socket_recvfrom end) by (by destruct c).
  rewrite E. clear E. generalize (call_regs ps mr c). intros R. destruct c; simpl; intros H.
  - by eapply socket_shaped, H.
  - by eapply close_shaped, H.
  - by eapply bind_shaped, H.
  - by eapply listen_shaped, H.
  - by eapply accept_shaped, H.
  - by eapply connect_shaped, H.
  - by eapply sendto_shaped, H.
  - by eapply recvfrom_shaped, H.
Qed.


Definition ex_ps : psocket := MkPs 7 9 (Z.lor (Z.shiftl 70 14) 1).
Definition ex_served (R : list Z) : net := match @process_client_request ex_env (mr_at R 0) R 5 0x1000 (new_net 4 1) with Ok (_, n') => n' | Stop _ => new_net 4 1 end.

