(* ===== verification/AppMgr.v ===== *)
(** lib/wrmos/src/app.cpp: the application manager of the root task: the
    threads of an application, its memory regions and their locations, and the
    C interface on the list of applications.

    The state [rt] has the static data of the root task; [R] is the monad of
    its handlers.  Calls of the kernel, copies of memory and entries of the
    debugger are recorded as [events]; the class [RtEnv] has the results of the
    kernel calls, which may depend on everything that happened before.  The
    list of regions takes the memory for its items from the page pool.
    Logging is left out, and the mutex of the pool, which the only thread of the
    root task always gets. *)

From Stdlib Require Import ZArith Lia Bool.
From stdpp Require Import base list numbers.
From S2P Require Import Prelude SysUtils ListSpec L4Types CString PagePool.

(** ** Threads of an application *)

Definition Wrm_thr_state_free : Z := 1.
Definition Wrm_thr_state_busy : Z := 2.
Definition Wrm_thr_state_done : Z := 3.

Record thr := MkThr { th_state : Z; th_code : Z; th_utcb : Z; th_stack : Z; th_stack_sz : Z }.
Definition with_th_state (t : thr) (s : Z) : thr := MkThr s (th_code t) (th_utcb t) (th_stack t) (th_stack_sz t).
Definition with_th_code (t : thr) (c s : Z) : thr := MkThr s c (th_utcb t) (th_stack t) (th_stack_sz t).

(** The array of 32 threads and the number of those in use. *)
Record thrs := MkThrs { thr_tab : list thr; thr_max : Z }.
Definition Thrs_size : Z := 32.

Definition thrs_max (ts : thrs) (threads_max : Z) : res thrs :=
  _ ← wassert (threads_max <=? Thrs_size);
  Ok (MkThrs (imap (fun i t => if Z.of_nat i <? threads_max then with_th_state t Wrm_thr_state_free else t) (thr_tab ts)) threads_max).

(** The index of the first free thread, -1 if there is none. *)
Fixpoint thrs_alloc_loop (l : list thr) (i : Z) (n : nat) (utcb stack sz : Z) : Z * list thr :=
  match n, l with
  | S n, t :: l =>
      if th_state t =? Wrm_thr_state_free then (i, MkThr Wrm_thr_state_busy (th_code t) utcb stack sz :: l)
      else let r := thrs_alloc_loop l (i + 1) n utcb stack sz in (r.1, t :: r.2)
  | _, _ => (-1, l)
  end.
Definition thrs_alloc (ts : thrs) (utcb stack sz : Z) : Z * thrs :=
  let r := thrs_alloc_loop (thr_tab ts) 0 (Z.to_nat (thr_max ts)) utcb stack sz in (r.1, MkThrs r.2 (thr_max ts)).

Definition thr_at (ts : thrs) (i : Z) : res thr := from_opt FMem (thr_tab ts !! Z.to_nat i).
Definition thr_put (ts : thrs) (i : Z) (t : thr) : thrs := MkThrs (<[Z.to_nat i := t]> (thr_tab ts)) (thr_max ts).

Definition thrs_state (ts : thrs) (i : Z) : res Z :=
  if thr_max ts <=? i then Ok (-1) else t ← thr_at ts i; Ok (th_state t).
Definition thrs_terminate (ts : thrs) (i code : Z) : res (Z * thrs) :=
  if thr_max ts <=? i then Ok (-1, ts)
  else
    t ← thr_at ts i;
    if negb (th_state t =? Wrm_thr_state_busy) then Ok (-2, ts)
    else Ok (0, thr_put ts i (with_th_code t code Wrm_thr_state_done)).
(** The UTCB, the stack and the code that free() passes back. *)
Definition thrs_free (ts : thrs) (i : Z) : res (Z * option thr * thrs) :=
  if thr_max ts <=? i then Ok (-1, None, ts)
  else
    t ← thr_at ts i;
    if negb (th_state t =? Wrm_thr_state_done) then Ok (-2, None, ts)
    else Ok (0, Some t, thr_put ts i (with_th_state t Wrm_thr_state_free)).

(** ** Applications *)

Record region := MkRg { r_remote : Z; r_sz : Z; r_acc : Z; r_local : Z; r_origin : Z }.
Definition r_end (r : region) : Z := u32 (r_remote r + r_sz r).
Definition need_relocate (r : region) : bool := negb (Z.land (r_acc r) Acc_w =? 0).
Definition with_local (r : region) (v : Z) : region := MkRg (r_remote r) (r_sz r) (r_acc r) v (r_origin r).
Definition with_origin (r : region) (v : Z) : region := MkRg (r_remote r) (r_sz r) (r_acc r) (r_local r) v.

Record app := MkApp {
  ap_regions : alist region; ap_owner : Z; ap_entry : Z; ap_stack_ua : Z; ap_stack_sz : Z; ap_sp : Z;
  ap_kip : Z; ap_utcb : Z; ap_name : Z; ap_max_aspaces : Z; ap_aspaces_in_use : Z; ap_threads : thrs;
  ap_max_prio : Z; ap_fpu : bool; ap_strategy : Z }.
Definition with_regions (a : app) (v : alist region) : app :=
  MkApp v (ap_owner a) (ap_entry a) (ap_stack_ua a) (ap_stack_sz a) (ap_sp a) (ap_kip a) (ap_utcb a) (ap_name a) (ap_max_aspaces a) (ap_aspaces_in_use a) (ap_threads a) (ap_max_prio a) (ap_fpu a) (ap_strategy a).
Definition with_in_use (a : app) (v : Z) : app :=
  MkApp (ap_regions a) (ap_owner a) (ap_entry a) (ap_stack_ua a) (ap_stack_sz a) (ap_sp a) (ap_kip a) (ap_utcb a) (ap_name a) (ap_max_aspaces a) v (ap_threads a) (ap_max_prio a) (ap_fpu a) (ap_strategy a).
Definition with_threads (a : app) (v : thrs) : app :=
  MkApp (ap_regions a) (ap_owner a) (ap_entry a) (ap_stack_ua a) (ap_stack_sz a) (ap_sp a) (ap_kip a) (ap_utcb a) (ap_name a) (ap_max_aspaces a) (ap_aspaces_in_use a) v (ap_max_prio a) (ap_fpu a) (ap_strategy a).
Definition with_stack (a : app) (ua sz sp : Z) : app :=
  MkApp (ap_regions a) (ap_owner a) (ap_entry a) ua sz sp (ap_kip a) (ap_utcb a) (ap_name a) (ap_max_aspaces a) (ap_aspaces_in_use a) (ap_threads a) (ap_max_prio a) (ap_fpu a) (ap_strategy a).
Definition with_areas (a : app) (entry kip utcb : Z) : app :=
  MkApp (ap_regions a) (ap_owner a) entry (ap_stack_ua a) (ap_stack_sz a) (ap_sp a) kip utcb (ap_name a) (ap_max_aspaces a) (ap_aspaces_in_use a) (ap_threads a) (ap_max_prio a) (ap_fpu a) (ap_strategy a).
Definition with_config (a : app) (name aspaces : Z) (ts : thrs) (prio : Z) (fpu : bool) (strategy : Z) : app :=
  MkApp (ap_regions a) (ap_owner a) (ap_entry a) (ap_stack_ua a) (ap_stack_sz a) (ap_sp a) (ap_kip a) (ap_utcb a) name aspaces (ap_aspaces_in_use a) ts prio fpu strategy.

Definition alloc_aspace (a : app) : bool * app :=
  if ap_max_aspaces a <? u32 (ap_aspaces_in_use a + 1) then (false, a) else (true, with_in_use a (u32 (ap_aspaces_in_use a + 1))).
Definition free_aspace (a : app) : bool * app :=
  if u32 (ap_aspaces_in_use a - 1) =? 0 then (false, a) else (true, with_in_use a (u32 (ap_aspaces_in_use a - 1))).

Definition owner_no (a : app) : Z := thrid_number (ap_owner a).
Definition thr_end (a : app) : Z := u32 (owner_no a + thr_max (ap_threads a)).
Definition own_thread (a : app) (thrno : Z) : bool := (owner_no a <=? thrno) && (thrno <? thr_end a).

Definition thread_alloc (a : app) (utcb stack sz : Z) : res (Z * app) :=
  _ ← wassert (negb (fpage_is_nil utcb));
  _ ← wassert (negb (stack =? 0));
  _ ← wassert (negb (sz =? 0));
  let r := thrs_alloc (ap_threads a) utcb stack sz in
  Ok (if r.1 <? 0 then r.1 else r.1 + owner_no a, with_threads a r.2).
Definition thread_state (a : app) (thrno : Z) : res Z := _ ← wassert (own_thread a thrno); thrs_state (ap_threads a) (u32 (thrno - owner_no a)).
Definition thread_terminate (a : app) (thrno code : Z) : res (Z * app) :=
  _ ← wassert (own_thread a thrno);
  r ← thrs_terminate (ap_threads a) (u32 (thrno - owner_no a)) code;
  Ok (r.1, with_threads a r.2).
Definition thread_free (a : app) (thrno : Z) : res (Z * option thr * app) :=
  _ ← wassert (own_thread a thrno);
  r ← thrs_free (ap_threads a) (u32 (thrno - owner_no a));
  Ok (r.1, with_threads a r.2).
Definition thread_numbers (a : app) : Z * Z := (owner_no a, thr_end a).

(** ** The root task *)

(** Names are the characters of a string, without its end. *)
Record app_cfg := MkCfg {
  c_name : list Z; c_short_name : Z; c_filename : list Z; c_stack_sz : Z; c_heap_sz : Z; c_max_aspaces : Z; c_max_threads : Z;
  c_max_prio : Z; c_fpu : bool; c_strategy : Z; c_devs : list (list Z); c_mems : list (list Z); c_args : list (list Z) }.
Definition with_heap (c : app_cfg) (v : Z) : app_cfg :=
  MkCfg (c_name c) (c_short_name c) (c_filename c) (c_stack_sz c) v (c_max_aspaces c) (c_max_threads c) (c_max_prio c) (c_fpu c) (c_strategy c) (c_devs c) (c_mems c) (c_args c).

Record mem_cfg := MkMem { m_name : list Z; m_sz : Z; m_access : Z; m_cached : bool; m_contig : bool }.
Record nregion := MkNreg { nr_region : mem_cfg; nr_locations : list Z }.
Record nthread := MkNthr { nt_name : list Z; nt_id : Z; nt_key0 : Z; nt_key1 : Z }.

Inductive aev :=
  | EvSend (to : Z) (mr : list Z)
  | EvThread (dst space sched pager utcb : Z)
  | EvSchedule (dst prio : Z)
  | EvSpace (dst control kip utcbs redirector : Z)
  | EvAttr (page attr : Z)
  | EvClock
  | EvCopy (dst src n : Z)
  | EvStore (a : Z) (bytes : list Z)
  | EvKdb.

Record rt := MkRt { rt_pool : ppool; rt_apps : alist app; rt_cfgs : list app_cfg; rt_named : alist nregion; rt_nthr : alist nthread; rt_events : list aev }.
Definition set_pool (s : rt) (v : ppool) : rt := MkRt v (rt_apps s) (rt_cfgs s) (rt_named s) (rt_nthr s) (rt_events s).
Definition set_apps (s : rt) (v : alist app) : rt := MkRt (rt_pool s) v (rt_cfgs s) (rt_named s) (rt_nthr s) (rt_events s).
Definition set_cfgs (s : rt) (v : list app_cfg) : rt := MkRt (rt_pool s) (rt_apps s) v (rt_named s) (rt_nthr s) (rt_events s).
Definition set_named (s : rt) (v : alist nregion) : rt := MkRt (rt_pool s) (rt_apps s) (rt_cfgs s) v (rt_nthr s) (rt_events s).
Definition set_nthr (s : rt) (v : alist nthread) : rt := MkRt (rt_pool s) (rt_apps s) (rt_cfgs s) (rt_named s) v (rt_events s).
Definition log_ev (s : rt) (e : aev) : rt := MkRt (rt_pool s) (rt_apps s) (rt_cfgs s) (rt_named s) (rt_nthr s) (rt_events s ++ [e]).

Definition R (A : Type) : Type := rt -> res (A * rt).
#[export] Instance R_ret : MRet R := fun A a s => Ok (a, s).
#[export] Instance R_bind : MBind R := fun A B f m s => match m s with Ok (a, s') => f a s' | Stop e => Stop e end.
Definition rget {A} (f : rt -> A) : R A := fun s => Ok (f s, s).
Definition rupd (f : rt -> rt) : R unit := fun s => Ok (tt, f s).
Definition rlift {A} (r : res A) : R A := fun s => match r with Ok a => Ok (a, s) | Stop e => Stop e end.
Definition rassert (b : bool) : R unit := rlift (wassert b).
Definition rpanic {A} : R A := fun _ => Stop FPanic.
Definition kdb : R unit := rupd (fun s => log_ev s EvKdb).

(** The callbacks of elf_foreach(): section headers (address, size, rights,
    whether it has bits) and program headers (address, size, location in
    memory, whether it is loaded), in their order. *)
Inductive elf_cb := Shdr (addr sz access : Z) (bits : bool) | Phdr (vaddr sz location : Z) (load : bool).
Record elf := MkElf { e_rc : Z; e_cbs : list elf_cb; e_entry : Z }.

(** The kernel, the file system and the kernel interface page; [junk]: the contents of an uninitialised flex page or item. *)
Class RtEnv := {
  krn : list aev -> aev -> Z;
  ramfs_get_file : list Z -> option elf;
  user_base : Z;
  alpha_id : Z;
  junk : Z }.

Section Manager.
Context `{!RtEnv}.

(** A call of the kernel with its result. *)
Definition call_krn (e : aev) : R Z := l ← rget rt_events; _ ← rupd (fun s => log_ev s e); mret (krn l e).
Definition effect (e : aev) : R unit := rupd (fun s => log_ev s e).

Definition wrm_pgpool_alloc (sz : Z) : R Z := p ← rget rt_pool; r ← rlift (pg_alloc p sz); _ ← rupd (fun s => set_pool s r.2); mret r.1.
Definition wrm_pgpool_add (fpage : Z) : R unit := p ← rget rt_pool; p ← rlift (pg_add p fpage); rupd (fun s => set_pool s p).

Definition get_app (it : Z) : R app := A ← rget rt_apps; rlift (deref A it).
Definition put_app (it : Z) (a : app) : R unit := rupd (fun s => set_apps s (store (rt_apps s) it a)).

(** *** Regions *)

Definition reg_fits (va sz acc : Z) (r : region) : bool := (r_remote r <=? va) && (u32 (va + sz) <=? r_end r) && (acc =? Z.land acc (r_acc r)).
(** The iterator of the first region that contains the range, 0 if there is none. *)
Fixpoint reg_find (va sz acc : Z) (l : list (Z * region)) : Z :=
  match l with [] => 0 | (it, r) :: t => if reg_fits va sz acc r then it else reg_find va sz acc t end.

Definition Region_item_sz : Z := 28.
Definition region_list_malloc (p : ppool) (sz_req : Z) : res (Z * Z * ppool) :=
  r ← pg_alloc p (round_up sz_req Cfg_page_sz);
  _ ← wassert (negb (fpage_is_nil r.1));
  Ok (fpage_addr r.1, fpage_size r.1, r.2).
Definition mem_items (base sz item : Z) : list Z := (fun i => base + item * Z.of_nat i) <$> seq 0 (Z.to_nat (sz / item)).
(** check_for_alloc(): a list without free items takes a page. *)
Definition grow_regions (p : ppool) (A : alist region) : res (ppool * alist region) :=
  match free A with
  | [] =>
      m ← region_list_malloc p Region_item_sz;
      if m.1.1 =? 0 then Stop FPanic else Ok (m.2, MkA (busy A) (mem_items m.1.1 m.1.2 Region_item_sz))
  | _ => Ok (p, A)
  end.
Definition push_region (x : ppool * alist region) (r : region) : res (ppool * alist region) :=
  x ← grow_regions x.1 x.2;
  A ← push_back x.2 r;
  Ok (x.1, A).

Definition split_to_smaller_regions (x : ppool * alist region) (reg va sz : Z) : res (Z * (ppool * alist region)) :=
  r ← deref x.2 reg;
  let sz_before := u32 (round_pg_down va - r_remote r) in
  let tails_in_common_pg := round_pg_down (u32 (va + sz - 1)) =? round_pg_down (u32 (r_end r - 1)) in
  let sz_after := if tails_in_common_pg then 0 else u32 (r_end r - round_pg_up (u32 (va + sz))) in
  let sz_middle := u32 (r_sz r - sz_before - sz_after) in
  let origin := fun off => if r_origin r =? 0 then 0 else u32 (r_origin r + off) in
  _ ← wassert (u32 (sz_before + sz_middle + sz_after) =? r_sz r);
  x ← (if negb (sz_before =? 0) then push_region x (MkRg (r_remote r) sz_before (r_acc r) (r_local r) (r_origin r)) else Ok x);
  x ← push_region x (MkRg (u32 (r_remote r + sz_before)) sz_middle (r_acc r) (r_local r) (origin sz_before));
  let new_reg := last x.2 in
  x ← (if negb (sz_after =? 0) then push_region x (MkRg (u32 (r_remote r + sz_before + sz_middle)) sz_after (r_acc r) (r_local r) (origin (sz_before + sz_middle))) else Ok x);
  e ← erase x.2 reg;
  n ← deref e.2 new_reg;
  _ ← wassert (r_remote n =? round_pg_down va);
  Ok (new_reg, (x.1, e.2)).

(** The regions of the application [it], with the page pool. *)
Definition on_regions {A} (it : Z) (f : ppool * alist region -> res (A * (ppool * alist region))) : R A :=
  a ← get_app it;
  p ← rget rt_pool;
  r ← rlift (f (p, ap_regions a));
  _ ← rupd (fun s => set_pool s r.2.1);
  _ ← put_app it (with_regions a r.2.2);
  mret r.1.
Definition get_reg (it reg : Z) : R region := a ← get_app it; rlift (deref (ap_regions a) reg).
Definition put_reg (it reg : Z) (r : region) : R unit := a ← get_app it; put_app it (with_regions a (store (ap_regions a) reg r)).

(** The local address of a remote one, 0 if there is none; memory is taken
    from the pool when a region is used for the first time. *)
Definition locate (it reg va sz : Z) : R Z :=
  r ← get_reg it reg;
  if negb (r_local r =? 0) then mret reg
  else
    reg ← (if sz <? r_sz r then on_regions it (fun x => split_to_smaller_regions x reg va sz) else mret reg);
    r ← get_reg it reg;
    fp ← wrm_pgpool_alloc (round_pg_up (r_sz r));
    _ ← rassert (negb (fpage_is_nil fp));
    _ ← put_reg it reg (with_local r (fpage_addr fp));
    _ ← (if negb (r_origin r =? 0) then effect (EvCopy (round_pg_down (fpage_addr fp)) (round_pg_down (r_origin r)) (round_pg_up (r_sz r))) else mret tt);
    mret reg.
Definition get_location (it va sz acc : Z) : R (Z * option Z) :=
  a ← get_app it;
  let reg := reg_find va sz acc (busy (ap_regions a)) in
  if reg =? 0 then mret (0, None)
  else
    r ← get_reg it reg;
    _ ← rassert ((r_remote r <=? va) && (u32 (va + sz) <=? r_end r));
    reg ← locate it reg va sz;
    r ← get_reg it reg;
    _ ← rassert (negb (r_local r =? 0));
    mret (u32 (r_local r + u32 (va - r_remote r)), Some (r_acc r)).

Definition push_reg (it : Z) (r : region) : R unit := on_regions it (fun x => x ← push_region x r; Ok (tt, x)).

Definition add_vspace (it va sz acc : Z) : R unit :=
  _ ← rassert (negb (va =? 0));
  _ ← rassert (negb (acc =? 0));
  if sz =? 0 then mret tt
  else
    a ← get_app it;
    _ ← (if negb (reg_find va sz 0 (busy (ap_regions a)) =? 0) then kdb else mret tt);
    push_reg it (MkRg va sz acc 0 0).
Definition add_vspace_fpage (it fp : Z) : R unit := add_vspace it (fpage_addr fp) (fpage_size fp) (fpage_access fp).

(** The location of the regions inside a loaded segment: writable regions are
    copied when they are used. *)
Fixpoint elf_locations (va sz location : Z) (l : list (Z * region)) : res (list (Z * region)) :=
  match l with
  | [] => Ok []
  | (it, r) :: t =>
      r ← (if (va <=? r_remote r) && (r_end r <=? u32 (va + sz)) then
             _ ← wassert (is_pg_aligned va);
             _ ← wassert (is_pg_aligned location);
             _ ← wassert (negb (va =? 0));
             _ ← wassert (negb (sz =? 0));
             _ ← wassert (negb (location =? 0));
             let local := u32 (location + u32 (r_remote r - va)) in
             Ok (if need_relocate r then with_origin r local else with_local r local)
           else Ok r);
      t ← elf_locations va sz location t;
      Ok ((it, r) :: t)
  end.
Definition set_location_from_elf (it va sz location : Z) : R unit :=
  a ← get_app it;
  l ← rlift (elf_locations va sz location (busy (ap_regions a)));
  put_app it (with_regions a (MkA l (free (ap_regions a)))).

Definition add_location (it va location : Z) : R Z :=
  a ← get_app it;
  if negb (reg_find va (fpage_size location) 0 (busy (ap_regions a)) =? 0) then mret (-1)
  else
    _ ← push_reg it (MkRg va (fpage_size location) (fpage_access location) (fpage_addr location) 0);
    mret 0.

(** *** Arguments of an application *)

Definition store_word (a v : Z) : R unit := effect (EvStore a (be_bytes 4 v)).
(** Strings at [loc_va], with [sz] bytes left, and their pointers. *)
Fixpoint store_args (l : list (list Z)) (argv cnt loc_va sz diff : Z) : R (Z * Z) :=
  match l with
  | [] => mret (loc_va, sz)
  | s :: t =>
      let arg_sz := Z.of_nat (length s) + 1 in
      if sz <? arg_sz then rpanic
      else
        _ ← store_word (argv + 4 * cnt) (u32 (loc_va - diff));
        _ ← effect (EvStore loc_va (s ++ [0]));
        store_args t argv (cnt + 1) (u32 (loc_va + arg_sz)) (sz - arg_sz) diff
  end.
Definition args (it : Z) (name : list Z) (al : list (list Z)) (page_va : Z) : R unit :=
  a ← get_app it;
  _ ← rassert (negb (ap_sp a =? 0));
  let argc := 1 + Z.of_nat (length al) in
  fp ← wrm_pgpool_alloc Cfg_page_sz;
  _ ← rassert (negb (fpage_is_nil fp));
  _ ← add_location it page_va fp;
  let argv := fpage_addr fp in
  let diff := argv - page_va in
  if Cfg_page_sz <? argc * 4 then rpanic
  else
    _ ← store_args (name :: al) argv 0 (u32 (argv + argc * 4)) (Cfg_page_sz - argc * 4) diff;
    a ← get_app it;
    l ← get_location it (u32 (ap_sp a - 12)) 12 Acc_rw;
    _ ← rassert (negb (l.1 =? 0));
    let sp := u32 (l.1 + 12) in
    _ ← store_word (u32 (sp - 4)) (u32 (argv - diff));
    _ ← store_word (u32 (sp - 8)) argc;
    _ ← store_word (u32 (sp - 12)) (Z.b2z (ap_fpu a));
    a ← get_app it;
    put_app it (with_stack a (ap_stack_ua a) (ap_stack_sz a) (u32 (ap_sp a - 12))).

(** *** The list of applications *)

Definition has_thread (num : Z) (a : app) : bool := (owner_no a <=? num) && (num <? thr_end a).
Fixpoint apps_search (num : Z) (l : list (Z * app)) : Z :=
  match l with [] => 0 | (it, a) :: t => if has_thread num a then it else apps_search num t end.
Definition apps_find (id : Z) : R Z := A ← rget rt_apps; mret (apps_search (thrid_number id) (busy A)).

(** A new element of the static list has zero bytes and takes the owner and the
    (empty) regions of the value; its table has the 32 threads. *)
Definition new_thr : thr := MkThr 0 0 0 0 0.
Definition new_app (id : Z) : app := MkApp (MkA [] []) id 0 0 0 0 0 0 0 0 0 (MkThrs (replicate 32 new_thr) 0) 0 false 0.
Definition add_app (id : Z) : R Z :=
  A ← rget rt_apps;
  A ← rlift (push_back A (new_app id));
  _ ← rupd (fun s => set_apps s A);
  mret (last A).

Fixpoint elf_callbacks (it : Z) (l : list elf_cb) : R unit :=
  match l with
  | [] => mret tt
  | Shdr addr sz acc bits :: t => _ ← (if bits then add_vspace it addr sz acc else mret tt); elf_callbacks it t
  | Phdr va sz location load :: t => _ ← (if load then set_location_from_elf it va sz location else mret tt); elf_callbacks it t
  end.

Definition stack_area (it a sz : Z) : R unit :=
  x ← get_app it;
  _ ← put_app it (with_stack x a sz (u32 (a + sz)));
  add_vspace it a sz Acc_rw.

Definition prepare_app_memory_map (cfg : app_cfg) (id : Z) (e : elf) : R Z :=
  it ← add_app id;
  a ← get_app it;
  ts ← rlift (thrs_max (ap_threads a) (c_max_threads cfg));
  _ ← put_app it (with_config a (c_short_name cfg) (c_max_aspaces cfg) ts (c_max_prio cfg) (c_fpu cfg) (c_strategy cfg));
  _ ← elf_callbacks it (e_cbs e);
  _ ← (if negb (e_rc e =? 0) then kdb else mret tt);
  let guard_space := Cfg_page_sz in
  let ssz := round_pg_up (c_stack_sz cfg) in
  let va := u32 (0x1000000 - (ssz + guard_space)) in
  a ← get_app it;
  _ ← put_app it (with_areas a (e_entry e) (ap_kip a) (ap_utcb a));
  _ ← stack_area it va ssz;
  let va := u32 (va - (Cfg_page_sz + guard_space)) in
  kip ← rlift (fpage_set junk va Cfg_page_sz (Z.lor Acc_r Acc_x));
  a ← get_app it;
  _ ← put_app it (with_areas a (ap_entry a) kip (ap_utcb a));
  _ ← add_vspace_fpage it kip;
  let area_sz := get_size (get_log2sz_top_range (u32 (c_max_threads cfg * Cfg_page_sz))) in
  let va := round_down (u32 (va - (area_sz + guard_space))) area_sz in
  utcb ← rlift (fpage_set junk va area_sz Acc_rw);
  _ ← rassert (negb (fpage_is_nil utcb));
  a ← get_app it;
  _ ← put_app it (with_areas a (ap_entry a) (ap_kip a) utcb);
  _ ← add_vspace_fpage it utcb;
  let va := u32 (va - (Cfg_page_sz + guard_space)) in
  _ ← args it (c_name cfg) (c_args cfg) va;
  mret it.

(** *** The C interface *)

(** The application of a thread, or the error [e]. *)
Definition with_app {A} (id : Z) (e : A) (f : Z -> R A) : R A := it ← apps_find id; if it =? 0 then mret e else f it.

Definition wrm_app_add_location (id va location : Z) : R Z :=
  with_app id (-1) (fun it => rc ← add_location it va location; mret (if negb (rc =? 0) then -2 else 0)).

(** The first two characters of a name of four. *)
Definition name_is_lx (name : Z) : bool := Z.shiftr name 16 =? 0x6c78.
(** The result and the page; [None]: nothing was written. *)
Definition wrm_app_get_location (id va sz acc : Z) : R (Z * option Z) :=
  with_app id (-1, None) (fun it =>
    l ← get_location it va sz acc;
    let page := fun local acc_max : Z =>
      fp ← rlift (fpage_set junk (round_pg_down local) (round_pg_up sz) acc_max);
      mret (if fpage_is_nil fp then -3 else 0, Some fp) in
    if negb (l.1 =? 0) then page l.1 (default 0 l.2)
    else
      l ← get_location it va sz 0;
      a ← get_app it;
      if negb (l.1 =? 0) && name_is_lx (ap_name a) && negb (acc =? Acc_x) then page l.1 acc
      else mret (-2, None)).

Definition wrm_app_alloc_aspace (id : Z) : R Z :=
  with_app id (-1) (fun it => a ← get_app it; let r := alloc_aspace a in _ ← put_app it r.2; mret (if negb r.1 then -2 else 0)).
Definition wrm_app_free_aspace (id : Z) : R Z :=
  with_app id (-1) (fun it => a ← get_app it; let r := free_aspace a in _ ← put_app it r.2; mret (if negb r.1 then -2 else 0)).
(** The result and the number of the thread. *)
Definition wrm_app_thr_alloc (id utcb stack sz : Z) : R (Z * Z) :=
  with_app id (-10, 0) (fun it =>
    a ← get_app it;
    r ← rlift (thread_alloc a utcb stack sz);
    _ ← put_app it r.2;
    mret (if r.1 <? 0 then (r.1, 0) else (0, r.1))).
Definition wrm_app_thr_state (id thrno : Z) : R Z := with_app id (-10) (fun it => a ← get_app it; rlift (thread_state a thrno)).
Definition wrm_app_thr_terminate (id thrno code : Z) : R Z :=
  with_app id (-10) (fun it => a ← get_app it; r ← rlift (thread_terminate a thrno code); _ ← put_app it r.2; mret r.1).
Definition wrm_app_thr_free (id thrno : Z) : R (Z * option thr) :=
  with_app id (-10, None) (fun it => a ← get_app it; r ← rlift (thread_free a thrno); _ ← put_app it r.2; mret r.1).
Definition wrm_app_thr_numbers (id : Z) : R (Z * (Z * Z)) := with_app id (-1, (0, 0)) (fun it => a ← get_app it; mret (0, thread_numbers a)).
Definition wrm_app_max_prio (id : Z) : R (Z * Z) := with_app id (-1, 0) (fun it => a ← get_app it; mret (0, ap_max_prio a)).

(** *** Start of an application *)

Definition create_aspace_and_start_app_thread (it : Z) : R unit :=
  a ← get_app it;
  rc ← wrm_app_alloc_aspace (ap_owner a);
  if negb (rc =? 0) then rpanic else
  r ← wrm_app_thr_alloc (ap_owner a) (ap_utcb a) (ap_stack_ua a) (ap_stack_sz a);
  if negb (r.1 =? 0) then rpanic else
  let newid := thrid_create_global r.2 Def_glob_ver in
  _ ← rassert (newid =? ap_owner a);
  l ← get_location it (fpage_addr (ap_utcb a)) (fpage_size (ap_utcb a)) Acc_rw;
  _ ← rassert (negb (l.1 =? 0));
  rc ← call_krn (EvThread newid newid alpha_id Thrid_nil l.1);
  if negb (rc =? 0) then rpanic else
  rc ← call_krn (EvSchedule newid (ap_max_prio a));
  if negb (rc =? 0) then rpanic else
  rc ← call_krn (EvSpace newid 0 (ap_kip a) (ap_utcb a) Thrid_nil);
  if negb (rc =? 0) then rpanic else
  rc ← call_krn (EvThread newid newid Thrid_nil alpha_id (u32 (-1)));
  if negb (rc =? 0) then rpanic else
  let tag := tag_set_typed (tag_set_untyped (tag_set_propagated (tag_set_ipc_label 0 Thread_start) false) 3) 0 in
  a ← get_app it;
  rc ← call_krn (EvSend newid [tag; ap_entry a; ap_sp a; ap_name a]);
  if negb (rc =? 0) then rpanic else mret tt.

Definition ramfs_prefix : list Z := [114; 97; 109; 102; 115; 58; 47].
Definition wrm_app_create (id : Z) (cfg : app_cfg) : R Z :=
  if negb (bool_decide (take 7 (c_filename cfg) = ramfs_prefix)) then mret (-1)
  else
    match ramfs_get_file (drop 7 (c_filename cfg)) with
    | None => mret (-2)
    | Some e =>
        it ← prepare_app_memory_map cfg id e;
        _ ← create_aspace_and_start_app_thread it;
        mret 0
    end.
End Manager.
