(* ===== verification/Alpha.v ===== *)
(** app/alpha/main.cpp: the root task: the requests of applications for
    devices, interrupts, memory and threads, the name server, page faults, and
    the start of the applications, on [AppMgr].

    A handler gets the tag and the message registers of a request and the
    sender; its reply is an event.  The configuration is an argument (the
    devices) or part of the state (the applications, whose heap shrinks). *)

From Stdlib Require Import ZArith Lia Bool.
From stdpp Require Import base list numbers.
From S2P Require Import Prelude SysUtils ListSpec L4Types CString PagePool AppMgr.

(** ** Labels *)

Definition Wrm_ipc_map_io : Z := 1.
Definition Wrm_ipc_attach_int : Z := 2.
Definition Wrm_ipc_detach_int : Z := 3.
Definition Wrm_ipc_get_usual_mem : Z := 4.
Definition Wrm_ipc_get_named_mem : Z := 5.
Definition Wrm_ipc_create_thread : Z := 6.
Definition Wrm_ipc_delete_thread : Z := 7.
Definition Wrm_ipc_create_task : Z := 8.
Definition Wrm_ipc_register_thread : Z := 9.
Definition Wrm_ipc_get_thread_id : Z := 10.
Definition Wrm_ipc_app_threads : Z := 11.

(** ** Names and devices *)

(** strncmp(a, b, n) = 0 on strings given by their characters, which a zero
    or the end of the list ends. *)
Fixpoint strn_eq (n : nat) (a b : list Z) : bool :=
  match n with
  | O => true
  | S n => let x := hd 0 a in if negb (x =? hd 0 b) then false else if x =? 0 then true else strn_eq n (tl a) (tl b)
  end.
(** strcmp(a, b) = 0. *)
Definition str_eq (a b : list Z) : bool := strn_eq (S (length a)) a b.
Fixpoint cstring (l : list Z) : list Z := match l with [] => [] | c :: t => if c =? 0 then [] else c :: cstring t end.

Record io_device := MkDev { d_name : list Z; d_pa : Z; d_sz : Z; d_irq : Z }.
Definition iomem_addr (d : io_device) : Z := round_down (d_pa d) 0x1000.
Definition iomem_sz (d : io_device) : Z := round_down (d_sz d) 0x10.
Definition iomem_end (d : io_device) : Z := iomem_addr d + iomem_sz d.
Definition ioport_addr (d : io_device) : Z := get_offset (d_pa d) 0x1000.
Definition ioport_sz (d : io_device) : Z := get_offset (d_sz d) 0x10.
Definition ioport_end (d : io_device) : Z := u32 (ioport_addr d + ioport_sz d).

Section Alpha.
Context `{!RtEnv} (devices : list io_device).
Implicit Types (mr : list Z) (tag from : Z).

Definition al_mr mr (i : nat) : Z := nth i mr 0.
(** The characters in the registers from the first on. *)
Definition name_chars mr : list Z := drop 1 mr ≫= be_bytes 4.
Definition Name_words_max : Z := 8.
Definition Name_len_max : nat := 32.

(** The reply to a request; a failed one enters the debugger. *)
Definition answer from (l : list Z) : R unit := rc ← call_krn (EvSend from l); if negb (rc =? 0) then kdb else mret tt.

(** The configuration of the application of a thread, with its index. *)
Fixpoint cfg_search (first num : Z) (l : list app_cfg) (i : nat) : option (nat * app_cfg) :=
  match l with
  | [] => None
  | c :: t =>
      let e := u32 (first + c_max_threads c) in
      if (first <=? num) && (num <? e) then Some (i, c) else cfg_search e num t (S i)
  end.
Definition find_cfg from : R (option (nat * app_cfg)) := l ← rget rt_cfgs; mret (cfg_search (user_base + 2) (thrid_number from) l 0).

Definition dev_find (name : list Z) : option io_device := List.find (fun d => strn_eq Name_len_max (d_name d) name) devices.
Definition allowed (l : list (list Z)) (name : list Z) : bool := existsb (fun n => strn_eq Name_len_max n name) l.

(** ** Page faults *)

Definition process_pfault tag mr from : R unit :=
  _ ← rassert (tag_untyped tag =? 2);
  _ ← rassert (tag_typed tag =? 0);
  r ← wrm_app_get_location from (al_mr mr 1) 4 (tag_pfault_access tag);
  local ← (if r.1 =? -2 then mret (fpage_set_complete junk)
           else _ ← (if negb (r.1 =? 0) then kdb else mret tt); mret (default junk r.2));
  let item := mitem_set junk local false in
  answer from [tag_set_ipc 0 0 2; item.1; item.2].

Definition io_permitted (cfg : app_cfg) (fpage : Z) : bool :=
  existsb (fun dev => existsb (fun dname => str_eq dname (d_name dev) && (ioport_addr dev <=? fpage_io_port fpage) && (u32 (fpage_io_port fpage + fpage_io_size fpage) <? ioport_end dev)) (c_devs cfg)) devices.
Definition process_io_pfault tag mr from : R unit :=
  _ ← rassert (tag_untyped tag =? 2);
  _ ← rassert (tag_typed tag =? 0);
  let fpage := al_mr mr 1 in
  _ ← rassert (fpage_is_io fpage);
  _ ← rassert (fpage_io_size fpage =? 1);
  c ← find_cfg from;
  let perm_ok := match c with Some (_, cfg) => io_permitted cfg fpage | None => false end in
  let item := mitem_set junk (if perm_ok then fpage else fpage_set_complete junk) false in
  answer from [tag_set_ipc 0 0 2; item.1; item.2].

Definition process_exception : R unit := rpanic.

(** ** Devices *)

(** The device that an application may use, or the error code. *)
Definition usable_device (name : list Z) from : R (Z + io_device) :=
  c ← find_cfg from;
  mret (match c with
        | None => inl 1
        | Some (_, cfg) =>
            match dev_find name with
            | None => inl 2
            | Some dev => if negb (allowed (c_devs cfg) name) then inl 3 else inr dev
            end
        end).

Definition process_map_io tag mr from : R unit :=
  _ ← rassert (tag_untyped tag <=? Name_words_max);
  _ ← rassert (tag_typed tag =? 0);
  r ← usable_device (name_chars mr) from;
  match r with
  | inl ecode => answer from [tag_set_ipc Wrm_ipc_map_io 1 0; ecode]
  | inr dev =>
      iomem ← (if negb (iomem_sz dev =? 0) then
                 let map_sz := u32 (round_pg_down (iomem_end dev - 1) - round_pg_down (iomem_addr dev) + Cfg_page_sz) in
                 fp ← rlift (fpage_set junk (round_pg_down (iomem_addr dev)) map_sz Acc_rw);
                 _ ← rassert (negb (fpage_is_nil fp));
                 mret (fp, get_pg_offset (d_pa dev), iomem_sz dev)
               else mret (Fpage_nil, 0, 0));
      ioport ← (if negb (ioport_sz dev =? 0) then
                  fp ← rlift (fpage_set_io junk (ioport_addr dev) (ioport_sz dev));
                  _ ← rassert (negb (fpage_is_nil fp));
                  mret fp
                else mret Fpage_nil);
      let m := mitem_set junk iomem.1.1 false in
      let p := mitem_set junk ioport false in
      answer from [tag_set_ipc Wrm_ipc_map_io 2 4; iomem.1.2; iomem.2; m.1; m.2; p.1; p.2]
  end.

Definition process_attach_detach_int tag mr from (action : Z) : R unit :=
  _ ← rassert (tag_untyped tag <=? Name_words_max);
  _ ← rassert (tag_typed tag =? 0);
  r ← usable_device (name_chars mr) from;
  r ← (match r with
       | inl ecode => mret (u32 (- ecode))
       | inr dev =>
           rc ← call_krn (EvThread (thrid_create_irq (d_irq dev)) Thrid_nil Thrid_nil (if action =? Wrm_ipc_attach_int then from else Thrid_nil) 0);
           mret (if negb (rc =? 0) then u32 (-4) else d_irq dev)
       end);
  answer from [tag_set_ipc action 1 0; r].

(** ** Memory *)

Fixpoint named_search (name : list Z) (l : list (Z * nregion)) : option nregion :=
  match l with [] => None | (_, r) :: t => if str_eq (m_name (nr_region r)) name then Some r else named_search name t end.
(** The location (nil if there is none) and the attributes, if the name exists. *)
Definition named_location (A : alist nregion) (name : list Z) : Z * option (bool * bool) :=
  match named_search name (busy A) with
  | None => (Fpage_nil, None)
  | Some r => (match nr_locations r with [] => Fpage_nil | l :: _ => l end, Some (m_cached (nr_region r), m_contig (nr_region r)))
  end.

Definition process_named_memory_request tag mr from : R unit :=
  _ ← rassert (tag_untyped tag <=? Name_words_max);
  _ ← rassert (tag_typed tag =? 0);
  let name := name_chars mr in
  c ← find_cfg from;
  N ← rget rt_named;
  let r := match c with
           | None => inl 1
           | Some (_, cfg) =>
               if negb (allowed (c_mems cfg) name) then inl 3
               else let l := named_location N name in if fpage_is_nil l.1 then inl 2 else inr l
           end in
  match r with
  | inl ecode => answer from [tag_set_ipc Wrm_ipc_get_named_mem 1 0; ecode]
  | inr (fp, attr) =>
      let m := mitem_set junk fp false in
      let flag := fun f : bool * bool -> bool => match attr with Some a => Z.b2z (f a) | None => u32 (-1) end in
      answer from [tag_set_ipc Wrm_ipc_get_named_mem 4 2; 0; fpage_addr fp; flag fst; flag snd; m.1; m.2]
  end.

Definition process_usual_memory_request tag mr from : R unit :=
  _ ← rassert (tag_untyped tag =? 2);
  _ ← rassert (tag_typed tag =? 0);
  let rem_va := al_mr mr 1 in
  let req_sz := al_mr mr 2 in
  c ← find_cfg from;
  r ← (match c with
       | None => mret (inl 1)
       | Some (i, cfg) =>
           if c_heap_sz cfg <? req_sz then mret (inl 2)
           else
             location ← wrm_pgpool_alloc req_sz;
             if fpage_is_nil location then mret (inl 3)
             else
               rc ← wrm_app_add_location from rem_va location;
               if negb (rc =? 0) then _ ← wrm_pgpool_add location; mret (inl 4)
               else
                 _ ← rupd (fun s => set_cfgs s (<[i := with_heap cfg (u32 (c_heap_sz cfg - req_sz))]> (rt_cfgs s)));
                 mret (inr location)
       end);
  match r with
  | inl ecode => answer from [tag_set_ipc Wrm_ipc_get_usual_mem 1 0; ecode]
  | inr location => let m := mitem_set junk location false in answer from [tag_set_ipc Wrm_ipc_get_usual_mem 0 2; m.1; m.2]
  end.

(** ** Threads *)

Definition process_create_thread_request tag mr from : R unit :=
  _ ← rassert (tag_untyped tag =? 7);
  _ ← rassert (tag_typed tag =? 0);
  c ← find_cfg from;
  let rem_utcb := al_mr mr 1 in
  let or_default := fun id d : Z => if negb (thrid_is_any id) then id else d in
  r ← (match c with
       | None => mret (1, Thrid_nil)
       | Some _ =>
           t ← wrm_app_thr_alloc from rem_utcb (al_mr mr 6) (al_mr mr 7);
           if negb (t.1 =? 0) then mret (2, Thrid_nil) else
           p ← wrm_app_max_prio from;
           if negb (p.1 =? 0) then mret (3, Thrid_nil) else
           let newid := thrid_create_global t.2 Def_glob_ver in
           let prio := if p.2 <? al_mr mr 2 then p.2 else al_mr mr 2 in
           l ← wrm_app_get_location from (fpage_addr rem_utcb) (fpage_size rem_utcb) Acc_rw;
           if negb (l.1 =? 0) then mret (4, newid) else
           rc ← call_krn (EvThread newid (or_default (al_mr mr 3) from) (or_default (al_mr mr 4) alpha_id) (or_default (al_mr mr 5) alpha_id) (fpage_addr (default junk l.2)));
           if negb (rc =? 0) then mret (5, newid) else
           rc ← call_krn (EvSchedule newid prio);
           if negb (rc =? 0) then mret (6, newid) else
           mret (0, newid)
       end);
  answer from [tag_set_ipc Wrm_ipc_create_thread 2 0; r.1; r.2].

Definition process_create_task_request tag mr from : R unit :=
  _ ← rassert (tag_untyped tag =? 5);
  _ ← rassert (tag_typed tag =? 0);
  c ← find_cfg from;
  let rem_utcb := al_mr mr 1 in
  r ← (match c with
       | None => mret (1, Thrid_nil)
       | Some _ =>
           rc ← wrm_app_alloc_aspace from;
           if negb (rc =? 0) then mret (2, Thrid_nil) else
           t ← wrm_app_thr_alloc from rem_utcb (al_mr mr 6) (al_mr mr 7);
           if negb (t.1 =? 0) then mret (3, Thrid_nil) else
           p ← wrm_app_max_prio from;
           if negb (p.1 =? 0) then mret (4, Thrid_nil) else
           let newid := thrid_create_global t.2 Def_glob_ver in
           let prio := if p.2 <? al_mr mr 2 then p.2 else al_mr mr 2 in
           l ← wrm_app_get_location from (fpage_addr rem_utcb) (fpage_size rem_utcb) Acc_rw;
           _ ← rassert (fpage_size rem_utcb =? fpage_size (default junk l.2));
           if negb (l.1 =? 0) then mret (5, newid) else
           rc ← call_krn (EvThread newid newid alpha_id Thrid_nil (fpage_addr (default junk l.2)));
           if negb (rc =? 0) then mret (6, newid) else
           rc ← call_krn (EvSchedule newid prio);
           if negb (rc =? 0) then mret (7, newid) else
           rc ← call_krn (EvSpace newid 0 (al_mr mr 4) (al_mr mr 5) Thrid_nil);
           if negb (rc =? 0) then mret (8, newid) else
           rc ← call_krn (EvThread newid newid alpha_id (al_mr mr 3) (u32 (-1)));
           if negb (rc =? 0) then mret (9, newid) else
           mret (0, newid)
       end);
  answer from [tag_set_ipc Wrm_ipc_create_task 2 0; r.1; r.2].

Definition or_code (ecode rc v : Z) : Z := if negb (rc =? 0) then Z.lor ecode v else ecode.
(** The other threads of an application whose main thread is deleted, from [i] on. *)
Fixpoint delete_threads (n : nat) (i thrid code ecode : Z) : R Z :=
  match n with
  | O => mret ecode
  | S n =>
      rc ← wrm_app_thr_terminate thrid i code;
      if negb (rc =? 0) then delete_threads n (i + 1) thrid code ecode
      else
        f ← wrm_app_thr_free thrid i;
        let ecode := or_code ecode f.1 10000 in
        rc ← call_krn (EvThread (thrid_create_global i Def_glob_ver) Thrid_nil Thrid_nil Thrid_nil Fpage_nil);
        delete_threads n (i + 1) thrid code (or_code ecode rc 100000)
  end.
(** The deletion itself: the error code and the former state. *)
Definition delete_thread (thrid code thrno_begin thrno_end : Z) : R (Z * Z) :=
  let num := thrid_number thrid in
  state ← wrm_app_thr_state thrid num;
  let ecode := if state <? 0 then 1 else 0 in
  if state =? Wrm_thr_state_done then mret (ecode, state)
  else
    rc ← call_krn (EvThread thrid Thrid_nil Thrid_nil Thrid_nil Fpage_nil);
    let ecode := or_code ecode rc 10 in
    rc ← wrm_app_thr_terminate thrid num code;
    let ecode := or_code ecode rc 100 in
    if num =? thrno_begin then
      f ← wrm_app_thr_free thrid num;
      ecode ← delete_threads (Z.to_nat (thrno_end - (thrno_begin + 1))) (thrno_begin + 1) thrid code (or_code ecode f.1 1000);
      mret (ecode, state)
    else mret (ecode, state).

Definition process_delete_thread_request tag mr from : R unit :=
  _ ← rassert (tag_untyped tag =? 2);
  _ ← rassert (tag_typed tag =? 0);
  let thrid := al_mr mr 1 in
  let num := thrid_number thrid in
  n ← wrm_app_thr_numbers from;
  let '(thrno_begin, thrno_end) := n.2 in
  r ← (if negb (n.1 =? 0) then mret (1, -1)
       else if (num <? thrno_begin) || (thrno_end <=? num) then mret (2, -1)
       else delete_thread thrid (al_mr mr 2) thrno_begin thrno_end);
  if negb (thrid =? from) && negb (num =? thrno_begin) then
    f ← wrm_app_thr_free thrid num;
    let ecode := or_code r.1 f.1 1000000 in
    let t := default (MkThr 0 junk junk junk junk) f.2 in
    rc ← call_krn (EvSend from [tag_set_ipc Wrm_ipc_delete_thread 7 0; ecode; thrid; th_utcb t; th_stack t; th_stack_sz t; th_code t; u32 r.2]);
    if negb (rc =? 0) then rpanic else mret tt
  else mret tt.

(** ** Names of threads *)

Fixpoint nthr_search (name : list Z) (l : list (Z * nthread)) : option nthread :=
  match l with [] => None | (_, t) :: l => if str_eq (nt_name t) name then Some t else nthr_search name l end.
Definition nthr_record (name : list Z) (id : Z) : R (Z * (Z * Z)) :=
  let s := cstring name in
  if Z.of_nat Name_len_max <? Z.of_nat (length s) + 1 then mret (1, (1, 2))
  else
    A ← rget rt_nthr;
    match nthr_search name (busy A) with
    | Some _ => mret (2, (1, 2))
    | None =>
        k0 ← call_krn EvClock;
        k1 ← call_krn EvClock;
        A ← rlift (push_back A (MkNthr (take 31 s) id (u32 k0) (u32 k1)));
        _ ← rupd (fun st => set_nthr st A);
        mret (0, (u32 k0, u32 k1))
    end.

Definition process_register_thread_request tag mr from : R unit :=
  _ ← rassert (tag_untyped tag <=? Name_words_max);
  _ ← rassert (tag_typed tag =? 0);
  r ← nthr_record (name_chars mr) from;
  answer from [tag_set_ipc Wrm_ipc_register_thread 3 0; if negb (r.1 =? 0) then 1 else 0; r.2.1; r.2.2].

Definition process_get_thread_id_request tag mr from : R unit :=
  _ ← rassert (tag_untyped tag <=? Name_words_max);
  _ ← rassert (tag_typed tag =? 0);
  A ← rget rt_nthr;
  match nthr_search (name_chars mr) (busy A) with
  | Some t => answer from [tag_set_ipc Wrm_ipc_get_thread_id 4 0; 0; nt_id t; nt_key0 t; nt_key1 t]
  | None => answer from [tag_set_ipc Wrm_ipc_get_thread_id 4 0; 1; Thrid_nil; 1; 2]
  end.

Definition process_app_threads_request tag mr from : R unit :=
  _ ← rassert (tag_untyped tag =? 1);
  _ ← rassert (tag_typed tag =? 0);
  n ← wrm_app_thr_numbers (al_mr mr 1);
  answer from [tag_set_ipc Wrm_ipc_app_threads 3 0; u32 n.1; n.2.1; n.2.2].

(** ** The message loop and the start *)

(** One round of the loop: the result of the receive, the registers, the sender. *)
Definition alpha_round (rc : Z) mr from : R unit :=
  let tag := al_mr mr 0 in
  let label := tag_ipc_label tag in
  if negb (rc =? 0) then mret tt
  else if tag_proto_label tag =? Pagefault then process_pfault tag mr from
  else if tag_proto_label tag =? Io_pagefault then process_io_pfault tag mr from
  else if tag_is_exc_request tag then process_exception
  else if label =? Wrm_ipc_map_io then process_map_io tag mr from
  else if label =? Wrm_ipc_attach_int then process_attach_detach_int tag mr from Wrm_ipc_attach_int
  else if label =? Wrm_ipc_detach_int then process_attach_detach_int tag mr from Wrm_ipc_detach_int
  else if label =? Wrm_ipc_get_usual_mem then process_usual_memory_request tag mr from
  else if label =? Wrm_ipc_get_named_mem then process_named_memory_request tag mr from
  else if label =? Wrm_ipc_create_thread then process_create_thread_request tag mr from
  else if label =? Wrm_ipc_delete_thread then process_delete_thread_request tag mr from
  else if label =? Wrm_ipc_create_task then process_create_task_request tag mr from
  else if label =? Wrm_ipc_register_thread then process_register_thread_request tag mr from
  else if label =? Wrm_ipc_get_thread_id then process_get_thread_id_request tag mr from
  else if label =? Wrm_ipc_app_threads then process_app_threads_request tag mr from
  else kdb.

Definition make_not_cached (fpage : Z) : R Z := call_krn (EvAttr (u32 (Z.land fpage (Z.lnot 0xf))) 1).

(** Named_memory_regions_t::add(); the list has 8 items. *)
Definition named_add (m : mem_cfg) (loc : Z) : R bool :=
  N ← rget rt_named;
  if negb (fpage_is_nil (named_location N (m_name m)).1) then mret false
  else N ← rlift (push_back N (MkNreg m [loc])); _ ← rupd (fun s => set_named s N); mret true.

Fixpoint prepare_named_memory_regions (l : list mem_cfg) : R unit :=
  match l with
  | [] => mret tt
  | m :: t =>
      if negb (is_aligned (m_sz m) Cfg_page_sz) then rpanic
      else
        location ← wrm_pgpool_alloc (m_sz m);
        if fpage_is_nil location then rpanic
        else if negb (Z.land (fpage_access location) (m_access m) =? m_access m) then rpanic
        else
          let location := fpage_set_access location (m_access m) in
          rc ← make_not_cached location;
          if negb (rc =? 0) then rpanic
          else
            added ← named_add m location;
            if negb added then rpanic else prepare_named_memory_regions t
  end.

(** The applications get consecutive ranges of thread numbers; the
    configuration has at least one. *)
Fixpoint create_apps (next_thread_no : Z) (l : list app_cfg) : R unit :=
  match l with
  | [] => mret tt
  | c :: t =>
      rc ← wrm_app_create (thrid_create_global next_thread_no Def_glob_ver) c;
      _ ← (if negb (rc =? 0) then kdb else mret tt);
      create_apps (next_thread_no + c_max_threads c) t
  end.
End Alpha.
