(* ===== verification/AlphaMem.v ===== *)
(** The memory of the root task ([AppMgr], [Alpha]): what it hands out to
    applications never overlaps.

    [own] lists the pages that left the pool, each with the application that
    owns it (the iterator of the list of applications) or 0 for pages that the
    root task uses itself: items of region lists and named memory. *)

From Stdlib Require Import ZArith Lia Bool.
From stdpp Require Import base list numbers relations.
From S2P Require Import Prelude SysUtils ListSpec L4Types CString PagePool AppMgr Alpha.

Implicit Types (s : rt) (own : list (Z * Z)) (p : ppool) (pg : Z) (A : alist region).

(** ** Pages that left the pool *)

Definition page_ok pg : Prop := exists k, pg_in_sizes k /\ good k pg.
Definition meets (a b : Z) : Prop := exists x, fpage_has a x /\ fpage_has b x.
Definition strangers (a b : Z) : Prop := ~ meets a b.

Record pool_own p own : Prop := {
  po_inv : pg_inv p;
  po_good : Forall page_ok own.*2;
  po_own : pairwise strangers own.*2;
  po_free : forall a b, a ∈ own.*2 -> b ∈ pages p -> strangers a b;
  po_bytes : bytes (pages p) + bytes own.*2 < 2 ^ 32 }.

Lemma page_ok_range pg : page_ok pg -> 0 < fpage_size pg /\ 0 <= fpage_addr pg /\ fpage_addr pg + fpage_size pg <= 2 ^ 32 /\ (4096 | fpage_addr pg) /\ (4096 | fpage_size pg).
Proof.
  intros (k & Hk & G). destruct (good_range k pg Hk G) as (-> & H0 & He & Hp). unfold pg_in_sizes, Pg_lgsz_min, Pg_lgsz_max in Hk.
  assert (Hd : (4096 | 2 ^ k)) by (exists (2 ^ (k - 12)); change 4096 with (2 ^ 12); rewrite <- Z.pow_add_r by lia; f_equal; lia).
  refine (conj Hp (conj H0 (conj He (conj _ Hd)))). destruct G as (_ & _ & G). by transitivity (2 ^ k).
Qed.
Lemma page_ok_not_nil pg : page_ok pg -> fpage_is_nil pg = false.
Proof. intros (k & Hk & _ & Hl & _). apply Z.eqb_neq. intros ->. vm_compute in Hl. unfold pg_in_sizes, Pg_lgsz_min in Hk. lia. Qed.

Lemma has_page_dec p k : has_page p k \/ ~ has_page p k.
Proof.
  destruct (decide (Exists (fun i => length (list_of p i) <> 0%nat) (seqZ k (Pg_lgsz_max - k + 1)))) as [D|D].
  - left. apply Exists_exists in D as (i & Hi & Hn). apply elem_of_seqZ in Hi. exists i. split; [lia |]. intros E. by rewrite E in Hn.
  - right. intros (i & Hi & Hn). apply D, Exists_exists. exists i. rewrite elem_of_seqZ. split; [lia |]. by destruct (list_of p i).
Qed.

Lemma pg_alloc_cases p sz r p' : pg_inv p -> in_range 32 sz -> pg_alloc p sz = Ok (r, p') ->
  (r = Fpage_nil /\ p' = p) \/ (page_ok r /\ fpage_size r = sz /\ pg_inv p' /\ same_mem (pages p) (r :: pages p')).
Proof.
  intros I Hs H. destruct (page_alloc_correct p sz I Hs) as [_ Hno]. unfold pg_alloc in H. rewrite pg_lgsz_eq in H. destruct (get_log2sz_correct sz Hs) as (g & Eg & Hg). rewrite Eg in H.
  assert (D : pg_in_sizes g \/ ~ pg_in_sizes g) by (unfold pg_in_sizes; lia). destruct D as [Hin|Hout].
  - destruct Hg as [(k & Hk & Esz & ->)|[_ ->]]; [| unfold pg_in_sizes, Pg_lgsz_min in Hin; lia]. destruct (alloc_lgsz_ok p k I Hin) as [A1 A2]. simpl in H.
    destruct (has_page_dec p k) as [Hp|Hp].
    + destruct (A1 Hp) as (r' & p'' & E & I' & G & M & _). rewrite E in H. injection H as <- <-. right. destruct (good_range k r' Hin G) as (Sr & _).
      refine (conj _ (conj _ (conj I' M))); [by exists k | congruence].
    + rewrite (A2 Hp) in H. injection H as <- <-. by left.
  - left. simpl in H. unfold alloc_lgsz in H. assert (Hb : (g <? Pg_lgsz_min) || (Pg_lgsz_max <? g) = true); [| rewrite Hb in H; by injection H as <- <-].
    apply orb_true_iff. rewrite !Z.ltb_lt. unfold pg_in_sizes in Hout. lia.
Qed.

Lemma covered l x : (exists a, covers l x a) <-> exists b, b ∈ l /\ fpage_has b x.
Proof. unfold covers. split; [intros (a & b & ? & ? & _); eauto | intros (b & ? & ?); eauto]. Qed.

Lemma pool_own_alloc p own sz r p' o : pool_own p own -> in_range 32 sz -> pg_alloc p sz = Ok (r, p') -> fpage_is_nil r = false ->
  pool_own p' ((o, r) :: own) /\ fpage_size r = sz /\ page_ok r.
Proof.
  intros [I G O F B] Hs H Hn. destruct (pg_alloc_cases p sz r p' I Hs H) as [[-> _]|(Gr & Sr & I' & [M1 M2 M3])]; [done |]. refine (conj _ (conj Sr Gr)).
  assert (Hin : forall x b, b ∈ r :: pages p' -> fpage_has b x -> exists b', b' ∈ pages p /\ fpage_has b' x).
  { intros x b Hb Hx. apply covered. assert (exists a, covers (r :: pages p') x a) as [a Ha] by (apply covered; eauto). exists a. by apply M1. }
  split; [done | by constructor | | | rewrite fmap_cons; simpl in M2 |- *; lia].
  - split; [| done]. apply Forall_forall. intros b Hb (x & Hr & Hx). destruct (Hin x r) as (b' & Hb' & Hx'); [set_solver | done |]. apply (F b b' Hb Hb'). by exists x.
  - intros a b Ha Hb (x & Hx1 & Hx2). rewrite fmap_cons in Ha. apply elem_of_cons in Ha as [-> | Ha].
    + destruct (M3 (pg_disj _ I)) as [Fr _]. rewrite Forall_forall in Fr. specialize (Fr b Hb). unfold apart, fpage_has in *. simpl in Hx1. lia.
    + destruct (Hin x b) as (b' & Hb' & Hx'); [set_solver | done |]. apply (F a b' Ha Hb'). by exists x.
Qed.

Lemma pool_own_nil p own sz r p' : pool_own p own -> in_range 32 sz -> pg_alloc p sz = Ok (r, p') -> fpage_is_nil r = true -> p' = p.
Proof. intros [I _ _ _ _] Hs H Hn. destruct (pg_alloc_cases p sz r p' I Hs H) as [[_ ->]|(Gr & _)]; [done |]. apply page_ok_not_nil in Gr. congruence. Qed.

Lemma strangers_apart a b : page_ok a -> page_ok b -> strangers a b -> apart a b.
Proof.
  intros Ha Hb Hs. apply page_ok_range in Ha as (Ha & _), Hb as (Hb & _). unfold apart. destruct (Z.lt_ge_cases (fpage_addr b) (fpage_addr a + fpage_size a)); [| by left].
  destruct (Z.lt_ge_cases (fpage_addr a) (fpage_addr b + fpage_size b)); [| by right]. exfalso. apply Hs. exists (Z.max (fpage_addr a) (fpage_addr b)). unfold fpage_has. lia.
Qed.

Lemma pages_ok p : pg_inv p -> Forall page_ok (pages p).
Proof.
  intros [[L1 L2] _ _ _]. apply Forall_forall. intros b Hb. unfold pages in Hb. apply list_elem_of_bind in Hb as (l & Hb & Hl). apply list_elem_of_lookup in Hl as (i & Hi).
  assert (i < Z.to_nat Pg_sizes_num)%nat by (rewrite <- L1; by eapply lookup_lt_Some). unfold Pg_sizes_num, Pg_lgsz_max, Pg_lgsz_min in *.
  assert (Hs : pg_in_sizes (Z.of_nat i + 12)) by (unfold pg_in_sizes, Pg_lgsz_min, Pg_lgsz_max; lia).
  destruct (L2 (Z.of_nat i + 12) l Hs) as [_ G]; [unfold pg_ix, Pg_lgsz_min; by replace (Z.to_nat (Z.of_nat i + 12 - 12)) with i by lia |].
  rewrite Forall_forall in G. eexists. split; [exact Hs | by apply G].
Qed.

Lemma pool_own_add p own r p' o : pool_own p ((o, r) :: own) -> pg_add p r = Ok p' -> pool_own p' own.
Proof.
  intros [I G O F B] H. rewrite fmap_cons in *. apply Forall_cons in G as [Gr G]. destruct O as [Or O]. simpl in Gr, Or, B. destruct (page_ok_range r Gr) as (_ & _ & _ & _ & _).
  destruct Gr as (k & Hk & Gk). pose proof Gk as (Rr & Lr & Dr). destruct (good_range k r Hk Gk) as (Sr & _).
  destruct (page_add_correct p r I Rr) as [_ Hadd]. destruct (Hadd ltac:(by rewrite Lr)) as [Hfull Hroom].
  assert (Hl : (length (list_of p (fpage_log2sz r)) < Pg_list_max)%nat).
  { destruct (get_pgs_ok p (fpage_log2sz r) (pg_lists _ I)) as (l & _ & El & [C _]); [by rewrite Lr |]. unfold list_of in *. rewrite El in *.
    destruct (decide (length (busy l) = Pg_list_max)) as [E|]; [by rewrite (Hfull E) in H | lia]. }
  assert (Hap : Forall (apart r) (pages p)).
  { pose proof (pages_ok p I) as Gp. rewrite Forall_forall in Gp |- *. intros b Hb. apply strangers_apart; [by exists k | by apply Gp | apply F; set_solver]. }
  pose proof (bytes_nonneg own.*2) as Hn.
  destruct (Hroom Hl) as (p2 & E2 & I2 & P2 & _); [by rewrite Sr | done | lia |]. rewrite E2 in H. injection H as <-. split; [done | done | done | | rewrite P2; simpl; lia].
  intros a b Ha Hb. rewrite P2 in Hb. apply elem_of_cons in Hb as [->|Hb]; [| apply F; set_solver]. rewrite Forall_forall in Or. intros (x & H1 & H2). apply (Or a Ha). by exists x.
Qed.

(** ** Lists of regions *)

(** A writable region with a location lies in a page of its application. *)
Record reg_ok own (it : Z) (r : region) : Prop := {
  rk_remote : in_range 32 (r_remote r);
  rk_sz : in_range 32 (r_sz r);
  rk_page : r_local r <> 0 -> need_relocate r = true -> exists pg, (it, pg) ∈ own /\ r_local r = fpage_addr pg /\ r_sz r <= fpage_size pg }.
Definition item_ok own (i : Z) : Prop := exists pg, (0, pg) ∈ own /\ fpage_has pg i.
Record regs_ok own (it : Z) A : Prop := {
  ro_wf : ListSpec.wf A;
  ro_items : Forall (item_ok own) (items (busy A) ++ free A);
  ro_regs : Forall (reg_ok own it) (vals (busy A)) }.

Lemma reg_ok_mono own own' it r : own ⊆ own' -> reg_ok own it r -> reg_ok own' it r.
Proof. intros H [H1 H2 H3]. split; [done | done |]. intros Hl Hw. destruct (H3 Hl Hw) as (pg & Hp & ?). exists pg. split; [by apply H | done]. Qed.
Lemma regs_ok_mono own own' it A : own ⊆ own' -> regs_ok own it A -> regs_ok own' it A.
Proof.
  intros H [W I G]. split; [done | |]; eapply Forall_impl; eauto; [| intros r; by apply reg_ok_mono]. intros i (pg & Hp & ?). exists pg. split; [by apply H | done].
Qed.
Lemma reg_ok_unlocated own it va sz acc o : in_range 32 va -> in_range 32 sz -> reg_ok own it (MkRg va sz acc 0 o).
Proof. by split. Qed.

Lemma mem_items_in base sz i : 0 <= sz -> i ∈ mem_items base sz Region_item_sz -> base <= i < base + sz.
Proof.
  unfold mem_items, Region_item_sz. intros Hs (k & -> & Hk)%list_elem_of_fmap. apply elem_of_seq in Hk as [_ Hk]. simpl in Hk. pose proof (Z.mul_div_le sz 28). lia.
Qed.
Lemma mem_items_NoDup base sz : NoDup (mem_items base sz Region_item_sz).
Proof. unfold mem_items, Region_item_sz. apply NoDup_fmap_2; [| apply NoDup_seq]. intros a b. lia. Qed.

Lemma grow_regions_ok p own it A x : pool_own p own -> regs_ok own it A -> grow_regions p A = Ok x ->
  exists own', own ⊆ own' /\ pool_own x.1 own' /\ regs_ok own' it x.2 /\ busy x.2 = busy A.
Proof.
  intros P O H. unfold grow_regions in H. destruct (free A) as [|f fs] eqn:Ef; [| injection H as <-; by exists own].
  apply bind_Ok in H as ([[a sz] p'] & Em & H). unfold region_list_malloc in Em. apply bind_Ok in Em as ([pg q] & Ea & Em). apply bind_Ok in Em as ([] & Hn & Em). apply wassert_Ok in Hn. apply negb_true_iff in Hn.
  simpl in *. injection Em as <- <- <-. destruct (fpage_addr pg =? 0) eqn:Ha; [done |]. injection H as <-. simpl.
  destruct (pool_own_alloc p own (round_up Region_item_sz Cfg_page_sz) pg q 0 P ltac:(split; vm_compute; congruence) Ea Hn) as (P' & Sp & Gp). destruct (page_ok_range pg Gp) as (Hs & H0 & _). apply Z.eqb_neq in Ha.
  exists ((0, pg) :: own). assert (Hsub : own ⊆ (0, pg) :: own) by set_solver. refine (conj Hsub (conj P' (conj _ eq_refl))). destruct (regs_ok_mono _ _ it A Hsub O) as [W I G].
  assert (Hnew : Forall (fun i => fpage_has pg i) (mem_items (fpage_addr pg) (fpage_size pg) Region_item_sz)).
  { apply Forall_forall. intros i Hi. apply mem_items_in in Hi; [| lia]. exact Hi. }
  destruct O as [[Wn Wz] I0 _]. rewrite Ef, app_nil_r in *. split; simpl; [| | done].
  - split; simpl.
    + apply NoDup_app. refine (conj Wn (conj _ (mem_items_NoDup _ _))). intros i Hi Hj. rewrite Forall_forall in I0, Hnew. destruct (I0 i Hi) as (b & Hb & Hx).
      destruct P' as [_ _ [Os _] _ _]. rewrite Forall_forall in Os. apply (Os b); [apply list_elem_of_fmap; by exists (0, b) |]. exists i. split; [by apply Hnew | done].
    + apply Forall_app. split; [done |]. eapply Forall_impl; [exact Hnew |]. intros i [Hi _]. simpl in Hi. lia.
  - apply Forall_app. split; [done |]. eapply Forall_impl; [exact Hnew |]. intros i Hi. exists pg. split; [set_solver | done].
Qed.

Lemma push_region_ok p own it A r x : pool_own p own -> regs_ok own it A -> reg_ok own it r -> push_region (p, A) r = Ok x ->
  exists own' i, own ⊆ own' /\ pool_own x.1 own' /\ regs_ok own' it x.2 /\ busy x.2 = busy A ++ [(i, r)].
Proof.
  intros P O Hr H. unfold push_region in H. apply bind_Ok in H as ([q B] & Eg & H). apply bind_Ok in H as (C & Ep & H). simpl in *. injection H as <-.
  destruct (grow_regions_ok p own it A (q, B) P O Eg) as (own' & Hsub & P' & [W I G] & Hb). simpl in *. pose proof Ep as Ew. apply push_back_wf in Ew as [W' V']; [| done].
  unfold push_back, take_free in Ep. destruct (free B) as [|f fs] eqn:Ef; [done |]. simpl in Ep. injection Ep as <-. exists own', f. refine (conj Hsub (conj P' (conj _ _))); [| simpl; by rewrite Hb].
  split; [done | |]; simpl.
  - rewrite items_app. simpl. rewrite <- (assoc (++)). simpl. rewrite Forall_app, Forall_cons in *. tauto.
  - rewrite vals_app. apply Forall_app. split; [done |]. apply Forall_singleton. by apply (reg_ok_mono own).
Qed.

Lemma find_it_elem {T} (l : list (Z * T)) i v : NoDup (items l) -> (i, v) ∈ l -> find_it i l = Some v.
Proof.
  induction l as [|[j w] t IH]; intros Hd Hin; [by apply elem_of_nil in Hin |]. apply NoDup_cons in Hd as [Hj Hd]. simpl. apply elem_of_cons in Hin as [[= <- <-] | Hin]; [by rewrite Z.eqb_refl |].
  destruct (Z.eqb_spec j i) as [-> |]; [| by apply IH]. exfalso. apply Hj. apply list_elem_of_fmap. by exists (i, v).
Qed.
Lemma deref_elem {T} (B : alist T) i v : deref B i = Ok v -> (i, v) ∈ busy B.
Proof. unfold deref. destruct (find_it i (busy B)) eqn:E; simpl; [intros [= <-]; by apply find_it_elem_of | done]. Qed.
Lemma wf_NoDup_items {T} (B : alist T) : ListSpec.wf B -> NoDup (items (busy B)).
Proof. intros [H _]. by apply NoDup_app in H as (H & _). Qed.
Lemma regs_ok_elem own it A i r : regs_ok own it A -> (i, r) ∈ busy A -> reg_ok own it r.
Proof. intros [_ _ G] H. rewrite Forall_forall in G. apply G. apply list_elem_of_fmap. by exists (i, r). Qed.

Lemma erase_regs_ok own it A i n B : regs_ok own it A -> erase A i = Ok (n, B) -> regs_ok own it B /\ (forall j r, j <> i -> (j, r) ∈ busy A -> (j, r) ∈ busy B) /\ forall q, q ∈ busy B -> q ∈ busy A.
Proof.
  intros [W I G] H. destruct (erase_wf A i n B W H) as (l1 & v & l2 & E1 & E2 & E3 & _ & W'). rewrite E1 in *. refine (conj _ (conj _ _)).
  - split; [done | |]; rewrite E2, ?E3.
    + rewrite items_app in *. rewrite Forall_app in *. unfold items in *. rewrite fmap_cons, Forall_app, Forall_cons in I. rewrite Forall_app, Forall_cons. simpl in I. tauto.
    + rewrite vals_app in *. unfold vals in *. rewrite fmap_cons in G. rewrite Forall_app, Forall_cons in G. rewrite Forall_app. tauto.
  - intros j r Hj. rewrite E2. set_solver.
  - intros q. rewrite E2. set_solver.
Qed.

Lemma last_it_app {T} (l : list (Z * T)) i v : last_it (l ++ [(i, v)]) = i.
Proof. unfold last_it. generalize 0. induction l as [|[j w] t IH]; intros d; simpl; [done | apply IH]. Qed.

Lemma push_region_fresh p own it A r x own' i : regs_ok own' it x.2 -> busy x.2 = busy A ++ [(i, r)] -> push_region (p, A) r = Ok x -> last x.2 = i /\ i ∉ items (busy A).
Proof.
  intros O Hb _. unfold last. rewrite Hb, last_it_app. split; [done |]. pose proof (wf_NoDup_items _ (ro_wf _ _ _ O)) as Hn. rewrite Hb, items_app in Hn. apply NoDup_app in Hn as (_ & Hn & _).
  intros Hi. apply (Hn i Hi). simpl. set_solver.
Qed.

Lemma maybe_push_ok (b : bool) p own it A r x : pool_own p own -> regs_ok own it A -> reg_ok own it r -> (if b then push_region (p, A) r else Ok (p, A)) = Ok x ->
  exists own', own ⊆ own' /\ pool_own x.1 own' /\ regs_ok own' it x.2 /\ forall q, q ∈ busy A -> q ∈ busy x.2.
Proof.
  intros P O Hr H. destruct b; [| injection H as <-; by exists own]. destruct (push_region_ok p own it A r x P O Hr H) as (own' & i & Hs & P' & O' & Hb). exists own'.
  refine (conj Hs (conj P' (conj O' _))). intros q Hq. rewrite Hb. set_solver.
Qed.

(** The sizes of the pieces of a region. *)
Definition sz_before (r : region) (va : Z) : Z := u32 (round_pg_down va - r_remote r).
Definition sz_after (r : region) (va sz : Z) : Z :=
  if round_pg_down (u32 (va + sz - 1)) =? round_pg_down (u32 (r_end r - 1)) then 0 else u32 (r_end r - round_pg_up (u32 (va + sz))).
Definition sz_middle (r : region) (va sz : Z) : Z := u32 (r_sz r - sz_before r va - sz_after r va sz).

Lemma split_regions_ok p own it A reg va sz r new x : pool_own p own -> regs_ok own it A -> (reg, r) ∈ busy A -> r_local r = 0 ->
  split_to_smaller_regions (p, A) reg va sz = Ok (new, x) ->
  exists own' m, own ⊆ own' /\ pool_own x.1 own' /\ regs_ok own' it x.2 /\ (new, m) ∈ busy x.2 /\
    r_local m = 0 /\ r_acc m = r_acc r /\ r_remote m = round_pg_down va /\ r_sz m = sz_middle r va sz.
Proof.
  intros P O Hr Hl H. unfold split_to_smaller_regions in H. apply bind_Ok in H as (r' & Er & H).
  assert (r' = r) as ->. { unfold deref in Er. simpl in Er. rewrite (find_it_elem _ _ _ (wf_NoDup_items _ (ro_wf _ _ _ O)) Hr) in Er. by injection Er. }
  fold (sz_before r va) (sz_after r va sz) in H. fold (sz_middle r va sz) in H. apply bind_Ok in H as ([] & _ & H). rewrite Hl in H.
  pose proof (rk_remote _ _ _ (regs_ok_elem _ _ _ _ _ O Hr)) as Rr.
  assert (Rb : in_range 32 (sz_before r va)) by (apply wrap_range; lia). assert (Rm : in_range 32 (sz_middle r va sz)) by (apply wrap_range; lia).
  assert (Ra : in_range 32 (sz_after r va sz)) by (unfold sz_after; destruct (round_pg_down (u32 (va + sz - 1)) =? _); [unfold in_range; lia | by apply wrap_range]).
  apply bind_Ok in H as ([p1 A1] & E1 & H). destruct (maybe_push_ok _ p own it A _ _ P O (reg_ok_unlocated own it _ _ _ _ Rr Rb) E1) as (own1 & S1 & P1 & O1 & B1).
  apply bind_Ok in H as ([p2 A2] & E2 & H). set (mid := MkRg _ (sz_middle r va sz) _ _ _) in E2. assert (Hm : forall own, reg_ok own it mid) by (intros; apply reg_ok_unlocated; [apply wrap_range; lia | done]).
  destruct (push_region_ok p1 own1 it A1 mid (p2, A2) P1 O1 (Hm _) E2) as (own2 & i & S2 & P2 & O2 & B2). destruct (push_region_fresh p1 own1 it A1 mid (p2, A2) own2 i O2 B2 E2) as (Hlast & Hi). simpl in *.
  rewrite Hlast in H. apply bind_Ok in H as ([p3 A3] & E3 & H).
  destruct (maybe_push_ok _ p2 own2 it A2 _ _ P2 O2 (reg_ok_unlocated own2 it _ _ _ _ ltac:(apply wrap_range; lia) Ra) E3) as (own3 & S3 & P3 & O3 & B3). simpl in *.
  apply bind_Ok in H as ([nx A4] & E4 & H). destruct (erase_regs_ok own3 it A3 reg nx A4 O3 E4) as (O4 & K4 & _).
  apply bind_Ok in H as (n & En & H). apply bind_Ok in H as ([] & Hn & H). apply wassert_Ok in Hn. simpl in *. injection H as <- <-. apply deref_elem in En.
  assert (Hmid : (i, mid) ∈ busy A4). { apply K4; [| apply B3; rewrite B2; set_solver]. intros ->. apply Hi. apply list_elem_of_fmap. exists (reg, r). split; [done | by apply B1]. }
  assert (n = mid) as ->. { pose proof (wf_NoDup_items _ (ro_wf _ _ _ O4)) as Hd. pose proof (find_it_elem _ _ _ Hd En) as F1. rewrite (find_it_elem _ _ _ Hd Hmid) in F1. by injection F1. }
  exists own3, mid. apply Z.eqb_eq in Hn. refine (conj _ (conj P3 (conj O4 (conj Hmid (conj eq_refl (conj eq_refl (conj Hn eq_refl))))))). set_solver.
Qed.

(** ** Runs of handlers *)

Lemma rbind_Ok {X Y} (c : R X) (k : X -> R Y) s y s' : (c ≫= k) s = Ok (y, s') -> exists x s1, c s = Ok (x, s1) /\ k x s1 = Ok (y, s').
Proof. unfold mbind, R_bind. destruct (c s) as [[x s1]|e]; [eauto | done]. Qed.
Lemma rlift_Ok {X} (r : res X) s x s' : rlift r s = Ok (x, s') -> r = Ok x /\ s' = s.
Proof. unfold rlift. destruct r; [by intros [= -> ->] | done]. Qed.
Lemma rassert_Ok b s x s' : rassert b s = Ok (x, s') -> b = true /\ s' = s.
Proof. intros [H ->]%rlift_Ok. by apply wassert_Ok in H. Qed.
Lemma get_app_Ok it s a s' : get_app it s = Ok (a, s') -> find_it it (busy (rt_apps s)) = Some a /\ s' = s.
Proof. intros (B & s1 & [= -> ->] & [H ->]%rlift_Ok)%rbind_Ok. unfold deref in H. by destruct (find_it it _); simplify_eq/=. Qed.

(** Split a run of a handler into its steps. *)
Ltac rstep :=
  match goal with
  | H : (_ ≫= _) _ = Ok (_, _) |- _ => let x := fresh "x" in let s := fresh "s" in let E := fresh "E" in apply rbind_Ok in H as (x & s & E & H)
  | H : mret _ _ = Ok (_, _) |- _ => injection H as ??; subst
  | H : rget _ _ = Ok (_, _) |- _ => injection H as ??; subst
  | H : rupd _ _ = Ok (_, _) |- _ => injection H as ??; subst
  | H : rpanic _ = Ok _ |- _ => discriminate H
  | H : rlift _ _ = Ok (_, _) |- _ => apply rlift_Ok in H as [H ?]; subst
  | H : rassert _ _ = Ok (_, _) |- _ => apply rassert_Ok in H as [H ?]; subst
  | H : get_app _ _ = Ok (_, _) |- _ => apply get_app_Ok in H as [H ?]; subst
  end.

(** ** The invariant *)

Record holds s own : Prop := {
  h_pool : pool_own (rt_pool s) own;
  h_wf : ListSpec.wf (rt_apps s);
  h_apps : forall it a, (it, a) ∈ busy (rt_apps s) -> regs_ok own it (ap_regions a) }.
Definition mem_inv s : Prop := exists own, holds s own.

Lemma holds_at s own it a : holds s own -> find_it it (busy (rt_apps s)) = Some a -> regs_ok own it (ap_regions a).
Proof. intros H E. by apply (h_apps _ _ H), find_it_elem_of. Qed.
Lemma holds_same s s' own : holds s own -> rt_pool s' = rt_pool s -> rt_apps s' = rt_apps s -> holds s' own.
Proof. intros [P W G] E1 E2. split; by rewrite ?E1, ?E2. Qed.
Lemma holds_pool s own p own' : holds s own -> own ⊆ own' -> pool_own p own' -> holds (set_pool s p) own'.
Proof. intros [_ W G] Hs P. split; [done | done |]. intros it a Ha. eapply regs_ok_mono; [exact Hs | by apply G]. Qed.

Lemma items_store {T} (l : list (Z * T)) i w : items (update_it i w l) = items l.
Proof. induction l as [|[j v] t IH]; simpl; [done |]. destruct (Z.eqb_spec j i) as [->|]; simpl; [done |]. unfold items in *. by rewrite IH. Qed.
Lemma update_it_elem {T} (l : list (Z * T)) i w q : NoDup (items l) -> q ∈ update_it i w l -> q = (i, w) \/ (q ∈ l /\ q.1 <> i).
Proof.
  induction l as [|[j v] t IH]; intros Hd Hq; simpl in Hq; [by apply elem_of_nil in Hq |]. apply NoDup_cons in Hd as [Hj Hd]. destruct (Z.eqb_spec j i) as [->|Hji]; apply elem_of_cons in Hq as [->|Hq]; [by left | | right; set_solver |].
  - right. split; [set_solver |]. intros E. apply Hj. rewrite <- E. apply list_elem_of_fmap. by exists q.
  - destruct (IH Hd Hq) as [->|[? ?]]; [by left | right; set_solver].
Qed.
Lemma find_store {T} (l : list (Z * T)) i v w : find_it i l = Some v -> find_it i (update_it i w l) = Some w.
Proof. induction l as [|[j u] t IH]; simpl; [done |]. destruct (Z.eqb_spec j i) as [->|Hj]; simpl; [by rewrite Z.eqb_refl |]. by rewrite (proj2 (Z.eqb_neq _ _) Hj). Qed.
Lemma wf_update {T} (B : alist T) i w : ListSpec.wf B -> ListSpec.wf (store B i w).
Proof. unfold ListSpec.wf, store. simpl. by rewrite items_store. Qed.

Lemma holds_put s own it a : holds s own -> regs_ok own it (ap_regions a) -> holds (set_apps s (store (rt_apps s) it a)) own.
Proof.
  intros [P W G] Ho. split; [done | by apply wf_update |]. intros i b Hb. simpl in Hb. apply update_it_elem in Hb as [[= -> ->]|[Hb _]]; [done | by apply G | by apply wf_NoDup_items].
Qed.

Lemma regs_ok_store own it A i r : regs_ok own it A -> reg_ok own it r -> regs_ok own it (store A i r).
Proof.
  intros [W I G] Hr. split; [by apply wf_update | unfold store; simpl; by rewrite items_store |]. apply Forall_forall. intros v Hv. apply list_elem_of_fmap in Hv as ([j u] & -> & Hv).
  simpl in Hv. apply update_it_elem in Hv as [[= -> ->]|[Hv _]]; [done | | by apply wf_NoDup_items]. rewrite Forall_forall in G. apply G, list_elem_of_fmap. by exists (j, u).
Qed.

Lemma pgpool_alloc_ok sz s r s' own : wrm_pgpool_alloc sz s = Ok (r, s') -> holds s own -> in_range 32 sz ->
  (fpage_is_nil r = true /\ s' = s) \/
  (fpage_is_nil r = false /\ fpage_size r = sz /\ page_ok r /\ rt_apps s' = rt_apps s /\ forall o, holds s' ((o, r) :: own)).
Proof.
  unfold wrm_pgpool_alloc. intros H Hh Hs. apply rbind_Ok in H as (p & s1 & [= <- <-] & H). apply rbind_Ok in H as ([r1 p'] & s1 & [E ->]%rlift_Ok & H).
  apply rbind_Ok in H as ([] & s1 & [= <-] & [= <- <-]). simpl in *. destruct (fpage_is_nil r1) eqn:En.
  - left. split; [done |]. rewrite (pool_own_nil _ _ _ _ _ (h_pool _ _ Hh) Hs E En). by destruct s.
  - right. destruct (pool_own_alloc _ _ _ _ _ 0 (h_pool _ _ Hh) Hs E En) as (_ & Sz & Gp). refine (conj eq_refl (conj Sz (conj Gp (conj eq_refl _)))).
    intros o. destruct (pool_own_alloc _ _ _ _ _ o (h_pool _ _ Hh) Hs E En) as (P' & _). apply (holds_pool s own); [done | set_solver | done].
Qed.

Lemma on_regions_Ok {X} it (f : ppool * alist region -> res (X * (ppool * alist region))) s x s' : on_regions it f s = Ok (x, s') ->
  exists a q, find_it it (busy (rt_apps s)) = Some a /\ f (rt_pool s, ap_regions a) = Ok (x, q) /\ s' = set_apps (set_pool s q.1) (store (rt_apps s) it (with_regions a q.2)).
Proof.
  unfold on_regions. intros (a & s1 & [Ea ->]%get_app_Ok & H)%rbind_Ok. apply rbind_Ok in H as (p & s1 & [= <- <-] & H). apply rbind_Ok in H as ([y q] & s1 & [E ->]%rlift_Ok & H).
  apply rbind_Ok in H as ([] & s1 & [= <-] & H). apply rbind_Ok in H as ([] & s2 & [= <-] & [= <- <-]). exists a, q. by split.
Qed.
Lemma holds_regions s own own' it a q : holds s own -> own ⊆ own' -> pool_own q.1 own' -> regs_ok own' it q.2 ->
  holds (set_apps (set_pool s q.1) (store (rt_apps s) it (with_regions a q.2))) own'.
Proof. intros Hh Hs P O. exact (holds_put (set_pool s q.1) own' it (with_regions a q.2) (holds_pool s own q.1 own' Hh Hs P) O). Qed.

Lemma get_region_Ok it reg s r s' : get_reg it reg s = Ok (r, s') -> s' = s /\ exists a, find_it it (busy (rt_apps s)) = Some a /\ (reg, r) ∈ busy (ap_regions a).
Proof. unfold get_reg. intros (a & s1 & [Ea ->]%get_app_Ok & [H ->]%rlift_Ok)%rbind_Ok. split; [done |]. exists a. split; [done | by apply deref_elem]. Qed.

(** A region that was located: as it was, or with a page of its application. *)
Definition located own own' it (r r' : region) (va sz : Z) : Prop :=
  (r_local r <> 0 /\ r' = r) \/
  (r_local r = 0 /\ r_acc r' = r_acc r /\
   ((r_sz r <= sz /\ r_remote r' = r_remote r /\ r_sz r' = r_sz r) \/ (sz < r_sz r /\ r_remote r' = round_pg_down va /\ r_sz r' = sz_middle r va sz)) /\
   exists pg, (it, pg) ∈ own' /\ r_local r' = fpage_addr pg /\ r_sz r' <= fpage_size pg).

Lemma round_pg_up_ge n : in_range 32 n -> round_pg_up n <> 0 -> n <= round_pg_up n.
Proof.
  intros Hn H0. unfold round_pg_up, Cfg_page_sz in *. change 4096 with (2 ^ 12) in *. destruct (round_up_correct n 12 ltac:(lia) Hn) as [H1 H2].
  destruct (Z.le_gt_cases n (2 ^ 32 - 2 ^ 12)) as [Hle|Hgt]; [by destruct (H1 Hle) as (_ & ? & _) | by rewrite H2 in H0].
Qed.

Lemma put_reg_Ok it reg r s x s' : put_reg it reg r s = Ok (x, s') ->
  exists a, find_it it (busy (rt_apps s)) = Some a /\ s' = set_apps s (store (rt_apps s) it (with_regions a (store (ap_regions a) reg r))).
Proof. unfold put_reg. intros (a & s1 & [Ea ->]%get_app_Ok & [= _ <-])%rbind_Ok. eauto. Qed.

Lemma round_pg_up_range n : in_range 32 n -> in_range 32 (round_pg_up n).
Proof.
  intros Hn. unfold round_pg_up, Cfg_page_sz. change 4096 with (2 ^ 12). destruct (round_up_correct n 12 ltac:(lia) Hn) as [H1 H2]. unfold in_range in *.
  destruct (Z.le_gt_cases n (2 ^ 32 - 2 ^ 12)) as [Hle|Hgt]; [| rewrite H2; lia]. destruct (H1 Hle) as (_ & Hn' & Hm).
  pose proof (Hm (2 ^ 32 - 2 ^ 12) ltac:(by exists (2 ^ 20 - 1)) Hle). lia.
Qed.

Section Locate.
Context {EV : RtEnv}.

Lemma locate_ok s own it a reg r va sz reg' s' : holds s own -> find_it it (busy (rt_apps s)) = Some a -> (reg, r) ∈ busy (ap_regions a) -> locate it reg va sz s = Ok (reg', s') ->
  exists own' a' r', own ⊆ own' /\ holds s' own' /\ find_it it (busy (rt_apps s')) = Some a' /\ (reg', r') ∈ busy (ap_regions a') /\ located own own' it r r' va sz.
Proof.
  intros Hh Ea Hr H. unfold locate in H. apply rbind_Ok in H as (r0 & s1 & [-> (a0 & Ea0 & Hr0)]%get_region_Ok & H).
  rewrite Ea in Ea0. injection Ea0 as <-. pose proof (holds_at s own it a Hh Ea) as O. pose proof (wf_NoDup_items _ (ro_wf _ _ _ O)) as Hd.
  assert (r0 = r) as -> by (pose proof (find_it_elem _ _ _ Hd Hr) as F1; rewrite (find_it_elem _ _ _ Hd Hr0) in F1; by injection F1).
  destruct (r_local r =? 0) eqn:El; simpl in H.
  2: { injection H as <- <-. exists own, a, r. apply Z.eqb_neq in El. refine (conj _ (conj Hh (conj Ea (conj Hr _)))); [done |]. by left. }
  apply Z.eqb_eq in El. apply rbind_Ok in H as (rg & s1 & E1 & H).
  assert (S1 : exists own1 a1 r1, own ⊆ own1 /\ holds s1 own1 /\ find_it it (busy (rt_apps s1)) = Some a1 /\ (rg, r1) ∈ busy (ap_regions a1) /\ r_local r1 = 0 /\ r_acc r1 = r_acc r /\
    ((r_sz r <= sz /\ r_remote r1 = r_remote r /\ r_sz r1 = r_sz r) \/ (sz < r_sz r /\ r_remote r1 = round_pg_down va /\ r_sz r1 = sz_middle r va sz))).
  { destruct (Z.ltb_spec sz (r_sz r)) as [Hlt|Hge].
    - apply on_regions_Ok in E1 as (a0 & q & Ea0 & E1 & ->). rewrite Ea in Ea0. injection Ea0 as <-.
      destruct (split_regions_ok _ _ _ _ _ _ _ _ _ _ (h_pool _ _ Hh) O Hr El E1) as (own1 & m & Hs & P & Oq & Hm & M1 & M2 & M3 & M4). exists own1, (with_regions a q.2), m.
      refine (conj Hs (conj (holds_regions s own own1 it a q Hh Hs P Oq) (conj _ (conj Hm (conj M1 (conj M2 _)))))); [by apply (find_store _ _ a) |]. by right.
    - injection E1 as <- <-. exists own, a, r. refine (conj _ (conj Hh (conj Ea (conj Hr (conj El (conj eq_refl _)))))); [done |]. by left. }
  destruct S1 as (own1 & a1 & r1 & Hs1 & Hh1 & Ea1 & Hr1 & L1 & C1 & G1). apply rbind_Ok in H as (r2 & s2 & [-> (a2 & Ea2 & Hr2)]%get_region_Ok & H).
  rewrite Ea1 in Ea2. injection Ea2 as <-. pose proof (holds_at s1 own1 it a1 Hh1 Ea1) as O1. pose proof (wf_NoDup_items _ (ro_wf _ _ _ O1)) as Hd1.
  assert (r2 = r1) as -> by (pose proof (find_it_elem _ _ _ Hd1 Hr1) as F1; rewrite (find_it_elem _ _ _ Hd1 Hr2) in F1; by injection F1).
  apply rbind_Ok in H as (fp & s2 & E2 & H). apply rbind_Ok in H as ([] & s3 & [Hn ->]%rassert_Ok & H). apply negb_true_iff in Hn. pose proof (regs_ok_elem _ _ _ _ _ O1 Hr1) as [Rr Rs _].
  assert (Ru : in_range 32 (round_pg_up (r_sz r1))) by (by apply round_pg_up_range).
  destruct (pgpool_alloc_ok _ _ _ _ _ E2 Hh1 Ru) as [[Hn' _]|(_ & Sz & Gp & Eap & Hh2)]; [congruence |]. specialize (Hh2 it).
  apply rbind_Ok in H as ([] & s3 & (a3 & Ea3 & ->)%put_reg_Ok & H). rewrite Eap, Ea1 in Ea3. injection Ea3 as <-.
  set (r' := with_local r1 (fpage_addr fp)) in *. assert (Hsz : r_sz r1 <= fpage_size fp) by (rewrite Sz; apply round_pg_up_ge; [done |]; rewrite <- Sz; destruct (page_ok_range fp Gp); lia).
  assert (Hk : reg_ok ((it, fp) :: own1) it r') by (split; [done | done |]; intros _ _; exists fp; split; [set_solver | done]).
  assert (Hs2 : own1 ⊆ (it, fp) :: own1) by set_solver. pose proof (holds_put s2 _ it (with_regions a1 (store (ap_regions a1) rg r')) Hh2 (regs_ok_store _ _ _ rg _ (regs_ok_mono _ _ _ _ Hs2 O1) Hk)) as Hh3.
  apply rbind_Ok in H as ([] & s4 & E4 & [= <- <-]).
  assert (Hfin : rt_pool s4 = rt_pool s2 /\ rt_apps s4 = store (rt_apps s2) it (with_regions a1 (store (ap_regions a1) rg r'))) by (destruct (negb (r_origin r1 =? 0)); by injection E4 as <-).
  destruct Hfin as [F1 F2]. exists ((it, fp) :: own1), (with_regions a1 (store (ap_regions a1) rg r')), r'.
  refine (conj _ (conj (holds_same _ _ _ Hh3 F1 F2) (conj _ (conj _ _)))); [set_solver | rewrite F2; simpl; rewrite Eap; by apply (find_store _ _ a1) | |].
  - simpl. apply find_it_elem_of, (find_store _ _ r1). by apply find_it_elem.
  - right. refine (conj El (conj C1 (conj G1 _))). exists fp. split; [set_solver | done].
Qed.
End Locate.

(** ** Addresses inside regions *)

Lemma round_pg_down_eq n : in_range 32 n -> round_pg_down n = 4096 * (n / 4096).
Proof. intros Hn. unfold round_pg_down, Cfg_page_sz. change 4096 with (2 ^ 12). rewrite round_down_spec by (done || lia). lia. Qed.
Lemma round_pg_up_least n : in_range 32 n -> n <= 2 ^ 32 - 4096 -> least_multiple 4096 n (round_pg_up n).
Proof. intros Hn Hle. unfold round_pg_up, Cfg_page_sz. change 4096 with (2 ^ 12) in *. by apply round_up_correct. Qed.
Lemma wrap_eq x y : 0 <= y < 2 ^ 32 -> (2 ^ 32 | x - y) -> u32 x = y.
Proof. intros Hy [q Hq]. unfold wrap. symmetry. apply (Z.mod_unique x (2 ^ 32) q); lia. Qed.
Lemma wrap_diff x : (2 ^ 32 | x - u32 x).
Proof. exists (x / 2 ^ 32). unfold wrap. rewrite Z.mod_eq by lia. lia. Qed.

(** A range that fits a region without wrapping around is inside it. *)
Lemma fits_inside va sz acc r : in_range 32 va -> 0 < sz -> va + sz < 2 ^ 32 -> in_range 32 (r_remote r) -> in_range 32 (r_sz r) -> reg_fits va sz acc r = true ->
  r_remote r <= va /\ va + sz <= r_remote r + r_sz r /\ r_remote r + r_sz r < 2 ^ 32 /\ r_end r = r_remote r + r_sz r.
Proof.
  unfold in_range, reg_fits, r_end. intros Hva Hsz Hend Hr Hs H. rewrite !andb_true_iff, !Z.leb_le in H. destruct H as [[H1 H2] _].
  rewrite (wrap_small 32 (va + sz)) in H2 by (unfold in_range; lia). destruct (Z.lt_ge_cases (r_remote r + r_sz r) (2 ^ 32)) as [Hlt|Hge].
  - rewrite (wrap_small 32 (r_remote r + r_sz r)) in H2 |- * by (unfold in_range; lia). lia.
  - rewrite (wrap_eq (r_remote r + r_sz r) (r_remote r + r_sz r - 2 ^ 32)) in H2; [lia | lia | exists 1; lia].
Qed.

Lemma middle_inside va sz acc r : in_range 32 va -> 0 < sz -> va + sz < 2 ^ 32 -> in_range 32 (r_remote r) -> in_range 32 (r_sz r) -> reg_fits va sz acc r = true ->
  va - round_pg_down va + sz <= sz_middle r va sz.
Proof.
  intros Hva Hsz Hend Hr Hs Hf. destruct (fits_inside va sz acc r Hva Hsz Hend Hr Hs Hf) as (H1 & H2 & H3 & He). unfold in_range in *.
  set (D := round_pg_down va). set (E := r_remote r + r_sz r) in *. assert (ED : D = 4096 * (va / 4096)) by (by apply round_pg_down_eq). pose proof (Z.div_mod va 4096). pose proof (Z.mod_pos_bound va 4096).
  assert (M : forall after, 0 <= E - D - after < 2 ^ 32 -> u32 (r_sz r - sz_before r va - after) = E - D - after).
  { intros after Ha. apply wrap_eq; [done |]. unfold sz_before. fold D. replace (_ - _ - _ - _) with (D - r_remote r - u32 (D - r_remote r)) by (unfold E; lia). apply wrap_diff. }
  unfold sz_middle, sz_after. rewrite He. rewrite (wrap_small 32 (va + sz - 1)), (wrap_small 32 (E - 1)), (wrap_small 32 (va + sz)) by (unfold in_range; lia).
  destruct (Z.eqb_spec (round_pg_down (va + sz - 1)) (round_pg_down (E - 1))) as [_|Ht]; [rewrite M; lia |].
  rewrite !round_pg_down_eq in Ht by (unfold in_range; lia). pose proof (Z.div_mod (E - 1) 4096). pose proof (Z.mod_pos_bound (E - 1) 4096). pose proof (Z.div_mod (va + sz - 1) 4096). pose proof (Z.mod_pos_bound (va + sz - 1) 4096).
  assert (Hdiv : (va + sz - 1) / 4096 <= (E - 1) / 4096) by (apply Z.div_le_mono; lia). assert (Hm : va + sz <= 4096 * ((E - 1) / 4096)) by lia.
  destruct (round_pg_up_least (va + sz)) as (_ & HU & Hmin); [unfold in_range; lia | lia |]. specialize (Hmin (4096 * ((E - 1) / 4096)) ltac:(by exists ((E - 1) / 4096); lia) Hm).
  rewrite (wrap_small 32 (E - round_pg_up (va + sz))) by (unfold in_range; lia). rewrite M by lia. lia.
Qed.

(** The place of a located range in the page of its application. *)
Lemma located_inside own own' it r r' va sz acc : in_range 32 va -> 0 < sz -> va + sz < 2 ^ 32 -> reg_ok own it r -> own ⊆ own' -> reg_fits va sz acc r = true ->
  located own own' it r r' va sz -> need_relocate r' = true ->
  exists pg, (it, pg) ∈ own' /\ r_local r' = fpage_addr pg /\ r_sz r' <= fpage_size pg /\ r_remote r' <= va /\ va - r_remote r' + sz <= r_sz r'.
Proof.
  intros Hva Hsz Hend [Hr Hs Hp] Hsub Hf Hl Hw. destruct (fits_inside va sz acc r Hva Hsz Hend Hr Hs Hf) as (H1 & H2 & H3 & _).
  destruct Hl as [[Hn ->]|(_ & _ & Hg & pg & Hin & Epg & Hle)].
  - destruct (Hp Hn Hw) as (pg & Hin & Epg & Hle). exists pg. refine (conj (Hsub _ Hin) (conj Epg (conj Hle (conj H1 _)))). lia.
  - exists pg. destruct Hg as [(_ & E1 & E2)|(_ & E1 & E2)]; rewrite E1, ?E2 in *; refine (conj Hin (conj Epg (conj _ (conj _ _)))); try lia.
    + rewrite round_pg_down_eq by done. pose proof (Z.div_mod va 4096). pose proof (Z.mod_pos_bound va 4096). lia.
    + pose proof (middle_inside va sz acc r Hva Hsz Hend Hr Hs Hf). lia.
Qed.

(** ** Locations *)

Section Locations.
Context {EV : RtEnv}.

Lemma reg_find_elem va sz acc l : reg_find va sz acc l <> 0 -> exists r, (reg_find va sz acc l, r) ∈ l /\ reg_fits va sz acc r = true.
Proof.
  induction l as [|[i r] t IH]; simpl; [done |]. destruct (reg_fits va sz acc r) eqn:Ef; [intros _; exists r; split; [set_solver | done] |].
  intros H. destruct (IH H) as (r' & Hin & Hf). exists r'. split; [set_solver | done].
Qed.

Lemma get_location_ok s own it va sz acc x s' : holds s own -> get_location it va sz acc s = Ok (x, s') ->
  exists own', own ⊆ own' /\ holds s' own' /\
    (x = (0, None) \/ exists a' reg r r', find_it it (busy (rt_apps s')) = Some a' /\ (reg, r') ∈ busy (ap_regions a') /\ reg_ok own it r /\ reg_fits va sz acc r = true /\
       located own own' it r r' va sz /\ r_local r' <> 0 /\ x = (u32 (r_local r' + u32 (va - r_remote r')), Some (r_acc r'))).
Proof.
  intros Hh H. unfold get_location in H. apply rbind_Ok in H as (a & s1 & [Ea ->]%get_app_Ok & H). pose proof (holds_at s own it a Hh Ea) as O. pose proof (wf_NoDup_items _ (ro_wf _ _ _ O)) as Hd.
  destruct (Z.eqb_spec (reg_find va sz acc (busy (ap_regions a))) 0) as [_|Hn]; [injection H as <- <-; exists own; refine (conj _ (conj Hh _)); [done | by left] |].
  destruct (reg_find_elem _ _ _ _ Hn) as (r & Hr & Hf). apply rbind_Ok in H as (r0 & s1 & [-> (a0 & Ea0 & Hr0)]%get_region_Ok & H). apply rbind_Ok in H as ([] & s1 & [_ ->]%rassert_Ok & H).
  apply rbind_Ok in H as (reg' & s1 & E1 & H). destruct (locate_ok s own it a _ r va sz reg' s1 Hh Ea Hr E1) as (own' & a' & r' & Hs & Hh' & Ea' & Hr' & Hl).
  apply rbind_Ok in H as (r2 & s2 & [-> (a2 & Ea2 & Hr2)]%get_region_Ok & H). apply rbind_Ok in H as ([] & s2 & [Hnz ->]%rassert_Ok & [= <- <-]). rewrite Ea' in Ea2. injection Ea2 as <-.
  pose proof (wf_NoDup_items _ (ro_wf _ _ _ (holds_at s1 own' it a' Hh' Ea'))) as Hd'.
  assert (r2 = r') as -> by (pose proof (find_it_elem _ _ _ Hd' Hr') as F1; rewrite (find_it_elem _ _ _ Hd' Hr2) in F1; by injection F1).
  exists own'. refine (conj Hs (conj Hh' _)). right. exists a', reg', r, r'. apply negb_true_iff, Z.eqb_neq in Hnz.
  exact (conj Ea' (conj Hr' (conj (regs_ok_elem _ _ _ _ _ O Hr) (conj Hf (conj Hl (conj Hnz eq_refl)))))).
Qed.

Lemma fpage_set_cases w adr sz acc fp : in_range 32 w -> in_range 32 adr -> in_range 32 sz -> fpage_set w adr sz acc = Ok fp ->
  fp = Fpage_nil \/ (fpage_addr fp = adr /\ fpage_size fp = sz /\ fpage_access fp = acc mod 8 /\ 4096 <= sz).
Proof.
  intros Hp Ha Hs H. destruct (fpage_set_correct w adr sz acc Hp Ha Hs) as [H1 H2].
  destruct (decide (Exists (fun k => sz = 2 ^ k /\ adr mod 2 ^ k = 0) (seqZ 12 20))) as [D|D].
  - apply Exists_exists in D as (k & Hk & Ek & Ad). apply elem_of_seqZ in Hk. destruct (H1 k ltac:(lia) Ek Ad) as (q & E & _ & E1 & E2 & _ & E3). rewrite E in H. injection H as <-. right.
    refine (conj E1 (conj E2 (conj E3 _))). rewrite Ek. change 4096 with (2 ^ 12). apply Z.pow_le_mono_r; lia.
  - left. rewrite H2 in H; [by injection H |]. intros k Hk Ek Ad. apply D, Exists_exists. exists k. rewrite elem_of_seqZ. refine (conj _ (conj Ek Ad)).
    destruct (Z.lt_ge_cases k 32); [lia |]. pose proof (Z.pow_le_mono_r 2 32 k). unfold in_range in Hs. lia.
Qed.

(** The page that is made for a range inside [b, b + L). *)
Lemma page_of_range b L va remote sz fp acc : 0 <= b -> b + L <= 2 ^ 32 -> (4096 | b) -> (4096 | L) -> in_range 32 junk -> in_range 32 va -> in_range 32 sz -> remote <= va -> 0 <= remote ->
  va - remote + sz <= L -> fpage_set junk (round_pg_down (u32 (b + u32 (va - remote)))) (round_pg_up sz) acc = Ok fp -> fpage_is_nil fp = false ->
  fpage_access fp = acc mod 8 /\ forall x, fpage_has fp x -> b <= x < b + L.
Proof.
  intros Ha He [qa Ea] [qs Es] Hj Hva Hsz Hle H0 Hin H Hn. unfold in_range in *.
  rewrite (wrap_small 32 (va - remote)) in H by (unfold in_range; lia). destruct (Z.eq_dec sz 0) as [->|Hsz0].
  { unfold fpage_set in H. change (round_pg_up 0) with 0 in H. simpl in H. injection H as <-. done. }
  rewrite (wrap_small 32 (b + _)) in H by (unfold in_range; lia). rewrite round_pg_down_eq in H by (unfold in_range; lia).
  apply fpage_set_cases in H as [-> | (E1 & E2 & E3 & Hmin)]; [done | | done | unfold in_range; pose proof (Z.mul_div_le (b + (va - remote)) 4096); pose proof (Z.div_pos (b + (va - remote)) 4096); lia | by apply round_pg_up_range].
  split; [done |]. unfold fpage_has. rewrite E1, E2. set (off := va - remote) in *. pose proof (Z.div_mod off 4096). pose proof (Z.mod_pos_bound off 4096).
  rewrite Ea in *. replace (qa * 4096 + off) with (off + qa * 4096) by lia. rewrite Z.div_add by lia.
  assert (Hsm : sz <= 2 ^ 32 - 4096). { destruct (Z.le_gt_cases sz (2 ^ 32 - 4096)); [done |]. exfalso. unfold round_pg_up, Cfg_page_sz in Hmin. change 4096 with (2 ^ 12) in *. destruct (round_up_correct sz 12) as [_ Hz]; [lia | unfold in_range; lia |]. rewrite Hz in Hmin; lia. }
  destruct (round_pg_up_least sz) as (_ & _ & Hl); [unfold in_range; lia | done |]. specialize (Hl (L - 4096 * (off / 4096)) ltac:(exists (qs - off / 4096); lia) ltac:(lia)). lia.
Qed.
End Locations.

(** ** Handlers keep the invariant *)

Definition keeps {X} (m : R X) : Prop := forall s x s', m s = Ok (x, s') -> mem_inv s -> mem_inv s'.

Lemma mem_inv_same s s' : mem_inv s -> rt_pool s' = rt_pool s -> rt_apps s' = rt_apps s -> mem_inv s'.
Proof. intros [own H] E1 E2. exists own. by apply (holds_same s). Qed.
Lemma mem_inv_put s it a a' : mem_inv s -> find_it it (busy (rt_apps s)) = Some a -> ap_regions a' = ap_regions a -> mem_inv (set_apps s (store (rt_apps s) it a')).
Proof. intros [own H] Ea Er. exists own. apply holds_put; [done |]. rewrite Er. by apply (holds_at s). Qed.

Create HintDb keeps discriminated.
#[export] Hint Constants Opaque : keeps.

Section Keeps.
Context {EV : RtEnv}.

Lemma mkeeps_ret {X} (x : X) : keeps (mret x).
Proof. by intros s y s' [= _ <-]. Qed.
Lemma mkeeps_bind {X Y} (m : R X) (k : X -> R Y) : keeps m -> (forall x, keeps (k x)) -> keeps (m ≫= k).
Proof. intros Hm Hk s y s' (x & s1 & E & H)%rbind_Ok Hi. eapply Hk; [exact H |]. by eapply Hm. Qed.
Lemma mkeeps_get {X} (f : rt -> X) : keeps (rget f).
Proof. by intros s y s' [= _ <-]. Qed.
Lemma mkeeps_lift {X} (r : res X) : keeps (rlift r).
Proof. by intros s y s' [_ ->]%rlift_Ok. Qed.
Lemma mkeeps_assert b : keeps (rassert b).
Proof. apply mkeeps_lift. Qed.
Lemma mkeeps_panic {X} : keeps (rpanic : R X).
Proof. done. Qed.
Lemma mkeeps_upd f : (forall s, rt_pool (f s) = rt_pool s) -> (forall s, rt_apps (f s) = rt_apps s) -> keeps (rupd f).
Proof. intros H1 H2 s y s' [= _ <-] Hi. by apply (mem_inv_same s). Qed.
Lemma mkeeps_kdb : keeps kdb.
Proof. by apply mkeeps_upd. Qed.
Lemma mkeeps_effect e : keeps (effect e).
Proof. by apply mkeeps_upd. Qed.
Lemma mkeeps_call_krn e : keeps (call_krn e).
Proof. apply mkeeps_bind; [apply mkeeps_get |]. intros l. apply mkeeps_bind; [by apply mkeeps_upd | intros; apply mkeeps_ret]. Qed.
Lemma mkeeps_get_app it : keeps (get_app it).
Proof. intros s a s' [_ ->]%get_app_Ok. done. Qed.
Lemma mkeeps_get_reg it reg : keeps (get_reg it reg).
Proof. intros s r s' [-> _]%get_region_Ok. done. Qed.
Lemma mkeeps_get_location it va sz acc : keeps (get_location it va sz acc).
Proof. intros s x s' H [own Hh]. destruct (get_location_ok s own it va sz acc x s' Hh H) as (own' & _ & Hh' & _). by exists own'. Qed.
Lemma mkeeps_pgpool_alloc sz : in_range 32 sz -> keeps (wrm_pgpool_alloc sz).
Proof. intros Hs s r s' H [own Hh]. destruct (pgpool_alloc_ok sz s r s' own H Hh Hs) as [[_ ->]|(_ & _ & _ & _ & Hh')]; [by exists own |]. exists ((0, r) :: own). apply Hh'. Qed.

Lemma push_reg_ok it r s x s' own : push_reg it r s = Ok (x, s') -> holds s own -> reg_ok own it r -> exists own', own ⊆ own' /\ holds s' own'.
Proof.
  unfold push_reg. intros (a & q & Ea & E & ->)%on_regions_Ok Hh Hr. apply bind_Ok in E as (q' & E & [= <- <-]).
  destruct (push_region_ok _ _ _ _ _ _ (h_pool _ _ Hh) (holds_at s own it a Hh Ea) Hr E) as (own' & i & Hs & P & O & _). exists own'. split; [done |]. exact (holds_regions s own own' it a _ Hh Hs P O).
Qed.
Lemma mkeeps_add_vspace it va sz acc : in_range 32 va -> in_range 32 sz -> keeps (add_vspace it va sz acc).
Proof.
  intros Hv Hs. unfold add_vspace. apply mkeeps_bind; [apply mkeeps_assert | intros _]. apply mkeeps_bind; [apply mkeeps_assert | intros _]. destruct (sz =? 0); [apply mkeeps_ret |].
  apply mkeeps_bind; [apply mkeeps_get_app | intros a]. apply mkeeps_bind; [destruct (negb _); [apply mkeeps_kdb | apply mkeeps_ret] | intros _].
  intros s x s' H [own Hh]. destruct (push_reg_ok it _ s x s' own H Hh (reg_ok_unlocated own it va sz acc 0 Hv Hs)) as (own' & _ & Hh'). by exists own'.
Qed.

Lemma elf_locations_ok own it va sz loc l l' : elf_locations va sz loc l = Ok l' -> Forall (reg_ok own it) (vals l) -> Forall (reg_ok own it) (vals l') /\ items l' = items l.
Proof.
  revert l'. induction l as [|[i r] t IH]; intros l' H F; simpl in H; [injection H as <-; done |]. apply bind_Ok in H as (r' & Er & H). apply bind_Ok in H as (t' & Et & [= <-]).
  unfold vals in F. rewrite fmap_cons in F. apply Forall_cons in F as [Fr Ft]. destruct (IH t' Et Ft) as [F' I']. split; [| unfold items in *; rewrite !fmap_cons; by rewrite I'].
  unfold vals. rewrite fmap_cons. apply Forall_cons. split; [| done]. simpl in *. destruct Fr as [F1 F2 F3]. destruct (_ && _); [| by injection Er as <-].
  inv_bind. destruct (need_relocate r) eqn:En; inv_bind; (split; [done | done |]); [intros Hl _; exact (F3 Hl eq_refl) |]. unfold need_relocate in *. simpl in *. congruence.
Qed.
Lemma mkeeps_set_location_from_elf it va sz loc : keeps (set_location_from_elf it va sz loc).
Proof.
  intros s x s' H [own Hh]. unfold set_location_from_elf in H. apply rbind_Ok in H as (a & s1 & [Ea ->]%get_app_Ok & H). apply rbind_Ok in H as (l & s1 & [El ->]%rlift_Ok & [= _ <-]).
  exists own. apply holds_put; [done |]. destruct (holds_at s own it a Hh Ea) as [W I G]. destruct (elf_locations_ok own it va sz loc _ l El G) as [G' I'].
  split; simpl; [unfold ListSpec.wf in *; simpl; by rewrite I' | by rewrite I' | done].
Qed.

(** Memory from the pool that becomes a region. *)
Lemma add_location_ok it va fp s x s' own : add_location it va fp s = Ok (x, s') -> holds s own -> page_ok fp -> (it, fp) ∈ own -> in_range 32 va -> (x <> 0 /\ s' = s) \/ (x = 0 /\ mem_inv s').
Proof.
  intros H Hh Gp Hin Hv. unfold add_location in H. apply rbind_Ok in H as (a & s1 & [Ea ->]%get_app_Ok & H). destruct (negb _); [injection H as <- <-; by left |].
  apply rbind_Ok in H as ([] & s1 & E & [= <- <-]). right. split; [done |]. assert (Hr : reg_ok own it (MkRg va (fpage_size fp) (fpage_access fp) (fpage_addr fp) 0)).
  { split; [done | apply wrap_range; lia |]. intros _ _. exists fp. simpl. split; [done | split; [done | lia]]. }
  destruct (push_reg_ok it _ s _ s1 own E Hh Hr) as (own' & _ & Hh'). by exists own'.
Qed.
End Keeps.

#[export] Hint Resolve mkeeps_kdb mkeeps_effect mkeeps_call_krn mkeeps_get_app mkeeps_get_reg mkeeps_get_location mkeeps_pgpool_alloc mkeeps_add_vspace mkeeps_set_location_from_elf : keeps.
#[export] Hint Extern 1 (in_range 32 (wrap 32 _)) => (apply wrap_range; lia) : keeps.

Ltac mkeeps_step :=
  cbv zeta;
  lazymatch goal with
  | |- keeps (mbind _ _) => apply mkeeps_bind; [| intros ?]
  | |- keeps (mret _) => apply mkeeps_ret
  | |- keeps (rget _) => apply mkeeps_get
  | |- keeps (rlift _) => apply mkeeps_lift
  | |- keeps (rassert _) => apply mkeeps_assert
  | |- keeps rpanic => apply mkeeps_panic
  | |- keeps (let '(_, _) := ?x in _) => destruct x
  | |- keeps (if ?b then _ else _) => destruct b
  | |- keeps (match ?x with _ => _ end) => destruct x
  | |- _ => solve [eauto with keeps]
  end.
Ltac mkeeps_tac := repeat mkeeps_step.

Section KeepsApps.
Context {EV : RtEnv}.

Lemma mkeeps_with_app {X} id (e : X) f : (forall it, keeps (f it)) -> keeps (with_app id e f).
Proof. intros Hf. unfold with_app, apps_find. mkeeps_tac. Qed.

(** A handler that changes an application but not its regions. *)
Lemma mkeeps_app {X} it (f : app -> res (X * app)) : (forall a x a', f a = Ok (x, a') -> ap_regions a' = ap_regions a) ->
  keeps (a ← get_app it; r ← rlift (f a); _ ← put_app it r.2; mret r.1).
Proof.
  intros Hf s y s' (a & s1 & [Ea ->]%get_app_Ok & H)%rbind_Ok Hi. apply rbind_Ok in H as ([r a'] & s1 & [Er ->]%rlift_Ok & H). apply rbind_Ok in H as ([] & s1 & [= <-] & [= <- <-]).
  apply (mem_inv_put s it a); [done | done | by apply (Hf a r)].
Qed.
Lemma mkeeps_put it a a' s y s' : put_app it a' s = Ok (y, s') -> find_it it (busy (rt_apps s)) = Some a -> ap_regions a' = ap_regions a -> mem_inv s -> mem_inv s'.
Proof. intros [= _ <-] Ea Er Hi. by apply (mem_inv_put s it a). Qed.
Lemma mkeeps_change {X} it (f : app -> app) (k : app -> R X) : (forall a, ap_regions (f a) = ap_regions a) -> (forall a, keeps (k a)) -> keeps (a ← get_app it; _ ← put_app it (f a); k a).
Proof.
  intros Hf Hk s y s' (a & s1 & [Ea ->]%get_app_Ok & H)%rbind_Ok Hi. apply rbind_Ok in H as ([] & s1 & E & H). eapply Hk; [exact H |]. by eapply mkeeps_put.
Qed.

Lemma thread_alloc_regions a u st sz x a' : thread_alloc a u st sz = Ok (x, a') -> ap_regions a' = ap_regions a.
Proof. unfold thread_alloc. intros H. inv_bind. by subst. Qed.
Lemma thread_terminate_regions a n c x a' : thread_terminate a n c = Ok (x, a') -> ap_regions a' = ap_regions a.
Proof. unfold thread_terminate. intros H. inv_bind. by subst. Qed.
Lemma thread_free_regions a n x a' : thread_free a n = Ok (x, a') -> ap_regions a' = ap_regions a.
Proof. unfold thread_free. intros H. inv_bind. by subst. Qed.

Lemma mkeeps_app_get_location id va sz acc : keeps (wrm_app_get_location id va sz acc).
Proof. apply mkeeps_with_app. intros it. mkeeps_tac. Qed.
Lemma mkeeps_thr_alloc id u st sz : keeps (wrm_app_thr_alloc id u st sz).
Proof.
  apply mkeeps_with_app. intros it s y s' (a & s1 & [Ea ->]%get_app_Ok & H)%rbind_Ok Hi. apply rbind_Ok in H as ([r a'] & s1 & [Er ->]%rlift_Ok & H). apply rbind_Ok in H as ([] & s1 & E & H).
  apply (mkeeps_ret _ s1 y s' H). apply (mkeeps_put it a a' _ _ _ E Ea); [by eapply thread_alloc_regions | done].
Qed.
Lemma mkeeps_thr_terminate id n c : keeps (wrm_app_thr_terminate id n c).
Proof. apply mkeeps_with_app. intros it. apply (mkeeps_app it (fun a => thread_terminate a n c)). intros a x a'. apply thread_terminate_regions. Qed.
Lemma mkeeps_thr_free id n : keeps (wrm_app_thr_free id n).
Proof. apply mkeeps_with_app. intros it. apply (mkeeps_app it (fun a => thread_free a n)). intros a x a'. apply thread_free_regions. Qed.
Lemma mkeeps_thr_state id n : keeps (wrm_app_thr_state id n).
Proof. apply mkeeps_with_app. intros it. mkeeps_tac. Qed.
Lemma mkeeps_thr_numbers id : keeps (wrm_app_thr_numbers id).
Proof. apply mkeeps_with_app. intros it. mkeeps_tac. Qed.
Lemma mkeeps_max_prio id : keeps (wrm_app_max_prio id).
Proof. apply mkeeps_with_app. intros it. mkeeps_tac. Qed.
Lemma mkeeps_alloc_aspace id : keeps (wrm_app_alloc_aspace id).
Proof. apply mkeeps_with_app. intros it. apply (mkeeps_change it (fun a => (alloc_aspace a).2)); [| intros; apply mkeeps_ret]. intros a. unfold alloc_aspace. by case_match. Qed.
Lemma mkeeps_free_aspace id : keeps (wrm_app_free_aspace id).
Proof. apply mkeeps_with_app. intros it. apply (mkeeps_change it (fun a => (free_aspace a).2)); [| intros; apply mkeeps_ret]. intros a. unfold free_aspace. by case_match. Qed.
End KeepsApps.
#[export] Hint Resolve mkeeps_app_get_location mkeeps_thr_alloc mkeeps_thr_terminate mkeeps_thr_free mkeeps_thr_state mkeeps_thr_numbers mkeeps_max_prio mkeeps_alloc_aspace mkeeps_free_aspace : keeps.
