(* ===== verification/AlphaSpec.v ===== *)
(** What the root task guarantees ([AppMgr], [Alpha]): in every state that its
    start and any sequence of messages reach, memory that one application can
    write belongs to no other application and is not in the pool. *)

From Stdlib Require Import ZArith Lia Bool.
From stdpp Require Import base list numbers relations.
From S2P Require Import Prelude SysUtils ListSpec L4Types CString PagePool AppMgr Alpha AlphaMem.

Section Start.
Context {EV : RtEnv}.

Lemma mkeeps_modify it (f : app -> app) : (forall a, ap_regions (f a) = ap_regions a) -> keeps (a ← get_app it; put_app it (f a)).
Proof. intros Hf s y s' (a & s1 & [Ea ->]%get_app_Ok & H)%rbind_Ok Hi. by eapply mkeeps_put. Qed.
Lemma mkeeps_change_res {X Y} it (g : app -> res Y) (f : app -> Y -> app) (k : app -> Y -> R X) : (forall a y, ap_regions (f a y) = ap_regions a) -> (forall a y, keeps (k a y)) ->
  keeps (a ← get_app it; y ← rlift (g a); _ ← put_app it (f a y); k a y).
Proof.
  intros Hf Hk s x s' (a & s1 & [Ea ->]%get_app_Ok & H)%rbind_Ok Hi. apply rbind_Ok in H as (y & s1 & [_ ->]%rlift_Ok & H). apply rbind_Ok in H as ([] & s1 & E & H).
  eapply Hk; [exact H |]. by eapply mkeeps_put.
Qed.

Lemma fpage_addr_range p : in_range 32 (fpage_addr p).
Proof. apply wrap_range. lia. Qed.
Lemma fpage_size_range p : in_range 32 (fpage_size p).
Proof. apply wrap_range. lia. Qed.
Lemma mkeeps_add_vspace_fpage it fp : keeps (add_vspace_fpage it fp).
Proof. apply mkeeps_add_vspace; [apply fpage_addr_range | apply fpage_size_range]. Qed.

Lemma mkeeps_add_app id : keeps (add_app id).
Proof.
  intros s x s' H [own [P W G]]. unfold add_app in H. apply rbind_Ok in H as (B & s1 & [= <- <-] & H). apply rbind_Ok in H as (B' & s1 & [E ->]%rlift_Ok & H). apply rbind_Ok in H as ([] & s1 & [= <-] & [= _ <-]).
  exists own. destruct (push_back_wf _ _ _ W E) as [W' _]. split; [done | done |]. intros it a Ha. simpl in Ha. unfold push_back, take_free in E. destruct (free (rt_apps s)) as [|f fs]; [done |].
  simpl in E. injection E as <-. simpl in Ha. apply elem_of_app in Ha as [Ha|Ha]; [by apply G |]. apply list_elem_of_singleton in Ha as [= -> ->]. split; [split; constructor | constructor | constructor].
Qed.

Definition cb_ok (c : elf_cb) : Prop := match c with Shdr a sz _ _ => in_range 32 a /\ in_range 32 sz | Phdr _ _ _ _ => True end.
Lemma mkeeps_elf_callbacks it l : Forall cb_ok l -> keeps (elf_callbacks it l).
Proof.
  induction l as [|c t IH]; intros F; simpl; [apply mkeeps_ret |]. apply Forall_cons in F as [Fc Ft]. destruct c as [a sz acc bits|va sz loc load]; (apply mkeeps_bind; [| intros _; by apply IH]).
  - destruct bits; [| apply mkeeps_ret]. destruct Fc. by apply mkeeps_add_vspace.
  - destruct load; [apply mkeeps_set_location_from_elf | apply mkeeps_ret].
Qed.

Lemma mkeeps_store_args l : forall argv cnt loc sz d, keeps (store_args l argv cnt loc sz d).
Proof. induction l as [|x t IH]; intros; simpl; [apply mkeeps_ret |]. unfold store_word. mkeeps_tac. Qed.

(** Memory that is taken for a region: kept if the region is added. *)
Lemma alloc_add_location {X} it sz va (k : Z -> R X) : in_range 32 sz -> in_range 32 va -> (forall fp, keeps (k fp)) ->
  keeps (fp ← wrm_pgpool_alloc sz; _ ← rassert (negb (fpage_is_nil fp)); _ ← add_location it va fp; k fp).
Proof.
  intros Hs Hv Hk s x s' (fp & s1 & E1 & H)%rbind_Ok [own Hh]. apply rbind_Ok in H as ([] & s2 & [Hn ->]%rassert_Ok & H). apply negb_true_iff in Hn. apply rbind_Ok in H as (rc & s2 & E2 & H).
  eapply Hk; [exact H |]. destruct (pgpool_alloc_ok _ _ _ _ _ E1 Hh Hs) as [[Hn' _]|(_ & _ & Gp & _ & Hh1)]; [congruence |]. specialize (Hh1 it).
  destruct (add_location_ok it va fp s1 rc s2 _ E2 Hh1 Gp ltac:(set_solver) Hv) as [[_ ->]|[_ ?]]; [by eexists | done].
Qed.

Lemma mkeeps_args it name l va : in_range 32 va -> keeps (args it name l va).
Proof.
  intros Hv. unfold args. apply mkeeps_bind; [apply mkeeps_get_app | intros a]. apply mkeeps_bind; [apply mkeeps_assert | intros _]. cbv zeta.
  apply (alloc_add_location it Cfg_page_sz va); [unfold in_range, Cfg_page_sz; lia | done |]. intros fp. destruct (_ <? _); [apply mkeeps_panic |].
  apply mkeeps_bind; [apply mkeeps_store_args | intros _]. apply mkeeps_bind; [apply mkeeps_get_app | intros b]. unfold store_word.
  do 5 (apply mkeeps_bind; [solve [auto with keeps | apply mkeeps_assert] | intros ?]).
  apply (mkeeps_modify it (fun a => with_stack a (ap_stack_ua a) (ap_stack_sz a) (u32 (ap_sp a - 12)))). done.
Qed.

Definition cfg_ok (c : app_cfg) : Prop := in_range 32 (c_stack_sz c) /\ in_range 32 (c_max_threads c).
Lemma mkeeps_prepare cfg id e : cfg_ok cfg -> Forall cb_ok (e_cbs e) -> keeps (prepare_app_memory_map cfg id e).
Proof.
  intros [Hc _] He. unfold prepare_app_memory_map. apply mkeeps_bind; [apply mkeeps_add_app | intros it].
  apply (mkeeps_change_res it (fun a => thrs_max (ap_threads a) (c_max_threads cfg)) (fun a ts => with_config a (c_short_name cfg) (c_max_aspaces cfg) ts (c_max_prio cfg) (c_fpu cfg) (c_strategy cfg))); [done |].
  intros _ _. apply mkeeps_bind; [by apply mkeeps_elf_callbacks | intros _]. apply mkeeps_bind; [mkeeps_tac | intros _]. cbv zeta.
  apply (mkeeps_change it (fun a => with_areas a (e_entry e) (ap_kip a) (ap_utcb a))); [done |]. intros _. apply mkeeps_bind; [| intros _].
  { unfold stack_area. apply (mkeeps_change it (fun x => with_stack x _ _ _)); [done |]. intros _. apply mkeeps_add_vspace; [apply wrap_range; lia | by apply round_pg_up_range]. }
  apply mkeeps_bind; [apply mkeeps_lift | intros kip]. apply (mkeeps_change it (fun a => with_areas a (ap_entry a) kip (ap_utcb a))); [done |]. intros _.
  apply mkeeps_bind; [apply mkeeps_add_vspace_fpage | intros _]. apply mkeeps_bind; [apply mkeeps_lift | intros utcb]. apply mkeeps_bind; [apply mkeeps_assert | intros _].
  apply (mkeeps_change it (fun a => with_areas a (ap_entry a) (ap_kip a) utcb)); [done |]. intros _.
  apply mkeeps_bind; [apply mkeeps_add_vspace_fpage | intros _]. apply mkeeps_bind; [apply mkeeps_args, wrap_range; lia | intros _]. apply mkeeps_ret.
Qed.

Lemma mkeeps_start it : keeps (create_aspace_and_start_app_thread it).
Proof. unfold create_aspace_and_start_app_thread. mkeeps_tac. Qed.

Context (Helf : forall name e, ramfs_get_file name = Some e -> Forall cb_ok (e_cbs e)).

Lemma mkeeps_create id cfg : cfg_ok cfg -> keeps (wrm_app_create id cfg).
Proof.
  intros Hc. unfold wrm_app_create. destruct (negb _); [apply mkeeps_ret |]. destruct (ramfs_get_file _) as [e|] eqn:Ee; [| apply mkeeps_ret].
  apply mkeeps_bind; [apply mkeeps_prepare; [done | by eapply Helf] | intros it]. apply mkeeps_bind; [apply mkeeps_start | intros _]. apply mkeeps_ret.
Qed.
Lemma mkeeps_create_apps l : forall no, Forall cfg_ok l -> keeps (create_apps no l).
Proof.
  induction l as [|c t IH]; intros no F; simpl; [apply mkeeps_ret |]. apply Forall_cons in F as [Fc Ft]. apply mkeeps_bind; [by apply mkeeps_create | intros rc].
  apply mkeeps_bind; [mkeeps_tac | intros _]. by apply IH.
Qed.

Lemma mkeeps_named_add m loc : keeps (named_add m loc).
Proof. unfold named_add. mkeeps_tac. by apply mkeeps_upd. Qed.
Lemma mkeeps_prepare_named l : Forall (fun m => in_range 32 (m_sz m)) l -> keeps (prepare_named_memory_regions l).
Proof.
  induction l as [|m t IH]; intros F; simpl; [apply mkeeps_ret |]. apply Forall_cons in F as [Fm Ft]. unfold make_not_cached.
  pose proof mkeeps_named_add. pose proof (IH Ft). mkeeps_tac.
Qed.
End Start.

(** ** Requests *)

Section Requests.
Context {EV : RtEnv} (devices : list io_device).

Lemma mkeeps_answer from l : keeps (answer from l).
Proof. unfold answer. mkeeps_tac. Qed.
Hint Resolve mkeeps_answer : keeps.
Lemma mkeeps_find_cfg from : keeps (find_cfg from).
Proof. unfold find_cfg. mkeeps_tac. Qed.
Hint Resolve mkeeps_find_cfg : keeps.
Lemma mkeeps_usable_device name from : keeps (usable_device devices name from).
Proof. unfold usable_device. mkeeps_tac. Qed.
Hint Resolve mkeeps_usable_device : keeps.

Lemma mkeeps_pfault tag mr from : keeps (process_pfault tag mr from).
Proof. unfold process_pfault. mkeeps_tac. Qed.
Lemma mkeeps_io_pfault tag mr from : keeps (process_io_pfault devices tag mr from).
Proof. unfold process_io_pfault. mkeeps_tac. Qed.
Lemma mkeeps_map_io tag mr from : keeps (process_map_io devices tag mr from).
Proof. unfold process_map_io. mkeeps_tac. Qed.
Lemma mkeeps_attach tag mr from a : keeps (process_attach_detach_int devices tag mr from a).
Proof. unfold process_attach_detach_int. mkeeps_tac. Qed.
Lemma mkeeps_named_mem tag mr from : keeps (process_named_memory_request tag mr from).
Proof. unfold process_named_memory_request. mkeeps_tac. Qed.
Lemma mkeeps_create_thread tag mr from : keeps (process_create_thread_request tag mr from).
Proof. unfold process_create_thread_request. mkeeps_tac. Qed.
Lemma mkeeps_create_task tag mr from : keeps (process_create_task_request tag mr from).
Proof. unfold process_create_task_request. mkeeps_tac. Qed.
Lemma mkeeps_delete_threads n : forall i t c e, keeps (delete_threads n i t c e).
Proof. induction n as [|n IH]; intros; simpl; mkeeps_tac; apply IH. Qed.
Hint Resolve mkeeps_delete_threads : keeps.
Lemma mkeeps_delete_thread tag mr from : keeps (process_delete_thread_request tag mr from).
Proof. unfold process_delete_thread_request, delete_thread. mkeeps_tac. Qed.
Lemma mkeeps_register tag mr from : keeps (process_register_thread_request tag mr from).
Proof. unfold process_register_thread_request, nthr_record. mkeeps_tac. by apply mkeeps_upd. Qed.
Lemma mkeeps_get_thread_id tag mr from : keeps (process_get_thread_id_request tag mr from).
Proof. unfold process_get_thread_id_request. mkeeps_tac. Qed.
Lemma mkeeps_app_threads tag mr from : keeps (process_app_threads_request tag mr from).
Proof. unfold process_app_threads_request. mkeeps_tac. Qed.
End Requests.

(** ** The whole task *)

Section Isolation.
Context {EV : RtEnv} (devices : list io_device).

Lemma al_mr_range mr i : Forall (in_range 32) mr -> in_range 32 (al_mr mr i).
Proof.
  intros F. unfold al_mr. destruct (nth_in_or_default i mr 0) as [H|E]; [| rewrite E; unfold in_range; lia]. rewrite Forall_forall in F. apply F. by apply list_elem_of_In.
Qed.

Lemma mkeeps_pgpool_back s own fp s' x o : wrm_pgpool_add fp s = Ok (x, s') -> holds s ((o, fp) :: own) -> (forall it a, (it, a) ∈ busy (rt_apps s) -> regs_ok own it (ap_regions a)) -> mem_inv s'.
Proof.
  intros H [P W _] G. unfold wrm_pgpool_add in H. apply rbind_Ok in H as (p & s1 & [= <- <-] & H). apply rbind_Ok in H as (p' & s1 & [E ->]%rlift_Ok & [= _ <-]).
  exists own. split; [by eapply pool_own_add | done | done].
Qed.

Lemma mkeeps_usual_mem tag mr from : Forall (in_range 32) mr -> keeps (process_usual_memory_request tag mr from).
Proof.
  intros F. unfold process_usual_memory_request. do 2 (apply mkeeps_bind; [apply mkeeps_assert | intros _]). cbv zeta. apply mkeeps_bind; [apply mkeeps_find_cfg | intros c].
  apply mkeeps_bind; [| intros r; pose proof mkeeps_answer; mkeeps_tac]. destruct c as [[i cfg]|]; [| apply mkeeps_ret]. destruct (_ <? _); [apply mkeeps_ret |].
  intros s x s' (fp & s1 & E1 & H)%rbind_Ok [own Hh]. destruct (pgpool_alloc_ok _ _ _ _ _ E1 Hh (al_mr_range mr 2 F)) as [[Hn ->]|(Hn & _ & Gp & Eap & Hh1)]; rewrite Hn in H; [injection H as <- <-; by exists own |].
  apply rbind_Ok in H as (rc & s2 & E2 & H). unfold wrm_app_add_location, with_app, apps_find in E2. apply rbind_Ok in E2 as (it & s3 & E3 & E2).
  apply rbind_Ok in E3 as (B & s4 & [= <- <-] & [= <- <-]). set (it := apps_search _ _) in *.
  assert (Hback : forall s0, s0 = s1 -> forall y, (_ ← wrm_pgpool_add fp; mret (inl y : Z + Z)) s0 = Ok (x, s') -> mem_inv s').
  { intros s0 -> y (u & s5 & E5 & [= _ <-])%rbind_Ok. eapply mkeeps_pgpool_back; [exact E5 | exact (Hh1 0) |]. intros j a Ha. rewrite Eap in Ha. by apply (h_apps _ _ Hh). }
  destruct (it =? 0); [injection E2 as <- <-; by apply (Hback s1 eq_refl 4) |]. apply rbind_Ok in E2 as (rc1 & s3 & E3 & [= <- <-]).
  destruct (add_location_ok it _ fp s1 rc1 s3 _ E3 (Hh1 it) Gp ltac:(set_solver) (al_mr_range mr 1 F)) as [[Hne ->]|[-> Hi]].
  - apply Z.eqb_neq in Hne. rewrite Hne in H. by apply (Hback s1 eq_refl 4).
  - simpl in H. apply rbind_Ok in H as ([] & s4 & [= <-] & [= _ <-]). by apply (mem_inv_same s3).
Qed.

Lemma mkeeps_round rc mr from : Forall (in_range 32) mr -> keeps (alpha_round devices rc mr from).
Proof.
  intros F. unfold alpha_round, process_exception. cbv zeta.
  pose proof mkeeps_pfault. pose proof (mkeeps_io_pfault devices). pose proof (mkeeps_map_io devices). pose proof (mkeeps_attach devices). pose proof mkeeps_named_mem. pose proof mkeeps_create_thread. pose proof mkeeps_create_task.
  pose proof mkeeps_delete_thread. pose proof mkeeps_register. pose proof mkeeps_get_thread_id. pose proof mkeeps_app_threads. pose proof (fun tag from => mkeeps_usual_mem tag mr from F). mkeeps_tac.
Qed.

(** *** Reachable states *)

(** The start of the task: memory in the pool, no applications yet. *)
Record boot (s : rt) : Prop := { b_pool : pg_inv (rt_pool s); b_none : busy (rt_apps s) = []; b_wf : ListSpec.wf (rt_apps s) }.

Inductive alpha_step : rt -> rt -> Prop :=
  | do_named l s s' : Forall (fun m => in_range 32 (m_sz m)) l -> prepare_named_memory_regions l s = Ok (tt, s') -> alpha_step s s'
  | do_apps no l s s' : Forall cfg_ok l -> create_apps no l s = Ok (tt, s') -> alpha_step s s'
  | do_round rc mr from s s' : Forall (in_range 32) mr -> alpha_round devices rc mr from s = Ok (tt, s') -> alpha_step s s'.

Context (Helf : forall name e, ramfs_get_file name = Some e -> Forall cb_ok (e_cbs e)).

Lemma boot_inv s : boot s -> mem_inv s.
Proof.
  intros [P N W]. exists []. split; [split; [done | constructor | constructor | by intros a b ?%elem_of_nil | simpl; pose proof (pg_small _ P); lia] | done |].
  intros it a Ha. rewrite N in Ha. by apply elem_of_nil in Ha.
Qed.
Lemma steps_inv s s' : rtc alpha_step s s' -> mem_inv s -> mem_inv s'.
Proof.
  induction 1 as [|s1 s2 s3 H _ IH]; [done |]. intros Hi. apply IH. destruct H as [l s s' F E|no l s s' F E|rc mr from s s' F E].
  - by eapply mkeeps_prepare_named.
  - by eapply mkeeps_create_apps.
  - by eapply mkeeps_round.
Qed.

(** *** Memory of an application *)

(** The bytes of the writable regions of the application [it]. *)
Definition writable (s : rt) (it x : Z) : Prop :=
  exists a i r, (it, a) ∈ busy (rt_apps s) /\ (i, r) ∈ busy (ap_regions a) /\ r_local r <> 0 /\ need_relocate r = true /\ r_local r <= x < r_local r + round_pg_up (r_sz r).

Lemma round_pg_up_page pg n : page_ok pg -> in_range 32 n -> n <= fpage_size pg -> round_pg_up n <= fpage_size pg.
Proof.
  intros Gp Hn Hle. destruct (page_ok_range pg Gp) as (Hs & _ & _ & _ & D). destruct (Z.le_gt_cases n (2 ^ 32 - 4096)) as [Hm|Hm].
  - destruct (round_pg_up_least n Hn Hm) as (_ & _ & Hl). by apply Hl.
  - unfold round_pg_up, Cfg_page_sz. change 4096 with (2 ^ 12) in *. destruct (round_up_correct n 12 ltac:(lia) Hn) as [_ ->]; lia.
Qed.

Lemma writable_owned s own it x : holds s own -> writable s it x -> exists pg, (it, pg) ∈ own /\ fpage_has pg x.
Proof.
  intros Hh (a & i & r & Ha & Hr & Hl & Hw & Hx). pose proof (h_apps _ _ Hh it a Ha) as O. destruct (regs_ok_elem _ _ _ _ _ O Hr) as [_ Rs Rp]. destruct (Rp Hl Hw) as (pg & Hin & E & Hle).
  exists pg. split; [done |]. assert (Gp : page_ok pg). { pose proof (po_good _ _ (h_pool _ _ Hh)) as G. rewrite Forall_forall in G. apply G, list_elem_of_fmap. by exists (it, pg). }
  pose proof (round_pg_up_page pg (r_sz r) Gp Rs Hle). unfold fpage_has. lia.
Qed.

Lemma pairwise_keys (own : list (Z * Z)) a b x pg pg' : pairwise strangers own.*2 -> (a, pg) ∈ own -> (b, pg') ∈ own -> fpage_has pg x -> fpage_has pg' x -> a = b.
Proof.
  induction own as [|[k q] t IH]; intros Hp Ha Hb Hx Hx'; [by apply elem_of_nil in Ha |]. rewrite fmap_cons in Hp. destruct Hp as [F Hp]. rewrite Forall_forall in F. simpl in F.
  assert (Hc : forall c qc, (c, qc) ∈ t -> fpage_has q x -> fpage_has qc x -> False). { intros c qc Hc H1 H2. apply (F qc); [apply list_elem_of_fmap; by exists (c, qc) | by exists x]. }
  apply elem_of_cons in Ha as [[= -> ->]|Ha]; apply elem_of_cons in Hb as [[= -> ->]|Hb]; [done | exfalso; by eapply Hc | exfalso; by eapply Hc | by apply IH].
Qed.

(** *** Pages for page faults *)

Lemma land_w a : Z.land (a mod 8) Acc_w = Z.land a Acc_w.
Proof. change 8 with (2 ^ 3). rewrite <- Z.land_ones, <- Z.land_assoc by lia. done. Qed.

Context (Hjunk : in_range 32 junk).

(** The page for a range of an application whose name does not begin with
    "lx" lies in its own memory if it is writable. *)
Lemma get_location_page s from va sz acc rc fp s' it : mem_inv s -> in_range 32 va -> 0 < sz -> va + sz < 2 ^ 32 ->
  apps_search (thrid_number from) (busy (rt_apps s)) = it -> it <> 0 -> (forall a, (it, a) ∈ busy (rt_apps s') -> name_is_lx (ap_name a) = false) ->
  wrm_app_get_location from va sz acc s = Ok ((rc, fp), s') ->
  (rc = -2 /\ fp = None) \/
  exists pg, fp = Some pg /\ rc = (if fpage_is_nil pg then -3 else 0) /\ (fpage_is_nil pg = true \/ (Z.land (fpage_access pg) Acc_w <> 0 -> forall x, fpage_has pg x -> writable s' it x)).
Proof.
  intros [own Hh] Hva Hsz Hend Hit Hn Hlx H. unfold wrm_app_get_location, with_app, apps_find in H. apply rbind_Ok in H as (it' & s1 & E0 & H). apply rbind_Ok in E0 as (B & s2 & [= <- <-] & [= <- <-]). rewrite Hit in H.
  apply Z.eqb_neq in Hn. rewrite Hn in H. cbv zeta in H. apply rbind_Ok in H as ([l ac] & s1 & E1 & H). destruct (get_location_ok s own it va sz acc _ s1 Hh E1) as (own1 & Hs1 & Hh1 & Hx).
  simpl in H. destruct (Z.eqb_spec l 0) as [->|Hl]; simpl in H.
  { apply rbind_Ok in H as (l2 & s2 & E2 & H). apply rbind_Ok in H as (a & s3 & [Ea ->]%get_app_Ok & H). destruct (negb (l2.1 =? 0) && name_is_lx (ap_name a) && negb (acc =? Acc_x)) eqn:Hb.
    - apply rbind_Ok in H as (pg & s3 & [_ ->]%rlift_Ok & [= _ _ <-]). apply andb_true_iff in Hb as [[_ Hb]%andb_true_iff _]. rewrite (Hlx a) in Hb; [done |]. by apply find_it_elem_of.
    - injection H as <- <- _. by left. }
  apply rbind_Ok in H as (pg & s2 & [Ep ->]%rlift_Ok & [= <- <- <-]). right. exists pg. split; [done |]. split; [done |]. destruct (fpage_is_nil pg) eqn:Hnil; [by left | right]. intros Hw x Hx'.
  destruct Hx as [[= -> _]|(a' & reg & r & r' & Ea' & Hr' & Hrk & Hf & Hloc & Hl0 & [= -> ->])]; [done |]. simpl in Ep.
  pose proof (regs_ok_elem _ _ _ _ _ (holds_at s1 own1 it a' Hh1 Ea') Hr') as [Rr Rs _].
  assert (Hin : in_range 32 sz) by (unfold in_range in *; lia).
  assert (Hacc : fpage_access pg = r_acc r' mod 8).
  { apply fpage_set_cases in Ep as [-> | (_ & _ & E & _)]; [done | done | done | | by apply round_pg_up_range]. rewrite round_pg_down_eq by (apply wrap_range; lia).
    assert (in_range 32 (u32 (r_local r' + u32 (va - r_remote r')))) as [? ?] by (apply wrap_range; lia). set (y := u32 _) in *. pose proof (Z.mul_div_le y 4096). pose proof (Z.div_pos y 4096). unfold in_range. lia. }
  assert (Hwr : need_relocate r' = true) by (unfold need_relocate; rewrite Hacc, land_w in Hw; apply negb_true_iff, Z.eqb_neq; done).
  destruct (located_inside own own1 it r r' va sz acc Hva Hsz Hend Hrk Hs1 Hf Hloc Hwr) as (q & Hq & Eq & Hle & Hrem & Hoff).
  assert (Gq : page_ok q). { pose proof (po_good _ _ (h_pool _ _ Hh1)) as G. rewrite Forall_forall in G. apply G, list_elem_of_fmap. by exists (it, q). }
  destruct (page_ok_range q Gq) as (_ & Q0 & Q1 & Q2 & _). pose proof (round_pg_up_page q (r_sz r') Gq Rs Hle) as Hup.
  assert (Hsm : r_sz r' <= 2 ^ 32 - 4096). { destruct Gq as (k & Hk & Gk). destruct (good_range k q Hk Gk) as (E & _). unfold pg_in_sizes, Pg_lgsz_max in Hk. pose proof (Z.pow_le_mono_r 2 k 31). lia. }
  destruct (round_pg_up_least (r_sz r') Rs Hsm) as (Dl & Hge & _). rewrite Eq in Ep. destruct Rr as [Rr0 _].
  destruct (page_of_range (fpage_addr q) (round_pg_up (r_sz r')) va (r_remote r') sz pg (r_acc r')) as [_ Hall]; try done; [lia | lia |].
  exists a', reg, r'. refine (conj _ (conj Hr' (conj Hl0 (conj Hwr _)))); [by apply find_it_elem_of |]. rewrite Eq. by apply Hall.
Qed.

Lemma answer_sends from l s x s' : answer from l s = Ok (x, s') -> rt_apps s' = rt_apps s /\ rt_pool s' = rt_pool s /\ exists k, rt_events s' = rt_events s ++ EvSend from l :: k.
Proof.
  unfold answer, call_krn. intros (rc & s1 & E & H)%rbind_Ok. apply rbind_Ok in E as (ev & s2 & [= <- <-] & E). apply rbind_Ok in E as ([] & s2 & [= <-] & [= <- <-]).
  destruct (negb _); [injection H as _ <- | injection H as _ <-]; simpl; (split; [done | split; [done |]]); [exists [EvKdb]; by rewrite <- (assoc (++)) | by exists []].
Qed.

(** C28: isolation of memory by the root task: in every state that the start and
    any messages of any threads reach, a byte that one application can write
    belongs to no other application and to no page of the pool.  A page fault
    of a thread of an application is answered with a page that is complete
    (which raises an exception in the thread), nil, without the right to write,
    or all of whose bytes are writable memory of this application -- provided
    the fault address does not wrap around and the name of the application does
    not begin with "lx", whose pages get the rights that are asked for. *)
Theorem memory_isolation s0 s : boot s0 -> rtc alpha_step s0 s ->
  (forall it it' x, writable s it x -> writable s it' x -> it = it') /\
  (forall it x b, writable s it x -> b ∈ pages (rt_pool s) -> ~ fpage_has b x) /\
  (forall tag mr from it s', apps_search (thrid_number from) (busy (rt_apps s)) = it -> it <> 0 -> in_range 32 (al_mr mr 1) -> al_mr mr 1 + 4 < 2 ^ 32 ->
     (forall a, (it, a) ∈ busy (rt_apps s') -> name_is_lx (ap_name a) = false) -> process_pfault tag mr from s = Ok (tt, s') ->
     exists l w0 pg k, rt_events s' = l ++ EvSend from [tag_set_ipc 0 0 2; w0; pg] :: k /\
       (fpage_is_complete pg = true \/ fpage_is_nil pg = true \/ Z.land (fpage_access pg) Acc_w = 0 \/ forall x, fpage_has pg x -> writable s' it x)).
Proof.
  intros Hb Hr. pose proof (steps_inv s0 s Hr (boot_inv s0 Hb)) as Hi. refine (conj _ (conj _ _)).
  - destruct Hi as [own Hh]. intros it it' x H1 H2. destruct (writable_owned s own it x Hh H1) as (p1 & I1 & X1). destruct (writable_owned s own it' x Hh H2) as (p2 & I2 & X2).
    by apply (pairwise_keys own it it' x p1 p2 (po_own _ _ (h_pool _ _ Hh))).
  - destruct Hi as [own Hh]. intros it x b H1 Hb' Hx. destruct (writable_owned s own it x Hh H1) as (p1 & I1 & X1).
    apply (po_free _ _ (h_pool _ _ Hh) p1 b); [apply list_elem_of_fmap; by exists (it, p1) | done | by exists x].
  - intros tag mr from it s' Hit Hn Hva Hend Hlx H. unfold process_pfault in H. do 2 (apply rbind_Ok in H as ([] & s1 & [_ ->]%rassert_Ok & H)). apply rbind_Ok in H as ([rc fp] & s1 & E1 & H).
    apply rbind_Ok in H as (local & s2 & E2 & H). cbv zeta in H. apply answer_sends in H as (Ha & _ & k & Ek). simpl in E2.
    assert (A2 : rt_apps s2 = rt_apps s1) by (destruct (rc =? -2); [by injection E2 as _ <- |]; apply rbind_Ok in E2 as ([] & s3 & E3 & [= _ <-]); destruct (negb _); by injection E3 as <-).
    exists (rt_events s2), (mitem_set junk local false).1, local, k. split; [exact Ek |].
    destruct (get_location_page s from _ 4 _ rc fp s1 it Hi Hva ltac:(lia) Hend Hit Hn ltac:(intros a; rewrite <- A2, <- Ha; apply Hlx) E1) as [[-> ->]|(pg & -> & Erc & Hpg)].
    + injection E2 as <- _. left. unfold fpage_is_complete, fpage_set_complete, fpage_base, fpage_log2sz. bf_simpl. done.
    + assert (Hrc : (rc =? -2) = false) by (rewrite Erc; by destruct (fpage_is_nil pg)). rewrite Hrc in E2. apply rbind_Ok in E2 as ([] & s3 & _ & [= <- _]). simpl. right.
      destruct Hpg as [?|Hpg]; [by left |]. right. destruct (Z.eq_dec (Z.land (fpage_access pg) Acc_w) 0) as [?|Hw]; [by left | right]. intros x Hx. unfold writable. rewrite Ha, A2. by apply Hpg.
Qed.
End Isolation.
