(* ===== verification/AlphaAuth.v ===== *)
(** What the root task does for a thread ([Alpha]): the calls of the kernel and
    the replies of one round concern only the sender of the message, threads of
    its application and interrupts of devices configured for it. *)

From Stdlib Require Import ZArith Lia Bool.
From stdpp Require Import base list numbers relations.
From S2P Require Import Prelude SysUtils ListSpec L4Types CString PagePool AppMgr Alpha AlphaMem AlphaSpec.

(** ** Authority *)

(** First thread, end of the threads and greatest priority of an application. *)
Definition rng (a : app) : Z * Z * Z := (owner_no a, thr_end a, ap_max_prio a).
Definition ranges (s : rt) : list (Z * (Z * Z * Z)) := (fun q => (q.1, rng q.2)) <$> busy (rt_apps s).
Fixpoint rfind (num : Z) (l : list (Z * (Z * Z * Z))) : option (Z * Z * Z) :=
  match l with [] => None | (_, (b, e, p)) :: t => if (b <=? num) && (num <? e) then Some (b, e, p) else rfind num t end.
(** The devices of an application. *)
Definition rights (s : rt) : list (Z * list (list Z)) := (fun c => (c_max_threads c, c_devs c)) <$> rt_cfgs s.
Fixpoint dfind (first num : Z) (l : list (Z * list (list Z))) : list (list Z) :=
  match l with [] => [] | (n, d) :: t => let e := u32 (first + n) in if (first <=? num) && (num <? e) then d else dfind e num t end.

Section Auth.
Context {EV : RtEnv} (devices : list io_device) (rs : list (Z * (Z * Z * Z))) (gs : list (Z * list (list Z))) (from : Z).

Definition own_no (k : Z) : Prop := exists b e p, rfind (thrid_number from) rs = Some (b, e, p) /\ b <= k < e.
Definition own_prio (v : Z) : Prop := exists b e p, rfind (thrid_number from) rs = Some (b, e, p) /\ v <= p.
Definition own_id (id : Z) : Prop := exists k, own_no k /\ (id = thrid_create_global k Def_glob_ver \/ thrid_number id = k).
(** Both the device and an entry of the configuration match one name. *)
Definition own_device (dev : io_device) : Prop :=
  exists n name, dev ∈ devices /\ n ∈ dfind (user_base + 2) (thrid_number from) gs /\ strn_eq Name_len_max (d_name dev) name = true /\ strn_eq Name_len_max n name = true.

Definition authorised (e : aev) : Prop :=
  match e with
  | EvSend to _ => to = from
  | EvThread dst _ _ _ _ => own_id dst \/ exists dev, own_device dev /\ dst = thrid_create_irq (d_irq dev)
  | EvSchedule dst prio => own_id dst /\ own_prio prio
  | EvSpace dst _ _ _ _ => own_id dst
  | EvAttr _ _ => False
  | EvClock | EvCopy _ _ _ | EvStore _ _ | EvKdb => True
  end.

Definition small_app (q : Z * app) : Prop := 0 <= thr_max (ap_threads q.2) <= Thrs_size.
Definition fits (s : rt) : Prop := ListSpec.wf (rt_apps s) /\ ranges s = rs /\ rights s = gs /\ Forall small_app (busy (rt_apps s)).
(** A step keeps the ranges, calls what is authorised and has a result in [P]. *)
Definition stays {X} (m : R X) (P : X -> Prop) : Prop :=
  forall s x s', m s = Ok (x, s') -> fits s -> fits s' /\ P x /\ exists l, rt_events s' = rt_events s ++ l /\ Forall authorised l.

Lemma stays_bind {X Y} (m : R X) (k : X -> R Y) P Q : stays m P -> (forall x, P x -> stays (k x) Q) -> stays (m ≫= k) Q.
Proof.
  intros Hm Hk s y s' (x & s1 & E & H)%rbind_Ok Hf. destruct (Hm s x s1 E Hf) as (F1 & P1 & l1 & E1 & A1). destruct (Hk x P1 s1 y s' H F1) as (F2 & P2 & l2 & E2 & A2).
  refine (conj F2 (conj P2 _)). exists (l1 ++ l2). split; [by rewrite E2, E1, app_assoc | by apply Forall_app].
Qed.
Lemma stays_quiet {X} (m : R X) (P : X -> Prop) : (forall s x s', m s = Ok (x, s') -> fits s -> fits s' /\ P x /\ rt_events s' = rt_events s) -> stays m P.
Proof. intros H s x s' E Hf. destruct (H s x s' E Hf) as (F & Px & Ev). refine (conj F (conj Px _)). exists []. by rewrite Ev, app_nil_r. Qed.
Lemma stays_impl {X} (m : R X) (P Q : X -> Prop) : stays m P -> (forall x, P x -> Q x) -> stays m Q.
Proof. intros H HPQ s x s' E Hf. destruct (H s x s' E Hf) as (F & Px & R). exact (conj F (conj (HPQ x Px) R)). Qed.

Definition any {X} (x : X) : Prop := True.
Lemma stays_ret {X} (x : X) (P : X -> Prop) : P x -> stays (mret x) P.
Proof. intros HP. apply stays_quiet. by intros s y s' [= <- <-] Hf. Qed.
Lemma stays_get {X} (f : rt -> X) : stays (rget f) any.
Proof. apply stays_quiet. by intros s y s' [= _ <-] Hf. Qed.
Lemma stays_lift {X} (r : res X) : stays (rlift r) any.
Proof. apply stays_quiet. by intros s y s' [_ ->]%rlift_Ok Hf. Qed.
Lemma stays_assert b : stays (rassert b) any.
Proof. apply stays_lift. Qed.
Lemma stays_panic {X} P : stays (rpanic : R X) P.
Proof. done. Qed.
Lemma stays_log e : authorised e -> stays (rupd (fun s => log_ev s e)) any.
Proof. intros He s x s' [= _ <-] Hf. refine (conj Hf (conj I _)). exists [e]. split; [done | by apply Forall_singleton]. Qed.
Lemma stays_kdb : stays kdb any.
Proof. by apply stays_log. Qed.
Lemma stays_effect e : authorised e -> stays (effect e) any.
Proof. apply stays_log. Qed.
Lemma stays_call e : authorised e -> stays (call_krn e) any.
Proof.
  intros He. unfold call_krn. eapply stays_bind; [apply stays_get | intros l _]. eapply stays_bind; [by apply stays_log | intros _ _]. by apply stays_ret.
Qed.

(** ** Applications *)

Lemma ranges_store s it a a' : find_it it (busy (rt_apps s)) = Some a -> rng a' = rng a -> ranges (set_apps s (store (rt_apps s) it a')) = ranges s.
Proof.
  intros Ea Er. unfold ranges. simpl. revert Ea. generalize (busy (rt_apps s)). intros l. induction l as [|[j b] t IH]; simpl; [done |]. destruct (j =? it) eqn:Ej.
  - intros [= ->]. apply Z.eqb_eq in Ej as ->. rewrite !fmap_cons. simpl. by rewrite Er.
  - intros H. rewrite !fmap_cons. by rewrite IH.
Qed.
Lemma fits_put s it a a' : fits s -> find_it it (busy (rt_apps s)) = Some a -> rng a' = rng a -> thr_max (ap_threads a') = thr_max (ap_threads a) -> fits (set_apps s (store (rt_apps s) it a')).
Proof.
  intros (W & E1 & E2 & Sm) Ea Er Em. refine (conj _ (conj _ (conj E2 _))); [by apply wf_update | by rewrite (ranges_store s it a) |]. apply Forall_forall. intros q Hq. rewrite Forall_forall in Sm.
  simpl in Hq. apply update_it_elem in Hq as [->|[Hq _]]; [| by apply Sm | by apply wf_NoDup_items]. unfold small_app. simpl. rewrite Em. exact (Sm (it, a) (find_it_elem_of _ _ _ Ea)).
Qed.

Lemma stays_get_app it : stays (get_app it) any.
Proof. apply stays_quiet. by intros s a s' [_ ->]%get_app_Ok Hf. Qed.
Lemma stays_get_reg it reg : stays (get_reg it reg) any.
Proof. apply stays_quiet. by intros s a s' [-> _]%get_region_Ok Hf. Qed.
Lemma stays_put_reg it reg r : stays (put_reg it reg r) any.
Proof. apply stays_quiet. intros s x s' (a & Ea & ->)%put_reg_Ok Hf. refine (conj _ (conj I eq_refl)). by apply (fits_put s it a). Qed.
Lemma stays_on_regions {X} it (f : ppool * alist region -> res (X * (ppool * alist region))) : stays (on_regions it f) any.
Proof.
  apply stays_quiet. intros s x s' (a & q & Ea & _ & ->)%on_regions_Ok Hf. refine (conj _ (conj I eq_refl)). exact (fits_put (set_pool s q.1) it a (with_regions a q.2) Hf Ea eq_refl eq_refl).
Qed.
Lemma stays_pgpool_alloc sz : stays (wrm_pgpool_alloc sz) any.
Proof.
  unfold wrm_pgpool_alloc. eapply stays_bind; [apply stays_get | intros p _]. eapply stays_bind; [apply stays_lift | intros r _].
  eapply (stays_bind _ _ any); [apply stays_quiet; by intros s x s' [= _ <-] Hf | intros _ _; by apply stays_ret].
Qed.
Lemma stays_pgpool_add fp : stays (wrm_pgpool_add fp) any.
Proof.
  unfold wrm_pgpool_add. eapply stays_bind; [apply stays_get | intros p _]. eapply stays_bind; [apply stays_lift | intros r _]. apply stays_quiet; by intros s x s' [= _ <-] Hf.
Qed.
Lemma stays_find_app id : stays (apps_find id) any.
Proof. unfold apps_find. eapply stays_bind; [apply stays_get | intros A _; by apply stays_ret]. Qed.
End Auth.

Create HintDb stays discriminated.
#[export] Hint Constants Opaque : stays.
#[export] Hint Resolve stays_kdb stays_effect stays_call stays_get_app stays_get_reg stays_put_reg stays_on_regions stays_pgpool_alloc stays_pgpool_add stays_find_app : stays.
#[export] Hint Extern 1 (authorised _ _ _ _ (EvCopy _ _ _)) => exact I : stays.
#[export] Hint Extern 1 (authorised _ _ _ _ EvClock) => exact I : stays.
#[export] Hint Extern 1 (authorised _ _ _ _ (EvStore _ _)) => exact I : stays.
#[export] Hint Extern 1 (authorised _ _ _ _ (EvSend _ _)) => reflexivity : stays.

Ltac stays_leaf :=
  lazymatch goal with
  | |- stays _ _ _ _ (rget _) _ => apply stays_get
  | |- stays _ _ _ _ (rlift _) _ => apply stays_lift
  | |- stays _ _ _ _ (rassert _) _ => apply stays_assert
  | |- stays _ _ _ _ rpanic _ => apply stays_panic
  | |- _ => solve [eauto with stays]
  end.
Ltac stays_step :=
  cbv zeta;
  lazymatch goal with
  | |- stays _ _ _ _ (mret _) any => apply stays_ret; exact I
  | |- stays _ _ _ _ (mbind _ _) _ => first [eapply stays_bind; [stays_leaf | intros ? ?] | eapply (stays_bind _ _ _ _ _ _ any); [| intros ? _]]
  | |- stays _ _ _ _ (let '(_, _) := ?x in _) _ => destruct x
  | |- stays _ _ _ _ (if ?b then _ else _) _ => destruct b eqn:?
  | |- stays _ _ _ _ (match ?x with _ => _ end) _ => destruct x
  | |- _ => stays_leaf
  end.
Ltac stays_tac := repeat stays_step.

Section Calls.
Context {EV : RtEnv} (devices : list io_device) (rs : list (Z * (Z * Z * Z))) (gs : list (Z * list (list Z))) (from : Z).
Local Notation st := (stays devices rs gs from).

Lemma stays_locate it reg va sz : st (locate it reg va sz) any.
Proof. unfold locate. stays_tac. Qed.
Hint Resolve stays_locate : stays.
Lemma stays_get_location it va sz acc : st (get_location it va sz acc) any.
Proof. unfold get_location. stays_tac. Qed.
Hint Resolve stays_get_location : stays.
Lemma stays_app_get_location id va sz acc : st (wrm_app_get_location id va sz acc) any.
Proof. unfold wrm_app_get_location, with_app. stays_tac. Qed.
Lemma stays_add_location it va fp : st (add_location it va fp) any.
Proof. unfold add_location, push_reg. stays_tac. Qed.
Hint Resolve stays_add_location : stays.
Lemma stays_app_add_location id va fp : st (wrm_app_add_location id va fp) any.
Proof. unfold wrm_app_add_location, with_app. stays_tac. Qed.

(** The application of the sender. *)
Lemma apps_search_find num l : NoDup (items l) -> apps_search num l <> 0 -> exists a, find_it (apps_search num l) l = Some a /\ rfind num ((fun q => (q.1, rng q.2)) <$> l) = Some (rng a) /\ owner_no a <= num < thr_end a.
Proof.
  induction l as [|[j b] t IH]; intros Hd; [done |]. rewrite fmap_cons. simpl. apply NoDup_cons in Hd as [Hj Hd]. unfold has_thread. destruct ((owner_no b <=? num) && (num <? thr_end b)) eqn:Hb.
  - intros _. exists b. rewrite Z.eqb_refl. apply andb_true_iff in Hb as [?%Z.leb_le ?%Z.ltb_lt]. done.
  - intros Hn. destruct (IH Hd Hn) as (a & Ea & Er & Hr). exists a. refine (conj _ (conj Er Hr)). destruct (Z.eqb_spec j (apps_search num t)) as [->|]; [| done].
    exfalso. apply Hj, find_it_in. by exists a.
Qed.
Lemma with_app_own {X} (e : X) (f : Z -> R X) (P : X -> Prop) : P e -> (forall it s x s' a, f it s = Ok (x, s') -> fits rs gs s -> find_it it (busy (rt_apps s)) = Some a -> rfind (thrid_number from) rs = Some (rng a) -> owner_no a <= thrid_number from < thr_end a -> fits rs gs s' /\ P x /\ rt_events s' = rt_events s) ->
  st (with_app from e f) P.
Proof.
  intros He Hf. apply stays_quiet. intros s x s' H F. unfold with_app, apps_find in H. apply rbind_Ok in H as (it & s1 & E & H). apply rbind_Ok in E as (B & s2 & [= <- <-] & [= <- <-]).
  destruct (Z.eqb_spec (apps_search (thrid_number from) (busy (rt_apps s))) 0) as [_|Hn]; [injection H as <- <-; done |].
  pose proof F as (W & Er & _). destruct (apps_search_find _ _ (wf_NoDup_items _ W) Hn) as (a & Ea & Ef & Hr). apply (Hf _ s x s' a H F Ea); [by rewrite <- Er | done].
Qed.

Lemma thrs_alloc_bounds l : forall i n u sk sz, let r := thrs_alloc_loop l i n u sk sz in r.1 = -1 \/ i <= r.1 < i + Z.of_nat n.
Proof.
  induction l as [|t l IH]; intros i n u sk sz; destruct n as [|n]; simpl; try (by left). destruct (th_state t =? Wrm_thr_state_free); simpl; [right; lia |].
  destruct (IH (i + 1) n u sk sz) as [->|H]; [by left | right; lia].
Qed.

Lemma owner_no_range a : 0 <= owner_no a < 2 ^ 26.
Proof.
  unfold owner_no, thrid_number, glob_number, loc_number. pose proof (bf_get_range 14 18 (ap_owner a) ltac:(lia) ltac:(lia)). pose proof (bf_get_range 6 26 (ap_owner a) ltac:(lia) ltac:(lia)).
  unfold in_range in *. destruct (thrid_is_global _); lia.
Qed.
Lemma thr_end_eq q a : small_app (q, a) -> thr_end a = owner_no a + thr_max (ap_threads a).
Proof. unfold small_app, Thrs_size. simpl. intros H. unfold thr_end. apply wrap_small. pose proof (owner_no_range a). unfold in_range. lia. Qed.
Lemma fits_small s it a : fits rs gs s -> find_it it (busy (rt_apps s)) = Some a -> small_app (it, a).
Proof. intros (_ & _ & _ & Sm) Ea. rewrite Forall_forall in Sm. by apply Sm, find_it_elem_of. Qed.

Lemma stays_thr_alloc u sk sz : st (wrm_app_thr_alloc from u sk sz) (fun x => x.1 = 0 -> own_no rs from x.2).
Proof.
  apply with_app_own; [done |]. intros it s x s' a H F Ea Er _. apply rbind_Ok in H as (b & s1 & [Eb ->]%get_app_Ok & H). rewrite Ea in Eb. injection Eb as <-.
  apply rbind_Ok in H as ([r a'] & s1 & [Et ->]%rlift_Ok & H). apply rbind_Ok in H as ([] & s1 & [= <-] & [= <- <-]). simpl. unfold thread_alloc in Et. inv_bind.
  pose proof (fits_small s it a F Ea) as Sm. refine (conj _ (conj _ eq_refl)); [by apply (fits_put rs gs s it a) |]. pose proof (owner_no_range a). pose proof (thr_end_eq it a Sm) as Ee.
  destruct (thrs_alloc_bounds (thr_tab (ap_threads a)) 0 (Z.to_nat (thr_max (ap_threads a))) u sk sz) as [E2|Hb]; [rewrite E2; simpl; lia |]. set (i := (thrs_alloc_loop _ _ _ _ _ _).1) in *.
  rewrite (proj2 (Z.ltb_ge i 0)) by lia. rewrite (proj2 (Z.ltb_ge (i + owner_no a) 0)) by lia. simpl. intros _. exists (owner_no a), (thr_end a), (ap_max_prio a). split; [done |]. unfold small_app in Sm. simpl in Sm. lia.
Qed.
Lemma stays_max_prio : st (wrm_app_max_prio from) (fun x => x.1 = 0 -> own_prio rs from x.2).
Proof.
  apply with_app_own; [done |]. intros it s x s' a H F Ea Er _. apply rbind_Ok in H as (b & s1 & [Eb ->]%get_app_Ok & [= <- <-]). rewrite Ea in Eb. injection Eb as <-.
  refine (conj F (conj _ eq_refl)). intros _. eexists _, _, _. split; [exact Er |]. simpl. lia.
Qed.
Lemma stays_thr_numbers : st (wrm_app_thr_numbers from) (fun x => x.1 = 0 -> exists p, rfind (thrid_number from) rs = Some (x.2.1, x.2.2, p)).
Proof.
  apply with_app_own; [done |]. intros it s x s' a H F Ea Er _. apply rbind_Ok in H as (b & s1 & [Eb ->]%get_app_Ok & [= <- <-]). rewrite Ea in Eb. injection Eb as <-.
  refine (conj F (conj _ eq_refl)). intros _. by eexists.
Qed.
Lemma stays_thr_numbers_of id : st (wrm_app_thr_numbers id) any.
Proof. unfold wrm_app_thr_numbers, with_app. stays_tac. Qed.
Lemma stays_thr_state id n : st (wrm_app_thr_state id n) any.
Proof. unfold wrm_app_thr_state, with_app. stays_tac. Qed.

(** A change of the threads of an application. *)
Lemma stays_app {X} it (f : app -> res (X * app)) : (forall a x a', f a = Ok (x, a') -> rng a' = rng a /\ thr_max (ap_threads a') = thr_max (ap_threads a)) ->
  st (a ← get_app it; r ← rlift (f a); _ ← put_app it r.2; mret r.1) any.
Proof.
  intros Hf. apply stays_quiet. intros s y s' (a & s1 & [Ea ->]%get_app_Ok & H)%rbind_Ok F. apply rbind_Ok in H as ([r a'] & s1 & [Er ->]%rlift_Ok & H). apply rbind_Ok in H as ([] & s1 & [= <-] & [= <- <-]).
  destruct (Hf a r a' Er). refine (conj _ (conj I eq_refl)). by apply (fits_put rs gs s it a).
Qed.
Lemma thr_put_max ts i t : thr_max (thr_put ts i t) = thr_max ts.
Proof. done. Qed.
Lemma thread_terminate_rng a n c x a' : thread_terminate a n c = Ok (x, a') -> rng a' = rng a /\ thr_max (ap_threads a') = thr_max (ap_threads a).
Proof.
  unfold thread_terminate, thrs_terminate. intros H. apply bind_Ok in H as ([] & _ & H). apply bind_Ok in H as ([r ts] & E & [= _ <-]). assert (Em : thr_max ts = thr_max (ap_threads a)).
  { destruct (thr_max (ap_threads a) <=? _); [by injection E as _ <- |]. apply bind_Ok in E as (t & _ & E). destruct (negb _); by injection E as _ <-. }
  simpl. split; [| done]. unfold rng, owner_no, thr_end, owner_no. simpl. by rewrite Em.
Qed.
Lemma thread_free_rng a n x a' : thread_free a n = Ok (x, a') -> rng a' = rng a /\ thr_max (ap_threads a') = thr_max (ap_threads a).
Proof.
  unfold thread_free, thrs_free. intros H. apply bind_Ok in H as ([] & _ & H). apply bind_Ok in H as ([r ts] & E & [= _ <-]). assert (Em : thr_max ts = thr_max (ap_threads a)).
  { destruct (thr_max (ap_threads a) <=? _); [by injection E as _ <- |]. apply bind_Ok in E as (t & _ & E). destruct (negb _); by injection E as _ <-. }
  simpl. split; [| done]. unfold rng, owner_no, thr_end, owner_no. simpl. by rewrite Em.
Qed.
Lemma stays_with_app {X} id (e : X) (f : Z -> R X) : (forall it, st (f it) any) -> st (with_app id e f) any.
Proof. intros Hf. unfold with_app. eapply stays_bind; [apply stays_find_app | intros it _]. destruct (it =? 0); [by apply stays_ret | apply Hf]. Qed.
Lemma stays_thr_terminate id n c : st (wrm_app_thr_terminate id n c) any.
Proof. apply stays_with_app. intros it. apply (stays_app _ (fun a => thread_terminate a n c)). intros a x' a'. apply thread_terminate_rng. Qed.
Lemma stays_thr_free id n : st (wrm_app_thr_free id n) any.
Proof. apply stays_with_app. intros it. apply (stays_app _ (fun a => thread_free a n)). intros a x' a'. apply thread_free_rng. Qed.
Lemma stays_alloc_aspace id : st (wrm_app_alloc_aspace id) any.
Proof.
  apply stays_with_app. intros it. apply stays_quiet. intros s y s' (a & s1 & [Ea ->]%get_app_Ok & H)%rbind_Ok F. apply rbind_Ok in H as ([] & s1 & [= <-] & [= <- <-]).
  refine (conj _ (conj I eq_refl)). apply (fits_put rs gs s it a); [done | done | |]; unfold alloc_aspace; by case_match.
Qed.
End Calls.
#[export] Hint Resolve stays_get_location stays_add_location stays_app_get_location stays_app_add_location stays_thr_alloc stays_max_prio stays_thr_numbers_of stays_thr_state stays_thr_terminate stays_thr_free stays_alloc_aspace : stays.

(** ** Requests *)

Section Requests.
Context {EV : RtEnv} (devices : list io_device) (rs : list (Z * (Z * Z * Z))) (gs : list (Z * list (list Z))) (from : Z).
Local Notation st := (stays devices rs gs from).

Lemma stays_answer l : st (answer from l) any.
Proof. unfold answer. stays_tac. Qed.
Hint Resolve stays_answer : stays.

Definition own_cfg (c : nat * app_cfg) : Prop := c_devs c.2 = dfind (user_base + 2) (thrid_number from) gs /\ gs !! c.1 = Some (c_max_threads c.2, c_devs c.2).
Lemma cfg_search_devs num l : forall first i c, cfg_search first num l i = Some c -> c_devs c.2 = dfind first num ((fun c => (c_max_threads c, c_devs c)) <$> l).
Proof.
  induction l as [|c0 l IH]; intros first i c; [done |]. rewrite fmap_cons. simpl. destruct ((first <=? num) && (num <? u32 (first + c_max_threads c0))); [by intros [= <-] | apply IH].
Qed.
Lemma cfg_search_at num l : forall first i c, cfg_search first num l i = Some c -> exists k, c.1 = (i + k)%nat /\ l !! k = Some c.2.
Proof.
  induction l as [|c0 l IH]; intros first i c; [done |]. simpl. destruct ((first <=? num) && _).
  - intros [= <-]. exists 0%nat. by rewrite Nat.add_0_r.
  - intros (k & E & H)%IH. exists (S k). split; [lia | done].
Qed.
Lemma stays_find_cfg : st (find_cfg from) (fun o => forall c, o = Some c -> own_cfg c).
Proof.
  apply stays_quiet. intros s x s' (l & s1 & [= <- <-] & [= <- <-])%rbind_Ok F. refine (conj F (conj _ eq_refl)). destruct F as (_ & _ & Eg & _). intros c Hc. unfold own_cfg. rewrite <- Eg. split; [by eapply cfg_search_devs |].
  destruct (cfg_search_at _ _ _ _ _ Hc) as (k & -> & Hk). unfold rights. by rewrite list_lookup_fmap, Nat.add_0_l, Hk.
Qed.
Lemma stays_find_cfg_any : st (find_cfg from) any.
Proof. by eapply stays_impl; [apply stays_find_cfg |]. Qed.
Hint Resolve stays_find_cfg_any : stays.
Lemma stays_usable_device name : st (usable_device devices name from) (fun r => forall dev, r = inr dev -> own_device devices gs from dev).
Proof.
  unfold usable_device. eapply stays_bind; [apply stays_find_cfg | intros c Hc]. apply stays_ret. intros dev. destruct c as [[i cfg]|]; [| done]. specialize (Hc _ eq_refl). destruct (dev_find devices name) as [d|] eqn:Ed; [| done].
  destruct (allowed (c_devs cfg) name) eqn:Ha; [| done]. intros [= <-]. apply find_some in Ed as [Hin He]. apply existsb_exists in Ha as (n & Hn & Hs). exists n, name.
  destruct Hc as [Hc _]. simpl in Hc. rewrite <- Hc. by rewrite <- !list_elem_of_In in *.
Qed.

Lemma stays_pfault tag mr : st (process_pfault tag mr from) any.
Proof. unfold process_pfault. stays_tac. Qed.
Lemma stays_io_pfault tag mr : st (process_io_pfault devices tag mr from) any.
Proof. unfold process_io_pfault. stays_tac. Qed.
Lemma stays_map_io tag mr : st (process_map_io devices tag mr from) any.
Proof.
  unfold process_map_io. do 2 stays_step. eapply stays_bind; [apply stays_usable_device | intros r _]. destruct r as [e|dev]; stays_tac.
Qed.
Lemma stays_attach tag mr action : st (process_attach_detach_int devices tag mr from action) any.
Proof.
  unfold process_attach_detach_int. do 2 stays_step. eapply stays_bind; [apply stays_usable_device | intros r Hr]. destruct r as [e|dev]; [stays_tac |]. specialize (Hr dev eq_refl).
  eapply (stays_bind _ _ _ _ _ _ any); [eapply stays_bind; [apply stays_call; right; by exists dev | intros rc _; stays_tac] | intros y _; stays_tac].
Qed.
Lemma stays_named tag mr : st (process_named_memory_request tag mr from) any.
Proof. unfold process_named_memory_request. stays_tac. Qed.
Lemma stays_set_heap c v : own_cfg c -> st (rupd (fun s => set_cfgs s (<[c.1 := with_heap c.2 v]> (rt_cfgs s)))) any.
Proof.
  intros [_ Hg]. apply stays_quiet. intros s x s' [= _ <-] (W & Er & Eg & Sm). refine (conj (conj W (conj Er (conj _ Sm))) (conj I eq_refl)). unfold rights. simpl. rewrite list_fmap_insert. simpl.
  rewrite list_insert_id; [done |]. fold (rights s). by rewrite Eg.
Qed.
Lemma stays_usual tag mr : st (process_usual_memory_request tag mr from) any.
Proof.
  unfold process_usual_memory_request. do 2 stays_step. cbv zeta. eapply stays_bind; [apply stays_find_cfg | intros [[i cfg]|] Hc; [| stays_tac]]. specialize (Hc _ eq_refl).
  eapply (stays_bind _ _ _ _ _ _ any); [| intros r _; stays_tac]. stays_step; [stays_tac |]. stays_step. stays_step; [stays_tac |]. stays_step. stays_step; [stays_tac |].
  eapply stays_bind; [exact (stays_set_heap (i, cfg) _ Hc) | intros _ _; stays_tac].
Qed.

Lemma own_new t : own_no rs from t -> own_id rs from (thrid_create_global t Def_glob_ver).
Proof. intros H. exists t. auto. Qed.
Lemma own_prio_min p v : own_prio rs from p -> own_prio rs from (if p <? v then p else v).
Proof. intros (b & e & q & E & H). exists b, e, q. split; [done |]. destruct (Z.ltb_spec p v); lia. Qed.
(** The number and the priority of a new thread. *)
Lemma negb_eq0 z : negb (z =? 0) = false -> z = 0.
Proof. by intros ?%negb_false_iff%Z.eqb_eq. Qed.

Lemma stays_create_thread tag mr : st (process_create_thread_request tag mr from) any.
Proof.
  unfold process_create_thread_request. do 2 stays_step. eapply stays_bind; [apply stays_find_cfg_any | intros c _]. cbv zeta. eapply (stays_bind _ _ _ _ _ _ any); [| intros r _; stays_tac]. destruct c as [c|]; [| stays_tac].
  eapply stays_bind; [apply stays_thr_alloc | intros t Ht]. destruct (negb (t.1 =? 0)) eqn:E1; [stays_tac |]. specialize (own_new _ (Ht (negb_eq0 _ E1))) as Hid.
  eapply stays_bind; [apply stays_max_prio | intros p Hp]. destruct (negb (p.1 =? 0)) eqn:E2; [stays_tac |]. specialize (own_prio_min _ (al_mr mr 2) (Hp (negb_eq0 _ E2))) as Hpr.
  stays_step. stays_step; [stays_tac |]. eapply stays_bind; [by apply stays_call; left | intros rc _]. stays_step; [stays_tac |]. eapply stays_bind; [by apply stays_call | intros rc' _; stays_tac].
Qed.
Lemma stays_create_task tag mr : st (process_create_task_request tag mr from) any.
Proof.
  unfold process_create_task_request. do 2 stays_step. eapply stays_bind; [apply stays_find_cfg_any | intros c _]. cbv zeta. eapply (stays_bind _ _ _ _ _ _ any); [| intros r _; stays_tac]. destruct c as [c|]; [| stays_tac]. stays_step. stays_step; [stays_tac |].
  eapply stays_bind; [apply stays_thr_alloc | intros t Ht]. destruct (negb (t.1 =? 0)) eqn:E1; [stays_tac |]. specialize (own_new _ (Ht (negb_eq0 _ E1))) as Hid.
  eapply stays_bind; [apply stays_max_prio | intros p Hp]. destruct (negb (p.1 =? 0)) eqn:E2; [stays_tac |]. specialize (own_prio_min _ (al_mr mr 2) (Hp (negb_eq0 _ E2))) as Hpr.
  stays_step. stays_step. stays_step; [stays_tac |]. eapply stays_bind; [by apply stays_call; left | intros rc _]. stays_step; [stays_tac |]. eapply stays_bind; [by apply stays_call | intros rc' _].
  stays_step; [stays_tac |]. eapply stays_bind; [by apply stays_call | intros rc2 _]. stays_step; [stays_tac |]. eapply stays_bind; [by apply stays_call; left | intros rc3 _; stays_tac].
Qed.

(** Deletion: the numbers from the begin of the range to its end belong to the sender. *)
Lemma stays_delete_threads n : forall i thrid code ecode, (forall k, i <= k < i + Z.of_nat n -> own_no rs from k) -> st (delete_threads n i thrid code ecode) any.
Proof.
  induction n as [|n IH]; intros i thrid code ecode Hk; simpl; [by apply stays_ret |]. assert (H1 : forall k, i + 1 <= k < i + 1 + Z.of_nat n -> own_no rs from k) by (intros k ?; apply Hk; lia).
  stays_step. stays_step; [by apply IH |]. stays_step. cbv zeta. eapply stays_bind; [apply stays_call; left; apply own_new, Hk; lia | intros rc _; by apply IH].
Qed.
Lemma stays_delete thrid code b e p : rfind (thrid_number from) rs = Some (b, e, p) -> b <= thrid_number thrid < e -> st (delete_thread thrid code b e) any.
Proof.
  intros Er Hn. unfold delete_thread. cbv zeta. stays_step. stays_step; [stays_tac |]. eapply stays_bind; [apply stays_call; left; exists (thrid_number thrid); split; [by exists b, e, p | by right] | intros rc _].
  stays_step. stays_step; [| stays_tac]. stays_step. eapply (stays_bind _ _ _ _ _ _ any); [| intros r _; stays_tac]. apply stays_delete_threads. intros k Hk. exists b, e, p. split; [done | lia].
Qed.
Lemma stays_delete_request tag mr : st (process_delete_thread_request tag mr from) any.
Proof.
  unfold process_delete_thread_request. do 2 stays_step. cbv zeta. eapply stays_bind; [apply stays_thr_numbers | intros [rc [b e]] Hn]. simpl in Hn |- *. eapply (stays_bind _ _ _ _ _ _ any); [| intros r _; stays_tac].
  destruct (negb (rc =? 0)) eqn:Erc; [stays_tac |]. destruct (_ || _) eqn:Hb; [stays_tac |]. destruct (Hn (negb_eq0 _ Erc)) as [p Ep]. apply orb_false_iff in Hb as [?%Z.ltb_ge ?%Z.leb_gt]. by apply (stays_delete _ _ b e p).
Qed.

Lemma stays_nthr name id : st (nthr_record name id) any.
Proof.
  unfold nthr_record. cbv zeta. stays_step; [stays_tac |]. stays_step. stays_step; [stays_tac |]. do 3 stays_step. eapply (stays_bind _ _ _ _ _ _ any); [| intros ? _; stays_tac]. apply stays_quiet. by intros s y s' [= _ <-] F.
Qed.
Lemma stays_register tag mr : st (process_register_thread_request tag mr from) any.
Proof. pose proof stays_nthr. unfold process_register_thread_request. stays_tac. Qed.
Lemma stays_get_id tag mr : st (process_get_thread_id_request tag mr from) any.
Proof. unfold process_get_thread_id_request. stays_tac. Qed.
Lemma stays_app_threads tag mr : st (process_app_threads_request tag mr from) any.
Proof. unfold process_app_threads_request. stays_tac. Qed.

Lemma stays_round rc mr : st (alpha_round devices rc mr from) any.
Proof.
  unfold alpha_round. cbv zeta. repeat case_match; try (by apply stays_ret); auto using stays_pfault, stays_io_pfault, stays_map_io, stays_attach, stays_named, stays_usual, stays_create_thread, stays_create_task, stays_delete_request, stays_register, stays_get_id, stays_app_threads, stays_kdb. done.
Qed.
End Requests.

(** ** Reachable states *)

Definition apps_ok (s : rt) : Prop := ListSpec.wf (rt_apps s) /\ Forall small_app (busy (rt_apps s)).
Definition sized {X} (m : R X) : Prop := forall s x s', m s = Ok (x, s') -> apps_ok s -> apps_ok s'.

Section Reach.
Context {EV : RtEnv} (devices : list io_device).

Lemma sized_stays {X} from (m : R X) P : (forall rs gs, stays devices rs gs from m P) -> sized m.
Proof. intros Hm s x s' E [W Sm]. destruct (Hm (ranges s) (rights s) s x s' E ltac:(done)) as ((W' & _ & _ & Sm') & _). done. Qed.
Lemma sized_bind {X Y} (m : R X) (k : X -> R Y) : sized m -> (forall x, sized (k x)) -> sized (m ≫= k).
Proof. intros Hm Hk s y s' (x & s1 & E & H)%rbind_Ok Hs. eapply Hk; [exact H |]. by eapply Hm. Qed.
Lemma sized_same {X} (m : R X) : (forall s x s', m s = Ok (x, s') -> rt_apps s' = rt_apps s) -> sized m.
Proof. intros Hm s x s' E. unfold apps_ok. by rewrite (Hm s x s' E). Qed.
Lemma sized_ret {X} (x : X) : sized (mret x).
Proof. by apply sized_same; intros s y s' [= _ <-]. Qed.
Lemma sized_call e : sized (call_krn e).
Proof. apply sized_same. intros s x s' (l & s1 & [= _ <-] & H)%rbind_Ok. by apply rbind_Ok in H as ([] & s2 & [= <-] & [= _ <-]). Qed.
Lemma apps_ok_put s it a a' : apps_ok s -> find_it it (busy (rt_apps s)) = Some a -> small_app (it, a') -> apps_ok (set_apps s (store (rt_apps s) it a')).
Proof.
  intros [W Sm] Ea H. split; [by apply wf_update |]. apply Forall_forall. intros q Hq. rewrite Forall_forall in Sm.
  simpl in Hq. apply update_it_elem in Hq as [->|[Hq _]]; [done | by apply Sm | by apply wf_NoDup_items].
Qed.
Lemma sized_change {X} it (f : app -> app) (k : app -> R X) : (forall a, thr_max (ap_threads (f a)) = thr_max (ap_threads a)) -> (forall a, sized (k a)) -> sized (a ← get_app it; _ ← put_app it (f a); k a).
Proof.
  intros Hf Hk s x s' (a & s1 & [Ea ->]%get_app_Ok & H)%rbind_Ok Hs. apply rbind_Ok in H as ([] & s1 & [= <-] & H). eapply Hk; [exact H |]. eapply apps_ok_put; [done | exact Ea |].
  unfold small_app. simpl. rewrite Hf. destruct Hs as [_ Sm]. rewrite Forall_forall in Sm. exact (Sm (it, a) (find_it_elem_of _ _ _ Ea)).
Qed.
Ltac sized_stay := apply (sized_stays 0 _ any); intros ? ?; stays_tac.

Lemma sized_add_vspace it va sz acc : sized (add_vspace it va sz acc).
Proof. unfold add_vspace, push_reg. sized_stay. Qed.
Lemma sized_set_location it va sz loc : sized (set_location_from_elf it va sz loc).
Proof.
  intros s x s' (a & s1 & [Ea ->]%get_app_Ok & H)%rbind_Ok Hs. apply rbind_Ok in H as (l & s1 & [_ ->]%rlift_Ok & [= _ <-]). eapply apps_ok_put; [done | exact Ea |].
  destruct Hs as [_ Sm]. rewrite Forall_forall in Sm. exact (Sm (it, a) (find_it_elem_of _ _ _ Ea)).
Qed.
Lemma sized_elf it l : sized (elf_callbacks it l).
Proof.
  induction l as [|c t IH]; simpl; [apply sized_ret |]. destruct c as [a sz acc bits|va sz loc load]; (apply sized_bind; [| done]).
  - destruct bits; [apply sized_add_vspace | apply sized_ret].
  - destruct load; [apply sized_set_location | apply sized_ret].
Qed.
Lemma stays_store_args rs gs l : forall argv cnt loc sz d, stays devices rs gs 0 (store_args l argv cnt loc sz d) any.
Proof. induction l as [|c t IH]; intros; simpl; unfold store_word; stays_tac. Qed.
Lemma sized_args it name l va : sized (args it name l va).
Proof.
  unfold args. repeat (apply sized_bind; [solve [sized_stay] | intros ?]). cbv zeta. repeat (apply sized_bind; [solve [sized_stay] | intros ?]). destruct (_ <? _); [sized_stay |].
  apply sized_bind; [apply (sized_stays 0 _ any); intros; apply stays_store_args | intros _]. unfold store_word. do 6 (apply sized_bind; [solve [sized_stay] | intros ?]).
  intros s y s' H. eapply (sized_change it (fun a => with_stack a _ _ _) (fun _ => mret tt)); [done | intros; apply sized_ret |]. apply rbind_Ok in H as (a & s1 & E & H).
  unfold mbind, R_bind. rewrite E. rewrite H. by destruct y.
Qed.
Lemma sized_add_app id : sized (add_app id).
Proof.
  intros s x s' H [W Sm]. unfold add_app in H. apply rbind_Ok in H as (B & s1 & [= <- <-] & H). apply rbind_Ok in H as (B' & s1 & [E ->]%rlift_Ok & H). apply rbind_Ok in H as ([] & s1 & [= <-] & [= _ <-]).
  destruct (push_back_wf _ _ _ W E) as [W' _]. split; [done |]. simpl. unfold push_back, take_free in E. destruct (free (rt_apps s)) as [|f fs]; [done |].
  simpl in E. injection E as <-. simpl. apply Forall_app. split; [done |]. by apply Forall_singleton.
Qed.
Lemma sized_config {X} it (cfg : app_cfg) (k : R X) : in_range 32 (c_max_threads cfg) -> sized k ->
  sized (a ← get_app it; ts ← rlift (thrs_max (ap_threads a) (c_max_threads cfg)); _ ← put_app it (with_config a (c_short_name cfg) (c_max_aspaces cfg) ts (c_max_prio cfg) (c_fpu cfg) (c_strategy cfg)); k).
Proof.
  intros Hc Hk s x s' (a & s1 & [Ea ->]%get_app_Ok & H)%rbind_Ok Hs. apply rbind_Ok in H as (ts & s1 & [E ->]%rlift_Ok & H). apply rbind_Ok in H as ([] & s1 & [= <-] & H). eapply Hk; [exact H |].
  eapply apps_ok_put; [done | exact Ea |]. unfold thrs_max in E. apply bind_Ok in E as ([] & Ew & [= <-]). apply wassert_Ok, Z.leb_le in Ew. unfold small_app. simpl. destruct Hc. lia.
Qed.
Lemma sized_prepare cfg id e : cfg_ok cfg -> sized (prepare_app_memory_map cfg id e).
Proof.
  intros [_ Hc]. unfold prepare_app_memory_map. apply sized_bind; [apply sized_add_app | intros it]. apply sized_config; [done |].
  apply sized_bind; [apply sized_elf | intros _]. apply sized_bind; [sized_stay | intros _]. cbv zeta. apply (sized_change it (fun a => with_areas a _ _ _)); [done | intros _].
  apply sized_bind; [apply (sized_change it (fun a => with_stack a _ _ _)); [done | intros _; apply sized_add_vspace] | intros _]. apply sized_bind; [sized_stay | intros kip].
  apply (sized_change it (fun a => with_areas a _ kip _)); [done | intros _]. apply sized_bind; [apply sized_add_vspace | intros _]. do 2 (apply sized_bind; [sized_stay | intros ?]).
  apply (sized_change it (fun a => with_areas a _ _ _)); [done | intros _]. apply sized_bind; [apply sized_add_vspace | intros _]. apply sized_bind; [apply sized_args | intros _; apply sized_ret].
Qed.
Lemma sized_thr_alloc id u k sz : sized (wrm_app_thr_alloc id u k sz).
Proof. apply (sized_stays id _ (fun _ => True)). intros rs gs. by eapply stays_impl; [apply stays_thr_alloc |]. Qed.
Lemma sized_start it : sized (create_aspace_and_start_app_thread it).
Proof.
  unfold create_aspace_and_start_app_thread. cbv zeta.
  repeat first [apply sized_ret | solve [sized_stay] | apply sized_call | apply sized_thr_alloc | apply sized_bind; [| intros ?] | lazymatch goal with |- sized (if ?b then _ else _) => destruct b end].
Qed.
Lemma sized_create_apps l : forall no, Forall cfg_ok l -> sized (create_apps no l).
Proof.
  induction l as [|c t IH]; intros no F; simpl; [apply sized_ret |]. apply Forall_cons in F as [Fc Ft]. apply sized_bind; [| intros rc; apply sized_bind; [sized_stay | intros _; by apply IH]].
  unfold wrm_app_create. destruct (negb _); [apply sized_ret |]. destruct (ramfs_get_file _) as [e|]; [| apply sized_ret]. apply sized_bind; [by apply sized_prepare | intros it].
  apply sized_bind; [apply sized_start | intros _; apply sized_ret].
Qed.
Lemma sized_named l : sized (prepare_named_memory_regions l).
Proof.
  induction l as [|m t IH]; simpl; [apply sized_ret |]. destruct (negb _); [sized_stay |]. apply sized_bind; [sized_stay | intros loc]. destruct (fpage_is_nil loc); [sized_stay |]. destruct (negb _); [sized_stay |]. cbv zeta.
  apply sized_bind; [apply sized_call | intros rc]. destruct (negb _); [sized_stay |]. apply sized_bind; [| intros b; destruct (negb b); [sized_stay | done]]. unfold named_add.
  apply sized_bind; [sized_stay | intros N]. destruct (negb _); [sized_stay |]. apply sized_bind; [sized_stay | intros N']. apply sized_bind; [| intros _; apply sized_ret]. by apply sized_same; intros s x s' [= _ <-].
Qed.

Lemma steps_apps_ok s s' : rtc (alpha_step devices) s s' -> apps_ok s -> apps_ok s'.
Proof.
  induction 1 as [|s1 s2 s3 H _ IH]; [done |]. intros Hs. apply IH. destruct H as [l s s' F E|no l s s' F E|rc mr from s s' F E].
  - by eapply sized_named.
  - by eapply sized_create_apps.
  - exact (sized_stays from _ any (fun rs gs => stays_round devices rs gs from rc mr) s tt s' E Hs).
Qed.
End Reach.

