(* ===== verification/AlphaRuns.v ===== *)
(** Runs of the root task ([Alpha]) with one application. *)

From Stdlib Require Import ZArith Lia Bool.
From stdpp Require Import base list numbers relations.
From S2P Require Import Prelude SysUtils ListSpec L4Types CString PagePool AppMgr Alpha AlphaMem AlphaSpec AlphaAuth.

(** A kernel without errors and one file with code and data. *)
Definition ex_elf : elf := MkElf 0 [Shdr 0x1000000 0x1000 5 true; Shdr 0x1001000 0x2000 6 true; Phdr 0x1000000 0x3000 0x50000000 true] 0x1000000.
Definition ex_env : RtEnv := {| krn := fun _ _ => 0; ramfs_get_file := fun n => if bool_decide (n = [97]) then Some ex_elf else None; user_base := 64; alpha_id := thrid_create_global 65 Def_glob_ver; junk := 0 |}.
Definition ex_devs : list io_device := [MkDev [117] 0x80000300 0x100 3; MkDev [118] 0x80001000 0x100 4].
Definition ex_cfg : app_cfg := MkCfg [97; 98] 0x61620000 (ramfs_prefix ++ [97]) 0x1000 0x8000 2 4 100 false 0 [[117]] [] [].
(** The items of the lists of 8 applications, 8 named regions and 4 named threads. *)
Definition ex_items (base : Z) (n : nat) : list Z := (fun i => base + 0x100 * Z.of_nat i) <$> seq 0 n.
Definition ex_boot : rt := MkRt (match pg_add (pg_ctor ex_mem) 0x40000127 with Ok p => p | Stop _ => pg_ctor ex_mem end) (MkA [] (ex_items 0x100 8)) [ex_cfg; ex_cfg] (MkA [] (ex_items 0x10000 8)) (MkA [] (ex_items 0x20000 4)) [].
Definition ex_start : res (unit * rt) := create_apps (H := ex_env) 66 [ex_cfg; ex_cfg] ex_boot.
Definition ex_state : rt := match ex_start with Ok (_, s) => s | Stop _ => ex_boot end.
Lemma ex_start_ok : create_apps (H := ex_env) 66 [ex_cfg; ex_cfg] ex_boot = Ok (tt, ex_state).
Proof. by vm_compute. Qed.
Lemma ex_boot_ok : boot ex_boot.
Proof.
  destruct (pg_ctor_ok ex_mem (fun _ => eq_refl)) as [I _].
  destruct (pg_add_ok (pg_ctor ex_mem) 0x40000127 I ltac:(done) ltac:(done) ltac:(vm_compute; lia) ltac:(by exists 0x1000) ltac:(constructor) ltac:(done)) as (p & E & I' & _).
  split; [unfold ex_boot; cbn [rt_pool]; by rewrite E | done |]. split; apply (bool_decide_unpack _); by vm_compute.
Qed.
Lemma ex_reach : rtc (alpha_step (EV := ex_env) ex_devs) ex_boot ex_state.
Proof.
  apply rtc_once. eapply (do_apps (EV := ex_env) ex_devs 66 [ex_cfg; ex_cfg]); [| exact ex_start_ok]. rewrite !Forall_cons. unfold cfg_ok, in_range. simpl. split_and!; by try lia.
Qed.
Lemma ex_elf_ok name e : ramfs_get_file (RtEnv := ex_env) name = Some e -> Forall cb_ok (e_cbs e).
Proof. simpl. case_bool_decide; [| done]. intros [= <-]. simpl. rewrite !Forall_cons. simpl. unfold in_range. split_and!; by try lia. Qed.

#[local] Existing Instance ex_env.

(** The first threads of the two applications and a write fault in the data. *)
Definition ex_thr (n : Z) : Z := thrid_create_global n Def_glob_ver.
Definition ex_fault : list Z := let tag := tag_set_proto_pf 0 Pagefault Acc_w 2 0 in [tag; 0x1002008; 0x1000010].

(** A run that ends in a state with [P]. *)
Definition ran (r : res (unit * rt)) (P : rt -> Prop) : Prop := match r with Ok (_, s) => P s | Stop _ => False end.
Lemma ran_Ok r P : ran r P -> exists s, r = Ok (tt, s) /\ P s.
Proof. destruct r as [[[] s]|]; [| done]. intros H. by exists s. Qed.
(** The events after the start. *)
Definition ex_new (s : rt) : list aev := drop 20 (rt_events s).

(** The second page of the data, copied from the file, is mapped. *)
Definition ex_after_fault (s : rt) : Prop :=
  ex_new s = [EvCopy 0x4000a000 0x50002000 0x1000; EvSend (ex_thr 66) [tag_set_ipc 0 0 2; 8; 0x4000a0c6]] /\ (fun q => name_is_lx (ap_name q.2)) <$> busy (rt_apps s) = [false; false].
Lemma ex_fault_run : ran (process_pfault (hd 0 ex_fault) ex_fault (ex_thr 66) ex_state) ex_after_fault.
Proof. by vm_compute. Qed.
Lemma ex_owner : apps_search (thrid_number (ex_thr 66)) (busy (rt_apps ex_state)) = 0x100.
Proof. by vm_compute. Qed.
(** The interrupt of the configured device. *)
Definition ex_attach : list Z := [tag_set_ipc Wrm_ipc_attach_int 1 0; 0x75000000].
Definition ex_after_attach (s : rt) : Prop :=
  ex_new s = [EvThread (thrid_create_irq 3) Thrid_nil Thrid_nil (ex_thr 66) 0; EvSend (ex_thr 66) [tag_set_ipc Wrm_ipc_attach_int 1 0; 3]].
Lemma ex_attach_run : ran (alpha_round ex_devs 0 ex_attach (ex_thr 66) ex_state) ex_after_attach.
Proof. by vm_compute. Qed.

Lemma in_falses b : b ∈ [false; false] -> b = false.
Proof. set_solver. Qed.

(** ** Runs with defects *)

Fixpoint rounds (l : list (list Z * Z)) : R unit := match l with [] => mret tt | (mr, from) :: t => _ ← alpha_round ex_devs 0 mr from; rounds t end.
Definition ex_run (l : list (list Z * Z)) : option (list aev) := match rounds l ex_state with Ok (_, s) => Some (ex_new s) | Stop _ => None end.
Definition ex_create (space : Z) : list Z := [tag_set_ipc Wrm_ipc_create_thread 7 0; 0xff50c6; 50; space; Thrid_any; Thrid_any; 0x2000; 0x1000].
Definition ex_delete (n : Z) : list Z := [tag_set_ipc Wrm_ipc_delete_thread 2 0; ex_thr n; 0].
Definition ex_memory (va sz : Z) : list Z := [tag_set_ipc Wrm_ipc_get_usual_mem 2 0; va; sz].
Definition ex_register (c : Z) : list Z := [tag_set_ipc Wrm_ipc_register_thread 1 0; c * 2 ^ 24].
Definition ex_com : io_device := MkDev [117] 0x3f8 8 4.
Definition ex_port (port : Z) : option (list aev) :=
  let mr := [tag_set_proto 0 Io_pagefault 2 0; match fpage_set_io 0 port 1 with Ok f => f | Stop _ => 0 end; 0] in
  match process_io_pfault [ex_com] (hd 0 mr) mr (ex_thr 66) ex_state with Ok (_, s) => Some (ex_new s) | Stop _ => None end.


#[local] Opaque ex_state.

Lemma memory_isolation_witness : exists s', process_pfault (hd 0 ex_fault) ex_fault (ex_thr 66) ex_state = Ok (tt, s') /\
  (forall it it' x, writable ex_state it x -> writable ex_state it' x -> it = it') /\
  exists l w0 pg k, rt_events s' = l ++ EvSend (ex_thr 66) [tag_set_ipc 0 0 2; w0; pg] :: k /\
    (fpage_is_complete pg = true \/ fpage_is_nil pg = true \/ Z.land (fpage_access pg) Acc_w = 0 \/ forall x, fpage_has pg x -> writable s' 0x100 x).
Proof.
  destruct (memory_isolation ex_devs ex_elf_ok ltac:(unfold in_range; simpl; lia) ex_boot ex_state ex_boot_ok ex_reach) as (H1 & _ & H3).
  destruct (ran_Ok _ _ ex_fault_run) as (s' & E & _ & Hn). exists s'. split; [exact E |]. split; [exact H1 |].
  apply (H3 (hd 0 ex_fault) ex_fault (ex_thr 66) 0x100 s' ex_owner); [lia | change (al_mr ex_fault 1) with 0x1002008; unfold in_range; lia | change (al_mr ex_fault 1) with 0x1002008; lia | | exact E].
  intros a Ha. apply (list_elem_of_fmap_2 (fun q => name_is_lx (ap_name q.2))) in Ha. rewrite Hn in Ha. exact (in_falses _ Ha).
Defined.

